(* ===== verification/_CoqProject ===== *)
-Q . S2P
Prelude.v
GoStrings.v
Heap.v
NetAddr.v
NetText.v
Proto.v
Corrosion.v
Store.v
Port.v
Volume.v
ConfigSpec.v
Spec.v
Resolver.v
Compose.v
Secrets.v
Container.v
DockerServer.v
ServiceClient.v
ContainerClient.v
Scheduler.v
VolumeScheduler.v
SpecChange.v
Operation.v
Strategy.v
Deployment.v
RunService.v
Commands.v
LogArgs.v
ClientConfig.v
Shell.v
ComposeDeploy.v
Ipam.v
Cluster.v
Admin.v
Network.v
Link.v
StateFile.v
Controller.v
Bootstrap.v
Setup.v
Enrol.v
ContainerSync.v
Watch.v
Firewall.v
Daemon.v
Proxy.v
Migrate.v
LeaseStore.v
Locker.v
LogMerger.v
LogStream.v
Inspect.v
Dns.v
Caddy.v
