(* ===== verification/Prelude.v ===== *)
(** * A verification library for Uncloud

    Uncloud connects Docker hosts into a cluster without a control plane.  Every machine runs
    a daemon ([src/cmd/uncloudd], [src/internal/machine]) with a WireGuard network, a
    replicated store (Corrosion), a Docker server, a DNS server and a Caddy controller; the
    command line ([src/cmd/uc], [src/pkg/client]) asks the daemon of one machine, which
    proxies requests to the others, and computes deployments on the client side.  This
    library translates the Go code of these parts to functions and step relations, and
    proves what makes them correct.

    ** How the code is modelled

    A Go function that returns an error is a function into [result]; a stateful function
    passes the state on, in the monad [stateful] of this file where calls follow each other.
    A panic is a value of its own ([None], or a constructor that says panic).  Goroutines are
    step relations, or results for every interleaving or order.  Integers are [Z] with the
    wrap-around of their width written out where it can occur; strings are byte strings.
    The random source, the ranging over a map and the scheduling of goroutines are
    arguments, over all of which the theorems quantify.

    Code that is not in [src/] (Docker, Corrosion, the kernel, Caddy, WireGuard, protobuf and
    JSON codecs, compose-go, netipx) is an argument: a record of operations or answers, or a
    class whose laws are its documented behaviour.  Every class with laws that a theorem
    uses has an instance, and every theorem with hypotheses a closed example ([_witness])
    that applies it.

    ** The files, bottom up

    Shared: this file (results, the state monad, lists, tactics); [GoStrings] ([strings],
    [strconv]); [Heap] ([container/heap]); [NetAddr] and [NetText] ([net/netip]); [Proto]
    ([internal/machine/api/pb], by hand).

    The store: [Corrosion] ([internal/corrosion/query.go], [subscribe.go]): row iteration and
    subscriptions that survive broken streams, on the sequence of decoded events.  [Admin]
    ([admin.go]): the framed protocol of the admin socket.  [Store] ([store/store.go]): the
    records of machines and the settings.  [Migrate] ([corromigrate]): the move from the old
    store, with a crash possible before every system call.

    Specifications: [Port], [Volume], [ConfigSpec], [Spec] ([pkg/api]): validation, defaults,
    comparison, and the text syntax of ports with its round trip.  [Container]: containers and
    their state.  [Resolver]: names, images and IDs of a deployable specification.
    [Compose], [Secrets] ([pkg/client/compose]): specifications from a compose project.
    [Commands], [LogArgs] ([cmd/uc/service], [internal/cli/logs]): from flags.

    Deployment ([pkg/client/deploy]): [Scheduler] (constraints), [VolumeScheduler] (where
    missing volumes go: soundness and completeness against a declarative placement
    problem), [SpecChange] and [Strategy] (rolling plans: every container kept, replaced or
    removed once), [Operation] (the execution of plans), [Deployment], [ComposeDeploy] and
    [RunService] (the compositions).  [ServiceClient] and [ContainerClient] ([pkg/client]) are
    the operations on running services, [DockerServer] ([internal/machine/docker/server.go])
    what a machine does for them: [Deployment] plans with [Strategy] behind the interface
    [StrategyLaws], and executes [Operation]s, whose calls end in [DockerServer].

    The machine: [Ipam] and [Cluster] ([cluster/ipam.go], [cluster.go]): subnets and
    membership.  [StateFile], [Controller], [Watch], [Inspect], [Bootstrap], [Setup],
    [Daemon] ([machine.go], [cluster.go], [state.go]): the machine state and its file, the
    controller's handlers, its loops, the inspection calls, the first machine of a cluster,
    the set-up of Corrosion and of the sockets, and the start and end of all goroutines.
    [ContainerSync] ([docker/controller.go]): the containers of the machine in the store.
    [Network] and [Link] ([network]): peers, endpoint rotation, the device, addresses and
    routes.  [Firewall] ([firewall], [docker/controller_linux.go]).  [Proxy] ([api/proxy]):
    requests to other machines.  [Dns] and [Caddy] ([dns], [caddyconfig]): what is served
    from the containers in the store.  The state one component leaves is the input of the
    next: [Controller] writes the record that [Store] keeps, [Watch] reads the records back
    and hands them to [Controller] and [Network].

    Leases ([pkg/distlock]): [LeaseStore] (nodes, refining an abstract table behind a class)
    and [Locker] (quorum leases over any such nodes: mutual exclusion under bounded clock
    drift).  Logs: [LogStream] and [LogMerger] ([pkg/client]): lines, heartbeats, and the
    ordered merge.  The command line: [ClientConfig] (contexts and connections), [Shell]
    (quoting, against the rules of the POSIX shell), [Enrol] (adding and removing machines).

    ** What the theorems show

    Safety and invariants: mutual exclusion of leases, unique and disjoint members of a
    cluster, all-or-nothing creation of containers, crash safety of the state file and of
    the migration, the firewall chains, the life of the daemon.  Functional correctness and
    refinement: plans that reconcile, volume placement, the device and the routes of the
    peers, the Caddyfile and the controller that keeps the last good one, synchronisation of
    records, enrolment.  Order and completeness: subscriptions, merged logs, broadcast
    replies, replacement of containers.  Round trips: ports, specifications in labels,
    machine messages.  Termination and progress: the allocator, the propagation of the
    volume scheduler, the merger, endpoint rotation, the shut-down.  Examples next to them
    show the behaviours a reader may not expect, such as a listing that breaks off and is
    taken as complete, or a Caddyfile whose write failed and is not written again.

    ** Fuel and bounds

    The loops of the code that are not structural have fuel, and a lemma each that it is
    enough: the propagation of [VolumeScheduler] has one round more than the machines in all
    sets, as every round but the last removes one; [Ipam] has a step for every subnet of
    the network and one to leave it; [rows_loop] of [Corrosion] and [responses] of [Admin]
    have the length of their stream; the
    suffixes of [Cluster] and the context names of [ClientConfig] one more than the names
    taken; the queue loops of [LogMerger] the length of the queue; [Heap] the length of the
    slice; the scanners of strings the length of the string.  [Daemon] has measures that
    bound its steps once it stops; its [GracefulStop] waits for the clients' requests, so
    that bound needs them to end.

    ** What is not modelled

    Generated protocol code, printed output, progress and prompts, the remaining commands,
    gRPC and SSH connections, image pushes and builds, metrics, and the clients that pass a
    call on.  Of the modelled parts: the encodings are arguments with their laws; backoff
    delays are left out (a retry comes at any later moment); the drift allowance of
    [Locker] is computed exactly instead of in [float64]; reads of several machines in
    [ServiceClient] are of one world; the store of [Cluster] is that of one machine, and the
    replication between machines is Corrosion's. *)

From stdpp Require Export base tactics numbers list strings gmap sorting sets.
From Stdlib Require Export ZArith Lia.

(** ** Results of fallible Go functions

    A Go function returning [(T, error)] is a function into [result E T]. *)
Inductive result (E A : Type) : Type :=
| Ok (a : A)
| Err (e : E).
Arguments Ok {E A} _.
Arguments Err {E A} _.

Declare Scope go_scope.
Delimit Scope go_scope with go.

Definition res_bind {E A B} (r : result E A) (k : A -> result E B) : result E B :=
  match r with
  | Ok a => k a
  | Err e => Err e
  end.

Notation "'let!' x ':=' r 'in' k" := (res_bind r (fun x => k))
  (at level 10, x pattern, r at level 100, k at level 200) : go_scope.

(** [fmt.Errorf("ctx: %w", err)]: wrap the error of a result. *)
Definition wrap_err {E F A} (f : E -> F) (r : result E A) : result F A :=
  match r with
  | Ok a => Ok a
  | Err e => Err (f e)
  end.

(** ** Functions that change a state and may fail *)
Definition stateful (S E A : Type) : Type := S -> S * result E A.

Section Stateful.
Context {S E : Type}.
Definition st_ret {A} (a : A) : stateful S E A := fun s => (s, Ok a).
Definition st_throw {A} (e : E) : stateful S E A := fun s => (s, Err e).
Definition st_bind {A B} (p : stateful S E A) (k : A -> stateful S E B) : stateful S E B := fun s =>
  match p s with
  | (s', Ok a) => k a s'
  | (s', Err e) => (s', Err e)
  end.
(** A call that returns only an error. *)
Definition st_call {X} (wrap : X -> E) (op : S -> S * option X) : stateful S E unit := fun s =>
  match op s with
  | (s', None) => (s', Ok tt)
  | (s', Some e) => (s', Err (wrap e))
  end.
(** A call that changes nothing. *)
Definition st_read {A} (f : S -> result E A) : stateful S E A := fun s => (s, f s).

Lemma st_bind_Ok {A B} (p : stateful S E A) (k : A -> stateful S E B) s s' b :
  st_bind p k s = (s', Ok b) <-> exists s1 a, p s = (s1, Ok a) /\ k a s1 = (s', Ok b).
Proof.
  unfold st_bind. destruct (p s) as [s1 [a|e]]; split.
  - eauto.
  - by intros (? & ? & [= <- <-] & ?).
  - done.
  - by intros (? & ? & ? & ?).
Qed.

Lemma st_call_Ok {X} (wrap : X -> E) (op : S -> S * option X) s s' u : st_call wrap op s = (s', Ok u) <-> op s = (s', None).
Proof. unfold st_call. destruct u. destruct (op s) as [s1 [e|]]; split; by intros [= ->]. Qed.
End Stateful.

Declare Scope st_scope.
Delimit Scope st_scope with st.
Notation "'let*' x ':=' p 'in' k" := (st_bind p (fun x => k))
  (at level 10, x pattern, p at level 100, k at level 200) : st_scope.

Definition is_ok {E A} (r : result E A) : bool :=
  match r with Ok _ => true | Err _ => false end.

Section Results.
Context {E A B : Type}.

Lemma res_bind_Ok (r : result E A) (k : A -> result E B) b :
  res_bind r k = Ok b <-> exists a, r = Ok a /\ k a = Ok b.
Proof. destruct r; simpl; naive_solver. Qed.

Lemma wrap_err_Ok {F} (f : E -> F) (r : result E A) a :
  wrap_err f r = Ok a <-> r = Ok a.
Proof. destruct r; simpl; naive_solver. Qed.

Lemma is_ok_true (r : result E A) : is_ok r = true <-> exists a, r = Ok a.
Proof. destruct r; simpl; naive_solver. Qed.
End Results.

(** The [for _, x := range xs { if err := f(x); err != nil { return err } }] idiom. *)
Fixpoint each_ok {E A} (f : A -> result E unit) (xs : list A) : result E unit :=
  match xs with
  | [] => Ok tt
  | x :: xs' => match f x with Ok _ => each_ok f xs' | Err e => Err e end
  end.

Lemma each_ok_Ok {E A} (f : A -> result E unit) xs :
  each_ok f xs = Ok tt <-> Forall (fun x => f x = Ok tt) xs.
Proof.
  induction xs as [|x xs IH]; simpl.
  - split; [constructor | reflexivity].
  - rewrite Forall_cons, <- IH. destruct (f x) as [[]|e]; naive_solver.
Qed.

(** The loop that collects the results of a fallible call. *)
Fixpoint map_ok {E A B} (f : A -> result E B) (xs : list A) : result E (list B) :=
  match xs with
  | [] => Ok []
  | x :: xs' =>
      match f x with
      | Err e => Err e
      | Ok y => match map_ok f xs' with Ok ys => Ok (y :: ys) | Err e => Err e end
      end
  end.

Lemma map_ok_Ok {E A B} (f : A -> result E B) xs ys :
  map_ok f xs = Ok ys <-> Forall2 (fun x y => f x = Ok y) xs ys.
Proof.
  revert ys; induction xs as [|x xs IH]; intros ys; simpl.
  - split; [intros [= <-]; constructor | inversion 1; reflexivity].
  - split.
    + destruct (f x) as [y|] eqn:Hx; [|discriminate].
      destruct (map_ok f xs) as [zs|] eqn:Hxs; [|discriminate].
      intros [= <-]. constructor; [assumption | by apply IH].
    + inversion 1 as [|? y ? zs Hxy Hrest]; subst. apply IH in Hrest. by rewrite Hxy, Hrest.
Qed.

(** The Go conversion [int(x)] of a [w]-bit unsigned value on a 64-bit platform. *)
Definition int64_of_uint64 (n : Z) : Z :=
  if (n <? 2 ^ 63)%Z then n else (n - 2 ^ 64)%Z.

(** *** Loops without a bound that look for a free candidate *)
(** The first number from [i] that [ok] accepts, among [fuel]. *)
Fixpoint first_from (ok : nat -> bool) (fuel i : nat) : option nat :=
  match fuel with
  | O => None
  | S f => if ok i then Some i else first_from ok f (S i)
  end.

Lemma first_from_spec ok fuel : forall i, (exists j, (i <= j < i + fuel)%nat /\ ok j = true) ->
  exists j, first_from ok fuel i = Some j /\ (i <= j)%nat /\ ok j = true /\ forall k, (i <= k < j)%nat -> ok k = false.
Proof.
  induction fuel as [|fuel IH]; intros i (j & Hj & Hok); [lia|]. cbn [first_from]. destruct (ok i) eqn:Hi.
  - exists i. split_and!; [done|lia|done|lia].
  - destruct (IH (S i)) as (j' & Hrun & Hle & Hok' & Hall).
    + exists j. split; [|done]. assert (i <> j) by congruence. lia.
    + exists j'. split_and!; [done|lia|done|]. intros k Hk. destruct (decide (k = i)) as [->|]; [done|]. apply Hall. lia.
Qed.

(** Among one candidate more than there are names taken, one is free. *)
Lemma free_candidate {A} `{EqDecision A} (f : nat -> A) (taken : list A) i : (forall j k, f j = f k -> j = k) ->
  exists j, (i <= j < i + S (length taken))%nat /\ f j ∉ taken.
Proof.
  intros Hinj. destruct (decide (Forall (fun j => f j ∈ taken) (seq i (S (length taken))))) as [Hall|Hex].
  - exfalso. assert (Hnd : NoDup (map f (seq i (S (length taken))))) by (apply NoDup_fmap_2; [done|apply NoDup_seq]).
    assert (Hsub : map f (seq i (S (length taken))) ⊆+ taken).
    { apply NoDup_submseteq; [done|]. intros x Hx. apply list_elem_of_fmap in Hx as (j & -> & Hj).
      rewrite Forall_forall in Hall. by apply Hall. }
    apply submseteq_length in Hsub. rewrite length_map, length_seq in Hsub. lia.
  - apply not_Forall_Exists in Hex; [|apply _]. apply Exists_exists in Hex as (j & Hj & Hfree).
    exists j. apply elem_of_seq in Hj. split; [lia|done].
Qed.

(** The first match in a concatenation. *)
Lemma find_app {A} (f : A -> bool) l1 l2 :
  List.find f (l1 ++ l2) = match List.find f l1 with Some x => Some x | None => List.find f l2 end.
Proof. induction l1 as [|x l1 IH]; simpl; [done|]. by destruct (f x). Qed.

(** ** Sorting

    [sort.Slice] and [slices.SortFunc] are documented as an in-place, not
    necessarily stable sort that requires the comparison to be a strict weak
    ordering.  The class states exactly that; [less x y] is [cmp(x, y) < 0] for
    [slices.SortFunc].  A sort only swaps elements, so the result is a permutation
    even when the comparison is not an ordering. *)
Definition strict_weak {A} (less : A -> A -> bool) : Prop :=
  (forall x, less x x = false) /\
  (forall x y z, less x y = true -> less y z = true -> less x z = true) /\
  (forall x y z, less x z = true -> less x y = true \/ less y z = true).

Class GoSort := {
  sort_slice : forall {A : Type}, (A -> A -> bool) -> list A -> list A;
  sort_slice_perm : forall A (less : A -> A -> bool) l, sort_slice less l ≡ₚ l;
  sort_slice_sorted : forall A (less : A -> A -> bool) l,
    strict_weak less -> Sorted (fun x y => less y x = false) (sort_slice less l)
}.

(** Go's own routine for slices of at most twelve elements, which also witnesses
    the class: [insertionSortCmpFunc]. The processed prefix is kept reversed, so
    that the inner loop moves an element left while it is smaller. *)
Fixpoint insert_left {A} (less : A -> A -> bool) (x : A) (rp : list A) : list A :=
  match rp with
  | [] => [x]
  | p :: rp' => if less x p then p :: insert_left less x rp' else x :: p :: rp'
  end.

Definition insertion_sort {A} (less : A -> A -> bool) (l : list A) : list A :=
  reverse (fold_left (fun rp x => insert_left less x rp) l []).

Section InsertionSort.
Context {A : Type} (less : A -> A -> bool).

Lemma insert_left_perm x rp : insert_left less x rp ≡ₚ x :: rp.
Proof.
  induction rp as [|p rp IH]; simpl; [done|].
  destruct (less x p); [|done]. rewrite IH. apply Permutation_swap.
Qed.

Lemma fold_insert_perm l acc :
  fold_left (fun rp x => insert_left less x rp) l acc ≡ₚ l ++ acc.
Proof.
  revert acc; induction l as [|x l IH]; intros acc; simpl; [done|].
  rewrite IH, insert_left_perm. by rewrite Permutation_middle.
Qed.

Lemma insertion_sort_perm l : insertion_sort less l ≡ₚ l.
Proof.
  unfold insertion_sort. rewrite reverse_Permutation, fold_insert_perm.
  by rewrite app_nil_r.
Qed.

Hypothesis Hsw : strict_weak less.

Lemma insert_left_sorted x rp :
  Sorted (fun a b => less a b = false) rp ->
  Sorted (fun a b => less a b = false) (insert_left less x rp).
Proof.
  destruct Hsw as (Hirr & Htrans & _).
  intros Hs; induction Hs as [|p rp Hs IH Hhd]; simpl; [repeat constructor|].
  destruct (less x p) eqn:Hxp.
  - constructor; [done|]. destruct rp as [|q rp]; simpl.
    + constructor. destruct (less p x) eqn:Hpx; [|done].
      specialize (Htrans _ _ _ Hxp Hpx). by rewrite Hirr in Htrans.
    + destruct (less x q).
      * inversion Hhd; subst. by constructor.
      * constructor. destruct (less p x) eqn:Hpx; [|done].
        specialize (Htrans _ _ _ Hxp Hpx). by rewrite Hirr in Htrans.
  - constructor; [by constructor|]. by constructor.
Qed.

Lemma fold_insert_sorted l acc :
  Sorted (fun a b => less a b = false) acc ->
  Sorted (fun a b => less a b = false)
    (fold_left (fun rp x => insert_left less x rp) l acc).
Proof.
  revert acc; induction l as [|x l IH]; intros acc Hs; simpl; [done|].
  apply IH. by apply insert_left_sorted.
Qed.

Lemma insertion_sort_sorted l :
  Sorted (fun x y => less y x = false) (insertion_sort less l).
Proof.
  unfold insertion_sort.
  apply (Sorted_reverse (fun a b => less a b = false)).
  apply fold_insert_sorted. constructor.
Qed.
End InsertionSort.

(** The executable instance, used by the witnesses. *)
Definition go_insertion_sort : GoSort := {|
  sort_slice := @insertion_sort;
  sort_slice_perm := @insertion_sort_perm;
  sort_slice_sorted := fun A less l H => insertion_sort_sorted less H l
|}.

(** [slices.Sort] on strings: the byte-wise lexicographic order is total, so the
    result is unique and is computed by any sort. *)
Definition sort_strings (l : list string) : list string := merge_sort String.le l.

Lemma sort_strings_perm l : sort_strings l ≡ₚ l.
Proof. apply merge_sort_Permutation. Qed.

Lemma sort_strings_Sorted l : Sorted String.le (sort_strings l).
Proof. apply Sorted_merge_sort; apply _. Qed.

Lemma sort_strings_eq l1 l2 : sort_strings l1 = sort_strings l2 <-> l1 ≡ₚ l2.
Proof.
  split; intros H.
  - by rewrite <- (sort_strings_perm l1), H, sort_strings_perm.
  - apply (Sorted_unique String.le); [apply sort_strings_Sorted..|].
    by rewrite !sort_strings_perm.
Qed.

(** ** Unspecified orders

    Ranging over a Go map visits the entries in an unspecified order, and
    [rand.Shuffle] permutes a slice. Every such visit is an independent choice of
    the runtime: the [site] argument tells the visits apart. *)
Class GoOrder := {
  any_order : forall (site : nat) {A : Type}, list A -> list A;
  any_order_perm : forall site A (l : list A), any_order site l ≡ₚ l
}.

Definition go_identity_order : GoOrder := {|
  any_order := fun _ _ l => l;
  any_order_perm := fun _ _ _ => Permutation_refl _
|}.

(** [for k, v := range m] over a Go map. *)
Definition range_map `{GoOrder} {V} (site : nat) (m : gmap string V) : list (string * V) :=
  any_order site (map_to_list m).

Lemma elem_of_range_map `{GoOrder} {V} site (m : gmap string V) k v :
  (k, v) ∈ range_map site m <-> m !! k = Some v.
Proof. unfold range_map. rewrite any_order_perm. apply elem_of_map_to_list. Qed.

(** [m[k]] on a Go map of slices: the zero value of an absent key is nil. *)
Definition map_get {V} (m : gmap string (list V)) (k : string) : list V :=
  default [] (m !! k).

(** [m[k] = append(m[k], v)]. *)
Definition map_append {V} (k : string) (v : V) (m : gmap string (list V)) :
  gmap string (list V) := <[k := map_get m k ++ [v]]> m.

Lemma map_get_append {V} (m : gmap string (list V)) k k' v :
  map_get (map_append k v m) k' = map_get m k' ++ (if decide (k = k') then [v] else []).
Proof.
  unfold map_get, map_append. destruct (decide (k = k')) as [->|Hne].
  - by rewrite lookup_insert_eq.
  - by rewrite lookup_insert_ne, app_nil_r.
Qed.

Lemma omap_cons_eq {A B} (f : A -> option B) x l :
  omap f (x :: l) = match f x with Some y => y :: omap f l | None => omap f l end.
Proof. done. Qed.

(** The entries of a map of slices, one pair per element. *)
Definition flatten {V} (kvs : list (string * list V)) : list (string * V) :=
  concat (map (fun kv => map (pair kv.1) kv.2) kvs).
Definition pairs {V} (m : gmap string (list V)) : list (string * V) := flatten (map_to_list m).

Section Pairs.
Context {V : Type}.
Implicit Types (m : gmap string (list V)) (l : list V).

Lemma flatten_perm (kvs kvs' : list (string * list V)) : kvs ≡ₚ kvs' -> flatten kvs ≡ₚ flatten kvs'.
Proof.
  unfold flatten. induction 1; simpl; [done|by f_equiv| |by etrans].
  rewrite !app_assoc. f_equiv. apply Permutation_app_comm.
Qed.

Lemma pairs_range `{GoOrder} site m : flatten (range_map site m) ≡ₚ pairs m.
Proof. apply flatten_perm, any_order_perm. Qed.

Lemma pairs_delete k m : pairs m ≡ₚ map (pair k) (map_get m k) ++ pairs (delete k m).
Proof.
  unfold map_get. destruct (m !! k) as [l|] eqn:Hk; simpl; [|by rewrite delete_id].
  rewrite <- (insert_delete_id m k l Hk) at 1. unfold pairs.
  rewrite (flatten_perm _ _ (map_to_list_insert (delete k m) k l (lookup_delete_eq m k))). done.
Qed.

Lemma map_get_insert k l m : map_get (<[k := l]> m) k = l.
Proof. unfold map_get. by rewrite lookup_insert_eq. Qed.

Lemma pairs_insert k l m : pairs (<[k := l]> m) ≡ₚ map (pair k) l ++ pairs (delete k m).
Proof. by rewrite (pairs_delete k), map_get_insert, delete_insert_eq. Qed.

Lemma pairs_append k v m : pairs (map_append k v m) ≡ₚ pairs m ++ [(k, v)].
Proof.
  unfold map_append. rewrite pairs_insert, (pairs_delete k m), map_app. simpl.
  by rewrite <- !app_assoc, (Permutation_app_comm (pairs _)).
Qed.

Lemma pairs_pop k v l m : map_get m k = v :: l -> pairs m ≡ₚ (k, v) :: pairs (<[k := l]> m).
Proof. intros Hg. by rewrite (pairs_delete k m), Hg, pairs_insert. Qed.

Lemma elem_of_pairs k v m : (k, v) ∈ pairs m <-> v ∈ map_get m k.
Proof.
  unfold pairs, flatten, map_get. rewrite list_elem_of_In, in_concat. setoid_rewrite in_map_iff.
  setoid_rewrite <- list_elem_of_In. split.
  - intros (? & ([k' l] & <- & Hkl%elem_of_map_to_list) & Hv). simpl in Hv.
    apply list_elem_of_fmap in Hv as (w & [= -> ->] & Hw). by rewrite Hkl.
  - destruct (m !! k) as [l|] eqn:Hk; simpl; [|by intros ?%not_elem_of_nil]. intros Hv.
    exists (map (pair k) l). split; [|by apply list_elem_of_fmap_2].
    exists (k, l). split; [done|]. by apply elem_of_map_to_list.
Qed.

Lemma pairs_empty : pairs (∅ : gmap string (list V)) = [].
Proof. unfold pairs. by rewrite map_to_list_empty. Qed.
End Pairs.

(** A comparison that tells distinct elements apart determines the sorted slice. *)
Lemma sort_slice_unique `{GoSort} {A} (less : A -> A -> bool) (l1 l2 : list A) :
  strict_weak less -> (forall x y, less x y = false -> less y x = false -> x = y) ->
  sort_slice less l1 = sort_slice less l2 <-> l1 ≡ₚ l2.
Proof.
  intros Hsw Htot. split.
  - intros Heq. by rewrite <- (sort_slice_perm A less l1), Heq, sort_slice_perm.
  - intros Hp. set (R := fun x y => less y x = false).
    assert (Htr : Transitive R).
    { intros x y z Hxy Hyz. unfold R in *. destruct (less z x) eqn:Hzx; [|done].
      destruct (proj2 (proj2 Hsw) z y x Hzx); congruence. }
    assert (Ha : AntiSymm (=) R) by (intros x y Hxy Hyx; by apply Htot).
    apply (Sorted_unique R); [by apply sort_slice_sorted..|].
    by rewrite !sort_slice_perm.
Qed.

(** ** Comparators built field by field

    [if f(x) != f(y) { return f(x) < f(y) }] followed by the rest of the comparison. *)
Definition total_less {A} (less : A -> A -> bool) : Prop :=
  strict_weak less /\ forall x y, less x y = false -> less y x = false -> x = y.

Definition lex_less {A K} `{EqDecision K} (key : A -> K) (lessK : K -> K -> bool)
  (rest : A -> A -> bool) (x y : A) : bool :=
  if decide (key x = key y) then rest x y else lessK (key x) (key y).

Lemma lex_less_weak {A K} `{EqDecision K} (key : A -> K) lessK (rest : A -> A -> bool) :
  total_less lessK -> strict_weak rest -> strict_weak (lex_less key lessK rest).
Proof.
  intros [(Hki & Hkt & Hkn) Hktot] (Hri & Hrt & Hrn). unfold lex_less. split_and!.
  - intros x. by rewrite decide_True.
  - intros x y z. destruct (decide (key x = key y)) as [Exy|Nxy], (decide (key y = key z)) as [Eyz|Nyz].
    + rewrite decide_True by congruence. apply Hrt.
    + rewrite decide_False by congruence. intros _. by rewrite Exy.
    + rewrite decide_False by congruence. intros Hxy _. by rewrite <- Eyz.
    + intros H1 H2. pose proof (Hkt _ _ _ H1 H2) as H3. destruct (decide (key x = key z)) as [E|]; [|done].
      rewrite E in H3. by rewrite Hki in H3.
  - intros x y z. destruct (decide (key x = key z)) as [Exz|Nxz].
    + intros Hr. destruct (decide (key x = key y)) as [Exy|Nxy].
      * rewrite decide_True by congruence. by apply Hrn.
      * rewrite decide_False by congruence. destruct (lessK (key x) (key y)) eqn:H1; [by left|right].
        rewrite <- Exz. destruct (lessK (key y) (key x)) eqn:H2; [done|]. by destruct Nxy; apply Hktot.
    + intros Hk. destruct (Hkn _ (key y) _ Hk) as [H1|H1].
      * left. rewrite decide_False; [done|]. intros E. rewrite E in H1. by rewrite Hki in H1.
      * right. rewrite decide_False; [done|]. intros E. rewrite E in H1. by rewrite Hki in H1.
Qed.

Lemma lex_less_total {A K} `{EqDecision K} (key : A -> K) lessK (rest : A -> A -> bool) x y :
  total_less lessK -> lex_less key lessK rest x y = false -> lex_less key lessK rest y x = false ->
  key x = key y /\ rest x y = false /\ rest y x = false.
Proof.
  intros [_ Htot]. unfold lex_less. destruct (decide (key x = key y)) as [E|N].
  - rewrite decide_True by done. auto.
  - rewrite decide_False by congruence. intros H1 H2. by destruct N; apply Htot.
Qed.

Lemma strict_weak_false {A} : strict_weak (fun _ _ : A => false).
Proof. split_and!; done. Qed.

Lemma ltb_leb s1 s2 : String.ltb s1 s2 = negb (String.leb s2 s1).
Proof.
  unfold String.ltb, String.leb. rewrite (String.compare_antisym s2 s1).
  by destruct (String.compare s1 s2).
Qed.

Lemma string_total : total_less String.ltb.
Proof.
  assert (Hle : forall s1 s2, String.ltb s1 s2 = false <-> String.le s2 s1).
  { intros. rewrite ltb_leb, negb_false_iff. unfold String.le. split; [by intros ->|]. by destruct (String.leb s2 s1). }
  assert (Hlt : forall s1 s2, String.ltb s1 s2 = true <-> ~ String.le s2 s1).
  { intros. by rewrite <- not_false_iff_true, Hle. }
  split; [split_and!|].
  - intros x. by apply Hle.
  - intros x y z. rewrite !Hlt. intros H1 H2 H3. destruct (total String.le x y) as [H|H]; [|done].
    apply H2. by transitivity x.
  - intros x y z. rewrite !Hlt. intros H. destruct (decide (String.le y x)) as [H1|H1]; [right|by left].
    intros H2. apply H. by transitivity y.
  - intros x y. rewrite !Hle. intros H1 H2. by apply (anti_symm String.le).
Qed.

Lemma eqb_decide {A} (s1 s2 : string) (x y : A) :
  (if negb (String.eqb s1 s2) then x else y) = (if decide (s1 = s2) then y else x).
Proof. by destruct (String.eqb_spec s1 s2), (decide (s1 = s2)). Qed.

(** ** Slices and maps that may be nil *)
Abbreviation slice A := (option (list A)).
Abbreviation gomap V := (option (gmap string V)).

Definition els {A} (s : slice A) : list A := default [] s.
Definition entries {V} (m : gomap V) : gmap string V := default ∅ m.

(** [make] and [copy] into a fresh slice or map when the original is not nil: the value
    is the same, the backing store is not shared. *)
Definition clone_slice {A} (s : slice A) : slice A :=
  match s with Some l => Some (map id l) | None => None end.
Definition clone_map {V} (m : gomap V) : gomap V :=
  match m with Some kvs => Some (id <$> kvs) | None => None end.

Lemma clone_slice_eq {A} (s : slice A) : clone_slice s = s.
Proof. destruct s; simpl; [by rewrite map_id|done]. Qed.
Lemma clone_map_eq {V} (m : gomap V) : clone_map m = m.
Proof. destruct m; simpl; [by rewrite map_fmap_id|done]. Qed.

(** ** Structural comparison

    [cmp.Equal(x, y, cmpopts.EquateEmpty())] of the go-cmp library compares structures
    recursively, reading nil and empty slices and maps as equal. [norm] replaces the empty
    ones by nil, and the class states what the library documents. *)
Class EquateEmpty (A : Type) := norm : A -> A.

Class GoCmp := {
  cmp_equal : forall {A : Type} `{EquateEmpty A, EqDecision A}, A -> A -> bool;
  cmp_equal_spec : forall A `{EquateEmpty A, EqDecision A} (x y : A),
    cmp_equal x y = true <-> norm x = norm y
}.

Definition go_cmp_decide : GoCmp.
Proof.
  refine {| cmp_equal := fun A _ _ x y => bool_decide (norm x = norm y) |}.
  intros A ? ? x y. apply bool_decide_eq_true.
Defined.

Definition norm_slice {A} (n : A -> A) (s : slice A) : slice A :=
  match s with None | Some [] => None | Some l => Some (map n l) end.
Definition norm_map {V} (n : V -> V) (m : gomap V) : gomap V :=
  match m with
  | None => None
  | Some kvs => if decide (kvs = ∅) then None else Some (n <$> kvs)
  end.
