(* ===== verification/GoStrings.v ===== *)
(** * GoStrings: the parts of Go's [strings] and [strconv] packages the code uses

    Go strings are byte strings, as are [String.string] values.  Separators in the
    program are single bytes, so [Split], [Index], [Contains], [Count] and [Join] are
    modelled for one-byte separators.  The lemmas relate printing to parsing and are
    shared by the port, label and machine-name components. *)

From S2P Require Import Prelude.
From Stdlib Require Export Ascii.
From Stdlib Require Import DecimalString DecimalN.
#[local] Open Scope string_scope.
#[global] Arguments String.append : simpl nomatch.

(** ** Scanning *)
Fixpoint contains_byte (c : ascii) (s : string) : bool :=
  match s with
  | "" => false
  | String a s' => Ascii.eqb a c || contains_byte c s'
  end.

Fixpoint count_byte (c : ascii) (s : string) : nat :=
  match s with
  | "" => 0
  | String a s' => (if Ascii.eqb a c then 1 else 0) + count_byte c s'
  end.

(** [i := strings.Index(s, c)]: the pair [s[:i], s[i+1:]] when [i > -1]. *)
Fixpoint cut_byte (c : ascii) (s : string) : option (string * string) :=
  match s with
  | "" => None
  | String a s' =>
      if Ascii.eqb a c then Some ("", s')
      else match cut_byte c s' with
           | Some (b, e) => Some (String a b, e)
           | None => None
           end
  end.

(** [i := strings.LastIndex(s, c)]: the pair [s[:i], s[i+1:]] when [i != -1]. *)
Fixpoint last_cut_byte (c : ascii) (s : string) : option (string * string) :=
  match s with
  | "" => None
  | String a s' =>
      match last_cut_byte c s' with
      | Some (b, e) => Some (String a b, e)
      | None => if Ascii.eqb a c then Some ("", s') else None
      end
  end.

(** [strings.HasPrefix], [strings.CutPrefix]: [Some rest] when [p] is a prefix. *)
Fixpoint cut_prefix (p s : string) : option string :=
  match p, s with
  | "", _ => Some s
  | String a p', String b s' => if Ascii.eqb a b then cut_prefix p' s' else None
  | String _ _, "" => None
  end.

Definition has_prefix (p s : string) : bool :=
  match cut_prefix p s with Some _ => true | None => false end.

(** [strings.TrimPrefix] *)
Definition trim_prefix (p s : string) : string := match cut_prefix p s with Some r => r | None => s end.

(** [strings.HasSuffix] and [strings.CutSuffix], by the suffixes of [s]. *)
Fixpoint cut_suffix (p s : string) : option string :=
  if String.eqb p s then Some ""
  else match s with
       | "" => None
       | String a s' =>
           match cut_suffix p s' with
           | Some b => Some (String a b)
           | None => None
           end
       end.

Definition has_suffix (p s : string) : bool :=
  match cut_suffix p s with Some _ => true | None => false end.

(** [strings.Split(s, c)] for a one-byte separator. *)
Fixpoint split_byte (c : ascii) (s : string) : list string :=
  match s with
  | "" => [""]
  | String a s' =>
      if Ascii.eqb a c then "" :: split_byte c s'
      else match split_byte c s' with
           | [] => [String a ""]
           | h :: t => String a h :: t
           end
  end.

(** [strings.Join(l, sep)]. *)
Fixpoint join (sep : string) (l : list string) : string :=
  match l with
  | [] => ""
  | [s] => s
  | s :: l' => s ++ sep ++ join sep l'
  end.

(** ** [strings.TrimSpace]: ASCII white space and the multi-byte Unicode spaces. *)
Definition ascii_of (n : nat) : ascii := ascii_of_nat n.

Definition utf8 (l : list nat) : string :=
  fold_right (fun n s => String (ascii_of n) s) "" l.

Definition space_runes : list string :=
  map utf8 [[9]; [10]; [11]; [12]; [13]; [32]; [194; 133]; [194; 160];
            [225; 154; 128]; [226; 128; 128]; [226; 128; 129]; [226; 128; 130];
            [226; 128; 131]; [226; 128; 132]; [226; 128; 133]; [226; 128; 134];
            [226; 128; 135]; [226; 128; 136]; [226; 128; 137]; [226; 128; 138];
            [226; 128; 168]; [226; 128; 169]; [226; 128; 175]; [226; 129; 159];
            [227; 128; 128]]%nat.

(** The first of [ps] that is a prefix (suffix) of [s], removed. *)
Fixpoint cut_any (cut : string -> string -> option string) (ps : list string) (s : string) :
  option string :=
  match ps with
  | [] => None
  | p :: ps' => match cut p s with Some r => Some r | None => cut_any cut ps' s end
  end.

(** Every round removes at least one byte, so [String.length s] rounds suffice. *)
Fixpoint trim_rounds (cut : string -> string -> option string) (fuel : nat) (s : string) : string :=
  match fuel with
  | O => s
  | S f => match cut_any cut space_runes s with
           | Some r => trim_rounds cut f r
           | None => s
           end
  end.

Definition trim_space (s : string) : string :=
  let l := trim_rounds cut_prefix (String.length s) s in
  trim_rounds cut_suffix (String.length l) l.

(** ** Decimal numbers: [fmt.Sprint(n)] and [strconv.ParseUint(s, 10, bits)] *)
Definition itoa (n : N) : string := NilZero.string_of_uint (N.to_uint n).

Inductive NumError := ErrSyntax | ErrRange.

Definition parse_uint (bits : N) (s : string) : result NumError N :=
  match NilZero.uint_of_string s with
  | None => Err ErrSyntax
  | Some d => if (N.of_uint d <? 2 ^ bits)%N then Ok (N.of_uint d) else Err ErrRange
  end.

(** [strconv.ParseInt(s, 10, 64)] and [strconv.Atoi] *)
Definition ParseInt (s : string) : option Z :=
  let unsigned t := match parse_uint 64 t with Ok n => Some (Z.of_N n) | Err _ => None end in
  match s with
  | String "-" t => n ← unsigned t; if (n <=? 2 ^ 63)%Z then Some (- n)%Z else None
  | String "+" t => n ← unsigned t; if (n <? 2 ^ 63)%Z then Some n else None
  | _ => n ← unsigned s; if (n <? 2 ^ 63)%Z then Some n else None
  end.

(** [net.JoinHostPort] and [net.SplitHostPort]: the port starts after the last colon, and a
    host with a colon is in brackets. *)
Definition JoinHostPort (host port : string) : string :=
  if contains_byte ":" host then "[" ++ host ++ "]:" ++ port else host ++ ":" ++ port.

Definition SplitHostPort (s : string) : option (string * string) :=
  match last_cut_byte ":" s with
  | None => None
  | Some (pre, port) =>
      match cut_prefix "[" s with
      | Some inner =>
          match cut_byte "]" inner with
          | None => None
          | Some (host, _) =>
              if negb (String.eqb pre ("[" ++ host ++ "]")) then None
              else if contains_byte "[" inner || contains_byte "]" port then None
              else Some (host, port)
          end
      | None => if contains_byte ":" pre || contains_byte "[" s || contains_byte "]" s then None else Some (pre, port)
      end
  end.

(** [strings.Fields]: the parts between runs of white space. *)
Fixpoint fields_rounds (fuel : nat) (s cur : string) : list string :=
  let flush := if String.eqb cur "" then [] else [cur] in
  match fuel, s with
  | O, _ | _, "" => flush
  | S f, String c s' =>
      match cut_any cut_prefix space_runes s with
      | Some rest => (flush ++ fields_rounds f rest "")%list
      | None => fields_rounds f s' (cur ++ String c "")
      end
  end.

Definition Fields (s : string) : list string := fields_rounds (String.length s) s "".

(** ** File paths: [filepath.IsAbs], [filepath.Clean] and [filepath.Join] on Unix *)
Definition IsAbs (path : string) : bool := has_prefix "/" path.

(** The elements kept so far are in reverse order; [".."] removes the last one, unless it is
    a [".."] that could not be removed either, and is dropped at the root. *)
Fixpoint clean_elements (rooted : bool) (kept : list string) (elements : list string) : list string :=
  match elements with
  | [] => rev kept
  | e :: rest =>
      if String.eqb e "" || String.eqb e "." then clean_elements rooted kept rest
      else if String.eqb e ".." then
        match kept with
        | k :: kept' => if String.eqb k ".." then clean_elements rooted (".." :: kept) rest
                        else clean_elements rooted kept' rest
        | [] => clean_elements rooted (if rooted then [] else [".."]) rest
        end
      else clean_elements rooted (e :: kept) rest
  end.

Definition Clean (path : string) : string :=
  let rooted := IsAbs path in
  let body := join "/" (clean_elements rooted [] (split_byte "/" path)) in
  if rooted then ("/" ++ body)%string else if String.eqb body "" then "." else body.

(** [filepath.Join(a, b)]: empty elements are ignored. *)
Definition Join (a b : string) : string :=
  if String.eqb a "" then if String.eqb b "" then "" else Clean b
  else if String.eqb b "" then Clean a
  else Clean (a ++ "/" ++ b).

(** ** Lemmas *)

Lemma eqb_ascii_refl a : Ascii.eqb a a = true.
Proof. apply Ascii.eqb_refl. Qed.

Lemma string_app_nil_r s : s ++ "" = s.
Proof. induction s as [|a s IH]; simpl; congruence. Qed.

Lemma string_app_assoc s1 s2 s3 : (s1 ++ s2) ++ s3 = s1 ++ (s2 ++ s3).
Proof. induction s1 as [|a s1 IH]; simpl; congruence. Qed.

Lemma contains_byte_app c s1 s2 :
  contains_byte c (s1 ++ s2) = contains_byte c s1 || contains_byte c s2.
Proof. induction s1 as [|a s1 IH]; simpl; [done|]. by rewrite IH, orb_assoc. Qed.

Lemma count_byte_app c s1 s2 : count_byte c (s1 ++ s2) = count_byte c s1 + count_byte c s2.
Proof. induction s1 as [|a s1 IH]; simpl; [done|]. rewrite IH. lia. Qed.

Lemma count_byte_0 c s : count_byte c s = 0 <-> contains_byte c s = false.
Proof.
  induction s as [|a s IH]; simpl; [done|]. rewrite orb_false_iff.
  destruct (Ascii.eqb a c); [split; [lia | naive_solver]|]. naive_solver.
Qed.

Lemma cut_byte_None c s : cut_byte c s = None <-> contains_byte c s = false.
Proof.
  induction s as [|a s IH]; simpl; [done|].
  destruct (Ascii.eqb a c); simpl; [done|].
  destruct (cut_byte c s) as [[b e]|]; naive_solver.
Qed.

Lemma cut_byte_app c b e : contains_byte c b = false -> cut_byte c (b ++ String c e) = Some (b, e).
Proof.
  induction b as [|a b IH]; simpl; [by rewrite eqb_ascii_refl|].
  intros [Ha Hb]%orb_false_iff. by rewrite Ha, IH.
Qed.

Lemma cut_byte_Some c s b e :
  cut_byte c s = Some (b, e) <-> s = b ++ String c e /\ contains_byte c b = false.
Proof.
  split; [|by intros [-> ?]; apply cut_byte_app].
  revert b e; induction s as [|a s IH]; simpl; intros b e; [done|].
  destruct (Ascii.eqb a c) eqn:Hac.
  - intros [= <- <-]. apply Ascii.eqb_eq in Hac as ->. done.
  - destruct (cut_byte c s) as [[b' e']|] eqn:Hc; [|done]. intros [= <- <-].
    destruct (IH b' e' eq_refl) as [-> Hb]. simpl. by rewrite Hac.
Qed.

Lemma cut_prefix_Some p s r : cut_prefix p s = Some r <-> s = p ++ r.
Proof.
  revert s; induction p as [|a p IH]; intros s; simpl.
  - naive_solver.
  - destruct s as [|b s]; [naive_solver|]. destruct (Ascii.eqb_spec a b) as [->|Hne].
    + rewrite IH. naive_solver.
    + naive_solver.
Qed.

Lemma cut_suffix_Some p s r : cut_suffix p s = Some r -> s = r ++ p.
Proof.
  revert r; induction s as [|a s IH]; intros r; cbn [cut_suffix].
  - destruct (String.eqb_spec p ""); [|done]. intros [= <-]. by subst.
  - destruct (String.eqb_spec p (String a s)); [intros [= <-]; by subst|].
    destruct (cut_suffix p s) as [b|]; [|done]. intros [= <-]. simpl. f_equal. by apply IH.
Qed.

Lemma string_app_length s1 s2 : String.length (s1 ++ s2) = String.length s1 + String.length s2.
Proof. induction s1 as [|a s1 IH]; simpl; [done|]. by rewrite IH. Qed.

Lemma cut_suffix_app p r : cut_suffix p (r ++ p) = Some r.
Proof.
  induction r as [|a r IH]; simpl.
  - destruct p; cbn [cut_suffix]; by rewrite String.eqb_refl.
  - destruct (String.eqb_spec p (String a (r ++ p))) as [He|]; [|by rewrite IH].
    exfalso. apply (f_equal String.length) in He. simpl in He.
    rewrite string_app_length in He. lia.
Qed.

Lemma has_suffix_spec p s : has_suffix p s = true <-> exists r, s = r ++ p.
Proof.
  unfold has_suffix. split.
  - destruct (cut_suffix p s) as [r|] eqn:H; [|done]. exists r. by apply cut_suffix_Some.
  - intros [r ->]. by rewrite cut_suffix_app.
Qed.

Lemma has_prefix_spec p s : has_prefix p s = true <-> exists r, s = p ++ r.
Proof.
  unfold has_prefix. split.
  - destruct (cut_prefix p s) as [r|] eqn:H; [|done]. exists r. by apply cut_prefix_Some.
  - intros [r Hr]. apply cut_prefix_Some in Hr. by rewrite Hr.
Qed.

(** *** Split and join *)
Lemma last_cut_byte_None c s : last_cut_byte c s = None <-> contains_byte c s = false.
Proof.
  induction s as [|a s IH]; simpl; [done|]. rewrite orb_false_iff, <- IH.
  destruct (last_cut_byte c s) as [[b e]|]; [naive_solver|]. destruct (Ascii.eqb a c); naive_solver.
Qed.

Lemma last_cut_byte_Some c s b e : last_cut_byte c s = Some (b, e) -> s = b ++ String c e /\ contains_byte c e = false.
Proof.
  revert b e; induction s as [|a s IH]; intros b e; simpl; [done|].
  destruct (last_cut_byte c s) as [[b' e']|] eqn:Hs.
  - intros [= <- <-]. destruct (IH _ _ eq_refl) as [-> He]. done.
  - destruct (Ascii.eqb_spec a c) as [->|]; [|done]. intros [= <- <-]. split; [done|]. by apply last_cut_byte_None.
Qed.

Lemma last_cut_byte_app c b e : contains_byte c e = false ->
  last_cut_byte c (b ++ String c e) = Some (b, e).
Proof.
  intros Hn%last_cut_byte_None. induction b as [|a b IH]; simpl; [by rewrite Hn, eqb_ascii_refl|by rewrite IH].
Qed.

Lemma split_join_host_port host port :
  contains_byte "[" host = false -> contains_byte "]" host = false ->
  contains_byte ":" port = false -> contains_byte "[" port = false -> contains_byte "]" port = false ->
  SplitHostPort (JoinHostPort host port) = Some (host, port).
Proof.
  intros Ho Hc Hpc Hpo Hpb. unfold JoinHostPort. destruct (contains_byte ":" host) eqn:Hcolon.
  - change ("[" ++ host ++ "]:" ++ port) with (String "[" (host ++ String "]" (String ":" port))). unfold SplitHostPort.
    replace (String "[" (host ++ String "]" (String ":" port))) with (("[" ++ host ++ "]") ++ String ":" port)
      by (rewrite !string_app_assoc; reflexivity).
    rewrite last_cut_byte_app by done. rewrite !string_app_assoc. cbn [String.append cut_prefix Ascii.eqb Bool.eqb].
    rewrite cut_byte_app by done. rewrite String.eqb_refl. cbn [negb]. rewrite contains_byte_app, Ho. simpl. by rewrite Hpo, Hpb.
  - change (host ++ ":" ++ port) with (host ++ String ":" port). unfold SplitHostPort. rewrite last_cut_byte_app by done.
    assert (Hp : cut_prefix "[" (host ++ String ":" port) = None).
    { destruct host as [|a host]; [done|]. cbn [contains_byte] in Ho. apply orb_false_iff in Ho as [Ha _].
      cbn [String.append cut_prefix]. rewrite Ascii.eqb_sym, Ha. done. }
    rewrite Hp, Hcolon, !contains_byte_app, Ho, Hc. simpl. by rewrite Hpo, Hpb.
Qed.

Lemma split_byte_nonempty c s : split_byte c s <> [].
Proof.
  destruct s as [|a s]; simpl; [done|].
  destruct (Ascii.eqb a c); [done|]. by destruct (split_byte c s).
Qed.

Lemma split_byte_none c s : contains_byte c s = false -> split_byte c s = [s].
Proof.
  induction s as [|a s IH]; simpl; [done|].
  intros [Ha Hs]%orb_false_iff. by rewrite Ha, IH.
Qed.

Lemma split_byte_app c b s :
  contains_byte c b = false -> split_byte c (b ++ String c s) = b :: split_byte c s.
Proof.
  induction b as [|a b IH]; simpl; [by rewrite eqb_ascii_refl|].
  intros [Ha Hb]%orb_false_iff. by rewrite Ha, IH.
Qed.

Lemma split_join c l :
  l <> [] -> Forall (fun s => contains_byte c s = false) l ->
  split_byte c (join (String c "") l) = l.
Proof.
  intros Hne Hall. induction Hall as [|s l Hs Hall IH]; [done|].
  destruct l as [|s' l]; [by apply split_byte_none|].
  change (join (String c "") (s :: s' :: l)) with (s ++ String c (join (String c "") (s' :: l))).
  rewrite split_byte_app by done. by rewrite IH.
Qed.

Lemma join_split c s : join (String c "") (split_byte c s) = s.
Proof.
  induction s as [|a s IH]; simpl; [done|].
  destruct (Ascii.eqb_spec a c) as [->|Hne].
  - destruct (split_byte c s) as [|h t] eqn:Hs; [by apply split_byte_nonempty in Hs|].
    simpl in *. by rewrite IH.
  - destruct (split_byte c s) as [|h t] eqn:Hs; [by apply split_byte_nonempty in Hs|].
    destruct t as [|h' t]; simpl in *; by rewrite <- IH.
Qed.

Lemma split_byte_no_sep c s : Forall (fun p => contains_byte c p = false) (split_byte c s).
Proof.
  induction s as [|a s IH]; simpl; [by repeat constructor|].
  destruct (Ascii.eqb a c) eqn:Ha; [by constructor|].
  destruct (split_byte c s) as [|h t]; inversion IH; subst; constructor; simpl; try done.
  - by rewrite Ha.
  - by rewrite Ha.
Qed.

(** *** Numbers *)
Lemma to_uint_nonnil n : N.to_uint n <> Decimal.Nil.
Proof.
  intros H. pose proof (Unsigned.of_to n) as Hn. rewrite H in Hn. by subst n.
Qed.

Lemma itoa_parse bits n : (n < 2 ^ bits)%N -> parse_uint bits (itoa n) = Ok n.
Proof.
  intros Hn. unfold parse_uint, itoa. rewrite NilZero.usu by apply to_uint_nonnil.
  rewrite Unsigned.of_to. by apply N.ltb_lt in Hn as ->.
Qed.

Lemma itoa_inj n m : itoa n = itoa m -> n = m.
Proof.
  unfold itoa. intros H. apply (f_equal NilZero.uint_of_string) in H.
  rewrite !NilZero.usu in H by apply to_uint_nonnil. injection H as H.
  by apply Unsigned.to_uint_inj.
Qed.

Definition is_digit (c : ascii) : bool := existsb (Ascii.eqb c) (String.list_ascii_of_string "0123456789").

Lemma string_of_uint_digits d c :
  is_digit c = false -> contains_byte c (NilEmpty.string_of_uint d) = false.
Proof.
  unfold is_digit. cbn [existsb String.list_ascii_of_string]. rewrite !orb_false_iff.
  intros Hc. destruct_and!.
  induction d; cbn [NilEmpty.string_of_uint contains_byte]; [done|..];
    rewrite Ascii.eqb_sym, IHd, orb_false_r; assumption.
Qed.

Lemma itoa_digits n c : is_digit c = false -> contains_byte c (itoa n) = false.
Proof.
  intros Hc. unfold itoa, NilZero.string_of_uint.
  destruct (N.to_uint n) eqn:E; [by apply to_uint_nonnil in E|..]; by apply string_of_uint_digits.
Qed.

Lemma parse_uint_digits bits s n c :
  parse_uint bits s = Ok n -> is_digit c = false -> contains_byte c s = false.
Proof.
  unfold parse_uint. destruct (NilZero.uint_of_string s) as [d|] eqn:Hd; [|done].
  intros _ Hc. pose proof (NilZero.uint_of_string_nonnil s) as Hnil.
  apply NilZero.sus in Hd as Hs. subst s. unfold NilZero.string_of_uint.
  destruct d; [congruence|..]; by apply string_of_uint_digits.
Qed.

Lemma parse_uint_bound bits s n : parse_uint bits s = Ok n -> (n < 2 ^ bits)%N.
Proof. unfold parse_uint. repeat case_match; intros; simplify_eq. by apply N.ltb_lt. Qed.

Lemma contains_byte_mid c b e : contains_byte c (b ++ String c e) = true.
Proof. rewrite contains_byte_app. simpl. rewrite eqb_ascii_refl. apply orb_true_r. Qed.

Create HintDb gostr discriminated.
#[export] Hint Resolve itoa_digits itoa_parse contains_byte_mid : gostr.
#[export] Hint Rewrite contains_byte_app count_byte_app string_app_assoc string_app_nil_r : gostr.

Lemma split_byte_app_gen c h s : split_byte c (h ++ String c s) = (split_byte c h ++ split_byte c s)%list.
Proof.
  induction h as [|a h IH]; simpl; [by rewrite eqb_ascii_refl|].
  destruct (Ascii.eqb a c); [by rewrite IH|]. rewrite IH.
  destruct (split_byte c h) as [|x t] eqn:E; [by apply split_byte_nonempty in E|done].
Qed.
