(* ===== verification/Heap.v ===== *)
(** * Heap: Go's [container/heap]

    The library's [Push] and [Pop] over a slice with a comparison, as [up] and [down] are
    written, and what they guarantee: the slice keeps the heap property, no element is lost
    or duplicated, and [Pop] takes a minimal element. *)
From S2P Require Import Prelude.
From Stdlib Require Import Zify ZifyNat.
#[local] Open Scope list_scope.
#[local] Ltac Zify.zify_post_hook ::= Z.div_mod_to_equations.

Definition parent (j : nat) : nat := (j - 1) / 2.

Section Heap.
Context {A : Type} (less : A -> A -> bool).
Implicit Types (l : list A) (i j k n : nat).

(** [h.Less(i, j)] and [h.Swap(i, j)]; the indexes are in range wherever they are called. *)
Definition Less l i j : bool :=
  match l !! i, l !! j with Some x, Some y => less x y | _, _ => false end.
Definition Swap l i j : list A :=
  match l !! i, l !! j with Some x, Some y => <[j := x]> (<[i := y]> l) | _, _ => l end.

Fixpoint up (fuel : nat) l j : list A :=
  match fuel with
  | O => l
  | S f =>
      let i := parent j in
      if Nat.eqb i j || negb (Less l j i) then l else up f (Swap l i j) i
  end.

Definition smaller_child l n i : nat :=
  let j1 := 2 * i + 1 in if Nat.ltb (j1 + 1) n && Less l (j1 + 1) j1 then j1 + 1 else j1.

Fixpoint down (fuel : nat) l i n : list A :=
  match fuel with
  | O => l
  | S f =>
      if Nat.leb n (2 * i + 1) then l
      else let j := smaller_child l n i in
           if Less l j i then down f (Swap l i j) j n else l
  end.

Definition heap_push (x : A) l : list A := up (length l) (l ++ [x]) (length l).

(** [h.Swap(0, n); down(h, 0, n); return h.Pop()] with [n = h.Len() - 1]. *)
Definition heap_pop l : option (A * list A) :=
  let n := length l - 1 in
  let l' := down n (Swap l 0 n) 0 n in
  match l' !! n with Some x => Some (x, take n l') | None => None end.

(** ** Swapping *)
Lemma Swap_length l i j : length (Swap l i j) = length l.
Proof. unfold Swap. repeat case_match; by rewrite ?length_insert. Qed.

Lemma Swap_lookup l i j k :
  i < length l -> j < length l ->
  Swap l i j !! k = if decide (k = j) then l !! i else if decide (k = i) then l !! j else l !! k.
Proof.
  intros Hi Hj. unfold Swap.
  destruct (lookup_lt_is_Some_2 l i Hi) as [x Hx], (lookup_lt_is_Some_2 l j Hj) as [y Hy].
  rewrite Hx, Hy. destruct (decide (k = j)) as [->|Hkj].
  - rewrite list_lookup_insert_eq by (rewrite length_insert; lia). done.
  - rewrite list_lookup_insert_ne by done. destruct (decide (k = i)) as [->|Hki].
    + by rewrite list_lookup_insert_eq by lia.
    + by rewrite list_lookup_insert_ne.
Qed.

Lemma Swap_perm l i j : Swap l i j ≡ₚ l.
Proof.
  unfold Swap. destruct (l !! i) as [x|] eqn:Hi; [|done].
  destruct (l !! j) as [y|] eqn:Hj; [|done].
  destruct (decide (i = j)) as [->|Hij].
  - rewrite list_insert_insert_eq. rewrite list_insert_id; [done|congruence].
  - apply Permutation_insert_swap; done.
Qed.

(** ** The heap property *)
Definition above l i p : Prop := forall x y, l !! i = Some x -> l !! p = Some y -> less x y = false.
Definition heap_to n l : Prop := forall i, 0 < i < n -> above l i (parent i).
Definition heap l : Prop := heap_to (length l) l.

Definition up_hole l j : Prop :=
  (forall i, 0 < i < length l -> i <> j -> above l i (parent i)) /\
  (0 < j -> forall c, 0 < c < length l -> parent c = j -> above l c (parent j)).
Definition down_hole n l i : Prop :=
  (forall k, 0 < k < n -> parent k <> i -> above l k (parent k)) /\
  (0 < i -> forall c, 0 < c < n -> parent c = i -> above l c (parent i)).

Lemma parent_lt j : 0 < j -> parent j < j.
Proof. unfold parent. lia. Qed.
Lemma parent_child c i : 0 < c -> parent c = i -> c = 2 * i + 1 \/ c = 2 * i + 2.
Proof. unfold parent. lia. Qed.
Lemma parent_left i : parent (2 * i + 1) = i.
Proof. unfold parent. lia. Qed.
Lemma parent_right i : parent (2 * i + 2) = i.
Proof. unfold parent. lia. Qed.

Context (Hsw : strict_weak less).

Lemma not_less_trans x y z : less x y = false -> less y z = false -> less x z = false.
Proof.
  destruct Hsw as (_ & _ & Hneg). intros Hxy Hyz. destruct (less x z) eqn:Hxz; [|done].
  destruct (Hneg _ y _ Hxz); congruence.
Qed.

Lemma less_asym x y : less x y = true -> less y x = false.
Proof.
  destruct Hsw as (Hirr & Htr & _). intros Hxy. destruct (less y x) eqn:Hyx; [|done].
  specialize (Htr _ _ _ Hxy Hyx). by rewrite Hirr in Htr.
Qed.

Lemma above_trans l i j k y : l !! j = Some y -> above l i j -> above l j k -> above l i k.
Proof. intros Hj Hij Hjk x z Hx Hz. apply not_less_trans with y; [by apply Hij|by apply Hjk]. Qed.

Lemma Less_true l i j : Less l i j = true -> exists x y, l !! i = Some x /\ l !! j = Some y /\ less x y = true.
Proof. unfold Less. repeat case_match; naive_solver. Qed.

Lemma Less_false l i j : Less l i j = false -> above l i j.
Proof. unfold Less, above. intros H x y Hx Hy. by rewrite Hx, Hy in H. Qed.

Lemma heap_root l n i : heap_to n l -> i < n -> n <= length l -> above l i 0.
Proof.
  intros Hh. induction i as [i IH] using lt_wf_ind. intros Hi Hn.
  destruct (decide (i = 0)) as [->|Hi0].
  - intros x y Hx Hy. replace y with x by congruence. apply Hsw.
  - pose proof (parent_lt i ltac:(lia)) as Hp.
    destruct (lookup_lt_is_Some_2 l (parent i) ltac:(lia)) as [y Hy].
    apply (above_trans l i (parent i) 0 y Hy); [apply Hh; lia|apply IH; lia].
Qed.

(** An exchange with the parent keeps the heap but for the place of the parent. *)
Lemma up_step l j :
  j < length l -> 0 < j -> Less l j (parent j) = true ->
  up_hole l j -> up_hole (Swap l (parent j) j) (parent j).
Proof.
  intros Hjl Hj0 (x & y & Hx & Hy & Hxy)%Less_true [Hh Hc].
  pose proof (parent_lt j Hj0) as Hp.
  assert (Hyx : less y x = false) by by apply less_asym.
  assert (Hjp : forall k, above l k (parent j) -> forall z, l !! k = Some z -> less z x = false).
  { intros k Hk z Hz. apply not_less_trans with y; [by apply Hk|done]. }
  unfold up_hole. rewrite Swap_length. split.
  - intros i Hi Hip u v. rewrite !Swap_lookup by lia.
    destruct (decide (i = j)) as [->|Hij].
    + rewrite decide_False, decide_True by lia. congruence.
    + rewrite decide_False by done. destruct (decide (parent i = j)) as [Hpi|Hpi].
      * intros Hu Hv. apply (Hc Hj0 i Hi Hpi u v); done.
      * destruct (decide (parent i = parent j)) as [Hpp|Hpp].
        -- intros Hu Hv. replace v with x by congruence. apply (Hjp i); [|done].
           rewrite <- Hpp. by apply Hh.
        -- by apply Hh.
  - intros Hp0 c Hcl Hcp u v. pose proof (parent_lt (parent j) Hp0) as Hpp.
    rewrite !Swap_lookup by lia. rewrite (decide_False (P := parent (parent j) = j)) by lia.
    rewrite (decide_False (P := parent (parent j) = parent j)) by lia.
    assert (Hpar : above l (parent j) (parent (parent j))) by (apply Hh; lia).
    destruct (decide (c = j)) as [->|Hcj]; [by apply Hpar|].
    rewrite decide_False by (pose proof (parent_lt c); lia).
    apply (above_trans l c (parent j) _ y Hy); [rewrite <- Hcp; by apply Hh|done].
Qed.

Lemma up_heap fuel l j :
  j <= fuel -> j < length l -> up_hole l j -> heap (up fuel l j).
Proof.
  revert l j. induction fuel as [|fuel IH]; intros l j Hf Hj Hh; simpl.
  - assert (j = 0) as -> by lia. intros i Hi. apply Hh; lia.
  - destruct (Nat.eqb_spec (parent j) j) as [Hpj|Hpj]; simpl.
    + assert (j = 0) as -> by (destruct j; [done|pose proof (parent_lt (S j)); lia]).
      intros i Hi. apply Hh; lia.
    + assert (Hj0 : 0 < j) by (destruct j; [by destruct Hpj|lia]).
      destruct (Less l j (parent j)) eqn:Hl; simpl.
      * pose proof (parent_lt j Hj0). apply IH; rewrite ?Swap_length; [lia|lia|].
        by apply up_step.
      * intros i Hi. destruct (decide (i = j)) as [->|Hij]; [by apply Less_false|by apply Hh].
Qed.

Lemma up_perm fuel l j : up fuel l j ≡ₚ l.
Proof.
  revert l j. induction fuel as [|fuel IH]; intros l j; simpl; [done|].
  case_match; [done|]. by rewrite IH, Swap_perm.
Qed.

Lemma smaller_child_spec l n i :
  2 * i + 1 < n -> n <= length l ->
  let j := smaller_child l n i in
  parent j = i /\ 0 < j < n /\ forall c, 0 < c < n -> parent c = i -> above l c j.
Proof.
  intros Hn Hl. unfold smaller_child. cbv zeta.
  assert (Hself : forall k, above l k k) by (intros k x y Hx Hy; replace y with x by congruence; apply Hsw).
  destruct (Nat.ltb_spec (2 * i + 1 + 1) n) as [H2|H2]; cbn [andb].
  - destruct (Less l (2 * i + 1 + 1) (2 * i + 1)) eqn:HL.
    + apply Less_true in HL as (x & y & Hx & Hy & Hxy). split_and!; [unfold parent; lia|lia|lia|].
      intros c Hc Hp. destruct (parent_child c i ltac:(lia) Hp) as [-> | ->].
      * intros u v Hu Hv. replace u with y by congruence. replace v with x by congruence.
        by apply less_asym.
      * by replace (2 * i + 1 + 1) with (2 * i + 2) by lia.
    + apply Less_false in HL. split_and!; [apply parent_left|lia|lia|].
      intros c Hc Hp. destruct (parent_child c i ltac:(lia) Hp) as [-> | ->]; [done|].
      by replace (2 * i + 2) with (2 * i + 1 + 1) by lia.
  - split_and!; [apply parent_left|lia|lia|].
    intros c Hc Hp. destruct (parent_child c i ltac:(lia) Hp) as [-> | ->]; [done|lia].
Qed.

Lemma down_step l n i j :
  n <= length l -> 0 < j < n -> parent j = i -> Less l j i = true ->
  (forall c, 0 < c < n -> parent c = i -> above l c j) ->
  down_hole n l i -> down_hole n (Swap l i j) j.
Proof.
  intros Hn Hj <- (x & y & Hx & Hy & Hxy)%Less_true Hmin [Hh Hc].
  pose proof (parent_lt j ltac:(lia)) as Hp.
  assert (Hyx : less y x = false) by by apply less_asym.
  split.
  - intros k Hk Hkj u v. rewrite !Swap_lookup by lia.
    rewrite (decide_False (P := parent k = j)) by done.
    destruct (decide (k = j)) as [->|Hkne].
    + rewrite decide_True by done. congruence.
    + destruct (decide (parent k = parent j)) as [Hpp|Hpp].
      * rewrite decide_False by (pose proof (parent_lt k ltac:(lia)); lia). by apply Hmin.
      * destruct (decide (k = parent j)) as [->|Hkp]; [|by apply Hh].
        apply (Hc ltac:(lia) j); [lia|done].
  - intros _ c Hcl Hcp u v. pose proof (parent_lt c ltac:(lia)).
    rewrite !Swap_lookup by lia. rewrite !(decide_False (P := c = _)) by lia.
    rewrite (decide_False (P := parent j = j)) by lia. rewrite decide_True by done.
    rewrite <- Hcp. apply Hh; [lia|]. rewrite Hcp. lia.
Qed.

Lemma down_heap fuel l i n :
  n <= i + fuel -> n <= length l -> down_hole n l i -> heap_to n (down fuel l i n).
Proof.
  revert l i. induction fuel as [|fuel IH]; intros l i Hf Hn Hh; simpl.
  - intros k Hk. apply Hh; [lia|]. pose proof (parent_lt k ltac:(lia)). lia.
  - destruct (Nat.leb_spec n (i + (i + 0) + 1)) as [Hle|Hgt].
    + intros k Hk. apply Hh; [lia|]. intros Hpk. destruct (parent_child k i ltac:(lia) Hpk); lia.
    + destruct (smaller_child_spec l n i ltac:(lia) Hn) as (Hp & Hj & Hmin).
      destruct (Less l (smaller_child l n i) i) eqn:HL.
      * pose proof (parent_lt (smaller_child l n i) ltac:(lia)).
        apply IH; [lia|by rewrite Swap_length|]. by apply down_step.
      * intros k Hk. destruct (decide (parent k = i)) as [Hpk|Hpk]; [|by apply Hh].
        rewrite Hpk. apply Less_false in HL.
        destruct (lookup_lt_is_Some_2 l (smaller_child l n i) ltac:(lia)) as [z Hz].
        apply (above_trans l k _ i z Hz); [by apply Hmin|done].
Qed.

(** [down] only touches the first [n] positions. *)
Lemma down_frame fuel l i n :
  i < n -> n <= length l ->
  length (down fuel l i n) = length l /\ drop n (down fuel l i n) = drop n l /\
  down fuel l i n ≡ₚ l.
Proof.
  revert l i. induction fuel as [|fuel IH]; intros l i Hi Hn; simpl; [done|].
  destruct (Nat.leb_spec n (i + (i + 0) + 1)) as [Hle|Hgt]; [done|].
  destruct (smaller_child_spec l n i ltac:(lia) Hn) as (Hp & Hj & _).
  case_match; [|done]. destruct (IH (Swap l i (smaller_child l n i)) (smaller_child l n i)) as (H1 & H2 & H3);
    [lia|by rewrite Swap_length|]. rewrite H1, H2, Swap_length. split_and!; [done| |by rewrite H3, Swap_perm].
  apply list_eq. intros k. rewrite !lookup_drop, Swap_lookup by lia. by rewrite !decide_False by lia.
Qed.

(** ** [Push] and [Pop] *)
Lemma heap_push_perm x l : heap_push x l ≡ₚ x :: l.
Proof. unfold heap_push. by rewrite up_perm, Permutation_app_comm. Qed.

Lemma heap_push_heap x l : heap l -> heap (heap_push x l).
Proof.
  intros Hh. unfold heap_push. apply up_heap; [lia|rewrite length_app; simpl; lia|].
  unfold up_hole. rewrite length_app; simpl. split.
  - intros i Hi Hne u v. pose proof (parent_lt i ltac:(lia)).
    rewrite !lookup_app_l by lia. apply Hh. lia.
  - intros Hl c Hc Hp. pose proof (parent_lt c ltac:(lia)). lia.
Qed.

Lemma heap_pop_nil : heap_pop [] = None.
Proof. done. Qed.

Lemma heap_min l m x : heap l -> l !! 0 = Some m -> x ∈ l -> less x m = false.
Proof.
  intros Hh Hm [i Hi]%list_elem_of_lookup_1. apply (heap_root l (length l) i Hh); [|done|done|done].
  by apply lookup_lt_Some in Hi.
Qed.

Lemma heap_pop_spec m l :
  heap (m :: l) -> exists l', heap_pop (m :: l) = Some (m, l') /\ heap l' /\ m :: l ≡ₚ m :: l'.
Proof.
  intros Hh. unfold heap_pop. simpl length. replace (S (length l) - 1) with (length l) by lia.
  remember (length l) as n eqn:En. set (s := Swap (m :: l) 0 n).
  assert (Hsl : length s = S n) by (unfold s; rewrite Swap_length, En; done).
  assert (Hsn : s !! n = Some m).
  { unfold s. rewrite Swap_lookup by (simpl; lia). by rewrite decide_True. }
  assert (Hd : length (down n s 0 n) = S n /\ drop n (down n s 0 n) = drop n s /\ down n s 0 n ≡ₚ m :: l).
  { assert (s ≡ₚ m :: l) as Hp by apply Swap_perm.
    destruct (decide (n = 0)) as [E|Hn0].
    - destruct n; [done|lia].
    - destruct (down_frame n s 0 n) as (H1 & H2 & H3); [lia|lia|].
      rewrite H1, H2. split_and!; [done|done|]. by rewrite H3. }
  assert (Hdh : heap_to n (down n s 0 n)).
  { apply down_heap; [lia|lia|]. split; [|lia]. intros k Hk Hpk u v. pose proof (parent_lt k ltac:(lia)).
    unfold s. rewrite !Swap_lookup by (simpl; lia). rewrite !decide_False by lia. apply Hh. simpl; lia. }
  destruct Hd as (Hd1 & Hd2 & Hd3).
  assert (Hdn : drop n (down n s 0 n) = [m]).
  { rewrite Hd2, (drop_S s m n Hsn), drop_ge by lia. done. }
  assert (Hn : down n s 0 n !! n = Some m).
  { assert (drop n (down n s 0 n) !! 0 = Some m) as H0 by by rewrite Hdn.
    rewrite lookup_drop in H0. by replace (n + 0) with n in H0 by lia. }
  rewrite Hn. exists (take n (down n s 0 n)). split; [done|]. split.
  - intros i Hi u v. rewrite length_take in Hi. pose proof (parent_lt i ltac:(lia)).
    rewrite !lookup_take_lt by lia. apply Hdh. lia.
  - rewrite <- Hd3, <- (take_drop n (down n s 0 n)) at 1. rewrite Hdn, Permutation_app_comm. done.
Qed.
End Heap.
