(* ===== verification/NetAddr.v ===== *)
(** * NetAddr: IP addresses and prefixes as Go's [net/netip] represents them

    [netip.Addr] is an IPv4 or IPv6 value or the zero [Addr], [netip.Prefix] an
    address with a prefix length ([-1] in an invalid prefix). Addresses are kept as
    integers of their width.  The lemmas turn the bit operations of [Contains] and
    [Masked] into arithmetic on blocks of [2^k] addresses, which the IPAM and the
    WireGuard components reason with. *)

From S2P Require Import Prelude.
From Stdlib Require Import ZArith Lia.
#[local] Open Scope Z_scope.

Inductive addr : Type :=
| NoAddr                          (* netip.Addr{} *)
| Addr4 (v : Z)
| Addr6 (v : Z) (zone : string).

#[global] Instance addr_eq_dec : EqDecision addr.
Proof. solve_decision. Defined.

Definition BitLen (a : addr) : Z :=
  match a with NoAddr => 0 | Addr4 _ => 32 | Addr6 _ _ => 128 end.

Definition addr_val (a : addr) : Z :=
  match a with NoAddr => 0 | Addr4 v => v | Addr6 v _ => v end.

Definition addr_zone (a : addr) : string :=
  match a with Addr6 _ z => z | _ => "" end.

Definition IsValid (a : addr) : bool :=
  match a with NoAddr => false | _ => true end.

Definition Is4 (a : addr) : bool :=
  match a with Addr4 _ => true | _ => false end.

Definition Is6 (a : addr) : bool :=
  match a with Addr6 _ _ => true | _ => false end.

Definition withoutZone (a : addr) : addr :=
  match a with Addr6 v _ => Addr6 v "" | _ => a end.

(** Same family, another value. *)
Definition with_val (a : addr) (v : Z) : addr :=
  match a with NoAddr => NoAddr | Addr4 _ => Addr4 v | Addr6 _ z => Addr6 v z end.

(** [Addr.Next]: the following address, or the zero [Addr] after the last one. *)
Definition addr_Next (a : addr) : addr :=
  if addr_val a + 1 <? 2 ^ BitLen a then with_val a (addr_val a + 1) else NoAddr.

(** [Addr.Compare]: family, then value, then zone. *)
Definition addr_Compare (a b : addr) : comparison :=
  match BitLen a ?= BitLen b with
  | Eq => match addr_val a ?= addr_val b with
          | Eq => String.compare (addr_zone a) (addr_zone b)
          | c => c
          end
  | c => c
  end.

(** [netip.AddrPort]. *)
Record AddrPort := mkAddrPort { ap_Addr : addr; ap_Port : Z }.
#[global] Instance AddrPort_eq_dec : EqDecision AddrPort.
Proof. solve_decision. Defined.

Record prefix := mkPrefix { prefix_addr : addr; prefix_bits : Z }.

#[global] Instance prefix_eq_dec : EqDecision prefix.
Proof. solve_decision. Defined.

(** [netip.Prefix{}]. *)
Definition NoPrefix : prefix := mkPrefix NoAddr (-1).

(** [netip.PrefixFrom]: drops the zone; bits out of range make the prefix invalid. *)
Definition PrefixFrom (ip : addr) (bits : Z) : prefix :=
  mkPrefix (withoutZone ip)
    (if IsValid ip && (0 <=? bits) && (bits <=? BitLen ip) then bits else -1).

Definition prefix_IsValid (p : prefix) : bool := 0 <=? prefix_bits p.

(** The number of host bits of a valid prefix. *)
Definition host_bits (p : prefix) : Z := BitLen (prefix_addr p) - prefix_bits p.

(** [Prefix.Masked]: host bits cleared. *)
Definition prefix_Masked (p : prefix) : prefix :=
  if prefix_IsValid p
  then mkPrefix (with_val (prefix_addr p)
                  (Z.shiftl (Z.shiftr (addr_val (prefix_addr p)) (host_bits p)) (host_bits p)))
                (prefix_bits p)
  else NoPrefix.

(** [Prefix.Contains]: same family, no zone and no differing network bit. *)
Definition prefix_Contains (p : prefix) (ip : addr) : bool :=
  prefix_IsValid p && String.eqb (addr_zone ip) "" &&
  negb (BitLen (prefix_addr p) =? 0) && negb (BitLen ip =? 0) &&
  (BitLen (prefix_addr p) =? BitLen ip) &&
  (Z.shiftr (Z.lxor (addr_val ip) (addr_val (prefix_addr p))) (host_bits p) =? 0).

(** ** Well-formedness *)
Definition addr_wf (a : addr) : Prop := 0 <= addr_val a < 2 ^ BitLen a.

Definition prefix_wf (p : prefix) : Prop :=
  addr_wf (prefix_addr p) /\ IsValid (prefix_addr p) = true /\
  addr_zone (prefix_addr p) = "" /\ 0 <= prefix_bits p <= BitLen (prefix_addr p).

Definition canonical (p : prefix) : Prop := prefix_Masked p = p.

(** ** Blocks

    A valid prefix denotes the block of [2^host_bits] addresses with number
    [block p]; first and last address of it. *)
Definition block (p : prefix) : Z := addr_val (prefix_addr p) / 2 ^ host_bits p.
Definition first_val (p : prefix) : Z := block p * 2 ^ host_bits p.
Definition last_val (p : prefix) : Z := first_val p + 2 ^ host_bits p - 1.

(** The values of the addresses of a prefix. *)
Definition in_prefix (v : Z) (p : prefix) : Prop := first_val p <= v <= last_val p.

Definition same_family (p q : prefix) : bool :=
  BitLen (prefix_addr p) =? BitLen (prefix_addr q).

(** Two prefixes share an address. *)
Definition overlaps (p q : prefix) : bool :=
  same_family p q && (first_val p <=? last_val q) && (first_val q <=? last_val p).

Section Lemmas.
Implicit Types (p q : prefix) (a : addr) (v k : Z).

Lemma host_bits_nonneg p : prefix_wf p -> 0 <= host_bits p.
Proof. unfold prefix_wf, host_bits. lia. Qed.

Lemma pow_host_pos p : prefix_wf p -> 0 < 2 ^ host_bits p.
Proof. intros H. apply Z.pow_pos_nonneg; [lia|]. by apply host_bits_nonneg. Qed.

Lemma shiftr_lxor_0 (v w k : Z) :
  0 <= k -> (Z.shiftr (Z.lxor v w) k =? 0) = (v / 2 ^ k =? w / 2 ^ k).
Proof.
  intros Hk. rewrite Z.shiftr_lxor, !Z.shiftr_div_pow2 by done.
  apply eq_true_iff_eq. rewrite !Z.eqb_eq. apply Z.lxor_eq_0_iff.
Qed.

(** An address is in the block numbered by its quotient. *)
Lemma div_block v b k : 0 < k -> (v / k = b <-> b * k <= v <= b * k + k - 1).
Proof.
  intros Hk. split.
  - intros <-. pose proof (Z.mul_div_le v k Hk). pose proof (Z.mul_succ_div_gt v k Hk). nia.
  - intros Hv. symmetry. apply (Z.div_unique v k b (v - k * b)); lia.
Qed.

Lemma Contains_spec p a :
  prefix_wf p -> addr_wf a ->
  prefix_Contains p a = true <->
  addr_zone a = "" /\ IsValid a = true /\ BitLen a = BitLen (prefix_addr p) /\
  in_prefix (addr_val a) p.
Proof.
  intros Hp Ha. pose proof (host_bits_nonneg p Hp). pose proof (pow_host_pos p Hp).
  destruct Hp as (Hpa & Hpv & Hpz & Hpb).
  unfold prefix_Contains, prefix_IsValid, in_prefix, last_val, first_val, block.
  rewrite shiftr_lxor_0 by done. rewrite !andb_true_iff, !negb_true_iff.
  rewrite !Z.eqb_eq, !Z.eqb_neq, String.eqb_eq, Z.leb_le, div_block by done.
  destruct a, (prefix_addr p); simpl in *; naive_solver lia.
Qed.

Lemma first_val_le p : prefix_wf p -> first_val p <= addr_val (prefix_addr p) <= last_val p.
Proof.
  intros Hp. pose proof (pow_host_pos p Hp).
  unfold last_val, first_val, block. by apply div_block.
Qed.

Lemma first_last p : prefix_wf p -> first_val p <= last_val p.
Proof. intros Hp. pose proof (pow_host_pos p Hp). unfold last_val. lia. Qed.

Lemma overlaps_spec p q :
  prefix_wf p -> prefix_wf q ->
  overlaps p q = true <->
  same_family p q = true /\ exists v, in_prefix v p /\ in_prefix v q.
Proof.
  intros Hp Hq. pose proof (first_last p Hp). pose proof (first_last q Hq).
  unfold overlaps, in_prefix. rewrite !andb_true_iff, !Z.leb_le. split.
  - intros [[Hf H1] H2]. split; [done|]. exists (Z.max (first_val p) (first_val q)). lia.
  - intros [Hf [v Hv]]. split_and!; [done|lia..].
Qed.

Lemma overlaps_sym p q : overlaps p q = overlaps q p.
Proof.
  unfold overlaps, same_family. rewrite (Z.eqb_sym (BitLen (prefix_addr p))).
  destruct (BitLen (prefix_addr q) =? BitLen (prefix_addr p)); simpl; [|done]. apply andb_comm.
Qed.

Lemma with_val_BitLen a v : BitLen (with_val a v) = BitLen a.
Proof. by destruct a. Qed.

Lemma block_bounds p : prefix_wf p ->
  0 <= block p < 2 ^ prefix_bits p /\ 0 <= first_val p /\ last_val p < 2 ^ BitLen (prefix_addr p).
Proof.
  intros Hp. pose proof (pow_host_pos p Hp) as Hpow. pose proof (host_bits_nonneg p Hp).
  destruct Hp as (Ha & _ & _ & Hb). unfold addr_wf in Ha.
  assert (Hsplit : 2 ^ BitLen (prefix_addr p) = 2 ^ prefix_bits p * 2 ^ host_bits p).
  { rewrite <- Z.pow_add_r by lia. f_equal. unfold host_bits. lia. }
  assert (0 <= block p < 2 ^ prefix_bits p).
  { unfold block. split; [apply Z.div_pos; lia|].
    apply Z.div_lt_upper_bound; [lia|]. rewrite Z.mul_comm, <- Hsplit. lia. }
  unfold last_val, first_val. rewrite Hsplit. nia.
Qed.

Lemma Masked_spec p : prefix_wf p ->
  prefix_Masked p = mkPrefix (with_val (prefix_addr p) (first_val p)) (prefix_bits p).
Proof.
  intros Hp. pose proof (host_bits_nonneg p Hp).
  unfold prefix_Masked, prefix_IsValid. destruct Hp as (_ & _ & _ & Hb).
  destruct (Z.leb_spec 0 (prefix_bits p)); [|lia].
  rewrite Z.shiftr_div_pow2, Z.shiftl_mul_pow2 by done. done.
Qed.

Lemma canonical_spec p : prefix_wf p ->
  canonical p <-> addr_val (prefix_addr p) = first_val p.
Proof.
  intros Hp. unfold canonical. rewrite Masked_spec by done. destruct Hp as (_ & Hv & _).
  generalize (first_val p). intros f. destruct p as [[|v|v z] b]; simpl in *; [done|..];
    split; congruence.
Qed.

Lemma Masked_wf p : prefix_wf p -> prefix_wf (prefix_Masked p).
Proof.
  intros Hp. pose proof (block_bounds p Hp). pose proof (first_last p Hp).
  rewrite Masked_spec by done. destruct Hp as (Ha & Hv & Hz & Hb).
  unfold prefix_wf, addr_wf. simpl. rewrite with_val_BitLen.
  destruct (prefix_addr p); simpl in *; try done; repeat split; try lia; done.
Qed.

Lemma Masked_first p : prefix_wf p -> first_val (prefix_Masked p) = first_val p.
Proof.
  intros Hp. pose proof (pow_host_pos p Hp). rewrite Masked_spec by done.
  unfold first_val at 1, block, host_bits. simpl. rewrite with_val_BitLen.
  assert (addr_val (with_val (prefix_addr p) (first_val p)) = first_val p) as ->.
  { destruct Hp as (_ & Hv & _). by destruct (prefix_addr p). }
  fold (host_bits p). unfold first_val. by rewrite Z.div_mul by lia.
Qed.

Lemma Masked_idem p : prefix_wf p -> canonical (prefix_Masked p).
Proof.
  intros Hp. apply canonical_spec; [by apply Masked_wf|]. rewrite Masked_first by done.
  rewrite Masked_spec by done. destruct Hp as (_ & Hv & _). by destruct (prefix_addr p).
Qed.
End Lemmas.

#[export] Hint Resolve host_bits_nonneg pow_host_pos first_last Masked_wf Masked_idem : core.
