(* ===== verification/NetText.v ===== *)
(** * NetText: the textual forms of [net/netip] addresses and prefixes

    [netip.ParseAddr], [netip.ParsePrefix] and the [String] methods, as the Go
    standard library scans and prints them.  The port and network components print
    and parse addresses; [ParseAddr_String4] is the round trip of IPv4 addresses, and
    [text_ok] is the (decidable) condition under which an address survives it. *)

From S2P Require Import Prelude GoStrings NetAddr.
#[local] Open Scope string_scope.
#[local] Open Scope Z_scope.

Definition digit_val (c : ascii) : option Z :=
  let n := Z.of_nat (nat_of_ascii c) in
  if (48 <=? n) && (n <=? 57) then Some (n - 48) else None.

Definition hex_val (c : ascii) : option Z :=
  let n := Z.of_nat (nat_of_ascii c) in
  if (48 <=? n) && (n <=? 57) then Some (n - 48)
  else if (97 <=? n) && (n <=? 102) then Some (n - 87)
  else if (65 <=? n) && (n <=? 70) then Some (n - 55)
  else None.

(** ** IPv4: [parseIPv4Fields]

    [start] tells that no byte of the current field was read ([i == 0] or the previous
    byte is a dot). *)
Definition octet_digit (c : ascii) (val digLen : Z) : option Z :=
  match digit_val c with
  | None => None
  | Some d =>
      if (digLen =? 1) && (val =? 0) then None
      else if 255 <? val * 10 + d then None else Some (val * 10 + d)
  end.

Fixpoint parseIPv4Fields (s : string) (start : bool) (val digLen : Z) (fields : list Z) :
  option (list Z) :=
  match s with
  | "" => if Nat.ltb (length fields) 3 then None else Some ((fields ++ [val])%list)
  | String c s' =>
      match digit_val c with
      | Some _ =>
          match octet_digit c val digLen with
          | None => None
          | Some v => parseIPv4Fields s' false v (digLen + 1) fields
          end
      | None =>
          if Ascii.eqb c "." then
            if start || String.eqb s' "" then None
            else if Nat.eqb (length fields) 3 then None
            else parseIPv4Fields s' true 0 0 ((fields ++ [val])%list)
          else None
      end
  end.

Definition bytes_val (l : list Z) : Z := fold_left (fun acc b => acc * 256 + b) l 0.

Definition parseIPv4 (s : string) : option addr :=
  match parseIPv4Fields s true 0 0 [] with
  | Some fields => Some (Addr4 (bytes_val fields))
  | None => None
  end.

(** ** IPv6: [parseIPv6]

    The address is collected as 16-bit groups. [hex_group] reads the digits of one
    group: its value, the number of digits and the rest; more than four digits fail. *)
Fixpoint hex_group (s : string) (off : nat) (acc : Z) : option (Z * nat * string) :=
  match s with
  | "" => Some (acc, off, "")
  | String c s' =>
      match hex_val c with
      | None => Some (acc, off, s)
      | Some d => if Nat.ltb 3 off then None else hex_group s' (S off) (acc * 16 + d)
      end
  end.

Definition starts_with (c : ascii) (s : string) : bool :=
  match s with String a _ => Ascii.eqb a c | "" => false end.

(** [room] is the number of groups not read yet; the result is the groups, the position
    of the ellipsis and the unread rest. *)
Fixpoint groups_loop (room : nat) (s : string) (groups : list Z) (ellipsis : option nat) :
  option (list Z * option nat * string) :=
  match room with
  | O => Some (groups, ellipsis, s)
  | S room' =>
      match hex_group s 0 0 with
      | None => None
      | Some (_, O, _) => None
      | Some (acc, _, rest) =>
          if starts_with "." rest then
            if match ellipsis with None => negb (Nat.eqb (length groups) 6) | Some _ => false end
            then None
            else if Nat.ltb 6 (length groups) then None
            else match parseIPv4Fields s true 0 0 [] with
                 | Some [a; b; c; d] => Some ((groups ++ [a * 256 + b; c * 256 + d])%list, ellipsis, "")
                 | _ => None
                 end
          else
            let groups := (groups ++ [acc])%list in
            match rest with
            | "" => Some (groups, ellipsis, "")
            | String c s1 =>
                if negb (Ascii.eqb c ":") || String.eqb s1 "" then None
                else if starts_with ":" s1 then
                  match ellipsis with
                  | Some _ => None
                  | None =>
                      match s1 with
                      | String _ "" => Some (groups, Some (length groups), "")
                      | String _ s2 => groups_loop room' s2 groups (Some (length groups))
                      | "" => None
                      end
                  end
                else groups_loop room' s1 groups ellipsis
            end
      end
  end.

Definition groups_val (l : list Z) : Z := fold_left (fun acc g => acc * 65536 + g) l 0.

Definition expand_ellipsis (groups : list Z) (ellipsis : option nat) : option (list Z) :=
  if Nat.ltb (length groups) 8 then
    match ellipsis with
    | None => None
    | Some e => Some (take e groups ++ repeat 0 (8 - length groups)%nat ++ drop e groups)%list
    end
  else match ellipsis with None => Some groups | Some _ => None end.

Definition parse_groups (s : string) : option (list Z) :=
  let finish '(groups, ellipsis, rest) :=
    if String.eqb rest "" then expand_ellipsis groups ellipsis else None in
  match cut_prefix "::" s with
  | Some "" => Some (repeat 0 8)
  | Some s' => groups_loop 8 s' [] (Some 0%nat) ≫= finish
  | None => groups_loop 8 s [] None ≫= finish
  end.

Definition parseIPv6 (s : string) : option addr :=
  match cut_byte "%" s with
  | Some (_, "") => None
  | Some (ip, zone) => (fun g => Addr6 (groups_val g) zone) <$> parse_groups ip
  | None => (fun g => Addr6 (groups_val g) "") <$> parse_groups s
  end.

(** ** [netip.ParseAddr] *)
Fixpoint addr_kind (s : string) : option bool :=
  match s with
  | "" => None
  | String c s' =>
      if Ascii.eqb c "." then Some false
      else if Ascii.eqb c ":" then Some true
      else if Ascii.eqb c "%" then None
      else addr_kind s'
  end.

Definition ParseAddr (s : string) : option addr :=
  match addr_kind s with
  | None => None
  | Some false => parseIPv4 s
  | Some true => parseIPv6 s
  end.

(** ** [netip.ParsePrefix] *)
(** [strconv.Atoi] of a digit string that must not start with a zero or a sign. *)
Definition prefix_bits_of (s : string) : option Z :=
  let bad := match s with
             | String c (String _ _) =>
                 let n := Z.of_nat (nat_of_ascii c) in (n <? 49) || (57 <? n)
             | _ => false
             end in
  if bad then None
  else match parse_uint 63 s with Ok n => Some (Z.of_N n) | Err _ => None end.

Definition ParsePrefix (s : string) : option prefix :=
  match last_cut_byte "/" s with
  | None => None
  | Some (ip, bits) =>
      match ParseAddr ip with
      | None => None
      | Some a =>
          if negb (String.eqb (addr_zone a) "") then None
          else match prefix_bits_of bits with
               | None => None
               | Some n => if (n <? 0) || (BitLen a <? n) then None else Some (PrefixFrom a n)
               end
      end
  end.

(** ** [netip.ParseAddrPort] *)
Inductive addrport_error := NotAddrPort | NoPort | InvalidPort | BadIP | BracketedIPv4 | UnbracketedIPv6.

Definition split_addr_port (s : string) : result addrport_error (string * string * bool) :=
  match last_cut_byte ":" s with
  | None => Err NotAddrPort
  | Some (ip, port) =>
      if String.eqb ip "" then Err NotAddrPort
      else if String.eqb port "" then Err NoPort
      else match cut_prefix "[" ip with
           | Some ip' =>
               match cut_suffix "]" ip' with
               | None => Err NotAddrPort
               | Some inner => Ok (inner, port, true)
               end
           | None => Ok (ip, port, false)
           end
  end.

Definition ParseAddrPort (s : string) : result addrport_error AddrPort :=
  match split_addr_port s with
  | Err e => Err e
  | Ok (ip, port, ipv6) =>
      match parse_uint 16 port with
      | Err _ => Err InvalidPort
      | Ok n =>
          match ParseAddr ip with
          | None => Err BadIP
          | Some a =>
              match a with
              | Addr4 _ => if ipv6 then Err BracketedIPv4 else Ok (mkAddrPort a (Z.of_N n))
              | _ => if ipv6 then Ok (mkAddrPort a (Z.of_N n)) else Err UnbracketedIPv6
              end
          end
      end
  end.

(** ** The [String] methods *)
Definition sprint (n : Z) : string := itoa (Z.to_N n).

(** [strconv.Itoa] *)
Definition itoa_int (n : Z) : string := if n <? 0 then "-" ++ sprint (- n) else sprint n.

Definition octet (v i : Z) : Z := (v / 256 ^ i) mod 256.

Definition string4 (v : Z) : string :=
  sprint (octet v 3) ++ "." ++ sprint (octet v 2) ++ "." ++ sprint (octet v 1) ++ "." ++ sprint (octet v 0).

Definition hex_char (d : Z) : ascii :=
  ascii_of_nat (Z.to_nat (if d <? 10 then 48 + d else 87 + d)).

(** Lower-case hexadecimal without leading zeros. *)
Definition hex_string (g : Z) : string :=
  let digit i := hex_char ((g / 16 ^ i) mod 16) in
  if g <? 16 then String (digit 0) ""
  else if g <? 256 then String (digit 1) (String (digit 0) "")
  else if g <? 4096 then String (digit 2) (String (digit 1) (String (digit 0) ""))
  else String (digit 3) (String (digit 2) (String (digit 1) (String (digit 0) ""))).

Definition group (v i : Z) : Z := (v / 65536 ^ (7 - i)) mod 65536.
Definition groups_of (v : Z) : list Z := map (group v) [0; 1; 2; 3; 4; 5; 6; 7].

Fixpoint zero_run (l : list Z) : nat :=
  match l with 0 :: l' => S (zero_run l') | _ => 0 end.

(** The first longest run of at least two zero groups, as start and length. *)
Fixpoint longest_run (i : nat) (l : list Z) (best : option (nat * nat)) : option (nat * nat) :=
  match l with
  | [] => best
  | _ :: l' =>
      let r := zero_run l in
      let longer := match best with None => true | Some (_, b) => Nat.ltb b r end in
      longest_run (S i) l' (if Nat.leb 2 r && longer then Some (i, r) else best)
  end.

Definition string6 (v : Z) : string :=
  let g := groups_of v in
  match longest_run 0 g None with
  | None => join ":" (map hex_string g)
  | Some (i, r) =>
      join ":" (map hex_string (take i g)) ++ "::" ++ join ":" (map hex_string (drop (i + r) g))
  end.

Definition is4in6 (v : Z) : bool := v / 2 ^ 32 =? 65535.

Definition with_zone (s zone : string) : string :=
  if String.eqb zone "" then s else s ++ "%" ++ zone.

Definition addr_String (a : addr) : string :=
  match a with
  | NoAddr => "invalid IP"
  | Addr4 v => string4 v
  | Addr6 v zone =>
      if is4in6 v then with_zone ("::ffff:" ++ string4 (v mod 2 ^ 32)) zone
      else with_zone (string6 v) zone
  end.

Definition prefix_String (p : prefix) : string :=
  if prefix_IsValid p then addr_String (prefix_addr p) ++ "/" ++ sprint (prefix_bits p)
  else "invalid Prefix".

(** Test vectors of the standard library's documentation. *)
Example parse_print_examples :
  map (fun s => addr_String <$> ParseAddr s)
    ["10.210.0.1"; "::1"; "2001:db8::"; "fe80::1%eth0"; "::ffff:1.2.3.4"; "1:0:0:2::3"; "01.2.3.4";
     "1.2.3"; "1::2::3"; "1:2:3:4:5:6:7:8"; "::1.2.3.4"; "FE80::A"] =
  [Some "10.210.0.1"; Some "::1"; Some "2001:db8::"; Some "fe80::1%eth0"; Some "::ffff:1.2.3.4";
   Some "1:0:0:2::3"; None; None; None; Some "1:2:3:4:5:6:7:8"; Some "::102:304"; Some "fe80::a"].
Proof. reflexivity. Qed.

(** ** Round trip of IPv4 addresses *)

(** The digits of one octet, scanned without what follows them. *)
Fixpoint scan_octet (s : string) (val digLen : Z) : option (Z * Z) :=
  match s with
  | "" => Some (val, digLen)
  | String c s' =>
      match octet_digit c val digLen with
      | None => None
      | Some v => scan_octet s' v (digLen + 1)
      end
  end.

Lemma scan_octet_fields s rest start val digLen fields v k :
  scan_octet s val digLen = Some (v, k) ->
  parseIPv4Fields (s ++ rest) start val digLen fields =
  parseIPv4Fields rest (start && String.eqb s "") v k fields.
Proof.
  revert start val digLen; induction s as [|c s IH]; intros start val digLen; simpl.
  - intros [= <- <-]. by rewrite andb_true_r.
  - unfold octet_digit. destruct (digit_val c) as [d|]; [|done].
    destruct (_ && _); [done|]. destruct (255 <? _); [done|].
    intros H. rewrite (IH _ _ _ H). by rewrite andb_false_r.
Qed.

Lemma octet_scan x : 0 <= x < 256 ->
  exists k, scan_octet (sprint x) 0 0 = Some (x, k) /\ String.eqb (sprint x) "" = false.
Proof.
  intros Hx.
  assert (Hall : forallb (fun n => match scan_octet (sprint (Z.of_nat n)) 0 0 with
                   | Some (v, _) => (v =? Z.of_nat n) && negb (String.eqb (sprint (Z.of_nat n)) "")
                   | None => false end) (seq 0 256) = true) by (vm_compute; reflexivity).
  rewrite forallb_forall in Hall. specialize (Hall (Z.to_nat x)). rewrite Z2Nat.id in Hall by lia.
  destruct (scan_octet (sprint x) 0 0) as [[v k]|].
  - apply andb_true_iff in Hall as [Hv Hn]; [|apply in_seq; lia].
    apply Z.eqb_eq in Hv as ->. exists k. split; [done|]. by apply negb_true_iff.
  - discriminate Hall. apply in_seq; lia.
Qed.

Lemma octet_dot x rest fields : 0 <= x < 256 -> rest <> "" -> (length fields < 3)%nat ->
  parseIPv4Fields (sprint x ++ String "." rest) true 0 0 fields =
  parseIPv4Fields rest true 0 0 (fields ++ [x])%list.
Proof.
  intros Hx Hr Hf. destruct (octet_scan x Hx) as (k & Hk & Hne).
  rewrite (scan_octet_fields _ _ _ _ _ _ _ _ Hk), Hne. simpl.
  rewrite (proj2 (String.eqb_neq _ _) Hr). destruct (Nat.eqb_spec (length fields) 3); [lia|done].
Qed.

Lemma octet_end x fields : 0 <= x < 256 -> length fields = 3%nat ->
  parseIPv4Fields (sprint x) true 0 0 fields = Some (fields ++ [x])%list.
Proof.
  intros Hx Hf. destruct (octet_scan x Hx) as (k & Hk & Hne).
  rewrite <- (string_app_nil_r (sprint x)), (scan_octet_fields _ _ _ _ _ _ _ _ Hk). simpl.
  by rewrite Hf.
Qed.

Lemma octet_range v i : 0 <= octet v i < 256.
Proof. apply Z.mod_pos_bound. lia. Qed.

Lemma sprint_nonempty x : sprint x <> "".
Proof. unfold sprint, itoa, DecimalString.NilZero.string_of_uint. by destruct (N.to_uint _). Qed.

Lemma app_nonempty_l s1 s2 : s1 <> "" -> s1 ++ s2 <> "".
Proof. by destruct s1. Qed.

Lemma octets_val v : 0 <= v < 2 ^ 32 ->
  bytes_val [octet v 3; octet v 2; octet v 1; octet v 0] = v.
Proof.
  intros Hv. unfold bytes_val, octet. simpl fold_left.
  change (256 ^ 3) with 16777216. change (256 ^ 2) with 65536. change (256 ^ 1) with 256.
  change (256 ^ 0) with 1. change (2 ^ 32) with 4294967296 in Hv.
  Z.div_mod_to_equations. lia.
Qed.

Lemma parseIPv4_string4 v : 0 <= v < 2 ^ 32 -> parseIPv4 (string4 v) = Some (Addr4 v).
Proof.
  intros Hv. unfold parseIPv4, string4.
  pose proof sprint_nonempty. pose proof octet_range.
  cbn [String.append]. rewrite !octet_dot by (simpl; try lia; eauto using app_nonempty_l).
  rewrite octet_end by (simpl; auto). simpl app. by rewrite octets_val.
Qed.

(** A parsed IPv4 address fits in 32 bits. *)
Lemma octet_digit_range c val k v : 0 <= val -> octet_digit c val k = Some v -> 0 <= v < 256.
Proof.
  intros Hv. unfold octet_digit, digit_val. cbv zeta.
  destruct (Z.leb_spec 48 (Z.of_nat (nat_of_ascii c))); simpl; [|done].
  destruct (Z.of_nat (nat_of_ascii c) <=? 57); [|done]. destruct (_ && _); [done|].
  match goal with |- context [255 <? ?e] => destruct (Z.ltb_spec 255 e) end; [done|]. intros [= <-]. lia.
Qed.

Lemma parseIPv4Fields_range s start val k fields fs :
  0 <= val < 256 -> Forall (fun b => 0 <= b < 256) fields -> (length fields <= 3)%nat ->
  parseIPv4Fields s start val k fields = Some fs -> Forall (fun b => 0 <= b < 256) fs /\ length fs = 4%nat.
Proof.
  revert start val k fields. induction s as [|c s IH]; intros start val k fields Hv Hf Hl; simpl.
  - destruct (Nat.ltb_spec (length fields) 3); [done|]. intros [= <-]. rewrite length_app. simpl.
    split; [by apply Forall_app_2; [|constructor]|lia].
  - destruct (digit_val c) eqn:Hd.
    + destruct (octet_digit c val k) as [v|] eqn:Ho; [|done]. apply octet_digit_range in Ho; [|lia].
      by apply IH.
    + destruct (Ascii.eqb c "."); [|done]. destruct (start || _); [done|].
      destruct (Nat.eqb_spec (length fields) 3); [done|]. apply IH; [done| |].
      * by apply Forall_app_2; [|constructor].
      * rewrite length_app. simpl. lia.
Qed.

Lemma ParseAddr_range4 s v : ParseAddr s = Some (Addr4 v) -> 0 <= v < 2 ^ 32.
Proof.
  unfold ParseAddr. destruct (addr_kind s) as [[]|]; [| |done].
  - unfold parseIPv6. destruct (cut_byte "%" s) as [[ip [|z zone]]|]; [done| |];
      destruct (parse_groups _); simpl; congruence.
  - unfold parseIPv4. destruct (parseIPv4Fields s true 0 0 []) as [fs|] eqn:Hp; [|done]. intros [= <-].
    apply parseIPv4Fields_range in Hp as [Hf Hl]; [|done|constructor|simpl; lia].
    destruct fs as [|a [|b [|c [|d [|]]]]]; try done. rewrite !Forall_cons in Hf. unfold bytes_val. simpl. lia.
Qed.

Lemma sprint_no_byte c x : is_digit c = false -> contains_byte c (sprint x) = false.
Proof. apply itoa_digits. Qed.

Lemma addr_kind_dot s1 s2 : is_digit "." = false ->
  contains_byte "." s1 = false -> contains_byte ":" s1 = false -> contains_byte "%" s1 = false ->
  addr_kind (s1 ++ String "." s2) = Some false.
Proof.
  intros _. induction s1 as [|c s1 IH]; simpl; [done|].
  intros [-> H1]%orb_false_iff [-> H2]%orb_false_iff [-> H3]%orb_false_iff. by apply IH.
Qed.

Lemma ParseAddr_String4 v : 0 <= v < 2 ^ 32 -> ParseAddr (addr_String (Addr4 v)) = Some (Addr4 v).
Proof.
  intros Hv. unfold ParseAddr, addr_String, string4. cbn [String.append].
  rewrite (addr_kind_dot (sprint (octet v 3))) by (try reflexivity; by apply sprint_no_byte).
  by apply parseIPv4_string4.
Qed.

Lemma string4_no_byte c v : is_digit c = false -> Ascii.eqb "." c = false ->
  contains_byte c (string4 v) = false.
Proof.
  intros Hc Hd. unfold string4.
  repeat (rewrite contains_byte_app || (cbn [contains_byte String.append])).
  by rewrite !sprint_no_byte, Hd by done.
Qed.

(** The addresses whose text parses back and contains none of the bytes that separate the
    parts of a port specification. *)
Definition text_ok (a : addr) : bool :=
  bool_decide (ParseAddr (addr_String a) = Some a) &&
  forallb (fun c => negb (contains_byte c (addr_String a)))
    (String.list_ascii_of_string "/@[]").

Lemma text_ok_4 v : 0 <= v < 2 ^ 32 -> text_ok (Addr4 v) = true.
Proof.
  intros Hv. unfold text_ok. rewrite bool_decide_eq_true_2 by by apply ParseAddr_String4.
  cbn [forallb String.list_ascii_of_string addr_String].
  by rewrite !string4_no_byte.
Qed.

Lemma text_ok_spec a : text_ok a = true ->
  ParseAddr (addr_String a) = Some a /\ contains_byte "/" (addr_String a) = false /\
  contains_byte "@" (addr_String a) = false /\ contains_byte "[" (addr_String a) = false /\
  contains_byte "]" (addr_String a) = false.
Proof.
  unfold text_ok. cbn [forallb String.list_ascii_of_string].
  rewrite !andb_true_iff, !negb_true_iff, bool_decide_eq_true. tauto.
Qed.

Lemma prefix_bits_sprint n : 0 <= n <= 128 -> prefix_bits_of (sprint n) = Some n.
Proof.
  intros Hn.
  assert (Hall : forallb (fun k => bool_decide (prefix_bits_of (sprint (Z.of_nat k)) = Some (Z.of_nat k)))
                   (seq 0 129) = true) by (vm_compute; reflexivity).
  rewrite forallb_forall in Hall. specialize (Hall (Z.to_nat n)). rewrite Z2Nat.id in Hall by lia.
  apply bool_decide_eq_true in Hall; [done|]. apply in_seq. lia.
Qed.

(** A prefix as [PrefixFrom] builds it: valid length, no zone. *)
Definition prefix_text_ok (p : prefix) : bool :=
  text_ok (prefix_addr p) && String.eqb (addr_zone (prefix_addr p)) "" &&
  IsValid (prefix_addr p) && (0 <=? prefix_bits p) && (prefix_bits p <=? BitLen (prefix_addr p)).

Lemma BitLen_le_128 a : BitLen a <= 128.
Proof. destruct a; simpl; lia. Qed.

Lemma ParsePrefix_text p : prefix_text_ok p = true ->
  ParsePrefix (addr_String (prefix_addr p) ++ "/" ++ sprint (prefix_bits p)) = Some p.
Proof.
  unfold prefix_text_ok. rewrite !andb_true_iff, String.eqb_eq, !Z.leb_le.
  intros ((((Ht & Hz) & Hv) & H0) & H1). apply text_ok_spec in Ht as (Hp & Hslash & _).
  unfold ParsePrefix. cbn [String.append].
  rewrite last_cut_byte_app by by apply sprint_no_byte. rewrite Hp, Hz.
  pose proof (BitLen_le_128 (prefix_addr p)).
  rewrite prefix_bits_sprint by lia. simpl.
  destruct (Z.ltb_spec (prefix_bits p) 0); [lia|].
  destruct (Z.ltb_spec (BitLen (prefix_addr p)) (prefix_bits p)); [lia|]. simpl. f_equal.
  destruct p as [a n]. unfold PrefixFrom. simpl in *. rewrite Hv.
  destruct (Z.leb_spec 0 n); [|lia]. destruct (Z.leb_spec n (BitLen a)); [|lia].
  destruct a; simpl in *; by subst.
Qed.

(** *** Printed integers *)
Lemma ParseInt_unsigned s : contains_byte "-" s = false -> contains_byte "+" s = false ->
  ParseInt s = match parse_uint 64 s with Ok n => if (n <? 2 ^ 63)%N then Some (Z.of_N n) else None | Err _ => None end.
Proof.
  intros Hm Hp.
  assert (Hs : ParseInt s = (n ← match parse_uint 64 s with Ok n => Some (Z.of_N n) | Err _ => None end; if n <? 2 ^ 63 then Some n else None)).
  { destruct s as [|[[] [] [] [] [] [] [] []] s]; try done. }
  rewrite Hs. destruct (parse_uint 64 s) as [n|]; [|done]. cbn.
  destruct (Z.ltb_spec (Z.of_N n) (2 ^ 63)), (N.ltb_spec n (2 ^ 63)); done || lia.
Qed.

Lemma ParseInt_sprint n : 0 <= n < 2 ^ 63 -> ParseInt (sprint n) = Some n.
Proof.
  intros Hn. rewrite ParseInt_unsigned by (by apply sprint_no_byte). unfold sprint.
  rewrite itoa_parse by lia. destruct (N.ltb_spec (Z.to_N n) (2 ^ 63)); [f_equal; lia|lia].
Qed.
