(* ===== verification/Proto.v ===== *)
(** * Proto: the messages of [internal/machine/api/pb] the cluster components exchange

    [common.go] and [cluster.go] of the package, over the structs that [protoc] generates.
    A pointer to a message is an [option]; calling a method on a nil one dereferences it,
    and the result of such a function is [None], a panic.  Byte slices are strings. *)

From S2P Require Import Prelude GoStrings NetAddr.
#[local] Open Scope Z_scope.

(** ** Bytes *)

Definition byte_val (c : Ascii.ascii) : Z := Z.of_N (Ascii.N_of_ascii c).

(** The big-endian value of a byte string and the [n] bytes of a value. *)
Fixpoint be_val_from (acc : Z) (s : string) : Z :=
  match s with
  | EmptyString => acc
  | String c s' => be_val_from (acc * 256 + byte_val c) s'
  end.
Definition be_val (s : string) : Z := be_val_from 0 s.

Fixpoint be_bytes (n : nat) (v : Z) : string :=
  match n with
  | O => ""
  | S k => String (Ascii.ascii_of_N (Z.to_N ((v / 256 ^ Z.of_nat k) mod 256))) (be_bytes k v)
  end.

(** [s[:n]] and [s[n:]]. *)
Fixpoint split_at (n : nat) (s : string) : string * string :=
  match n, s with
  | S k, String c s' => let (a, b) := split_at k s' in (String c a, b)
  | _, _ => ("", s)
  end.

(** [netip.Addr]: [MarshalBinary] and [UnmarshalBinary]; [None] is an error. *)
Definition Addr_MarshalBinary (a : addr) : string :=
  match a with
  | NoAddr => ""
  | Addr4 v => be_bytes 4 v
  | Addr6 v zone => String.append (be_bytes 16 v) zone
  end.

Definition Addr_UnmarshalBinary (b : string) : option addr :=
  let n := String.length b in
  if (n =? 0)%nat then Some NoAddr
  else if (n =? 4)%nat then Some (Addr4 (be_val b))
  else if (n =? 16)%nat then Some (Addr6 (be_val b) "")
  else if (16 <? n)%nat then let (v, zone) := split_at 16 b in Some (Addr6 (be_val v) zone)
  else None.

(** ** Messages *)
Record IP := mkIP { Ip : string }.
Record IPPort := mkIPPort { ipp_Ip : option IP; ipp_Port : Z }.
Record IPPrefix := mkIPPrefix { ipx_Ip : option IP; ipx_Bits : Z }.

(** A nil byte slice is [None]. *)
Record NetworkConfig := mkNetworkConfig {
  nc_Subnet : option IPPrefix; nc_ManagementIp : option IP;
  nc_Endpoints : list (option IPPort); nc_PublicKey : option string }.

Record MachineInfo := mkMachineInfo {
  mi_Id : string; mi_Name : string; mi_Network : option NetworkConfig; mi_PublicIp : option IP;
  mi_DaemonVersion : string; mi_DockerVersion : string; mi_Hostname : string; mi_Arch : string;
  mi_OsPrettyName : string; mi_KernelVersion : string }.

(** [pb.MachineMember_MembershipState] *)
Inductive MembershipState := UNKNOWN | UP | SUSPECT | DOWN.

#[global] Instance IP_eq_dec : EqDecision IP.
Proof. solve_decision. Defined.
#[global] Instance IPPort_eq_dec : EqDecision IPPort.
Proof. solve_decision. Defined.
#[global] Instance IPPrefix_eq_dec : EqDecision IPPrefix.
Proof. solve_decision. Defined.
#[global] Instance NetworkConfig_eq_dec : EqDecision NetworkConfig.
Proof. solve_decision. Defined.
#[global] Instance MachineInfo_eq_dec : EqDecision MachineInfo.
Proof. solve_decision. Defined.

(** ** [common.go] *)
Inductive pb_error := UnmarshalIP | InvalidIP | InvalidPrefix.

(** A call that may panic on a nil pointer. *)
Definition nilable (E A : Type) : Type := option (result E A).

Definition NewIP (a : addr) : IP := mkIP (Addr_MarshalBinary a).

Definition ToAddr (ip : option IP) : nilable pb_error addr :=
  match ip with
  | None => None
  | Some ip =>
      Some match Addr_UnmarshalBinary (Ip ip) with
           | None => Err UnmarshalIP
           | Some a => if IsValid a then Ok a else Err InvalidIP
           end
  end.

Definition IP_Equal (ip other : option IP) : option bool :=
  match ip, other with
  | Some a, Some b => Some (String.eqb (Ip a) (Ip b))
  | _, _ => None
  end.

(** [netip.AddrPort]. *)
Definition NewIPPort (a : addr) (port : Z) : IPPort := mkIPPort (Some (NewIP a)) port.

(** The conversion to [uint16] drops the high bits of the port. *)
Definition ToAddrPort (ipp : IPPort) : nilable pb_error (addr * Z) :=
  match ToAddr (ipp_Ip ipp) with
  | None => None
  | Some (Err e) => Some (Err e)
  | Some (Ok a) => Some (Ok (a, ipp_Port ipp mod 2 ^ 16))
  end.

(** The conversion to [uint32]. *)
Definition NewIPPrefix (p : prefix) : IPPrefix := mkIPPrefix (Some (NewIP (prefix_addr p))) (prefix_bits p mod 2 ^ 32).

Definition ToPrefix (p : option IPPrefix) : nilable pb_error prefix :=
  match p with
  | None => None
  | Some p =>
      match ToAddr (ipx_Ip p) with
      | None => None
      | Some (Err e) => Some (Err e)
      | Some (Ok a) =>
          let pfx := PrefixFrom a (ipx_Bits p) in
          Some (if prefix_IsValid pfx then Ok pfx else Err InvalidPrefix)
      end
  end.

(** ** [cluster.go] *)
Definition KeyLen : nat := 32.

Inductive validate_error :=
| InvalidSubnet (e : pb_error)
| InvalidManagementIP (e : pb_error)
| EndpointNotSet
| InvalidEndpoint (e : pb_error)
| PublicKeyNotSet
| InvalidPublicKeyLength (n : nat).

(** [if p != nil { if _, err := p.To...(); err != nil { return ... } }]. *)
Definition check_set {E A} (f : pb_error -> E) (is_set : bool) (r : nilable pb_error A) : nilable E unit :=
  if is_set then
    match r with
    | None => None
    | Some (Err e) => Some (Err (f e))
    | Some (Ok _) => Some (Ok tt)
    end
  else Some (Ok tt).

Definition seq_checks {E} (a b : nilable E unit) : nilable E unit :=
  match a with Some (Ok _) => b | _ => a end.

Fixpoint check_endpoints (eps : list (option IPPort)) : nilable validate_error unit :=
  match eps with
  | [] => Some (Ok tt)
  | None :: _ => Some (Err EndpointNotSet)
  | Some ep :: rest => seq_checks (check_set InvalidEndpoint true (ToAddrPort ep)) (check_endpoints rest)
  end.

Definition is_set {A} (o : option A) : bool := match o with Some _ => true | None => false end.

Definition Validate (c : NetworkConfig) : nilable validate_error unit :=
  seq_checks (check_set InvalidSubnet (is_set (nc_Subnet c)) (ToPrefix (nc_Subnet c)))
  (seq_checks (check_set InvalidManagementIP (is_set (nc_ManagementIp c)) (ToAddr (nc_ManagementIp c)))
  (seq_checks (check_endpoints (nc_Endpoints c))
    match nc_PublicKey c with
    | None => Some (Err PublicKeyNotSet)
    | Some k => if negb (String.length k =? KeyLen)%nat then Some (Err (InvalidPublicKeyLength (String.length k)))
                else Some (Ok tt)
    end)).

(** [ManagementIP] of [internal/machine/network/ip.go]; [None]: the key is shorter than
    the 14 bytes that are sliced off it. *)
Definition ManagementIP (publicKey : string) : option addr :=
  if (String.length publicKey <? 14)%nat then None
  else Some (Addr6 (be_val (String.append (be_bytes 2 64972) (fst (split_at 14 publicKey)))) "").

(** ** Lemmas *)
Lemma byte_val_range c : 0 <= byte_val c < 256.
Proof. unfold byte_val. pose proof (Ascii.N_ascii_bounded c). lia. Qed.

Lemma byte_of_val v : 0 <= v < 256 -> byte_val (Ascii.ascii_of_N (Z.to_N v)) = v.
Proof. intros Hv. unfold byte_val. rewrite Ascii.N_ascii_embedding by lia. lia. Qed.

Lemma val_of_byte c : Ascii.ascii_of_N (Z.to_N (byte_val c)) = c.
Proof. unfold byte_val. rewrite N2Z.id. apply Ascii.ascii_N_embedding. Qed.

Lemma be_bytes_length n v : String.length (be_bytes n v) = n.
Proof. induction n; simpl; congruence. Qed.

Lemma be_val_from_bytes n : forall acc v, 0 <= v < 256 ^ Z.of_nat n ->
  be_val_from acc (be_bytes n v) = acc * 256 ^ Z.of_nat n + v.
Proof.
  enough (Hmod : forall acc v, 0 <= v -> be_val_from acc (be_bytes n v) = acc * 256 ^ Z.of_nat n + v mod 256 ^ Z.of_nat n).
  { intros acc v Hv. rewrite Hmod by lia. by rewrite (Z.mod_small v) by lia. }
  induction n as [|n IH]; intros acc v Hv; cbn [be_bytes be_val_from].
  - rewrite Z.pow_0_r, Z.mod_1_r. lia.
  - rewrite IH by done. rewrite byte_of_val by (apply Z.mod_pos_bound; lia).
    rewrite Nat2Z.inj_succ, Z.pow_succ_r by lia.
    rewrite (Z.mul_comm 256), Z.rem_mul_r by (try apply Z.pow_nonzero; lia). lia.
Qed.

Lemma be_val_bytes n v : 0 <= v < 256 ^ Z.of_nat n -> be_val (be_bytes n v) = v.
Proof. intros Hv. unfold be_val. rewrite be_val_from_bytes by done. lia. Qed.

Lemma be_val_from_range s : forall acc, 0 <= acc -> acc * 256 ^ Z.of_nat (String.length s) <= be_val_from acc s <
  (acc + 1) * 256 ^ Z.of_nat (String.length s).
Proof.
  induction s as [|c s IH]; intros acc Hacc; cbn [be_val_from String.length].
  - rewrite Z.pow_0_r. lia.
  - pose proof (byte_val_range c). specialize (IH (acc * 256 + byte_val c) ltac:(lia)).
    rewrite Nat2Z.inj_succ, Z.pow_succ_r by lia.
    assert (0 < 256 ^ Z.of_nat (String.length s)) by (apply Z.pow_pos_nonneg; lia). nia.
Qed.

Lemma be_val_range s : 0 <= be_val s < 256 ^ Z.of_nat (String.length s).
Proof. unfold be_val. pose proof (be_val_from_range s 0). lia. Qed.

Lemma be_val_from_acc s : forall acc, be_val_from acc s = acc * 256 ^ Z.of_nat (String.length s) + be_val s.
Proof.
  unfold be_val. induction s as [|c s IH]; intros acc; cbn [be_val_from String.length]; [rewrite Z.pow_0_r; lia|].
  rewrite (IH (acc * 256 + byte_val c)), (IH (0 * 256 + byte_val c)).
  rewrite Nat2Z.inj_succ, Z.pow_succ_r by lia. lia.
Qed.

Lemma be_val_inj s : forall t, String.length s = String.length t -> be_val s = be_val t -> s = t.
Proof.
  induction s as [|c s IH]; intros [|d t] Hlen Hval; try done. injection Hlen as Hlen.
  unfold be_val in Hval. cbn [be_val_from] in Hval. rewrite !be_val_from_acc, Hlen in Hval.
  pose proof (be_val_range s). pose proof (be_val_range t). rewrite Hlen in *.
  assert (0 < 256 ^ Z.of_nat (String.length t)) by (apply Z.pow_pos_nonneg; lia).
  assert (byte_val c = byte_val d) as Hcd by nia. f_equal.
  - by rewrite <- (val_of_byte c), <- (val_of_byte d), Hcd.
  - apply IH; [done|]. rewrite Hcd in Hval. lia.
Qed.

Lemma split_at_app s t : split_at (String.length s) (String.append s t) = (s, t).
Proof. induction s as [|c s IH]; [by destruct t|].
  cbn [split_at String.length String.append]. by rewrite IH. Qed.

Lemma split_at_length n s : (n <= String.length s)%nat -> String.length (fst (split_at n s)) = n.
Proof.
  revert s. induction n as [|n IH]; intros [|c s] Hn; cbn in *; try lia.
  specialize (IH s ltac:(lia)). destruct (split_at n s). cbn in *. lia.
Qed.

(** Marshalling a well-formed address and unmarshalling it gives it back. *)
Lemma Addr_binary_roundtrip a : addr_wf a -> Addr_UnmarshalBinary (Addr_MarshalBinary a) = Some a.
Proof.
  unfold addr_wf, Addr_UnmarshalBinary. destruct a as [|v|v zone]; cbn [addr_val BitLen Addr_MarshalBinary]; intros Hv; [done|..].
  - rewrite be_bytes_length. cbn [Nat.eqb]. by rewrite be_val_bytes by (cbn; lia).
  - rewrite string_app_length, be_bytes_length.
    assert (Hr : 0 <= v < 256 ^ Z.of_nat 16) by (cbn; lia).
    destruct zone as [|c zone].
    + rewrite string_app_nil_r. cbn [String.length Nat.add Nat.eqb]. by rewrite be_val_bytes.
    + cbn [String.length Nat.add Nat.eqb Nat.ltb Nat.leb].
      pose proof (split_at_app (be_bytes 16 v) (String c zone)) as Hs. rewrite be_bytes_length in Hs.
      rewrite Hs. by rewrite be_val_bytes.
Qed.

Lemma NewIP_ToAddr a : addr_wf a -> IsValid a = true -> ToAddr (Some (NewIP a)) = Some (Ok a).
Proof. intros Hwf Hv. unfold ToAddr, NewIP. cbn [Ip]. by rewrite Addr_binary_roundtrip, Hv. Qed.

Lemma NewIPPrefix_ToPrefix p : prefix_wf p -> ToPrefix (Some (NewIPPrefix p)) = Some (Ok p).
Proof.
  intros (Hwf & Hv & Hz & Hb). unfold ToPrefix, NewIPPrefix. cbn [ipx_Ip ipx_Bits].
  rewrite NewIP_ToAddr by done.
  assert (BitLen (prefix_addr p) <= 128) by (by destruct (prefix_addr p)).
  rewrite Z.mod_small by lia. unfold PrefixFrom. rewrite Hv.
  rewrite (proj2 (Z.leb_le 0 _)), (proj2 (Z.leb_le (prefix_bits p) _)) by lia. cbn [andb].
  unfold prefix_IsValid. cbn [prefix_bits]. rewrite (proj2 (Z.leb_le 0 _)) by lia.
  destruct p as [[|v|v z] bits]; cbn in *; by subst.
Qed.

(** Whatever [ToAddr] returns is well-formed, so the addresses of the program are. *)
Lemma Addr_UnmarshalBinary_wf b a : Addr_UnmarshalBinary b = Some a -> addr_wf a.
Proof.
  unfold Addr_UnmarshalBinary. pose proof (be_val_range b) as Hr.
  destruct (Nat.eqb_spec (String.length b) 0); [by intros [= <-]|].
  destruct (Nat.eqb_spec (String.length b) 4) as [Hl|]; [intros [= <-]; rewrite Hl in Hr; unfold addr_wf; cbn in *; lia|].
  destruct (Nat.eqb_spec (String.length b) 16) as [Hl|]; [intros [= <-]; rewrite Hl in Hr; unfold addr_wf; cbn in *; lia|].
  destruct (Nat.ltb_spec 16 (String.length b)); [|done].
  pose proof (split_at_length 16 b ltac:(lia)) as Hl. destruct (split_at 16 b) as [v zone]. cbn [fst] in Hl.
  intros [= <-]. pose proof (be_val_range v) as Hv. rewrite Hl in Hv. unfold addr_wf. cbn in *. lia.
Qed.

Lemma ToAddr_wf ip a : ToAddr ip = Some (Ok a) -> addr_wf a /\ IsValid a = true.
Proof.
  unfold ToAddr. destruct ip as [ip|]; [|done]. destruct (Addr_UnmarshalBinary (Ip ip)) as [a'|] eqn:Ha; [|done].
  destruct (IsValid a') eqn:Hv; [|done]. intros [= <-]. split; [|done]. by eapply Addr_UnmarshalBinary_wf.
Qed.

Lemma ToPrefix_wf p pfx : ToPrefix p = Some (Ok pfx) -> prefix_wf pfx.
Proof.
  unfold ToPrefix. destruct p as [p|]; [|done]. destruct (ToAddr (ipx_Ip p)) as [[a|]|] eqn:Ha; [|done..].
  apply ToAddr_wf in Ha as [Hwf Hv]. destruct (prefix_IsValid _) eqn:Hp; [|done]. intros [= <-].
  revert Hp. unfold PrefixFrom, prefix_IsValid. cbn [prefix_bits]. rewrite Hv. cbn [andb].
  destruct (Z.leb_spec 0 (ipx_Bits p)); [|done]. destruct (Z.leb_spec (ipx_Bits p) (BitLen a)); [|done]. intros _.
  unfold prefix_wf. cbn [andb prefix_addr prefix_bits]. destruct a; cbn in *; try done; repeat split; try apply Hwf; lia.
Qed.

(** [Validate] accepts a configuration exactly when its parts convert and the key has
    its length. *)
Definition endpoint_ok (ep : option IPPort) : Prop := exists e a, ep = Some e /\ ToAddr (ipp_Ip e) = Some (Ok a).

Lemma check_endpoints_Ok eps : check_endpoints eps = Some (Ok tt) <-> Forall endpoint_ok eps.
Proof.
  induction eps as [|[e|] eps IH]; cbn [check_endpoints]; [by split|..].
  - rewrite Forall_cons, <- IH. unfold check_set, ToAddrPort, endpoint_ok.
    destruct (ToAddr (ipp_Ip e)) as [[a|]|] eqn:Ha; cbn.
    + split; [intros H; split; [by exists e, a|done]|by intros [_ H]].
    + split; [done|]. intros [(? & ? & [= <-] & ?) _]. congruence.
    + split; [done|]. intros [(? & ? & [= <-] & ?) _]. congruence.
  - rewrite Forall_cons. split; [done|]. intros [(e & a & ? & _) _]. done.
Qed.

Lemma seq_checks_Ok {E} (a b : nilable E unit) :
  seq_checks a b = Some (Ok tt) <-> a = Some (Ok tt) /\ b = Some (Ok tt).
Proof. destruct a as [[[]|]|]; cbn; split; intros H; try done; by destruct H. Qed.

Lemma check_set_Ok {E A} (f : pb_error -> E) {B} (o : option B) (r : nilable pb_error A) :
  check_set f (is_set o) r = Some (Ok tt) <-> o = None \/ exists a, r = Some (Ok a).
Proof.
  unfold check_set. destruct o; cbn [is_set].
  - destruct r as [[a|]|]; split; try done; [by right; exists a|..]; intros [|[? ?]]; done.
  - split; [by left|done].
Qed.

Lemma NetworkConfig_Validate_Ok c : Validate c = Some (Ok tt) <->
  (nc_Subnet c = None \/ exists p, ToPrefix (nc_Subnet c) = Some (Ok p)) /\
  (nc_ManagementIp c = None \/ exists a, ToAddr (nc_ManagementIp c) = Some (Ok a)) /\
  Forall endpoint_ok (nc_Endpoints c) /\
  exists k, nc_PublicKey c = Some k /\ String.length k = KeyLen.
Proof.
  unfold Validate. rewrite !seq_checks_Ok, !check_set_Ok, check_endpoints_Ok.
  do 3 f_equiv. destruct (nc_PublicKey c) as [k|]; [|split; [done|by intros (? & ? & _)]].
  destruct (Nat.eqb_spec (String.length k) KeyLen); cbn [negb]; split; try done.
  - intros _. by exists k.
  - by intros (? & [= <-] & ?).
Qed.
