(* ===== verification/Corrosion.v ===== *)
(** * Corrosion: queries and subscriptions of the cluster database

    [internal/corrosion/query.go], [subscribe.go] and the retrying transport of
    [client.go].  Corrosion answers a query with a stream of JSON events; the JSON
    decoder is not modelled, so a response body is the sequence of what decoding its
    next event gives ([read]).  The end of the sequence is the end of the stream, which
    the decoder reports as an error.  Waiting times are not modelled: a retry loop is
    given the server's answers and what its backoff policy decides after each. *)

From S2P Require Import Prelude.
#[local] Open Scope Z_scope.

(** ** Events ([query.go], [subscribe.go]) *)

(** A column value, [json.RawMessage], as the JSON value it is the text of. *)
Inductive json :=
| JNull | JBool (b : bool) | JNumber (n : Z) | JString (s : string)
| JCompound (text : string).   (* an array or an object *)

Definition RawMessage : Type := json.

Record RowEvent := mkRow { row_RowID : Z; row_Values : list RawMessage }.
Record EndOfQuery := mkEOQ { eoq_ChangeID : option Z }.
Inductive ChangeType := ChangeTypeInsert | ChangeTypeUpdate | ChangeTypeDelete.
Record ChangeEvent := mkChange {
  ce_Type : ChangeType; ce_RowID : Z; ce_Values : list RawMessage; ce_ChangeID : Z }.

(** Absent fields are [None]. *)
Record QueryEvent := mkEvent {
  ev_Columns : option (list string); ev_Row : option RowEvent; ev_EOQ : option EndOfQuery;
  ev_Change : option ChangeEvent; ev_Error : option string }.

(** What the next round of a reading loop finds: the context is done, the decoder
    returns an event or an error, or the context becomes done while the decoded change
    waits for its receiver. *)
Inductive read :=
| CtxDone
| Decoded (e : QueryEvent)
| DecodeFails (err : string)
| Undelivered (e : QueryEvent).

Definition feed : Type := list read.

Definition EOF : string := "EOF".

(** ** Rows *)
Inductive rows_error :=
| RowsCtx
| RowsDecode (err : string)
| RowsQuery (msg : string)
| RowsArity (want got : nat)
| RowsUnexpected (e : QueryEvent).

Record Rows := mkRows {
  rs_feed : feed; rs_eoq : option EndOfQuery; rs_closeOnEOQ : bool; rs_columns : list string;
  rs_row : RowEvent; rs_err : option rows_error; rs_closed : bool }.

Definition newRows (body : feed) (closeOnEOQ : bool) : result rows_error Rows :=
  match body with
  | [] => Err (RowsDecode EOF)
  | CtxDone :: _ => Err RowsCtx
  | DecodeFails err :: _ => Err (RowsDecode err)
  | (Decoded e | Undelivered e) :: rest =>
      match ev_Columns e with
      | None => Err (RowsUnexpected e)
      | Some columns => Ok (mkRows rest None closeOnEOQ columns (mkRow 0 []) None false)
      end
  end.

(** What [Rows.Next] makes of an event. *)
Inductive row_step := RowNext (row : RowEvent) | RowEOQ (eoq : EndOfQuery) | RowFails (err : rows_error).

Definition row_event (columns : list string) (r : read) : row_step :=
  match r with
  | CtxDone => RowFails RowsCtx
  | DecodeFails err => RowFails (RowsDecode err)
  | Decoded e | Undelivered e =>
      match ev_Error e, ev_Row e, ev_EOQ e with
      | Some msg, _, _ => RowFails (RowsQuery msg)
      | None, Some row, _ =>
          if (length (row_Values row) =? length columns)%nat then RowNext row
          else RowFails (RowsArity (length columns) (length (row_Values row)))
      | None, None, Some eoq => RowEOQ eoq
      | None, None, None => RowFails (RowsUnexpected e)
      end
  end.

Definition Next (rs : Rows) : Rows * bool :=
  let r := match rs_feed rs with [] => DecodeFails EOF | r :: _ => r end in
  let rest := tail (rs_feed rs) in
  match row_event (rs_columns rs) r with
  | RowNext row =>
      (mkRows rest (rs_eoq rs) (rs_closeOnEOQ rs) (rs_columns rs) row (rs_err rs) (rs_closed rs), true)
  | RowEOQ eoq =>
      (mkRows rest (Some eoq) (rs_closeOnEOQ rs) (rs_columns rs) (rs_row rs) (rs_err rs)
         (rs_closed rs || rs_closeOnEOQ rs), false)
  | RowFails err =>
      (mkRows rest (rs_eoq rs) (rs_closeOnEOQ rs) (rs_columns rs) (rs_row rs) (Some err) true, false)
  end.

(** The loop [for rows.Next() { ... }]: the rows it sees and the final state.  Each
    round but the last consumes an event, so the fuel is the length of the stream. *)
Fixpoint rows_loop (fuel : nat) (rs : Rows) : list RowEvent * Rows :=
  match Next rs with
  | (rs', false) => ([], rs')
  | (rs', true) =>
      match fuel with
      | O => ([rs_row rs'], rs')
      | S f => let (rows, last) := rows_loop f rs' in (rs_row rs' :: rows, last)
      end
  end.

Definition all_rows (rs : Rows) : list RowEvent * Rows := rows_loop (length (rs_feed rs)) rs.

(** [json.Unmarshal] of a column into a [string] variable: null leaves the variable. *)
Definition unmarshal_string (v : RawMessage) (dest : string) : option string :=
  match v with JString s => Some s | JNull => Some dest | _ => None end.

(** [Rows.Scan] into string variables: [dests] are their values before. *)
Inductive scan_error := ScanRows (e : rows_error) | ScanArity (want got : nat) | ScanColumn (i : nat).

Fixpoint scan_values (i : nat) (values : list RawMessage) (dests : list string) : result scan_error (list string) :=
  match values, dests with
  | v :: values', d :: dests' =>
      match unmarshal_string v d with
      | None => Err (ScanColumn i)
      | Some s => match scan_values (S i) values' dests' with
                  | Ok ss => Ok (s :: ss)
                  | Err e => Err e
                  end
      end
  | _, _ => Ok dests
  end.

Definition Scan (rs : Rows) (dests : list string) : result scan_error (list string) :=
  match rs_err rs with
  | Some e => Err (ScanRows e)
  | None =>
      if negb (length dests =? length (rs_columns rs))%nat
      then Err (ScanArity (length (rs_columns rs)) (length dests))
      else scan_values 0 (row_Values (rs_row rs)) dests
  end.

(** ** Retrying with a backoff policy

    [backoff.RetryWithData] of [github.com/cenkalti/backoff]: it repeats a call until it
    succeeds, fails with a permanent error, or the policy or the context ends the
    retries. [None]: the attempts given are used up and the loop waits for another. *)
Inductive policy := Wait | GiveUp | PolicyCtx.

Fixpoint retry {E A} (ctx_err : E) (permanent : E -> bool) (attempts : list (result E A * policy)) :
  option (result E A) :=
  match attempts with
  | [] => None
  | (Ok a, _) :: _ => Some (Ok a)
  | (Err e, p) :: rest =>
      if permanent e then Some (Err e)
      else match p with
           | GiveUp => Some (Err e)
           | PolicyCtx => Some (Err ctx_err)
           | Wait => retry ctx_err permanent rest
           end
  end.

(** [RetryRoundTripper.RoundTrip]: only operational network errors are retried. *)
Inductive trip_error := OpError (err : string) | OtherTripError (err : string) | TripCtx.

Definition RoundTrip {A} (attempts : list (result trip_error A * policy)) : option (result trip_error A) :=
  retry TripCtx (fun e => match e with OpError _ => false | _ => true end) attempts.

(** ** Requests *)
Inductive response :=
| SendFails (err : string)
| Responds (status : Z) (body : feed).

Inductive query_error := QuerySend (err : string) | QueryStatus (status : Z) | QueryParse (e : rows_error).

Definition QueryContext (resp : response) : result query_error Rows :=
  match resp with
  | SendFails err => Err (QuerySend err)
  | Responds status body =>
      if negb (status =? 200) then Err (QueryStatus status)
      else wrap_err QueryParse (newRows body true)
  end.

(** The response to a transaction; the body is [None] when it does not decode. *)
Record ExecResult := mkExecResult { RowsAffected : Z; exec_Error : option string }.
Inductive exec_response :=
| ExecSendFails (err : string)
| ExecResponds (status : Z) (results : option (list ExecResult)).

Inductive exec_error :=
| ExecSend (err : string) | ExecDecode | ExecDB (msgs : list string) | ExecInternal | ExecStatus (status : Z) | ExecNoResults.

Definition result_errors (results : list ExecResult) : list string := omap exec_Error results.

Definition ExecMultiContext (resp : exec_response) : result exec_error (list ExecResult) :=
  match resp with
  | ExecSendFails err => Err (ExecSend err)
  | ExecResponds status results =>
      if status =? 200 then
        match results with
        | None => Err ExecDecode
        | Some rs => match result_errors rs with [] => Ok rs | msgs => Err (ExecDB msgs) end
        end
      else if status =? 500 then
        match results with
        | Some (mkExecResult _ (Some msg) :: _) => Err (ExecDB [msg])
        | _ => Err ExecInternal
        end
      else Err (ExecStatus status)
  end.

Definition ExecContext (resp : exec_response) : result exec_error ExecResult :=
  match ExecMultiContext resp with
  | Err e => Err e
  | Ok [] => Err ExecNoResults
  | Ok (r :: _) => Ok r
  end.

(** ** Subscriptions *)

Inductive resub_error :=
| ResubSend (err : string)
| ErrSubscriptionNotFound
| ResubStatus (status : Z)
| ResubParse (e : rows_error)
| ResubDrain (e : rows_error)
| ResubCtx.

(** [ResubscribeContext]: the stream of changes after [fromChange]; a resubscription from
    change 0 replays the rows first, which are dropped. *)
Definition ResubscribeContext (resp : response) (fromChange : Z) : result resub_error feed :=
  match resp with
  | SendFails err => Err (ResubSend err)
  | Responds status body =>
      if negb (status =? 200) then
        if status =? 404 then Err ErrSubscriptionNotFound else Err (ResubStatus status)
      else if fromChange =? 0 then
        match newRows body false with
        | Err e => Err (ResubParse e)
        | Ok rows =>
            let '(_, drained) := all_rows rows in
            match rs_err drained with
            | Some e => Err (ResubDrain e)
            | None => Ok (rs_feed drained)
            end
        end
      else Ok body
  end.

(** The answers of one [resubscribe] call: the server's response to each attempt, which
    depends on the change asked for, and the decision of the policy after it. *)
Definition attempts : Type := list ((Z -> response) * policy).

(** [resubscribeWithBackoffFn]: a subscription that is gone is a permanent error. *)
Definition resubscribeWithBackoff (ats : attempts) (fromChange : Z) : option (result resub_error feed) :=
  retry ResubCtx (fun e => match e with ErrSubscriptionNotFound => true | _ => false end)
    (map (fun at_ => (ResubscribeContext (fst at_ fromChange) fromChange, snd at_)) ats).

Inductive change_error :=
| ChangeDecode (err : string)
| ChangeQuery (msg : string)
| ChangeExpected (e : QueryEvent)
| MissedChange (expected got : Z)
| ChangeResub (e : resub_error).

(** [uint64] addition. *)
Definition next_id (id : Z) : Z := (id + 1) mod 2 ^ 64.

(** The checks on an event of the change stream. *)
Definition check_change (last : Z) (e : QueryEvent) : result change_error ChangeEvent :=
  match ev_Error e, ev_Change e with
  | Some msg, _ => Err (ChangeQuery msg)
  | None, None => Err (ChangeExpected e)
  | None, Some c =>
      if negb (last =? 0) && negb (ce_ChangeID c =? next_id last)
      then Err (MissedChange (next_id last) (ce_ChangeID c))
      else Ok c
  end.

(** One stream, up to the event that ends it: the changes sent to the receiver, the last
    change ID, and the error, [None] when the context is done. *)
Fixpoint read_changes (last : Z) (f : feed) : list ChangeEvent * Z * option change_error :=
  match f with
  | [] => ([], last, Some (ChangeDecode EOF))
  | CtxDone :: _ => ([], last, None)
  | DecodeFails err :: _ => ([], last, Some (ChangeDecode err))
  | Decoded e :: rest =>
      match check_change last e with
      | Err err => ([], last, Some err)
      | Ok c =>
          let '(cs, last', stop) := read_changes (ce_ChangeID c) rest in (c :: cs, last', stop)
      end
  | Undelivered e :: _ =>
      match check_change last e with
      | Err err => ([], last, Some err)
      | Ok c => ([], ce_ChangeID c, None)
      end
  end.

(** How the handler is left: stopped, with the error of the subscription if any (the
    changes channel is closed), or still in [resubscribe] when the answers end. *)
Inductive handler_end := Stopped (err : option change_error) | Resubscribing.

(** [handleChangeEvents].  [resubs] is [None] when resubscribing is disabled, otherwise
    the answers of the successive calls of [resubscribe]. *)
Fixpoint handle_resubs (resubs : list attempts) (last : Z) (f : feed) :
  list ChangeEvent * Z * handler_end :=
  let '(cs, last', stop) := read_changes last f in
  match stop with
  | None => (cs, last', Stopped None)
  | Some _ =>
      match resubs with
      | [] => (cs, last', Resubscribing)
      | ats :: more =>
          match resubscribeWithBackoff ats last' with
          | None => (cs, last', Resubscribing)
          | Some (Err e) => (cs, last', Stopped (Some (ChangeResub e)))
          | Some (Ok f') =>
              let '(cs', last'', fin) := handle_resubs more last' f' in (cs ++ cs', last'', fin)
          end
      end
  end.

Definition handleChangeEvents (resubs : option (list attempts)) (last : Z) (f : feed) :
  list ChangeEvent * Z * handler_end :=
  match resubs with
  | Some rs => handle_resubs rs last f
  | None => let '(cs, last', stop) := read_changes last f in (cs, last', Stopped stop)
  end.

(** [SubscribeContext], up to the handler: the state of a subscription is the rows of the
    initial query, absent with [skipRows], and its stream. *)
Record Subscription := mkSub { sub_rows : option Rows; sub_feed : feed; sub_lastChangeID : Z }.

Inductive sub_error := SubSend (err : string) | SubStatus (status : Z) | SubParse (e : rows_error) | SubRowsPending.

(** The header [corro-query-id] is taken to be present. *)
Definition SubscribeContext (resp : response) (skipRows : bool) : result sub_error Subscription :=
  match resp with
  | SendFails err => Err (SubSend err)
  | Responds status body =>
      if negb (status =? 200) then Err (SubStatus status)
      else if skipRows then Ok (mkSub None body 0)
      else match newRows body false with
           | Err e => Err (SubParse e)
           | Ok rows => Ok (mkSub (Some rows) (rs_feed rows) 0)
           end
  end.

(** The state once the receiver has read the rows, which share the decoder. *)
Definition after_rows (s : Subscription) : list RowEvent * Subscription :=
  match sub_rows s with
  | None => ([], s)
  | Some rows =>
      let '(got, rows') := all_rows rows in (got, mkSub (Some rows') (rs_feed rows') (sub_lastChangeID s))
  end.

(** [Changes]: [None] is the dereference of an absent change ID. *)
Definition Changes (s : Subscription) : option (result sub_error Subscription) :=
  match sub_rows s with
  | None => Some (Ok s)
  | Some rows =>
      match rs_eoq rows with
      | None => Some (Err SubRowsPending)
      | Some eoq =>
          match eoq_ChangeID eoq with
          | None => None
          | Some id => Some (Ok (mkSub (sub_rows s) (sub_feed s) id))
          end
      end
  end.

(** ** The log of changes of a subscription

    Corrosion numbers the changes of a subscription one by one.  A stream is [honest]
    about a log when each change it carries is the one with that number; it may carry
    them in any order, leave some out, repeat some, and break anywhere. *)
Definition carries (f : feed) (c : ChangeEvent) : Prop :=
  exists e, (Decoded e ∈ f \/ Undelivered e ∈ f) /\ ev_Change e = Some c.

Definition honest (log : Z -> ChangeEvent) (f : feed) : Prop :=
  forall c, carries f c -> 0 < ce_ChangeID c < 2 ^ 64 - 1 /\ log (ce_ChangeID c) = c.

(** Every stream that answers an attempt is honest. *)
Definition honest_answers (log : Z -> ChangeEvent) (ats : attempts) : Prop :=
  Forall (fun at_ => forall from status body, 0 < from ->
    fst at_ from = Responds status body -> honest log body) ats.

(** The context stays open while the stream is read. *)
Definition uninterrupted (f : feed) : Prop :=
  Forall (fun r => match r with Decoded _ | DecodeFails _ => True | _ => False end) f.

(** The event of a change. *)
Definition change_read (c : ChangeEvent) : read := Decoded (mkEvent None None None (Some c) None).

Section Log.
Context (log : Z -> ChangeEvent).

Lemma honest_cons r f : honest log (r :: f) -> honest log f.
Proof. intros H c (e & He & Hc). apply H. exists e. split; [|done]. set_solver. Qed.

Lemma check_change_next last e c : 0 < last < 2 ^ 64 - 1 -> check_change last e = Ok c ->
  ev_Change e = Some c /\ ce_ChangeID c = last + 1.
Proof.
  unfold check_change. intros Hl. destruct (ev_Error e); [done|].
  destruct (ev_Change e) as [c'|]; [|done].
  destruct (negb _ && negb _) eqn:E; [done|]. intros [= ->]. split; [done|].
  apply andb_false_iff in E as [E|E]; apply negb_false_iff in E; apply Z.eqb_eq in E; [lia|].
  rewrite E. unfold next_id. apply Z.mod_small. lia.
Qed.

Lemma honest_next r f e c last : honest log (r :: f) -> 0 < last < 2 ^ 64 - 1 ->
  r = Decoded e \/ r = Undelivered e -> check_change last e = Ok c ->
  c = log (last + 1) /\ ce_ChangeID c = last + 1 /\ last + 1 < 2 ^ 64 - 1.
Proof.
  intros Hh Hl Hr Hc. apply check_change_next in Hc as [Hc Hid]; [|done].
  destruct (Hh c) as [Hb Hlog]; [exists e; split; [|done]; destruct Hr as [->| ->]; set_solver|].
  rewrite Hid in Hlog, Hb. split_and!; [done..|lia].
Qed.

(** A run delivers the [n] changes after [last] and stops with the last change ID
    [last'], which is at most one ahead of them. *)
Definition delivers (last : Z) (cs : list ChangeEvent) (last' : Z) (exact : Prop) : Prop :=
  exists n, 0 <= n /\ cs = map log (seqZ (last + 1) n) /\
    last + n <= last' <= last + n + 1 /\ last' < 2 ^ 64 - 1 /\ (exact -> last' = last + n).

Lemma delivers_none last (P : Prop) : 0 < last < 2 ^ 64 - 1 -> delivers last [] last P.
Proof. intros Hl. exists 0. split_and!; (done || lia). Qed.

Lemma delivers_cons last cs last' P : delivers (last + 1) cs last' P ->
  delivers last (log (last + 1) :: cs) last' P.
Proof.
  intros (n & Hn & -> & Hr & Hb & He). exists (n + 1). split_and!; [lia| |lia..|].
  - rewrite (seqZ_cons (last + 1)) by lia. cbn [map]. do 3 f_equal; lia.
  - intros HP. specialize (He HP). lia.
Qed.

Lemma delivers_app last cs1 mid P cs2 last' Q : P -> delivers last cs1 mid P ->
  delivers mid cs2 last' Q -> delivers last (cs1 ++ cs2) last' Q.
Proof.
  intros HP (n & Hn & -> & _ & _ & He) (m & Hm & -> & Hr & Hb & He').
  specialize (He HP). subst mid. exists (n + m). split_and!; [lia| |lia..|].
  - rewrite <- map_app. f_equal. rewrite seqZ_app by lia. do 2 f_equal. lia.
  - intros HQ. specialize (He' HQ). lia.
Qed.

(** One stream delivers the changes that follow, without a gap. *)
Lemma read_changes_log f : forall last cs last' stop, honest log f -> 0 < last < 2 ^ 64 - 1 ->
  read_changes last f = (cs, last', stop) -> delivers last cs last' (stop <> None).
Proof.
  induction f as [|r f IH]; intros last cs last' stop Hh Hl; cbn [read_changes].
  - intros [= <- <- <-]. by apply delivers_none.
  - destruct r as [|e|err|e].
    1,3: intros [= <- <- <-]; by apply delivers_none.
    + destruct (check_change last e) as [c|err] eqn:Hc;
        [|intros [= <- <- <-]; by apply delivers_none].
      destruct (honest_next _ _ e c last Hh Hl (or_introl eq_refl) Hc) as (-> & Hid & Hb).
      destruct (read_changes _ f) as [[cs1 l1] st1] eqn:Hrec. intros [= <- <- <-].
      apply delivers_cons. rewrite Hid in Hrec. apply (IH _ _ _ _ (honest_cons _ _ Hh)) in Hrec; [done|lia].
    + destruct (check_change last e) as [c|err] eqn:Hc;
        [|intros [= <- <- <-]; by apply delivers_none].
      destruct (honest_next _ _ e c last Hh Hl (or_intror eq_refl) Hc) as (-> & Hid & Hb).
      intros [= <- <- <-]. exists 0. split_and!; (done || lia).
Qed.

(** A successful resubscription from a change is a stream of the server. *)
Lemma resubscribe_honest ats from f : 0 < from -> honest_answers log ats ->
  resubscribeWithBackoff ats from = Some (Ok f) -> honest log f.
Proof.
  intros Hf. unfold resubscribeWithBackoff. induction 1 as [|[r p] ats Hr Hats IH]; cbn [map retry fst snd]; [done|].
  unfold ResubscribeContext at 1. destruct (r from) as [err|status body] eqn:Hresp.
  - destruct p; try done; exact IH.
  - destruct (negb (status =? 200)).
    + destruct (status =? 404); [done|]. destruct p; try done; exact IH.
    + rewrite (proj2 (Z.eqb_neq from 0)) by lia. intros [= <-]. by apply (Hr from status body Hf).
Qed.

Lemma handle_resubs_log resubs : forall last f cs last' fin, honest log f ->
  Forall (honest_answers log) resubs -> 0 < last < 2 ^ 64 - 1 ->
  handle_resubs resubs last f = (cs, last', fin) ->
  delivers last cs last' (fin <> Stopped None).
Proof.
  induction resubs as [|ats more IH]; intros last f cs last' fin Hh Hr Hl; cbn [handle_resubs];
    destruct (read_changes last f) as [[cs1 l1] stop] eqn:Hrec;
    pose proof (read_changes_log _ _ _ _ _ Hh Hl Hrec) as Hd;
    destruct stop as [err|].
  - intros [= <- <- <-]. destruct Hd as (n & ? & ? & ? & ? & He). exists n. naive_solver.
  - intros [= <- <- <-]. destruct Hd as (n & ? & ? & ? & ? & He). exists n. naive_solver.
  - assert (Hd' : delivers last cs1 l1 (Some err <> None)) by done.
    pose proof Hd as (n & ? & ? & ? & ? & He). specialize (He ltac:(done)).
    inversion Hr as [|?? Hats Hmore]; subst.
    destruct (resubscribeWithBackoff ats (last + n)) as [[f'|e]|] eqn:Hres.
    + destruct (handle_resubs more _ f') as [[cs2 l2] fin2] eqn:Hrest. intros [= <- <- <-].
      assert (Hh' : honest log f') by (eapply resubscribe_honest; [|done|exact Hres]; lia).
      apply (IH _ _ _ _ _ Hh' Hmore) in Hrest; [|lia].
      eapply delivers_app; [|exact Hd'|exact Hrest]; done.
    + intros [= <- <- <-]. exists n. split_and!; done || lia.
    + intros [= <- <- <-]. exists n. split_and!; done || lia.
  - intros [= <- <- <-]. destruct Hd as (n & ? & ? & ? & ? & He). exists n. naive_solver.
Qed.

(** The call of [resubscribe] reconnects to a stream that is read to its end. *)
Definition reconnects (ats : attempts) : Prop :=
  forall from, 0 < from -> exists f, resubscribeWithBackoff ats from = Some (Ok f) /\ uninterrupted f.

(** It reconnects to a stream that starts with the changes asked for, up to [N]. *)
Definition serves (N : Z) (ats : attempts) : Prop :=
  forall from, 0 < from -> exists rest, resubscribeWithBackoff ats from =
    Some (Ok (map (fun i => change_read (log i)) (seqZ (from + 1) (N - from)) ++ rest)).

Lemma read_changes_ends f : forall last, uninterrupted f -> snd (read_changes last f) <> None.
Proof.
  induction f as [|r f IH]; intros last; [done|]. intros [Hr Hf]%Forall_cons.
  destruct r as [|e|err|e]; try done. cbn [read_changes].
  destruct (check_change last e) as [c|]; [|done].
  specialize (IH (ce_ChangeID c) Hf). by destruct (read_changes _ f) as [[]].
Qed.

Lemma read_changes_served rest ids : forall last,
  (forall i, ce_ChangeID (log i) = i) -> 0 < last -> last + Z.of_nat ids < 2 ^ 64 - 1 ->
  map log (seqZ (last + 1) (Z.of_nat ids)) `prefix_of`
  fst (fst (read_changes last (map (fun i => change_read (log i)) (seqZ (last + 1) (Z.of_nat ids)) ++ rest))).
Proof.
  induction ids as [|k IH]; intros last Hid Hl Hb; [apply prefix_nil|].
  rewrite seqZ_cons by lia. cbn [map app]. unfold change_read at 1. cbn [read_changes].
  unfold check_change. cbn [ev_Error ev_Change]. rewrite Hid. unfold next_id.
  rewrite Z.mod_small, Z.eqb_refl by lia. rewrite andb_false_r.
  specialize (IH (last + 1) Hid ltac:(lia) ltac:(lia)).
  replace (Z.succ (last + 1)) with (last + 1 + 1) by lia.
  replace (Z.pred (Z.of_nat (S k))) with (Z.of_nat k) by lia.
  rewrite Hid. destruct (read_changes _ _) as [[cs l] st]. cbn [fst] in *. by apply prefix_cons.
Qed.

Lemma seqZ_prefix a (n m : Z) : n <= m -> map log (seqZ a n) `prefix_of` map log (seqZ a m).
Proof.
  intros Hnm. destruct (decide (n <= 0)) as [Hn|Hn].
  - rewrite (seqZ_nil a n) by lia. apply prefix_nil.
  - replace m with (n + (m - n)) by lia. rewrite seqZ_app, map_app by lia. by eexists.
Qed.

Lemma caught_up last cs last' P N : delivers last cs last' P -> P -> N <= last' ->
  map log (seqZ (last + 1) (N - last)) `prefix_of` cs.
Proof.
  intros (n & Hn & -> & _ & _ & He) HP HN. specialize (He HP). apply seqZ_prefix. lia.
Qed.

Lemma handle_resubs_catches_up N final resubs : forall last f, honest log f -> uninterrupted f ->
  (forall i, ce_ChangeID (log i) = i) -> N < 2 ^ 64 - 1 ->
  Forall (fun ats => honest_answers log ats /\ reconnects ats) resubs -> serves N final ->
  0 < last < 2 ^ 64 - 1 ->
  map log (seqZ (last + 1) (N - last)) `prefix_of`
  fst (fst (handle_resubs (resubs ++ [final]) last f)).
Proof.
  induction resubs as [|ats more IH]; intros last f Hh Hu Hid HN Hr Hfinal Hl; cbn [app handle_resubs];
    destruct (read_changes last f) as [[cs1 l1] stop] eqn:Hrec;
    pose proof (read_changes_log _ _ _ _ _ Hh Hl Hrec) as Hd;
    pose proof (read_changes_ends f last Hu) as Hstop; rewrite Hrec in Hstop;
    (destruct stop as [err|]; [|done]);
    pose proof Hd as (n & Hn & Hcs & _ & Hb & He); specialize (He Hstop); clear Hrec.
  - destruct (Hfinal l1) as [rest Hres]; [lia|]. rewrite Hres.
    pose proof (read_changes_served rest (Z.to_nat (N - l1)) l1 Hid) as Hserved.
    assert (Hgoal : forall (x : list ChangeEvent * Z * option change_error), fst (fst (
        let '(cs', last'', fin) := match x with (cs, l, Some _) => (cs, l, Resubscribing)
          | (cs, l, None) => (cs, l, Stopped None) end in (cs1 ++ cs', last'', fin))) = cs1 ++ fst (fst x)).
    { by intros [[? ?] []]. }
    rewrite Hgoal.
    destruct (decide (N <= l1)) as [Hle|Hgt]; [apply prefix_app_r; by eapply caught_up|].
    specialize (Hserved ltac:(lia)). rewrite Z2Nat.id in Hserved by lia. specialize (Hserved ltac:(lia)).
    rewrite Hcs. replace (N - last) with (n + (N - l1)) by lia. rewrite seqZ_app, map_app by lia.
    apply prefix_app. by replace (last + 1 + n) with (l1 + 1) by lia.
  - inversion Hr as [|?? [Hats Hre] Hmore]; subst.
    destruct (Hre (last + n)) as (f' & Hres & Hu'); [lia|]. rewrite Hres.
    assert (Hh' : honest log f') by (eapply resubscribe_honest; [|done|exact Hres]; lia).
    destruct (handle_resubs (more ++ [final]) (last + n) f') as [[cs2 l2] fin] eqn:Hrest. cbn [fst].
    specialize (IH (last + n) f' Hh' Hu' Hid HN Hmore Hfinal ltac:(lia)). rewrite Hrest in IH. cbn [fst] in IH.
    destruct (decide (N <= last + n)) as [Hle|Hgt].
    + apply prefix_app_r. apply seqZ_prefix. lia.
    + replace (N - last) with (n + (N - (last + n))) by lia. rewrite seqZ_app, map_app by lia.
      apply prefix_app. by replace (last + 1 + n) with (last + n + 1) by lia.
Qed.
End Log.

(** ** Properties *)

(** C13: A subscription that has seen a first change (its last change ID is not zero, and not
    the largest of 64 bits) never skips, repeats or reorders a change, whatever happens to
    its streams.  Take any server that numbers the changes of the query and, on each
    connection, sends changes with their right number in any order, with gaps,
    repetitions, errors and breaks; then the receiver is given exactly the changes
    [last + 1], [last + 2], ... up to some number, over all the resubscriptions, and the
    change the handler would resubscribe from is the last one given to the receiver.  When
    the context is done while a change waits for its receiver, that one change counts as
    seen.  A subscription whose last change is 0 accepts a first change of any number and
    can lose changes: [changes_before_zero_are_lost]. *)
Theorem subscription_delivers_in_order (log : Z -> ChangeEvent) (resubs : option (list attempts)) (last : Z) (f : feed)
  (Hlast : 0 < last < 2 ^ 64 - 1) (Hf : honest log f)
  (Hresubs : forall rs, resubs = Some rs -> Forall (honest_answers log) rs) :
  exists n, 0 <= n /\
    let '(delivered, last', fin) := handleChangeEvents resubs last f in
    delivered = map log (seqZ (last + 1) n) /\
    (last' = last + n \/ last' = last + n + 1 /\ fin = Stopped None).
Proof.
  assert (Hend : exists P : Prop, let '(cs, l, fin) := handleChangeEvents resubs last f in
    delivers log last cs l P /\ (~ P -> fin = Stopped None)).
  { unfold handleChangeEvents. destruct resubs as [rs|].
    - destruct (handle_resubs rs last f) as [[cs l] fin] eqn:Hrun. exists (fin <> Stopped None).
      split; [exact (handle_resubs_log log rs _ _ _ _ _ Hf (Hresubs rs eq_refl) Hlast Hrun)|]. intros HnP; destruct fin as [[|]|]; [exfalso; by apply HnP|done|exfalso; by apply HnP].
    - destruct (read_changes last f) as [[cs l] stop] eqn:Hrun. exists (stop <> None).
      split; [by eapply read_changes_log|]. intros HnP; destruct stop; [exfalso; by apply HnP|done]. }
  destruct Hend as [P HP]. destruct (handleChangeEvents resubs last f) as [[cs l] fin].
  destruct HP as [(n & Hn & Hcs & Hr & _ & He) Hfin]. exists n. split; [done|]. split; [done|].
  destruct (decide (l = last + n)) as [|Hne]; [by left|]. right. split; [lia|]. apply Hfin. tauto.
Qed.

(** A subscription catches up: if its streams keep breaking but every call of
    [resubscribe] reconnects, and the last of them reaches a server that sends the changes
    it is asked for up to number [N], then the receiver is given every change up to [N],
    whatever the streams in between carried. *)
Lemma subscription_catches_up (log : Z -> ChangeEvent) (N last : Z) (f : feed) (resubs : list attempts) (final : attempts)
  (Hid : forall i, ce_ChangeID (log i) = i) (HN : N < 2 ^ 64 - 1) (Hlast : 0 < last < 2 ^ 64 - 1)
  (Hf : honest log f) (Hu : uninterrupted f)
  (Hresubs : Forall (fun ats => honest_answers log ats /\ reconnects ats) resubs) (Hfinal : serves log N final) :
  map log (seqZ (last + 1) (N - last)) `prefix_of`
  fst (fst (handleChangeEvents (Some (resubs ++ [final])) last f)).
Proof. by apply handle_resubs_catches_up. Qed.

(** ** Concrete runs *)
Definition update_log (i : Z) : ChangeEvent := mkChange ChangeTypeUpdate 1 [] i.
Definition changes_of (ids : list Z) : feed := map (fun i => change_read (update_log i)) ids.

(** A server that has changes up to [N] and numbers them truthfully. *)
Definition good_server (N from : Z) : response := Responds 200 (changes_of (seqZ (from + 1) (N - from))).

Lemma honest_changes ids : Forall (fun i => 0 < i < 2 ^ 64 - 1) ids -> honest update_log (changes_of ids).
Proof.
  intros Hids c (e & He & Hc). unfold changes_of in He.
  assert (exists i, i ∈ ids /\ e = mkEvent None None None (Some (update_log i)) None) as (i & Hi & ->).
  { destruct He as [He|He]; apply list_elem_of_In, in_map_iff in He as (i & Hr & Hi);
      [|discriminate Hr]. injection Hr as <-. exists i. split; [by apply list_elem_of_In|done]. }
  injection Hc as <-. rewrite Forall_forall in Hids. cbn. split; [by apply Hids|done].
Qed.

Lemma good_server_honest N : N < 2 ^ 64 - 1 -> forall from status body, 0 < from ->
  good_server N from = Responds status body -> honest update_log body.
Proof.
  intros HN from status body Hf [= <- <-]. apply honest_changes. apply Forall_forall.
  intros i Hi. apply elem_of_seqZ in Hi. lia.
Qed.

(** The first stream skips change 7; the first attempt to reconnect meets an error and the
    second a stream that repeats change 6 and goes back; then the server has up to 9. *)
Definition broken_stream : feed := changes_of [6; 8].
Definition flaky : attempts :=
  [(fun _ => Responds 500 [], Wait); (fun from => Responds 200 (changes_of [7; 6]), Wait)].
Definition recovered : attempts := [(good_server 9, Wait)].

Example flaky_run :
  handleChangeEvents (Some [flaky; recovered]) 5 broken_stream = (map update_log [6; 7; 8; 9], 9, Resubscribing).
Proof. reflexivity. Qed.

Lemma flaky_honest : honest_answers update_log flaky.
Proof.
  constructor; [|constructor; [|constructor]]; cbn [fst]; intros from status body _ [= <- <-].
  - intros c (e & [He|He] & _); by apply elem_of_nil in He.
  - apply (honest_changes [7; 6]). repeat constructor; lia.
Qed.

Lemma subscription_delivers_in_order_witness : exists n, 0 <= n /\
  map update_log [6; 7; 8; 9] = map update_log (seqZ 6 n).
Proof.
  destruct (subscription_delivers_in_order update_log (Some [flaky; recovered]) 5 broken_stream) as (n & Hn & Hrun).
  - lia.
  - apply honest_changes. repeat constructor; lia.
  - intros rs [= <-]. constructor; [apply flaky_honest|]. constructor; [|constructor].
    constructor; [|constructor]. apply good_server_honest. lia.
  - exists n. split; [exact Hn|]. rewrite flaky_run in Hrun. exact (proj1 Hrun).
Defined.

(** A subscription whose initial query ended with change 0, as that of any query that has
    not changed yet, does not have this guarantee.  The stream breaks, the rows change
    (changes 1 and 2), and the resubscription from change 0 replays the rows, which already
    show the two changes and are dropped: the receiver is never told of them. *)
Definition row_read (id : Z) (v : string) : read := Decoded (mkEvent None (Some (mkRow id [JString v])) None None None).
Definition eoq_read (id : Z) : read := Decoded (mkEvent None None (Some (mkEOQ (Some id))) None None).
Definition columns_read : read := Decoded (mkEvent (Some ["info"]) None None None None).

Example changes_before_zero_are_lost :
  exists s s', SubscribeContext (Responds 200 [columns_read; row_read 1 "a"; eoq_read 0]) false = Ok s /\
    Changes (snd (after_rows s)) = Some (Ok s') /\
    map row_Values (fst (after_rows s)) = [[JString "a"]] /\
    handleChangeEvents
      (Some [[(fun _ => Responds 200 ([columns_read; row_read 1 "b"; eoq_read 2] ++ changes_of [3]), Wait)]])
      (sub_lastChangeID s') (sub_feed s') =
    ([update_log 3], 3, Resubscribing).
Proof. do 2 eexists. repeat split; reflexivity. Qed.

(** A subscription the server no longer knows stops at once, with the error. *)
Example gone_subscription_stops :
  handleChangeEvents (Some [[(fun _ => Responds 404 [], Wait); (good_server 9, Wait)]]) 5 [] =
  ([], 5, Stopped (Some (ChangeResub ErrSubscriptionNotFound))).
Proof. reflexivity. Qed.
