(* ===== verification/Store.v ===== *)
(** * Store: the machine records and settings of the cluster store

    [internal/machine/store/store.go], on the queries of Corrosion.v.  The database is a
    record [Corro] of the responses to the SQL statements the store sends, in a world [W];
    [protojson] is a third-party package, the class [ProtoJSON]. *)

From S2P Require Import Prelude NetAddr Proto Corrosion.
#[local] Open Scope Z_scope.

(** [protojson.Marshal] and [UnmarshalOptions{DiscardUnknown: true}.Unmarshal]; [None] is
    an error. *)
Class ProtoJSON := {
  pj_Marshal : MachineInfo -> option string;
  pj_Unmarshal : string -> option MachineInfo
}.

(** The messages that survive the encoding of the store. *)
Definition wire_ok (m : MachineInfo) : Prop :=
  match mi_Network m with
  | Some c => Forall (fun ep => ep <> None) (nc_Endpoints c) /\ nc_PublicKey c <> Some ""
  | None => True
  end.

Class ProtoJSONSpec `{ProtoJSON} : Prop := {
  pj_roundtrip : forall m s, wire_ok m -> pj_Marshal m = Some s -> pj_Unmarshal s = Some m;
  pj_object : forall m s, pj_Marshal m = Some s -> s <> "" /\ (mi_Id m <> "" -> s <> "{}")
}.

(** The statements, with their arguments. *)
Record Corro (W : Type) := mkCorro {
  q_key : string -> W -> response;                     (* SELECT value FROM cluster WHERE key = ? *)
  x_put : string -> string -> W -> W * exec_response;  (* INSERT OR REPLACE INTO cluster ... *)
  x_delete_key : string -> W -> W * exec_response;     (* DELETE FROM cluster WHERE key = ? *)
  q_machine : string -> W -> response;                 (* SELECT info FROM machines WHERE id = ? *)
  q_machines : W -> response;                          (* SELECT id, info FROM machines ORDER BY name *)
  x_insert_machine : string -> string -> W -> W * exec_response;  (* id, info *)
  x_update_machine : string -> string -> W -> W * exec_response;  (* info, id *)
  x_delete_machine : string -> W -> W * exec_response;
  x_delete_containers : list string -> W -> W * exec_response     (* by machine IDs *)
}.
Arguments q_key {W}. Arguments x_put {W}. Arguments x_delete_key {W}. Arguments q_machine {W}.
Arguments q_machines {W}. Arguments x_insert_machine {W}. Arguments x_update_machine {W}.
Arguments x_delete_machine {W}. Arguments x_delete_containers {W}.

Inductive store_error :=
| StoreQuery (e : query_error) | StoreRows (e : rows_error) | StoreScan (e : scan_error)
| StoreExec (e : exec_error) | StoreMarshal | StoreUnmarshal
| ErrKeyNotFound | ErrMachineNotFound (id : string)
| EmptyMachineID | EmptyInfo (id : string) | IDMismatch (expected got : string)
| InvalidNetworkConfig (id : string) (e : validate_error).

Section Store.
Context {PJ : ProtoJSON} {W : Type} (corro : Corro W).

(** [Get] into a string variable. *)
Definition Get (key : string) (w : W) : result store_error string :=
  match QueryContext (q_key corro key w) with
  | Err e => Err (StoreQuery e)
  | Ok rows =>
      match Next rows with
      | (rows', false) => Err match rs_err rows' with Some e => StoreRows e | None => ErrKeyNotFound end
      | (rows', true) =>
          match Scan rows' [""] with
          | Err e => Err (StoreScan e)
          | Ok vs => Ok (hd "" vs)
          end
      end
  end.

Definition exec_store (r : exec_response) : result store_error unit :=
  match ExecContext r with Err e => Err (StoreExec e) | Ok _ => Ok tt end.

Definition Put (key value : string) (w : W) : W * result store_error unit :=
  let (w', r) := x_put corro key value w in (w', exec_store r).

Definition Delete (key : string) (w : W) : W * result store_error unit :=
  let (w', r) := x_delete_key corro key w in (w', exec_store r).

Definition CreateMachine (m : MachineInfo) (w : W) : W * result store_error unit :=
  match pj_Marshal m with
  | None => (w, Err StoreMarshal)
  | Some mJSON => let (w', r) := x_insert_machine corro (mi_Id m) mJSON w in (w', exec_store r)
  end.

Definition GetMachine (machineID : string) (w : W) : nilable store_error MachineInfo :=
  if String.eqb machineID "" then Some (Err EmptyMachineID)
  else match QueryContext (q_machine corro machineID w) with
  | Err e => Some (Err (StoreQuery e))
  | Ok rows =>
      match Next rows with
      | (rows', false) =>
          Some (Err match rs_err rows' with Some e => StoreRows e | None => ErrMachineNotFound machineID end)
      | (rows', true) =>
          match Scan rows' [""] with
          | Err e => Some (Err (StoreScan e))
          | Ok vs =>
              let mJSON := hd "" vs in
              if String.eqb mJSON "" then Some (Err (EmptyInfo machineID))
              else match pj_Unmarshal mJSON with
              | None => Some (Err StoreUnmarshal)
              | Some m =>
                  if negb (String.eqb (mi_Id m) machineID) then Some (Err (IDMismatch machineID (mi_Id m)))
                  else match mi_Network m with
                  | None => Some (Ok m)
                  | Some c =>
                      match Validate c with
                      | None => None
                      | Some (Err e) => Some (Err (InvalidNetworkConfig (mi_Id m) e))
                      | Some (Ok _) => Some (Ok m)
                      end
                  end
              end
          end
      end
  end.

(** A row of the listing: the machine, or [None] for one that is skipped. *)
Definition machine_row (columns : list string) (row : RowEvent) : nilable store_error (option MachineInfo) :=
  match Scan (mkRows [] None true columns row None false) [""; ""] with
  | Err e => Some (Err (StoreScan e))
  | Ok vs =>
      let mJSON := nth 1 vs "" in
      if String.eqb mJSON "" || String.eqb mJSON "{}" then Some (Ok None)
      else match pj_Unmarshal mJSON with
      | None => Some (Err StoreUnmarshal)
      | Some m =>
          match mi_Network m with
          | None => None
          | Some c =>
              match Validate c with
              | None => None
              | Some (Err _) => Some (Ok None)
              | Some (Ok _) => Some (Ok (Some m))
              end
          end
      end
  end.

Fixpoint machine_rows (columns : list string) (rows : list RowEvent) : nilable store_error (list MachineInfo) :=
  match rows with
  | [] => Some (Ok [])
  | row :: rest =>
      match machine_row columns row with
      | None => None
      | Some (Err e) => Some (Err e)
      | Some (Ok skipped_or) =>
          match machine_rows columns rest with
          | Some (Ok ms) => Some (Ok (match skipped_or with Some m => m :: ms | None => ms end))
          | r => r
          end
      end
  end.

(** The error that ends the rows is not looked at. *)
Definition ListMachines (w : W) : nilable store_error (list MachineInfo) :=
  match QueryContext (q_machines corro w) with
  | Err e => Some (Err (StoreQuery e))
  | Ok rows => machine_rows (rs_columns rows) (fst (all_rows rows))
  end.

(** An update or deletion that affects no row is a machine that is not found. *)
Definition affected (id : string) (r : exec_response) : result store_error unit :=
  match ExecContext r with
  | Err e => Err (StoreExec e)
  | Ok res => if RowsAffected res =? 0 then Err (ErrMachineNotFound id) else Ok tt
  end.

Definition UpdateMachine (m : MachineInfo) (w : W) : W * result store_error unit :=
  if String.eqb (mi_Id m) "" then (w, Err EmptyMachineID)
  else match pj_Marshal m with
  | None => (w, Err StoreMarshal)
  | Some mJSON => let (w', r) := x_update_machine corro mJSON (mi_Id m) w in (w', affected (mi_Id m) r)
  end.

Definition DeleteMachine (id : string) (w : W) : W * result store_error unit :=
  let (w', r) := x_delete_machine corro id w in (w', affected id r).
End Store.

(** ** The tables

    What the components rely on: the SQL statements read and write two tables, the
    settings and the records of the machines.  A statement whose response is an error may
    or may not have been executed.  A listing has the records in the order of the machine
    names; the query may fail as a whole, and its stream may break off after any number of
    records. *)
Definition columns_event (columns : list string) : read := Decoded (mkEvent (Some columns) None None None None).
Definition row_event_of (i : Z) (values : list string) : read :=
  Decoded (mkEvent None (Some (mkRow i (map JString values))) None None None).
Definition eoq_event : read := Decoded (mkEvent None None (Some (mkEOQ None)) None None).

Definition answer (columns : list string) (rows : list (list string)) : response :=
  Responds 200 (columns_event columns :: map (row_event_of 1) rows ++ [eoq_event]).

Definition fails (r : response) : Prop := exists e, QueryContext r = Err e.

(** The rest of a stream in which the rows end with an error: the stream ends, its next
    event does not decode, reports an error or is not expected, or the context is done. *)
Definition stops (columns : list string) (rest : feed) : Prop :=
  forall r, head rest = Some r -> exists err, row_event columns r = RowFails err.

(** The response has every row, or there is none; and it may also break off. *)
Definition whole (columns : list string) (rows : list (list string)) (r : response) : Prop :=
  fails r \/ r = answer columns rows.
Definition broken_off (columns : list string) (rows : list (list string)) (r : response) : Prop :=
  exists k rest, r = Responds 200 (columns_event columns :: map (row_event_of 1) (take k rows) ++ rest) /\
    stops columns rest.
Definition listed (columns : list string) (rows : list (list string)) (r : response) : Prop :=
  whole columns rows r \/ broken_off columns rows r.

Definition machine_columns : list string := ["id"; "info"].
Definition machine_values (kv : string * string) : list string := [kv.1; kv.2].

Definition exec_fails (r : exec_response) : Prop := exists e, ExecContext r = Err e.
Definition affects (n : Z) (r : exec_response) : Prop := exists res, ExecContext r = Ok res /\ RowsAffected res = n.

Class Tables {W : Type} (corro : Corro W) := {
  settings : W -> gmap string string;
  machines : W -> gmap string string;
  listing_order : W -> list (string * string);
  listing_order_all : forall w, listing_order w ≡ₚ map_to_list (machines w);

  key_read : forall k w, fails (q_key corro k w) \/
    q_key corro k w = answer ["value"] (match settings w !! k with Some v => [[v]] | None => [] end);
  machine_read : forall id w, fails (q_machine corro id w) \/
    q_machine corro id w = answer ["info"] (match machines w !! id with Some v => [[v]] | None => [] end);
  machines_listed : forall w, listed machine_columns (map machine_values (listing_order w)) (q_machines corro w);
  setting_put : forall k v w w' r, x_put corro k v w = (w', r) ->
    machines w' = machines w /\
    (settings w' = <[k := v]> (settings w) \/ settings w' = settings w /\ exec_fails r);
  setting_deleted : forall k w w' r, x_delete_key corro k w = (w', r) ->
    machines w' = machines w /\
    (settings w' = delete k (settings w) \/ settings w' = settings w /\ exec_fails r);
  machine_inserted : forall id info w w' r, x_insert_machine corro id info w = (w', r) ->
    settings w' = settings w /\
    (machines w !! id = None /\ machines w' = <[id := info]> (machines w) \/
     machines w' = machines w /\ exec_fails r);
  machine_updated : forall id info w w' r, x_update_machine corro info id w = (w', r) ->
    settings w' = settings w /\
    (match machines w !! id with
     | Some _ => machines w' = <[id := info]> (machines w) /\ (affects 1 r \/ exec_fails r)
     | None => machines w' = machines w /\ (affects 0 r \/ exec_fails r)
     end \/ machines w' = machines w /\ exec_fails r);
  machine_deleted : forall id w w' r, x_delete_machine corro id w = (w', r) ->
    settings w' = settings w /\
    (match machines w !! id with
     | Some _ => machines w' = delete id (machines w) /\ (affects 1 r \/ exec_fails r)
     | None => machines w' = machines w /\ (affects 0 r \/ exec_fails r)
     end \/ machines w' = machines w /\ exec_fails r);
  containers_deleted : forall ids w w' r, x_delete_containers corro ids w = (w', r) ->
    settings w' = settings w /\ machines w' = machines w
}.

(** The listing of the machines does not break off. *)
Definition whole_listing {W} (corro : Corro W) `{!Tables corro} (w : W) : Prop :=
  whole machine_columns (map machine_values (listing_order w)) (q_machines corro w).

(** ** Lemmas *)
Lemma send_fails err : fails (SendFails err).
Proof. by eexists. Qed.

Definition as_rows (rows : list (list string)) : list RowEvent := map (fun vs => mkRow 1 (map JString vs)) rows.

Lemma rows_loop_feed columns rows rest : Forall (fun vs => length vs = length columns) rows ->
  (forall r row, head rest = Some r -> row_event columns r <> RowNext row) ->
  forall fuel rs, (length rows <= fuel)%nat -> rs_columns rs = columns ->
  rs_feed rs = map (row_event_of 1) rows ++ rest ->
  fst (rows_loop fuel rs) = as_rows rows.
Proof.
  intros Hrows Hrest. induction Hrows as [|vs rows Hvs Hrows IH]; intros fuel rs Hfuel Hcols Hfeed.
  - assert (Hn : (Next rs).2 = false).
    { unfold Next. rewrite Hfeed, Hcols. cbn [map app]. destruct rest as [|r rest]; cbn [tail]; [done|].
      specialize (Hrest r). destruct (row_event columns r) as [row| |]; [by destruct (Hrest row eq_refl)|done..]. }
    destruct fuel; cbn [rows_loop]; destruct (Next rs) as [rs' b]; cbn in Hn; by subst.
  - destruct fuel as [|fuel]; [cbn in Hfuel; lia|]. cbn [rows_loop]. unfold Next.
    rewrite Hfeed, Hcols. cbn [map app tail]. unfold row_event at 1. cbn.
    rewrite length_map, Hvs, Nat.eqb_refl.
    specialize (IH fuel (mkRows (map (row_event_of 1) rows ++ rest) (rs_eoq rs) (rs_closeOnEOQ rs) columns
      (mkRow 1 (map JString vs)) (rs_err rs) (rs_closed rs)) ltac:(cbn in Hfuel; lia) eq_refl eq_refl).
    cbn [app] in *. destruct (rows_loop fuel _) as [rs' last]. cbn [fst rs_row as_rows map] in *. by rewrite IH.
Qed.

(** A full answer is read to its end. *)
Lemma answer_rows columns rows : Forall (fun vs => length vs = length columns) rows ->
  exists rs, QueryContext (answer columns rows) = Ok rs /\ rs_columns rs = columns /\
    fst (all_rows rs) = as_rows rows.
Proof.
  intros Hrows. eexists. split; [reflexivity|]. split; [reflexivity|].
  unfold all_rows. apply (rows_loop_feed columns rows [eoq_event]); [done|by intros r row [= <-]| |done|done].
  cbn [rs_feed]. rewrite length_app, length_map. lia.
Qed.

(** The rows read from a listing are the first of the table, and all of them when it does
    not break off. *)
Lemma listed_rows columns rows r : Forall (fun vs => length vs = length columns) rows ->
  listed columns rows r ->
  fails r \/
  exists rs k, QueryContext r = Ok rs /\ rs_columns rs = columns /\
    fst (all_rows rs) = as_rows (take k rows) /\ (whole columns rows r -> take k rows = rows).
Proof.
  intros Hrows [[Hf| ->]|(k & rest & -> & Hstop)]; [by left|right..].
  - destruct (answer_rows columns rows Hrows) as (rs & Hq & Hc & Hr). exists rs, (length rows).
    by rewrite take_ge by lia.
  - assert (Hread : fst (all_rows (mkRows (map (row_event_of 1) (take k rows) ++ rest) None true columns (mkRow 0 []) None false)) =
      as_rows (take k rows)).
    { unfold all_rows. apply (rows_loop_feed columns (take k rows) rest).
      - by apply Forall_take.
      - intros r row Hr Hn. destruct (Hstop r Hr) as [err He]. congruence.
      - cbn [rs_feed]. rewrite length_app, length_map. lia.
      - done.
      - done. }
    eexists _, k. split; [reflexivity|]. split; [done|]. split; [exact Hread|].
    intros [[e He]|He]; [done|]. injection He as He.
    destruct (decide (length rows <= k)%nat); [by apply take_ge|exfalso].
    assert (Hnth : nth_error (map (row_event_of 1) (take k rows) ++ rest) k =
                   nth_error (map (row_event_of 1) rows ++ [eoq_event]) k) by (by rewrite He).
    rewrite nth_error_app2 in Hnth by (rewrite length_map, length_take; lia).
    rewrite length_map, length_take, Nat.min_l, Nat.sub_diag in Hnth by lia.
    rewrite nth_error_app1 in Hnth by (rewrite length_map; lia).
    destruct rest as [|r rest]; cbn in Hnth; [by symmetry in Hnth; apply nth_error_None in Hnth; rewrite length_map in Hnth; lia|].
    rewrite nth_error_map in Hnth. destruct (nth_error rows k) as [vs|] eqn:Hvs; [|done]. injection Hnth as ->.
    destruct (Hstop (row_event_of 1 vs) eq_refl) as [err Herr]. revert Herr.
    apply nth_error_In, list_elem_of_In in Hvs. rewrite Forall_forall in Hrows.
    unfold row_event, row_event_of. cbn. by rewrite length_map, (Hrows vs Hvs), Nat.eqb_refl.
Qed.

Lemma exec_store_fails r : exec_fails r -> exists e, exec_store r = Err e.
Proof. unfold exec_store. intros [e ->]. by eexists. Qed.

Section Records.
Context {PJ : ProtoJSON} {W : Type} (corro : Corro W) {TB : Tables corro}.

(** [GetMachine] reads the record of the table. *)
Lemma GetMachine_record id w r : id <> "" -> GetMachine corro id w = Some r ->
  match r with
  | Ok m => exists text, machines w !! id = Some text /\ pj_Unmarshal text = Some m /\ mi_Id m = id
  | Err (ErrMachineNotFound _) => machines w !! id = None
  | Err _ => True
  end.
Proof.
  intros Hid. unfold GetMachine. rewrite (proj2 (String.eqb_neq id "") Hid).
  destruct (machine_read id w) as [Hf|Ha].
  { destruct Hf as [e ->]. by intros [= <-]. }
  rewrite Ha. destruct (machines w !! id) as [text|]; cbn -[String.eqb]; [|by intros [= <-]].
  destruct (String.eqb text ""); [by intros [= <-]|].
  destruct (pj_Unmarshal text) as [m|] eqn:Hm; [|by intros [= <-]].
  destruct (String.eqb_spec (mi_Id m) id) as [He|]; [|by intros [= <-]]. cbn [negb].
  destruct (mi_Network m) as [c|]; [destruct (Validate c) as [[]|]; [|by intros [= <-]|done]|];
    intros [= <-]; by exists text.
Qed.

(** A setting is written, or the statement failed. *)
Lemma Put_setting k v w w' r : Put corro k v w = (w', r) ->
  machines w' = machines w /\
  (settings w' = <[k := v]> (settings w) \/ settings w' = settings w /\ is_ok r = false).
Proof.
  unfold Put. destruct (x_put corro k v w) as [w1 x] eqn:Hx. intros [= <- <-].
  destruct (setting_put _ _ _ _ _ Hx) as [Hm [Hs|[Hs Hf]]]; (split; [done|]); [by left|right].
  split; [done|]. by destruct (exec_store_fails x Hf) as [e ->].
Qed.

Lemma Delete_setting k w w' r : Delete corro k w = (w', r) ->
  machines w' = machines w /\
  (settings w' = delete k (settings w) \/ settings w' = settings w /\ is_ok r = false).
Proof.
  unfold Delete. destruct (x_delete_key corro k w) as [w1 x] eqn:Hx. intros [= <- <-].
  destruct (setting_deleted _ _ _ _ Hx) as [Hm [Hs|[Hs Hf]]]; (split; [done|]); [by left|right].
  split; [done|]. by destruct (exec_store_fails x Hf) as [e ->].
Qed.

(** A setting is read as it is, or the query fails. *)
Lemma Get_setting key w :
  match settings w !! key with
  | Some text => Get corro key w = Ok text
  | None => Get corro key w = Err ErrKeyNotFound
  end \/ exists e, Get corro key w = Err (StoreQuery e).
Proof.
  destruct (key_read key w) as [Hf|Ha]; [right|left].
  - unfold Get. destruct Hf as [e ->]. by exists e.
  - unfold Get. rewrite Ha. by destruct (settings w !! key).
Qed.

(** A record is inserted where there was none, or the statement failed. *)
Lemma CreateMachine_record m w w' r : CreateMachine corro m w = (w', r) ->
  settings w' = settings w /\
  ((exists text, pj_Marshal m = Some text /\ machines w !! mi_Id m = None /\ machines w' = <[mi_Id m := text]> (machines w)) \/
   machines w' = machines w /\ is_ok r = false).
Proof.
  unfold CreateMachine. destruct (pj_Marshal m) as [text|]; [|by intros [= <- <-]; split; [|right]].
  destruct (x_insert_machine corro (mi_Id m) text w) as [w1 x] eqn:Hx. intros [= <- <-].
  destruct (machine_inserted _ _ _ _ _ Hx) as [Hs [[Hn Hm]|[Hm Hf]]]; (split; [done|]); [left; by exists text|right].
  split; [done|]. by destruct (exec_store_fails x Hf) as [e ->].
Qed.
End Records.
