(* ===== verification/Port.v ===== *)
(** * Port: port specifications, [pkg/api/port.go]

    A [PortSpec] tells how a service port is published: through the ingress proxy or on
    the host. [Validate], the flag syntax printed by [String] and read by
    [ParsePortSpec], and the order-insensitive comparison [PortsEqual]. *)

From S2P Require Import Prelude GoStrings NetAddr NetText.
#[local] Open Scope string_scope.

Definition PortModeIngress := "ingress".
Definition PortModeHost := "host".
Definition ProtocolHTTP := "http".
Definition ProtocolHTTPS := "https".
Definition ProtocolTCP := "tcp".
Definition ProtocolUDP := "udp".

(** Ports are [uint16] values. *)
Record PortSpec := mkPort {
  Hostname : string;
  HostIP : addr;
  HostPrefix : prefix;
  PublishedPort : N;
  ContainerPort : N;
  Protocol : string;
  Mode : string
}.

#[global] Instance PortSpec_eq_dec : EqDecision PortSpec.
Proof. solve_decision. Defined.

Inductive hostname_error := HostnameEmpty | HostnameNoDot.

Inductive port_error :=
| ContainerPortZero
| ProtocolMissing
| ProtocolInvalid (protocol : string)
| ModeMissing
| ModeInvalid (mode : string)
| HostIPInIngress
| HostPrefixInIngress
| HostnameProtocol
| HostnameInvalid (hostname : string) (e : hostname_error)
| HostIPAndPrefix
| PublishedPortMissing
| HostProtocolUnsupported (protocol : string)
| HostnameInHost
| ModeNotImplemented (mode : string)
| TooManyAt
| ContainerPortInvalid (s : string) (e : NumError)
| PublishedPortInvalid (s : string) (e : NumError)
| HostnameOrPortMissing
| IPv6NotBracketed (s : string)
| HostPrefixInvalid (s : string)
| HostIPInvalid (s : string)
| UnexpectedParts (n : nat).

Definition validateHostname (hostname : string) : result hostname_error unit :=
  if String.eqb hostname "" then Err HostnameEmpty
  else if negb (contains_byte "." hostname) then Err HostnameNoDot
  else Ok tt.

Definition one_of (s : string) (l : list string) : bool := existsb (String.eqb s) l.

Definition Validate (p : PortSpec) : result port_error unit :=
  if (ContainerPort p =? 0)%N then Err ContainerPortZero
  else if String.eqb (Protocol p) "" then Err ProtocolMissing
  else if negb (one_of (Protocol p) [ProtocolHTTP; ProtocolHTTPS; ProtocolTCP; ProtocolUDP])
  then Err (ProtocolInvalid (Protocol p))
  else if String.eqb (Mode p) "" then Err ModeMissing
  else if String.eqb (Mode p) PortModeIngress then
    if IsValid (HostIP p) then Err HostIPInIngress
    else if prefix_IsValid (HostPrefix p) then Err HostPrefixInIngress
    else if negb (String.eqb (Hostname p) "") then
      if negb (String.eqb (Protocol p) ProtocolHTTP) && negb (String.eqb (Protocol p) ProtocolHTTPS)
      then Err HostnameProtocol
      else wrap_err (HostnameInvalid (Hostname p)) (validateHostname (Hostname p))
    else Ok tt
  else if String.eqb (Mode p) PortModeHost then
    if IsValid (HostIP p) && prefix_IsValid (HostPrefix p) then Err HostIPAndPrefix
    else if (PublishedPort p =? 0)%N then Err PublishedPortMissing
    else if negb (String.eqb (Protocol p) ProtocolTCP) && negb (String.eqb (Protocol p) ProtocolUDP)
    then Err (HostProtocolUnsupported (Protocol p))
    else if negb (String.eqb (Hostname p) "") then Err HostnameInHost
    else Ok tt
  else Err (ModeInvalid (Mode p)).

Definition ingress_parts (p : PortSpec) : list string :=
  ((if negb (String.eqb (Hostname p) "") then [Hostname p] else []) ++
   (if negb (PublishedPort p =? 0)%N then [itoa (PublishedPort p)] else []) ++
   [itoa (ContainerPort p)])%list.

Definition host_parts (p : PortSpec) : list string :=
  ((if IsValid (HostIP p) then
     [if Is6 (HostIP p) then ("[" ++ addr_String (HostIP p) ++ "]")%string else addr_String (HostIP p)]
   else []) ++
  (if prefix_IsValid (HostPrefix p) then
     [if Is6 (prefix_addr (HostPrefix p))
      then ("[" ++ addr_String (prefix_addr (HostPrefix p)) ++ "]/" ++ sprint (prefix_bits (HostPrefix p)))%string
      else prefix_String (HostPrefix p)]
   else []) ++
  [itoa (PublishedPort p); itoa (ContainerPort p)])%list.

(** [PortSpec.String] *)
Definition print (p : PortSpec) : result port_error string :=
  match Validate p with
  | Err e => Err e
  | Ok _ =>
      if String.eqb (Mode p) "" || String.eqb (Mode p) PortModeIngress
      then Ok (join ":" (ingress_parts p) ++ "/" ++ Protocol p)
      else if String.eqb (Mode p) PortModeHost
      then Ok (join ":" (host_parts p) ++ "/" ++ Protocol p ++ "@host")
      else Err (ModeNotImplemented (Mode p))
  end.

Definition splitPortParts (port : string) : list string :=
  let parts := split_byte ":" port in
  let n := length parts in
  if Nat.ltb 3 n then (join ":" (take (n - 2) parts) :: drop (n - 2) parts)%list else parts.

Definition parsePort (s : string) : result NumError N := parse_uint 16 s.

(** The mode, the protocol and the container port, from the last part: the results are the
    mode, the protocol, [specifiedProtocol] and the text of the container port. *)
Definition parse_mode (mode : string) : result port_error (string * string * string * string) :=
  match cut_byte "@" mode with
  | Some (before, after) =>
      if negb (String.eqb after PortModeHost) then Err (ModeInvalid after)
      else match cut_byte "/" before with
           | Some (port, protocol) =>
               if String.eqb protocol ProtocolTCP then Ok (PortModeHost, ProtocolTCP, "", port)
               else if String.eqb protocol ProtocolUDP then Ok (PortModeHost, ProtocolUDP, "", port)
               else Err (HostProtocolUnsupported protocol)
           | None => Ok (PortModeHost, ProtocolTCP, "", before)
           end
  | None =>
      match cut_byte "/" mode with
      | Some (port, protocol) =>
          if one_of protocol [ProtocolTCP; ProtocolUDP; ProtocolHTTP; ProtocolHTTPS]
          then Ok (PortModeIngress, protocol, protocol, port)
          else Err (ProtocolInvalid protocol)
      | None => Ok (PortModeIngress, ProtocolTCP, "", mode)
      end
  end.

(** The host address part in host mode: an IP or a prefix, IPv6 in square brackets. *)
Definition strip_brackets (s : string) : result port_error string :=
  if contains_byte ":" s then
    match cut_prefix "[" s, cut_byte "]" s with
    | Some rest, Some _ =>
        match cut_byte "]" rest with
        | Some (inside, after) => Ok (inside ++ after)
        | None => Err (IPv6NotBracketed s)
        end
    | _, _ => Err (IPv6NotBracketed s)
    end
  else Ok s.

Definition parse_host_part (s : string) : result port_error (addr * prefix) :=
  match strip_brackets s with
  | Err e => Err e
  | Ok ip =>
      if contains_byte "/" ip then
        match ParsePrefix ip with Some p => Ok (NoAddr, p) | None => Err (HostPrefixInvalid s) end
      else
        match ParseAddr ip with Some a => Ok (a, NoPrefix) | None => Err (HostIPInvalid s) end
  end.

(** The checks after the parts have been read. *)
Definition finish_spec (spec : PortSpec) (specifiedProtocol : string) : result port_error PortSpec :=
  let done spec := match Validate spec with Ok _ => Ok spec | Err e => Err e end in
  if String.eqb (Hostname spec) "" then done spec
  else if String.eqb specifiedProtocol "" then
    done (mkPort (Hostname spec) (HostIP spec) (HostPrefix spec) (PublishedPort spec)
            (ContainerPort spec) ProtocolHTTPS (Mode spec))
  else if negb (String.eqb specifiedProtocol ProtocolHTTP) &&
          negb (String.eqb specifiedProtocol ProtocolHTTPS) then Err HostnameProtocol
  else done spec.

Definition ParsePortSpec (port : string) : result port_error PortSpec :=
  if Nat.ltb 1 (count_byte "@" port) then Err TooManyAt
  else
    let parts := splitPortParts port in
    match parse_mode (List.last parts "") with
    | Err e => Err e
    | Ok (mode, protocol, specified, text) =>
        match parsePort text with
        | Err e => Err (ContainerPortInvalid text e)
        | Ok containerPort =>
            let spec host ip pfx published :=
              finish_spec (mkPort host ip pfx published containerPort protocol mode) specified in
            match parts with
            | [_] => spec "" NoAddr NoPrefix 0%N
            | [first; _] =>
                if String.eqb first "" then Err HostnameOrPortMissing
                else match parsePort first with
                     | Ok published => spec "" NoAddr NoPrefix published
                     | Err _ => if String.eqb mode PortModeHost then Err HostnameInHost
                                else spec first NoAddr NoPrefix 0%N
                     end
            | [first; second; _] =>
                match parsePort second with
                | Err e => Err (PublishedPortInvalid second e)
                | Ok published =>
                    if String.eqb mode PortModeHost then
                      match parse_host_part first with
                      | Err e => Err e
                      | Ok (ip, pfx) => spec "" ip pfx published
                      end
                    else spec first NoAddr NoPrefix published
                end
            | _ => Err (UnexpectedParts (length parts))
            end
        end
    end.

(** The serialisation loop: the first port that does not print ends the comparison. *)
Fixpoint serialise (a b : list PortSpec) : option (list string * list string) :=
  match a, b with
  | pa :: a', pb :: b' =>
      match print pa with
      | Err _ => None
      | Ok sa =>
          match print pb with
          | Err _ => None
          | Ok sb =>
              match serialise a' b' with
              | Some (la, lb) => Some (sa :: la, sb :: lb)%list
              | None => None
              end
          end
      end
  | _, _ => Some ([], [])
  end.

Definition PortsEqual (a b : list PortSpec) : bool :=
  if negb (Nat.eqb (length a) (length b)) then false
  else match serialise a b with
       | None => false
       | Some (la, lb) => bool_decide (sort_strings la = sort_strings lb)
       end.

Example parse_examples :
  map ParsePortSpec ["app.example.com:8080/http"; "53:5353/udp"; "[::1]:80:8080@host";
                     "10.0.0.0/8:80:8080/tcp@host"; "a.b"; "80@h"; ":80"] =
  [Ok (mkPort "app.example.com" NoAddr NoPrefix 0 8080 "http" "ingress");
   Ok (mkPort "" NoAddr NoPrefix 53 5353 "udp" "ingress");
   Ok (mkPort "" (Addr6 1 "") NoPrefix 80 8080 "tcp" "host");
   Ok (mkPort "" NoAddr (mkPrefix (Addr4 167772160) 8) 80 8080 "tcp" "host");
   Err (ContainerPortInvalid "a.b" ErrSyntax); Err (ModeInvalid "h"); Err HostnameOrPortMissing].
Proof. reflexivity. Qed.

(** ** Lemmas *)

(** The ports whose flag text determines them: 16-bit ports, no colon and at most one
    ['@'] in the hostname, host addresses whose text parses back, and the zero value of
    the address fields that are not set. *)
Definition roundtrips (p : PortSpec) : bool :=
  (PublishedPort p <? 2 ^ 16)%N && (ContainerPort p <? 2 ^ 16)%N &&
  negb (contains_byte ":" (Hostname p)) && Nat.leb (count_byte "@" (Hostname p)) 1 &&
  (bool_decide (HostIP p = NoAddr) || text_ok (HostIP p)) &&
  (bool_decide (HostPrefix p = NoPrefix) || prefix_text_ok (HostPrefix p)).

Lemma one_of_spec s l : one_of s l = true <-> s ∈ l.
Proof.
  unfold one_of. rewrite existsb_exists. setoid_rewrite String.eqb_eq.
  rewrite list_elem_of_In. naive_solver.
Qed.

Lemma split1 h : contains_byte ":" h = false -> splitPortParts h = [h].
Proof. intros Hh. unfold splitPortParts. by rewrite split_byte_none. Qed.

Lemma split2 h a : contains_byte ":" h = false -> contains_byte ":" a = false ->
  splitPortParts (h ++ ":" ++ a) = [h; a].
Proof.
  intros Hh Ha. unfold splitPortParts. cbn [String.append].
  by rewrite split_byte_app, split_byte_none.
Qed.

Lemma split3 h a b : contains_byte ":" a = false -> contains_byte ":" b = false ->
  splitPortParts (h ++ ":" ++ a ++ ":" ++ b) = [h; a; b].
Proof.
  intros Ha Hb. unfold splitPortParts. cbn [String.append].
  rewrite split_byte_app_gen, split_byte_app, (split_byte_none ":" b) by done.
  pose proof (join_split ":" h) as Hj. pose proof (split_byte_nonempty ":" h) as Hne.
  destruct (split_byte ":" h) as [|x [|y l]] eqn:Hs; [done|simpl in *; congruence|].
  rewrite length_app. cbn [length]. destruct (Nat.ltb_spec 3 (S (S (length l)) + 2)); [|lia].
  replace (S (S (length l)) + 2 - 2) with (length (x :: y :: l)) by (simpl; lia).
  by rewrite take_app_length, drop_app_length, Hj.
Qed.

Lemma not_digit_bytes : is_digit ":" = false /\ is_digit "/" = false /\ is_digit "@" = false /\
  is_digit "." = false.
Proof. done. Qed.

Lemma itoa_no c n : is_digit c = false -> contains_byte c (itoa n) = false.
Proof. apply itoa_digits. Qed.

Lemma parse_mode_ingress n protocol :
  protocol ∈ [ProtocolHTTP; ProtocolHTTPS; ProtocolTCP; ProtocolUDP] ->
  parse_mode (itoa n ++ "/" ++ protocol) = Ok (PortModeIngress, protocol, protocol, itoa n) /\
  contains_byte ":" (itoa n ++ "/" ++ protocol) = false /\
  count_byte "@" (itoa n ++ "/" ++ protocol) = 0.
Proof.
  intros Hp. pose proof (itoa_no "/" n eq_refl) as Hs. pose proof (itoa_no "@" n eq_refl) as Ha.
  pose proof (itoa_no ":" n eq_refl) as Hc.
  assert (Hpr : contains_byte "@" protocol = false /\ contains_byte ":" protocol = false /\
                one_of protocol [ProtocolTCP; ProtocolUDP; ProtocolHTTP; ProtocolHTTPS] = true).
  { set_unfold. by destruct_or!; subst. }
  destruct Hpr as (Hpa & Hpc & Hpo). cbn [String.append].
  rewrite count_byte_0, !contains_byte_app. cbn [contains_byte]. rewrite Ha, Hc, Hpa, Hpc.
  split_and!; [|done..]. unfold parse_mode.
  rewrite (proj2 (cut_byte_None "@" _)) by (rewrite contains_byte_app; cbn [contains_byte]; by rewrite Ha, Hpa).
  rewrite cut_byte_app by done. by rewrite Hpo.
Qed.

Lemma parse_mode_host n protocol : protocol ∈ [ProtocolTCP; ProtocolUDP] ->
  parse_mode (itoa n ++ "/" ++ protocol ++ "@host") = Ok (PortModeHost, protocol, "", itoa n) /\
  contains_byte ":" (itoa n ++ "/" ++ protocol ++ "@host") = false /\
  count_byte "@" (itoa n ++ "/" ++ protocol ++ "@host") = 1.
Proof.
  intros Hp. pose proof (itoa_no "/" n eq_refl) as Hs. pose proof (itoa_no "@" n eq_refl) as Ha.
  pose proof (itoa_no ":" n eq_refl) as Hc.
  rewrite !count_byte_app, !contains_byte_app, Hc, (proj2 (count_byte_0 "@" (itoa n)) Ha).
  assert (Hpr : contains_byte "@" protocol = false /\ contains_byte ":" protocol = false /\
                count_byte "@" protocol = 0).
  { set_unfold. by destruct_or!; subst. }
  destruct Hpr as (Hpa & Hpc & Hpn). rewrite Hpc, Hpn. split_and!; [|done..].
  unfold parse_mode.
  replace (itoa n ++ "/" ++ protocol ++ "@host") with ((itoa n ++ String "/" protocol) ++ String "@" "host")
    by (by rewrite string_app_assoc).
  rewrite cut_byte_app by (rewrite contains_byte_app; cbn [contains_byte]; by rewrite Ha, Hpa).
  simpl. rewrite cut_byte_app by done. set_unfold. by destruct_or!; subst.
Qed.

(** What [Validate] accepts. *)
Definition valid_ingress (p : PortSpec) : Prop :=
  Mode p = PortModeIngress /\ HostIP p = NoAddr /\ prefix_IsValid (HostPrefix p) = false /\
  Protocol p ∈ [ProtocolHTTP; ProtocolHTTPS; ProtocolTCP; ProtocolUDP] /\
  (Hostname p = "" \/
   Protocol p ∈ [ProtocolHTTP; ProtocolHTTPS] /\ contains_byte "." (Hostname p) = true).

Definition valid_host (p : PortSpec) : Prop :=
  Mode p = PortModeHost /\ (HostIP p = NoAddr \/ prefix_IsValid (HostPrefix p) = false) /\
  PublishedPort p <> 0%N /\ Protocol p ∈ [ProtocolTCP; ProtocolUDP] /\ Hostname p = "".

Lemma IsValid_false a : IsValid a = false <-> a = NoAddr.
Proof. by destruct a. Qed.

Lemma orb_eqb_in s a b :
  negb (String.eqb s a) && negb (String.eqb s b) = false <-> s ∈ [a; b].
Proof.
  rewrite andb_false_iff, !negb_false_iff, !String.eqb_eq. set_solver.
Qed.

Lemma Validate_iff p :
  Validate p = Ok tt <-> ContainerPort p <> 0%N /\ (valid_ingress p \/ valid_host p).
Proof.
  unfold Validate, valid_ingress, valid_host, wrap_err, validateHostname.
  destruct (N.eqb_spec (ContainerPort p) 0); [naive_solver|].
  destruct (String.eqb_spec (Protocol p) "") as [Hp|Hp]; [rewrite Hp; set_solver|].
  destruct (one_of _ _) eqn:Hone; simpl.
  2: { apply not_true_iff_false in Hone. rewrite one_of_spec in Hone. set_solver. }
  apply one_of_spec in Hone.
  destruct (String.eqb_spec (Mode p) "") as [Hm|Hm]; [rewrite Hm; naive_solver|].
  destruct (String.eqb_spec (Mode p) PortModeIngress) as [Hi|Hi].
  - rewrite Hi. rewrite <- IsValid_false. destruct (IsValid (HostIP p)); [naive_solver|].
    destruct (prefix_IsValid (HostPrefix p)); [naive_solver|].
    destruct (String.eqb_spec (Hostname p) "") as [Hh|Hh]; simpl; [naive_solver|].
    destruct (_ && _) eqn:Hhttp.
    + apply not_false_iff_true in Hhttp. rewrite orb_eqb_in in Hhttp. naive_solver.
    + apply orb_eqb_in in Hhttp. destruct (contains_byte "." (Hostname p)); naive_solver.
  - destruct (String.eqb_spec (Mode p) PortModeHost) as [Hh|Hh]; [|naive_solver].
    rewrite Hh. rewrite <- IsValid_false. destruct (_ && prefix_IsValid _) eqn:Hboth.
    { apply andb_true_iff in Hboth. destruct Hboth as [-> ->]. split; [done|]. intros (_ & [(? & _)|(_ & [?|?] & _)]); congruence. }
    apply andb_false_iff in Hboth. destruct (N.eqb_spec (PublishedPort p) 0); [naive_solver|].
    destruct (_ && _) eqn:Hproto.
    + apply not_false_iff_true in Hproto. rewrite orb_eqb_in in Hproto. naive_solver.
    + apply orb_eqb_in in Hproto. destruct (String.eqb_spec (Hostname p) ""); naive_solver.
Qed.

Lemma finish_ok p specified :
  Validate p = Ok tt -> (Hostname p = "" \/ specified ∈ [ProtocolHTTP; ProtocolHTTPS]) ->
  finish_spec p specified = Ok p.
Proof.
  intros Hv Hs. unfold finish_spec. rewrite Hv. destruct (String.eqb_spec (Hostname p) ""); [done|].
  destruct Hs as [|Hs]; [done|]. destruct (String.eqb_spec specified "") as [->|]; [set_unfold; naive_solver|].
  apply orb_eqb_in in Hs. by rewrite Hs.
Qed.

Lemma ingress_text p : valid_ingress p -> ContainerPort p <> 0%N -> roundtrips p = true ->
  ParsePortSpec (join ":" (ingress_parts p) ++ "/" ++ Protocol p) = Ok p.
Proof.
  intros Hv Hc Hrt. assert (HV : Validate p = Ok tt) by (apply Validate_iff; auto).
  destruct Hv as (Hm & Hip & Hpfx & Hproto & Hhost).
  unfold roundtrips in Hrt. rewrite !andb_true_iff in Hrt.
  destruct Hrt as (((((Hb1 & Hb2) & Hcolon) & Hat) & _) & Hp2).
  apply N.ltb_lt in Hb1, Hb2. apply negb_true_iff in Hcolon. apply Nat.leb_le in Hat.
  assert (HpN : HostPrefix p = NoPrefix).
  { apply orb_true_iff in Hp2 as [Hq%bool_decide_eq_true|Hq]; [done|].
    unfold prefix_text_ok, prefix_IsValid in *. rewrite !andb_true_iff in Hq. destruct_and!. congruence. }
  destruct (parse_mode_ingress (ContainerPort p) (Protocol p) Hproto) as (Hpm & Htc & Hta).
  set (tail := itoa (ContainerPort p) ++ "/" ++ Protocol p) in *.
  assert (Heq : forall h pub, h = Hostname p -> pub = PublishedPort p ->
            finish_spec (mkPort h NoAddr NoPrefix pub (ContainerPort p) (Protocol p) PortModeIngress)
              (Protocol p) = Ok p).
  { intros h pub -> ->. rewrite <- Hm, <- Hip, <- HpN.
    assert (Hself : mkPort (Hostname p) (HostIP p) (HostPrefix p) (PublishedPort p) (ContainerPort p)
              (Protocol p) (Mode p) = p) by by destruct p.
    rewrite Hself. apply finish_ok; [done|]. naive_solver. }
  unfold ParsePortSpec, ingress_parts, parsePort.
  pose proof (itoa_parse 16 _ Hb2) as Hpc. pose proof (itoa_parse 16 _ Hb1) as Hpp.
  pose proof (itoa_no ":" (PublishedPort p) eq_refl) as Hpubc.
  pose proof (proj2 (count_byte_0 "@" _) (itoa_no "@" (PublishedPort p) eq_refl)) as Hpuba.
  destruct (String.eqb_spec (Hostname p) "") as [Hh|Hh]; cbn [negb app];
    destruct (N.eqb_spec (PublishedPort p) 0) as [Hp0|Hp0]; cbn [negb app join];
    rewrite ?string_app_assoc; fold tail.
  - rewrite Hta, split1 by done. cbn [Nat.ltb List.last]. rewrite Hpm, Hpc. by apply Heq.
  - rewrite count_byte_app, Hpuba, count_byte_app, Hta. rewrite split2 by done.
    cbn [Nat.ltb List.last]. rewrite Hpm, Hpc, Hpp.
    destruct (String.eqb_spec (itoa (PublishedPort p)) "") as [Hz|]; [|by apply Heq].
    rewrite Hz in Hpp. done.
  - rewrite !count_byte_app, Hta. rewrite split2 by done.
    destruct (Nat.ltb_spec 1 (count_byte "@" (Hostname p) + (count_byte "@" ":" + 0))); [simpl in *; lia|].
    cbn [List.last]. rewrite Hpm, Hpc. rewrite (proj2 (String.eqb_neq _ _) Hh).
    destruct (parse_uint 16 (Hostname p)) eqn:Hpu.
    + destruct Hhost as [|[_ Hdot]]; [done|]. by rewrite (parse_uint_digits _ _ _ "." Hpu) in Hdot.
    + by apply Heq.
  - rewrite !count_byte_app, Hpuba, Hta. rewrite split3 by done.
    destruct (Nat.ltb_spec 1 (count_byte "@" (Hostname p) + (count_byte "@" ":" + (0 + (count_byte "@" ":" + 0)))));
      [simpl in *; lia|].
    cbn [List.last]. rewrite Hpm, Hpc, Hpp. by apply Heq.
Qed.

(** *** The host part *)
Lemma addr_kind_colon s : addr_kind s = Some true -> contains_byte ":" s = true.
Proof.
  induction s as [|c s IH]; simpl; [done|].
  destruct (Ascii.eqb c "."); [done|]. destruct (Ascii.eqb c ":"); [done|].
  destruct (Ascii.eqb c "%"); [done|]. auto.
Qed.

Lemma ParseAddr_6_colon s v z : ParseAddr s = Some (Addr6 v z) -> contains_byte ":" s = true.
Proof.
  unfold ParseAddr. destruct (addr_kind s) as [[]|] eqn:Hk; [by intros _; apply addr_kind_colon| |done].
  unfold parseIPv4. destruct (parseIPv4Fields _ _ _ _ _); discriminate.
Qed.

Lemma strip_bracketed s after : contains_byte ":" s = true -> contains_byte "]" s = false ->
  strip_brackets ("[" ++ s ++ "]" ++ after) = Ok (s ++ after).
Proof.
  intros Hc Hb. unfold strip_brackets. cbn [String.append].
  change (String "[" (s ++ String "]" after)) with ("[" ++ (s ++ String "]" after)).
  rewrite !contains_byte_app, Hc. cbn [orb].
  replace (contains_byte ":" "[") with false by done. cbn [orb].
  rewrite (proj2 (cut_prefix_Some "[" _ (s ++ String "]" after)) eq_refl).
  rewrite (cut_byte_app "]" s) by done.
  replace (cut_byte "]" ("[" ++ s ++ String "]" after)) with (Some ("[" ++ s, after)); [done|].
  symmetry. rewrite <- string_app_assoc. apply cut_byte_app.
  by rewrite contains_byte_app, Hb.
Qed.

Lemma strip_plain s : contains_byte ":" s = false -> strip_brackets s = Ok s.
Proof. unfold strip_brackets. by intros ->. Qed.

(** The host part of the text of a host address or prefix. *)
Definition ip_text (a : addr) : string :=
  if Is6 a then ("[" ++ addr_String a ++ "]")%string else addr_String a.
Definition prefix_text (p : prefix) : string :=
  if Is6 (prefix_addr p)
  then ("[" ++ addr_String (prefix_addr p) ++ "]/" ++ sprint (prefix_bits p))%string
  else prefix_String p.

Lemma parse_ip_text a : a <> NoAddr -> text_ok a = true ->
  parse_host_part (ip_text a) = Ok (a, NoPrefix) /\ contains_byte "@" (ip_text a) = false.
Proof.
  intros Hne Hok. destruct (text_ok_spec a Hok) as (Hp & Hs & Hat & _ & Hb).
  unfold parse_host_part, ip_text. destruct a as [|v|v z]; [done| |]; cbn [Is6].
  - rewrite strip_plain by by apply string4_no_byte. by rewrite Hs, Hp.
  - pose proof (strip_bracketed (addr_String (Addr6 v z)) "" (ParseAddr_6_colon _ _ _ Hp) Hb) as Hsb.
    cbn [String.append] in *. rewrite string_app_nil_r in Hsb. rewrite Hsb, Hs, Hp. split; [done|].
    cbn [contains_byte]. rewrite contains_byte_app, Hat. done.
Qed.

Lemma parse_prefix_text p : prefix_text_ok p = true ->
  parse_host_part (prefix_text p) = Ok (NoAddr, p) /\ contains_byte "@" (prefix_text p) = false.
Proof.
  intros Hok. pose proof (ParsePrefix_text p Hok) as Hpp. unfold prefix_text_ok in Hok.
  rewrite !andb_true_iff in Hok. destruct Hok as ((((Ht & _) & Hv) & H0) & _).
  destruct (text_ok_spec _ Ht) as (Hp & Hs & Hat & _ & Hb).
  pose proof (sprint_no_byte "@" (prefix_bits p) eq_refl) as Hna.
  pose proof (sprint_no_byte ":" (prefix_bits p) eq_refl) as Hnc.
  unfold parse_host_part, prefix_text. destruct (prefix_addr p) as [|v|v z] eqn:Ha; [done| |]; cbn [Is6].
  - unfold prefix_String, prefix_IsValid. rewrite H0, Ha.
    rewrite !contains_byte_app, Hat, Hna, strip_plain.
    + by rewrite !contains_byte_app, Hpp, orb_true_r.
    + by rewrite !contains_byte_app; cbn [addr_String]; rewrite string4_no_byte, Hnc.
  - pose proof (strip_bracketed _ ("/" ++ sprint (prefix_bits p)) (ParseAddr_6_colon _ _ _ Hp) Hb) as Hsb.
    cbn [String.append] in *. rewrite Hsb.
    cbn [contains_byte]. rewrite !contains_byte_app. cbn [contains_byte orb].
    rewrite orb_true_r, Hpp, Hat, Hna. done.
Qed.

Lemma host_text p : valid_host p -> ContainerPort p <> 0%N -> roundtrips p = true ->
  ParsePortSpec (join ":" (host_parts p) ++ "/" ++ Protocol p ++ "@host") = Ok p.
Proof.
  intros Hv Hc Hrt. assert (HV : Validate p = Ok tt) by (apply Validate_iff; auto).
  destruct Hv as (Hm & Hone & Hpub & Hproto & Hhost).
  unfold roundtrips in Hrt. rewrite !andb_true_iff, !orb_true_iff, !bool_decide_eq_true in Hrt.
  destruct Hrt as (((((Hb1 & Hb2) & _) & _) & Hipok) & Hpfxok). apply N.ltb_lt in Hb1, Hb2.
  destruct (parse_mode_host (ContainerPort p) (Protocol p) Hproto) as (Hpm & Htc & Hta).
  set (tail := itoa (ContainerPort p) ++ "/" ++ Protocol p ++ "@host") in *.
  assert (Heq : forall ip pfx, ip = HostIP p -> pfx = HostPrefix p ->
            finish_spec (mkPort "" ip pfx (PublishedPort p) (ContainerPort p) (Protocol p) PortModeHost) "" = Ok p).
  { intros ip pfx -> ->. rewrite <- Hm, <- Hhost at 1.
    assert (Hself : mkPort (Hostname p) (HostIP p) (HostPrefix p) (PublishedPort p) (ContainerPort p)
              (Protocol p) (Mode p) = p) by by destruct p.
    rewrite Hself. apply finish_ok; auto. }
  pose proof (itoa_parse 16 _ Hb2) as Hpc. pose proof (itoa_parse 16 _ Hb1) as Hpp.
  pose proof (itoa_no ":" (PublishedPort p) eq_refl) as Hpubc.
  pose proof (proj2 (count_byte_0 "@" _) (itoa_no "@" (PublishedPort p) eq_refl)) as Hpuba.
  assert (Hthree : forall h ip pfx, parse_host_part h = Ok (ip, pfx) -> contains_byte "@" h = false ->
            ip = HostIP p -> pfx = HostPrefix p ->
            ParsePortSpec (h ++ ":" ++ itoa (PublishedPort p) ++ ":" ++ tail) = Ok p).
  { intros h ip pfx Hh Hat Hi Hx. unfold ParsePortSpec, parsePort.
    rewrite !count_byte_app, (proj2 (count_byte_0 "@" h) Hat), Hpuba, Hta, split3 by done.
    cbn [List.last Nat.ltb Nat.leb count_byte Nat.add Ascii.eqb]. rewrite Hpm, Hpc, Hpp. cbn [String.eqb].
    simpl. rewrite Hh. by apply Heq. }
  unfold host_parts. fold (ip_text (HostIP p)). fold (prefix_text (HostPrefix p)).
  destruct (IsValid (HostIP p)) eqn:Hiv; destruct (prefix_IsValid (HostPrefix p)) eqn:Hpv;
    cbn [app join]; rewrite ?string_app_assoc; fold tail.
  - apply IsValid_false in Hone || (destruct Hone as [Hn%IsValid_false|]; congruence).
  - destruct Hipok as [Hn%IsValid_false|Hok]; [congruence|].
    destruct Hpfxok as [Hn|Hok']; [|unfold prefix_text_ok, prefix_IsValid in *; rewrite !andb_true_iff in Hok'; destruct_and!; congruence].
    assert (Hne : HostIP p <> NoAddr) by (intros ?%IsValid_false; congruence).
    destruct (parse_ip_text _ Hne Hok). by eapply Hthree.
  - apply IsValid_false in Hiv. destruct Hpfxok as [Hn|Hok]; [rewrite Hn in Hpv; discriminate|].
    destruct (parse_prefix_text _ Hok). by eapply Hthree.
  - apply IsValid_false in Hiv.
    destruct Hpfxok as [Hn|Hok']; [|unfold prefix_text_ok, prefix_IsValid in *; rewrite !andb_true_iff in Hok'; destruct_and!; congruence].
    unfold ParsePortSpec, parsePort. rewrite !count_byte_app, Hpuba, Hta, split2 by done.
    cbn [List.last Nat.ltb Nat.leb count_byte Nat.add Ascii.eqb]. rewrite Hpm, Hpc, Hpp. simpl.
    destruct (String.eqb_spec (itoa (PublishedPort p)) "") as [Hz|]; [|by apply Heq].
    rewrite Hz in Hpp. done.
Qed.

Lemma print_Ok p s : print p = Ok s ->
  Validate p = Ok tt /\
  ((valid_ingress p /\ s = join ":" (ingress_parts p) ++ "/" ++ Protocol p) \/
   (valid_host p /\ s = join ":" (host_parts p) ++ "/" ++ Protocol p ++ "@host")).
Proof.
  unfold print. destruct (Validate p) as [[]|] eqn:HV; [|done].
  pose proof (proj1 (Validate_iff p) HV) as [_ [Hv|Hv]]; pose proof (proj1 Hv) as ->; simpl;
    intros [= <-]; auto.
Qed.

Lemma print_valid p : Validate p = Ok tt -> exists s, print p = Ok s.
Proof.
  intros HV. unfold print. rewrite HV. apply Validate_iff in HV as [_ [Hv|Hv]];
    rewrite (proj1 Hv); simpl; eauto.
Qed.

Lemma print_Err p e : Validate p = Err e -> print p = Err e.
Proof. unfold print. by intros ->. Qed.

Lemma parse_print p s : roundtrips p = true -> print p = Ok s -> ParsePortSpec s = Ok p.
Proof.
  intros Hrt Hp. apply print_Ok in Hp as [HV [[Hv ->]|[Hv ->]]];
    apply Validate_iff in HV as [Hc _]; [by apply ingress_text|by apply host_text].
Qed.

Definition text (p : PortSpec) : string := match print p with Ok s => s | Err _ => "" end.

Lemma serialise_Some a b la lb : length a = length b ->
  serialise a b = Some (la, lb) <->
  Forall2 (fun p s => print p = Ok s) a la /\ Forall2 (fun p s => print p = Ok s) b lb.
Proof.
  revert b la lb; induction a as [|pa a IH]; intros [|pb b] la lb Hlen; try done; simpl.
  { split; [intros [= <- <-]; split; constructor|].
    intros [H1 H2]. inversion H1; inversion H2; by subst. }
  split.
  - destruct (print pa) as [sa|] eqn:Ha; [|done]. destruct (print pb) as [sb|] eqn:Hb; [|done].
    destruct (serialise a b) as [[la' lb']|] eqn:Hs; [|done]. intros [= <- <-].
    apply IH in Hs as [H1 H2]; [|by injection Hlen]. split; by constructor.
  - intros [H1 H2]. inversion H1 as [|? sa ? la' Ha Hla]; inversion H2 as [|? sb ? lb' Hb Hlb]; subst.
    rewrite Ha, Hb. by rewrite (proj2 (IH b la' lb' ltac:(by injection Hlen)) (conj Hla Hlb)).
Qed.

(** The printed texts of valid ports determine them. *)
Definition unprint (s : string) : option PortSpec :=
  match ParsePortSpec s with Ok p => Some p | Err _ => None end.

Lemma unprint_texts ps ss : Forall (fun p => roundtrips p = true) ps ->
  Forall2 (fun p s => print p = Ok s) ps ss -> omap unprint ss = ps.
Proof.
  intros Hrt Hf. induction Hf as [|p s ps ss Hp Hf IH]; [done|].
  apply Forall_cons in Hrt as [Hr Hrt].
  assert (Hu : unprint s = Some p) by (unfold unprint; by rewrite (parse_print p s Hr Hp)).
  transitivity (p :: omap unprint ss)%list; [simpl; by rewrite Hu|by rewrite IH].
Qed.

Lemma all_print ps : Forall (fun p => Validate p = Ok tt) ps <->
  exists ss, Forall2 (fun p s => print p = Ok s) ps ss.
Proof.
  split.
  - induction 1 as [|p ps Hp _ [ss Hss]]; [by exists []|].
    destruct (print_valid p Hp) as [s Hs]. exists (s :: ss)%list. by constructor.
  - intros [ss Hf]. induction Hf as [|p s ps ss Hp _ IH]; constructor; [|done].
    by apply print_Ok in Hp as [? _].
Qed.

(** ** Properties *)

(** C38: the flag syntax round trips: whatever port specification [String] prints,
    [ParsePortSpec] reads back as the same specification, in both modes, with or without
    hostname, host address, host prefix (IPv4 or bracketed IPv6) and published port.  The
    condition [roundtrips] is a decidable one on the fields: ports fit 16 bits, the hostname
    has no colon and at most one ['@'], and a host address is one whose own text parses
    back ([text_ok_4]: every IPv4 address is). *)
Theorem port_text_roundtrip (p : PortSpec) (s : string) :
  roundtrips p = true -> print p = Ok s -> ParsePortSpec s = Ok p.
Proof. apply parse_print. Qed.

Definition example_port : PortSpec :=
  mkPort "" (Addr6 338288524927261089654018896841347694593 "") NoPrefix 8443 443 ProtocolTCP PortModeHost.

Lemma port_text_roundtrip_witness :
  print example_port = Ok "[fe80::1]:8443:443/tcp@host" /\
  ParsePortSpec "[fe80::1]:8443:443/tcp@host" = Ok example_port.
Proof.
  split; [by vm_compute|]. apply port_text_roundtrip; by vm_compute.
Defined.

(** C40: the parser only returns valid specifications: its result passes [Validate], so the
    container port is set; in ingress mode there is no host address and a hostname comes
    with http or https and contains a dot; in host mode the published port is set, the
    protocol is tcp or udp, there is no hostname and at most one of host IP and host prefix;
    and [Validate] accepts nothing else. *)
Theorem ParsePortSpec_valid (s : string) (p : PortSpec) :
  ParsePortSpec s = Ok p ->
  Validate p = Ok tt /\ ContainerPort p <> 0%N /\ (valid_ingress p \/ valid_host p) /\
  (ContainerPort p < 2 ^ 16)%N /\ (PublishedPort p < 2 ^ 16)%N.
Proof.
  assert (Hfin : forall q sp p', finish_spec q sp = Ok p' ->
            Validate p' = Ok tt /\ ContainerPort p' = ContainerPort q /\ PublishedPort p' = PublishedPort q).
  { intros q sp p'. unfold finish_spec. repeat case_match; intros; simplify_eq; try done;
      match goal with H : Validate _ = Ok ?u |- _ => destruct u end; done. }
  intros Hp. assert (H : Validate p = Ok tt /\ (ContainerPort p < 2 ^ 16)%N /\ (PublishedPort p < 2 ^ 16)%N).
  { revert Hp. unfold ParsePortSpec, parsePort. repeat case_match; try done; intros Hf;
      apply Hfin in Hf as (? & -> & ->); simpl; split_and!; eauto using parse_uint_bound; done. }
  destruct H as (HV & H1 & H2). pose proof (proj1 (Validate_iff p) HV) as [? ?]. auto.
Qed.

Lemma ParsePortSpec_valid_witness :
  Validate (mkPort "app.example.com" NoAddr NoPrefix 8443 80 "https" "ingress") = Ok tt.
Proof.
  exact (proj1 (ParsePortSpec_valid "app.example.com:8443:80" _ ltac:(by vm_compute))).
Defined.

(** [PortsEqual] decides equality up to order: on specifications whose text determines
    them it answers true if and only if all of the first are valid and the second list is a
    permutation of the first (duplicates counted). *)
Lemma PortsEqual_permutation (a b : list PortSpec) :
  Forall (fun p => roundtrips p = true) (a ++ b) ->
  PortsEqual a b = true <-> Forall (fun p => Validate p = Ok tt) a /\ a ≡ₚ b.
Proof.
  intros [Hra Hrb]%Forall_app. unfold PortsEqual.
  destruct (Nat.eqb_spec (length a) (length b)) as [Hlen|Hlen]; simpl.
  2: { split; [done|]. by intros [_ ?%Permutation_length]. }
  split.
  - destruct (serialise a b) as [[la lb]|] eqn:Hs; [|done]. rewrite bool_decide_eq_true, sort_strings_eq.
    apply serialise_Some in Hs as [Ha Hb]; [|done]. intros Hp. split; [apply all_print; eauto|].
    rewrite <- (unprint_texts a la), <- (unprint_texts b lb) by done. by rewrite Hp.
  - intros [Hv Hp]. assert (Hvb : Forall (fun p => Validate p = Ok tt) b) by by rewrite <- Hp.
    destruct (proj1 (all_print a) Hv) as [la Ha], (proj1 (all_print b) Hvb) as [lb Hb].
    rewrite (proj2 (serialise_Some a b la lb Hlen) (conj Ha Hb)).
    apply bool_decide_eq_true_2, sort_strings_eq.
    assert (Htext : forall ps ss, Forall2 (fun p s => print p = Ok s) ps ss -> ss = map text ps).
    { induction 1 as [|p s ps ss Hps _ IH]; simpl; [done|]. unfold text. by rewrite Hps, IH. }
    rewrite (Htext a la Ha), (Htext b lb Hb). by apply Permutation_map.
Qed.

(** A hostname with a colon passes [Validate], and its specification is then printed like,
    and compares equal to, another one. *)
Example hostname_colon_ambiguous :
  let p := mkPort "a.example:8080" NoAddr NoPrefix 0 80 "http" "ingress" in
  let q := mkPort "a.example" NoAddr NoPrefix 8080 80 "http" "ingress" in
  Validate p = Ok tt /\ Validate q = Ok tt /\ p <> q /\ PortsEqual [p] [q] = true /\
  print p = Ok "a.example:8080:80/http" /\ ParsePortSpec "a.example:8080:80/http" = Ok q.
Proof. split_and!; try (by vm_compute); done. Qed.
