(* ===== verification/Volume.v ===== *)
(** * Volume: volume specifications and mounts, [pkg/api/volume.go]

    Optional pointers are options, slices and maps may be nil. Docker's own structures
    ([mount.Driver], [mount.TmpfsOptions], [volume.Volume]) are records of the fields the
    code reads. *)

From S2P Require Import Prelude GoStrings.
#[local] Open Scope string_scope.

Definition VolumeTypeBind := "bind".
Definition VolumeTypeVolume := "volume".
Definition VolumeTypeTmpfs := "tmpfs".
Definition VolumeDriverLocal := "local".

(** [mount.Driver] *)
Record Driver := mkDriver { driver_Name : string; driver_Options : gomap string }.

(** [mount.TmpfsOptions] *)
Record TmpfsOptions := mkTmpfs {
  SizeBytes : Z; tmpfs_Mode : Z; tmpfs_Options : slice (slice string)
}.

Record BindOptions := mkBind {
  HostPath : string; CreateHostPath : bool; Propagation : string; Recursive : string
}.

Record VolumeOptions := mkVolumeOptions {
  vopt_Driver : option Driver;
  vopt_Labels : gomap string;
  vopt_Name : string;
  NoCopy : bool;
  SubPath : string
}.

Record VolumeSpec := mkVolume {
  vol_Name : string;
  vol_Type : string;
  vol_Bind : option BindOptions;
  vol_Tmpfs : option TmpfsOptions;
  vol_Options : option VolumeOptions
}.

#[global] Instance Driver_eq_dec : EqDecision Driver.
Proof. solve_decision. Defined.
#[global] Instance TmpfsOptions_eq_dec : EqDecision TmpfsOptions.
Proof. solve_decision. Defined.
#[global] Instance BindOptions_eq_dec : EqDecision BindOptions.
Proof. solve_decision. Defined.
#[global] Instance VolumeOptions_eq_dec : EqDecision VolumeOptions.
Proof. solve_decision. Defined.
#[global] Instance VolumeSpec_eq_dec : EqDecision VolumeSpec.
Proof. solve_decision. Defined.

(** [volume.Volume]: the Docker volume as the engine reports it. *)
Record DockerVolume := mkDockerVolume {
  dv_Name : string; dv_Driver : string; dv_Labels : gomap string; dv_Options : gomap string
}.

(** ** Operations *)
Definition DockerVolumeName (v : VolumeSpec) : string :=
  if negb (String.eqb (vol_Type v) VolumeTypeVolume) then ""
  else match vol_Options v with
       | Some o => if negb (String.eqb (vopt_Name o) "") then vopt_Name o else vol_Name v
       | None => vol_Name v
       end.

Definition clone_driver (d : Driver) : Driver := mkDriver (driver_Name d) (clone_map (driver_Options d)).

Definition clone_volume_options (o : VolumeOptions) : VolumeOptions :=
  mkVolumeOptions (clone_driver <$> vopt_Driver o) (clone_map (vopt_Labels o)) (vopt_Name o)
    (NoCopy o) (SubPath o).

(** [make([][]string, len(...))] is not nil even when the original is. *)
Definition clone_tmpfs (o : TmpfsOptions) : TmpfsOptions :=
  mkTmpfs (SizeBytes o) (tmpfs_Mode o) (Some (map (fun opt => Some (els opt)) (els (tmpfs_Options o)))).

Definition Clone (v : VolumeSpec) : VolumeSpec :=
  mkVolume (vol_Name v) (vol_Type v) (vol_Bind v) (clone_tmpfs <$> vol_Tmpfs v)
    (clone_volume_options <$> vol_Options v).

Definition default_driver (d : Driver) : Driver :=
  if String.eqb (driver_Name d) "" then mkDriver VolumeDriverLocal (driver_Options d) else d.

Definition default_volume_options (name : string) (o : option VolumeOptions) : VolumeOptions :=
  let o := default (mkVolumeOptions None None "" false "") o in
  mkVolumeOptions (default_driver <$> vopt_Driver o) (vopt_Labels o)
    (if String.eqb (vopt_Name o) "" then name else vopt_Name o) (NoCopy o) (SubPath o).

Definition SetDefaults (v : VolumeSpec) : VolumeSpec :=
  let spec := Clone v in
  if String.eqb (vol_Type spec) VolumeTypeVolume
  then mkVolume (vol_Name spec) (vol_Type spec) (vol_Bind spec) (vol_Tmpfs spec)
         (Some (default_volume_options (vol_Name spec) (vol_Options spec)))
  else spec.

Inductive volume_error :=
| VolumeNameEmpty | BindOptionsMissing | VolumeTypeInvalid (type : string).

Definition Validate (v : VolumeSpec) : result volume_error unit :=
  if String.eqb (vol_Name v) "" then Err VolumeNameEmpty
  else if String.eqb (vol_Type v) VolumeTypeBind then
    match vol_Bind v with None => Err BindOptionsMissing | Some _ => Ok tt end
  else if String.eqb (vol_Type v) VolumeTypeVolume || String.eqb (vol_Type v) VolumeTypeTmpfs
  then Ok tt
  else Err (VolumeTypeInvalid (vol_Type v)).

(** *** Structural comparison *)
#[export] Instance norm_string : EquateEmpty string := id.
#[export] Instance norm_Driver : EquateEmpty Driver := fun d =>
  mkDriver (driver_Name d) (norm_map id (driver_Options d)).
#[export] Instance norm_VolumeOptions : EquateEmpty VolumeOptions := fun o =>
  mkVolumeOptions (norm <$> vopt_Driver o) (norm_map id (vopt_Labels o)) (vopt_Name o) (NoCopy o) (SubPath o).
#[export] Instance norm_TmpfsOptions : EquateEmpty TmpfsOptions := fun o =>
  mkTmpfs (SizeBytes o) (tmpfs_Mode o) (norm_slice (norm_slice id) (tmpfs_Options o)).
#[export] Instance norm_VolumeSpec : EquateEmpty VolumeSpec := fun v =>
  mkVolume (vol_Name v) (vol_Type v) (vol_Bind v) (norm <$> vol_Tmpfs v) (norm <$> vol_Options v).

Definition Equals `{GoCmp} (v other : VolumeSpec) : bool :=
  cmp_equal (SetDefaults v) (SetDefaults other).

(** [reflect.DeepEqual] on two maps: a nil and an empty map differ. *)
Definition deep_equal_map (m1 m2 : gomap string) : bool := bool_decide (m1 = m2).

Definition MatchesDockerVolume (v : VolumeSpec) (vol : DockerVolume) : bool :=
  if negb (String.eqb (vol_Type v) VolumeTypeVolume) then false
  else
    let spec := SetDefaults v in
    if negb (String.eqb (DockerVolumeName spec) (dv_Name vol)) then false
    else match vol_Options spec ≫= vopt_Driver with
         | Some d =>
             let volDriver := if String.eqb (dv_Driver vol) "" then VolumeDriverLocal else dv_Driver vol in
             if negb (String.eqb (driver_Name d) volDriver) then false
             else deep_equal_map (driver_Options d) (dv_Options vol)
         | None => true
         end.

(** ** Volume mounts *)
Record VolumeMount := mkMount { VolumeName : string; ContainerPath : string; ReadOnly : bool }.

#[global] Instance VolumeMount_eq_dec : EqDecision VolumeMount.
Proof. solve_decision. Defined.

Inductive mount_error := MountVolumeNameEmpty | MountPathNotAbsolute (path : string).

Definition validateMount (m : VolumeMount) : result mount_error unit :=
  if String.eqb (VolumeName m) "" then Err MountVolumeNameEmpty
  else if negb (has_prefix "/" (ContainerPath m)) then Err (MountPathNotAbsolute (ContainerPath m))
  else Ok tt.

Definition mount_less (a b : VolumeMount) : bool :=
  if negb (String.eqb (VolumeName a) (VolumeName b)) then String.ltb (VolumeName a) (VolumeName b)
  else if negb (String.eqb (ContainerPath a) (ContainerPath b))
  then String.ltb (ContainerPath a) (ContainerPath b)
  else if negb (Bool.eqb (ReadOnly a) (ReadOnly b)) then negb (ReadOnly a)
  else false.

Definition sortVolumeMounts `{GoSort} (mounts : list VolumeMount) : list VolumeMount :=
  sort_slice mount_less mounts.

(** ** Volumes of the machines *)
Record MachineVolume := mkMachineVolume {
  mv_MachineID : string; mv_MachineName : string; mv_Volume : DockerVolume
}.

Record VolumeFilter := mkVolumeFilter {
  f_Driver : string; f_Labels : gomap string; f_Machines : slice string; f_Names : slice string
}.

Definition contains_string (l : list string) (s : string) : bool := existsb (String.eqb s) l.

(** Whether the labels agree does not depend on the order the map is visited in. *)
Definition labels_match (wanted have : gomap string) : bool :=
  bool_decide (map_Forall (fun k v => entries have !! k = Some v) (entries wanted)).

Definition MatchesFilter (v : MachineVolume) (filter : option VolumeFilter) : bool :=
  match filter with
  | None => true
  | Some f =>
      if Nat.ltb 0 (length (els (f_Names f))) && negb (contains_string (els (f_Names f)) (dv_Name (mv_Volume v)))
      then false
      else if negb (String.eqb (f_Driver f) "") && negb (String.eqb (dv_Driver (mv_Volume v)) (f_Driver f))
      then false
      else if negb (labels_match (f_Labels f) (dv_Labels (mv_Volume v))) then false
      else if Nat.ltb 0 (length (els (f_Machines f))) &&
              negb (existsb (fun m => String.eqb (mv_MachineName v) m || String.eqb (mv_MachineID v) m)
                      (els (f_Machines f)))
      then false
      else true
  end.

(** ** Lemmas *)
Lemma mount_less_lex a b :
  mount_less a b = lex_less VolumeName String.ltb (lex_less ContainerPath String.ltb
    (lex_less ReadOnly (fun x y => negb x && y) (fun _ _ => false))) a b.
Proof.
  unfold mount_less, lex_less. rewrite !eqb_decide. destruct (decide _); [|done].
  destruct (decide _); [|done]. by destruct (ReadOnly a), (ReadOnly b).
Qed.

Lemma bool_total : total_less (fun x y => negb x && y).
Proof.
  split; [split_and!|]; intros [] *; try destruct y; try destruct z; simpl; auto; done.
Qed.

Lemma mount_total : total_less mount_less.
Proof.
  assert (Hext : forall (l1 l2 : VolumeMount -> VolumeMount -> bool),
            (forall a b, l1 a b = l2 a b) -> total_less l2 -> total_less l1).
  { intros l1 l2 He [(H1 & H2 & H3) H4]. split; [split_and!|]; intros *; rewrite ?He; eauto. }
  eapply Hext; [apply mount_less_lex|]. split.
  - repeat apply lex_less_weak; auto using string_total, bool_total, strict_weak_false.
  - intros a b H1 H2. destruct (lex_less_total _ _ _ _ _ string_total H1 H2) as (En & H3 & H4).
    destruct (lex_less_total _ _ _ _ _ string_total H3 H4) as (Ep & H5 & H6).
    destruct (lex_less_total _ _ _ _ _ bool_total H5 H6) as (Er & _).
    destruct a, b; simpl in *; congruence.
Qed.

(** Two lists of mounts are sorted alike exactly when they are the same up to order. *)
Lemma sortVolumeMounts_eq `{GoSort} l1 l2 :
  sortVolumeMounts l1 = sortVolumeMounts l2 <-> l1 ≡ₚ l2.
Proof. apply sort_slice_unique; apply mount_total. Qed.

Lemma clone_volume_options_eq o : clone_volume_options o = o.
Proof.
  unfold clone_volume_options, clone_driver. destruct o as [[[n os]|] ls n' c s]; simpl;
    by rewrite ?clone_map_eq.
Qed.

Lemma fmap_clone_volume_options (o : option VolumeOptions) : clone_volume_options <$> o = o.
Proof. destruct o; simpl; by rewrite ?clone_volume_options_eq. Qed.

Lemma clone_tmpfs_idem o : clone_tmpfs (clone_tmpfs o) = clone_tmpfs o.
Proof. unfold clone_tmpfs. simpl. f_equal. f_equal. by rewrite map_map. Qed.

Lemma norm_clone_tmpfs o : norm (clone_tmpfs o) = norm o.
Proof.
  unfold norm, norm_TmpfsOptions, clone_tmpfs. destruct o as [s m [l|]]; simpl; [|done]. f_equal.
  assert (Hm : map (norm_slice id) (map (fun opt => Some (els opt)) l) = map (norm_slice id) l).
  { rewrite map_map. apply map_ext. by intros [[|x xs]|]. }
  destruct l as [|x l]; [done|]. cbn [map norm_slice] in *. by rewrite Hm.
Qed.

Lemma Clone_idem v : Clone (Clone v) = Clone v.
Proof.
  unfold Clone. destruct v as [n t b [tm|] [o|]]; simpl;
    by rewrite ?clone_tmpfs_idem, ?clone_volume_options_eq.
Qed.

Lemma norm_Clone v : norm (Clone v) = norm v.
Proof.
  unfold norm, norm_VolumeSpec, Clone. destruct v as [n t b [tm|] [o|]]; simpl; do 2 f_equal;
    by rewrite ?norm_clone_tmpfs, ?clone_volume_options_eq.
Qed.

Lemma default_driver_idem d : default_driver (default_driver d) = default_driver d.
Proof.
  unfold default_driver. destruct (String.eqb_spec (driver_Name d) "") as [|Hn]; simpl; [done|].
  by rewrite (proj2 (String.eqb_neq _ _) Hn).
Qed.

Lemma default_volume_options_idem n o :
  default_volume_options n (Some (default_volume_options n o)) = default_volume_options n o.
Proof.
  unfold default_volume_options. simpl. f_equal.
  - destruct (default _ o) as [[d|]]; simpl; by rewrite ?default_driver_idem.
  - destruct (String.eqb_spec (vopt_Name (default (mkVolumeOptions None None "" false "") o)) ""); simpl.
    + by destruct (String.eqb n "").
    + by rewrite (proj2 (String.eqb_neq _ _)).
Qed.

Lemma SetDefaults_idem v : SetDefaults (SetDefaults v) = SetDefaults v.
Proof.
  unfold SetDefaults. simpl. destruct (String.eqb_spec (vol_Type v) VolumeTypeVolume) as [Ht|Ht].
  - unfold Clone at 1. simpl. rewrite Ht. simpl. f_equal.
    + destruct (vol_Tmpfs v); simpl; by rewrite ?clone_tmpfs_idem.
    + change (mkVolumeOptions _ _ _ _ _) with
        (clone_volume_options (default_volume_options (vol_Name v) (clone_volume_options <$> vol_Options v))).
      by rewrite clone_volume_options_eq, default_volume_options_idem.
  - rewrite Clone_idem. simpl. by rewrite (proj2 (String.eqb_neq _ _) Ht).
Qed.

Lemma SetDefaults_volume v : vol_Type v = VolumeTypeVolume ->
  exists o, vol_Options (SetDefaults v) = Some o /\ vopt_Name o = DockerVolumeName v /\
    vopt_Driver o = default_driver <$> (vol_Options v ≫= vopt_Driver).
Proof.
  intros Ht. unfold SetDefaults, DockerVolumeName. simpl. rewrite Ht. simpl. eexists; split; [done|].
  rewrite fmap_clone_volume_options. split; simpl.
  - destruct (vol_Options v) as [o|]; simpl; [|done]. by destruct (String.eqb (vopt_Name o) "").
  - by destruct (vol_Options v).
Qed.

Lemma SetDefaults_DockerVolumeName v : DockerVolumeName (SetDefaults v) = DockerVolumeName v.
Proof.
  destruct (decide (vol_Type v = VolumeTypeVolume)) as [Ht|Ht].
  - destruct (SetDefaults_volume v Ht) as (o & Ho & Hn & _). unfold DockerVolumeName at 1.
    assert (Hd : vol_Type (SetDefaults v) = vol_Type v /\ vol_Name (SetDefaults v) = vol_Name v)
      by (unfold SetDefaults; simpl; by destruct (String.eqb _ _)).
    destruct Hd as [-> ->]. rewrite Ho, Ht, Hn. simpl.
    destruct (String.eqb_spec (DockerVolumeName v) "") as [He|]; [|done]. simpl.
    unfold DockerVolumeName in *. rewrite Ht in *. simpl in *.
    destruct (vol_Options v) as [o'|]; [|done]. by destruct (String.eqb_spec (vopt_Name o') "").
  - unfold DockerVolumeName, SetDefaults. simpl. apply String.eqb_neq in Ht. by rewrite Ht; simpl; rewrite Ht.
Qed.

Lemma Equals_spec `{GoCmp} v w :
  Equals v w = true <-> norm (SetDefaults v) = norm (SetDefaults w).
Proof. apply cmp_equal_spec. Qed.

(** ** Properties *)

(** Setting the defaults of a volume is a normalisation: it is idempotent, keeps the
    validity of the specification and the Docker volume it names, makes that name explicit
    for named volumes (so the later dereference of [VolumeOptions] cannot fail), and two
    volumes are equal in the sense of [Equals] exactly when their normal forms agree, in
    particular a volume equals its own normal form and its clone. *)
Lemma volume_defaults `{GoCmp} (v w : VolumeSpec) :
  SetDefaults (SetDefaults v) = SetDefaults v /\
  Validate (SetDefaults v) = Validate v /\
  DockerVolumeName (SetDefaults v) = DockerVolumeName v /\
  (vol_Type v = VolumeTypeVolume ->
     exists o, vol_Options (SetDefaults v) = Some o /\ vopt_Name o = DockerVolumeName v) /\
  Equals v (SetDefaults v) = true /\ Equals v (Clone v) = true /\
  (Equals v w = true <-> norm (SetDefaults v) = norm (SetDefaults w)).
Proof.
  split_and!.
  - apply SetDefaults_idem.
  - unfold SetDefaults. cbn [vol_Type Clone]. by destruct (String.eqb (vol_Type v) VolumeTypeVolume).
  - apply SetDefaults_DockerVolumeName.
  - intros Ht. destruct (SetDefaults_volume v Ht) as (o & Ho & Hn & _). eauto.
  - by rewrite Equals_spec, SetDefaults_idem.
  - rewrite Equals_spec. unfold SetDefaults. by rewrite Clone_idem.
  - apply Equals_spec.
Qed.

(** A volume specification matches a Docker volume exactly when it is a named volume,
    the names agree and, if it asks for a driver, driver (local by default on both sides)
    and driver options agree; the options are compared as Go values, so nil options do not
    match an empty map. *)
Lemma MatchesDockerVolume_spec (v : VolumeSpec) (vol : DockerVolume) :
  MatchesDockerVolume v vol = true <->
  vol_Type v = VolumeTypeVolume /\ DockerVolumeName v = dv_Name vol /\
  forall d, vol_Options v ≫= vopt_Driver = Some d ->
    driver_Options d = dv_Options vol /\
    (if String.eqb (driver_Name d) "" then VolumeDriverLocal else driver_Name d) =
    (if String.eqb (dv_Driver vol) "" then VolumeDriverLocal else dv_Driver vol).
Proof.
  unfold MatchesDockerVolume.
  destruct (String.eqb_spec (vol_Type v) VolumeTypeVolume) as [Ht|Ht]; simpl; [|naive_solver].
  rewrite SetDefaults_DockerVolumeName.
  destruct (String.eqb_spec (DockerVolumeName v) (dv_Name vol)) as [Hn|Hn]; simpl; [|naive_solver].
  destruct (SetDefaults_volume v Ht) as (o & -> & _ & Hd). simpl. rewrite Hd.
  destruct (vol_Options v ≫= vopt_Driver) as [d|]; simpl; [|naive_solver].
  unfold default_driver, deep_equal_map.
  set (vd := if String.eqb (dv_Driver vol) "" then VolumeDriverLocal else dv_Driver vol).
  assert (Hcase : forall n os, (if negb (String.eqb n vd) then false else bool_decide (os = dv_Options vol)) = true
            <-> n = vd /\ os = dv_Options vol).
  { intros n os. destruct (String.eqb_spec n vd); simpl; rewrite ?bool_decide_eq_true; naive_solver. }
  set (dn := if String.eqb (driver_Name d) "" then VolumeDriverLocal else driver_Name d).
  transitivity (dn = vd /\ driver_Options d = dv_Options vol).
  - subst dn. destruct (String.eqb (driver_Name d) ""); apply Hcase.
  - split; [|intros (_ & _ & Hall); by destruct (Hall d eq_refl)].
    intros [Hdn Hdo]. split_and!; [done|done|]. by intros d0 [= <-].
Qed.

Example nil_options_do_not_match_empty :
  MatchesDockerVolume
    (mkVolume "data" "volume" None None (Some (mkVolumeOptions (Some (mkDriver "local" None)) None "" false "")))
    (mkDockerVolume "data" "local" None (Some ∅)) = false.
Proof. reflexivity. Qed.
