(* ===== verification/ConfigSpec.v ===== *)
(** * ConfigSpec: config objects and their mounts, [pkg/api/config.go]

    A config's content is a byte string, nil or not; a mount names a config, a path, the
    numeric owner as text and an optional file mode. *)

From S2P Require Import Prelude GoStrings Volume.
#[local] Open Scope string_scope.

Record ConfigSpec := mkConfig { cfg_Name : string; cfg_Content : option string }.

Record ConfigMount := mkConfigMount {
  cm_ConfigName : string;
  cm_ContainerPath : string;
  cm_Uid : string;
  cm_Gid : string;
  cm_Mode : option Z
}.

#[global] Instance ConfigSpec_eq_dec : EqDecision ConfigSpec.
Proof. solve_decision. Defined.
#[global] Instance ConfigMount_eq_dec : EqDecision ConfigMount.
Proof. solve_decision. Defined.

Inductive config_error :=
| ConfigNameMissing
| MountSourceMissing
| UidInvalid (s : string) (e : NumError)
| UidTooHigh (s : string)
| GidInvalid (s : string) (e : NumError)
| GidTooHigh (s : string)
| ConfigPathNotAbsolute
| InvalidConfig (e : config_error)
| DuplicateConfig (name : string)
| InvalidConfigMount (e : config_error)
| UnknownConfig (name : string).

Definition validateConfig (c : ConfigSpec) : result config_error unit :=
  if String.eqb (cfg_Name c) "" then Err ConfigNameMissing else Ok tt.

(** [bytes.Equal]: a nil argument is an empty one. *)
Definition config_Equals (c other : ConfigSpec) : bool :=
  String.eqb (cfg_Name c) (cfg_Name other) &&
  String.eqb (default "" (cfg_Content c)) (default "" (cfg_Content other)).

(** [GetNumericUid] and [GetNumericGid] differ in the field and in the error text. *)
Definition numeric (s : string) (invalid : NumError -> config_error) (high : config_error) :
  result config_error (option N) :=
  if String.eqb s "" then Ok None
  else match parse_uint 64 s with
       | Err e => Err (invalid e)
       | Ok n => if (int64_of_uint64 (Z.of_N n) <? 0)%Z then Err high else Ok (Some n)
       end.

Definition GetNumericUid (c : ConfigMount) : result config_error (option N) :=
  numeric (cm_Uid c) (UidInvalid (cm_Uid c)) (UidTooHigh (cm_Uid c)).
Definition GetNumericGid (c : ConfigMount) : result config_error (option N) :=
  numeric (cm_Gid c) (GidInvalid (cm_Gid c)) (GidTooHigh (cm_Gid c)).

Definition validateConfigMount (c : ConfigMount) : result config_error unit :=
  if String.eqb (cm_ConfigName c) "" then Err MountSourceMissing
  else match GetNumericUid c with
       | Err e => Err e
       | Ok _ =>
           match GetNumericGid c with
           | Err e => Err e
           | Ok _ =>
               if negb (String.eqb (cm_ContainerPath c) "") && negb (has_prefix "/" (cm_ContainerPath c))
               then Err ConfigPathNotAbsolute else Ok tt
           end
       end.

Definition compare_string (s1 s2 : string) : Z := if String.ltb s1 s2 then (-1)%Z else 1%Z.

Definition Compare (c other : ConfigMount) : Z :=
  if negb (String.eqb (cm_ConfigName c) (cm_ConfigName other))
  then compare_string (cm_ConfigName c) (cm_ConfigName other)
  else if negb (String.eqb (cm_ContainerPath c) (cm_ContainerPath other))
  then compare_string (cm_ContainerPath c) (cm_ContainerPath other)
  else if negb (String.eqb (cm_Uid c) (cm_Uid other)) then compare_string (cm_Uid c) (cm_Uid other)
  else if negb (String.eqb (cm_Gid c) (cm_Gid other)) then compare_string (cm_Gid c) (cm_Gid other)
  else match cm_Mode c, cm_Mode other with
       | None, Some _ => -1
       | Some _, None => 1
       | Some m, Some m' => if m <? m' then -1 else if m' <? m then 1 else 0
       | None, None => 0
       end%Z.

Definition mount_Equals (c other : ConfigMount) : bool := (Compare c other =? 0)%Z.

Definition config_less (a b : ConfigMount) : bool := (Compare a b <? 0)%Z.

Definition sortConfigMounts `{GoSort} (mounts : list ConfigMount) : list ConfigMount :=
  sort_slice config_less mounts.

(** The loop over the configs collects their names. *)
Fixpoint config_names (configs : list ConfigSpec) (names : gset string) : result config_error (gset string) :=
  match configs with
  | [] => Ok names
  | c :: rest =>
      match validateConfig c with
      | Err e => Err (InvalidConfig e)
      | Ok _ => if decide (cfg_Name c ∈ names) then Err (DuplicateConfig (cfg_Name c))
                else config_names rest ({[cfg_Name c]} ∪ names)
      end
  end.

Definition ValidateConfigsAndMounts (configs : list ConfigSpec) (mounts : list ConfigMount) :
  result config_error unit :=
  match config_names configs ∅ with
  | Err e => Err e
  | Ok names =>
      each_ok (fun m =>
        match validateConfigMount m with
        | Err e => Err (InvalidConfigMount e)
        | Ok _ => if decide (cm_ConfigName m ∈ names) then Ok tt else Err (UnknownConfig (cm_ConfigName m))
        end) mounts
  end.

(** ** Lemmas *)
Definition mode_less (m1 m2 : option Z) : bool :=
  match m1, m2 with
  | None, Some _ => true
  | Some x, Some y => (x <? y)%Z
  | _, _ => false
  end.

Lemma mode_total : total_less mode_less.
Proof.
  split; [split_and!|].
  - intros [x|]; simpl; [|done]. apply Z.ltb_irrefl.
  - intros [x|] [y|] [z|]; simpl; rewrite ?Z.ltb_lt; try done; lia.
  - intros [x|] [y|] [z|]; simpl; rewrite ?Z.ltb_lt; auto; lia.
  - intros [x|] [y|]; simpl; rewrite ?Z.ltb_ge; try done. intros. f_equal. lia.
Qed.

Definition config_lex : ConfigMount -> ConfigMount -> bool :=
  lex_less cm_ConfigName String.ltb (lex_less cm_ContainerPath String.ltb
    (lex_less cm_Uid String.ltb (lex_less cm_Gid String.ltb
      (lex_less cm_Mode mode_less (fun _ _ => false))))).

Lemma compare_string_sign s1 s2 : (compare_string s1 s2 <? 0)%Z = String.ltb s1 s2.
Proof. unfold compare_string. by destruct (String.ltb s1 s2). Qed.

Lemma config_less_lex a b : config_less a b = config_lex a b.
Proof.
  unfold config_less, Compare, config_lex, lex_less. rewrite !eqb_decide.
  repeat (destruct (decide (_ = _ :> string)); [|apply compare_string_sign]).
  destruct (cm_Mode a) as [x|], (cm_Mode b) as [y|]; simpl; try by repeat case_decide.
  destruct (Z.ltb_spec x y), (Z.ltb_spec y x); case_decide; simplify_eq; simpl; try done; try lia.
Qed.

Lemma config_lex_total : total_less config_lex.
Proof.
  split.
  - repeat apply lex_less_weak; auto using string_total, mode_total, strict_weak_false.
  - intros a b H1 H2.
    destruct (lex_less_total _ _ _ _ _ string_total H1 H2) as (E1 & H3 & H4).
    destruct (lex_less_total _ _ _ _ _ string_total H3 H4) as (E2 & H5 & H6).
    destruct (lex_less_total _ _ _ _ _ string_total H5 H6) as (E3 & H7 & H8).
    destruct (lex_less_total _ _ _ _ _ string_total H7 H8) as (E4 & H9 & H10).
    destruct (lex_less_total _ _ _ _ _ mode_total H9 H10) as (E5 & _).
    destruct a, b; simpl in *; congruence.
Qed.

Lemma config_less_total : total_less config_less.
Proof.
  destruct config_lex_total as [(H1 & H2 & H3) H4].
  split; [split_and!|]; intros *; rewrite ?config_less_lex; eauto.
Qed.

Lemma sortConfigMounts_eq `{GoSort} l1 l2 : sortConfigMounts l1 = sortConfigMounts l2 <-> l1 ≡ₚ l2.
Proof. apply sort_slice_unique; apply config_less_total. Qed.

Lemma Compare_antisym a b : Compare a b = (- Compare b a)%Z.
Proof.
  unfold Compare. rewrite !eqb_decide.
  assert (Hs : forall s1 s2, s1 <> s2 -> compare_string s1 s2 = (- compare_string s2 s1)%Z).
  { intros s1 s2 Hne. unfold compare_string.
    destruct string_total as [(Hi & Ht & _) Htot].
    destruct (String.ltb s1 s2) eqn:H1, (String.ltb s2 s1) eqn:H2; try done.
    - specialize (Ht _ _ _ H1 H2). by rewrite Hi in Ht.
    - by destruct Hne; apply Htot. }
  assert (Hkey : forall (f : ConfigMount -> string) x y, x = (- y)%Z ->
    (if decide (f a = f b) then x else compare_string (f a) (f b)) =
    (- (if decide (f b = f a) then y else compare_string (f b) (f a)))%Z).
  { intros f x y Hxy. destruct (decide (f a = f b)).
    - by rewrite decide_True by congruence.
    - rewrite decide_False by congruence. by apply Hs. }
  do 4 apply Hkey.
  destruct (cm_Mode a) as [x|], (cm_Mode b) as [y|]; simpl; try done.
  destruct (Z.ltb_spec x y), (Z.ltb_spec y x); try done; lia.
Qed.

Lemma Compare_range a b : Compare a b = (-1)%Z \/ Compare a b = 0%Z \/ Compare a b = 1%Z.
Proof. unfold Compare, compare_string. repeat case_match; auto. Qed.

Lemma config_names_Ok configs acc names :
  config_names configs acc = Ok names <->
  Forall (fun c => cfg_Name c <> "") configs /\ NoDup (map cfg_Name configs) /\
  (forall c, c ∈ configs -> cfg_Name c ∉ acc) /\
  names = list_to_set (map cfg_Name configs) ∪ acc.
Proof.
  revert acc; induction configs as [|c configs IH]; intros acc; simpl.
  - split; [intros [= <-]; split_and!; [done|constructor|set_solver|set_solver]|].
    intros (_ & _ & _ & ->). f_equal. set_solver.
  - unfold validateConfig. rewrite Forall_cons, NoDup_cons.
    destruct (String.eqb_spec (cfg_Name c) "") as [Hc|Hc]; [naive_solver|].
    case_decide as Hin.
    + split; [done|]. intros (_ & _ & Hn & _). exfalso. eapply Hn; [|done]. left.
    + rewrite IH. setoid_rewrite list_elem_of_fmap. split.
      * intros (Hf & Hnd & Hn & ->). split_and!; try done.
        -- intros (x & Hx & Hxin). specialize (Hn x Hxin). set_solver.
        -- intros x [->|Hx]%elem_of_cons; [done|]. specialize (Hn x Hx). set_solver.
        -- set_solver.
      * intros ([_ Hf] & [Hnin Hnd] & Hn & ->). split_and!; try done.
        -- intros x Hx. apply not_elem_of_union. split; [|apply Hn; set_solver].
           rewrite not_elem_of_singleton. intros E. apply Hnin. eauto.
        -- set_solver.
Qed.

(** Configs and mounts are accepted exactly when every config has a name of its own and every
    mount is valid and names one of them. *)
Lemma ValidateConfigsAndMounts_Ok (configs : list ConfigSpec) (mounts : list ConfigMount) :
  ValidateConfigsAndMounts configs mounts = Ok tt <->
  Forall (fun c => cfg_Name c <> "") configs /\ NoDup (map cfg_Name configs) /\
  Forall (fun m => validateConfigMount m = Ok tt /\ cm_ConfigName m ∈ map cfg_Name configs) mounts.
Proof.
  unfold ValidateConfigsAndMounts. destruct (config_names configs ∅) as [names|e] eqn:Hn.
  - apply config_names_Ok in Hn as (Hne & Hnd & _ & ->). rewrite each_ok_Ok.
    split; [intros Hm; split_and!; [done|done|]|intros (_ & _ & Hm)];
      (eapply Forall_impl; [exact Hm|]); intros m; cbn.
    + destruct (validateConfigMount m) as [[]|]; [|done]. case_decide as Hin; [|done]. intros _.
      split; [done|]. by rewrite union_empty_r_L, elem_of_list_to_set in Hin.
    + intros [-> Hin]. rewrite decide_True; [done|]. by rewrite union_empty_r_L, elem_of_list_to_set.
  - split; [done|]. intros (Hne & Hnd & _).
    pose proof (proj2 (config_names_Ok configs ∅ _)
      (conj Hne (conj Hnd (conj (fun c _ => not_elem_of_empty _) eq_refl)))). congruence.
Qed.

(** ** Properties *)

(** [Compare] is a total order on config mounts: it returns -1, 0 or 1, is 0 exactly
    on equal mounts, changes sign with its arguments and is transitive; so sorting brings
    any two permutations of the same mounts, and no others, into the same sequence. *)
Lemma Compare_total_order `{GoSort} (a b c : ConfigMount) (l1 l2 : list ConfigMount) :
  (Compare a b = -1 \/ Compare a b = 0 \/ Compare a b = 1)%Z /\
  (mount_Equals a b = true <-> a = b) /\ Compare a b = (- Compare b a)%Z /\
  ((Compare a b < 0)%Z -> (Compare b c < 0)%Z -> (Compare a c < 0)%Z) /\
  (sortConfigMounts l1 = sortConfigMounts l2 <-> l1 ≡ₚ l2).
Proof.
  destruct config_less_total as [(Hi & Ht & _) Htot]. split_and!.
  - apply Compare_range.
  - unfold mount_Equals. rewrite Z.eqb_eq. split.
    + intros He. pose proof (Compare_antisym a b).
      apply Htot; unfold config_less; apply Z.ltb_ge; lia.
    + intros ->. pose proof (Compare_antisym b b). lia.
  - apply Compare_antisym.
  - rewrite <- !Z.ltb_lt. apply Ht.
  - apply sortConfigMounts_eq.
Qed.

