(* ===== verification/Spec.v ===== *)
(** * Spec: service and container specifications, [pkg/api/service.go]

    The desired state of a service: its container, ports, volumes, configs, placement
    and update policy, with defaults, validation and comparison.  Image references are
    parsed by a library, of which the code only uses whether it succeeds. *)

From S2P Require Import Prelude GoStrings NetAddr Port Volume ConfigSpec.
#[local] Open Scope string_scope.

Definition ServiceModeReplicated := "replicated".
Definition ServiceModeGlobal := "global".
Definition UpdateOrderStartFirst := "start-first".
Definition UpdateOrderStopFirst := "stop-first".
Definition PullPolicyAlways := "always".
Definition PullPolicyMissing := "missing".
Definition PullPolicyNever := "never".

(** ** Regular expressions *)
Definition char_in (lo hi : nat) (c : ascii) : bool :=
  Nat.leb lo (nat_of_ascii c) && Nat.leb (nat_of_ascii c) hi.
Definition is_digit_char := char_in 48 57.
Definition is_hex_char (c : ascii) : bool := is_digit_char c || char_in 97 102 c.
Definition is_label_char (c : ascii) : bool := is_digit_char c || char_in 97 122 c.

Definition all_chars (P : ascii -> bool) (s : string) : bool :=
  forallb P (String.list_ascii_of_string s).

(** [^[0-9a-f]{32}$] *)
Definition ValidateServiceID (id : string) : bool :=
  Nat.eqb (String.length id) 32 && all_chars is_hex_char id.

(** [[a-z0-9]$] after any number of [[-a-z0-9]]. *)
Fixpoint label_tail (s : string) : bool :=
  match s with
  | "" => false
  | String c "" => is_label_char c
  | String c s' => (is_label_char c || Ascii.eqb c "-") && label_tail s'
  end.

(** [^[a-z0-9]([-a-z0-9]*[a-z0-9])?$] *)
Definition dns_label (s : string) : bool :=
  match s with
  | "" => false
  | String c "" => is_label_char c
  | String c s' => is_label_char c && label_tail s'
  end.

(** ** Data *)
Record CaddySpec := mkCaddy { caddy_Config : string }.

Record HealthcheckSpec := mkHealthcheck {
  hc_Test : slice string;
  hc_Interval : Z; hc_Timeout : Z; hc_StartPeriod : Z; hc_StartInterval : Z;
  hc_Retries : N;
  hc_Disable : bool
}.

Record LogDriver := mkLogDriver { log_Name : string; log_Options : gomap string }.

Record DeviceMapping := mkDevice {
  dev_HostPath : string; dev_ContainerPath : string; dev_CgroupPermissions : string
}.

(** [container.DeviceRequest] of the Docker API. *)
Record DeviceRequest := mkDeviceRequest {
  dr_Driver : string; dr_Count : Z; dr_DeviceIDs : slice string;
  dr_Capabilities : slice (slice string); dr_Options : gomap string
}.

Record Ulimit := mkUlimit { ul_Soft : Z; ul_Hard : Z }.

Record ContainerResources := mkResources {
  CPU : Z; Memory : Z; MemoryReservation : Z;
  Devices : slice DeviceMapping;
  DeviceReservations : slice DeviceRequest;
  SharedMemory : Z;
  Ulimits : gomap Ulimit
}.

Record ContainerSpec := mkContainerSpec {
  CapAdd : slice string;
  CapDrop : slice string;
  Command : slice string;
  Entrypoint : slice string;
  Env : gomap string;
  Healthcheck : option HealthcheckSpec;
  Image : string;
  Init : option bool;
  LogDriver_ : option LogDriver;
  PidMode : string;
  Tty : bool;
  OpenStdin : bool;
  Privileged : bool;
  PullPolicy : string;
  Resources : ContainerResources;
  StopGracePeriod : option Z;
  Sysctls : gomap string;
  User : string;
  VolumeMounts : slice VolumeMount;
  ConfigMounts : slice ConfigMount;
  CVolumes : slice string
}.

Record PreDeployHook := mkHook {
  hook_Command : slice string;
  hook_Env : gomap string;
  hook_Privileged : option bool;
  hook_Timeout : option Z;
  hook_User : string
}.

Record UpdateConfig := mkUpdateConfig { Order : string; MonitorPeriod : option Z }.

Record Placement := mkPlacement { Machines : slice string }.

Record ServiceSpec := mkServiceSpec {
  Caddy : option CaddySpec;
  Configs : slice ConfigSpec;
  Container_ : ContainerSpec;
  SMode : string;
  SName : string;
  Placement_ : Placement;
  Ports : slice PortSpec;
  PreDeploy : option PreDeployHook;
  Replicas : N;
  UpdateConfig_ : UpdateConfig;
  Volumes : slice VolumeSpec
}.

#[global] Instance CaddySpec_eq_dec : EqDecision CaddySpec.
Proof. solve_decision. Defined.
#[global] Instance HealthcheckSpec_eq_dec : EqDecision HealthcheckSpec.
Proof. solve_decision. Defined.
#[global] Instance LogDriver_eq_dec : EqDecision LogDriver.
Proof. solve_decision. Defined.
#[global] Instance DeviceMapping_eq_dec : EqDecision DeviceMapping.
Proof. solve_decision. Defined.
#[global] Instance DeviceRequest_eq_dec : EqDecision DeviceRequest.
Proof. solve_decision. Defined.
#[global] Instance Ulimit_eq_dec : EqDecision Ulimit.
Proof. solve_decision. Defined.
#[global] Instance ContainerResources_eq_dec : EqDecision ContainerResources.
Proof. solve_decision. Defined.
#[global] Instance ContainerSpec_eq_dec : EqDecision ContainerSpec.
Proof. solve_decision. Defined.
#[global] Instance PreDeployHook_eq_dec : EqDecision PreDeployHook.
Proof. solve_decision. Defined.
#[global] Instance UpdateConfig_eq_dec : EqDecision UpdateConfig.
Proof. solve_decision. Defined.
#[global] Instance Placement_eq_dec : EqDecision Placement.
Proof. solve_decision. Defined.
#[global] Instance ServiceSpec_eq_dec : EqDecision ServiceSpec.
Proof. solve_decision. Defined.

(** ** Container specifications *)
Section ContainerSpec.
Context {Named RefError : Type} (ParseDockerRef : string -> result RefError Named).

Definition clone_container (s : ContainerSpec) : ContainerSpec :=
  let r := Resources s in
  mkContainerSpec (clone_slice (CapAdd s)) (clone_slice (CapDrop s)) (clone_slice (Command s))
    (clone_slice (Entrypoint s)) (clone_map (Env s))
    ((fun hc => mkHealthcheck (clone_slice (hc_Test hc)) (hc_Interval hc) (hc_Timeout hc)
                  (hc_StartPeriod hc) (hc_StartInterval hc) (hc_Retries hc) (hc_Disable hc))
       <$> Healthcheck s)
    (Image s) (Init s)
    ((fun d => mkLogDriver (log_Name d) (clone_map (log_Options d))) <$> LogDriver_ s)
    (PidMode s) (Tty s) (OpenStdin s) (Privileged s) (PullPolicy s)
    (mkResources (CPU r) (Memory r) (MemoryReservation r) (clone_slice (Devices r))
       (clone_slice (DeviceReservations r)) (SharedMemory r) (clone_map (Ulimits r)))
    (StopGracePeriod s) (clone_map (Sysctls s)) (User s) (clone_slice (VolumeMounts s))
    (clone_slice (ConfigMounts s)) (clone_slice (CVolumes s)).

(** Records with one or two fields replaced. *)
Definition with_defaults (s : ContainerSpec) (log : option LogDriver) (pull : string) : ContainerSpec :=
  mkContainerSpec (CapAdd s) (CapDrop s) (Command s) (Entrypoint s) (Env s) (Healthcheck s)
    (Image s) (Init s) log (PidMode s) (Tty s) (OpenStdin s) (Privileged s) pull (Resources s)
    (StopGracePeriod s) (Sysctls s) (User s) (VolumeMounts s) (ConfigMounts s) (CVolumes s).

Definition with_mounts (s : ContainerSpec) vs vm cm : ContainerSpec :=
  mkContainerSpec (CapAdd s) (CapDrop s) (Command s) (Entrypoint s) (Env s) (Healthcheck s)
    (Image s) (Init s) (LogDriver_ s) (PidMode s) (Tty s) (OpenStdin s) (Privileged s) (PullPolicy s)
    (Resources s) (StopGracePeriod s) (Sysctls s) (User s) vm cm vs.

Definition container_SetDefaults (s : ContainerSpec) : ContainerSpec :=
  let spec := clone_container s in
  with_defaults spec
    (match LogDriver_ spec with
     | None => Some (mkLogDriver "local" (Some ∅))
     | Some d => Some d
     end)
    (if String.eqb (PullPolicy spec) "" then PullPolicyMissing else PullPolicy spec).

Inductive container_error :=
| ImageInvalid (image : string) (e : RefError)
| InvalidVolumeMount (e : mount_error).

Definition container_Validate (s : ContainerSpec) : result container_error unit :=
  match ParseDockerRef (Image s) with
  | Err e => Err (ImageInvalid (Image s) e)
  | Ok _ => each_ok (fun m => wrap_err InvalidVolumeMount (validateMount m)) (els (VolumeMounts s))
  end.
End ContainerSpec.

(** *** Comparison of containers *)
#[export] Instance norm_HealthcheckSpec : EquateEmpty HealthcheckSpec := fun h =>
  mkHealthcheck (norm_slice id (hc_Test h)) (hc_Interval h) (hc_Timeout h) (hc_StartPeriod h)
    (hc_StartInterval h) (hc_Retries h) (hc_Disable h).
#[export] Instance norm_LogDriver : EquateEmpty LogDriver := fun d =>
  mkLogDriver (log_Name d) (norm_map id (log_Options d)).
#[export] Instance norm_DeviceRequest : EquateEmpty DeviceRequest := fun r =>
  mkDeviceRequest (dr_Driver r) (dr_Count r) (norm_slice id (dr_DeviceIDs r))
    (norm_slice (norm_slice id) (dr_Capabilities r)) (norm_map id (dr_Options r)).
#[export] Instance norm_ContainerResources : EquateEmpty ContainerResources := fun r =>
  mkResources (CPU r) (Memory r) (MemoryReservation r) (norm_slice id (Devices r))
    (norm_slice norm (DeviceReservations r)) (SharedMemory r) (norm_map id (Ulimits r)).
#[export] Instance norm_ContainerSpec : EquateEmpty ContainerSpec := fun s =>
  mkContainerSpec (norm_slice id (CapAdd s)) (norm_slice id (CapDrop s)) (norm_slice id (Command s))
    (norm_slice id (Entrypoint s)) (norm_map id (Env s)) (norm <$> Healthcheck s) (Image s) (Init s)
    (norm <$> LogDriver_ s) (PidMode s) (Tty s) (OpenStdin s) (Privileged s) (PullPolicy s)
    (norm (Resources s)) (StopGracePeriod s) (norm_map id (Sysctls s)) (User s)
    (norm_slice id (VolumeMounts s)) (norm_slice id (ConfigMounts s)) (norm_slice id (CVolumes s)).
#[export] Instance norm_PreDeployHook : EquateEmpty PreDeployHook := fun h =>
  mkHook (norm_slice id (hook_Command h)) (norm_map id (hook_Env h)) (hook_Privileged h)
    (hook_Timeout h) (hook_User h).
#[export] Instance norm_option {A} `{EquateEmpty A} : EquateEmpty (option A) := fmap norm.

(** The volumes and the mounts in sorted order; sorting a nil slice leaves it nil. *)
Definition sort_mounts `{GoSort} (s : ContainerSpec) : ContainerSpec :=
  with_mounts s (sort_strings <$> CVolumes s) (sortVolumeMounts <$> VolumeMounts s)
    (sortConfigMounts <$> ConfigMounts s).

Definition container_Equals `{GoSort, GoCmp} (s spec : ContainerSpec) : bool :=
  cmp_equal (sort_mounts (container_SetDefaults s)) (sort_mounts (container_SetDefaults spec)).

(** ** Environment *)
(** [EnvVars.ToSlice]; the order is that of the map iteration. *)
Definition ToSlice `{GoOrder} (site : nat) (e : gomap string) : list string :=
  omap (fun kv => if String.eqb kv.1 "" then None else Some (kv.1 ++ "=" ++ kv.2)) (range_map site (entries e)).

(** ** Pre-deploy hooks *)
Inductive hook_error := HookCommandMissing.

Definition hook_Validate (h : PreDeployHook) : result hook_error unit :=
  if Nat.eqb (length (els (hook_Command h))) 0 then Err HookCommandMissing else Ok tt.

Definition hook_Clone (h : option PreDeployHook) : option PreDeployHook :=
  match h with
  | None => None
  | Some h => Some (mkHook (clone_slice (hook_Command h)) (clone_map (hook_Env h)) (hook_Privileged h)
                      (hook_Timeout h) (hook_User h))
  end.

Definition hook_Equals `{GoCmp} (h other : option PreDeployHook) : bool := cmp_equal h other.

(** ** Service specifications *)
Definition CaddyConfig (s : ServiceSpec) : string :=
  match Caddy s with None => "" | Some c => trim_space (caddy_Config c) end.

Fixpoint find_volume (name : string) (vs : list VolumeSpec) : option VolumeSpec :=
  match vs with
  | [] => None
  | v :: vs' => if String.eqb (vol_Name v) name then Some v else find_volume name vs'
  end.

Definition Volume (s : ServiceSpec) (name : string) : option VolumeSpec :=
  find_volume name (els (Volumes s)).

Fixpoint find_config (name : string) (cs : list ConfigSpec) : option ConfigSpec :=
  match cs with
  | [] => None
  | c :: cs' => if String.eqb (cfg_Name c) name then Some c else find_config name cs'
  end.

Definition Config (s : ServiceSpec) (name : string) : option ConfigSpec :=
  find_config name (els (Configs s)).

(** The map of the mounted volumes of type volume, by name. *)
Definition add_mounted (s : ServiceSpec) (volumes : gmap string VolumeSpec) (m : VolumeMount) :
  gmap string VolumeSpec :=
  match Volume s (VolumeName m) with
  | Some v => if String.eqb (vol_Type v) VolumeTypeVolume then <[vol_Name v := v]> volumes else volumes
  | None => volumes
  end.

Definition mounted_volumes (s : ServiceSpec) : gmap string VolumeSpec :=
  fold_left (add_mounted s) (els (VolumeMounts (Container_ s))) ∅.

Definition MountedDockerVolumes `{GoOrder} (site : nat) (s : ServiceSpec) : list VolumeSpec :=
  map snd (range_map site (mounted_volumes s)).

Definition service_Clone (s : ServiceSpec) : ServiceSpec :=
  mkServiceSpec (Caddy s) (Configs s) (clone_container (Container_ s)) (SMode s) (SName s) (Placement_ s)
    (clone_slice (Ports s)) (hook_Clone (PreDeploy s)) (Replicas s) (UpdateConfig_ s)
    (fmap (map Volume.Clone) (Volumes s)).

Definition service_SetDefaults (s : ServiceSpec) : ServiceSpec :=
  let spec := service_Clone s in
  let mode := if String.eqb (SMode spec) "" then ServiceModeReplicated else SMode spec in
  let replicas := if String.eqb mode ServiceModeReplicated && (Replicas spec =? 0)%N
                  then 1%N else Replicas spec in
  mkServiceSpec (Caddy spec) (Configs spec) (container_SetDefaults (Container_ spec)) mode (SName spec)
    (Placement_ spec) (Ports spec) (PreDeploy spec) replicas (UpdateConfig_ spec)
    (fmap (map Volume.SetDefaults) (Volumes spec)).

Section Validate.
Context {Named RefError : Type} (ParseDockerRef : string -> result RefError Named).

Inductive service_error :=
| ContainerInvalid (e : @container_error RefError)
| ServiceModeInvalid (mode : string)
| NameTooLong (name : string)
| NameInvalid (name : string)
| IngressProtocol (port : N) (protocol : string)
| CaddyWithIngressPorts
| InvalidVolume (e : volume_error)
| DuplicateVolume (name : string)
| UnknownVolume (name : string)
| InvalidConfigs (e : config_error)
| InvalidHook (e : hook_error).

Definition is_ingress (p : PortSpec) : bool :=
  String.eqb (Mode p) "" || String.eqb (Mode p) PortModeIngress.

Definition validate_port (p : PortSpec) : result service_error unit :=
  if is_ingress p && negb (String.eqb (Protocol p) ProtocolHTTP) && negb (String.eqb (Protocol p) ProtocolHTTPS)
  then Err (IngressProtocol (ContainerPort p) (Protocol p)) else Ok tt.

(** The loop over the volumes collects their names. *)
Fixpoint volume_names (vs : list VolumeSpec) (names : gset string) : result service_error unit :=
  match vs with
  | [] => Ok tt
  | v :: rest =>
      match Volume.Validate v with
      | Err e => Err (InvalidVolume e)
      | Ok _ => if decide (vol_Name v ∈ names) then Err (DuplicateVolume (vol_Name v))
                else volume_names rest ({[vol_Name v]} ∪ names)
      end
  end.

Definition validate_name (name : string) : result service_error unit :=
  if String.eqb name "" then Ok tt
  else if Nat.ltb 63 (String.length name) then Err (NameTooLong name)
  else if negb (dns_label name) then Err (NameInvalid name)
  else Ok tt.

Definition validate_caddy (s : ServiceSpec) : result service_error unit :=
  match Caddy s with
  | Some c =>
      if negb (String.eqb (trim_space (caddy_Config c)) "") && Nat.ltb 0 (length (els (Ports s))) &&
         existsb is_ingress (els (Ports s))
      then Err CaddyWithIngressPorts else Ok tt
  | None => Ok tt
  end.

Definition validate_mount_refs (s : ServiceSpec) : result service_error unit :=
  each_ok (fun m => if existsb (fun v => String.eqb (vol_Name v) (VolumeName m)) (els (Volumes s))
                    then Ok tt else Err (UnknownVolume (VolumeName m)))
    (els (VolumeMounts (Container_ s))).

Definition service_Validate (s : ServiceSpec) : result service_error unit :=
  (let! _ := wrap_err ContainerInvalid (container_Validate ParseDockerRef (Container_ s)) in
   let! _ := (if one_of (SMode s) [""; ServiceModeGlobal; ServiceModeReplicated] then Ok tt
              else Err (ServiceModeInvalid (SMode s))) in
   let! _ := validate_name (SName s) in
   let! _ := each_ok validate_port (els (Ports s)) in
   let! _ := validate_caddy s in
   let! _ := volume_names (els (Volumes s)) ∅ in
   let! _ := validate_mount_refs s in
   let! _ := wrap_err InvalidConfigs
               (ValidateConfigsAndMounts (els (Configs s)) (els (ConfigMounts (Container_ s)))) in
   match PreDeploy s with
   | Some h => wrap_err InvalidHook (hook_Validate h)
   | None => Ok tt
   end)%go.
End Validate.

(** ** Lemmas *)
Lemma option_fmap_map_id {A} (f : A -> A) (o : option A) : (forall x, f x = x) -> f <$> o = o.
Proof. intros Hf. destruct o; simpl; by rewrite ?Hf. Qed.

Lemma clone_container_eq s : clone_container s = s.
Proof.
  unfold clone_container. rewrite !clone_slice_eq, !clone_map_eq.
  rewrite (option_fmap_map_id _ (Healthcheck s)), (option_fmap_map_id _ (LogDriver_ s)).
  - by destruct s as [? ? ? ? ? ? ? ? ? ? ? ? ? ? []].
  - intros d. rewrite clone_map_eq. by destruct d.
  - intros h. rewrite clone_slice_eq. by destruct h.
Qed.

Lemma hook_Clone_eq h : hook_Clone h = h.
Proof. destruct h as [[]|]; simpl; by rewrite ?clone_slice_eq, ?clone_map_eq. Qed.

Lemma container_SetDefaults_idem s : container_SetDefaults (container_SetDefaults s) = container_SetDefaults s.
Proof.
  unfold container_SetDefaults. rewrite !clone_container_eq. unfold with_defaults. simpl.
  f_equal; [by destruct (LogDriver_ s)|].
  destruct (String.eqb_spec (PullPolicy s) "") as [|Hn]; [done|]. by rewrite (proj2 (String.eqb_neq _ _) Hn).
Qed.

Lemma service_SetDefaults_idem s : service_SetDefaults (service_SetDefaults s) = service_SetDefaults s.
Proof.
  unfold service_SetDefaults, service_Clone. simpl.
  rewrite !clone_container_eq, !hook_Clone_eq, !clone_slice_eq, container_SetDefaults_idem.
  set (mode := if String.eqb (SMode s) "" then ServiceModeReplicated else SMode s).
  assert (Hm : String.eqb mode "" = false).
  { subst mode. by destruct (String.eqb (SMode s) "") eqn:E. }
  rewrite Hm. f_equal.
  - destruct (String.eqb mode ServiceModeReplicated); simpl; [|done].
    destruct (N.eqb_spec (Replicas s) 0); simpl; [done|]. by rewrite (proj2 (N.eqb_neq _ _)).
  - destruct (Volumes s) as [vs|]; simpl; [|done]. f_equal. rewrite !map_map. apply map_ext. intros v.
    assert (Hc : forall v, Volume.SetDefaults (Volume.Clone v) = Volume.SetDefaults v)
      by (intros; unfold Volume.SetDefaults; by rewrite Clone_idem).
    by rewrite !Hc, SetDefaults_idem.
Qed.

(** *** Comparison up to the order of volumes and mounts *)
Lemma norm_slice_els {A} (s1 s2 : slice A) : norm_slice id s1 = norm_slice id s2 <-> els s1 = els s2.
Proof.
  destruct s1 as [[|x l]|], s2 as [[|y k]|]; simpl; rewrite ?map_id; try done.
  split; [by intros [= -> ->]|by intros [= -> ->]].
Qed.

Lemma els_fmap {A B} (f : list A -> list B) (s : slice A) : f [] = [] -> els (f <$> s) = f (els s).
Proof. destruct s; simpl; [done|]. by intros ->. Qed.

Lemma norm_with_mounts s vs vm cm :
  norm (with_mounts s vs vm cm) =
  with_mounts (norm (with_mounts s None None None)) (norm_slice id vs) (norm_slice id vm) (norm_slice id cm).
Proof. reflexivity. Qed.

Lemma with_mounts_twice s a b c a' b' c' : with_mounts (with_mounts s a b c) a' b' c' = with_mounts s a' b' c'.
Proof. reflexivity. Qed.

Lemma with_mounts_inj x y a b c a' b' c' :
  with_mounts x None None None = x -> with_mounts y None None None = y ->
  with_mounts x a b c = with_mounts y a' b' c' <-> x = y /\ b = b' /\ c = c' /\ a = a'.
Proof.
  intros Hx Hy. split; [|by intros (-> & -> & -> & ->)]. intros Heq. split_and!.
  - apply (f_equal (fun z => with_mounts z None None None)) in Heq.
    by rewrite !with_mounts_twice, Hx, Hy in Heq.
  - by apply (f_equal VolumeMounts) in Heq.
  - by apply (f_equal ConfigMounts) in Heq.
  - by apply (f_equal CVolumes) in Heq.
Qed.

Lemma container_Equals_spec `{GoSort, GoCmp} s t :
  container_Equals s t = true <->
  norm (with_mounts (container_SetDefaults s) None None None) =
  norm (with_mounts (container_SetDefaults t) None None None) /\
  els (VolumeMounts s) ≡ₚ els (VolumeMounts t) /\ els (ConfigMounts s) ≡ₚ els (ConfigMounts t) /\
  els (CVolumes s) ≡ₚ els (CVolumes t).
Proof.
  unfold container_Equals. rewrite cmp_equal_spec. unfold sort_mounts.
  rewrite (norm_with_mounts (container_SetDefaults s)), (norm_with_mounts (container_SetDefaults t)).
  rewrite with_mounts_inj by done. rewrite !norm_slice_els.
  assert (Hn1 : sortVolumeMounts [] = []) by (apply Permutation_nil_r, sort_slice_perm).
  assert (Hn2 : sortConfigMounts [] = []) by (apply Permutation_nil_r, sort_slice_perm).
  rewrite !els_fmap by done. rewrite sortVolumeMounts_eq, sortConfigMounts_eq, sort_strings_eq.
  unfold container_SetDefaults. by rewrite !clone_container_eq.
Qed.

(** *** Volumes by name *)
Lemma find_volume_Some name vs v : find_volume name vs = Some v -> v ∈ vs /\ vol_Name v = name.
Proof.
  induction vs as [|w vs IH]; simpl; [done|]. destruct (String.eqb_spec (vol_Name w) name) as [Hw|Hw].
  - intros [= ->]. split; [left|done].
  - intros H. destruct (IH H). split; [by right|done].
Qed.

Lemma find_volume_unique name vs v : NoDup (map vol_Name vs) ->
  find_volume name vs = Some v <-> v ∈ vs /\ vol_Name v = name.
Proof.
  intros Hnd. split; [apply find_volume_Some|]. intros [Hv Hn].
  induction vs as [|w vs IH]; simpl; [by apply not_elem_of_nil in Hv|].
  apply NoDup_cons in Hnd as [Hnin Hnd]. destruct (String.eqb_spec (vol_Name w) name) as [Hw|Hw].
  - apply elem_of_cons in Hv as [->|Hv]; [done|]. destruct Hnin. apply list_elem_of_fmap. exists v.
    split; [congruence|done].
  - apply elem_of_cons in Hv as [->|Hv]; [done|]. by apply IH.
Qed.

(** The volume a mount adds under [k], if any. *)
Definition adds (s : ServiceSpec) (m : VolumeMount) (k : string) : option VolumeSpec :=
  if decide (VolumeName m = k) then
    v ← Volume s k; if decide (vol_Type v = VolumeTypeVolume) then Some v else None
  else None.

Lemma add_mounted_lookup s acc m k : add_mounted s acc m !! k =
  match adds s m k with Some v => Some v | None => acc !! k end.
Proof.
  unfold add_mounted, adds. destruct (decide (VolumeName m = k)) as [<-|Hk].
  - destruct (Volume s (VolumeName m)) as [w|] eqn:Hw; simpl; [|done].
    apply find_volume_Some in Hw as [_ Hn].
    destruct (String.eqb_spec (vol_Type w) VolumeTypeVolume); [rewrite decide_True by done|by rewrite decide_False by done].
    by rewrite Hn, lookup_insert_eq.
  - destruct (Volume s (VolumeName m)) as [w|] eqn:Hw; [|done].
    apply find_volume_Some in Hw as [_ Hn]. destruct (String.eqb _ _); [|done].
    by rewrite lookup_insert_ne by congruence.
Qed.

(** The entries collected by the loop over the mounts. *)
Lemma mounted_fold s mounts acc k v :
  acc !! k = None ->
  fold_left (add_mounted s) mounts acc !! k = Some v <->
  exists m, m ∈ mounts /\ adds s m k = Some v.
Proof.
  revert acc; induction mounts as [|m mounts IH] using rev_ind; intros acc Hacc; simpl.
  { rewrite Hacc. split; [done|]. set_solver. }
  rewrite fold_left_app. simpl. rewrite add_mounted_lookup.
  setoid_rewrite elem_of_app. setoid_rewrite list_elem_of_singleton.
  destruct (adds s m k) as [w|] eqn:Hm.
  - split; [intros [= <-]; eauto|]. intros (m' & _ & Hm'). revert Hm Hm'. unfold adds.
    repeat case_decide; try done. congruence.
  - rewrite IH by done. naive_solver.
Qed.

Lemma mounted_volumes_lookup s k v :
  mounted_volumes s !! k = Some v <->
  (exists m, m ∈ els (VolumeMounts (Container_ s)) /\ VolumeName m = k) /\
  Volume s k = Some v /\ vol_Type v = VolumeTypeVolume.
Proof.
  unfold mounted_volumes. rewrite mounted_fold by apply lookup_empty. unfold adds. split.
  - intros (m & Hm & Ha). case_decide; [|done]. destruct (Volume s k) as [w|] eqn:Hw; simpl in *; [|done].
    case_decide; [|done]. simplify_eq. eauto.
  - intros ((m & Hm & Hk) & Hv & Ht). exists m. split; [done|].
    rewrite decide_True by done. rewrite Hv. simpl. by rewrite decide_True by done.
Qed.

(** *** Validation *)
Lemma elem_of_Mounted `{GoOrder} site s v :
  v ∈ MountedDockerVolumes site s <-> exists k, mounted_volumes s !! k = Some v.
Proof.
  unfold MountedDockerVolumes. rewrite list_elem_of_fmap. split.
  - intros ([k w] & -> & Hin). apply elem_of_range_map in Hin. by exists k.
  - intros [k Hk]. exists (k, v). split; [done|]. by apply elem_of_range_map.
Qed.

Lemma Mounted_length `{GoOrder} site s : length (MountedDockerVolumes site s) = size (mounted_volumes s).
Proof.
  unfold MountedDockerVolumes, range_map. rewrite length_map.
  by rewrite (Permutation_length (any_order_perm site _ _)), length_map_to_list.
Qed.

Section Valid.
Context {Named RefError : Type} (ParseDockerRef : string -> result RefError Named).

Lemma volume_names_Ok vs acc : volume_names (RefError := RefError) vs acc = Ok tt <->
  Forall (fun v => Volume.Validate v = Ok tt) vs /\ NoDup (map vol_Name vs) /\
  forall v, v ∈ vs -> vol_Name v ∉ acc.
Proof.
  revert acc; induction vs as [|v vs IH]; intros acc; simpl.
  { split; [intros _; split_and!; [done|constructor|set_solver]|done]. }
  rewrite Forall_cons, NoDup_cons. destruct (Volume.Validate v) as [[]|e]; [|naive_solver].
  case_decide as Hin.
  - split; [done|]. intros (_ & _ & Hn). exfalso. eapply Hn; [left|done].
  - rewrite IH. rewrite list_elem_of_fmap. split.
    + intros (Hf & Hnd & Hn). split_and!; try done.
      * intros (x & Hx & Hxin). specialize (Hn x Hxin). set_solver.
      * intros x [->|Hx]%elem_of_cons; [done|]. specialize (Hn x Hx). set_solver.
    + intros ([_ Hf] & [Hnin Hnd] & Hn). split_and!; try done.
      intros x Hx. apply not_elem_of_union. split; [|apply Hn; by right].
      rewrite not_elem_of_singleton. intros E. apply Hnin. eauto.
Qed.

(** What [Validate] accepts, check by check. *)
Definition service_valid (s : ServiceSpec) : Prop :=
  is_ok (ParseDockerRef (Image (Container_ s))) = true /\
  Forall (fun m => validateMount m = Ok tt) (els (VolumeMounts (Container_ s))) /\
  SMode s ∈ [""; ServiceModeGlobal; ServiceModeReplicated] /\
  (SName s = "" \/ (String.length (SName s) <= 63)%nat /\ dns_label (SName s) = true) /\
  Forall (fun p => is_ingress p = true -> Protocol p ∈ [ProtocolHTTP; ProtocolHTTPS]) (els (Ports s)) /\
  (CaddyConfig s <> "" -> Forall (fun p => is_ingress p = false) (els (Ports s))) /\
  Forall (fun v => Volume.Validate v = Ok tt) (els (Volumes s)) /\
  NoDup (map vol_Name (els (Volumes s))) /\
  Forall (fun m => exists v, v ∈ els (Volumes s) /\ vol_Name v = VolumeName m)
    (els (VolumeMounts (Container_ s))) /\
  ValidateConfigsAndMounts (els (Configs s)) (els (ConfigMounts (Container_ s))) = Ok tt /\
  (forall h, PreDeploy s = Some h -> els (hook_Command h) <> []).

Lemma container_Validate_Ok c : container_Validate ParseDockerRef c = Ok tt <->
  is_ok (ParseDockerRef (Image c)) = true /\
  Forall (fun m => validateMount m = Ok tt) (els (VolumeMounts c)).
Proof.
  unfold container_Validate. destruct (ParseDockerRef (Image c)); simpl; [|naive_solver].
  rewrite each_ok_Ok. setoid_rewrite wrap_err_Ok. naive_solver.
Qed.

Lemma validate_name_Ok name : validate_name (RefError := RefError) name = Ok tt <->
  name = "" \/ (String.length name <= 63)%nat /\ dns_label name = true.
Proof.
  unfold validate_name. destruct (String.eqb_spec name "") as [->|Hn]; [naive_solver|].
  destruct (Nat.ltb_spec 63 (String.length name)).
  - split; [done|]. intros [|[? _]]; [done|lia].
  - destruct (dns_label name); simpl; split; try done; try tauto. naive_solver.
Qed.

Lemma validate_port_Ok p : validate_port (RefError := RefError) p = Ok tt <->
  (is_ingress p = true -> Protocol p ∈ [ProtocolHTTP; ProtocolHTTPS]).
Proof.
  unfold validate_port. rewrite <- orb_eqb_in. destruct (is_ingress p); simpl; [|naive_solver].
  destruct (negb _ && negb _); naive_solver.
Qed.

Lemma validate_caddy_Ok s : validate_caddy (RefError := RefError) s = Ok tt <->
  (CaddyConfig s <> "" -> Forall (fun p => is_ingress p = false) (els (Ports s))).
Proof.
  unfold validate_caddy, CaddyConfig. destruct (Caddy s) as [c|]; [|naive_solver].
  destruct (String.eqb_spec (trim_space (caddy_Config c)) "") as [Hc|Hc]; simpl; [naive_solver|].
  assert (He : existsb is_ingress (els (Ports s)) = false <-> Forall (fun p => is_ingress p = false) (els (Ports s))).
  { rewrite Forall_forall, <- not_true_iff_false, existsb_exists. setoid_rewrite <- list_elem_of_In.
    setoid_rewrite <- not_true_iff_false. naive_solver. }
  rewrite <- He. destruct (els (Ports s)); simpl; [naive_solver|].
  destruct (is_ingress _ || _); naive_solver.
Qed.

Lemma validate_mount_refs_Ok s : validate_mount_refs (RefError := RefError) s = Ok tt <->
  Forall (fun m => exists v, v ∈ els (Volumes s) /\ vol_Name v = VolumeName m)
    (els (VolumeMounts (Container_ s))).
Proof.
  unfold validate_mount_refs. rewrite each_ok_Ok. apply Forall_proper; [|done]. intros m.
  destruct (existsb _ _) eqn:He.
  - split; [intros _|done]. apply existsb_exists in He as (v & Hv & Hn).
    exists v. by rewrite list_elem_of_In, <- String.eqb_eq.
  - split; [done|]. intros (v & Hv & Hn). apply not_true_iff_false in He. destruct He.
    apply existsb_exists. exists v. by rewrite <- list_elem_of_In, String.eqb_eq.
Qed.

Lemma res_seq_Ok {E} (r : result E unit) k : res_bind r (fun _ => k) = Ok tt <-> r = Ok tt /\ k = Ok tt.
Proof. destruct r as [[]|]; simpl; naive_solver. Qed.

Lemma service_Validate_Ok s : service_Validate ParseDockerRef s = Ok tt <-> service_valid s.
Proof.
  unfold service_Validate, service_valid. rewrite !res_seq_Ok.
  rewrite !wrap_err_Ok, container_Validate_Ok, validate_name_Ok, each_ok_Ok, validate_caddy_Ok,
    volume_names_Ok, validate_mount_refs_Ok.
  setoid_rewrite validate_port_Ok. rewrite <- (one_of_spec (SMode s)).
  assert (Hm : (if one_of (SMode s) [""; ServiceModeGlobal; ServiceModeReplicated] then Ok tt
                else Err (ServiceModeInvalid (SMode s))) = Ok (E := @service_error RefError) tt <->
               one_of (SMode s) [""; ServiceModeGlobal; ServiceModeReplicated] = true)
    by (destruct (one_of _ _); naive_solver).
  rewrite Hm.
  assert (Hh : match PreDeploy s with Some h => wrap_err InvalidHook (hook_Validate h) | None => Ok tt end
               = Ok (E := @service_error RefError) tt <->
               forall h, PreDeploy s = Some h -> els (hook_Command h) <> []).
  { destruct (PreDeploy s) as [h|]; [|naive_solver]. rewrite wrap_err_Ok. unfold hook_Validate.
    destruct (els (hook_Command h)) eqn:Hc; simpl; split; try done.
    - intros Hf. by destruct (Hf h eq_refl).
    - by intros _ h' [= <-]; rewrite Hc. }
  rewrite Hh.
  assert (Hempty : (forall v : VolumeSpec, v ∈ els (Volumes s) -> vol_Name v ∉ (∅ : gset string)))
    by set_solver.
  tauto.
Qed.

Lemma SetDefaults_names vs : map vol_Name (map Volume.SetDefaults (map Volume.Clone vs)) = map vol_Name vs.
Proof.
  rewrite !map_map. apply map_ext. intros v. unfold Volume.SetDefaults. simpl. by destruct (String.eqb _ _).
Qed.

Lemma Validate_SetDefaults_volume v : Volume.Validate (Volume.SetDefaults v) = Volume.Validate v.
Proof. unfold Volume.SetDefaults. cbn [vol_Type Volume.Clone]. by destruct (String.eqb (vol_Type v) VolumeTypeVolume). Qed.

Lemma service_valid_SetDefaults s : service_valid (service_SetDefaults s) <-> service_valid s.
Proof.
  unfold service_valid, service_SetDefaults, service_Clone. simpl.
  unfold container_SetDefaults. rewrite !clone_container_eq.
  unfold with_defaults, CaddyConfig. simpl. rewrite hook_Clone_eq, !clone_slice_eq.
  assert (Hvs : els (map Volume.SetDefaults <$> (map Volume.Clone <$> Volumes s)) =
                map Volume.SetDefaults (map Volume.Clone (els (Volumes s)))) by by destruct (Volumes s).
  rewrite Hvs, SetDefaults_names.
  assert (Hval : Forall (fun v => Volume.Validate v = Ok tt) (map Volume.SetDefaults (map Volume.Clone (els (Volumes s))))
            <-> Forall (fun v => Volume.Validate v = Ok tt) (els (Volumes s))).
  { rewrite map_map, Forall_map. apply Forall_proper; [|done]. intros v. simpl.
    by rewrite Validate_SetDefaults_volume. }
  rewrite Hval.
  assert (Hmode : (if String.eqb (SMode s) "" then ServiceModeReplicated else SMode s)
                    ∈ [""; ServiceModeGlobal; ServiceModeReplicated] <->
                  SMode s ∈ [""; ServiceModeGlobal; ServiceModeReplicated]).
  { destruct (String.eqb_spec (SMode s) "") as [->|]; [|done]. set_unfold. naive_solver. }
  rewrite Hmode.
  assert (Href : forall m, (exists v, v ∈ map Volume.SetDefaults (map Volume.Clone (els (Volumes s))) /\
             vol_Name v = VolumeName m) <-> (exists v, v ∈ els (Volumes s) /\ vol_Name v = VolumeName m)).
  { intros m. pose proof (SetDefaults_names (els (Volumes s))) as Hn.
    assert (Hin : forall vs, (exists v, v ∈ vs /\ vol_Name v = VolumeName m) <-> VolumeName m ∈ map vol_Name vs).
    { intros vs. rewrite list_elem_of_fmap. naive_solver. }
    by rewrite !Hin, Hn. }
  rewrite (Forall_iff _ _ _ Href). done.
Qed.
End Valid.

(** ** Properties *)

(** Setting the defaults of a service specification is idempotent, keeps what the
    specification describes (a specification is valid exactly when its defaulted form is)
    and makes it explicit: a mode is set, a replicated service has at least one replica,
    the pull policy and the log driver are set. *)
Lemma service_defaults {Named RefError} (ParseDockerRef : string -> result RefError Named)
  (s : ServiceSpec) :
  service_SetDefaults (service_SetDefaults s) = service_SetDefaults s /\
  (service_Validate ParseDockerRef (service_SetDefaults s) = Ok tt <->
   service_Validate ParseDockerRef s = Ok tt) /\
  SMode (service_SetDefaults s) <> "" /\
  (SMode (service_SetDefaults s) = ServiceModeReplicated -> Replicas (service_SetDefaults s) <> 0%N) /\
  PullPolicy (Container_ (service_SetDefaults s)) <> "" /\
  is_Some (LogDriver_ (Container_ (service_SetDefaults s))).
Proof.
  split_and!.
  - apply service_SetDefaults_idem.
  - rewrite !service_Validate_Ok. apply service_valid_SetDefaults.
  - simpl. by destruct (String.eqb_spec (SMode s) "").
  - simpl. intros ->. simpl. by destruct (N.eqb_spec (Replicas s) 0).
  - simpl. by destruct (String.eqb_spec (PullPolicy (Container_ s)) "").
  - unfold service_SetDefaults, service_Clone. simpl. destruct (LogDriver_ (Container_ s)); simpl; eauto.
Qed.

(** Two containers are equal for [ContainerSpec.Equals] exactly when their defaulted
    forms agree in every field, reading nil and empty as the same, except that the order of
    volumes, volume mounts and config mounts does not matter. *)
Lemma container_Equals_up_to_order `{GoSort, GoCmp} (s t : ContainerSpec) :
  container_Equals s t = true <->
  norm (with_mounts (container_SetDefaults s) None None None) =
  norm (with_mounts (container_SetDefaults t) None None None) /\
  els (VolumeMounts s) ≡ₚ els (VolumeMounts t) /\ els (ConfigMounts s) ≡ₚ els (ConfigMounts t) /\
  els (CVolumes s) ≡ₚ els (CVolumes t).
Proof. apply container_Equals_spec. Qed.

Definition empty_resources : ContainerResources := mkResources 0 0 0 None None 0 None.
Definition plain_container (image : string) (mounts : list VolumeMount) : ContainerSpec :=
  mkContainerSpec None None None None None None image None None "" false false false "" empty_resources
    None None "" (Some mounts) None None.

(** In a valid specification every volume mount refers to exactly one volume, the one
    [Volume] finds, and [MountedDockerVolumes] lists, once each and whatever the iteration
    order of its map, exactly the named Docker volumes of the specification that some mount
    of the container uses. *)
Lemma valid_service_volumes `{GoOrder} {Named RefError}
  (ParseDockerRef : string -> result RefError Named) (s : ServiceSpec) (site : nat) :
  service_Validate ParseDockerRef s = Ok tt ->
  (forall m, m ∈ els (VolumeMounts (Container_ s)) -> exists v, Volume s (VolumeName m) = Some v /\
     forall v', v' ∈ els (Volumes s) -> vol_Name v' = VolumeName m -> v' = v) /\
  NoDup (MountedDockerVolumes site s) /\
  (forall v, v ∈ MountedDockerVolumes site s <->
     v ∈ els (Volumes s) /\ vol_Type v = VolumeTypeVolume /\
     exists m, m ∈ els (VolumeMounts (Container_ s)) /\ VolumeName m = vol_Name v).
Proof.
  intros (_ & _ & _ & _ & _ & _ & _ & Hnd & Href & _)%service_Validate_Ok. split_and!.
  - intros m Hm. rewrite Forall_forall in Href. destruct (Href m Hm) as (v & Hv & Hn).
    assert (Hf : Volume s (VolumeName m) = Some v) by by apply find_volume_unique.
    exists v. split; [done|]. intros v' Hv' Hn'.
    assert (Volume s (VolumeName m) = Some v') by (by apply find_volume_unique). congruence.
  - unfold MountedDockerVolumes, range_map.
    assert (Hkeys : map snd (map_to_list (mounted_volumes s)) ≡ₚ map snd (any_order site (map_to_list (mounted_volumes s))))
      by (by rewrite any_order_perm). rewrite <- Hkeys.
    apply (NoDup_fmap_1 vol_Name). rewrite <- list_fmap_compose.
    assert (Hext : (vol_Name ∘ snd) <$> map_to_list (mounted_volumes s) = fst <$> map_to_list (mounted_volumes s)).
    { apply list_fmap_ext. intros i [k v] Hkv. simpl. apply list_elem_of_lookup_2, elem_of_map_to_list in Hkv.
      apply mounted_volumes_lookup in Hkv as (_ & Hkv & _). by apply find_volume_Some in Hkv as [_ ?]. }
    rewrite Hext. apply NoDup_fst_map_to_list.
  - intros v. unfold MountedDockerVolumes. rewrite list_elem_of_fmap. split.
    + intros ([k w] & -> & Hkw). apply elem_of_range_map, mounted_volumes_lookup in Hkw as ((m & Hm & Hmk) & Hw & Ht).
      apply find_volume_Some in Hw as [Hin Hn]. simpl. split_and!; [done..|]. exists m. split; [done|congruence].
    + intros (Hv & Ht & m & Hm & Hn). exists (vol_Name v, v). split; [done|].
      apply elem_of_range_map, mounted_volumes_lookup. split_and!; [by exists m| |done].
      by apply find_volume_unique.
Qed.

Definition example_service : ServiceSpec :=
  mkServiceSpec None None (plain_container "nginx" [mkMount "data" "/data" false; mkMount "data" "/copy" true])
    "" "web" (mkPlacement None) None None 0 (mkUpdateConfig "" None)
    (Some [mkVolume "data" "volume" None None None; mkVolume "other" "volume" None None None]).

