(* ===== verification/Resolver.v ===== *)
(** * Resolver: from a user's specification to a deployable one

    [pkg/client/deploy/resolver.go], with the random texts of [internal/secret/id.go].
    The image reference library and the draws of the random source are parameters. *)

From S2P Require Import Prelude GoStrings NetAddr Port Volume ConfigSpec Spec.
#[local] Open Scope string_scope.
#[local] Open Scope list_scope.

(** ** Random texts *)

(** [rand.Int(rand.Reader, 36)]: a number below 36, or a failure of the source. *)
Definition draw : Type := option (fin 36).

Definition charSet : string := "abcdefghijklmnopqrstuvwxyz0123456789".

(** [charSet[i]] for an index in range. *)
Definition char_at (i : fin 36) : ascii := default "a"%char (String.get (fin_to_nat i) charSet).

(** [RandomAlphaNumeric(length)], with the draws the source gives, in order. *)
Fixpoint RandomAlphaNumeric (length : nat) (draws : nat -> draw) : option string :=
  match length with
  | O => Some ""
  | S n =>
      match draws O with
      | None => None
      | Some i => String (char_at i) <$> RandomAlphaNumeric n (fun k => draws (S k))
      end
  end.

Definition after_last (c : ascii) (s : string) : string :=
  match last_cut_byte c s with Some (_, e) => e | None => s end.

(** ** The resolver *)

(** [ServiceSpecResolver] *)
Record ServiceSpecResolver := mkResolver { ClusterDomain : string }.

Section Resolve.
Context {Named RefError : Type} (ParseDockerRef : string -> result RefError Named)
  (FamiliarName : Named -> string).

Inductive resolve_error :=
| SpecInvalid (e : @service_error RefError)
| ImageInvalid (e : RefError)
| SuffixFailed
| ClusterDomainMissing (port : N) (protocol : string).

Definition with_pull_policy (c : ContainerSpec) (pull : string) : ContainerSpec :=
  with_defaults c (LogDriver_ c) pull.

Definition applyDefaults (s : ServiceSpec) : ServiceSpec :=
  let mode := if String.eqb (SMode s) "" then ServiceModeReplicated else SMode s in
  let replicas := if String.eqb mode ServiceModeReplicated && (Replicas s =? 0)%N then 1%N else Replicas s in
  let c := Container_ s in
  let c := if String.eqb (PullPolicy c) "" then with_pull_policy c PullPolicyMissing else c in
  mkServiceSpec (Caddy s) (Configs s) c mode (SName s) (Placement_ s) (Ports s) (PreDeploy s) replicas
    (UpdateConfig_ s) (Volumes s).

Definition GenerateServiceName (draws : nat -> draw) (image : string) : result resolve_error string :=
  match ParseDockerRef image with
  | Err e => Err (ImageInvalid e)
  | Ok img =>
      let imageName := after_last "/" (FamiliarName img) in
      match RandomAlphaNumeric 4 draws with
      | None => Err SuffixFailed
      | Some suffix => Ok (imageName ++ "-" ++ suffix)%string
      end
  end.

Definition with_name (s : ServiceSpec) (name : string) : ServiceSpec :=
  mkServiceSpec (Caddy s) (Configs s) (Container_ s) (SMode s) name (Placement_ s) (Ports s) (PreDeploy s)
    (Replicas s) (UpdateConfig_ s) (Volumes s).

Definition with_ports (s : ServiceSpec) (ports : slice PortSpec) : ServiceSpec :=
  mkServiceSpec (Caddy s) (Configs s) (Container_ s) (SMode s) (SName s) (Placement_ s) ports (PreDeploy s)
    (Replicas s) (UpdateConfig_ s) (Volumes s).

Definition resolveServiceName (draws : nat -> draw) (s : ServiceSpec) : result resolve_error ServiceSpec :=
  if negb (String.eqb (SName s) "") then Ok s
  else (let! name := GenerateServiceName draws (Image (Container_ s)) in Ok (with_name s name))%go.

Definition with_hostname (p : PortSpec) (hostname : string) : PortSpec :=
  mkPort hostname (HostIP p) (HostPrefix p) (PublishedPort p) (ContainerPort p) (Protocol p) (Mode p).

(** The loop of [expandIngressPorts]: it ranges over the ports the specification had, while
    [ports] is the slice being changed at the same indices and appended to. *)
Fixpoint expand_loop (name domain : string) (i : nat) (ranged ports : list PortSpec) :
  result resolve_error (list PortSpec) :=
  match ranged with
  | [] => Ok ports
  | port :: rest =>
      if negb (String.eqb (Protocol port) ProtocolHTTP) && negb (String.eqb (Protocol port) ProtocolHTTPS)
      then expand_loop name domain (S i) rest ports
      else if String.eqb (Hostname port) "" then
        if String.eqb domain "" then Err (ClusterDomainMissing (ContainerPort port) (Protocol port))
        else expand_loop name domain (S i) rest
               (alter (fun p => with_hostname p (name ++ "." ++ domain)%string) i ports)
      else if String.eqb domain "" then expand_loop name domain (S i) rest ports
      else if has_suffix ("." ++ domain) (Hostname port) then expand_loop name domain (S i) rest ports
      else expand_loop name domain (S i) rest
             (ports ++ [with_hostname port (name ++ "." ++ domain)%string])
  end.

Definition expandIngressPorts (r : ServiceSpecResolver) (s : ServiceSpec) : result resolve_error ServiceSpec :=
  match Ports s with
  | None => Ok s
  | Some l => (let! ports := expand_loop (SName s) (ClusterDomain r) 0 l l in
               Ok (with_ports s (Some ports)))%go
  end.

Definition Resolve (r : ServiceSpecResolver) (draws : nat -> draw) (s : ServiceSpec) :
  result resolve_error ServiceSpec :=
  (let! _ := wrap_err SpecInvalid (service_Validate ParseDockerRef s) in
   let s := applyDefaults (service_Clone s) in
   let! s := resolveServiceName draws s in
   expandIngressPorts r s)%go.
End Resolve.

(** ** Lemmas *)
Lemma RandomAlphaNumeric_chars n draws s : RandomAlphaNumeric n draws = Some s ->
  String.length s = n /\ forall c, contains_byte c s = true -> is_label_char c = true.
Proof.
  revert draws s; induction n as [|n IH]; intros draws s; cbn [RandomAlphaNumeric].
  { intros [= <-]. done. }
  destruct (draws 0) as [i|]; [|done].
  destruct (RandomAlphaNumeric n _) as [s'|] eqn:E; [|done]. intros [= <-].
  apply IH in E as [Hl Hc]. cbn. split; [by rewrite Hl|]. intros c [Ha|Ha]%orb_true_iff; [|by apply Hc].
  apply Ascii.eqb_eq in Ha as <-. clear. revert i. apply (bool_decide_unpack (forall i : fin 36, _)). by vm_compute.
Qed.

Definition is_http (p : PortSpec) : bool := String.eqb (Protocol p) ProtocolHTTP || String.eqb (Protocol p) ProtocolHTTPS.

(** The hostname under the cluster domain. *)
Definition cluster_host (name domain : string) : string := (name ++ "." ++ domain)%string.

Definition expanded (name domain : string) (p : PortSpec) : PortSpec :=
  if is_http p && String.eqb (Hostname p) "" then with_hostname p (cluster_host name domain) else p.

Definition duplicate (name domain : string) (p : PortSpec) : list PortSpec :=
  if is_http p && negb (String.eqb (Hostname p) "") && negb (String.eqb domain "") &&
     negb (has_suffix ("." ++ domain) (Hostname p))
  then [with_hostname p (cluster_host name domain)] else [].

Definition unhosted (domain : string) (p : PortSpec) : bool :=
  is_http p && String.eqb (Hostname p) "" && String.eqb domain "".

Lemma expand_loop_spec {RefError} name domain ranged (before added : list PortSpec) :
  expand_loop (RefError := RefError) name domain (length before) ranged (before ++ ranged ++ added) =
  match List.find (unhosted domain) ranged with
  | Some p => Err (ClusterDomainMissing (ContainerPort p) (Protocol p))
  | None => Ok (before ++ map (expanded name domain) ranged ++ added ++ flat_map (duplicate name domain) ranged)
  end.
Proof.
  revert before added; induction ranged as [|p ranged IH]; intros before added.
  { cbn. by rewrite app_nil_r. }
  assert (Hstep : forall p' add, expand_loop (RefError := RefError) name domain (S (length before)) ranged
            (before ++ p' :: ranged ++ added ++ add) =
          match List.find (unhosted domain) ranged with
          | Some p => Err (ClusterDomainMissing (ContainerPort p) (Protocol p))
          | None => Ok (before ++ p' :: map (expanded name domain) ranged ++ added ++ add ++
                          flat_map (duplicate name domain) ranged)
          end).
  { intros p' add. specialize (IH (before ++ [p']) (added ++ add)). rewrite length_app, Nat.add_1_r in IH.
    rewrite <- !app_assoc in IH. cbn in IH. exact IH. }
  pose proof (Hstep p []) as Hsame. rewrite !app_nil_r in Hsame.
  cbn [expand_loop List.find map flat_map]. unfold unhosted at 1, expanded at 1, duplicate at 1, is_http.
  rewrite <- negb_orb. destruct (String.eqb (Protocol p) _ || _); cbn; [|exact Hsame].
  destruct (String.eqb (Hostname p) ""); cbn.
  - destruct (String.eqb domain ""); cbn; [done|].
    rewrite alter_app_r_alt, Nat.sub_diag by lia. cbn.
    rewrite <- (app_nil_r added) at 1. exact (Hstep _ []).
  - destruct (String.eqb domain ""); cbn; [exact Hsame|].
    destruct (has_suffix _ _); cbn; [exact Hsame|].
    rewrite <- !app_assoc. cbn. rewrite <- app_assoc. exact (Hstep p [_]).
Qed.

Section ResolveSpec.
Context {Named RefError : Type} (ParseDockerRef : string -> result RefError Named)
  (FamiliarName : Named -> string).

(** Everything but the hostname of a port. *)
Definition same_port (p p' : PortSpec) : Prop := with_hostname p' (Hostname p) = p.

Definition under_domain (domain : string) (p : PortSpec) : Prop := exists sub, Hostname p = (sub ++ "." ++ domain)%string.

(** What a deployable form [s'] of a specification [s] has. *)
Record deployable (domain : string) (s s' : ServiceSpec) : Prop := {
  dep_mode : SMode s' ∈ [ServiceModeReplicated; ServiceModeGlobal] /\
             SMode s' = (if String.eqb (SMode s) "" then ServiceModeReplicated else SMode s);
  dep_replicas : (SMode s' = ServiceModeReplicated -> (1 <= Replicas s')%N) /\
                 ((Replicas s <> 0)%N -> Replicas s' = Replicas s);
  dep_pull : PullPolicy (Container_ s') <> "";
  dep_name : SName s' <> "" /\ (SName s <> "" -> SName s' = SName s);
  dep_user_ports : forall i p, els (Ports s) !! i = Some p -> exists p', els (Ports s') !! i = Some p' /\
                     same_port p p' /\ (Hostname p <> "" \/ is_http p = false -> p' = p);
  dep_new_ports : forall i p', length (els (Ports s)) <= i -> els (Ports s') !! i = Some p' ->
                     is_http p' = true /\ exists p, p ∈ els (Ports s) /\ same_port p p' /\
                       Hostname p' = cluster_host (SName s') domain;
  dep_hostnames : Forall (fun p' => is_http p' = true -> Hostname p' <> "") (els (Ports s'));
  dep_reachable : domain <> "" -> forall p, p ∈ els (Ports s) -> is_http p = true ->
                     exists p', p' ∈ els (Ports s') /\ same_port p p' /\ under_domain domain p';
  dep_rest : Caddy s' = Caddy s /\ Configs s' = Configs s /\ Placement_ s' = Placement_ s /\
             PreDeploy s' = PreDeploy s /\ UpdateConfig_ s' = UpdateConfig_ s /\ Volumes s' = map Volume.Clone <$> Volumes s /\
             with_pull_policy (Container_ s') (PullPolicy (Container_ s)) = Container_ s;
  dep_valid : validate_name (RefError := RefError) (SName s') = Ok tt ->
              service_Validate ParseDockerRef s' = Ok tt
}.

Lemma cluster_host_nonempty name domain : cluster_host name domain <> "".
Proof. unfold cluster_host. by destruct name. Qed.

Lemma cluster_host_under name domain p : under_domain domain (with_hostname p (cluster_host name domain)).
Proof. by exists name. Qed.

Lemma same_port_hostname p h : same_port p (with_hostname p h).
Proof. by destruct p. Qed.

Lemma same_port_refl p : same_port p p.
Proof. by destruct p. Qed.

Lemma expanded_same name domain p : same_port p (expanded name domain p) /\
  (Hostname p <> "" \/ is_http p = false -> expanded name domain p = p).
Proof.
  unfold expanded. destruct (is_http p); cbn; [|split; [apply same_port_refl|done]].
  destruct (String.eqb_spec (Hostname p) ""); (split; [first [apply same_port_hostname|apply same_port_refl]|intros [?|?]; congruence]).
Qed.

Lemma elem_of_duplicates name domain ps p' : p' ∈ flat_map (duplicate name domain) ps <->
  exists p, p ∈ ps /\ p' = with_hostname p (cluster_host name domain) /\ is_http p = true /\ Hostname p <> "" /\
    domain <> "" /\ has_suffix ("." ++ domain) (Hostname p) = false.
Proof.
  rewrite list_elem_of_In, in_flat_map. apply exist_proper. intros p. rewrite <- list_elem_of_In.
  unfold duplicate. destruct (is_http p); cbn; [|split; [by intros []|naive_solver]].
  destruct (String.eqb_spec (Hostname p) ""), (String.eqb_spec domain ""), (has_suffix _ _);
    cbn; naive_solver.
Qed.

(** The ports of the resolved specification. *)
Definition all_ports (name domain : string) (ps : list PortSpec) : list PortSpec :=
  map (expanded name domain) ps ++ flat_map (duplicate name domain) ps.

Lemma find_unhosted_None domain ps : List.find (unhosted domain) ps = None ->
  domain = "" -> Forall (fun p => is_http p = true -> Hostname p <> "") ps.
Proof.
  intros Hf ->. apply Forall_forall. intros p Hp Hh E. rewrite list_elem_of_In in Hp.
  apply (find_none _ _ Hf) in Hp. unfold unhosted in Hp. by rewrite Hh, E in Hp.
Qed.

Lemma all_ports_hosted name domain ps p' : p' ∈ all_ports name domain ps -> is_http p' = true -> Hostname p' <> "".
Proof.
  unfold all_ports. intros [(p & -> & Hp)%list_elem_of_fmap|(p & Hp & -> & Hh)%elem_of_duplicates]%elem_of_app.
  - unfold expanded. destruct (is_http p) eqn:Hh; cbn; [|by rewrite Hh].
    destruct (String.eqb_spec (Hostname p) ""); [intros _; apply cluster_host_nonempty|done].
  - intros _. apply cluster_host_nonempty.
Qed.

Lemma all_ports_reachable name domain ps p : domain <> "" -> p ∈ ps -> is_http p = true ->
  exists p', p' ∈ all_ports name domain ps /\ same_port p p' /\ under_domain domain p'.
Proof.
  intros Hd Hp Hh. destruct (decide (Hostname p = "")) as [He|He].
  - exists (with_hostname p (cluster_host name domain)). split_and!; [|apply same_port_hostname|apply cluster_host_under].
    apply elem_of_app. left. apply list_elem_of_fmap. exists p. split; [|done].
    unfold expanded. by rewrite Hh, He.
  - destruct (has_suffix ("." ++ domain) (Hostname p)) eqn:Hs.
    + exists p. split_and!; [|apply same_port_refl|by apply has_suffix_spec].
      apply elem_of_app. left. apply list_elem_of_fmap. exists p. split; [|done].
      symmetry. apply expanded_same. by left.
    + exists (with_hostname p (cluster_host name domain)).
      split_and!; [|apply same_port_hostname|apply cluster_host_under].
      apply elem_of_app. right. apply elem_of_duplicates. by exists p.
Qed.

Lemma all_ports_from name domain ps p' : p' ∈ all_ports name domain ps -> exists p, p ∈ ps /\ same_port p p'.
Proof.
  intros [(p & -> & Hp)%list_elem_of_fmap|(p & Hp & -> & _)%elem_of_duplicates]%elem_of_app; exists p.
  - split; [done|]. apply expanded_same.
  - split; [done|]. apply same_port_hostname.
Qed.

Lemma expandIngressPorts_spec r s :
  expandIngressPorts (RefError := RefError) r s =
  match List.find (unhosted (ClusterDomain r)) (els (Ports s)) with
  | Some p => Err (ClusterDomainMissing (ContainerPort p) (Protocol p))
  | None => Ok (with_ports s (all_ports (SName s) (ClusterDomain r) <$> Ports s))
  end.
Proof.
  unfold expandIngressPorts. destruct (Ports s) as [l|] eqn:Ep; [|destruct s; cbn in Ep; by subst]. cbn.
  pose proof (expand_loop_spec (RefError := RefError) (SName s) (ClusterDomain r) l [] []) as H.
  cbn [app length] in H. rewrite app_nil_r in H. rewrite H. by destruct (List.find _ _).
Qed.

(** The specification with its defaults, before it is named and its ports are expanded. *)
Definition prepared (s : ServiceSpec) : ServiceSpec := applyDefaults (service_Clone s).

Definition resolved (s : ServiceSpec) (name domain : string) : ServiceSpec :=
  with_ports (with_name (prepared s) name) (all_ports name domain <$> Ports s).

Lemma clone_names vs : map vol_Name (map Volume.Clone vs) = map vol_Name vs.
Proof. by rewrite map_map. Qed.

Lemma clone_volumes_valid vs : Forall (fun v => Volume.Validate v = Ok tt) (map Volume.Clone vs) <->
  Forall (fun v => Volume.Validate v = Ok tt) vs.
Proof. rewrite Forall_map. apply Forall_proper; [|done]. by intros []. Qed.

Lemma named_volume vs name : (exists v, v ∈ vs /\ vol_Name v = name) <-> name ∈ map vol_Name vs.
Proof. rewrite list_elem_of_fmap. naive_solver. Qed.

Lemma prepared_container s : exists pull, Container_ (prepared s) = with_pull_policy (Container_ s) pull /\ pull <> "".
Proof.
  unfold prepared, applyDefaults, service_Clone. cbn. rewrite clone_container_eq.
  destruct (String.eqb_spec (PullPolicy (Container_ s)) ""); [by exists PullPolicyMissing|].
  exists (PullPolicy (Container_ s)). split; [|done]. by destruct (Container_ s).
Qed.

Lemma resolved_valid s name domain : service_valid ParseDockerRef s ->
  validate_name (RefError := RefError) name = Ok tt -> service_valid ParseDockerRef (resolved s name domain).
Proof.
  intros (Hi & Hm & Hmode & _ & Hports & Hcaddy & Hv & Hnd & Hrefs & Hcfg & Hhook) Hname%(validate_name_Ok ParseDockerRef).
  destruct (prepared_container s) as (pull & Hc & _).
  assert (Hp : els (all_ports name domain <$> Ports s) = all_ports name domain (els (Ports s)))
    by by destruct (Ports s).
  assert (Hvs : els (Volumes (prepared s)) = map Volume.Clone (els (Volumes s))) by (cbn; by destruct (Volumes s)).
  assert (Hfrom : forall P : PortSpec -> Prop, (forall p p', same_port p p' -> P p -> P p') ->
            Forall P (els (Ports s)) -> Forall P (all_ports name domain (els (Ports s)))).
  { intros P Hsame Hall. apply Forall_forall. intros p' (p & Hin & Hs)%all_ports_from.
    rewrite Forall_forall in Hall. eauto. }
  assert (Hing : forall p p', same_port p p' -> is_ingress p' = is_ingress p /\ Protocol p' = Protocol p)
    by (intros p p' <-; done).
  unfold service_valid, resolved. cbn [Container_ SMode SName Ports Volumes Configs PreDeploy with_ports with_name].
  rewrite Hp, Hvs, Hc, clone_names, clone_volumes_valid. split_and!; try done.
  - cbn. destruct (String.eqb_spec (SMode s) "") as [E|E]; [set_solver|done].
  - apply Hfrom; [|done]. intros p p' [-> ->]%Hing. done.
  - intros Hne. apply Hfrom; [|by apply Hcaddy]. intros p p' [-> _]%Hing. done.
  - eapply Forall_impl; [exact Hrefs|]. intros m. cbn. by rewrite !named_volume, clone_names.
  - cbn. intros h. rewrite hook_Clone_eq. apply Hhook.
Qed.

Lemma resolved_deployable s name domain : service_valid ParseDockerRef s ->
  (SName s <> "" -> name = SName s) -> name <> "" -> List.find (unhosted domain) (els (Ports s)) = None ->
  deployable domain s (resolved s name domain).
Proof.
  intros Hv Hn Hne Hf. destruct (prepared_container s) as (pull & Hc & Hpull).
  assert (Hp : els (Ports (resolved s name domain)) = all_ports name domain (els (Ports s)))
    by (cbn; by destruct (Ports s)).
  assert (Hlen : length (map (expanded name domain) (els (Ports s))) = length (els (Ports s)))
    by apply length_map.
  constructor; rewrite ?Hp.
  - destruct Hv as (_ & _ & Hmode & _). cbn. destruct (String.eqb_spec (SMode s) ""); set_solver.
  - cbn. destruct (String.eqb_spec (SMode s) "") as [E|E]; cbn.
    + destruct (N.eqb_spec (Replicas s) 0); split; intros; lia.
    + destruct (String.eqb_spec (SMode s) ServiceModeReplicated); cbn; [|done].
      destruct (N.eqb_spec (Replicas s) 0); split; intros; lia.
  - cbn [resolved Container_ with_ports with_name]. by rewrite Hc.
  - done.
  - intros i p Hi. exists (expanded name domain p). split; [|apply expanded_same].
    unfold all_ports. apply lookup_app_l_Some. by rewrite list_lookup_fmap, Hi.
  - intros i p' Hi Hl. unfold all_ports in Hl. rewrite lookup_app_r in Hl by lia.
    apply list_elem_of_lookup_2, elem_of_duplicates in Hl as (p & Hp' & -> & Hh & _).
    split; [done|]. exists p. split_and!; [done|apply same_port_hostname|done].
  - apply Forall_forall. intros p'. apply all_ports_hosted.
  - intros Hd p Hin Hh. by apply all_ports_reachable.
  - cbn [resolved Caddy Configs Placement_ PreDeploy UpdateConfig_ Volumes Container_ with_ports with_name].
    rewrite Hc. cbn. rewrite hook_Clone_eq. split_and!; try done. by destruct (Container_ s).
  - intros Hname. apply service_Validate_Ok, resolved_valid; done.
Qed.
End ResolveSpec.

(** What resolving returns. *)
Lemma Resolve_outcome {Named RefError} (ParseDockerRef : string -> result RefError Named)
  (FamiliarName : Named -> string) (r : ServiceSpecResolver) (draws : nat -> draw) (s : ServiceSpec) :
  match Resolve ParseDockerRef FamiliarName r draws s with
  | Ok s' => service_Validate ParseDockerRef s = Ok tt /\ deployable ParseDockerRef (ClusterDomain r) s s'
  | Err (SpecInvalid e) => service_Validate ParseDockerRef s = Err e
  | Err SuffixFailed => service_Validate ParseDockerRef s = Ok tt /\ SName s = "" /\
                        RandomAlphaNumeric 4 draws = None
  | Err (ClusterDomainMissing port protocol) =>
      ClusterDomain r = "" /\ exists p, p ∈ els (Ports s) /\ is_http p = true /\ Hostname p = "" /\
        ContainerPort p = port /\ Protocol p = protocol
  | Err (ImageInvalid _) => False
  end.
Proof.
  assert (Hports : forall name, match expandIngressPorts (RefError := RefError) r (with_name (prepared s) name) with
            | Ok s' => List.find (unhosted (ClusterDomain r)) (els (Ports s)) = None /\
                       s' = resolved s name (ClusterDomain r)
            | Err (ClusterDomainMissing port protocol) => ClusterDomain r = "" /\
                exists p, p ∈ els (Ports s) /\ is_http p = true /\ Hostname p = "" /\
                  ContainerPort p = port /\ Protocol p = protocol
            | Err _ => False
            end).
  { intros name. rewrite expandIngressPorts_spec. cbn [with_name prepared Ports SName].
    change (Ports (prepared s)) with (clone_slice (Ports s)). rewrite clone_slice_eq.
    destruct (List.find _ _) as [p|] eqn:Hf; [|done].
    apply find_some in Hf as [Hin Hu]. unfold unhosted in Hu. rewrite !andb_true_iff in Hu.
    destruct Hu as ((Hh & He%String.eqb_eq) & Hd%String.eqb_eq).
    split; [done|]. exists p. by rewrite list_elem_of_In. }
  assert (Hself : prepared s = with_name (prepared s) (SName s)) by done.
  unfold Resolve. fold (prepared s).
  destruct (service_Validate ParseDockerRef s) as [[]|e] eqn:Hv; cbn [wrap_err res_bind]; [|done].
  pose proof (proj1 (service_Validate_Ok ParseDockerRef s) Hv) as Hvalid.
  unfold resolveServiceName. change (SName (prepared s)) with (SName s).
  destruct (String.eqb_spec (SName s) "") as [Hn|Hn]; cbn [negb].
  - unfold GenerateServiceName. destruct (prepared_container s) as (pull & Hc & _).
    rewrite Hc. change (Image (with_pull_policy (Container_ s) pull)) with (Image (Container_ s)).
    destruct Hvalid as (Himg & Hvalid). destruct (ParseDockerRef (Image (Container_ s))) as [img|]; [|done].
    destruct (RandomAlphaNumeric 4 draws) as [suffix|]; cbn [res_bind]; [|done].
    set (name := (after_last "/" (FamiliarName img) ++ "-" ++ suffix)%string). specialize (Hports name).
    destruct (expandIngressPorts _ _) as [s'|[]]; try done. destruct Hports as [Hf ->].
    split; [done|]. apply resolved_deployable; try done; [by apply service_Validate_Ok|].
    subst name. by destruct (after_last _ _).
  - cbn [res_bind]. rewrite Hself. specialize (Hports (SName s)).
    destruct (expandIngressPorts _ _) as [s'|[]]; try done. destruct Hports as [Hf ->].
    split; [done|]. by apply resolved_deployable.
Qed.

(** ** Properties *)

(** Resolving a specification fails exactly for an invalid specification, a failure of
    the random source when a name has to be made up, or an HTTP(S) port without a hostname
    when no cluster domain is reserved, never because of the image; otherwise the result is
    deployable: mode, replicas, pull policy and name are set, every port of the user is kept
    in its place with its hostname, every HTTP(S) port has a hostname, and with a cluster
    domain every such port can be reached under it; nothing else changes, and the result is
    valid if its name is. *)
Lemma Resolve_spec {Named RefError} (ParseDockerRef : string -> result RefError Named)
  (FamiliarName : Named -> string) (r : ServiceSpecResolver) (draws : nat -> draw) (s : ServiceSpec) :
  match Resolve ParseDockerRef FamiliarName r draws s with
  | Ok s' => service_Validate ParseDockerRef s = Ok tt /\ deployable ParseDockerRef (ClusterDomain r) s s'
  | Err (SpecInvalid e) => service_Validate ParseDockerRef s = Err e
  | Err SuffixFailed => service_Validate ParseDockerRef s = Ok tt /\ SName s = "" /\
                        RandomAlphaNumeric 4 draws = None
  | Err (ClusterDomainMissing port protocol) =>
      ClusterDomain r = "" /\ exists p, p ∈ els (Ports s) /\ is_http p = true /\ Hostname p = "" /\
        ContainerPort p = port /\ Protocol p = protocol
  | Err (ImageInvalid _) => False
  end.
Proof. apply Resolve_outcome. Qed.

(** ** An image that cannot name a service

    [ParseDockerRef] accepts underscores and dots in a repository, a service name does not:
    the resolved specification is then refused when its containers are created. *)
Definition underscored : ServiceSpec :=
  mkServiceSpec None None (plain_container "my_app" []) "" "" (mkPlacement None)
    None None 0 (mkUpdateConfig "" None) None.

Example generated_name_refused :
  exists s', Resolve (RefError := unit) (fun image => Ok image) id (mkResolver "") (fun _ => Some 0%fin) underscored = Ok s' /\
    SName s' = "my_app-aaaa" /\
    service_Validate (RefError := unit) (fun image => Ok image) s' = Err (NameInvalid "my_app-aaaa").
Proof. eexists. split; [reflexivity|]. by vm_compute. Qed.

(** Resolving is not idempotent: an external hostname is duplicated every time. *)
Definition external_port : PortSpec :=
  mkPort "app.example.com" NoAddr NoPrefix 0 8080 ProtocolHTTPS PortModeIngress.

Example resolve_duplicates_again :
  exists s' s'',
    let go := Resolve (RefError := unit) (fun image => Ok image) id (mkResolver "uncld.dev") (fun _ => None) in
    go (with_ports (with_name underscored "app") (Some [external_port])) = Ok s' /\ go s' = Ok s'' /\
    map Hostname (els (Ports s')) = ["app.example.com"; "app.uncld.dev"] /\
    map Hostname (els (Ports s'')) = ["app.example.com"; "app.uncld.dev"; "app.uncld.dev"].
Proof. do 2 eexists. cbn zeta. split; [reflexivity|]. split; [reflexivity|]. by vm_compute. Qed.

(** The hostname is filled in for every HTTP(S) port, also for one in host mode, which the
    validation of a specification lets through. *)
Example host_mode_port_expanded :
  exists s', Resolve (RefError := unit) (fun image => Ok image) id (mkResolver "uncld.dev") (fun _ => None)
    (with_ports (with_name underscored "app") (Some [mkPort "" NoAddr NoPrefix 80 80 ProtocolHTTP PortModeHost]))
    = Ok s' /\ map Hostname (els (Ports s')) = ["app.uncld.dev"].
Proof. eexists. split; [reflexivity|]. by vm_compute. Qed.
