(* ===== verification/Compose.v ===== *)
(** * Compose: service specifications from a compose project, [pkg/client/compose]

    [service.go], [port.go], [config.go], [machines.go], [caddy.go], [predeploy.go] and the
    checks of [project.go], on a compose project as the compose-go library loads it: its
    structures are records of the fields the code reads, with pointers as options.  File
    contents, the SHA-256 digest and the CDI name check are parameters.  A nil dereference
    is [CPanic]. *)

From Stdlib Require Import SpecFloat.
From S2P Require Import Prelude GoStrings NetAddr NetText Port Volume ConfigSpec Spec.
#[local] Open Scope string_scope.
#[local] Open Scope list_scope.
#[local] Open Scope go_scope.

(** ** The project *)

(** [types.ServicePortConfig]; the target is a 32-bit number. *)
Record ServicePortConfig := mkPortConfig {
  pc_Target : N; pc_Published : string; pc_HostIP : string; pc_Protocol : string; pc_Mode : string
}.

Record HealthCheckConfig := mkHealthCheck {
  chc_Test : slice string;
  chc_Interval : option Z; chc_Timeout : option Z; chc_StartPeriod : option Z; chc_StartInterval : option Z;
  chc_Retries : option N; chc_Disable : bool
}.

Record UlimitsConfig := mkUlimits { Single : Z; Soft : Z; Hard : Z }.

(** [types.DeviceMapping] and [types.DeviceRequest] *)
Record ComposeDevice := mkComposeDevice { cd_Source : string; cd_Target : string; cd_Permissions : string }.
Record ComposeDeviceRequest := mkComposeDeviceRequest {
  cdr_Capabilities : slice string; cdr_Driver : string; cdr_Count : Z; cdr_IDs : slice string;
  cdr_Options : gomap string
}.

(** The limits and reservations of the [deploy] section. *)
Record Limits := mkLimits { NanoCPUs : spec_float; lim_MemoryBytes : Z }.
Record Reservations := mkReservations { res_MemoryBytes : Z; res_Devices : slice ComposeDeviceRequest }.
Record ComposeUpdateConfig := mkComposeUpdate { cu_Order : string; cu_Monitor : Z }.
Record DeployConfig := mkDeploy {
  dep_Mode : string; dep_Replicas : option Z; dep_Update : option ComposeUpdateConfig;
  dep_Limits : option Limits; dep_Reservations : option Reservations
}.

(** [types.ServiceVolumeConfig] *)
Record ServiceVolumeBind := mkServiceBind { sb_CreateHostPath : bool; sb_Propagation : string; sb_Recursive : string }.
Record ServiceVolumeVolume := mkServiceVolumeVolume { svv_NoCopy : bool; svv_Subpath : string }.
Record ServiceVolumeTmpfs := mkServiceTmpfs { st_Size : Z; st_Mode : Z }.
Record ServiceVolumeConfig := mkServiceVolume {
  sv_Type : string; sv_Source : string; sv_Target : string; sv_ReadOnly : bool;
  sv_Bind : option ServiceVolumeBind; sv_Volume : option ServiceVolumeVolume; sv_Tmpfs : option ServiceVolumeTmpfs
}.

(** [types.VolumeConfig], of a project volume *)
Record VolumeConfig := mkVolumeConfig {
  vc_Name : string; vc_Driver : string; vc_DriverOpts : gomap string; vc_External : bool;
  vc_Labels : gomap string; vc_CustomLabels : gomap string
}.

(** [types.ConfigObjConfig] and [types.ServiceConfigObjConfig] *)
Record ConfigObjConfig := mkConfigObj { co_File : string; co_Content : string; co_External : bool }.
Record ServiceConfigObjConfig := mkServiceConfigObj {
  sc_Source : string; sc_Target : string; sc_UID : string; sc_GID : string; sc_Mode : option Z
}.

(** The [x-pre_deploy] extension; an environment variable may have no value. *)
Record ComposeHook := mkComposeHook {
  ch_Command : slice string; ch_Environment : gomap (option string); ch_Privileged : option bool;
  ch_Timeout : option Z; ch_User : string
}.

(** The value of the [x-ports] extension: absent, the source strings, the specifications
    that replace them, or a value of another type. *)
Inductive PortsExtension := NoPorts | PortsSource (l : list string) | PortSpecs (l : slice PortSpec) | OtherPorts.

Record ServiceConfig := mkServiceConfig {
  s_Name : string;
  s_CapAdd : slice string; s_CapDrop : slice string; s_Command : slice string; s_Entrypoint : slice string;
  s_Environment : gmap string (option string);
  s_HealthCheck : option HealthCheckConfig;
  s_Image : string; s_Init : option bool; s_Pid : string; s_Tty : bool; s_StdinOpen : bool; s_Privileged : bool;
  s_PullPolicy : string; s_Sysctls : gomap string; s_User : string;
  s_Logging : option (string * gomap string);
  s_StopGracePeriod : option Z; s_Scale : option Z; s_Deploy : option DeployConfig;
  s_CPUS : spec_float; s_MemLimit : Z; s_MemReservation : Z; s_ShmSize : Z;
  s_Ulimits : gomap UlimitsConfig; s_Devices : list ComposeDevice; s_Gpus : slice ComposeDeviceRequest;
  s_Volumes : list ServiceVolumeConfig; s_Configs : list ServiceConfigObjConfig;
  s_Ports : list ServicePortConfig;
  x_Caddy : option string; x_Ports : PortsExtension; x_Machines : option (slice string);
  x_PreDeploy : option ComposeHook
}.

(** [types.Project] *)
Record Project := mkProject {
  p_Name : string; p_WorkingDir : string;
  p_Services : gmap string ServiceConfig;
  p_Volumes : gmap string VolumeConfig;
  p_Configs : gmap string ConfigObjConfig
}.

Inductive compose_error :=
| ServiceNotFound (name : string)
| UnsupportedPullPolicy (policy : string)
| UnsupportedDeployMode (mode : string)
| UnsupportedUpdateOrder (order : string)
| UnsupportedVolumeType (type : string)
| VolumeUsedDifferently (name : string)
| ConfigNotFound (name : string)
| ExternalConfig (name : string)
| ConfigFileUnreadable (file : string)
| PortsAndXPorts (service : string)
| XPortInvalid (port : string) (e : port_error)
| PublishedRange (published : string)
| PublishedInvalid (published : string) (e : NumError)
| HostIPOrPrefixInvalid (s : string)
| PortConfigInvalid (e : port_error)
| MachineNameEmpty (i : nat)
| CaddyFileUnreadable (path service : string)
| CaddyAndIngressPorts (service : string)
| HookInvalid (service : string).

Inductive cfault := CErr (e : compose_error) | CPanic.

(** ** Ports, [port.go] *)

(** [uint16(x)] *)
Definition uint16 (n : N) : N := (n mod 2 ^ 16)%N.

(** A single published port, 0 when there is none. *)
Definition published_port (published : string) : result compose_error N :=
  if String.eqb published "" then Ok 0%N
  else if contains_byte "-" published then Err (PublishedRange published)
  else wrap_err (PublishedInvalid published) (parse_uint 16 published).

(** The host address or prefix. *)
Definition host_address (hostIP : string) : result compose_error (addr * prefix) :=
  if String.eqb hostIP "" then Ok (NoAddr, NoPrefix)
  else match ParseAddr hostIP with
       | Some a => Ok (a, NoPrefix)
       | None => match ParsePrefix hostIP with
                 | Some p => Ok (NoAddr, p)
                 | None => Err (HostIPOrPrefixInvalid hostIP)
                 end
       end.

Definition convertServicePortConfigToPortSpec (port : ServicePortConfig) : result compose_error PortSpec :=
  let protocol := if String.eqb (pc_Protocol port) "" then ProtocolTCP else pc_Protocol port in
  let mode := if String.eqb (pc_Mode port) "" then PortModeIngress else pc_Mode port in
  let! published := published_port (pc_Published port) in
  let! host := host_address (pc_HostIP port) in
  let spec := mkPort "" (fst host) (snd host) published (uint16 (pc_Target port)) protocol mode in
  let! _ := wrap_err PortConfigInvalid (Port.Validate spec) in
  Ok spec.

Definition convertStandardPortsToPortSpecs (ports : list ServicePortConfig) : result compose_error (list PortSpec) :=
  map_ok convertServicePortConfigToPortSpec ports.

(** The result is nil for an empty source. *)
Definition transformPortsExtension (ports : list string) : result compose_error (slice PortSpec) :=
  let! specs := map_ok (fun port => wrap_err (XPortInvalid port) (ParsePortSpec port)) ports in
  Ok (match specs with [] => None | _ => Some specs end).

Definition with_x_ports (s : ServiceConfig) (x : PortsExtension) : ServiceConfig :=
  mkServiceConfig (s_Name s) (s_CapAdd s) (s_CapDrop s) (s_Command s) (s_Entrypoint s) (s_Environment s)
    (s_HealthCheck s) (s_Image s) (s_Init s) (s_Pid s) (s_Tty s) (s_StdinOpen s) (s_Privileged s) (s_PullPolicy s)
    (s_Sysctls s) (s_User s) (s_Logging s) (s_StopGracePeriod s) (s_Scale s) (s_Deploy s) (s_CPUS s) (s_MemLimit s)
    (s_MemReservation s) (s_ShmSize s) (s_Ulimits s) (s_Devices s) (s_Gpus s) (s_Volumes s) (s_Configs s) (s_Ports s)
    (x_Caddy s) x (x_Machines s) (x_PreDeploy s).

(** The function [transformServicesPortsExtension] applies to every service. *)
Definition transform_service_ports (name : string) (s : ServiceConfig) : result compose_error ServiceConfig :=
  let hasStandardPorts := Nat.ltb 0 (length (s_Ports s)) in
  let hasXPorts := match x_Ports s with NoPorts => false | _ => true end in
  if hasStandardPorts && hasXPorts then Err (PortsAndXPorts name)
  else if hasStandardPorts then
    let! specs := convertStandardPortsToPortSpecs (s_Ports s) in Ok (with_x_ports s (PortSpecs (Some specs)))
  else match x_Ports s with
       | PortsSource l => let! specs := transformPortsExtension l in Ok (with_x_ports s (PortSpecs specs))
       | _ => Ok s
       end.

(** ** Placement, [machines.go] *)
Fixpoint validate_names_from (i : nat) (machines : list string) : result compose_error (list string) :=
  match machines with
  | [] => Ok []
  | m :: rest =>
      let m := trim_space m in
      if String.eqb m "" then Err (MachineNameEmpty i)
      else let! rest := validate_names_from (S i) rest in Ok (m :: rest)
  end.

Definition validateMachineNames (machines : list string) : result compose_error (list string) :=
  validate_names_from 0 machines.

Definition parseMachineNames (machinesStr : string) : result compose_error (list string) :=
  validateMachineNames (map trim_space (split_byte "," machinesStr)).

Section Convert.
Context {HC : GoCmp} {HO : GoOrder}.
(** [os.ReadFile], the hex-encoded SHA-256 digest of a string, and the name check of the
    container device interface. *)
Context (ReadFile : string -> option string) (sha256 : string -> string) (IsQualifiedName : string -> bool).
(** The result of converting a float to an int64 it does not fit is up to the machine. *)
Context (out_of_range : spec_float -> Z).

Definition resolve_path (workingDir path : string) : string :=
  if IsAbs path then path else Join workingDir path.

(** ** Caddy, [caddy.go] *)
Definition newline : ascii := ascii_of 10.

Definition isCaddyfilePath (s : string) : bool :=
  let s := trim_space s in if String.eqb s "" then false else negb (contains_byte newline s).

Definition with_x_caddy (s : ServiceConfig) (caddy : string) : ServiceConfig :=
  mkServiceConfig (s_Name s) (s_CapAdd s) (s_CapDrop s) (s_Command s) (s_Entrypoint s) (s_Environment s)
    (s_HealthCheck s) (s_Image s) (s_Init s) (s_Pid s) (s_Tty s) (s_StdinOpen s) (s_Privileged s) (s_PullPolicy s)
    (s_Sysctls s) (s_User s) (s_Logging s) (s_StopGracePeriod s) (s_Scale s) (s_Deploy s) (s_CPUS s) (s_MemLimit s)
    (s_MemReservation s) (s_ShmSize s) (s_Ulimits s) (s_Devices s) (s_Gpus s) (s_Volumes s) (s_Configs s) (s_Ports s)
    (Some caddy) (x_Ports s) (x_Machines s) (x_PreDeploy s).

(** The function [transformServicesCaddyExtension] applies to every service. *)
Definition transform_service_caddy (workingDir name : string) (s : ServiceConfig) :
  result compose_error ServiceConfig :=
  match x_Caddy s with
  | None => Ok s
  | Some config =>
      let! content := (if isCaddyfilePath config then
                         match ReadFile (resolve_path workingDir config) with
                         | Some content => Ok content
                         | None => Err (CaddyFileUnreadable config name)
                         end
                       else Ok config) in
      Ok (with_x_caddy s (trim_space content))
  end.

(** ** Configs, [config.go] *)
Record configs_acc := mkConfigsAcc { ca_specs : gmap string ConfigSpec; ca_mounts : list ConfigMount }.

(** The config object of a mount, read once. *)
Definition config_spec (configs : gmap string ConfigObjConfig) (workingDir : string)
  (specs : gmap string ConfigSpec) (source : string) : result compose_error ConfigSpec :=
  match configs !! source with
  | None => Err (ConfigNotFound source)
  | Some cfg =>
      if co_External cfg then Err (ExternalConfig source)
      else match specs !! source with
           | Some spec => Ok spec
           | None =>
               if String.eqb (co_File cfg) "" then Ok (mkConfig source (Some (co_Content cfg)))
               else match ReadFile (resolve_path workingDir (co_File cfg)) with
                    | Some content => Ok (mkConfig source (Some content))
                    | None => Err (ConfigFileUnreadable (co_File cfg))
                    end
           end
  end.

Definition config_mount (spec : ConfigSpec) (sc : ServiceConfigObjConfig) : ConfigMount :=
  mkConfigMount (cfg_Name spec)
    (if String.eqb (sc_Target sc) "" then ("/" ++ sc_Source sc)%string else sc_Target sc)
    (sc_UID sc) (sc_GID sc) (sc_Mode sc).

Fixpoint configs_loop (configs : gmap string ConfigObjConfig) (workingDir : string) (acc : configs_acc)
  (serviceConfigs : list ServiceConfigObjConfig) : result compose_error configs_acc :=
  match serviceConfigs with
  | [] => Ok acc
  | sc :: rest =>
      let! spec := config_spec configs workingDir (ca_specs acc) (sc_Source sc) in
      configs_loop configs workingDir
        (mkConfigsAcc (<[sc_Source sc := spec]> (ca_specs acc)) (ca_mounts acc ++ [config_mount spec sc])) rest
  end.

Definition nil_if_empty {A} (l : list A) : slice A := match l with [] => None | _ => Some l end.

Definition configSpecsFromCompose (configs : gmap string ConfigObjConfig)
  (serviceConfigs : list ServiceConfigObjConfig) (workingDir : string) :
  result compose_error (slice ConfigSpec * slice ConfigMount) :=
  let! acc := configs_loop configs workingDir (mkConfigsAcc ∅ []) serviceConfigs in
  Ok (nil_if_empty (map snd (range_map 0 (ca_specs acc))), nil_if_empty (ca_mounts acc)).

(** ** Volumes *)
Definition bindVolumeSpecFromCompose (sv : ServiceVolumeConfig) : VolumeSpec :=
  mkVolume ("bind-" ++ sha256 (sv_Target sv)) VolumeTypeBind
    (Some match sv_Bind sv with
          | Some b => mkBind (sv_Source sv) (sb_CreateHostPath b) (sb_Propagation b) (sb_Recursive b)
          | None => mkBind (sv_Source sv) false "" ""
          end) None None.

(** [mergeLabels]: the later map wins. *)
Definition mergeLabels (labels : list (gomap string)) : gmap string string :=
  fold_left (fun merged l => entries l ∪ merged) labels ∅.

Definition dockerVolumeSpecFromCompose (sv : ServiceVolumeConfig) (volume : VolumeConfig) : VolumeSpec :=
  let labels := mergeLabels [vc_Labels volume; vc_CustomLabels volume] in
  mkVolume (sv_Source sv) VolumeTypeVolume None None
    (Some (mkVolumeOptions
      (if negb (vc_External volume) &&
          (negb (String.eqb (vc_Driver volume) "") || Nat.ltb 0 (size (entries (vc_DriverOpts volume))))
       then Some (mkDriver (vc_Driver volume) (vc_DriverOpts volume)) else None)
      (if negb (vc_External volume) && Nat.ltb 0 (size labels) then Some labels else None)
      (vc_Name volume)
      (match sv_Volume sv with Some v => svv_NoCopy v | None => false end)
      (match sv_Volume sv with Some v => svv_Subpath v | None => "" end))).

Definition tmpfsVolumeSpecFromCompose (sv : ServiceVolumeConfig) : result cfault VolumeSpec :=
  match sv_Tmpfs sv with
  | None => Err CPanic
  | Some t => Ok (mkVolume ("tmpfs-" ++ sha256 (sv_Target sv)) VolumeTypeTmpfs None
                    (Some (mkTmpfs (st_Size t) (st_Mode t) None)) None)
  end.

(** [volumes[source]]: the zero value of a volume the project does not define. *)
Definition project_volume (volumes : gmap string VolumeConfig) (source : string) : VolumeConfig :=
  default (mkVolumeConfig "" "" None false None None) (volumes !! source).

Definition volume_spec (volumes : gmap string VolumeConfig) (sv : ServiceVolumeConfig) : result cfault VolumeSpec :=
  if String.eqb (sv_Type sv) "bind" then Ok (bindVolumeSpecFromCompose sv)
  else if String.eqb (sv_Type sv) "volume"
  then Ok (dockerVolumeSpecFromCompose sv (project_volume volumes (sv_Source sv)))
  else if String.eqb (sv_Type sv) "tmpfs" then tmpfsVolumeSpecFromCompose sv
  else Err (CErr (UnsupportedVolumeType (sv_Type sv))).

Fixpoint volumes_loop (volumes : gmap string VolumeConfig) (specs : gmap string VolumeSpec)
  (mounts : list VolumeMount) (serviceVolumes : list ServiceVolumeConfig) :
  result cfault (gmap string VolumeSpec * list VolumeMount) :=
  match serviceVolumes with
  | [] => Ok (specs, mounts)
  | sv :: rest =>
      let! spec := volume_spec volumes sv in
      let mounts := mounts ++ [mkMount (vol_Name spec) (sv_Target sv) (sv_ReadOnly sv)] in
      match specs !! vol_Name spec with
      | Some existing =>
          if Volume.Equals existing spec then volumes_loop volumes specs mounts rest
          else Err (CErr (VolumeUsedDifferently (vol_Name spec)))
      | None => volumes_loop volumes (<[vol_Name spec := spec]> specs) mounts rest
      end
  end.

Definition volumeSpecsFromCompose (volumes : gmap string VolumeConfig) (serviceVolumes : list ServiceVolumeConfig) :
  result cfault (slice VolumeSpec * slice VolumeMount) :=
  let! res := volumes_loop volumes ∅ [] serviceVolumes in
  Ok (nil_if_empty (map snd (range_map 1 (fst res))), nil_if_empty (snd res)).

(** ** Healthcheck and resources *)
Definition healthcheckFromCompose (hc : option HealthCheckConfig) : option HealthcheckSpec :=
  match hc with
  | None => None
  | Some hc =>
      if chc_Disable hc then Some (mkHealthcheck None 0 0 0 0 0 true)
      else Some (mkHealthcheck (chc_Test hc) (default 0%Z (chc_Interval hc)) (default 0%Z (chc_Timeout hc))
                   (default 0%Z (chc_StartPeriod hc)) (default 0%Z (chc_StartInterval hc))
                   (default 0%N (chc_Retries hc)) false)
  end.

(** The truncation of a float, and its conversion to an int64. *)
Definition float_trunc (f : spec_float) : option Z :=
  match f with
  | S754_zero _ => Some 0%Z
  | S754_finite s m e =>
      let v := if (0 <=? e)%Z then (Z.pos m * 2 ^ e)%Z else (Z.pos m / 2 ^ (- e))%Z in
      Some (if s then - v else v)%Z
  | _ => None
  end.

Definition int64_of_float (f : spec_float) : Z :=
  match float_trunc f with
  | Some z => if ((- 2 ^ 63 <=? z) && (z <? 2 ^ 63))%Z then z else out_of_range f
  | None => out_of_range f
  end.

(** [int64(cpus * 1e9)] for a float32. *)
Definition nano_cpus (cpus : spec_float) : Z :=
  int64_of_float (SFmul 24 128 cpus (S754_finite false 15625000 6)).

Definition ulimit_of (u : UlimitsConfig) : Ulimit :=
  let soft := if negb (Single u =? 0)%Z && (Soft u =? 0)%Z then Single u else Soft u in
  let hard := if negb (Single u =? 0)%Z && (Hard u =? 0)%Z then Single u else Hard u in
  mkUlimit soft hard.

Definition ulimitsFromCompose (ulimits : gomap UlimitsConfig) : gomap Ulimit :=
  if Nat.eqb (size (entries ulimits)) 0 then None else Some (ulimit_of <$> entries ulimits).

Definition device_request (extraCapabilities : list string) (d : ComposeDeviceRequest) : DeviceRequest :=
  mkDeviceRequest (cdr_Driver d) (cdr_Count d) (cdr_IDs d)
    (Some [match cdr_Capabilities d, extraCapabilities with
           | None, [] => None
           | c, extra => Some (els c ++ extra)
           end]) (cdr_Options d).

Definition deviceReservationsFromCompose (devices : slice ComposeDeviceRequest) (extraCapabilities : list string) :
  slice DeviceRequest :=
  match devices with
  | None => None
  | Some l => Some (map (device_request extraCapabilities) l)
  end.

(** [append(s, xs...)]: nil stays nil when nothing is appended. *)
Definition append_slice {A} (s : slice A) (xs : list A) : slice A :=
  match s, xs with None, [] => None | _, _ => Some (els s ++ xs) end.

Definition is_cdi (d : ComposeDevice) : bool :=
  String.eqb (cd_Source d) (cd_Target d) && IsQualifiedName (cd_Source d).

Definition positive_float (f : spec_float) : bool := SFltb (S754_zero false) f.

Definition resourcesFromCompose (s : ServiceConfig) : ContainerResources :=
  let devices := omap (fun d => if is_cdi d then None
                                else Some (mkDevice (cd_Source d) (cd_Target d) (cd_Permissions d))) (s_Devices s) in
  let cdi := omap (fun d => if is_cdi d then Some (cd_Source d) else None) (s_Devices s) in
  let reservations : slice DeviceRequest :=
    if Nat.ltb 0 (length cdi) then Some [mkDeviceRequest "cdi" 0 (Some cdi) None None] else None in
  let reservations := append_slice reservations (els (deviceReservationsFromCompose (s_Gpus s) ["gpu"])) in
  let limits := s_Deploy s ≫= dep_Limits in
  let reserved := s_Deploy s ≫= dep_Reservations in
  mkResources
    (match limits with
     | Some l => if positive_float (NanoCPUs l) then nano_cpus (NanoCPUs l) else nano_cpus (s_CPUS s)
     | None => nano_cpus (s_CPUS s) end)
    (match limits with
     | Some l => if (0 <? lim_MemoryBytes l)%Z then lim_MemoryBytes l else s_MemLimit s
     | None => s_MemLimit s end)
    (match reserved with
     | Some r => if (0 <? res_MemoryBytes r)%Z then res_MemoryBytes r else s_MemReservation s
     | None => s_MemReservation s end)
    (nil_if_empty devices)
    (match reserved with
     | Some r => append_slice reservations (els (deviceReservationsFromCompose (res_Devices r) []))
     | None => reservations end)
    (s_ShmSize s)
    (ulimitsFromCompose (s_Ulimits s)).

(** ** Services *)

(** [uint(x)] of an int on a 64-bit platform. *)
Definition uint_of_int (x : Z) : N := Z.to_N (x mod 2 ^ 64).

Definition pull_policy (policy : string) : result compose_error string :=
  if String.eqb policy "always" then Ok PullPolicyAlways
  else if one_of policy [""; "missing"; "if_not_present"] then Ok PullPolicyMissing
  else if String.eqb policy "never" then Ok PullPolicyNever
  else Err (UnsupportedPullPolicy policy).

(** The variables that have a value. *)
Definition env_values (env : gmap string (option string)) : gmap string string := omap id env.

Definition update_order (order : string) : result compose_error string :=
  if String.eqb order "" then Ok ""
  else if String.eqb order "start-first" then Ok UpdateOrderStartFirst
  else if String.eqb order "stop-first" then Ok UpdateOrderStopFirst
  else Err (UnsupportedUpdateOrder order).

(** Mode, replicas and update configuration, from [scale] and the [deploy] section. *)
Definition deploy_config (scale : option Z) (deploy : option DeployConfig) :
  result compose_error (string * N * UpdateConfig) :=
  let replicas := match scale with Some n => uint_of_int n | None => 0%N end in
  match deploy with
  | None => Ok (ServiceModeReplicated, replicas, mkUpdateConfig "" None)
  | Some d =>
      let! mr := (if String.eqb (dep_Mode d) "global" then Ok (ServiceModeGlobal, replicas)
                  else if one_of (dep_Mode d) [""; "replicated"] then
                    Ok (ServiceModeReplicated, match dep_Replicas d with Some n => uint_of_int n | None => replicas end)
                  else Err (UnsupportedDeployMode (dep_Mode d))) in
      match dep_Update d with
      | None => Ok (fst mr, snd mr, mkUpdateConfig "" None)
      | Some cfg => let! order := update_order (cu_Order cfg) in
                    Ok (fst mr, snd mr, mkUpdateConfig order (Some (cu_Monitor cfg)))
      end
  end.

Definition hookFromCompose (h : ComposeHook) : PreDeployHook :=
  mkHook (ch_Command h) (env_values <$> ch_Environment h) (ch_Privileged h) (ch_Timeout h) (ch_User h).

Definition log_driver (logging : option (string * gomap string)) : option LogDriver :=
  match logging with
  | Some (driver, options) => if String.eqb driver "" then None else Some (mkLogDriver driver options)
  | None => None
  end.

(** [ServiceSpecFromCompose]; [found] is what the library's [GetService] returns. *)
Definition ServiceSpecFromCompose (project : Project) (found : option ServiceConfig) (serviceName : string) :
  result cfault ServiceSpec :=
  match found with
  | None => Err (CErr (ServiceNotFound serviceName))
  | Some s =>
      let! pull := wrap_err CErr (pull_policy (s_PullPolicy s)) in
      let! d := wrap_err CErr (deploy_config (s_Scale s) (s_Deploy s)) in
      let! volumes := volumeSpecsFromCompose (p_Volumes project) (s_Volumes s) in
      let! configs := wrap_err CErr (configSpecsFromCompose (p_Configs project) (s_Configs s) (p_WorkingDir project)) in
      Ok (mkServiceSpec
        (match x_Caddy s with
         | Some config => if String.eqb config "" then None else Some (mkCaddy config)
         | None => None end)
        (fst configs)
        (mkContainerSpec (s_CapAdd s) (s_CapDrop s) (s_Command s) (s_Entrypoint s) (Some (env_values (s_Environment s)))
           (healthcheckFromCompose (s_HealthCheck s)) (s_Image s) (s_Init s) (log_driver (s_Logging s)) (s_Pid s) (s_Tty s)
           (s_StdinOpen s) (s_Privileged s) pull (resourcesFromCompose s) (s_StopGracePeriod s) (s_Sysctls s) (s_User s)
           (snd volumes) (snd configs) None)
        (fst (fst d)) serviceName
        (mkPlacement (default None (x_Machines s)))
        (match x_Ports s with PortSpecs l => l | _ => None end)
        (hookFromCompose <$> x_PreDeploy s)
        (snd (fst d)) (snd d) (fst volumes))
  end.

(** ** Checks on the loaded project *)
Definition hook_ok (h : ComposeHook) : bool := negb (Nat.eqb (length (els (ch_Command h))) 0).

(** One round of [validateServicesExtensions]. *)
Definition validate_service_extensions (s : ServiceConfig) : result compose_error unit :=
  let hasCaddy := match x_Caddy s with Some config => negb (String.eqb config "") | None => false end in
  let! _ := (match x_Ports s with
             | PortSpecs l => if Nat.ltb 0 (length (els l)) && hasCaddy && existsb is_ingress (els l)
                              then Err (CaddyAndIngressPorts (s_Name s)) else Ok tt
             | _ => Ok tt
             end) in
  match x_PreDeploy s with
  | Some h => if hook_ok h then Ok tt else Err (HookInvalid (s_Name s))
  | None => Ok tt
  end.
End Convert.

(** ** Lemmas *)
Section Facts.
Context {HC : GoCmp} {HO : GoOrder}.
Context (ReadFile : string -> option string) (sha256 : string -> string).

(** The name of the volume a service volume is converted to. *)
Definition volume_name (sv : ServiceVolumeConfig) : string :=
  if String.eqb (sv_Type sv) "bind" then "bind-" ++ sha256 (sv_Target sv)
  else if String.eqb (sv_Type sv) "volume" then sv_Source sv
  else "tmpfs-" ++ sha256 (sv_Target sv).

Definition volume_mount (sv : ServiceVolumeConfig) : VolumeMount :=
  mkMount (volume_name sv) (sv_Target sv) (sv_ReadOnly sv).

Lemma volume_spec_Ok volumes sv v : volume_spec sha256 volumes sv = Ok v ->
  vol_Name v = volume_name sv /\ (sv_Type sv = "bind" \/ sv_Type sv = "volume" \/ sv_Type sv = "tmpfs") /\
  (vol_Name v <> "" -> Volume.Validate v = Ok tt).
Proof.
  unfold volume_spec, volume_name.
  destruct (String.eqb_spec (sv_Type sv) "bind") as [E|E]; [intros [= <-]; by split_and!; [|left|]|].
  destruct (String.eqb_spec (sv_Type sv) "volume") as [E'|E'].
  { intros [= <-]. split_and!; [done|by right; left|]. cbn. intros Hne. unfold Volume.Validate. cbn.
    by rewrite (proj2 (String.eqb_neq _ _) Hne). }
  destruct (String.eqb_spec (sv_Type sv) "tmpfs"); [|done]. unfold tmpfsVolumeSpecFromCompose.
  destruct (sv_Tmpfs sv); [|done]. intros [= <-]. split_and!; [done|by right; right|done].
Qed.

(** The specifications collected from the service volumes [done]: keyed by name, each for one
    of them, and every one of them is described. *)
Record collected (volumes : gmap string VolumeConfig) (done : list ServiceVolumeConfig)
  (specs : gmap string VolumeSpec) : Prop := {
  col_from k v : specs !! k = Some v ->
    vol_Name v = k /\ exists sv, sv ∈ done /\ volume_spec sha256 volumes sv = Ok v;
  col_all sv : sv ∈ done -> exists v v', volume_spec sha256 volumes sv = Ok v /\
    specs !! volume_name sv = Some v' /\ (v' = v \/ Volume.Equals v' v = true)
}.

Lemma volumes_loop_spec volumes specs mounts svs done specs' mounts' :
  collected volumes done specs ->
  volumes_loop sha256 volumes specs mounts svs = Ok (specs', mounts') ->
  mounts' = mounts ++ map volume_mount svs /\ collected volumes (done ++ svs) specs'.
Proof.
  revert specs mounts done; induction svs as [|sv svs IH]; intros specs mounts done Hcol; cbn [volumes_loop].
  { intros [= <- <-]. by rewrite !app_nil_r. }
  destruct (volume_spec sha256 volumes sv) as [v|] eqn:Hv; cbn [res_bind]; [|discriminate].
  destruct (volume_spec_Ok _ _ _ Hv) as (Hname & _).
  rewrite (cons_middle sv done svs), (app_assoc done [sv] svs). intros H.
  assert (Hgo : forall specs1, collected volumes (done ++ [sv]) specs1 ->
            volumes_loop sha256 volumes specs1 (mounts ++ [mkMount (vol_Name v) (sv_Target sv) (sv_ReadOnly sv)]) svs
              = Ok (specs', mounts') ->
            mounts' = mounts ++ map volume_mount (sv :: svs) /\ collected volumes ((done ++ [sv]) ++ svs) specs').
  { intros specs1 H1 H2. destruct (IH _ _ _ H1 H2) as [-> ?]. split; [|done].
    rewrite <- app_assoc. cbn. unfold volume_mount at 2. by rewrite Hname. }
  destruct Hcol as [Hfrom Hall]. destruct (specs !! vol_Name v) as [existing|] eqn:He.
  - destruct (Volume.Equals existing v) eqn:Heq; [|discriminate]. apply (Hgo specs); [|done]. constructor.
    + intros k w Hk. destruct (Hfrom _ _ Hk) as (? & sv' & ? & ?). split; [done|]. exists sv'.
      rewrite elem_of_app. auto.
    + intros sv' [Hin|Hin%list_elem_of_singleton]%elem_of_app; [by apply Hall|]. subst sv'.
      exists v, existing. rewrite <- Hname. auto.
  - apply (Hgo (<[vol_Name v := v]> specs)); [|done]. constructor.
    + intros k w [[<- <-]|[? Hk]]%lookup_insert_Some.
      * split; [done|]. exists sv. rewrite elem_of_app, list_elem_of_singleton. auto.
      * destruct (Hfrom _ _ Hk) as (? & sv' & ? & ?). split; [done|]. exists sv'. rewrite elem_of_app. auto.
    + intros sv' [Hin|Hin%list_elem_of_singleton]%elem_of_app.
      * destruct (Hall sv' Hin) as (w & w' & Hw & Hw' & ?). exists w, w'. split; [done|]. split; [|done].
        rewrite lookup_insert_ne; [done|]. intros E. rewrite <- E in Hw'. by rewrite He in Hw'.
      * subst sv'. exists v, v. rewrite <- Hname, lookup_insert_eq. auto.
Qed.

(** The mount of a service config; only the name of the config matters. *)
Definition mount_of (sc : ServiceConfigObjConfig) : ConfigMount := config_mount (mkConfig (sc_Source sc) None) sc.

(** The content of a project config: its file's, or the inline one. *)
Definition config_content (configs : gmap string ConfigObjConfig) (workingDir source : string) (content : string) :
  Prop :=
  exists cfg, configs !! source = Some cfg /\ co_External cfg = false /\
    if String.eqb (co_File cfg) "" then content = co_Content cfg
    else ReadFile (resolve_path workingDir (co_File cfg)) = Some content.

(** The configs collected from the mounts of the sources [done]. *)
Definition collected_configs (configs : gmap string ConfigObjConfig) (workingDir : string) (done : list string)
  (specs : gmap string ConfigSpec) : Prop :=
  (forall k c, specs !! k = Some c -> k ∈ done /\ exists content, c = mkConfig k (Some content) /\
     config_content configs workingDir k content) /\
  forall k, k ∈ done -> is_Some (specs !! k).

Lemma config_spec_Ok configs workingDir done specs source spec :
  collected_configs configs workingDir done specs ->
  config_spec ReadFile configs workingDir specs source = Ok spec ->
  cfg_Name spec = source /\ collected_configs configs workingDir (done ++ [source]) (<[source := spec]> specs).
Proof.
  intros [Hfrom Hall] H.
  assert (Hspec : exists content, spec = mkConfig source (Some content) /\ config_content configs workingDir source content).
  { revert H. unfold config_spec. destruct (configs !! source) as [cfg|] eqn:Hc; [|done].
    destruct (co_External cfg) eqn:Hx; [done|]. destruct (specs !! source) as [c|] eqn:Hs.
    - intros [= <-]. by destruct (Hfrom _ _ Hs) as [_ ?].
    - destruct (String.eqb (co_File cfg) "") eqn:Hf.
      + intros [= <-]. eexists. split; [done|]. exists cfg. by rewrite Hf.
      + destruct (ReadFile _) as [content|] eqn:Hr; [|done]. intros [= <-]. eexists. split; [done|].
        exists cfg. by rewrite Hf. }
  destruct Hspec as (content & -> & Hcontent). split; [done|]. split.
  - intros k c [[<- <-]|[? Hk]]%lookup_insert_Some.
    + split; [|by exists content]. apply elem_of_app. right. by left.
    + destruct (Hfrom _ _ Hk) as [? ?]. split; [|done]. apply elem_of_app. by left.
  - intros k Hk. destruct (decide (k = source)) as [->|Hne]; [rewrite lookup_insert_eq; eauto|].
    rewrite lookup_insert_ne by done. apply Hall.
    apply elem_of_app in Hk as [|Hk%list_elem_of_singleton]; done.
Qed.

Lemma configs_loop_spec configs workingDir acc scs done acc' :
  collected_configs configs workingDir done (ca_specs acc) ->
  configs_loop ReadFile configs workingDir acc scs = Ok acc' ->
  ca_mounts acc' = ca_mounts acc ++ map mount_of scs /\
  collected_configs configs workingDir (done ++ map sc_Source scs) (ca_specs acc').
Proof.
  revert acc done; induction scs as [|sc scs IH]; intros acc done Hcol; cbn [configs_loop].
  { intros [= <-]. by rewrite !app_nil_r. }
  destruct (config_spec _ _ _ _ _) as [spec|] eqn:Hs; cbn [res_bind]; [|done].
  destruct (config_spec_Ok _ _ _ _ _ _ Hcol Hs) as [Hn Hcol']. intros H.
  destruct (IH (mkConfigsAcc _ _) (done ++ [sc_Source sc]) Hcol' H) as [Hm Hc]. cbn [map].
  rewrite (cons_middle (sc_Source sc) done), (app_assoc done). split; [|done]. rewrite Hm. cbn. rewrite <- app_assoc. cbn.
  unfold mount_of at 2, config_mount. cbn. by rewrite Hn.
Qed.
End Facts.

Section Converted.
Context {HC : GoCmp} {HO : GoOrder} {Named RefError : Type} (ParseDockerRef : string -> result RefError Named).
Context (ReadFile : string -> option string) (sha256 : string -> string) (IsQualifiedName : string -> bool)
  (out_of_range : spec_float -> Z).

(** What has to be right in the compose file for the specification to be accepted. *)
Record acceptable (s : ServiceConfig) (spec : ServiceSpec) : Prop := {
  acc_image : is_ok (ParseDockerRef (s_Image s)) = true;
  acc_name : validate_name (RefError := RefError) (SName spec) = Ok tt;
  acc_ports : Forall (fun p => is_ingress p = true -> Protocol p ∈ [ProtocolHTTP; ProtocolHTTPS]) (els (Ports spec));
  acc_caddy : CaddyConfig spec <> "" -> Forall (fun p => is_ingress p = false) (els (Ports spec));
  acc_volumes : Forall (fun sv => has_prefix "/" (sv_Target sv) = true /\ (sv_Type sv = "volume" -> sv_Source sv <> ""))
                  (s_Volumes s);
  acc_configs : Forall (fun sc => validateConfigMount (mount_of sc) = Ok tt) (s_Configs s);
  acc_hook : forall h, PreDeploy spec = Some h -> els (hook_Command h) <> []
}.

(** The volumes and configs of a converted specification. *)
Record converted (project : Project) (s : ServiceConfig) (spec : ServiceSpec) : Prop := {
  cv_mounts : els (VolumeMounts (Container_ spec)) = map (volume_mount sha256) (s_Volumes s);
  cv_config_mounts : els (ConfigMounts (Container_ spec)) = map mount_of (s_Configs s);
  cv_volume_names : NoDup (map vol_Name (els (Volumes spec)));
  cv_volumes_from v : v ∈ els (Volumes spec) ->
    exists sv, sv ∈ s_Volumes s /\ volume_spec sha256 (p_Volumes project) sv = Ok v;
  cv_volumes sv : sv ∈ s_Volumes s -> exists v v', volume_spec sha256 (p_Volumes project) sv = Ok v /\
    v' ∈ els (Volumes spec) /\ vol_Name v' = volume_name sha256 sv /\ (v' = v \/ Volume.Equals v' v = true);
  cv_config_names : NoDup (map cfg_Name (els (Configs spec)));
  cv_configs c : c ∈ els (Configs spec) -> exists content, c = mkConfig (cfg_Name c) (Some content) /\
    cfg_Name c ∈ map sc_Source (s_Configs s) /\
    config_content ReadFile (p_Configs project) (p_WorkingDir project) (cfg_Name c) content;
  cv_configs_all sc : sc ∈ s_Configs s -> sc_Source sc ∈ map cfg_Name (els (Configs spec))
}.

Lemma els_nil_if_empty {A} (l : list A) : els (nil_if_empty l) = l.
Proof. by destruct l. Qed.

(** The values of a map whose keys are determined by the values are distinct by key. *)
Lemma values_NoDup {V} site (m : gmap string V) (key : V -> string) :
  (forall k v, m !! k = Some v -> key v = k) -> NoDup (map key (map snd (range_map site m))).
Proof.
  intros Hkey. assert (Hfst : map key (map snd (range_map site m)) = map fst (range_map site m)).
  { rewrite map_map. apply map_ext_in. intros [k v] Hin%list_elem_of_In%elem_of_range_map. by apply Hkey. }
  rewrite Hfst. unfold range_map. rewrite any_order_perm. apply NoDup_fst_map_to_list.
Qed.

Lemma elem_of_values {V} site (m : gmap string V) v : v ∈ map snd (range_map site m) <-> exists k, m !! k = Some v.
Proof.
  rewrite list_elem_of_fmap. split.
  - intros ([k w] & -> & Hin%elem_of_range_map). eauto.
  - intros [k Hk%(elem_of_range_map site)]. by exists (k, v).
Qed.

Lemma conversion project s name spec :
  ServiceSpecFromCompose ReadFile sha256 IsQualifiedName out_of_range project (Some s) name = Ok spec ->
  converted project s spec /\ SName spec = name /\ Image (Container_ spec) = s_Image s /\
  SMode spec ∈ [ServiceModeGlobal; ServiceModeReplicated].
Proof.
  unfold ServiceSpecFromCompose. destruct (pull_policy _) as [pull|]; cbn [wrap_err res_bind]; [|discriminate].
  destruct (deploy_config _ _) as [d|] eqn:Hd; cbn [wrap_err res_bind]; [|discriminate].
  unfold volumeSpecsFromCompose, configSpecsFromCompose.
  destruct (volumes_loop _ _ _ _ _) as [[vs ms]|] eqn:Hv; cbn [wrap_err res_bind]; [|discriminate].
  destruct (configs_loop _ _ _ _ _) as [acc|] eqn:Hc; cbn [wrap_err res_bind]; [|discriminate].
  intros [= <-]. cbn [SName Container_ Image SMode].
  apply (volumes_loop_spec sha256 (p_Volumes project) ∅ [] (s_Volumes s) []) in Hv as [Hms [Hfrom Hall]];
    [|by constructor; [|intros ? ?%not_elem_of_nil]].
  apply (configs_loop_spec ReadFile _ _ _ _ []) in Hc as [Hcm [Hcfrom Hcall]];
    [|by split; [|intros ? ?%not_elem_of_nil]].
  assert (Hmode : fst (fst d) ∈ [ServiceModeGlobal; ServiceModeReplicated]).
  { revert Hd. unfold deploy_config. destruct (s_Deploy s) as [dc|]; [|intros [= <-]; right; left].
    destruct (String.eqb (dep_Mode dc) "global"); [|destruct (one_of _ _); [|done]]; cbn [res_bind];
      (destruct (dep_Update dc) as [cfg|]; [destruct (update_order _); [|done]|]); intros [= <-]; cbn; set_solver. }
  split; [|done]. constructor; cbn [Container_ VolumeMounts ConfigMounts Volumes Configs fst snd];
    rewrite ?els_nil_if_empty.
  - exact Hms.
  - exact Hcm.
  - apply values_NoDup. intros k v Hk. by apply Hfrom in Hk as [? _].
  - intros v [k Hk]%elem_of_values. by apply Hfrom in Hk as [_ ?].
  - intros sv Hsv. destruct (Hall sv Hsv) as (v & v' & H1 & H2 & H3). exists v, v'. split_and!; try done.
    + apply elem_of_values. eauto.
    + by apply Hfrom in H2 as [? _].
  - apply values_NoDup. intros k c Hk. by apply Hcfrom in Hk as (_ & ? & -> & _).
  - intros c [k Hk]%elem_of_values. apply Hcfrom in Hk as (Hin & content & -> & Hcontent). by exists content.
  - intros sc Hsc. assert (Hin : sc_Source sc ∈ [] ++ map sc_Source (s_Configs s)) by (apply list_elem_of_fmap; eauto).
    destruct (Hcall _ Hin) as [c Hk]. apply list_elem_of_fmap. exists c.
    apply Hcfrom in Hk as Hname. destruct Hname as (_ & ? & -> & _). split; [done|]. apply elem_of_values. eauto.
Qed.

Lemma converted_valid project s spec : converted project s spec ->
  Image (Container_ spec) = s_Image s -> SMode spec ∈ [ServiceModeGlobal; ServiceModeReplicated] ->
  service_Validate ParseDockerRef spec = Ok tt <-> acceptable s spec.
Proof.
  intros [Hm Hcm Hvn Hvf Hva Hcn Hcf Hca] Himg Hmode. rewrite service_Validate_Ok.
  assert (Hmounts : Forall (fun m => validateMount m = Ok tt) (els (VolumeMounts (Container_ spec))) <->
    Forall (fun sv => has_prefix "/" (sv_Target sv) = true /\ (sv_Type sv = "volume" -> sv_Source sv <> "")) (s_Volumes s)).
  { rewrite Hm, Forall_map, !Forall_forall. apply forall_proper. intros sv. apply forall_proper. intros Hin.
    destruct (Hva sv Hin) as (v & _ & Hv & _). apply volume_spec_Ok in Hv as (_ & Ht & _).
    unfold validateMount, volume_mount, volume_name. cbn.
    destruct Ht as [->|[->| ->]]; cbn; [by destruct (has_prefix _ _); naive_solver| |by destruct (has_prefix _ _); naive_solver].
    destruct (String.eqb_spec (sv_Source sv) ""); destruct (has_prefix _ _); naive_solver. }
  assert (Hcfgs : ValidateConfigsAndMounts (els (Configs spec)) (els (ConfigMounts (Container_ spec))) = Ok tt <->
    Forall (fun sc => validateConfigMount (mount_of sc) = Ok tt) (s_Configs s)).
  { rewrite ValidateConfigsAndMounts_Ok, Hcm, Forall_map. cbn.
    split; [intros (_ & _ & H); eapply Forall_impl; [exact H|]; by intros sc []|].
    intros H. split_and!; [|done|].
    - apply Forall_forall. intros c Hc. destruct (Hcf c Hc) as (_ & _ & (sc & Hsc & Hin)%list_elem_of_fmap & _).
      rewrite Forall_forall in H. specialize (H sc Hin). unfold validateConfigMount in H. cbn in H. rewrite <- Hsc in H.
      by destruct (String.eqb_spec (cfg_Name c) "").
    - apply Forall_forall. intros sc Hin. rewrite Forall_forall in H. split; [by apply H|by apply Hca]. }
  unfold service_valid. rewrite Himg, Hmounts, Hcfgs, <- (validate_name_Ok ParseDockerRef). split.
  - intros (H1 & H2 & _ & H3 & H4 & H5 & _ & _ & _ & H6 & H7). by constructor.
  - intros [H1 H2 H3 H4 H5 H6 H7]. split_and!; try done.
    + set_solver.
    + apply Forall_forall. intros v Hv. destruct (Hvf v Hv) as (sv & Hin & Hok).
      apply volume_spec_Ok in Hok as (Hn & Ht & Hval). apply Hval. rewrite Hn. unfold volume_name.
      rewrite Forall_forall in H5. destruct (H5 sv Hin) as [_ Hsrc].
      destruct Ht as [->|[E| ->]]; [done| |done]. rewrite E. cbn. by apply Hsrc.
    + rewrite Hm, Forall_map. apply Forall_forall. intros sv Hin.
      destruct (Hva sv Hin) as (_ & v' & _ & Hv' & Hn & _). by exists v'.
Qed.
End Converted.

Lemma published_port_spec s :
  match published_port s with
  | Ok n => s = "" /\ n = 0%N \/ parse_uint 16 s = Ok n
  | Err (PublishedRange s') => s' = s /\ contains_byte "-" s' = true
  | Err (PublishedInvalid s' e) => s' = s /\ parse_uint 16 s' = Err e
  | Err _ => False
  end.
Proof.
  unfold published_port. destruct (String.eqb_spec s ""); [by left|].
  destruct (contains_byte _ _) eqn:?; [done|]. destruct (parse_uint _ _) eqn:?; [by right|done].
Qed.

Lemma host_address_spec s :
  match host_address s with
  | Ok (a, p) => s = "" /\ a = NoAddr /\ p = NoPrefix \/ ParseAddr s = Some a /\ p = NoPrefix \/
                 ParseAddr s = None /\ a = NoAddr /\ ParsePrefix s = Some p
  | Err (HostIPOrPrefixInvalid s') => s' = s /\ ParseAddr s' = None /\ ParsePrefix s' = None
  | Err _ => False
  end.
Proof.
  unfold host_address. destruct (String.eqb_spec s ""); [by left|].
  destruct (ParseAddr s) eqn:?; [right; by left|]. destruct (ParsePrefix s) eqn:?; [by right; right|done].
Qed.

(** ** Properties *)

(** A service converted from a compose file mounts what the file says, in order; its
    volumes have distinct names, each described by a service volume, and every mount has its
    volume (conflicting descriptions are an error); its configs likewise, with the content
    the project gives them.  So the specification is valid exactly when the image reference,
    the name, the ports, the proxy configuration, the mount paths and the hook are. *)
Lemma ServiceSpecFromCompose_converts {HC : GoCmp} {HO : GoOrder} {Named RefError}
  (ParseDockerRef : string -> result RefError Named) (ReadFile : string -> option string) (sha256 : string -> string)
  (IsQualifiedName : string -> bool) (out_of_range : spec_float -> Z)
  (project : Project) (s : ServiceConfig) (name : string) (spec : ServiceSpec) :
  ServiceSpecFromCompose ReadFile sha256 IsQualifiedName out_of_range project (Some s) name = Ok spec ->
  converted ReadFile sha256 project s spec /\
  (service_Validate ParseDockerRef spec = Ok tt <-> acceptable ParseDockerRef s spec).
Proof.
  intros (Hconv & _ & Himg & Hmode)%(conversion ParseDockerRef). split; [done|].
  by eapply (converted_valid ParseDockerRef ReadFile sha256 project).
Qed.

(** A service with one named volume mounted twice and one inline config. *)
Definition compose_service : ServiceConfig :=
  mkServiceConfig "web" None None None None ∅ None "nginx" None "" false false false "" None "" None None (Some 2)%Z
    None (S754_zero false) 0 0 0 None [] None
    [mkServiceVolume "volume" "data" "/data" false None None None;
     mkServiceVolume "volume" "data" "/copy" true None None None]
    [mkServiceConfigObj "conf" "" "" "" None] [] None NoPorts None None.
Definition compose_project : Project :=
  mkProject "app" "/srv/app" {[ "web" := compose_service ]} ∅ {[ "conf" := mkConfigObj "" "key=1" false ]}.

Definition compose_example : result cfault ServiceSpec :=
  @ServiceSpecFromCompose go_cmp_decide go_identity_order (fun _ => None) (fun s => s) (fun _ => false) (fun _ => 0%Z)
    compose_project (Some compose_service) "web".

(** C39: a port of a compose file is converted to a valid port specification with its protocol
    and mode (by default TCP and ingress), its published port and host address; the
    container port is the target modulo 2^16, so a target that does not fit is not reported
    but becomes another port, or is refused when it becomes 0. *)
Theorem compose_port_converts (port : ServicePortConfig) :
  match convertServicePortConfigToPortSpec port with
  | Ok p => Port.Validate p = Ok tt /\ Hostname p = "" /\
      ContainerPort p = (pc_Target port mod 65536)%N /\ ContainerPort p <> 0%N /\
      (Protocol p = pc_Protocol port \/ pc_Protocol port = "" /\ Protocol p = ProtocolTCP) /\
      (Mode p = pc_Mode port \/ pc_Mode port = "" /\ Mode p = PortModeIngress) /\
      (pc_Published port = "" /\ PublishedPort p = 0%N \/
       parse_uint 16 (pc_Published port) = Ok (PublishedPort p)) /\
      (pc_HostIP port = "" /\ HostIP p = NoAddr /\ HostPrefix p = NoPrefix \/
       ParseAddr (pc_HostIP port) = Some (HostIP p) /\ HostPrefix p = NoPrefix \/
       ParseAddr (pc_HostIP port) = None /\ HostIP p = NoAddr /\ ParsePrefix (pc_HostIP port) = Some (HostPrefix p))
  | Err (PublishedRange s) => s = pc_Published port /\ contains_byte "-" s = true
  | Err (PublishedInvalid s e) => s = pc_Published port /\ parse_uint 16 s = Err e
  | Err (HostIPOrPrefixInvalid s) => s = pc_HostIP port /\ ParseAddr s = None /\ ParsePrefix s = None
  | Err (PortConfigInvalid e) => exists p, Port.Validate p = Err e /\ ContainerPort p = (pc_Target port mod 65536)%N
  | Err _ => False
  end.
Proof.
  unfold convertServicePortConfigToPortSpec.
  pose proof (published_port_spec (pc_Published port)) as Hpub.
  destruct (published_port (pc_Published port)) as [published|[]]; cbn [res_bind]; try done.
  pose proof (host_address_spec (pc_HostIP port)) as Hhost.
  destruct (host_address (pc_HostIP port)) as [[a p]|[]]; cbn [res_bind fst snd]; try done.
  set (spec := mkPort _ _ _ _ _ _ _). destruct (Port.Validate spec) as [[]|e] eqn:Hv; cbn [wrap_err res_bind].
  - split_and!; try done; cbn.
    + unfold Port.Validate in Hv. by destruct (N.eqb_spec (ContainerPort spec) 0).
    + destruct (String.eqb_spec (pc_Protocol port) ""); auto.
    + destruct (String.eqb_spec (pc_Mode port) ""); auto.
  - by exists spec.
Qed.

Example port_truncated :
  exists p, convertServicePortConfigToPortSpec (mkPortConfig 65616 "8080" "" "tcp" "host") = Ok p /\ ContainerPort p = 80%N.
Proof. eexists. split; reflexivity. Qed.

(** A tmpfs volume whose options the loader left out. *)
Example tmpfs_without_options volumes :
  volume_spec (fun s => s) volumes (mkServiceVolume "tmpfs" "" "/tmp" false None None None) = Err CPanic.
Proof. reflexivity. Qed.

(** 0.1 CPUs as a float32 is exactly 100000000 nano CPUs. *)
Example tenth_of_a_cpu : nano_cpus (fun _ => 0%Z) (S754_finite false 13421773 (-27)) = 100000000%Z.
Proof. reflexivity. Qed.

Example joined_paths : Join "/srv/app" "../conf/./Caddyfile" = "/srv/conf/Caddyfile" /\ Join "" "a//b/" = "a/b".
Proof. split; reflexivity. Qed.
