(* ===== verification/Secrets.v ===== *)
(** * Secrets: secret references in a compose project, [pkg/client/compose/secret.go]

    Services refer to secrets in the values of their environment variables.  Reading files
    and running commands are parameters; [calls] records the secrets whose value was asked
    for, in order.  The services and their environments are ranged over in any order. *)

From Stdlib Require Import Cantor.
From S2P Require Import Prelude GoStrings.
#[local] Open Scope string_scope.
#[local] Open Scope list_scope.

Definition SecretRefPrefix := "secret://".
Definition secretExecDriver := "exec".

(** [types.SecretConfig] *)
Record SecretConfig := mkSecret {
  sec_File : string; sec_Environment : string; sec_Driver : string; sec_DriverOpts : gomap string;
  sec_External : bool
}.

(** The environments of the services of a project; a variable may have no value. *)
Abbreviation environment := (gmap string (option string)).

Inductive secret_error :=
| UnsupportedDriver (name driver : string)
| DriverCommandMissing (name : string)
| DriverAndSource (name : string)
| SecretUndefined (name : string)
| EnvironmentUnset (name variable : string)
| SecretFileUnreadable (name : string)
| CommandFailed (name : string)
| SecretWithoutSource (name : string).

(** [secretRefName] *)
Definition secretRefName (ref : string) : option string :=
  match cut_prefix SecretRefPrefix ref with
  | Some name => if String.eqb name "" then None else Some name
  | None => None
  end.

(** ** [validateSecrets] *)
Definition driver_option (s : SecretConfig) (key : string) : string := default "" (entries (sec_DriverOpts s) !! key).

Definition clear_external (s : SecretConfig) : SecretConfig :=
  mkSecret (sec_File s) (sec_Environment s) (sec_Driver s) (sec_DriverOpts s) false.

(** One round of the loop. *)
Definition validate_secret (name : string) (s : SecretConfig) : result secret_error unit :=
  if String.eqb (sec_Driver s) "" then Ok tt
  else if negb (String.eqb (sec_Driver s) secretExecDriver) then Err (UnsupportedDriver name (sec_Driver s))
  else if String.eqb (driver_option s "command") "" then Err (DriverCommandMissing name)
  else if negb (String.eqb (sec_File s) "") || negb (String.eqb (sec_Environment s) "") then Err (DriverAndSource name)
  else Ok tt.

(** The external marker of a secret with a driver is cleared before it is checked. *)
Fixpoint validate_loop (secrets : gmap string SecretConfig) (todo : list (string * SecretConfig)) :
  gmap string SecretConfig * result secret_error unit :=
  match todo with
  | [] => (secrets, Ok tt)
  | (name, s) :: rest =>
      let secrets := if String.eqb (sec_Driver s) "" then secrets else <[name := clear_external s]> secrets in
      match validate_secret name s with
      | Err e => (secrets, Err e)
      | Ok _ => validate_loop secrets rest
      end
  end.

Definition validateSecrets `{GoOrder} (secrets : gmap string SecretConfig) :
  gmap string SecretConfig * result secret_error unit :=
  validate_loop secrets (range_map 0 secrets).

(** ** Values *)
Section Resolve.
Context {HO : GoOrder}.
(** [os.ReadFile], the output of a command, and the environment of the project. *)
Context (ReadFile : string -> option string) (run_command : string -> option string)
  (project_env : gmap string string).

Definition lf : string := utf8 [10]%nat.
Definition cr : string := utf8 [13]%nat.

(** A single trailing newline is removed. *)
Definition strip_newline (out : string) : string :=
  match cut_suffix lf out with
  | Some trimmed => default trimmed (cut_suffix cr trimmed)
  | None => out
  end.

Definition secretValue (name : string) (s : SecretConfig) : result secret_error string :=
  if negb (String.eqb (sec_Environment s) "") then
    match project_env !! sec_Environment s with
    | Some v => Ok v
    | None => Err (EnvironmentUnset name (sec_Environment s))
    end
  else if negb (String.eqb (sec_File s) "") then
    match ReadFile (sec_File s) with Some v => Ok v | None => Err (SecretFileUnreadable name) end
  else if String.eqb (sec_Driver s) secretExecDriver then
    match run_command (driver_option s "command") with
    | Some out => Ok (strip_newline out)
    | None => Err (CommandFailed name)
    end
  else Err (SecretWithoutSource name).

Context (secrets : gmap string SecretConfig).

(** The values found so far, and the secrets whose value was asked for. *)
Record resolver := mkResolver { values : gmap string string; calls : list string }.

(** The closure [resolve]. *)
Definition resolve (r : resolver) (name : string) : resolver * result secret_error string :=
  match values r !! name with
  | Some v => (r, Ok v)
  | None =>
      match secrets !! name with
      | None => (r, Err (SecretUndefined name))
      | Some s =>
          let r := mkResolver (values r) (calls r ++ [name]) in
          match secretValue name s with
          | Err e => (r, Err e)
          | Ok v => (mkResolver (<[name := v]> (values r)) (calls r), Ok v)
          end
      end
  end.

(** The loop over the environment of a service, changed in place. *)
Fixpoint resolve_env (r : resolver) (env : environment) (todo : list (string * option string)) :
  resolver * environment * result secret_error unit :=
  match todo with
  | [] => (r, env, Ok tt)
  | (k, v) :: rest =>
      match v ≫= secretRefName with
      | None => resolve_env r env rest
      | Some name =>
          match resolve r name with
          | (r, Err e) => (r, env, Err e)
          | (r, Ok value) => resolve_env r (<[k := Some value]> env) rest
          end
      end
  end.

Fixpoint resolve_services (i : nat) (r : resolver) (services : gmap string environment)
  (todo : list (string * environment)) : resolver * gmap string environment * result secret_error unit :=
  match todo with
  | [] => (r, services, Ok tt)
  | (name, env) :: rest =>
      let '(r, env', res) := resolve_env r env (range_map (Cantor.to_nat (1, i)) env) in
      let services := <[name := env']> services in
      match res with
      | Err e => (r, services, Err e)
      | Ok _ => resolve_services (S i) r services rest
      end
  end.

Definition ResolveSecrets (services : gmap string environment) :
  resolver * gmap string environment * result secret_error unit :=
  resolve_services 0 (mkResolver ∅ []) services (range_map 0 services).

(** [HasCommandSecretRefs]; the order of the ranges does not matter to a search. *)
Definition is_command_ref (v : option string) : bool :=
  match v ≫= secretRefName with
  | Some name => match secrets !! name with Some s => String.eqb (sec_Driver s) secretExecDriver | None => false end
  | None => false
  end.

Definition HasCommandSecretRefs (services : gmap string environment) : bool :=
  existsb (fun ne => existsb (fun kv => is_command_ref kv.2) (range_map 2 ne.2)) (range_map 0 services).
End Resolve.

(** ** Lemmas *)
Section Facts.
Context {HO : GoOrder} (ReadFile : string -> option string) (run_command : string -> option string)
  (project_env : gmap string string) (secrets : gmap string SecretConfig).

(** The value of a secret, if it is defined and can be had. *)
Definition value_of (name : string) : option string :=
  match secrets !! name with
  | Some s => match secretValue ReadFile run_command project_env name s with Ok v => Some v | Err _ => None end
  | None => None
  end.

(** What a variable becomes; [None] if it refers to a secret without a value. *)
Definition resolved_var (v : option string) : option (option string) :=
  match v ≫= secretRefName with
  | None => Some v
  | Some name => Some <$> value_of name
  end.

(** The resolver asks for a secret once and remembers what it got. *)
Record good (r : resolver) : Prop := {
  good_once : NoDup (calls r);
  good_known : forall n, n ∈ calls r <-> is_Some (values r !! n);
  good_values : forall n v, values r !! n = Some v -> value_of n = Some v
}.

Lemma resolve_spec r name : good r ->
  match resolve ReadFile run_command project_env secrets r name with
  | (r', Ok v) => good r' /\ value_of name = Some v /\ forall n, n ∈ calls r' <-> n ∈ calls r \/ n = name
  | (r', Err _) => value_of name = None /\ NoDup (calls r') /\ forall n, n ∈ calls r' -> n ∈ calls r \/ n = name
  end.
Proof.
  intros [H1 H2 H3]. unfold resolve. destruct (values r !! name) as [v|] eqn:Hv.
  { split; [done|]. split; [by apply H3|]. intros n. split; [by left|]. intros [|E]; [done|]. subst n. apply H2. eauto. }
  assert (Hnew : name ∉ calls r) by (rewrite H2, Hv; by intros []).
  assert (Hnd : NoDup (calls r ++ [name])).
  { apply NoDup_app. split_and!; [done| |apply NoDup_singleton]. intros x Hx ->%list_elem_of_singleton. done. }
  unfold value_of. destruct (secrets !! name) as [s|] eqn:Hs; [|by split_and!; [|done|left]].
  assert (Hin : forall n, n ∈ calls r ++ [name] <-> n ∈ calls r \/ n = name)
    by (intros n; by rewrite elem_of_app, list_elem_of_singleton).
  destruct (secretValue _ _ _ name s) as [v|e] eqn:Hval; cbn [calls values].
  - split; [|done]. constructor; cbn [calls values]; [done| |].
    + intros n. rewrite Hin, H2. destruct (decide (n = name)) as [->|Hne];
        [rewrite lookup_insert_eq|rewrite lookup_insert_ne by done]; naive_solver.
    + intros n w [[<- <-]|[? Hn]]%lookup_insert_Some; [unfold value_of; by rewrite Hs, Hval|by apply H3].
  - split; [done|]. split; [done|]. intros n. apply Hin.
Qed.

(** The secrets a list of variables refers to. *)
Definition refers (vars : list (string * option string)) (n : string) : Prop :=
  exists k v, (k, v) ∈ vars /\ v ≫= secretRefName = Some n.

Lemma refers_cons k v vars n : refers ((k, v) :: vars) n <-> v ≫= secretRefName = Some n \/ refers vars n.
Proof. unfold refers. setoid_rewrite elem_of_cons. naive_solver. Qed.

Lemma resolve_env_spec r env todo : good r -> NoDup (map fst todo) ->
  match resolve_env ReadFile run_command project_env secrets r env todo with
  | (r', env', Ok _) => good r' /\ (forall n, n ∈ calls r' <-> n ∈ calls r \/ refers todo n) /\
      (forall k v, (k, v) ∈ todo -> env !! k = Some v -> exists v', resolved_var v = Some v' /\ env' !! k = Some v') /\
      forall k, k ∉ map fst todo -> env' !! k = env !! k
  | (r', _, Err _) => NoDup (calls r') /\ (forall n, n ∈ calls r' -> n ∈ calls r \/ refers todo n) /\
      exists n, refers todo n /\ value_of n = None
  end.
Proof.
  revert r env; induction todo as [|[k v] todo IH]; intros r env Hr Hnd; cbn [resolve_env].
  { split_and!; [done| |by intros ? ? ?%not_elem_of_nil|done]. intros n. split; [by left|].
    intros [|(? & ? & ?%not_elem_of_nil & _)]; done. }
  cbn [map fst] in Hnd. apply NoDup_cons in Hnd as [Hk Hnd].
  destruct (v ≫= secretRefName) as [name|] eqn:Href.
  - pose proof (resolve_spec r name Hr) as Hres. destruct (resolve _ _ _ _ r name) as [r1 [value|e]].
    + destruct Hres as (Hr1 & Hval & Hc1). specialize (IH r1 (<[k := Some value]> env) Hr1 Hnd).
      destruct (resolve_env _ _ _ _ r1 _ todo) as [[r' env'] [[]|e]].
      * destruct IH as (Hr' & Hc' & Hin & Hout). split_and!; [done| | |].
        -- intros n. rewrite Hc', Hc1, refers_cons, Href. naive_solver.
        -- intros k' v' [[= -> ->]|Hkv]%elem_of_cons Henv.
           ++ exists (Some value). split; [unfold resolved_var; by rewrite Href, Hval|].
              rewrite Hout by done. by rewrite lookup_insert_eq.
           ++ apply Hin; [done|]. rewrite lookup_insert_ne; [done|]. intros <-.
              apply Hk, list_elem_of_fmap. by exists (k, v').
        -- intros k' Hk'. cbn in Hk'. apply not_elem_of_cons in Hk' as [Hne Hk'].
           rewrite Hout by done. by rewrite lookup_insert_ne.
      * destruct IH as (Hnd' & Hc' & n & Hn & Hnone). split_and!; [done| |exists n; rewrite refers_cons; auto].
        intros m Hm. rewrite refers_cons, Href. destruct (Hc' m Hm) as [Hm'|]; [apply Hc1 in Hm' as [| ->]|]; auto.
    + destruct Hres as (Hnone & Hnd1 & Hc1). split_and!; [done| |exists name; rewrite refers_cons; auto].
      intros m Hm. rewrite refers_cons, Href. destruct (Hc1 m Hm) as [| ->]; auto.
  - specialize (IH r env Hr Hnd). destruct (resolve_env _ _ _ _ r env todo) as [[r' env'] [[]|e]].
    + destruct IH as (Hr' & Hc' & Hin & Hout). split_and!; [done| | |].
      * intros n. rewrite Hc', refers_cons, Href. naive_solver.
      * intros k' v' [[= -> ->]|Hkv]%elem_of_cons Henv; [|by apply Hin].
        exists v. split; [unfold resolved_var; by rewrite Href|]. by rewrite Hout.
      * intros k' Hk'. cbn in Hk'. apply not_elem_of_cons in Hk' as [Hne Hk']. by apply Hout.
    + destruct IH as (Hnd' & Hc' & n & Hn & Hnone). split_and!; [done| |exists n; rewrite refers_cons; auto].
      intros m Hm. rewrite refers_cons. destruct (Hc' m Hm); auto.
Qed.

(** The variables of the project refer to a secret. *)
Definition env_refers (env : environment) (n : string) : Prop :=
  exists k v, env !! k = Some v /\ v ≫= secretRefName = Some n.

Definition referenced (services : list (string * environment)) (n : string) : Prop :=
  exists name env, (name, env) ∈ services /\ env_refers env n.

Definition resolved_env (env env' : environment) : Prop :=
  forall k, match env !! k with
            | Some v => exists v', resolved_var v = Some v' /\ env' !! k = Some v'
            | None => env' !! k = None
            end.

Lemma refers_range site env n : refers (range_map site env) n <-> env_refers env n.
Proof. unfold refers, env_refers. by setoid_rewrite elem_of_range_map. Qed.

Lemma range_keys site {V} (m : gmap string V) : NoDup (map fst (range_map site m)).
Proof. unfold range_map. rewrite any_order_perm. apply NoDup_fst_map_to_list. Qed.

Lemma resolve_env_all site r env : good r ->
  match resolve_env ReadFile run_command project_env secrets r env (range_map site env) with
  | (r', env', Ok _) => good r' /\ (forall n, n ∈ calls r' <-> n ∈ calls r \/ env_refers env n) /\ resolved_env env env'
  | (r', _, Err _) => NoDup (calls r') /\ (forall n, n ∈ calls r' -> n ∈ calls r \/ env_refers env n) /\
      exists n, env_refers env n /\ value_of n = None
  end.
Proof.
  intros Hr. pose proof (resolve_env_spec r env (range_map site env) Hr (range_keys site env)) as H.
  destruct (resolve_env _ _ _ _ r env _) as [[r' env'] [[]|e]]; setoid_rewrite refers_range in H; [|done].
  destruct H as (? & ? & Hin & Hout). split_and!; [done..|]. intros k. destruct (env !! k) as [v|] eqn:Hk.
  - apply Hin; [by apply elem_of_range_map|done].
  - rewrite Hout; [done|]. intros ([k' v] & E & Hkv%elem_of_range_map)%list_elem_of_fmap. cbn in E. subst k'. by rewrite Hkv in Hk.
Qed.

Lemma referenced_cons name env services n :
  referenced ((name, env) :: services) n <-> env_refers env n \/ referenced services n.
Proof. unfold referenced. setoid_rewrite elem_of_cons. naive_solver. Qed.

Lemma resolve_services_spec i r services todo : good r -> NoDup (map fst todo) ->
  match resolve_services ReadFile run_command project_env secrets i r services todo with
  | (r', services', Ok _) => NoDup (calls r') /\ (forall n, n ∈ calls r' <-> n ∈ calls r \/ referenced todo n) /\
      (forall name env, (name, env) ∈ todo -> exists env', services' !! name = Some env' /\ resolved_env env env') /\
      forall name, name ∉ map fst todo -> services' !! name = services !! name
  | (r', _, Err _) => NoDup (calls r') /\ (forall n, n ∈ calls r' -> n ∈ calls r \/ referenced todo n) /\
      exists n, referenced todo n /\ value_of n = None
  end.
Proof.
  revert i r services; induction todo as [|[name env] todo IH]; intros i r services Hr Hnd; cbn [resolve_services].
  { split_and!; [apply Hr| |by intros ? ? ?%not_elem_of_nil|done]. intros n. split; [by left|].
    intros [|(? & ? & ?%not_elem_of_nil & _)]; done. }
  cbn [map fst] in Hnd. apply NoDup_cons in Hnd as [Hk Hnd].
  pose proof (resolve_env_all (Cantor.to_nat (1, i)) r env Hr) as He.
  destruct (resolve_env _ _ _ _ r env _) as [[r1 env1] [[]|e]].
  - destruct He as (Hr1 & Hc1 & Henv). specialize (IH (S i) r1 (<[name := env1]> services) Hr1 Hnd).
    destruct (resolve_services _ _ _ _ (S i) r1 _ todo) as [[r' services'] [[]|e]].
    + destruct IH as (Hnd' & Hc' & Hin & Hout). split_and!; [done| | |].
      * intros n. rewrite Hc', Hc1, referenced_cons. tauto.
      * intros name' env' [[= -> ->]|Hne]%elem_of_cons; [|by apply Hin].
        exists env1. split; [|done]. rewrite Hout by done. by rewrite lookup_insert_eq.
      * intros name' Hn'. cbn in Hn'. apply not_elem_of_cons in Hn' as [Hne Hn'].
        rewrite Hout by done. by rewrite lookup_insert_ne.
    + destruct IH as (Hnd' & Hc' & n & Hn & Hnone). split_and!; [done| |exists n; rewrite referenced_cons; auto].
      intros m Hm. rewrite referenced_cons. destruct (Hc' m Hm) as [Hm'|]; [apply Hc1 in Hm'|]; tauto.
  - destruct He as (Hnd1 & Hc1 & n & Hn & Hnone). split_and!; [done| |exists n; rewrite referenced_cons; auto].
    intros m Hm. rewrite referenced_cons. destruct (Hc1 m Hm); auto.
Qed.

Lemma good_empty : good (mkResolver ∅ []).
Proof.
  constructor; cbn; [constructor| |by intros ? ? ?%lookup_empty_Some].
  intros n. rewrite lookup_empty. split; [by intros ?%not_elem_of_nil|by intros []].
Qed.
End Facts.

(** What resolving the secrets of a project returns. *)
Lemma ResolveSecrets_outcome {HO : GoOrder} (ReadFile : string -> option string) (run_command : string -> option string)
  (project_env : gmap string string) (secrets : gmap string SecretConfig) (services : gmap string environment) :
  let refers n := exists name env, services !! name = Some env /\ env_refers env n in
  let value := value_of ReadFile run_command project_env secrets in
  match ResolveSecrets ReadFile run_command project_env secrets services with
  | (r, services', Ok _) =>
      NoDup (calls r) /\ (forall n, n ∈ calls r <-> refers n) /\ (forall n, refers n -> is_Some (value n)) /\
      forall name, match services !! name with
                   | Some env => exists env', services' !! name = Some env' /\
                                   resolved_env ReadFile run_command project_env secrets env env'
                   | None => services' !! name = None
                   end
  | (r, _, Err _) =>
      NoDup (calls r) /\ (forall n, n ∈ calls r -> refers n) /\ exists n, refers n /\ value n = None
  end.
Proof.
  cbn zeta. unfold ResolveSecrets.
  pose proof (resolve_services_spec ReadFile run_command project_env secrets 0 (mkResolver ∅ []) services
    (range_map 0 services) (good_empty _ _ _ _) (range_keys 0 services)) as H.
  assert (Hrefs : forall n, referenced (range_map 0 services) n <->
            exists name env, services !! name = Some env /\ env_refers env n)
    by (intros n; unfold referenced; by setoid_rewrite elem_of_range_map).
  destruct (resolve_services _ _ _ _ 0 _ services _) as [[r services'] [[]|e]];
    destruct H as (Hnd & Hcalls & H); cbn [calls] in Hcalls; setoid_rewrite Hrefs in Hcalls.
  - destruct H as (Hin & Hout). split_and!; [done| | |].
    + intros n. rewrite Hcalls. split; [intros [?%not_elem_of_nil|]; done|by right].
    + intros n (name & env & Hs & k & v & Hv & Href).
      destruct (Hin name env) as (env' & _ & Henv); [by apply elem_of_range_map|].
      specialize (Henv k). rewrite Hv in Henv. destruct Henv as (v' & Hv' & _).
      unfold resolved_var in Hv'. rewrite Href in Hv'. destruct (value_of _ _ _ _ n); [eauto|discriminate Hv'].
    + intros name. destruct (services !! name) as [env|] eqn:Hs; [by apply Hin, elem_of_range_map|].
      rewrite Hout; [done|]. intros ([k v] & E & Hkv%elem_of_range_map)%list_elem_of_fmap. cbn in E. subst k. by rewrite Hkv in Hs.
  - split_and!; [done| |].
    + intros n Hn. destruct (Hcalls n Hn) as [?%not_elem_of_nil|]; done.
    + destruct H as (n & Hn & Hnone). exists n. by rewrite <- Hrefs.
Qed.

(** ** Properties *)

(** Resolving the secret references of a project succeeds exactly when every referenced
    secret has a value; then every variable that refers to a secret has the secret's value,
    the other variables and services are unchanged, and the values asked for (each may run a
    command) are those of the referenced secrets, once each, in whatever order the maps are
    ranged over.  Also on failure, no secret is asked for twice or without a reference. *)
Lemma ResolveSecrets_spec {HO : GoOrder} (ReadFile : string -> option string) (run_command : string -> option string)
  (project_env : gmap string string) (secrets : gmap string SecretConfig) (services : gmap string environment) :
  let refers n := exists name env, services !! name = Some env /\ env_refers env n in
  let value := value_of ReadFile run_command project_env secrets in
  match ResolveSecrets ReadFile run_command project_env secrets services with
  | (r, services', Ok _) =>
      NoDup (calls r) /\ (forall n, n ∈ calls r <-> refers n) /\ (forall n, refers n -> is_Some (value n)) /\
      forall name, match services !! name with
                   | Some env => exists env', services' !! name = Some env' /\
                                   resolved_env ReadFile run_command project_env secrets env env'
                   | None => services' !! name = None
                   end
  | (r, _, Err _) =>
      NoDup (calls r) /\ (forall n, n ∈ calls r -> refers n) /\ exists n, refers n /\ value n = None
  end.
Proof. apply ResolveSecrets_outcome. Qed.

(** Trailing newlines: one is stripped, with its carriage return; the rest is kept. *)
Example stripped : strip_newline ("token" ++ cr ++ lf) = "token" /\ strip_newline ("token" ++ lf ++ lf) = ("token" ++ lf)%string
  /\ strip_newline ("token" ++ cr) = ("token" ++ cr)%string.
Proof. split_and!; reflexivity. Qed.
