(* ===== verification/Container.v ===== *)
(** * Container: running containers and services, [pkg/api/container.go], [service.go]

    A container is the part of Docker's inspect response the code reads, with instants as
    integers counted from Go's zero time (a text that does not parse is [None]); a service
    container adds the specification it was created from. *)

From S2P Require Import Prelude GoStrings NetAddr NetText Port Volume ConfigSpec Spec.
#[local] Open Scope string_scope.

Definition DockerNetworkName := "uncloud".
Definition LabelManaged := "uncloud.managed".
Definition LabelServiceID := "uncloud.service.id".
Definition LabelServiceName := "uncloud.service.name".
Definition LabelServiceMode := "uncloud.service.mode".
Definition LabelServicePorts := "uncloud.service.ports".
Definition LabelHook := "uncloud.service.hook".
Definition LabelHookPreDeploy := "pre-deploy".

(** The states of a health check in the Docker API. *)
Definition Starting := "starting".
Definition HealthHealthy := "healthy".

(** The fields of [container.InspectResponse] that are read. *)
Record ContainerState := mkState {
  Running : bool; Paused : bool; Restarting : bool; Dead : bool;
  ExitCode : Z;
  Status : string;
  Health : option string;                 (* the status of the health check *)
  StartedAt : option Z;
  FinishedAt : option Z
}.

Record Container := mkContainer {
  ID : string;
  Name : string;
  Created : option Z;
  State : ContainerState;
  Labels : gomap string;
  ConfigImage : string;
  HealthTest : option (slice string);     (* Config.Healthcheck and its Test *)
  Networks : gomap string                 (* network name -> IP address text *)
}.

Definition CreatedTime (c : Container) : Z := default 0%Z (Created c).

Definition HasHealthcheck (c : Container) : bool :=
  match HealthTest c with
  | None => false
  | Some test => match els test with
                 | first :: _ => negb (String.eqb first "NONE")
                 | [] => true
                 end
  end.

Definition Healthy (c : Container) : bool :=
  let s := State c in
  if negb (Running s) || Paused s || Restarting s then false
  else match Health s with
       | None => true
       | Some status => String.eqb status HealthHealthy
       end.

Inductive state_error := StartedTimeInvalid | FinishedTimeInvalid.

(** [now] is the current time, [HumanDuration] go-units' rendering of a duration. *)
Definition HumanState (HumanDuration : Z -> string) (now : Z) (c : Container) :
  result state_error string :=
  let s := State c in
  match StartedAt s, FinishedAt s with
  | None, _ => Err StartedTimeInvalid
  | _, None => Err FinishedTimeInvalid
  | Some startedAt, Some finishedAt =>
      let up := "Up " ++ HumanDuration (now - startedAt)%Z in
      let code := if (ExitCode s <? 0)%Z then "-" ++ sprint (- ExitCode s) else sprint (ExitCode s) in
      let ago := "(" ++ code ++ ") " ++ HumanDuration (now - finishedAt)%Z ++ " ago" in
      Ok (if Running s then
            if Paused s then up ++ " (Paused)"
            else if Restarting s then "Restarting " ++ ago
            else match Health s with
                 | Some status =>
                     up ++ " (" ++ (if String.eqb status Starting then "health: " ++ status else status) ++ ")"
                 | None => up
                 end
          else if String.eqb (Status s) "removing" then "Removal In Progress"
          else if Dead s then "Dead"
          else if (startedAt =? 0)%Z then "Created"
          else if (finishedAt =? 0)%Z then ""
          else "Exited " ++ ago)
  end.

Definition UncloudNetworkIP (c : Container) : addr :=
  match entries (Networks c) !! DockerNetworkName with
  | None => NoAddr
  | Some text => default NoAddr (ParseAddr text)
  end.

Record ServiceContainer := mkServiceContainer { ctr : Container; spec : ServiceSpec }.

Definition label (c : ServiceContainer) (key : string) : string :=
  default "" (entries (Labels (ctr c)) !! key).

Definition ServiceID (c : ServiceContainer) : string := label c LabelServiceID.
Definition ServiceName (c : ServiceContainer) : string := label c LabelServiceName.
Definition ServiceMode (c : ServiceContainer) : string := SMode (spec c).
Definition IsHook (c : ServiceContainer) : bool :=
  match entries (Labels (ctr c)) !! LabelHook with Some _ => true | None => false end.

Definition ServicePorts (c : ServiceContainer) : result port_error (slice PortSpec) :=
  match entries (Labels (ctr c)) !! LabelServicePorts with
  | None => Ok None
  | Some encoded =>
      if String.eqb (trim_space encoded) "" then Ok None
      else match map_ok (fun p => ParsePortSpec (trim_space p)) (split_byte "," encoded) with
           | Err e => Err e
           | Ok ports => Ok (Some ports)
           end
  end.

Definition host_ports_conflict (svcPort p : PortSpec) : bool :=
  if negb (String.eqb (Mode svcPort) PortModeHost) ||
     negb (PublishedPort svcPort =? PublishedPort p)%N ||
     negb (String.eqb (Protocol svcPort) (Protocol p)) then false
  else negb (IsValid (HostIP svcPort)) || negb (IsValid (HostIP p)) ||
       match addr_Compare (HostIP svcPort) (HostIP p) with Eq => true | _ => false end.

Fixpoint conflicting_ports (svcPorts : list PortSpec) (ports : list PortSpec) : list PortSpec :=
  match ports with
  | [] => []
  | p :: rest =>
      if negb (String.eqb (Mode p) PortModeHost) then conflicting_ports svcPorts rest
      else (omap (fun sp => if host_ports_conflict sp p then Some p else None) svcPorts ++
            conflicting_ports svcPorts rest)%list
  end.

Definition ConflictingServicePorts (c : ServiceContainer) (ports : list PortSpec) :
  result port_error (list PortSpec) :=
  match ServicePorts c with
  | Err e => Err e
  | Ok svcPorts => Ok (conflicting_ports (els svcPorts) ports)
  end.

(** ** Services *)
Record MachineServiceContainer := mkMSC {
  MachineID : string; MachineName : string; svc_ctr : ServiceContainer
}.

Record Service := mkService {
  svc_ID : string; svc_Name : string; svc_Mode : string;
  Containers : list MachineServiceContainer;
  HookContainers : list MachineServiceContainer
}.

Inductive find_error := MultipleContainers (prefix : string) | NotFound.

Definition msc_ID (c : MachineServiceContainer) : string := ID (ctr (svc_ctr c)).
Definition msc_Name (c : MachineServiceContainer) : string := Name (ctr (svc_ctr c)).

(** The loop of [FindContainer]: an exact match ends it, prefix matches are collected. *)
Fixpoint find_loop (nameOrID : string) (cs prefixMatches : list MachineServiceContainer) :
  MachineServiceContainer + list MachineServiceContainer :=
  match cs with
  | [] => inr prefixMatches
  | c :: rest =>
      if String.eqb (msc_ID c) nameOrID || String.eqb (msc_Name c) nameOrID then inl c
      else find_loop nameOrID rest
             (if has_prefix nameOrID (msc_ID c) then prefixMatches ++ [c] else prefixMatches)%list
  end.

Definition FindContainer (s : Service) (nameOrID : string) : result find_error MachineServiceContainer :=
  match find_loop nameOrID (Containers s ++ HookContainers s)%list [] with
  | inl c => Ok c
  | inr [c] => Ok c
  | inr [] => Err NotFound
  | inr _ => Err (MultipleContainers nameOrID)
  end.

(** The elements of a set, in no particular order. *)
Definition MachineIDs `{GoOrder} (site : nat) (s : Service) : list string :=
  any_order site (elements (list_to_set (map MachineID (Containers s)) : gset string)).

Definition Images (s : Service) : list string :=
  sort_strings (elements (list_to_set (map (fun c => ConfigImage (ctr (svc_ctr c))) (Containers s)) : gset string)).

(** The arrow of the endpoint texts, U+2192 in UTF-8. *)
Definition arrow : string := utf8 [226; 134; 146]%nat.

Definition endpoint_of (port : PortSpec) : option string :=
  let https := String.eqb (Protocol port) ProtocolHTTPS in
  if negb (String.eqb (Protocol port) ProtocolHTTP) && negb https then None
  else if String.eqb (Hostname port) "" then None
  else
    let standard := (negb https && (PublishedPort port =? 80)%N) || (https && (PublishedPort port =? 443)%N) in
    Some ((if https then "https" else "http") ++ "://" ++ Hostname port ++
          (if negb (PublishedPort port =? 0)%N && negb standard
           then ":" ++ itoa (PublishedPort port) else "") ++
          " " ++ arrow ++ " :" ++ itoa (ContainerPort port)).

Definition container_endpoints (c : MachineServiceContainer) : list string :=
  match ServicePorts (svc_ctr c) with
  | Err _ => []
  | Ok ports => omap endpoint_of (els ports)
  end.

Definition Endpoints (s : Service) : list string :=
  sort_strings (elements (list_to_set (concat (map container_endpoints (Containers s))) : gset string)).

(** The label value the Docker server stores for the ports of a service. *)
Definition encode_ports (ports : list PortSpec) : result port_error string :=
  match map_ok print ports with
  | Err e => Err e
  | Ok texts => Ok (join "," texts)
  end.

(** ** Lemmas *)
Lemma cut_any_Some cut ps s r : cut_any cut ps s = Some r -> exists p, p ∈ ps /\ cut p s = Some r.
Proof.
  induction ps as [|p ps IH]; simpl; [done|]. destruct (cut p s) as [r'|] eqn:Hp.
  - intros [= <-]. exists p. split; [left|done].
  - intros H. destruct (IH H) as (q & Hq & ?). exists q. split; [by right|done].
Qed.

Lemma space_no_slash p : p ∈ space_runes -> contains_byte "/" p = false.
Proof.
  assert (Hall : forallb (fun p => negb (contains_byte "/" p)) space_runes = true) by reflexivity.
  rewrite forallb_forall in Hall. intros Hp%list_elem_of_In%Hall. by apply negb_true_iff.
Qed.

Lemma trim_keeps cut s fuel :
  (forall p s r, cut p s = Some r -> s = p ++ r \/ s = r ++ p) ->
  contains_byte "/" s = true -> contains_byte "/" (trim_rounds cut fuel s) = true.
Proof.
  intros Hcut. revert s; induction fuel as [|f IH]; intros s Hs; cbn [trim_rounds]; [done|].
  destruct (cut_any cut space_runes s) as [r|] eqn:Hc; [|done]. apply IH.
  apply cut_any_Some in Hc as (p & Hp & Hr). pose proof (space_no_slash p Hp) as Hn.
  destruct (Hcut _ _ _ Hr) as [->| ->]; rewrite contains_byte_app, Hn in Hs; simpl in Hs;
    by rewrite ?orb_false_r in Hs.
Qed.

Lemma trim_space_slash s : contains_byte "/" s = true -> trim_space s <> "".
Proof.
  intros Hs He. unfold trim_space in He.
  assert (H : contains_byte "/" "" = true); [|done]. rewrite <- He.
  apply trim_keeps; [intros p r t Hc; right; by apply cut_suffix_Some|].
  apply trim_keeps; [intros p r t Hc; left; by apply cut_prefix_Some|done].
Qed.

Lemma print_slash p s : print p = Ok s -> contains_byte "/" s = true.
Proof.
  intros Hp. apply print_Ok in Hp as [_ [[_ ->]|[_ ->]]]; rewrite contains_byte_app; cbn [String.append contains_byte];
    by rewrite eqb_ascii_refl, orb_true_r.
Qed.

(** A port whose text can be an element of the label: no comma, no surrounding space. *)
Definition label_safe (p : PortSpec) : bool :=
  roundtrips p && negb (contains_byte "," (text p)) && String.eqb (trim_space (text p)) (text p).

Lemma encoded_decode ports texts :
  Forall (fun p => label_safe p = true) ports -> map_ok print ports = Ok texts ->
  map_ok (fun p => ParsePortSpec (trim_space p)) texts = Ok ports /\
  Forall (fun s => contains_byte "," s = false) texts.
Proof.
  intros Hs Hm. apply map_ok_Ok in Hm. rewrite map_ok_Ok. induction Hm as [|p s ports texts Hp Hm IH].
  { split; constructor. }
  apply Forall_cons in Hs as [Hp' Hs]. destruct (IH Hs) as [H1 H2]. unfold label_safe in Hp'.
  assert (Ht : text p = s) by (unfold text; by rewrite Hp). rewrite Ht in Hp'.
  rewrite !andb_true_iff, negb_true_iff, String.eqb_eq in Hp'. destruct Hp' as [[Hr Hc] Htr].
  split; constructor; try done. rewrite Htr. by apply parse_print.
Qed.

Lemma addr_Compare_Eq a b : addr_Compare a b = Eq <-> a = b.
Proof.
  unfold addr_Compare. split.
  - destruct a as [|x|x z], b as [|y|y z']; simpl; try done; try (by destruct (x ?= y)%Z).
    + destruct (Z.compare_spec x y); [intros _; by subst|done..].
    + destruct (Z.compare_spec x y); [|done..]. intros Hz. apply String.compare_eq_iff in Hz. by subst.
  - intros ->. rewrite !Z.compare_refl.
    pose proof (String.compare_antisym (addr_zone b) (addr_zone b)) as Ha.
    by destruct (String.compare (addr_zone b) (addr_zone b)).
Qed.

(** Two host ports compete for the same port of the machine. *)
Definition competes (svcPort p : PortSpec) : Prop :=
  Mode svcPort = PortModeHost /\ PublishedPort svcPort = PublishedPort p /\ Protocol svcPort = Protocol p /\
  (HostIP svcPort = NoAddr \/ HostIP p = NoAddr \/ HostIP svcPort = HostIP p).

Lemma host_ports_conflict_spec sp p : host_ports_conflict sp p = true <-> competes sp p.
Proof.
  unfold host_ports_conflict, competes.
  destruct (String.eqb_spec (Mode sp) PortModeHost); simpl; [|naive_solver].
  destruct (N.eqb_spec (PublishedPort sp) (PublishedPort p)); simpl; [|naive_solver].
  destruct (String.eqb_spec (Protocol sp) (Protocol p)); simpl; [|naive_solver].
  rewrite !orb_true_iff, !negb_true_iff, !IsValid_false.
  assert (Hc : match addr_Compare (HostIP sp) (HostIP p) with Eq => true | _ => false end = true <->
               HostIP sp = HostIP p).
  { rewrite <- addr_Compare_Eq. by destruct (addr_Compare _ _). }
  rewrite Hc. naive_solver.
Qed.

Lemma conflicting_ports_spec svcPorts ports p :
  p ∈ conflicting_ports svcPorts ports <->
  p ∈ ports /\ Mode p = PortModeHost /\ exists sp, sp ∈ svcPorts /\ competes sp p.
Proof.
  induction ports as [|q ports IH]; simpl; [set_solver|].
  destruct (String.eqb_spec (Mode q) PortModeHost) as [Hm|Hm]; simpl.
  - rewrite elem_of_app, list_elem_of_omap, elem_of_cons, IH. split.
    + intros [(sp & Hsp & Hc)|(H1 & H2 & H3)]; [|auto].
      destruct (host_ports_conflict sp q) eqn:Hh; [|done]. simplify_eq.
      apply host_ports_conflict_spec in Hh. eauto 10.
    + intros ([->|Hp] & Hmp & sp & Hsp & Hc); [left|right; eauto].
      exists sp. split; [done|]. apply host_ports_conflict_spec in Hc. by rewrite Hc.
  - rewrite elem_of_cons, IH. split; [naive_solver|]. intros ([->|Hp] & Hmp & H); [done|auto].
Qed.

(** *** Finding containers *)
Lemma find_loop_spec n cs acc :
  find_loop n cs acc =
  match List.find (fun c => String.eqb (msc_ID c) n || String.eqb (msc_Name c) n) cs with
  | Some c => inl c
  | None => inr (acc ++ List.filter (fun c => has_prefix n (msc_ID c)) cs)%list
  end.
Proof.
  revert acc; induction cs as [|c cs IH]; intros acc; simpl; [by rewrite app_nil_r|].
  destruct (_ || _); [done|]. rewrite IH. destruct (List.find _ cs); [done|].
  destruct (has_prefix n (msc_ID c)); [by rewrite <- app_assoc|done].
Qed.

(** ** Properties *)

(** The ports of a service survive the container label: if the Docker server encodes a
    non-empty list of ports whose texts have no comma and no surrounding space, then reading
    the label back with [ServicePorts] gives the same ports in the same order. *)
Lemma ServicePorts_roundtrip (c : ServiceContainer) (ports : list PortSpec) (encoded : string) :
  ports <> [] -> Forall (fun p => label_safe p = true) ports ->
  encode_ports ports = Ok encoded -> entries (Labels (ctr c)) !! LabelServicePorts = Some encoded ->
  ServicePorts c = Ok (Some ports).
Proof.
  intros Hne Hsafe Henc Hlab. unfold ServicePorts. rewrite Hlab. unfold encode_ports in Henc.
  destruct (map_ok print ports) as [texts|] eqn:Hm; [|done]. simplify_eq.
  destruct (encoded_decode ports texts Hsafe Hm) as [Hdec Hcomma].
  assert (Htexts : texts <> []).
  { intros ->. apply map_ok_Ok in Hm. by inversion Hm. }
  rewrite (proj2 (String.eqb_neq _ _)); [by rewrite split_join, Hdec|].
  apply trim_space_slash. apply map_ok_Ok in Hm. destruct Hm as [|p s ports texts Hp _]; [done|].
  apply print_slash in Hp. destruct texts; cbn [join]; [done|]. by rewrite contains_byte_app, Hp.
Qed.

Definition ports_80_53 : list PortSpec :=
  [mkPort "app.example.com" NoAddr NoPrefix 0 80 "http" "ingress";
   mkPort "" (Addr4 167772161) NoPrefix 53 5353 "udp" "host"].

Definition container_with_labels (labels : gmap string string) : ServiceContainer :=
  mkServiceContainer
    (mkContainer "0123" "web-abcd" None (mkState true false false false 0 "running" None None None)
       (Some labels) "nginx" None None)
    example_service.

(** The conflicts reported for a container are exactly the requested host-mode ports
    that compete with one of its service ports: both in host mode, same published port and
    protocol, and not bound to two different host IPs; the ports come in the requested
    order, and an undecodable label is an error. *)
Lemma ConflictingServicePorts_spec (c : ServiceContainer) (ports : list PortSpec) :
  match ConflictingServicePorts c ports with
  | Err e => ServicePorts c = Err e
  | Ok conflicts =>
      exists svcPorts, ServicePorts c = Ok svcPorts /\
        forall p, p ∈ conflicts <->
          p ∈ ports /\ Mode p = PortModeHost /\ exists sp, sp ∈ els svcPorts /\ competes sp p
  end.
Proof.
  unfold ConflictingServicePorts. destruct (ServicePorts c) as [svcPorts|e]; [|done].
  exists svcPorts. split; [done|]. intros p. apply conflicting_ports_spec.
Qed.

(** Two disjoint host prefixes are reported as a conflict: only host IPs are compared. *)
Example disjoint_prefixes_conflict :
  let port pfx := mkPort "" NoAddr pfx 53 53 "udp" "host" in
  host_ports_conflict (port (mkPrefix (Addr4 167772160) 24)) (port (mkPrefix (Addr4 3232235520) 24)) = true.
Proof. reflexivity. Qed.

(** [FindContainer] returns the first container with exactly that ID or name and,
    only when there is none, the one container whose ID starts with the text; it fails with
    not found when no ID does and with an ambiguity error when several do. *)
Lemma FindContainer_spec (s : Service) (n : string) :
  let all := (Containers s ++ HookContainers s)%list in
  let exact c := String.eqb (msc_ID c) n || String.eqb (msc_Name c) n in
  match FindContainer s n with
  | Ok c =>
      List.find exact all = Some c \/
      (List.find exact all = None /\ List.filter (fun c => has_prefix n (msc_ID c)) all = [c])
  | Err NotFound => Forall (fun c => exact c = false /\ has_prefix n (msc_ID c) = false) all
  | Err (MultipleContainers p) =>
      p = n /\ List.find exact all = None /\
      (2 <= length (List.filter (fun c => has_prefix n (msc_ID c)) all))%nat
  end.
Proof.
  intros all exact. unfold FindContainer. fold all. rewrite find_loop_spec. fold exact. simpl app.
  destruct (List.find exact all) as [c|] eqn:Hf; [by left|].
  destruct (List.filter _ all) as [|c [|c' cs]] eqn:Hfil.
  - apply Forall_forall. intros c Hc. split.
    + by apply (find_none exact all Hf), list_elem_of_In.
    + destruct (has_prefix n (msc_ID c)) eqn:Hp; [|done].
      assert (Hin : In c (List.filter (fun c => has_prefix n (msc_ID c)) all))
        by (apply filter_In; split; [by apply list_elem_of_In|done]).
      by rewrite Hfil in Hin.
  - by right.
  - split_and!; [done|done|simpl; lia].
Qed.
