(* ===== verification/DockerServer.v ===== *)
(** * DockerServer: creating service containers, [internal/machine/docker]

    [server.go] (service containers), [interface.go] and the service containers of
    [service.go].  The Docker engine and the machine database are one world behind an
    [Engine] of state-passing calls; the container configuration the server computes for a
    request is a value, and [logged] records the calls with their outcome.  Decoding and
    encoding specifications as JSON and the addresses of the host are parameters. *)

From S2P Require Import Prelude GoStrings NetAddr NetText Port Volume ConfigSpec Spec Resolver Container.
#[local] Open Scope string_scope.
#[local] Open Scope list_scope.
#[local] Open Scope go_scope.

(** ** What the engine is asked to create *)

(** [mount.BindOptions], [mount.VolumeOptions] and [mount.Mount] *)
Record DockerBindOptions := mkDockerBind {
  db_Propagation : string; db_CreateMountpoint : bool;
  db_NonRecursive : bool; db_ReadOnlyNonRecursive : bool; db_ReadOnlyForceRecursive : bool
}.
Record DockerVolumeOptions := mkDockerVolumeOptions {
  dvo_NoCopy : bool; dvo_Labels : gomap string; dvo_Subpath : string; dvo_Driver : option Driver
}.
Record DockerMount := mkDockerMount {
  dm_Type : string; dm_Source : string; dm_Target : string; dm_ReadOnly : bool;
  dm_Bind : option DockerBindOptions; dm_Volume : option DockerVolumeOptions; dm_Tmpfs : option TmpfsOptions
}.

Record PortBinding := mkBinding { pb_HostIP : string; pb_HostPort : string }.
#[global] Instance PortBinding_eq_dec : EqDecision PortBinding.
Proof. solve_decision. Defined.

(** [container.HealthConfig] *)
Record HealthConfig := mkHealth {
  hcf_Test : slice string; hcf_Interval : Z; hcf_Timeout : Z; hcf_StartPeriod : Z; hcf_StartInterval : Z;
  hcf_Retries : Z
}.

(** [container.Config] and [container.HostConfig], with the fields the server sets. *)
Record ContainerConfig := mkConfig {
  cc_Cmd : slice string; cc_Env : list string; cc_Entrypoint : slice string; cc_Hostname : string;
  cc_Image : string; cc_Labels : gmap string string; cc_User : string; cc_Tty : bool; cc_OpenStdin : bool;
  cc_Healthcheck : option HealthConfig
}.

Inductive RestartPolicy := UnlessStopped | RestartDisabled.

Record HostConfig := mkHostConfig {
  ho_CapAdd : slice string; ho_CapDrop : slice string; ho_Binds : slice string; ho_Init : option bool;
  ho_Mounts : list DockerMount; ho_PidMode : string;
  ho_PortBindings : option (gmap string (list PortBinding));
  ho_Privileged : bool;
  ho_NanoCPUs : Z; ho_Memory : Z; ho_MemoryReservation : Z; ho_Devices : slice DeviceMapping;
  ho_DeviceRequests : slice DeviceRequest; ho_Ulimits : slice (string * Ulimit);
  ho_RestartPolicy : RestartPolicy; ho_ShmSize : Z; ho_Sysctls : gomap string;
  ho_DNS : list string; ho_DNSOptions : list string; ho_DNSSearch : list string;
  ho_LogConfig : option LogDriver
}.

(** A request to create a container; its network is always [NetworkName]. *)
Record CreateArgs := mkCreateArgs { ca_Name : string; ca_Config : ContainerConfig; ca_Host : HostConfig }.

(** The only file of an archive copied to the root of a container. *)
Record TarFile := mkTarFile {
  tf_Name : string; tf_Content : option string; tf_Mode : Z; tf_Uid : Z; tf_Gid : Z
}.

(** ** Conversions *)
Definition toDockerBindOptions (opts : option BindOptions) : option DockerBindOptions :=
  match opts with
  | None => None
  | Some o => Some (mkDockerBind (Propagation o) (CreateHostPath o) (String.eqb (Recursive o) "disabled")
                      (String.eqb (Recursive o) "writable") (String.eqb (Recursive o) "readonly"))
  end.

Definition toDockerUlimits `{GoOrder} (ulimits : gomap Ulimit) : slice (string * Ulimit) :=
  if Nat.eqb (size (entries ulimits)) 0 then None else Some (range_map 20 (entries ulimits)).

Definition toDockerDevices (devices : slice DeviceMapping) : slice DeviceMapping :=
  match els devices with
  | [] => None
  | l => Some (map (fun d => mkDevice (dev_HostPath d) (dev_ContainerPath d) (dev_CgroupPermissions d)) l)
  end.

Inductive mounts_error := MountUnknownVolume (name : string) | MountInvalidVolume (e : volume_error)
| MountUnsupported (type : string) | MountNilPanic.

Definition docker_mount (vol : VolumeSpec) (m : VolumeMount) : result mounts_error DockerMount :=
  let dm source bind vopts tmpfs :=
    mkDockerMount (vol_Type vol) source (ContainerPath m) (ReadOnly m) bind vopts tmpfs in
  if String.eqb (vol_Type vol) VolumeTypeBind then
    match vol_Bind vol with
    | None => Err MountNilPanic
    | Some b => Ok (dm (HostPath b) (toDockerBindOptions (Some b)) None None)
    end
  else if String.eqb (vol_Type vol) VolumeTypeVolume then
    match vol_Options vol with
    | None => Err MountNilPanic
    | Some o => Ok (dm (DockerVolumeName vol) None
                      (Some (mkDockerVolumeOptions (NoCopy o) (vopt_Labels o) (SubPath o) (vopt_Driver o))) None)
    end
  else if String.eqb (vol_Type vol) VolumeTypeTmpfs then Ok (dm "" None None (vol_Tmpfs vol))
  else Err (MountUnsupported (vol_Type vol)).

(** [ToDockerMounts]; a nil dereference is [MountNilPanic]. *)
Definition ToDockerMounts (volumes : list VolumeSpec) (mounts : list VolumeMount) :
  result mounts_error (list DockerMount) :=
  let normalisedVolumes := map Volume.SetDefaults volumes in
  map_ok (fun m =>
    match List.find (fun v => String.eqb (vol_Name v) (VolumeName m)) normalisedVolumes with
    | None => Err (MountUnknownVolume (VolumeName m))
    | Some vol =>
        match Volume.Validate vol with
        | Err e => Err (MountInvalidVolume e)
        | Ok _ => docker_mount vol m
        end
    end) mounts.

(** ** Port bindings *)

(** [addrOfPrefix], from the addresses of the host's interfaces; [None] is a failed call. *)
Definition addrOfPrefix (interfaces : option (list addr)) (p : prefix) : option (list string) :=
  match interfaces with
  | None => None
  | Some addrs =>
      match map addr_String (filter (fun a => prefix_Contains p a = true) addrs) with
      | [] => None
      | l => Some l
      end
  end.

(** [nat.Port]: the container port and its protocol. *)
Definition port_key (p : PortSpec) : string := (itoa (ContainerPort p) ++ "/" ++ Protocol p)%string.

(** The bindings of a host port; [None] if its prefix contains no address of the host. *)
Definition bindings_of (interfaces : option (list addr)) (p : PortSpec) : option (list PortBinding) :=
  let hostPort := itoa (PublishedPort p) in
  if prefix_IsValid (HostPrefix p)
  then map (fun a => mkBinding a hostPort) <$> addrOfPrefix interfaces (HostPrefix p)
  else Some [mkBinding (if IsValid (HostIP p) then addr_String (HostIP p) else "") hostPort].

(** The loop over the ports: the bindings of a port replace those of its key. *)
Fixpoint port_bindings (interfaces : option (list addr)) (bindings : gmap string (list PortBinding))
  (ports : list PortSpec) : option (gmap string (list PortBinding)) :=
  match ports with
  | [] => Some bindings
  | p :: rest =>
      if negb (String.eqb (Mode p) PortModeHost) then port_bindings interfaces bindings rest
      else match bindings_of interfaces p with
           | None => None
           | Some bs => port_bindings interfaces (<[port_key p := bs]> bindings) rest
           end
  end.

(** Why the configs of a container cannot be written. *)
Inductive inject_error {E} :=
| ConfigsInvalid (e : config_error) | ConfigMissing (name : string)
| OwnerInvalid (e : config_error) | HeaderRefused (name : string) | CopyFailed (name : string) (e : E).
#[global] Arguments inject_error : clear implicits.

(** How a call fails: with an error it returns, or with a panic. *)
Inductive failure {E} := Returned (e : E) | Panicked.
#[global] Arguments failure : clear implicits.

(** ** The configuration of a service container *)
Section Server.
Context {HO : GoOrder}.
Context {Named RefError : Type} (ParseDockerRef : string -> result RefError Named).
Context (unmarshal : string -> option ServiceSpec) (marshal : ServiceSpec -> option string).
(** The response with the ID of a container as JSON; whether [archive/tar] writes the header
    of a file (it refuses a name with a NUL byte, for example). *)
Context (marshal_response : string -> option string) (tar_writes : TarFile -> bool).

(** What the server knows of its machine: its ID, the addresses of its interfaces, and the
    address of the internal DNS server. *)
Record Machine := mkMachine { machineID : string; interfaces : option (list addr); internalDNSIP : addr }.

(** [pb.CreateServiceContainerRequest] *)
Record CreateRequest := mkCreateRequest {
  cr_ServiceId : string; cr_ServiceSpec : string; cr_ContainerName : string; cr_PreDeploy : bool
}.

Inductive server_error {E} :=
| InvalidServiceID (id : string)
| SpecUnreadable
| SpecRejected (e : @service_error RefError)
| NameSuffixFailed
| PortNotEncodable (e : port_error)
| MountsFailed (e : mounts_error)
| VolumeNotFound (name : string) | VolumeInspectFailed (name : string) (e : E)
| PrefixUnavailable
| CreateNotFound (e : E) | CreateFailed (e : E)
| InjectFailed (e : inject_error E)
| ResponseNotEncodable
| SpecNotEncodable
| StoreFailed (e : E)
| OptionsUnreadable.
#[global] Arguments server_error : clear implicits.

Definition NetworkName := DockerNetworkName.

Definition health_config (hc : option HealthcheckSpec) : option HealthConfig :=
  match hc with
  | None => None
  | Some hc =>
      if hc_Disable hc then Some (mkHealth (Some ["NONE"]) 0 0 0 0 0)
      else Some (mkHealth (hc_Test hc) (hc_Interval hc) (hc_Timeout hc) (hc_StartPeriod hc) (hc_StartInterval hc)
                   (int64_of_uint64 (Z.of_N (hc_Retries hc))))
  end.

Definition env_vars (m : Machine) (s : ServiceSpec) : gmap string string :=
  let env := entries (Env (Container_ s)) in
  if String.eqb (machineID m) "" then env else <["UNCLOUD_MACHINE_ID" := machineID m]> env.

Definition base_labels (serviceID : string) (s : ServiceSpec) : gmap string string :=
  {[ LabelServiceID := serviceID; LabelServiceName := SName s;
     LabelServiceMode := (if String.eqb (SMode s) "" then ServiceModeReplicated else SMode s);
     LabelManaged := "" ]}.

(** The label with the ports of the service. *)
Definition encode_port_label (s : ServiceSpec) (labels : gmap string string) : result port_error (gmap string string) :=
  if Nat.eqb (length (els (Ports s))) 0 then Ok labels
  else let! encoded := encode_ports (els (Ports s)) in Ok (<[LabelServicePorts := encoded]> labels).

Definition service_config (m : Machine) (serviceID name : string) (s : ServiceSpec) (labels : gmap string string) :
  ContainerConfig :=
  let c := Container_ s in
  mkConfig (Command c) (ToSlice 21 (Some (env_vars m s))) (Entrypoint c) name (Image c) labels (User c) (Tty c)
    (OpenStdin c) (health_config (Healthcheck c)).

Definition host_config (m : Machine) (s : ServiceSpec) (mounts : list DockerMount)
  (bindings : gmap string (list PortBinding)) : HostConfig :=
  let c := Container_ s in
  let r := Resources c in
  let dns := IsValid (internalDNSIP m) in
  mkHostConfig (CapAdd c) (CapDrop c) (CVolumes c) (Init c) mounts (PidMode c) (Some bindings) (Privileged c)
    (CPU r) (Memory r) (MemoryReservation r) (toDockerDevices (Devices r)) (DeviceReservations r)
    (toDockerUlimits (Ulimits r)) UnlessStopped (SharedMemory r) (Sysctls c)
    (if dns then [addr_String (internalDNSIP m)] else []) (if dns then ["ndots:1"] else [])
    (if dns then ["internal."] else []) (LogDriver_ c).

(** The overrides for a pre-deploy hook. *)
Definition hook_args (m : Machine) (serviceID : string) (s : ServiceSpec) (h : PreDeployHook) (a : CreateArgs) :
  CreateArgs :=
  let cc := ca_Config a in
  let ho := ca_Host a in
  let env := <["UNCLOUD_HOOK_PRE_DEPLOY" := "true"]> (entries (hook_Env h) ∪ env_vars m s) in
  mkCreateArgs (ca_Name a)
    (mkConfig (hook_Command h) (ToSlice 22 (Some env)) (cc_Entrypoint cc) (cc_Hostname cc) (cc_Image cc)
       {[ LabelServiceID := serviceID; LabelServiceName := SName s; LabelHook := LabelHookPreDeploy; LabelManaged := "" ]}
       (if String.eqb (hook_User h) "" then cc_User cc else hook_User h) (cc_Tty cc) (cc_OpenStdin cc)
       (Some (mkHealth (Some ["NONE"]) 0 0 0 0 0)))
    (mkHostConfig (ho_CapAdd ho) (ho_CapDrop ho) (ho_Binds ho) (ho_Init ho) (ho_Mounts ho) (ho_PidMode ho) None
       (default (ho_Privileged ho) (hook_Privileged h)) (ho_NanoCPUs ho) (ho_Memory ho) (ho_MemoryReservation ho)
       (ho_Devices ho) (ho_DeviceRequests ho) (ho_Ulimits ho) RestartDisabled (ho_ShmSize ho) (ho_Sysctls ho)
       (ho_DNS ho) (ho_DNSOptions ho) (ho_DNSSearch ho) (ho_LogConfig ho)).

Definition create_args (m : Machine) (r : CreateRequest) (name : string) (s : ServiceSpec)
  (labels : gmap string string) (mounts : list DockerMount) (bindings : gmap string (list PortBinding)) : CreateArgs :=
  let a := mkCreateArgs name (service_config m (cr_ServiceId r) name s labels) (host_config m s mounts bindings) in
  match PreDeploy s with
  | Some h => if cr_PreDeploy r then hook_args m (cr_ServiceId r) s h a else a
  | None => a
  end.

(** ** Calls *)

(** [container.RemoveOptions] *)
Record RemoveOptions := mkRemove { RemoveVolumes : bool; RemoveLinks : bool; Force : bool }.
Definition with_volumes : RemoveOptions := mkRemove true false false.

(** The Docker engine and the machine database, over a world [W], with errors [E]. *)
Record Engine (W E : Type) := mkEngine {
  en_create : CreateArgs -> W -> W * result E string;
  en_remove : string -> RemoveOptions -> W -> W * result E unit;
  en_copy : string -> TarFile -> W -> W * result E unit;
  en_volume : string -> W -> W * result E unit;
  en_inspect : string -> W -> W * result E string;
  db_insert : string -> string -> W -> W * result E unit;
  db_delete : string -> W -> W * result E unit;
  en_not_found : E -> bool
}.
#[global] Arguments mkEngine {W E}. #[global] Arguments en_create {W E}. #[global] Arguments en_remove {W E}.
#[global] Arguments en_copy {W E}. #[global] Arguments en_volume {W E}. #[global] Arguments en_inspect {W E}.
#[global] Arguments db_insert {W E}. #[global] Arguments db_delete {W E}. #[global] Arguments en_not_found {W E}.

Section Calls.
Context {W E : Type} (en : Engine W E).

(** [verifyDockerVolumesExist] *)
Fixpoint verifyDockerVolumesExist (mounts : list DockerMount) (w : W) : W * result (server_error E) unit :=
  match mounts with
  | [] => (w, Ok tt)
  | m :: rest =>
      if negb (String.eqb (dm_Type m) VolumeTypeVolume) then verifyDockerVolumesExist rest w
      else match en_volume en (dm_Source m) w with
           | (w, Err e) => (w, Err (if en_not_found en e then VolumeNotFound (dm_Source m)
                                    else VolumeInspectFailed (dm_Source m) e))
           | (w, Ok _) => verifyDockerVolumesExist rest w
           end
  end.

(** The archive [copyContentToContainer] builds. *)
Definition tar_file (config : ConfigSpec) (targetPath : string) (uid gid : option N) (mode : Z) : TarFile :=
  mkTarFile (default targetPath (cut_prefix "/" targetPath)) (cfg_Content config) mode
    (int64_of_uint64 (Z.of_N (default 0%N uid))) (int64_of_uint64 (Z.of_N (default 0%N gid))).

(** One round of the loop of [injectConfigs]: the file a mount asks for. *)
Definition config_file (configMap : gmap string ConfigSpec) (m : ConfigMount) : result (inject_error E) TarFile :=
  match configMap !! cm_ConfigName m with
  | None => Err (ConfigMissing (cm_ConfigName m))
  | Some config =>
      let targetPath := if String.eqb (cm_ContainerPath m) "" then Join "/" (cm_ConfigName m) else cm_ContainerPath m in
      match GetNumericUid m with
      | Err e => Err (OwnerInvalid e)
      | Ok uid => match GetNumericGid m with
                  | Err e => Err (OwnerInvalid e)
                  | Ok gid => Ok (tar_file config targetPath uid gid (default 292%Z (cm_Mode m)))
                  end
      end
  end.

(** After a copy the log message slices the ID of the container. *)
Fixpoint inject_loop (configMap : gmap string ConfigSpec) (id : string) (mounts : list ConfigMount) (w : W) :
  W * result (failure (inject_error E)) unit :=
  match mounts with
  | [] => (w, Ok tt)
  | m :: rest =>
      match config_file configMap m with
      | Err e => (w, Err (Returned e))
      | Ok f =>
          if negb (tar_writes f) then (w, Err (Returned (HeaderRefused (cm_ConfigName m))))
          else match en_copy en id f w with
               | (w, Err e) => (w, Err (Returned (CopyFailed (cm_ConfigName m) e)))
               | (w, Ok _) => if Nat.ltb (String.length id) 12 then (w, Err Panicked)
                              else inject_loop configMap id rest w
               end
      end
  end.

Definition config_map (configs : list ConfigSpec) : gmap string ConfigSpec :=
  fold_left (fun cs c => <[cfg_Name c := c]> cs) configs ∅.

Definition injectConfigs (id : string) (configs : list ConfigSpec) (mounts : list ConfigMount) (w : W) :
  W * result (failure (inject_error E)) unit :=
  if Nat.eqb (length configs) 0 || Nat.eqb (length mounts) 0 then (w, Ok tt)
  else match ValidateConfigsAndMounts configs mounts with
       | Err e => (w, Err (Returned (ConfigsInvalid e)))
       | Ok _ => inject_loop (config_map configs) id mounts w
       end.

(** The steps after the container exists: its configs, the response and its record in the
    database.  When the configs or the record fail the container is removed and the outcome
    of the removal ignored; when the response does not encode it is not removed. *)
Definition fill_container (s : ServiceSpec) (id : string) (w : W) :
  W * result (failure (server_error E)) string :=
  match injectConfigs id (els (Configs s)) (els (ConfigMounts (Container_ s))) w with
  | (w, Err Panicked) => (w, Err Panicked)
  | (w, Err (Returned e)) => (fst (en_remove en id with_volumes w), Err (Returned (InjectFailed e)))
  | (w, Ok _) =>
      match marshal_response id with
      | None => (w, Err (Returned ResponseNotEncodable))
      | Some response =>
          match marshal s with
          | None => (fst (en_remove en id with_volumes w), Err (Returned SpecNotEncodable))
          | Some text =>
              match db_insert en id text w with
              | (w, Err e) => (fst (en_remove en id with_volumes w), Err (Returned (StoreFailed e)))
              | (w, Ok _) => (w, Ok response)
              end
          end
      end
  end.

Definition container_name (draws : nat -> draw) (r : CreateRequest) (s : ServiceSpec) : option string :=
  if String.eqb (cr_ContainerName r) "" then (fun suffix => (SName s ++ "-" ++ suffix)%string) <$> RandomAlphaNumeric 4 draws
  else Some (cr_ContainerName r).

(** The specification of a request, with its defaults. *)
Definition request_spec (r : CreateRequest) : result (server_error E) ServiceSpec :=
  if negb (ValidateServiceID (cr_ServiceId r)) then Err (InvalidServiceID (cr_ServiceId r))
  else match unmarshal (cr_ServiceSpec r) with
       | None => Err SpecUnreadable
       | Some s => let s := service_SetDefaults s in
                   let! _ := wrap_err SpecRejected (service_Validate ParseDockerRef s) in Ok s
       end.

(** What is computed before any call: the name, the labels and the mounts. *)
Definition request_parts (draws : nat -> draw) (r : CreateRequest) :
  result (server_error E) (ServiceSpec * string * gmap string string * list DockerMount) :=
  let! s := request_spec r in
  let! name := (match container_name draws r s with Some name => Ok name | None => Err NameSuffixFailed end) in
  let! labels := wrap_err PortNotEncodable (encode_port_label s (base_labels (cr_ServiceId r) s)) in
  let! mounts := wrap_err MountsFailed (ToDockerMounts (els (Volumes s)) (els (VolumeMounts (Container_ s)))) in
  Ok (s, name, labels, mounts).

(** [CreateServiceContainer]: the encoded response with the ID of the new container. *)
Definition CreateServiceContainer (m : Machine) (draws : nat -> draw) (r : CreateRequest) (w : W) :
  W * result (failure (server_error E)) string :=
  match request_parts draws r with
  | Err e => (w, Err (Returned e))
  | Ok (s, name, labels, mounts) =>
      match verifyDockerVolumesExist mounts w with
      | (w, Err e) => (w, Err (Returned e))
      | (w, Ok _) =>
          match port_bindings (interfaces m) ∅ (els (Ports s)) with
          | None => (w, Err (Returned PrefixUnavailable))
          | Some bindings =>
              match en_create en (create_args m r name s labels mounts bindings) w with
              | (w, Err e) => (w, Err (Returned (if en_not_found en e then CreateNotFound e else CreateFailed e)))
              | (w, Ok id) => fill_container s id w
              end
          end
      end
  end.

(** [fullDockerIDRegex] *)
Definition is_full_id (id : string) : bool := Nat.eqb (String.length id) 64 && all_chars is_hex_char id.

(** [RemoveContainer], with the decoded options of the request. *)
Definition RemoveContainer (id : string) (opts : option RemoveOptions) (w : W) : W * result (server_error E) unit :=
  match opts with
  | None => (w, Err OptionsUnreadable)
  | Some opts =>
      match en_remove en id opts w with
      | (w, Err e) => (w, Err (if en_not_found en e then CreateNotFound e else CreateFailed e))
      | (w, Ok _) => (w, Ok tt)
      end
  end.

Definition remove_and_forget (ctrID id : string) (opts : option RemoveOptions) (w : W) :
  W * result (server_error E) unit :=
  match RemoveContainer id opts w with
  | (w, Err e) => (w, Err e)
  | (w, Ok _) => (fst (db_delete en ctrID w), Ok tt)
  end.

(** [RemoveServiceContainer]: the record of a container that has been removed is deleted, and
    the outcome of the deletion ignored. *)
Definition RemoveServiceContainer (id : string) (opts : option RemoveOptions) (w : W) :
  W * result (server_error E) unit :=
  let full := if is_full_id id then (w, Ok id) else en_inspect en id w in
  match full with
  | (w, Err e) => (w, Err (if en_not_found en e then CreateNotFound e else CreateFailed e))
  | (w, Ok ctrID) => remove_and_forget ctrID id opts w
  end.
End Calls.
End Server.

(** ** Logs of calls *)
Inductive Call :=
| CVolume (name : string) (ok : bool)
| CCreate (args : CreateArgs) (id : option string)
| CCopy (id : string) (file : TarFile) (ok : bool)
| CInsert (id text : string) (ok : bool)
| CInspect (id : string) (full : option string)
| CRemove (id : string) (ok : bool)
| CDelete (id : string) (ok : bool).

Section Logged.
Context {W E : Type} (en : Engine W E).

Definition record {A} (entry : result E A -> Call) (f : W -> W * result E A) :
  W * list Call -> (W * list Call) * result E A := fun '(w, log) =>
  let '(w', r) := f w in ((w', log ++ [entry r]), r).

Definition value_of (r : result E string) : option string := match r with Ok id => Some id | Err _ => None end.

(** The same engine, writing down every call and how it ended. *)
Definition logged : Engine (W * list Call) E :=
  mkEngine (fun args => record (fun r => CCreate args (value_of r)) (en_create en args))
    (fun id opts => record (fun r => CRemove id (is_ok r)) (en_remove en id opts))
    (fun id f => record (fun r => CCopy id f (is_ok r)) (en_copy en id f))
    (fun name => record (fun r => CVolume name (is_ok r)) (en_volume en name))
    (fun id => record (fun r => CInspect id (value_of r)) (en_inspect en id))
    (fun id text => record (fun r => CInsert id text (is_ok r)) (db_insert en id text))
    (fun id => record (fun r => CDelete id (is_ok r)) (db_delete en id))
    (en_not_found en).
End Logged.

(** ** Service containers of a machine, [service.go] *)

(** [container.Summary] *)
Record Summary := mkSummary { sum_ID : string; sum_Labels : gmap string string }.

Section Listing.
Context {E : Type} (unmarshal : string -> option ServiceSpec).
(** The engine's answer to an inspection, and the record of a container if it has one. *)
Context (ContainerInspect : string -> result E Container) (stored : string -> result E (option string)).

Inductive inspect_error :=
| InspectFailed (e : E) | NotManaged (nameOrID : string)
| SpecNotFound (id : string) | SpecQueryFailed (id : string) (e : E) | SpecUndecodable (id : string).

Definition InspectServiceContainer (nameOrID : string) : result inspect_error ServiceContainer :=
  match ContainerInspect nameOrID with
  | Err e => Err (InspectFailed e)
  | Ok c =>
      match entries (Labels c) !! LabelManaged with
      | None => Err (NotManaged nameOrID)
      | Some _ =>
          match stored (ID c) with
          | Err e => Err (SpecQueryFailed (ID c) e)
          | Ok None => Err (SpecNotFound (ID c))
          | Ok (Some text) =>
              match unmarshal text with
              | None => Err (SpecUndecodable (ID c))
              | Some s => Ok (mkServiceContainer c s)
              end
          end
      end
  end.

(** A label of a summary: the empty text if absent. *)
Definition sum_label (cs : Summary) (key : string) : string := default "" (sum_Labels cs !! key).

Definition of_service (serviceNameOrID : string) (cs : Summary) : bool :=
  String.eqb serviceNameOrID "" || String.eqb (sum_label cs LabelServiceID) serviceNameOrID ||
  String.eqb (sum_label cs LabelServiceName) serviceNameOrID.

Fixpoint list_loop (serviceNameOrID : string) (summaries : list Summary)
  (acc : list ServiceContainer * list ServiceContainer) : list ServiceContainer * list ServiceContainer :=
  match summaries with
  | [] => acc
  | cs :: rest =>
      if negb (of_service serviceNameOrID cs) then list_loop serviceNameOrID rest acc
      else match InspectServiceContainer (sum_ID cs) with
           | Err _ => list_loop serviceNameOrID rest acc
           | Ok c => list_loop serviceNameOrID rest
                       (if IsHook c then (fst acc, snd acc ++ [c]) else (fst acc ++ [c], snd acc))
           end
  end.

(** [ListServiceContainers]: [ContainerList] is given the labels added to the caller's filters. *)
Definition ListServiceContainers (ContainerList : list string -> result E (list Summary)) (serviceNameOrID : string) :
  result E (list ServiceContainer * list ServiceContainer) :=
  match ContainerList [LabelServiceID; LabelManaged] with
  | Err e => Err e
  | Ok summaries => Ok (list_loop serviceNameOrID summaries ([], []))
  end.
End Listing.

(** ** Lemmas *)
Definition volume_sources (mounts : list DockerMount) : list string :=
  omap (fun m => if String.eqb (dm_Type m) VolumeTypeVolume then Some (dm_Source m) else None) mounts.

(** The files the config mounts of a specification ask for, in order. *)
Definition config_files {E} (s : ServiceSpec) : result (inject_error E) (list TarFile) :=
  let configs := els (Configs s) in
  let mounts := els (ConfigMounts (Container_ s)) in
  if Nat.eqb (length configs) 0 || Nat.eqb (length mounts) 0 then Ok []
  else map_ok (config_file (config_map configs)) mounts.

(** The Docker mount [dm] is what the mount [m] of one of the volumes [vs] asks for. *)
Definition mounted (vs : list VolumeSpec) (m : VolumeMount) (dm : DockerMount) : Prop :=
  exists v, v ∈ vs /\ vol_Name v = VolumeName m /\
    dm_Type dm = vol_Type v /\ dm_Target dm = ContainerPath m /\ dm_ReadOnly dm = ReadOnly m /\
    (vol_Type v = VolumeTypeVolume -> dm_Source dm = DockerVolumeName v) /\
    (vol_Type v = VolumeTypeBind -> exists b, vol_Bind v = Some b /\ dm_Source dm = HostPath b) /\
    (vol_Type v = VolumeTypeTmpfs -> dm_Source dm = "").

Lemma docker_mount_SetDefaults v m : Volume.Validate v = Ok tt ->
  exists dm, docker_mount (Volume.SetDefaults v) m = Ok dm /\
    dm_Type dm = vol_Type v /\ dm_Target dm = ContainerPath m /\ dm_ReadOnly dm = ReadOnly m /\
    (vol_Type v = VolumeTypeVolume -> dm_Source dm = DockerVolumeName v) /\
    (vol_Type v = VolumeTypeBind -> exists b, vol_Bind v = Some b /\ dm_Source dm = HostPath b) /\
    (vol_Type v = VolumeTypeTmpfs -> dm_Source dm = "").
Proof.
  intros Hv. pose proof (SetDefaults_DockerVolumeName v) as Hd.
  assert (Hsame : vol_Type (Volume.SetDefaults v) = vol_Type v /\ vol_Bind (Volume.SetDefaults v) = vol_Bind v)
    by (unfold Volume.SetDefaults; cbn; by destruct (String.eqb _ _)).
  destruct Hsame as [Ht Hb]. unfold docker_mount. rewrite Ht, Hb, Hd.
  revert Hv. unfold Volume.Validate. destruct (String.eqb (vol_Name v) ""); [done|].
  destruct (String.eqb_spec (vol_Type v) VolumeTypeBind) as [E|E].
  { rewrite E. destruct (vol_Bind v) as [b|]; [|done]. intros _. eexists. split; [done|]. cbn.
    split_and!; try done. intros _. by exists b. }
  destruct (String.eqb_spec (vol_Type v) VolumeTypeVolume) as [E'|E'].
  { intros _. destruct (SetDefaults_volume v E') as (o & -> & _). rewrite E'. eexists. split; [done|]. by cbn. }
  destruct (String.eqb_spec (vol_Type v) VolumeTypeTmpfs) as [E''|E'']; [|done].
  intros _. rewrite E''. eexists. split; [done|]. by cbn.
Qed.

Lemma ToDockerMounts_valid vs ms : Forall (fun v => Volume.Validate v = Ok tt) vs ->
  Forall (fun m => exists v, v ∈ vs /\ vol_Name v = VolumeName m) ms ->
  exists dms, ToDockerMounts vs ms = Ok dms /\ Forall2 (mounted vs) ms dms.
Proof.
  intros Hv Hm. unfold ToDockerMounts. induction Hm as [|m ms (v & Hin & Hn) _ (dms & IH & Hall)]; cbn [map_ok].
  { exists []. split; [done|constructor]. }
  rewrite IH. destruct (List.find _ _) as [v'|] eqn:Hf.
  - apply find_some in Hf as [Hin' Hname%String.eqb_eq]. rewrite <- list_elem_of_In in Hin'.
    apply list_elem_of_fmap in Hin' as (v0 & -> & Hin0). rewrite Forall_forall in Hv.
    rewrite (Validate_SetDefaults_volume v0), (Hv v0 Hin0).
    destruct (docker_mount_SetDefaults v0 m (Hv v0 Hin0)) as (dm & -> & Hdm). eexists. split; [done|].
    constructor; [|done]. exists v0. split; [done|]. split; [|done]. rewrite <- Hname.
    unfold Volume.SetDefaults. cbn. by destruct (String.eqb _ _).
  - exfalso. apply (find_none _ _) with (x := Volume.SetDefaults v) in Hf.
    + apply String.eqb_neq in Hf. apply Hf. rewrite <- Hn. unfold Volume.SetDefaults. cbn. by destruct (String.eqb _ _).
    + rewrite <- list_elem_of_In. apply list_elem_of_fmap. by exists v.
Qed.

Definition is_volume_call (c : Call) : Prop := exists name ok, c = CVolume name ok.

(** A call of the attempt to fill the container [id] that has not stored it. *)
Definition is_filling (id : string) (c : Call) : Prop :=
  (exists f ok, c = CCopy id f ok) \/ exists text, c = CInsert id text false.

Section Facts.
Context {HO : GoOrder} {Named RefError W E : Type} (ParseDockerRef : string -> result RefError Named).
Context (unmarshal : string -> option ServiceSpec) (marshal : ServiceSpec -> option string) (en : Engine W E).
Context (marshal_response : string -> option string) (tar_writes : TarFile -> bool).

(** The copies of the files, when their archives can be written and the ID is long enough. *)
Definition copied (id : string) (files : list TarFile) (calls : list Call) : Prop :=
  calls = map (fun f => CCopy id f true) files /\ Forall (fun f => tar_writes f = true) files /\
  (files <> [] -> 12 <= String.length id).

(** The run that the short ID of the container ends in a panic after the first copy. *)
Definition cut_short (id : string) (calls : list Call) : Prop :=
  String.length id < 12 /\ exists f, calls = [CCopy id f true].

Lemma verify_logged mounts w log :
  exists w' calls r,
    verifyDockerVolumesExist (RefError := RefError) (logged en) mounts (w, log) = ((w', log ++ calls), r) /\
    Forall is_volume_call calls /\
    match r with
    | Ok _ => calls = map (fun n => CVolume n true) (volume_sources mounts)
    | Err (VolumeNotFound n) | Err (VolumeInspectFailed n _) => n ∈ volume_sources mounts
    | Err _ => False
    end.
Proof.
  revert w log; induction mounts as [|m mounts IH]; intros w log; cbn [verifyDockerVolumesExist].
  { exists w, [], (Ok tt). by rewrite app_nil_r. }
  unfold volume_sources. cbn [omap list_omap]. destruct (String.eqb (dm_Type m) VolumeTypeVolume); cbn [negb];
    [|destruct (IH w log) as (w' & calls & r & -> & Hc & Hr); by exists w', calls, r].
  cbn [logged en_volume]. unfold record. destruct (en_volume en (dm_Source m) w) as [w1 [[]|e]]; cbn [is_ok].
  - destruct (IH w1 (log ++ [CVolume (dm_Source m) true])) as (w' & calls & r & -> & Hc & Hr).
    exists w', (CVolume (dm_Source m) true :: calls), r. rewrite <- app_assoc. split; [done|].
    split; [constructor; [by do 2 eexists|done]|].
    destruct r as [|[]]; try done; [by rewrite Hr|right; exact Hr..].
  - exists w1, [CVolume (dm_Source m) false]. eexists. split; [done|].
    split; [repeat constructor; by do 2 eexists|]. cbn. destruct (en_not_found en e); left.
Qed.

Lemma inject_loop_logged cs id mounts w log :
  exists w' calls r, inject_loop tar_writes (logged en) cs id mounts (w, log) = ((w', log ++ calls), r) /\
    Forall (is_filling id) calls /\
    match r with
    | Ok _ => exists files, map_ok (config_file (E := E) cs) mounts = Ok files /\ copied id files calls
    | Err Panicked => cut_short id calls
    | Err (Returned (CopyFailed _ _)) | Err (Returned (HeaderRefused _)) => True
    | Err (Returned e) => map_ok (config_file cs) mounts = Err e
    end.
Proof.
  revert w log; induction mounts as [|m mounts IH]; intros w log; cbn [inject_loop map_ok].
  { exists w, [], (Ok tt). rewrite app_nil_r. split_and!; [done|done|]. exists []. split; [done|]. by split_and!. }
  destruct (config_file cs m) as [f|e] eqn:Hf.
  2:{ exists w, [], (Err (Returned e)). rewrite app_nil_r. split_and!; [done|done|]. by destruct e. }
  destruct (tar_writes f) eqn:Htar; cbn [negb].
  2:{ exists w, []. eexists. rewrite app_nil_r. split_and!; [done|done|done]. }
  cbn [logged en_copy]. unfold record. destruct (en_copy en id f w) as [w1 [[]|e]]; cbn [is_ok].
  - assert (Hfill : is_filling id (CCopy id f true)) by (left; by do 2 eexists).
    destruct (Nat.ltb_spec (String.length id) 12) as [Hshort|Hlong].
    { exists w1, [CCopy id f true]. eexists. split; [done|]. split; [constructor; [exact Hfill|constructor]|]. split; [done|]. by eexists. }
    destruct (IH w1 (log ++ [CCopy id f true])) as (w' & calls & r & -> & Hc & Hr).
    exists w', (CCopy id f true :: calls), r. rewrite <- app_assoc. split; [done|].
    split; [by constructor|]. destruct r as [[]|[e|]]; [|destruct e; by rewrite ?Hr|].
    + destruct Hr as (files & -> & -> & Ht & _). exists (f :: files). split; [done|].
      split; [done|]. split; [by constructor|done].
    + destruct Hr as [Hr _]. lia.
  - exists w1, [CCopy id f false]. eexists. split; [done|]. split; [constructor; [left; by do 2 eexists|constructor]|done].
Qed.

Lemma map_config_not_invalid cs ms e : map_ok (config_file (E := E) cs) ms <> Err (ConfigsInvalid e).
Proof.
  induction ms as [|m ms IH]; cbn; [done|]. unfold config_file at 1. destruct (_ !! _); [|done].
  destruct (GetNumericUid m); [|done]. destruct (GetNumericGid m); [|done].
  destruct (map_ok _ ms); [done|]. intros [= ->]. by apply IH.
Qed.

Lemma injectConfigs_logged id s w log :
  exists w' calls r,
    injectConfigs tar_writes (logged en) id (els (Configs s)) (els (ConfigMounts (Container_ s))) (w, log) = ((w', log ++ calls), r) /\
    Forall (is_filling id) calls /\
    match r with
    | Ok _ => exists files, config_files (E := E) s = Ok files /\ copied id files calls
    | Err Panicked => cut_short id calls
    | Err (Returned (CopyFailed _ _)) | Err (Returned (HeaderRefused _)) => True
    | Err (Returned (ConfigsInvalid e)) =>
        ValidateConfigsAndMounts (els (Configs s)) (els (ConfigMounts (Container_ s))) = Err e
    | Err (Returned e) => config_files s = Err e
    end.
Proof.
  unfold injectConfigs, config_files. destruct (Nat.eqb _ 0 || _).
  { exists w, [], (Ok tt). rewrite app_nil_r. split_and!; [done|done|]. exists []. split; [done|]. by split_and!. }
  destruct (ValidateConfigsAndMounts _ _) as [|e]; [|exists w, [], (Err (Returned (ConfigsInvalid e))); by rewrite app_nil_r].
  destruct (inject_loop_logged (config_map (els (Configs s))) id (els (ConfigMounts (Container_ s))) w log)
    as (w' & calls & r & -> & Hc & Hr). exists w', calls, r. split_and!; [done|done|].
  destruct r as [|[[]|]]; try done. by apply map_config_not_invalid in Hr.
Qed.

Lemma config_map_lookup configs name : name ∈ map cfg_Name configs -> is_Some (config_map configs !! name).
Proof.
  unfold config_map. assert (H : forall cs : gmap string ConfigSpec, is_Some (cs !! name) \/ name ∈ map cfg_Name configs ->
    is_Some (fold_left (fun cs c => <[cfg_Name c := c]> cs) configs cs !! name)).
  { induction configs as [|c configs IH]; intros cs; cbn.
    - by intros [|?%not_elem_of_nil].
    - intros H. apply IH. destruct (decide (cfg_Name c = name)) as [<-|Hne]; [left; rewrite lookup_insert_eq; eauto|].
      rewrite lookup_insert_ne by done. destruct H as [|H]; [by left|].
      apply elem_of_cons in H as [->|]; [done|by right]. }
  intros Hn. apply H. by right.
Qed.

(** The config files of a valid specification can be written. *)
Lemma config_files_valid s :
  ValidateConfigsAndMounts (els (Configs s)) (els (ConfigMounts (Container_ s))) = Ok tt ->
  exists files, config_files (E := E) s = Ok files.
Proof.
  intros (_ & _ & Hm)%ValidateConfigsAndMounts_Ok. unfold config_files. destruct (_ || _); [by eexists|].
  induction Hm as [|m ms [Hv Hin] _ IH]; cbn; [by eexists|]. destruct IH as [files ->].
  unfold config_file. destruct (config_map_lookup _ _ Hin) as [c ->].
  unfold validateConfigMount in Hv. destruct (String.eqb _ _); [done|].
  destruct (GetNumericUid m); [|done]. destruct (GetNumericGid m); [|done]. by eexists.
Qed.

(** A call that created a container. *)
Definition created (log : list Call) (id : string) : Prop := exists args, CCreate args (Some id) ∈ log.

(** The errors after the container exists that leave it removed. *)
Definition fill_error (s : ServiceSpec) (e : server_error (RefError := RefError) E) : Prop :=
  match e with
  | InjectFailed (CopyFailed _ _) | InjectFailed (HeaderRefused _) | SpecNotEncodable | StoreFailed _ => True
  | InjectFailed (ConfigsInvalid e) =>
      ValidateConfigsAndMounts (els (Configs s)) (els (ConfigMounts (Container_ s))) = Err e
  | InjectFailed e => config_files s = Err e
  | _ => False
  end.

(** The calls of a run that removes the container last. *)
Definition undone (id : string) (calls : list Call) : Prop :=
  exists filling ok, calls = filling ++ [CRemove id ok] /\ Forall (is_filling id) filling.

Lemma remove_logged id w log : exists w' ok,
  fst (en_remove (logged en) id with_volumes (w, log)) = (w', log ++ [CRemove id ok]).
Proof. cbn. destruct (en_remove en id with_volumes w) as [w' r]. by exists w', (is_ok r). Qed.

Lemma fill_logged s id w log :
  exists w' calls r,
    fill_container (RefError := RefError) marshal marshal_response tar_writes (logged en) s id (w, log) = ((w', log ++ calls), r) /\
    match r with
    | Ok response => marshal_response id = Some response /\
        exists files copies text, config_files (E := E) s = Ok files /\ copied id files copies /\
          marshal s = Some text /\ calls = copies ++ [CInsert id text true]
    | Err Panicked => cut_short id calls
    | Err (Returned ResponseNotEncodable) => marshal_response id = None /\
        exists files, config_files (E := E) s = Ok files /\ copied id files calls
    | Err (Returned e) => undone id calls /\ fill_error s e
    end.
Proof.
  unfold fill_container. destruct (injectConfigs_logged id s w log) as (w1 & calls & r & -> & Hc & Hr).
  destruct r as [[]|[e|]].
  - destruct Hr as (files & Hf & Hcop). destruct (marshal_response id) as [response|] eqn:Hresp.
    2:{ eexists w1, calls, _. split; [done|]. split; [done|]. by exists files. }
    destruct (marshal s) as [text|] eqn:Ht.
    + cbn [logged db_insert]. unfold record. destruct (db_insert en id text w1) as [w2 [[]|e]]; cbn [is_ok].
      * exists w2, (calls ++ [CInsert id text true]), (Ok response).
        rewrite app_assoc. split; [done|]. split; [done|]. by exists files, calls, text.
      * destruct (remove_logged id w2 ((log ++ calls) ++ [CInsert id text false])) as (w3 & ok & ->).
        exists w3. eexists. exists (Err (Returned (StoreFailed e))). rewrite <- !app_assoc. split; [done|]. split; [|done].
        exists (calls ++ [CInsert id text false]), ok. rewrite <- app_assoc.
        split; [done|]. apply Forall_app. split; [done|]. constructor; [right; by eexists|constructor].
    + destruct (remove_logged id w1 (log ++ calls)) as (w3 & ok & ->).
      exists w3. eexists. exists (Err (Returned SpecNotEncodable)). rewrite <- !app_assoc. split; [done|]. split; [|done].
      by exists calls, ok.
  - destruct (remove_logged id w1 (log ++ calls)) as (w3 & ok & ->).
    exists w3. eexists. exists (Err (Returned (InjectFailed e))). rewrite <- !app_assoc. split; [done|]. split; [by exists calls, ok|].
    by destruct e.
  - by eexists w1, calls, _.
Qed.

(** What a request that passes the first checks is for. *)
Definition accepted (draws : nat -> draw) (r : CreateRequest) (s : ServiceSpec) (name : string)
  (labels : gmap string string) (mounts : list DockerMount) : Prop :=
  ValidateServiceID (cr_ServiceId r) = true /\
  (exists s0, unmarshal (cr_ServiceSpec r) = Some s0 /\ s = service_SetDefaults s0) /\
  service_Validate ParseDockerRef s = Ok tt /\
  container_name draws r s = Some name /\
  encode_port_label s (base_labels (cr_ServiceId r) s) = Ok labels /\
  Forall2 (mounted (els (Volumes s))) (els (VolumeMounts (Container_ s))) mounts.

(** The run passed the checks, found the volumes and created the container [id], and then
    made the [calls]. *)
Definition created_then (draws : nat -> draw) (m : Machine) (r : CreateRequest) (log : list Call) (id : string)
  (s : ServiceSpec) (calls : list Call) : Prop :=
  exists name labels mounts bindings, accepted draws r s name labels mounts /\
    port_bindings (interfaces m) ∅ (els (Ports s)) = Some bindings /\
    log = map (fun n => CVolume n true) (volume_sources mounts) ++
          CCreate (create_args m r name s labels mounts bindings) (Some id) :: calls.

Lemma request_parts_spec draws r :
  match request_parts (E := E) ParseDockerRef unmarshal draws r with
  | Ok (s, name, labels, mounts) => accepted draws r s name labels mounts
  | Err (InvalidServiceID _) | Err SpecUnreadable | Err (SpecRejected _) | Err NameSuffixFailed
  | Err (PortNotEncodable _) => True
  | Err _ => False
  end.
Proof.
  unfold request_parts, request_spec. destruct (ValidateServiceID _) eqn:Hid; cbn [negb res_bind]; [|done].
  destruct (unmarshal _) as [s0|] eqn:Hu; cbn [res_bind]; [|done]. set (s := service_SetDefaults s0).
  destruct (service_Validate ParseDockerRef s) as [[]|e] eqn:Hv; cbn [wrap_err res_bind]; [|done].
  destruct (container_name draws r s) as [name|] eqn:Hn; cbn [res_bind]; [|done].
  destruct (encode_port_label s _) as [labels|] eqn:Hl; cbn [wrap_err res_bind]; [|done].
  pose proof (proj1 (service_Validate_Ok ParseDockerRef s) Hv) as (_ & _ & _ & _ & _ & _ & Hvol & _ & Href & _).
  destruct (ToDockerMounts_valid _ _ Hvol Href) as (dms & -> & Hall). cbn [wrap_err res_bind].
  split_and!; try done. by exists s0.
Qed.

Lemma port_bindings_from ifs acc ports b key : port_bindings ifs acc ports = Some b ->
  b !! key = match List.find (fun p => String.eqb (Mode p) PortModeHost && String.eqb (port_key p) key) (rev ports) with
             | Some p => bindings_of ifs p
             | None => acc !! key
             end.
Proof.
  revert acc; induction ports as [|p ports IH]; intros acc; cbn [port_bindings rev].
  { by intros [= ->]. }
  rewrite find_app. cbn [List.find]. destruct (String.eqb (Mode p) PortModeHost); cbn [negb andb].
  - destruct (bindings_of ifs p) as [bs|] eqn:Hb; [|done]. intros H. rewrite (IH _ H).
    destruct (List.find _ (rev ports)); [done|]. destruct (String.eqb_spec (port_key p) key) as [->|Hne].
    + by rewrite lookup_insert_eq, Hb.
    + by rewrite lookup_insert_ne.
  - intros H. rewrite (IH _ H). by destruct (List.find _ (rev ports)).
Qed.
(** No container was left behind by the calls of a failed request. *)
Definition cleaned (log : list Call) : Prop :=
  (forall id text, CInsert id text true ∉ log) /\
  ((forall id, ~ created log id) \/
   exists before args id filling ok, log = before ++ CCreate args (Some id) :: filling ++ [CRemove id ok] /\
     Forall is_volume_call before /\ Forall (is_filling id) filling).

Lemma cleaned_before vols rest : Forall is_volume_call vols -> rest = [] \/ (exists args, rest = [CCreate args None]) ->
  cleaned (vols ++ rest).
Proof.
  intros Hv Hr. rewrite Forall_forall in Hv.
  assert (Hn : forall c, c ∈ vols ++ rest -> is_volume_call c \/ exists args, c = CCreate args None).
  { intros c [Hc|Hc]%elem_of_app; [left; by apply Hv|]. destruct Hr as [->|[args ->]].
    - by apply not_elem_of_nil in Hc.
    - apply list_elem_of_singleton in Hc. right. by exists args. }
  split; [|left]; [intros id text H|intros id [args H]]; destruct (Hn _ H) as [(? & ? & ?)|[? ?]]; done.
Qed.

Lemma cleaned_removed vols args id filling ok : Forall is_volume_call vols -> Forall (is_filling id) filling ->
  cleaned (vols ++ CCreate args (Some id) :: filling ++ [CRemove id ok]).
Proof.
  intros Hv Hf. split; [|right; by exists vols, args, id, filling, ok].
  rewrite Forall_forall in Hv, Hf. intros id' text [H|[H|[H|H]%elem_of_app]%elem_of_cons]%elem_of_app.
  - by destruct (Hv _ H) as (? & ? & ?).
  - done.
  - by destruct (Hf _ H) as [(? & ? & ?)|[? ?]].
  - by apply list_elem_of_singleton in H.
Qed.

(** Of a validated specification the configs fail only when a copy does. *)
Lemma fill_error_valid s (e : server_error (RefError := RefError) E) :
  service_Validate ParseDockerRef s = Ok tt -> fill_error s e ->
  match e with
  | MountsFailed _ | ResponseNotEncodable => False
  | InjectFailed e => match e with CopyFailed _ _ | HeaderRefused _ => True | _ => False end
  | _ => True
  end.
Proof.
  clear unmarshal marshal en. intros Hv He. assert (Hc : ValidateConfigsAndMounts (els (Configs s)) (els (ConfigMounts (Container_ s))) = Ok tt)
    by (apply (service_Validate_Ok ParseDockerRef) in Hv; unfold service_valid in Hv; tauto).
  destruct (config_files_valid s Hc) as [files Hf]. unfold fill_error in He.
  destruct e as [| | | | | | | | | | |[]| | | |]; try done; congruence.
Qed.
End Facts.

(** The listing keeps the order of the engine and skips what cannot be inspected. *)
Lemma list_loop_spec {E} unmarshal (inspect : string -> result E Container) stored name summaries acc :
  let found := omap (fun cs => match InspectServiceContainer unmarshal inspect stored (sum_ID cs) with
                               | Ok c => Some c | Err _ => None end)
                 (filter (fun cs => of_service name cs = true) summaries) in
  list_loop unmarshal inspect stored name summaries acc =
    (fst acc ++ filter (fun c => IsHook c = false) found, snd acc ++ filter (fun c => IsHook c = true) found).
Proof.
  cbv zeta. revert acc; induction summaries as [|cs summaries IH]; intros [cs1 hs1]; cbn [list_loop].
  { cbn. by rewrite !app_nil_r. }
  destruct (of_service name cs) eqn:Hs; cbn [negb];
    [rewrite filter_cons_True by done|rewrite filter_cons_False by (by rewrite Hs); apply IH].
  cbn [omap list_omap]. destruct (InspectServiceContainer _ _ _ _) as [c|]; [|apply IH]. rewrite IH.
  destruct (IsHook c) eqn:Hh; cbn [fst snd].
  - rewrite filter_cons_False, filter_cons_True by (by rewrite Hh). by rewrite <- app_assoc.
  - rewrite filter_cons_True, filter_cons_False by (by rewrite Hh). by rewrite <- app_assoc.
Qed.

(** Removing a container: its record is deleted after the container, by its full ID, and only
    if the container was removed; the result tells about the container alone. *)
Lemma RemoveServiceContainer_calls {RefError W E} (en : Engine W E) id opts w log :
  let '((_, log'), res) := RemoveServiceContainer (RefError := RefError) (logged en) id opts (w, log) in
  exists lookup removal, log' = log ++ lookup ++ removal /\
    match res with
    | Ok _ => exists full ok, removal = [CRemove id true; CDelete full ok] /\
        (lookup = [] /\ full = id /\ is_full_id id = true \/ lookup = [CInspect id (Some full)] /\ is_full_id id = false)
    | Err _ => removal = [] \/ removal = [CRemove id false]
    end.
Proof.
  assert (Hafter : forall full lookup w1,
    (lookup = [] /\ full = id /\ is_full_id id = true \/ lookup = [CInspect id (Some full)] /\ is_full_id id = false) ->
    let '((_, log'), res) := remove_and_forget (RefError := RefError) (logged en) full id opts (w1, log ++ lookup) in
    exists removal, log' = log ++ lookup ++ removal /\
      match res with
      | Ok _ => exists ok, removal = [CRemove id true; CDelete full ok]
      | Err _ => removal = [] \/ removal = [CRemove id false]
      end).
  { intros full lookup w1 Hl. unfold remove_and_forget, RemoveContainer. cbn [logged en_remove db_delete]. unfold record.
    destruct opts as [opts|]; [|exists []; rewrite app_nil_r; by split; [|left]].
    destruct (en_remove en id opts w1) as [w2 [[]|e]]; cbn [is_ok].
    - destruct (db_delete en full w2) as [w3 r]. exists [CRemove id true; CDelete full (is_ok r)].
      rewrite <- !app_assoc. split; [done|]. by exists (is_ok r).
    - exists [CRemove id false]. rewrite <- app_assoc. by split; [|right]. }
  unfold RemoveServiceContainer. destruct (is_full_id id) eqn:Hf.
  - specialize (Hafter id [] w (or_introl (conj eq_refl (conj eq_refl eq_refl)))). rewrite app_nil_r in Hafter.
    destruct (remove_and_forget _ _ _ _ _) as [[w2 log2] [[]|e]];
      destruct Hafter as (removal & -> & H); exists [], removal; (split; [done|]); [|done].
    destruct H as [ok ->]. exists id, ok. split; [done|by left].
  - cbn [logged en_inspect]. unfold record. destruct (en_inspect en id w) as [w0 [full|e]]; cbn [value_of].
    + specialize (Hafter full [CInspect id (Some full)] w0 (or_intror (conj eq_refl eq_refl))).
      destruct (remove_and_forget _ _ _ _ _) as [[w2 log2] [[]|e]];
        destruct Hafter as (removal & -> & H); exists [CInspect id (Some full)], removal; (split; [done|]); [|done].
      destruct H as [ok ->]. exists full, ok. split; [done|by right].
    + exists [CInspect id None], []. by split; [|left].
Qed.

(** C10: creating a service container is all or nothing, whatever the engine and the database
    answer, but for two exceptions.  On success the volumes were found, one container was
    created with the computed arguments, every config file was copied into it in order, and
    its specification was stored; nothing was removed.  On failure no record was stored, and
    if a container had been created, the last call was its removal.  The exceptions leave the
    container behind without a record: when the response with its ID does not encode, the
    configs having been copied, and when the engine names it by less than twelve bytes, the
    server panicking after the first copy.  The specification having been validated, its
    mounts never fail and its configs fail only when an archive or a copy does. *)
Theorem CreateServiceContainer_all_or_nothing {HO : GoOrder} {Named RefError W E}
  (ParseDockerRef : string -> result RefError Named) (unmarshal : string -> option ServiceSpec)
  (marshal : ServiceSpec -> option string) (marshal_response : string -> option string) (tar_writes : TarFile -> bool)
  (en : Engine W E) (m : Machine) (draws : nat -> draw) (r : CreateRequest) (w : W) :
  let '((_, log), res) := CreateServiceContainer ParseDockerRef unmarshal marshal marshal_response tar_writes
                            (logged en) m draws r (w, []) in
  let created := created_then ParseDockerRef unmarshal draws m r log in
  match res with
  | Ok response => exists id s files copies text, created id s (copies ++ [CInsert id text true]) /\
      marshal_response id = Some response /\
      config_files (E := E) s = Ok files /\ copied tar_writes id files copies /\ marshal s = Some text
  | Err Panicked => exists id s calls, created id s calls /\ cut_short id calls
  | Err (Returned ResponseNotEncodable) => exists id s files copies, created id s copies /\
      marshal_response id = None /\ config_files (E := E) s = Ok files /\ copied tar_writes id files copies
  | Err (Returned e) =>
      cleaned log /\
      match e with
      | MountsFailed _ => False
      | InjectFailed e => match e with CopyFailed _ _ | HeaderRefused _ => True | _ => False end
      | _ => True
      end
  end.
Proof.
  unfold CreateServiceContainer. pose proof (request_parts_spec (E := E) ParseDockerRef unmarshal draws r) as Hparts.
  destruct (request_parts _ _ draws r) as [[[[s name] labels] mounts]|e].
  2:{ assert (cleaned []) by (apply (cleaned_before [] []); by auto). by destruct e. }
  destruct (verify_logged (RefError := RefError) en mounts w []) as (w1 & vols & rv & -> & Hvols & Hrv). cbn [app].
  assert (Hclean : cleaned vols) by (rewrite <- (app_nil_r vols); apply cleaned_before; by auto).
  destruct rv as [[]|e]; [|by destruct e].
  destruct (port_bindings _ _ _) as [bindings|] eqn:Hb; [|done].
  cbn [logged en_create]. unfold record.
  destruct (en_create en _ w1) as [w2 [id|e]]; cbn [value_of].
  2:{ assert (cleaned (vols ++ [CCreate (create_args m r name s labels mounts bindings) None]))
        by (apply cleaned_before; by eauto). cbn. by destruct (en_not_found en e). }
  destruct (fill_logged (RefError := RefError) marshal en marshal_response tar_writes s id w2
    (vols ++ [CCreate (create_args m r name s labels mounts bindings) (Some id)])) as (w3 & calls & rf & -> & Hf).
  assert (Hthen : forall rest, created_then ParseDockerRef unmarshal draws m r
    ((vols ++ [CCreate (create_args m r name s labels mounts bindings) (Some id)]) ++ rest) id s rest).
  { intros rest. exists name, labels, mounts, bindings. by rewrite Hrv, <- app_assoc. }
  assert (Hcleaned : undone id calls -> cleaned ((vols ++ [CCreate (create_args m r name s labels mounts bindings) (Some id)]) ++ calls)).
  { intros (filling & ok & -> & Hfill). rewrite <- app_assoc. by apply cleaned_removed. }
  assert (Hvalid : service_Validate ParseDockerRef s = Ok tt) by apply Hparts.
  destruct rf as [response|[e|]].
  - destruct Hf as (Hresp & files & copies & text & Hfiles & Hcop & Ht & ->). by exists id, s, files, copies, text.
  - assert (Hgen : undone id calls /\ fill_error s e -> cleaned ((vols ++ [CCreate (create_args m r name s labels mounts bindings) (Some id)]) ++ calls) /\
      match e with
      | MountsFailed _ | ResponseNotEncodable => False
      | InjectFailed e => match e with CopyFailed _ _ | HeaderRefused _ => True | _ => False end
      | _ => True
      end).
    { intros [Hu He]. split; [by apply Hcleaned|]. by apply (fill_error_valid ParseDockerRef s). }
    destruct e; try (by apply Hgen).
    destruct Hf as (Hresp & files & Hfiles & Hcop). by exists id, s, files, calls.
  - by exists id, s, calls.
Qed.

(** The container that the calls [args] create, as far as the labels and the command go. *)
Definition runs (args : CreateArgs) (c : ServiceContainer) : Prop :=
  Labels (ctr c) = Some (cc_Labels (ca_Config args)).

Definition is_hook_request (r : CreateRequest) (s : ServiceSpec) : bool :=
  match PreDeploy s with Some _ => cr_PreDeploy r | None => false end.

Lemma port_label_read s id labels c : encode_port_label s (base_labels id s) = Ok labels ->
  Labels (ctr c) = Some labels -> Forall (fun p => label_safe p = true) (els (Ports s)) ->
  exists ports, ServicePorts c = Ok ports /\ els ports = els (Ports s).
Proof.
  unfold encode_port_label. intros Hl Hc Hsafe. destruct (Nat.eqb_spec (length (els (Ports s))) 0) as [Hn|Hn].
  - injection Hl as <-. exists None. split; [unfold ServicePorts; by rewrite Hc|].
    apply nil_length_inv in Hn. by rewrite Hn.
  - destruct (encode_ports _) as [encoded|] eqn:He; cbn [res_bind] in Hl; [|done]. injection Hl as <-.
    exists (Some (els (Ports s))). split; [|done].
    apply (ServicePorts_roundtrip c _ encoded); [by intros Hnil; rewrite Hnil in Hn|done|done|].
    rewrite Hc. cbn [entries]. apply lookup_insert_eq.
Qed.

(** Every label but the ports is a base label. *)
Lemma label_of_base s id labels key : encode_port_label s (base_labels id s) = Ok labels ->
  key <> LabelServicePorts -> labels !! key = base_labels id s !! key.
Proof.
  unfold encode_port_label. intros Hl Hk. destruct (Nat.eqb _ 0); [by injection Hl as <-|].
  destruct (encode_ports _); cbn [res_bind] in Hl; [|done]. injection Hl as <-. by rewrite lookup_insert_ne.
Qed.

(** The environment variables of a service container and of a pre-deploy hook, by name. *)
Definition service_variable (m : Machine) (s : ServiceSpec) (k : string) : option string :=
  if decide (k = "UNCLOUD_MACHINE_ID" /\ machineID m <> "") then Some (machineID m) else entries (Env (Container_ s)) !! k.

Definition hook_variable (m : Machine) (s : ServiceSpec) (h : PreDeployHook) (k : string) : option string :=
  if decide (k = "UNCLOUD_HOOK_PRE_DEPLOY") then Some "true"
  else match entries (hook_Env h) !! k with Some v => Some v | None => service_variable m s k end.

Definition environment (env : list string) (variable : string -> option string) : Prop :=
  forall e, e ∈ env <-> exists k v, k <> "" /\ variable k = Some v /\ e = (k ++ "=" ++ v)%string.

Lemma ToSlice_environment `{GoOrder} site (m : gmap string string) variable : (forall k, m !! k = variable k) ->
  environment (ToSlice site (Some m)) variable.
Proof.
  intros Hm e. unfold ToSlice. rewrite list_elem_of_omap. cbn [entries]. split.
  - intros ([k v] & Hin%elem_of_range_map & He). cbn in He. destruct (String.eqb_spec k ""); [done|].
    injection He as <-. exists k, v. by rewrite <- Hm.
  - intros (k & v & Hk & Hv & ->). exists (k, v). rewrite elem_of_range_map, Hm. split; [done|]. cbn.
    by rewrite (proj2 (String.eqb_neq k "")).
Qed.

Lemma env_vars_lookup m s k : env_vars m s !! k = service_variable m s k.
Proof.
  unfold env_vars, service_variable. destruct (String.eqb_spec (machineID m) "") as [He|He].
  - rewrite decide_False by (by intros [_ ?]). done.
  - destruct (decide (k = "UNCLOUD_MACHINE_ID" /\ _)) as [[-> _]|Hk]; [apply lookup_insert_eq|].
    rewrite lookup_insert_ne; [done|]. intros <-. by apply Hk.
Qed.


(** Two host ports of one container port and protocol: only the last one is published. *)
Definition dns_ports : list PortSpec :=
  [mkPort "" (Addr4 2130706433) NoPrefix 53 5353 "udp" "host"; mkPort "" NoAddr NoPrefix 1053 5353 "udp" "host"].

Example second_host_port_wins :
  port_bindings None ∅ dns_ports = Some {["5353/udp" := [mkBinding "" "1053"]]} /\
  forallb (fun p => is_ok (Port.Validate p)) dns_ports = true.
Proof. split; vm_compute; reflexivity. Qed.

(** A service with two ports, and a hook that overrides its environment, user and privileges. *)
Definition published_hook : PreDeployHook :=
  mkHook (Some ["migrate"]) (Some {["MODE" := "hook"]}) (Some true) None "deploy".

Definition published_service : ServiceSpec :=
  service_SetDefaults (mkServiceSpec None None
    (mkContainerSpec None None None None (Some {["MODE" := "serve"; "LEVEL" := "info"]}) None "nginx" None None "" false false false ""
       empty_resources None None "www" (Some []) None None)
    "" "web" (mkPlacement None) (Some ports_80_53) (Some published_hook) 0 (mkUpdateConfig "" None) None).

Definition published_request (hook : bool) : CreateRequest :=
  mkCreateRequest "0123456789abcdef0123456789abcdef" "json" "web-abcd" hook.

Definition published_labels : gmap string string :=
  match encode_port_label published_service (base_labels "0123456789abcdef0123456789abcdef" published_service) with
  | Ok labels => labels
  | Err _ => ∅
  end.

Definition here : Machine := mkMachine "m1" None NoAddr.
Definition published_args (hook : bool) : CreateArgs :=
  @create_args go_identity_order here (published_request hook) "web-abcd" published_service published_labels []
    {["5353/udp" := [mkBinding "10.0.0.1" "53"]]}.

Lemma published_accepted hook : accepted (RefError := unit) (fun _ => Ok tt) (fun _ => Some published_service) (fun _ => None)
  (published_request hook) published_service "web-abcd" published_labels [].
Proof.
  split; [by vm_compute|]. split; [exists published_service; split; by vm_compute|].
  split; [vm_compute; reflexivity|]. split; [by destruct hook|]. split; [vm_compute; reflexivity|]. vm_compute. constructor.
Qed.

Lemma published_bindings :
  port_bindings (interfaces here) ∅ (els (Ports published_service)) = Some {["5353/udp" := [mkBinding "10.0.0.1" "53"]]}.
Proof. by vm_compute. Qed.

Definition run_of (hook : bool) : ServiceContainer := container_with_labels (cc_Labels (ca_Config (published_args hook))).

