(* ===== verification/ServiceClient.v ===== *)
(** * ServiceClient: services as the cluster client sees them, [pkg/client]

    [service.go] (inspect, list, remove, stop, start), the container operations and the
    health wait of [container.go], and the lookups of [machine.go].  The cluster is a
    [Backend] of reads and state-passing calls over a world; the goroutines of an operation
    on all containers are tasks that interleave in any order.  Progress events and warnings
    are not modelled. *)

From S2P Require Import Prelude GoStrings Proto Port Volume Spec Container DockerServer.
#[local] Open Scope string_scope.
#[local] Open Scope list_scope.
#[local] Open Scope go_scope.

(** ** What the cluster answers *)

(** [pb.MachineMember] *)
Record MachineMember := mkMember { mm_Id : string; mm_Name : string; mm_State : MembershipState }.

(** [pb.Metadata] and [docker.MachineServiceContainers] *)
Record Metadata := mkMetadata { md_MachineId : string; md_MachineName : string; md_Error : string }.
Record MachineContainers := mkMachineContainers {
  mc_Metadata : option Metadata; mc_Containers : list ServiceContainer; mc_HookContainers : list ServiceContainer
}.

(** ** Looking up services *)
Inductive lookup_error {E} :=
| ListMachinesFailed (e : E)
| ListContainersFailed (e : E)
| ServiceNotFound
| MultipleServices (name : string)
| FindFailed (e : find_error)
| MachineNotFound
| CallFailed (e : E).
#[global] Arguments lookup_error : clear implicits.

(** [errors.Is(err, api.ErrNotFound)] *)
Definition is_ErrNotFound {E} (e : lookup_error E) : bool :=
  match e with
  | ServiceNotFound | FindFailed NotFound | MachineNotFound => true
  | _ => false
  end.

Definition reachable_state (s : MembershipState) : bool := match s with UP | SUSPECT => true | _ => false end.

(** The machines a container listing is broadcast to. *)
Definition broadcast_to (machines : list MachineMember) : list string :=
  map mm_Id (filter (fun m => reachable_state (mm_State m) = true) machines).

(** The containers of one answer; an answer without metadata or with an error has none. *)
Definition answer_containers (mc : MachineContainers) : list MachineServiceContainer :=
  match mc_Metadata mc with
  | None => []
  | Some md =>
      if negb (String.eqb (md_Error md) "") then []
      else map (mkMSC (md_MachineId md) (md_MachineName md)) (mc_Containers mc ++ mc_HookContainers mc)
  end.

Definition collect (answers : list MachineContainers) : list MachineServiceContainer :=
  concat (map answer_containers answers).

Definition msc_ServiceID (c : MachineServiceContainer) : string := ServiceID (svc_ctr c).

(** The service containers belong to; of the same service, they are split into regular and hook ones. *)
Definition service_of (containers : list MachineServiceContainer) : option Service :=
  match containers with
  | [] => None
  | first :: _ =>
      Some (mkService (msc_ServiceID first) (ServiceName (svc_ctr first)) (ServiceMode (svc_ctr first))
        (filter (fun c => IsHook (svc_ctr c) = false) containers)
        (filter (fun c => IsHook (svc_ctr c) = true) containers))
  end.

Definition select_service {E} (nameOrID : string) (containers : list MachineServiceContainer) :
  result (lookup_error E) Service :=
  match containers with
  | [] => Err ServiceNotFound
  | first :: rest =>
      if existsb (fun c => String.eqb (msc_ServiceID c) nameOrID) containers
      then match service_of (filter (fun c => String.eqb (msc_ServiceID c) nameOrID = true) containers) with
           | Some svc => Ok svc
           | None => Err ServiceNotFound
           end
      else if existsb (fun c => negb (String.eqb (msc_ServiceID c) (msc_ServiceID first))) rest
      then Err (MultipleServices nameOrID)
      else match service_of containers with
           | Some svc => Ok svc
           | None => Err ServiceNotFound
           end
  end.

(** [MachineMembersList.FindByNameOrID] *)
Definition FindByNameOrID (machines : list MachineMember) (nameOrID : string) : option MachineMember :=
  List.find (fun m => String.eqb (mm_Id m) nameOrID || String.eqb (mm_Name m) nameOrID) machines.

(** [api.MachineFilter], and [ListMachines] on the members the cluster returns. *)
Record MachineFilter := mkFilter { Available : bool; NamesOrIDs : list string }.

Definition list_machines (machines : list MachineMember) (f : option MachineFilter) :
  result (list string) (list MachineMember) :=
  match f with
  | None => Ok machines
  | Some f =>
      let notFound := filter (fun n => FindByNameOrID machines n = None) (NamesOrIDs f) in
      if negb (Nat.eqb (length (NamesOrIDs f)) 0) && negb (Nat.eqb (length notFound) 0) then Err notFound
      else
        let machines := if Nat.eqb (length (NamesOrIDs f)) 0 then machines
                        else omap (FindByNameOrID machines) (NamesOrIDs f) in
        Ok (if Available f then filter (fun m => match mm_State m with DOWN => false | _ => true end = true) machines
            else machines)
  end.

(** The calls of the client: reads of the world, and operations on the containers of a
    machine.  [be_list machines serviceNameOrID] are the answers to a broadcast. *)
Record Backend (W E : Type) := mkBackend {
  be_machines : W -> result E (list MachineMember);
  be_list : list string -> string -> W -> result E (list MachineContainers);
  be_start : string -> string -> W -> W * result E unit;
  be_stop : string -> string -> option Z -> W -> W * result E unit;
  be_remove : string -> string -> RemoveOptions -> W -> W * result E unit
}.
#[global] Arguments mkBackend {W E}. #[global] Arguments be_machines {W E}. #[global] Arguments be_list {W E}.
#[global] Arguments be_start {W E}. #[global] Arguments be_stop {W E}. #[global] Arguments be_remove {W E}.

Section Services.
Context {HO : GoOrder} {W E : Type} (be : Backend W E).

Definition InspectMachine (nameOrID : string) (w : W) : result (lookup_error E) MachineMember :=
  match be_machines be w with
  | Err e => Err (ListMachinesFailed e)
  | Ok machines => match FindByNameOrID machines nameOrID with Some m => Ok m | None => Err MachineNotFound end
  end.

Definition list_answers (nameOrID : string) (w : W) : result (lookup_error E) (list MachineContainers) :=
  match be_machines be w with
  | Err e => Err (ListMachinesFailed e)
  | Ok machines => wrap_err ListContainersFailed (be_list be (broadcast_to machines) nameOrID w)
  end.

Definition InspectService (nameOrID : string) (w : W) : result (lookup_error E) Service :=
  let! answers := list_answers nameOrID w in
  select_service nameOrID (collect answers).

(** The loop of [ListServices]: each service is inspected by its ID, once. *)
Fixpoint services_loop (containers : list MachineServiceContainer) (byID : gmap string Service) (w : W) :
  result (lookup_error E) (gmap string Service) :=
  match containers with
  | [] => Ok byID
  | c :: rest =>
      match byID !! msc_ServiceID c with
      | Some _ => services_loop rest byID w
      | None =>
          match InspectService (msc_ServiceID c) w with
          | Ok svc => services_loop rest (<[msc_ServiceID c := svc]> byID) w
          | Err e => if is_ErrNotFound e then services_loop rest byID w else Err e
          end
      end
  end.

Definition ListServices (w : W) : result (lookup_error E) (list Service) :=
  let! answers := list_answers "" w in
  let! byID := services_loop (collect answers) ∅ w in
  Ok (map snd (range_map 30 byID)).

(** ** Operations on one container *)
Definition InspectContainer (serviceNameOrID containerNameOrID : string) (w : W) :
  result (lookup_error E) MachineServiceContainer :=
  let! svc := InspectService serviceNameOrID w in
  wrap_err FindFailed (FindContainer svc containerNameOrID).

(** [resolveContainerOperation]: the machine and the ID of the container. *)
Definition resolveContainerOperation (serviceNameOrID containerNameOrID : string) (w : W) :
  result (lookup_error E) (string * string) :=
  let! c := InspectContainer serviceNameOrID containerNameOrID w in
  Ok (MachineID c, msc_ID c).

Definition on_container {A} (call : string -> string -> W -> W * result E A)
  (serviceNameOrID containerNameOrID : string) (w : W) : W * result (lookup_error E) A :=
  match resolveContainerOperation serviceNameOrID containerNameOrID w with
  | Err e => (w, Err e)
  | Ok (machineID, id) => let (w, r) := call machineID id w in (w, wrap_err CallFailed r)
  end.

Definition StartContainer := on_container (be_start be).
Definition StopContainer (opts : option Z) := on_container (fun machineID id => be_stop be machineID id opts).
Definition RemoveContainer (opts : RemoveOptions) := on_container (fun machineID id => be_remove be machineID id opts).
End Services.

(** ** What a listing promises *)

(** A container is listed for an empty text, its service's ID and its service's name. *)
Definition listed_for (nameOrID : string) (c : ServiceContainer) : bool :=
  String.eqb nameOrID "" || String.eqb (ServiceID c) nameOrID || String.eqb (ServiceName c) nameOrID.

Definition restrict (nameOrID : string) (mc : MachineContainers) : MachineContainers :=
  mkMachineContainers (mc_Metadata mc) (filter (fun c => listed_for nameOrID c = true) (mc_Containers mc))
    (filter (fun c => listed_for nameOrID c = true) (mc_HookContainers mc)).

(** The answers for a service are those for all services, restricted to it. *)
Class ListingLaws {W E} (be : Backend W E) := {
  listing_restricts : forall machines nameOrID w,
    be_list be machines nameOrID w =
    match be_list be machines "" w with
    | Ok answers => Ok (map (restrict nameOrID) answers)
    | Err e => Err e
    end
}.

(** The listing of the Docker servers of the machines, [None] for an unknown machine. *)
Section DockerListing.
Context {E : Type} (unmarshal : string -> option ServiceSpec).

(** The engine and the machine database of a machine, as the listing reads them. *)
Record DockerMachine := mkDockerMachine {
  dk_metadata : Metadata;
  dk_list : list string -> result E (list Summary);
  dk_inspect : string -> result E Container;
  dk_stored : string -> result E (option string)
}.

(** An engine whose summaries have the labels of the containers. *)
Definition consistent (d : DockerMachine) : Prop :=
  forall required summaries cs c, dk_list d required = Ok summaries -> cs ∈ summaries ->
    dk_inspect d (sum_ID cs) = Ok c -> sum_Labels cs = entries (Labels c).

Context (error_text : E -> string).

Definition docker_answer (nameOrID : string) (d : DockerMachine) : MachineContainers :=
  match ListServiceContainers unmarshal (dk_inspect d) (dk_stored d) (dk_list d) nameOrID with
  | Ok (cs, hooks) => mkMachineContainers (Some (dk_metadata d)) cs hooks
  | Err e => mkMachineContainers
               (Some (mkMetadata (md_MachineId (dk_metadata d)) (md_MachineName (dk_metadata d)) (error_text e))) [] []
  end.

Definition docker_list (w : gmap string DockerMachine) (machines : list string) (nameOrID : string) :
  list MachineContainers := omap (fun id => docker_answer nameOrID <$> w !! id) machines.
End DockerListing.
#[global] Arguments DockerMachine : clear implicits.

(** The summaries whose container can be inspected. *)
Definition inspected {E} (unmarshal : string -> option ServiceSpec) (d : DockerMachine E) (l : list Summary) :
  list ServiceContainer :=
  omap (fun cs => match InspectServiceContainer unmarshal (dk_inspect d) (dk_stored d) (sum_ID cs) with
                  | Ok c => Some c | Err _ => None end) l.

Lemma inspected_restrict {E} unmarshal (d : DockerMachine E) n l :
  (forall cs c, cs ∈ l -> dk_inspect d (sum_ID cs) = Ok c -> sum_Labels cs = entries (Labels c)) ->
  inspected unmarshal d (filter (fun cs => of_service n cs = true) l) =
  filter (fun c => listed_for n c = true) (inspected unmarshal d l).
Proof.
  induction l as [|cs l IH]; intros Hl; [done|].
  specialize (IH (fun cs' c H => Hl cs' c (list_elem_of_further _ _ _ H))). unfold inspected in *.
  assert (Hsame : forall c, InspectServiceContainer unmarshal (dk_inspect d) (dk_stored d) (sum_ID cs) = Ok c ->
            of_service n cs = listed_for n c).
  { intros c Hc. unfold InspectServiceContainer in Hc. destruct (dk_inspect d (sum_ID cs)) as [c0|] eqn:Hi; [|done].
    pose proof (Hl cs c0 (list_elem_of_here _ _) Hi) as Hlab.
    assert (Hctr : ctr c = c0) by (repeat case_match; by simplify_eq/=).
    unfold of_service, listed_for, sum_label, ServiceID, ServiceName, label. by rewrite Hlab, Hctr. }
  rewrite filter_cons. cbn [omap list_omap]. destruct (InspectServiceContainer _ _ _ (sum_ID cs)) as [c|] eqn:Hc.
  - rewrite filter_cons, <- (Hsame c eq_refl). destruct (of_service n cs); cbn [omap list_omap].
    + rewrite decide_True by done. cbn [omap list_omap]. rewrite Hc. by rewrite decide_True, IH by done.
    + by rewrite !decide_False by done.
  - destruct (decide _); cbn [omap list_omap]; by rewrite ?Hc.
Qed.

Lemma docker_answer_restrict {E} unmarshal (error_text : E -> string) n d : consistent d ->
  docker_answer unmarshal error_text n d = restrict n (docker_answer unmarshal error_text "" d).
Proof.
  intros Hd. unfold docker_answer, ListServiceContainers. destruct (dk_list d _) as [summaries|] eqn:Hl; [|done].
  rewrite !list_loop_spec. cbn [fst snd app]. unfold restrict. cbn [mc_Metadata mc_Containers mc_HookContainers].
  fold (inspected unmarshal d (filter (fun cs => of_service n cs = true) summaries)).
  fold (inspected unmarshal d (filter (fun cs => of_service "" cs = true) summaries)).
  assert (Hall : forall n, inspected unmarshal d (filter (fun cs => of_service n cs = true) summaries) =
                   filter (fun c => listed_for n c = true) (inspected unmarshal d summaries))
    by (intros n'; apply inspected_restrict; intros cs c Hcs; by apply (Hd _ _ _ _ Hl Hcs)).
  rewrite !Hall. f_equal; rewrite !list_filter_filter; apply list_filter_iff; intros c; cbn; tauto.
Qed.

#[global] Instance docker_listing_laws {E} unmarshal (error_text : E -> string) machines start stop remove :
  ListingLaws (E := E) (mkBackend (W := { w : gmap string (DockerMachine E) | forall id d, w !! id = Some d -> consistent d })
    machines (fun ms n w => Ok (docker_list unmarshal error_text (proj1_sig w) ms n)) start stop remove).
Proof.
  split. intros ms n [w Hw]. cbn. f_equal. unfold docker_list. induction ms as [|id ms IH]; [done|].
  cbn [omap list_omap]. destruct (w !! id) as [d|] eqn:Hd; cbn; [|done].
  by rewrite IH, (docker_answer_restrict _ _ n d (Hw id d Hd)).
Qed.

(** ** Selecting a service *)
Definition listed_msc (nameOrID : string) (c : MachineServiceContainer) : bool := listed_for nameOrID (svc_ctr c).

Lemma collect_restrict n answers : collect (map (restrict n) answers) =
  filter (fun c => listed_msc n c = true) (collect answers).
Proof.
  unfold collect. induction answers as [|mc answers IH]; [done|]. cbn [map concat]. rewrite filter_app, IH. f_equal.
  unfold answer_containers. cbn [restrict mc_Metadata]. destruct (mc_Metadata mc) as [md|]; [|done].
  destruct (String.eqb (md_Error md) ""); cbn [negb]; [|done]. cbn [restrict mc_Containers mc_HookContainers].
  rewrite <- filter_app. generalize (mc_Containers mc ++ mc_HookContainers mc). intros cs.
  induction cs as [|c cs IHc]; [done|]. cbn [map]. rewrite !filter_cons. unfold listed_msc at 1. cbn [svc_ctr].
  destruct (decide _); cbn [map]; by rewrite IHc.
Qed.

(** [svc] is made of the containers [cs], in their order, which are all of its ID. *)
Definition made_of (svc : Service) (cs : list MachineServiceContainer) : Prop :=
  (exists first, head cs = Some first /\ svc_Name svc = ServiceName (svc_ctr first) /\
                 svc_Mode svc = ServiceMode (svc_ctr first)) /\
  Forall (fun c => msc_ServiceID c = svc_ID svc) cs /\
  Containers svc = filter (fun c => IsHook (svc_ctr c) = false) cs /\
  HookContainers svc = filter (fun c => IsHook (svc_ctr c) = true) cs.

Lemma service_of_made cs svc : service_of cs = Some svc ->
  (forall c c', c ∈ cs -> c' ∈ cs -> msc_ServiceID c = msc_ServiceID c') -> made_of svc cs.
Proof.
  destruct cs as [|first rest]; [done|]. intros [= <-] Hid. split; [by exists first|]. split; [|done].
  apply Forall_forall. intros c Hc. apply Hid; [done|left].
Qed.

Lemma select_service_spec {E} n cs :
  match select_service (E := E) n cs with
  | Ok svc => svc_ID svc = n /\ made_of svc (filter (fun c => String.eqb (msc_ServiceID c) n = true) cs) \/
              (forall c, c ∈ cs -> msc_ServiceID c <> n) /\ made_of svc cs
  | Err ServiceNotFound => cs = []
  | Err (MultipleServices n') => n' = n /\ (forall c, c ∈ cs -> msc_ServiceID c <> n) /\
      exists c c', c ∈ cs /\ c' ∈ cs /\ msc_ServiceID c <> msc_ServiceID c'
  | Err _ => False
  end.
Proof.
  unfold select_service. destruct cs as [|first rest]; [done|]. set (cs := first :: rest).
  destruct (existsb (fun c => String.eqb (msc_ServiceID c) n) cs) eqn:Hid.
  - apply existsb_exists in Hid as (c & Hc%list_elem_of_In & Hn).
    assert (Hcf : c ∈ filter (fun c => String.eqb (msc_ServiceID c) n = true) cs) by (by apply list_elem_of_filter).
    destruct (service_of _) as [svc|] eqn:Hs; [left|by destruct (filter _ cs); [apply not_elem_of_nil in Hcf|]].
    assert (Hmade : made_of svc (filter (fun c => String.eqb (msc_ServiceID c) n = true) cs)).
    { apply service_of_made; [done|]. intros c1 c2 [H1%String.eqb_eq _]%list_elem_of_filter
        [H2%String.eqb_eq _]%list_elem_of_filter. congruence. }
    split; [|done]. destruct Hmade as (_ & Hall & _). rewrite Forall_forall in Hall. rewrite <- (Hall c Hcf).
    by apply String.eqb_eq.
  - assert (Hnot : forall c, c ∈ cs -> msc_ServiceID c <> n).
    { intros c Hc%list_elem_of_In Hn. assert (Ht : existsb (fun c => String.eqb (msc_ServiceID c) n) cs = true)
        by (apply existsb_exists; exists c; split; [done|by apply String.eqb_eq]). congruence. }
    destruct (existsb _ rest) eqn:Hd.
    + apply existsb_exists in Hd as (c & Hc%list_elem_of_In & Hne%negb_true_iff%String.eqb_neq).
      split_and!; [done..|]. exists c, first. split_and!; [by right|left|done].
    + right. split; [done|]. apply service_of_made; [done|].
      assert (Hall : forall c, c ∈ cs -> msc_ServiceID c = msc_ServiceID first).
      { intros c [->|Hc]%elem_of_cons; [done|]. destruct (decide (msc_ServiceID c = msc_ServiceID first)) as [|Hne]; [done|].
        assert (Ht : existsb (fun c => negb (String.eqb (msc_ServiceID c) (msc_ServiceID first))) rest = true).
        { apply existsb_exists. exists c. split; [by apply list_elem_of_In|].
          by apply negb_true_iff, String.eqb_neq. }
        congruence. }
      intros c c' Hc Hc'. by rewrite (Hall c Hc), (Hall c' Hc').
Qed.

Lemma made_of_elem svc cs c : made_of svc cs -> c ∈ Containers svc ++ HookContainers svc <-> c ∈ cs.
Proof.
  intros (_ & _ & -> & ->). rewrite elem_of_app, !list_elem_of_filter. destruct (IsHook (svc_ctr c)); naive_solver.
Qed.

(** All containers the reachable machines list at [w]. *)
Definition all_containers {W E} (be : Backend W E) (w : W) : result (lookup_error E) (list MachineServiceContainer) :=
  let! answers := list_answers be "" w in Ok (collect answers).

Lemma InspectService_unfold {W E} (be : Backend W E) `{!ListingLaws be} n w :
  InspectService be n w = let! all := all_containers be w in select_service n (filter (fun c => listed_msc n c = true) all).
Proof.
  unfold InspectService, all_containers, list_answers. destruct (be_machines be w) as [ms|]; [|done].
  rewrite (listing_restricts (broadcast_to ms) n w). destruct (be_list be _ "" w) as [answers|]; [|done].
  cbn [wrap_err res_bind]. by rewrite collect_restrict.
Qed.

Lemma listed_by_id c : listed_msc (msc_ServiceID c) c = true.
Proof. unfold listed_msc, listed_for, msc_ServiceID. by rewrite String.eqb_refl, orb_true_r. Qed.

Lemma filter_by_id n (all : list MachineServiceContainer) :
  filter (fun c => String.eqb (msc_ServiceID c) n = true) (filter (fun c => listed_msc n c = true) all) =
  filter (fun c => String.eqb (msc_ServiceID c) n = true) all.
Proof.
  rewrite list_filter_filter. apply list_filter_iff. intros c. split; [by intros [??]|].
  intros Hc. split; [done|]. apply String.eqb_eq in Hc. subst n. apply listed_by_id.
Qed.

(** Inspecting the service of a listed container by its ID gives all containers of the ID. *)
Lemma inspect_by_id {W E} (be : Backend W E) `{!ListingLaws be} w all c :
  all_containers be w = Ok all -> c ∈ all ->
  exists svc, InspectService be (msc_ServiceID c) w = Ok svc /\ svc_ID svc = msc_ServiceID c /\
    made_of svc (filter (fun c' => String.eqb (msc_ServiceID c') (msc_ServiceID c) = true) all).
Proof.
  intros Hall Hc. rewrite InspectService_unfold, Hall by done. cbn [res_bind].
  set (n := msc_ServiceID c). assert (Hin : c ∈ filter (fun c => listed_msc n c = true) all)
    by (apply list_elem_of_filter; split; [apply listed_by_id|done]).
  pose proof (select_service_spec (E := E) n (filter (fun c => listed_msc n c = true) all)) as Hs.
  destruct (select_service n _) as [svc|e].
  - exists svc. split; [done|]. destruct Hs as [Hs|[Hno _]]; [by rewrite filter_by_id in Hs|by destruct (Hno c Hin)].
  - exfalso. destruct e; try done.
    + rewrite Hs in Hin. by apply not_elem_of_nil in Hin.
    + destruct Hs as (_ & Hno & _). by destruct (Hno c Hin).
Qed.

Definition service_made_of (all : list MachineServiceContainer) (id : string) (svc : Service) : Prop :=
  svc_ID svc = id /\ made_of svc (filter (fun c => String.eqb (msc_ServiceID c) id = true) all).

Lemma services_loop_spec {W E} (be : Backend W E) `{!ListingLaws be} w all cs byID :
  all_containers be w = Ok all -> (forall c, c ∈ cs -> c ∈ all) -> map_Forall (service_made_of all) byID ->
  exists byID', services_loop be cs byID w = Ok byID' /\ map_Forall (service_made_of all) byID' /\
    forall id, is_Some (byID' !! id) <-> is_Some (byID !! id) \/ exists c, c ∈ cs /\ msc_ServiceID c = id.
Proof.
  intros Hall. revert byID; induction cs as [|c cs IH]; intros byID Hcs Hby; cbn [services_loop].
  { exists byID. split; [done|]. split; [done|]. intros id. split; [by left|].
    intros [?|(c & Hc & _)]; [done|by apply not_elem_of_nil in Hc]. }
  assert (Hrest : forall c', c' ∈ cs -> c' ∈ all) by (intros c' Hc'; apply Hcs; by right).
  destruct (byID !! msc_ServiceID c) as [svc|] eqn:Hl.
  - destruct (IH byID Hrest Hby) as (byID' & -> & Hby' & Hdom). exists byID'. split_and!; [done..|].
    intros id. rewrite Hdom. setoid_rewrite elem_of_cons. naive_solver.
  - destruct (inspect_by_id be w all c Hall (Hcs c (list_elem_of_here _ _))) as (svc & -> & Hsvc).
    destruct (IH (<[msc_ServiceID c := svc]> byID) Hrest) as (byID' & -> & Hby' & Hdom).
    { by apply map_Forall_insert_2. }
    exists byID'. split_and!; [done..|]. intros id. rewrite Hdom. setoid_rewrite elem_of_cons.
    destruct (decide (msc_ServiceID c = id)) as [<-|Hne].
    + rewrite lookup_insert_eq. split; [|by eauto]. intros _. right. exists c. by split; [left|].
    + rewrite lookup_insert_ne by done. naive_solver.
Qed.

(** ** Properties of the lookups *)

(** Looking up a service by name or ID.  It is made of the containers of one service
    listed by the machines that can be reached: those whose service has exactly that ID, if
    there are any, and otherwise all those whose service has that name, provided they are of
    one service.  It is not found when nothing is listed for the text, and ambiguous when
    the text is no ID and names containers of different services. *)
Lemma InspectService_spec {W E} (be : Backend W E) `{!ListingLaws be} (n : string) (w : W) :
  match all_containers be w with
  | Err e => InspectService be n w = Err e
  | Ok all =>
      let found := filter (fun c => listed_msc n c = true) all in
      match InspectService be n w with
      | Ok svc => service_made_of all n svc \/ (forall c, c ∈ all -> msc_ServiceID c <> n) /\ made_of svc found
      | Err ServiceNotFound => found = []
      | Err (MultipleServices n') => n' = n /\ (forall c, c ∈ all -> msc_ServiceID c <> n) /\
          exists c c', c ∈ found /\ c' ∈ found /\ msc_ServiceID c <> msc_ServiceID c'
      | Err _ => False
      end
  end.
Proof.
  rewrite InspectService_unfold by done. destruct (all_containers be w) as [all|e]; cbn [res_bind]; [|done].
  pose proof (select_service_spec (E := E) n (filter (fun c => listed_msc n c = true) all)) as Hs.
  assert (Hno : (forall c, c ∈ filter (fun c => listed_msc n c = true) all -> msc_ServiceID c <> n) ->
                forall c, c ∈ all -> msc_ServiceID c <> n).
  { intros H c Hc Hn. apply (H c); [|done]. apply list_elem_of_filter. split; [|done]. subst n. apply listed_by_id. }
  destruct (select_service n _) as [svc|[]]; try done.
  - destruct Hs as [[Hid Hm]|[Hn Hm]]; [left|right; by split; [apply Hno|]]. rewrite filter_by_id in Hm. by split.
  - destruct Hs as (-> & Hn & Hex). split_and!; [done|by apply Hno|done].
Qed.

(** Listing the services partitions the containers: the services have distinct IDs,
    every listed container is in the service of its ID and in no other, and every service
    has only listed containers.  The listing fails only when the containers cannot be
    listed. *)
Lemma ListServices_partition {HO : GoOrder} {W E} (be : Backend W E) `{!ListingLaws be} (w : W) :
  match all_containers be w with
  | Err e => ListServices be w = Err e
  | Ok all => exists services, ListServices be w = Ok services /\
      NoDup (map svc_ID services) /\
      Forall (fun svc => service_made_of all (svc_ID svc) svc) services /\
      forall c, c ∈ all <-> exists svc, svc ∈ services /\ c ∈ Containers svc ++ HookContainers svc
  end.
Proof.
  destruct (all_containers be w) as [all|e] eqn:Hall; unfold all_containers in Hall; unfold ListServices.
  2:{ destruct (list_answers be "" w); [done|]. cbn in *. by injection Hall as ->. }
  destruct (list_answers be "" w) as [answers|] eqn:Ha; [|done]. cbn [res_bind] in *. injection Hall as Hall.
  destruct (services_loop_spec be w all (collect answers) ∅) as (byID & -> & Hby & Hdom).
  { unfold all_containers. rewrite Ha. cbn. by rewrite Hall. }
  { by rewrite Hall. }
  { apply map_Forall_empty. }
  cbn [res_bind]. exists (map snd (range_map 30 byID)). split; [done|].
  assert (Hids : map svc_ID (map snd (range_map 30 byID)) = map fst (range_map 30 byID)).
  { rewrite map_map. apply map_ext_in. intros [id svc] Hin%list_elem_of_In%elem_of_range_map. by apply (Hby id svc). }
  assert (Hin : forall svc, svc ∈ map snd (range_map 30 byID) <-> byID !! svc_ID svc = Some svc).
  { intros svc. split.
    - intros ([id svc'] & -> & Hin%elem_of_range_map)%list_elem_of_fmap. cbn. by destruct (Hby id svc' Hin) as [-> _].
    - intros Hl. apply list_elem_of_fmap. exists (svc_ID svc, svc). split; [done|]. by apply elem_of_range_map. }
  split_and!.
  - rewrite Hids. unfold range_map. rewrite any_order_perm. apply NoDup_fst_map_to_list.
  - apply Forall_forall. intros svc Hsvc%Hin. by apply (Hby (svc_ID svc) svc).
  - intros c. rewrite <- Hall in *. split.
    + intros Hc. destruct (proj2 (Hdom (msc_ServiceID c))) as [svc Hl]; [right; by exists c|].
      destruct (Hby _ _ Hl) as [Hid Hm]. exists svc. rewrite Hin, Hid. split; [done|]. apply (made_of_elem _ _ _ Hm).
      apply list_elem_of_filter. split; [by apply String.eqb_eq|done].
    + intros (svc & Hl%Hin & Hc). destruct (Hby _ _ Hl) as [_ Hm]. apply (made_of_elem _ _ _ Hm) in Hc.
      by apply list_elem_of_filter in Hc as [_ ?].
Qed.

(** ** A cluster of two machines *)
Definition web_on (machine id service : string) : DockerMachine unit :=
  let labels : gmap string string := {[LabelServiceID := service; LabelServiceName := "web"; LabelManaged := ""]} in
  mkDockerMachine (mkMetadata machine machine "") (fun _ => Ok [mkSummary id labels])
    (fun _ => Ok (ctr (container_with_labels labels))) (fun _ => Ok (Some "{}")).

Lemma web_on_consistent machine id service : consistent (web_on machine id service).
Proof. intros required summaries cs c [= <-] ->%list_elem_of_singleton [= <-]. done. Qed.

(** Two services that are both called web. *)
Definition two_webs : { w : gmap string (DockerMachine unit) | forall id d, w !! id = Some d -> consistent d }.
Proof.
  exists {["m1" := web_on "m1" "c1" "s1"; "m2" := web_on "m2" "c2" "s2"]}.
  intros id d. destruct (decide (id = "m1")) as [->|H1]; [intros [= <-]; apply web_on_consistent|].
  rewrite lookup_insert_ne by done. destruct (decide (id = "m2")) as [->|H2]; [intros [= <-]; apply web_on_consistent|].
  by rewrite lookup_singleton_ne.
Defined.

#[local] Notation example_backend := (mkBackend (E := unit)
  (fun _ : { w : gmap string (DockerMachine unit) | forall id d, w !! id = Some d -> consistent d } =>
     Ok [mkMember "m1" "m1" UP; mkMember "m2" "m2" SUSPECT; mkMember "m3" "m3" DOWN])
  (fun ms n w => Ok (docker_list (fun _ => Some example_service) (fun _ => "failed") (proj1_sig w) ms n))
  (fun _ _ w => (w, Ok tt)) (fun _ _ _ w => (w, Ok tt)) (fun _ _ _ w => (w, Ok tt))).

(** A name two services share is ambiguous; the ID of one of them is not. *)
(** ** Operations on all containers of a service *)

(** What a goroutine does with its container, call after call. *)
Inductive CallKind := KStart | KStop (opts : option Z) | KRemove (opts : RemoveOptions).

Section Pool.
Context {HO : GoOrder} {W E : Type} (be : Backend W E).

Definition perform (serviceID id : string) (k : CallKind) : W -> W * result (lookup_error E) unit :=
  match k with
  | KStart => StartContainer be serviceID id
  | KStop opts => StopContainer be opts serviceID id
  | KRemove opts => RemoveContainer be opts serviceID id
  end.

(** The error a call sends to the channel: a container that is gone counts as removed. *)
Definition failure (k : CallKind) (r : result (lookup_error E) unit) : option (lookup_error E) :=
  match r, k with
  | Ok _, _ => None
  | Err e, KRemove _ => if is_ErrNotFound e then None else Some e
  | Err e, _ => Some e
  end.

(** One goroutine per container: what it has left to do. *)
Definition Task : Type := string * list CallKind.
(** A call that was made: what was called, in which world, and with which outcome; and the
    index of the goroutine that made it. *)
Record Made := mkMade { md_kind : CallKind; md_before : W; md_after : W; md_result : result (lookup_error E) unit }.
Definition CallEvent : Type := nat * Made.

Record PoolState := mkPool { pl_world : W; pl_tasks : list Task; pl_errs : list (lookup_error E); pl_log : list CallEvent }.

(** Any goroutine with work left makes its next call. *)
Inductive pool_step (serviceID : string) : PoolState -> PoolState -> Prop :=
| pool_call w tasks errs log i id k rest w' r :
    tasks !! i = Some (id, k :: rest) -> perform serviceID id k w = (w', r) ->
    pool_step serviceID (mkPool w tasks errs log)
      (mkPool w' (<[i := (id, if is_ok r then rest else [])]> tasks) (errs ++ option_list (failure k r))
         (log ++ [(i, mkMade k w w' r)])).

Definition all_done (p : PoolState) : Prop := Forall (fun t => snd t = []) (pl_tasks p).

Definition start_pool (calls : list CallKind) (containers : list MachineServiceContainer) (w : W) : PoolState :=
  mkPool w (map (fun c => (msc_ID c, calls)) containers) [] [].

Inductive service_error := LookupFailed (e : lookup_error E) | CallsFailed (errs : list (lookup_error E)).

Definition joined (errs : list (lookup_error E)) : result service_error unit :=
  match errs with [] => Ok tt | _ => Err (CallsFailed errs) end.

(** The ways an operation on the containers [pick svc] of a service can end. *)
Definition service_operation (pick : Service -> list MachineServiceContainer) (calls : list CallKind)
  (n : string) (w : W) (w' : W) (log : list CallEvent) (r : result service_error unit) : Prop :=
  match InspectService be n w with
  | Err e => w' = w /\ log = [] /\ r = Err (LookupFailed e)
  | Ok svc => exists p, rtc (pool_step (svc_ID svc)) (start_pool calls (pick svc) w) p /\ all_done p /\
                        w' = pl_world p /\ log = pl_log p /\ r = joined (pl_errs p)
  end.

Definition every_container (svc : Service) : list MachineServiceContainer := Containers svc ++ HookContainers svc.

Definition RemoveService := service_operation every_container [KStop None; KRemove with_volumes].
Definition StopService (opts : option Z) := service_operation every_container [KStop opts].
Definition StartService := service_operation Containers [KStart].

(** ** Facts about the goroutines *)

(** The calls a goroutine made, in order. *)
Definition calls_of (i : nat) (log : list CallEvent) : list Made :=
  map snd (filter (fun ev => fst ev = i) log).

(** The calls lead from one world to the other, one after the other. *)
Fixpoint leads (w : W) (log : list CallEvent) (w' : W) : Prop :=
  match log with
  | [] => w' = w
  | (_, c) :: log => md_before c = w /\ leads (md_after c) log w'
  end.

(** The call was made for the container [id] of the service. *)
Definition made_for (serviceID id : string) (c : Made) : Prop :=
  perform serviceID id (md_kind c) (md_before c) = (md_after c, md_result c).

(** [made] is a prefix of [calls], up to and including the first failed one; [left] remains. *)
Fixpoint progress (calls : list CallKind) (made : list Made) (left : list CallKind) {struct made} :
  Prop :=
  match made with
  | [] => left = calls
  | c :: made =>
      match calls with
      | [] => False
      | k' :: calls => md_kind c = k' /\ if is_ok (md_result c) then progress calls made left else made = [] /\ left = []
      end
  end.

Lemma progress_snoc calls made c rest : progress calls made (md_kind c :: rest) ->
  progress calls (made ++ [c]) (if is_ok (md_result c) then rest else []).
Proof.
  revert calls; induction made as [|c' made IH]; intros calls; cbn.
  - intros <-. split; [done|]. by destruct (is_ok (md_result c)).
  - destruct calls as [|k calls]; [done|]. intros [-> H]. split; [done|].
    destruct (is_ok (md_result c')); [by apply IH|by destruct H].
Qed.

Lemma calls_of_snoc i j ev log : calls_of i (log ++ [(j, ev)]) = calls_of i log ++ (if decide (j = i) then [ev] else []).
Proof. unfold calls_of. rewrite filter_app, filter_cons, map_app. cbn. by destruct (decide (j = i)). Qed.

Lemma leads_snoc w log w1 i c : leads w log w1 -> md_before c = w1 -> leads w (log ++ [(i, c)]) (md_after c).
Proof.
  revert w; induction log as [|[j c'] log IH]; intros w; cbn; [by intros -> ->|].
  intros [-> H] Hc. split; [done|by apply IH].
Qed.

(** What holds in every state the goroutines reach. *)
Definition pool_inv (sid : string) (w0 : W) (start : list Task) (p : PoolState) : Prop :=
  length (pl_tasks p) = length start /\
  leads w0 (pl_log p) (pl_world p) /\
  Forall (fun ev => fst ev < length start) (pl_log p) /\
  pl_errs p = omap (fun ev => failure (md_kind (snd ev)) (md_result (snd ev))) (pl_log p) /\
  forall i id left, pl_tasks p !! i = Some (id, left) ->
    exists calls, start !! i = Some (id, calls) /\ progress calls (calls_of i (pl_log p)) left /\
      Forall (made_for sid id) (calls_of i (pl_log p)).

Lemma pool_inv_step sid w0 start p q : pool_step sid p q -> pool_inv sid w0 start p -> pool_inv sid w0 start q.
Proof.
  intros [w tasks errs log i id k rest w' r Hi Hperf] (Hlen & Hleads & Hidx & Herr & Htasks).
  unfold pool_inv. cbn [pl_world pl_tasks pl_errs pl_log] in *. split_and!.
  - by rewrite length_insert.
  - by apply (leads_snoc w0 log w i (mkMade k w w' r)).
  - apply Forall_app. split; [done|]. constructor; [|done]. rewrite <- Hlen. cbn. by eapply lookup_lt_Some.
  - by rewrite omap_app, Herr.
  - intros j id' left Hj. rewrite calls_of_snoc. destruct (decide (i = j)) as [<-|Hne].
    + rewrite list_lookup_insert_eq in Hj by (by eapply lookup_lt_Some). injection Hj as <- <-.
      destruct (Htasks i id (k :: rest) Hi) as (calls & Hs & Hp & Hm). exists calls. split; [done|]. split.
      * by apply (progress_snoc calls _ (mkMade k w w' r) rest).
      * apply Forall_app. split; [done|]. by constructor.
    + rewrite list_lookup_insert_ne in Hj by done. rewrite app_nil_r. by apply Htasks.
Qed.

Lemma pool_inv_reachable sid calls cs w p : rtc (pool_step sid) (start_pool calls cs w) p ->
  pool_inv sid w (map (fun c => (msc_ID c, calls)) cs) p.
Proof.
  intros Hr. assert (H0 : pool_inv sid w (map (fun c => (msc_ID c, calls)) cs) (start_pool calls cs w)).
  { split_and!; [done..|]. intros i id left Hi. exists left. split_and!; [done..|constructor]. }
  revert H0. induction Hr as [|p q r Hs _ IH]; [done|]. intros H0. apply IH. by eapply pool_inv_step.
Qed.

Definition work_left (p : PoolState) : nat := sum_list (map (fun t => length (snd t)) (pl_tasks p)).

Lemma sum_insert (l : list Task) i old new : l !! i = Some old ->
  sum_list (map (fun t => length (snd t)) (<[i := new]> l)) + length (snd old) =
  sum_list (map (fun t => length (snd t)) l) + length (snd new).
Proof.
  revert i; induction l as [|t l IH]; intros [|i]; [done..| |].
  - intros [= ->]. cbn. lia.
  - intros Hi. change (<[S i:=new]> (t :: l)) with (t :: <[i:=new]> l). specialize (IH i Hi). cbn in *. lia.
Qed.

(** Every call reduces the work left, and a goroutine with work left can go on: the
    goroutines end after at most the calls they started with. *)
Lemma pool_step_work sid p q : pool_step sid p q -> work_left q < work_left p.
Proof.
  intros [w tasks errs log i id k rest w' r Hi _]. unfold work_left. cbn [pl_tasks].
  pose proof (sum_insert tasks i (id, k :: rest) (id, if is_ok r then rest else []) Hi) as H. cbn in H.
  destruct (is_ok r); cbn in H; lia.
Qed.

Lemma pool_step_or_done sid p : all_done p \/ exists q, pool_step sid p q.
Proof.
  destruct p as [w tasks errs log]. destruct (decide (Forall (fun t => snd t = []) tasks)) as [|Hn]; [by left|right].
  apply not_Forall_Exists in Hn; [|intros t; apply _]. apply Exists_exists in Hn as ([id [|k rest]] & Ht & Hne); [by destruct Hne|].
  apply list_elem_of_lookup in Ht as [i Hi]. destruct (perform sid id k w) as [w' r] eqn:Hp.
  eexists. by eapply pool_call.
Qed.

Lemma pool_ends sid p : exists q, rtc (pool_step sid) p q /\ all_done q.
Proof.
  remember (work_left p) as n eqn:Hn. revert p Hn. induction (lt_wf n) as [n _ IH]. intros p ->.
  destruct (pool_step_or_done sid p) as [Hd|[q Hq]]; [by exists p|].
  destruct (IH (work_left q) (pool_step_work _ _ _ Hq) q eq_refl) as (q' & Hr & Hd).
  exists q'. split; [by eapply rtc_l|done].
Qed.

(** The operation ends, in every order its goroutines are run in, with every goroutine at
    the end of its calls, each for its container, and the errors of all of them. *)
Lemma service_operation_spec pick calls n w :
  (exists w' log r, service_operation pick calls n w w' log r) /\
  forall w' log r, service_operation pick calls n w w' log r ->
    match InspectService be n w with
    | Err e => w' = w /\ log = [] /\ r = Err (LookupFailed e)
    | Ok svc =>
        (forall i c, pick svc !! i = Some c -> progress calls (calls_of i log) [] /\
           Forall (made_for (svc_ID svc) (msc_ID c)) (calls_of i log)) /\
        leads w log w' /\ Forall (fun ev => fst ev < length (pick svc)) log /\
        r = joined (omap (fun ev => failure (md_kind (snd ev)) (md_result (snd ev))) log)
    end.
Proof.
  unfold service_operation. destruct (InspectService be n w) as [svc|e].
  2:{ split; [by exists w, [], (Err (LookupFailed e))|done]. }
  split.
  - destruct (pool_ends (svc_ID svc) (start_pool calls (pick svc) w)) as (p & Hr & Hd).
    by exists (pl_world p), (pl_log p), (joined (pl_errs p)), p.
  - intros w' log r (p & Hr & Hd & -> & -> & ->). destruct (pool_inv_reachable _ _ _ _ _ Hr) as (Hlen & Hleads & Hidx & Herr & Ht).
    rewrite length_map in Hlen, Hidx. split_and!; [|done|done|by rewrite Herr].
    intros i c Hi. destruct (lookup_lt_is_Some_2 (pl_tasks p) i) as [[id left] Hl].
    { rewrite Hlen. by eapply lookup_lt_Some. }
    unfold all_done in Hd. rewrite Forall_lookup in Hd. specialize (Hd i _ Hl). cbn in Hd. subst left.
    destruct (Ht i id [] Hl) as (calls' & Hs & Hp & Hm). rewrite list_lookup_fmap, Hi in Hs. by injection Hs as <- <-.
Qed.
End Pool.

(** ** Properties of the operations *)

