(* ===== verification/ContainerClient.v ===== *)
(** * ContainerClient: creating containers and waiting for their health, [pkg/client/container.go]

    [createServiceContainerWithPull] over state-passing calls, and [WaitContainerHealthy] as
    a loop over what its ticker observes.  Times are nanoseconds; a duration is an int64 with
    its wrap-around.  Image pulls are calls with an outcome, their progress is not modelled. *)

From S2P Require Import Prelude GoStrings Proto Spec Resolver Container DockerServer ServiceClient.
#[local] Open Scope string_scope.
#[local] Open Scope list_scope.
#[local] Open Scope go_scope.

(** ** Creating a container, pulling its image if needed *)

(** [pb.CreateServiceContainerRequest_ContainerType] *)
Inductive ContainerType := SERVICE | PRE_DEPLOY.

(** The calls: pulling an image on a machine, and creating a container there.  A refused
    creation tells whether its status is not found and whether it is about a missing image. *)
Record Creator (W E : Type) := mkCreator {
  cr_pull : string -> string -> W -> W * result E unit;
  cr_create : string -> CreateRequest -> W -> W * result E string;
  cr_image_missing : E -> bool
}.
#[global] Arguments mkCreator {W E}. #[global] Arguments cr_pull {W E}. #[global] Arguments cr_create {W E}.
#[global] Arguments cr_image_missing {W E}.

Section Create.
Context {Named RefError W E : Type} (ParseDockerRef : string -> result RefError Named).
Context (marshal : ServiceSpec -> option string) (cr : Creator W E).

Inductive create_error :=
| CreateInvalidSpec (e : @Spec.service_error RefError)
| CreateMachineFailed (e : lookup_error E)
| CreateSuffixFailed
| PullFailed (e : E)
| CreateMarshalFailed
| CreateRefused (e : E)
| UnsupportedPullPolicy (policy : string).

Definition create_name (s : ServiceSpec) (t : ContainerType) (suffix : string) : string :=
  match t with
  | SERVICE => SName s ++ "-" ++ suffix
  | PRE_DEPLOY => SName s ++ "-" ++ LabelHookPreDeploy ++ "-" ++ suffix
  end%string.

(** A refused creation: pull the image if it is missing and the policy allows it, and try again. *)
Definition pull_and_retry (machineID : string) (s : ServiceSpec) (req : CreateRequest) (e : E) (w : W) :
  W * result create_error string :=
  let policy := PullPolicy (Container_ s) in
  if String.eqb policy PullPolicyAlways || String.eqb policy PullPolicyNever then (w, Err (CreateRefused e))
  else if negb (String.eqb policy PullPolicyMissing) then (w, Err (UnsupportedPullPolicy policy))
  else if negb (cr_image_missing cr e) then (w, Err (CreateRefused e))
  else match cr_pull cr machineID (Image (Container_ s)) w with
       | (w, Err e) => (w, Err (PullFailed e))
       | (w, Ok _) => let (w, r) := cr_create cr machineID req w in (w, wrap_err CreateRefused r)
       end.

Definition create_request (serviceID : string) (s : ServiceSpec) (t : ContainerType) (suffix text : string) : CreateRequest :=
  mkCreateRequest serviceID text (create_name s t suffix) (match t with PRE_DEPLOY => true | SERVICE => false end).

(** The calls on the machine, once everything that needs no call on it succeeded. *)
Definition create_on_machine (serviceID : string) (s : ServiceSpec) (machineID : string) (t : ContainerType)
  (suffix : string) (w : W) : W * result create_error string :=
  let pulled := if String.eqb (PullPolicy (Container_ s)) PullPolicyAlways
                then cr_pull cr machineID (Image (Container_ s)) w else (w, Ok tt) in
  match pulled with
  | (w, Err e) => (w, Err (PullFailed e))
  | (w, Ok _) =>
      match marshal s with
      | None => (w, Err CreateMarshalFailed)
      | Some text =>
          let req := create_request serviceID s t suffix text in
          match cr_create cr machineID req w with
          | (w, Ok id) => (w, Ok id)
          | (w, Err e) => pull_and_retry machineID s req e w
          end
      end
  end.

(** [createServiceContainerWithPull]: the ID of the container; [machine] is the machine the
    request names, looked up. *)
Definition createServiceContainerWithPull (serviceID : string) (s : ServiceSpec)
  (machine : result (lookup_error E) MachineMember) (t : ContainerType) (draws : nat -> draw) (w : W) :
  W * result create_error string :=
  let s := service_SetDefaults s in
  match service_Validate ParseDockerRef s with
  | Err e => (w, Err (CreateInvalidSpec e))
  | Ok _ =>
      match machine with
      | Err e => (w, Err (CreateMachineFailed e))
      | Ok m => match RandomAlphaNumeric 4 draws with
                | None => (w, Err CreateSuffixFailed)
                | Some suffix => create_on_machine serviceID s (mm_Id m) t suffix w
                end
      end
  end.
End Create.

(** ** Waiting for a container to be healthy *)
Definition Unhealthy := "unhealthy".
Definition second : Z := 1000000000.

(** [defaultHealthMonitorPeriod], from the value of UNCLOUD_HEALTH_MONITOR_PERIOD. *)
Definition defaultHealthMonitorPeriod (ParseDuration : string -> option Z) (env : option string) : Z :=
  match env with
  | Some v => default (5 * second)%Z (ParseDuration v)
  | None => (5 * second)%Z
  end.

Definition defaultDockerHealthcheckInterval : Z := 30 * second.
Definition defaultDockerHealthcheckTimeout : Z := 30 * second.
Definition defaultDockerHealthcheckRetries : Z := 3.

(** Arithmetic on [time.Duration]. *)
Definition int64 (x : Z) : Z := int64_of_uint64 (x mod 2 ^ 64).

Definition healthcheckTimeout (hc : option HealthConfig) : Z :=
  match hc with
  | None => 0
  | Some hc =>
      let interval := if (hcf_Interval hc <=? 0)%Z then defaultDockerHealthcheckInterval else hcf_Interval hc in
      let timeout := if (hcf_Timeout hc <=? 0)%Z then defaultDockerHealthcheckTimeout else hcf_Timeout hc in
      let retries := if (hcf_Retries hc <=? 0)%Z then defaultDockerHealthcheckRetries else hcf_Retries hc in
      int64 (int64 (hcf_StartPeriod hc + int64 (retries * int64 (interval + timeout))) + 5 * second)
  end.

Section Wait.
Context {W E : Type} (be : Backend W E) (DefaultHealthMonitorPeriod : Z).

Inductive wait_error :=
| WaitInspectFailed (e : lookup_error E)
| WaitMachineFailed (e : lookup_error E)
| WaitCancelled
| StillRestarting (exitCode : Z)
| StillUnhealthy.

(** The call returns, or the goroutine panics: [ctr.State.Health] is nil. *)
Inductive wait_outcome := Waited (r : result wait_error unit) | NilHealthPanic.

(** What the polling loop receives: a tick at some time with the container, if it could be
    inspected, or the end of the context (cancelled, or after the timeout). *)
Inductive observation := Tick (now : Z) (container : option Container) | ContextDone.

Definition failed_state (c : Container) : wait_error :=
  if Restarting (State c) then StillRestarting (ExitCode (State c)) else StillUnhealthy.

(** [None]: the observations do not decide yet. *)
Fixpoint poll_health (monitorDeadline : Z) (observations : list observation) : option wait_outcome :=
  match observations with
  | [] => None
  | ContextDone :: _ => Some (Waited (Err WaitCancelled))
  | Tick now None :: rest => poll_health monitorDeadline rest
  | Tick now (Some c) :: rest =>
      if Healthy c then Some (Waited (Ok tt))
      else if (now <? monitorDeadline)%Z then poll_health monitorDeadline rest
      else match Health (State c) with
           | None => Some NilHealthPanic
           | Some status => if String.eqb status Unhealthy then Some (Waited (Err (failed_state c)))
                            else poll_health monitorDeadline rest
           end
  end.

(** [WaitContainerHealthy], started at [start] in [w].  [later] is the world after the
    monitor period, [None] if the context ended before. *)
Definition WaitContainerHealthy (serviceNameOrID containerNameOrID : string) (MonitorPeriod : option Z)
  (start : Z) (w : W) (later : option W) (observations : list observation) : option wait_outcome :=
  match InspectContainer be serviceNameOrID containerNameOrID w with
  | Err e => Some (Waited (Err (WaitInspectFailed e)))
  | Ok mc =>
      match InspectMachine be (MachineID mc) w with
      | Err e => Some (Waited (Err (WaitMachineFailed e)))
      | Ok _ =>
          let monitor := default DefaultHealthMonitorPeriod MonitorPeriod in
          if negb (HasHealthcheck (ctr (svc_ctr mc))) then
            match later with
            | None => Some (Waited (Err WaitCancelled))
            | Some w => match InspectContainer be serviceNameOrID containerNameOrID w with
                        | Err e => Some (Waited (Err (WaitInspectFailed e)))
                        | Ok mc => if Healthy (ctr (svc_ctr mc)) then Some (Waited (Ok tt))
                                   else Some (Waited (Err (failed_state (ctr (svc_ctr mc)))))
                        end
            end
          else poll_health (start + monitor) observations
      end
  end.
End Wait.

(** ** Lemmas *)

(** The calls of a creation and how they ended. *)
Inductive CreatorCall := CPullImage (image : string) (ok : bool) | CCreateContainer (req : CreateRequest) (id : option string).

Section LoggedCreator.
Context {W E : Type} (cr : Creator W E).
Definition logged_creator : Creator (W * list CreatorCall) E :=
  mkCreator
    (fun machineID image '(w, log) => let (w, r) := cr_pull cr machineID image w in ((w, log ++ [CPullImage image (is_ok r)]), r))
    (fun machineID req '(w, log) => let (w, r) := cr_create cr machineID req w in
       ((w, log ++ [CCreateContainer req (match r with Ok id => Some id | Err _ => None end)]), r))
    (cr_image_missing cr).
End LoggedCreator.

(** The logs a pull policy allows for the request [req] and the result [r] they lead to. *)
Definition allowed_log {RefError E} (missing : E -> bool) (policy image : string) (req : CreateRequest)
  (log : list CreatorCall) (r : result (create_error (RefError := RefError) (E := E)) string) : Prop :=
  match r with
  | Ok id =>
      log = [CCreateContainer req (Some id)] /\ policy <> PullPolicyAlways \/
      log = [CPullImage image true; CCreateContainer req (Some id)] /\ policy = PullPolicyAlways \/
      log = [CCreateContainer req None; CPullImage image true; CCreateContainer req (Some id)] /\ policy = PullPolicyMissing
  | Err (PullFailed _) =>
      log = [CPullImage image false] /\ policy = PullPolicyAlways \/
      log = [CCreateContainer req None; CPullImage image false] /\ policy = PullPolicyMissing
  | Err (CreateRefused e) =>
      log = [CPullImage image true; CCreateContainer req None] /\ policy = PullPolicyAlways \/
      log = [CCreateContainer req None] /\ (policy = PullPolicyNever \/ policy = PullPolicyMissing /\ missing e = false) \/
      log = [CCreateContainer req None; CPullImage image true; CCreateContainer req None] /\ policy = PullPolicyMissing
  | Err (UnsupportedPullPolicy p) =>
      p = policy /\ policy ∉ [PullPolicyAlways; PullPolicyNever; PullPolicyMissing] /\ log = [CCreateContainer req None]
  | Err _ => False
  end.

Lemma create_on_machine_log {RefError W E} marshal (cr : Creator W E) serviceID s machineID t suffix w text :
  marshal s = Some text ->
  let '((_, log), r) := create_on_machine (RefError := RefError) marshal (logged_creator cr) serviceID s machineID t suffix (w, []) in
  allowed_log (cr_image_missing cr) (PullPolicy (Container_ s)) (Image (Container_ s))
    (create_request serviceID s t suffix text) log r.
Proof.
  intros Ht. unfold create_on_machine, pull_and_retry. rewrite Ht. cbn [cr_pull cr_create cr_image_missing logged_creator].
  set (req := create_request serviceID s t suffix text). set (image := Image (Container_ s)).
  destruct (String.eqb_spec (PullPolicy (Container_ s)) PullPolicyAlways) as [Ha|Ha]; cbn [orb].
  - destruct (cr_pull cr machineID image w) as [w1 [[]|e]]; [|by left].
    destruct (cr_create cr machineID req w1) as [w2 [id|e]]; cbn; [by right; left|by left].
  - destruct (cr_create cr machineID req w) as [w1 [id|e]]; cbn [app]; [by left|].
    destruct (String.eqb_spec (PullPolicy (Container_ s)) PullPolicyNever) as [Hn|Hn]; [by right; left; split; [|left]|].
    destruct (String.eqb_spec (PullPolicy (Container_ s)) PullPolicyMissing) as [Hm|Hm]; cbn [negb].
    2:{ split_and!; [done| |done]. set_solver. }
    destruct (cr_image_missing cr e) eqn:He; cbn [negb]; [|right; left; split; [done|by right]].
    destruct (cr_pull cr machineID image w1) as [w2 [[]|e']]; cbn; [|by right].
    destruct (cr_create cr machineID req w2) as [w3 [id|e']]; cbn; by right; right.
Qed.

(** The observations that end the wait, and how. *)
Inductive decisive {E} (deadline : Z) : observation -> wait_outcome (E := E) -> Prop :=
| decided_healthy now c : Healthy c = true -> decisive deadline (Tick now (Some c)) (Waited (Ok tt))
| decided_unhealthy now c : Healthy c = false -> (deadline <= now)%Z -> Health (State c) = Some Unhealthy ->
    decisive deadline (Tick now (Some c)) (Waited (Err (failed_state c)))
| decided_nil now c : Healthy c = false -> (deadline <= now)%Z -> Health (State c) = None ->
    decisive deadline (Tick now (Some c)) NilHealthPanic
| decided_done : decisive deadline ContextDone (Waited (Err WaitCancelled)).

(** The first decisive observation gives the result. *)
Definition first_decision {E} (deadline : Z) (obs : list observation) (r : option (wait_outcome (E := E))) : Prop :=
  match r with
  | Some r => exists before o after, obs = before ++ o :: after /\ decisive deadline o r /\
                forall o', o' ∈ before -> forall r', ~ decisive (E := E) deadline o' r'
  | None => forall o, o ∈ obs -> forall r', ~ decisive (E := E) deadline o r'
  end.

Lemma first_decision_now {E} deadline o obs r : decisive (E := E) deadline o r -> first_decision deadline (o :: obs) (Some r).
Proof. intros Hd. exists [], o, obs. split_and!; [done..|]. by intros ? ?%not_elem_of_nil. Qed.

Lemma first_decision_later {E} deadline o obs r : (forall r', ~ decisive (E := E) deadline o r') ->
  first_decision (E := E) deadline obs r -> first_decision deadline (o :: obs) r.
Proof.
  intros Ho. destruct r as [r|]; cbn.
  - intros (before & o' & after & -> & Hd & Hb). exists (o :: before), o', after. split_and!; [done..|].
    intros o'' [->|H]%elem_of_cons; [done|by apply Hb].
  - intros Hall o' [->|H]%elem_of_cons; [done|by apply Hall].
Qed.

Lemma poll_health_first {E} deadline obs : first_decision (E := E) deadline obs (poll_health deadline obs).
Proof.
  induction obs as [|[now [c|]|] obs IH]; cbn [poll_health].
  - by intros ? ?%not_elem_of_nil.
  - destruct (Healthy c) eqn:Hh; [apply first_decision_now; by constructor|].
    destruct (Z.ltb_spec now deadline) as [Hlt|Hge].
    { apply first_decision_later; [|done]. intros r Hd. inversion Hd; subst; [congruence|lia|lia]. }
    destruct (Health (State c)) as [status|] eqn:Hs; [|apply first_decision_now; by constructor].
    destruct (String.eqb_spec status Unhealthy) as [->|Hne]; [apply first_decision_now; by constructor|].
    apply first_decision_later; [|done]. intros r Hd. inversion Hd; subst; congruence.
  - apply first_decision_later; [|done]. intros r Hd. inversion Hd.
  - apply first_decision_now. constructor.
Qed.

(** Without overflow the wait is longer than Docker needs to report a container that never
    gets healthy: the start period and all retries, each with its interval and timeout. *)
Lemma healthcheckTimeout_covers hc :
  let pos x d := if (x <=? 0)%Z then d else x in
  let verdict := (hcf_StartPeriod hc + pos (hcf_Retries hc) defaultDockerHealthcheckRetries *
                    (pos (hcf_Interval hc) defaultDockerHealthcheckInterval + pos (hcf_Timeout hc) defaultDockerHealthcheckTimeout))%Z in
  (0 <= hcf_StartPeriod hc)%Z -> (verdict + 5 * second < 2 ^ 63)%Z ->
  healthcheckTimeout (Some hc) = (verdict + 5 * second)%Z.
Proof.
  cbv zeta. intros Hs Hlt. unfold healthcheckTimeout.
  set (interval := if (hcf_Interval hc <=? 0)%Z then _ else _) in *.
  set (timeout := if (hcf_Timeout hc <=? 0)%Z then _ else _) in *.
  set (retries := if (hcf_Retries hc <=? 0)%Z then _ else _) in *.
  assert (Hi : (0 < interval)%Z) by (unfold interval; destruct (Z.leb_spec (hcf_Interval hc) 0); [done|lia]).
  assert (Ht : (0 < timeout)%Z) by (unfold timeout; destruct (Z.leb_spec (hcf_Timeout hc) 0); [done|lia]).
  assert (Hr : (0 < retries)%Z) by (unfold retries; destruct (Z.leb_spec (hcf_Retries hc) 0); [done|lia]).
  assert (Hfit : forall x, (0 <= x < 2 ^ 63)%Z -> int64 x = x).
  { intros x Hx. unfold int64, int64_of_uint64. rewrite Z.mod_small by lia. by destruct (Z.ltb_spec x (2 ^ 63)); [|lia]. }
  unfold second in *.
  assert (Hp : (interval + timeout <= retries * (interval + timeout))%Z) by nia.
  rewrite (Hfit (interval + timeout)%Z) by lia. rewrite (Hfit (retries * (interval + timeout))%Z) by lia.
  rewrite (Hfit (hcf_StartPeriod hc + _)%Z) by lia. apply Hfit. lia.
Qed.

(** A long enough health check overflows the timeout, and the wait ends at once. *)
Example healthcheckTimeout_overflows :
  (healthcheckTimeout (Some (mkHealth None (3600 * second) (3600 * second) 0 0 1500000)) < 0)%Z.
Proof. reflexivity. Qed.

(** ** Properties *)

(** Creating a container on a machine calls nothing but pulls of its image and the
    creation, and which ones is decided by the pull policy: with [always] the image is
    pulled once, before the only attempt; with [never] it is not pulled; with [missing] it
    is pulled only after an attempt that was refused because the image is missing, followed
    by a second and last attempt.  An ID is returned exactly when the last call created the
    container, and nothing is called for an invalid specification or an unknown machine. *)
Lemma create_with_pull_calls {Named RefError W E} (ParseDockerRef : string -> result RefError Named)
  (marshal : ServiceSpec -> option string) (cr : Creator W E) (serviceID : string) (s0 : ServiceSpec)
  (machine : result (lookup_error E) MachineMember) (t : ContainerType) (draws : nat -> draw) (w : W) :
  (forall s, is_Some (marshal s)) ->
  let s := service_SetDefaults s0 in
  let '((_, log), r) := createServiceContainerWithPull ParseDockerRef marshal (logged_creator cr) serviceID s0 machine t draws (w, []) in
  match r with
  | Err (CreateInvalidSpec e) => service_Validate ParseDockerRef s = Err e /\ log = []
  | Err (CreateMachineFailed e) => machine = Err e /\ log = []
  | Err CreateSuffixFailed => RandomAlphaNumeric 4 draws = None /\ log = []
  | _ => exists suffix text, RandomAlphaNumeric 4 draws = Some suffix /\ marshal s = Some text /\
           allowed_log (cr_image_missing cr) (PullPolicy (Container_ s)) (Image (Container_ s))
             (create_request serviceID s t suffix text) log r
  end.
Proof.
  intros Hm s. unfold createServiceContainerWithPull. fold s.
  destruct (service_Validate ParseDockerRef s) as [[]|e]; [|done]. destruct machine as [m|e]; [|done].
  destruct (RandomAlphaNumeric 4 draws) as [suffix|]; [|done]. destruct (Hm s) as [text Ht].
  pose proof (create_on_machine_log (RefError := RefError) marshal cr serviceID s (mm_Id m) t suffix w text Ht) as H.
  destruct (create_on_machine _ _ _ _ _ _ _ _) as [[w' log] r]. destruct r as [id|[]]; try done; by exists suffix, text.
Qed.

(** C19: waiting for a container to be healthy never guesses.  A container with a health check
    is waited for until the first decisive observation: healthy at any time, unhealthy only
    once the monitor period is over (whether it is restarting is reported), no health state at
    all then, which panics, or the end of the context; failed inspections and states in between decide nothing, and without a decisive
    observation the wait goes on.  Without a health check the state after the monitor period
    decides. *)
Theorem WaitContainerHealthy_decides {W E} (be : Backend W E) (dflt : Z) (n c : string) (monitor : option Z) (start : Z)
  (w : W) (later : option W) (obs : list observation) :
  let r := WaitContainerHealthy be dflt n c monitor start w later obs in
  match InspectContainer be n c w with
  | Err e => r = Some (Waited (Err (WaitInspectFailed e)))
  | Ok mc =>
      match InspectMachine be (MachineID mc) w with
      | Err e => r = Some (Waited (Err (WaitMachineFailed e)))
      | Ok _ =>
          if HasHealthcheck (ctr (svc_ctr mc)) then first_decision (start + default dflt monitor) obs r
          else match later with
               | None => r = Some (Waited (Err WaitCancelled))
               | Some w' =>
                   match InspectContainer be n c w' with
                   | Err e => r = Some (Waited (Err (WaitInspectFailed e)))
                   | Ok mc' => if Healthy (ctr (svc_ctr mc')) then r = Some (Waited (Ok tt))
                               else r = Some (Waited (Err (if Restarting (State (ctr (svc_ctr mc')))
                                                   then StillRestarting (ExitCode (State (ctr (svc_ctr mc'))))
                                                   else StillUnhealthy)))
                   end
               end
      end
  end.
Proof.
  cbv zeta. unfold WaitContainerHealthy. destruct (InspectContainer be n c w) as [mc|]; [|done].
  destruct (InspectMachine be (MachineID mc) w); [|done]. destruct (HasHealthcheck _); cbn [negb].
  - apply poll_health_first.
  - destruct later as [w'|]; [|done]. destruct (InspectContainer be n c w') as [mc'|]; [|done]. by destruct (Healthy _).
Qed.
