(* ===== verification/Scheduler.v ===== *)
(** * Scheduler: placement constraints, [pkg/client/deploy/scheduler]

    [constraint.go], [service.go] and [state.go]: the cluster state, the constraints derived
    from a service specification, and the machines that satisfy them.  A nil dereference is
    a panic of the program: the functions that may panic return [None] in that case. *)

From S2P Require Import Prelude GoStrings Volume ConfigSpec Spec.
#[local] Open Scope string_scope.

(** The fields of [pb.MachineInfo] the planner reads. *)
Record MachineInfo := mkMachineInfo { mi_Id : string; mi_Name : string }.

Record Machine := mkMachine {
  Info : MachineInfo;
  m_Volumes : list DockerVolume;
  ScheduledVolumes : list VolumeSpec
}.

(** [ClusterState] *)
Record ClusterState := mkState { state_Machines : list Machine }.

(** [InspectClusterState] from the lists the cluster client returns; [None] is a failed
    call. *)
Inductive inspect_error := ListMachinesFailed | ListVolumesFailed.

Definition InspectClusterState (members : option (list MachineInfo)) (volumes : option (list MachineVolume)) :
  result inspect_error ClusterState :=
  match members with
  | None => Err ListMachinesFailed
  | Some ms =>
      match volumes with
      | None => Err ListVolumesFailed
      | Some vs =>
          Ok (mkState (map (fun m =>
            mkMachine m (omap (fun v => if String.eqb (mv_MachineID v) (mi_Id m) then Some (mv_Volume v) else None) vs)
              []) ms))
      end
  end.

Definition machine_matches (nameOrID : string) (m : Machine) : bool :=
  String.eqb (mi_Id (Info m)) nameOrID || String.eqb (mi_Name (Info m)) nameOrID.

Definition state_Machine (s : ClusterState) (nameOrID : string) : option Machine :=
  List.find (machine_matches nameOrID) (state_Machines s).

Definition state_MachineName (s : ClusterState) (id : string) : option string :=
  match state_Machine s id with Some m => Some (mi_Name (Info m)) | None => None end.

(** ** Constraints *)
Inductive Constraint :=
| PlacementConstraint (machines : list string)
| VolumesConstraint (volumes : list VolumeSpec).

Definition placement_Evaluate (machines : list string) (m : Machine) : bool :=
  existsb (fun nameOrID => machine_matches nameOrID m) machines.

(** The volume exists on the machine and the specification could mount it. *)
Definition volume_exists (v : VolumeSpec) (m : Machine) : bool :=
  existsb (fun vol => if String.eqb (DockerVolumeName v) (dv_Name vol) then MatchesDockerVolume v vol else false)
    (m_Volumes m).

(** The test on one scheduled volume; [None] when [VolumeOptions] is nil. *)
Definition scheduled_matches (v scheduled : VolumeSpec) : option bool :=
  if negb (String.eqb (DockerVolumeName v) (DockerVolumeName scheduled)) then Some false
  else
    match vol_Options v with
    | None => None
    | Some o =>
        match vopt_Driver o with
        | None => Some true
        | Some d =>
            match vol_Options (Volume.SetDefaults scheduled) with
            | None => None
            | Some so =>
                Some (bool_decide (d = default (mkDriver VolumeDriverLocal None) (vopt_Driver so)))
            end
        end
    end.

(** [slices.ContainsFunc] with a function that may panic. *)
Fixpoint exists_opt {A} (f : A -> option bool) (l : list A) : option bool :=
  match l with
  | [] => Some false
  | x :: l' =>
      match f x with
      | None => None
      | Some true => Some true
      | Some false => exists_opt f l'
      end
  end.

(** The loop over the volumes of a [VolumesConstraint]. *)
Fixpoint volumes_Evaluate (volumes : list VolumeSpec) (m : Machine) : option bool :=
  match volumes with
  | [] => Some true
  | v :: rest =>
      if negb (String.eqb (vol_Type v) VolumeTypeVolume) then volumes_Evaluate rest m
      else if volume_exists v m then volumes_Evaluate rest m
      else match exists_opt (scheduled_matches v) (ScheduledVolumes m) with
           | None => None
           | Some false => Some false
           | Some true => volumes_Evaluate rest m
           end
  end.

Definition Evaluate (c : Constraint) (m : Machine) : option bool :=
  match c with
  | PlacementConstraint machines => Some (placement_Evaluate machines m)
  | VolumesConstraint volumes => volumes_Evaluate volumes m
  end.

Definition Description (c : Constraint) : string :=
  match c with
  | PlacementConstraint machines =>
      "Placement constraint by machines: " ++ join ", " (sort_strings machines)
  | VolumesConstraint volumes =>
      let names := omap (fun v => if String.eqb (vol_Type v) VolumeTypeVolume
                                  then Some (DockerVolumeName v) else None) volumes in
      if Nat.eqb (length names) 0 then "No volumes constraint" else "Volumes: " ++ join ", " (sort_strings names)
  end.

(** The volumes of type volume that the mounts refer to, one per mount. *)
Definition mounted_specs (s : ServiceSpec) : list VolumeSpec :=
  omap (fun m => match Spec.Volume s (VolumeName m) with
                 | Some v => if String.eqb (vol_Type v) VolumeTypeVolume then Some v else None
                 | None => None
                 end) (els (VolumeMounts (Container_ s))).

Definition constraintsFromSpec (s : ServiceSpec) : list Constraint :=
  ((if Nat.ltb 0 (length (els (Machines (Placement_ s))))
    then [PlacementConstraint (els (Machines (Placement_ s)))] else []) ++
   (if Nat.ltb 0 (length (mounted_specs s)) then [VolumesConstraint (mounted_specs s)] else []))%list.

(** ** [ServiceScheduler] *)
Record ServiceScheduler := mkScheduler {
  sched_state : ClusterState; sched_spec : ServiceSpec; sched_constraints : list Constraint
}.

Definition NewServiceScheduler (state : ClusterState) (s : ServiceSpec) : ServiceScheduler :=
  mkScheduler state s (constraintsFromSpec s).

Fixpoint evaluateConstraints (cs : list Constraint) (m : Machine) : option bool :=
  match cs with
  | [] => Some true
  | c :: rest =>
      match Evaluate c m with
      | None => None
      | Some false => Some false
      | Some true => evaluateConstraints rest m
      end
  end.

Inductive sched_error := NoMachinesAvailable.

Fixpoint available_loop (cs : list Constraint) (ms : list Machine) : option (list Machine) :=
  match ms with
  | [] => Some []
  | m :: rest =>
      match evaluateConstraints cs m with
      | None => None
      | Some ok =>
          match available_loop cs rest with
          | None => None
          | Some l => Some (if ok then m :: l else l)%list
          end
      end
  end.

Definition EligibleMachines (s : ServiceScheduler) : option (result sched_error (list Machine)) :=
  match available_loop (sched_constraints s) (state_Machines (sched_state s)) with
  | None => None
  | Some [] => Some (Err NoMachinesAvailable)
  | Some ms => Some (Ok ms)
  end.

(** ** What the constraints mean *)

(** The machine is allowed by the placement. *)
Definition placed (s : ServiceSpec) (m : Machine) : Prop :=
  els (Machines (Placement_ s)) = [] \/
  exists n, n ∈ els (Machines (Placement_ s)) /\ (mi_Id (Info m) = n \/ mi_Name (Info m) = n).

(** The machine has, or is about to get, the volume [v]. *)
Definition scheduled_on (v : VolumeSpec) (m : Machine) : Prop :=
  exists sv, sv ∈ ScheduledVolumes m /\ DockerVolumeName v = DockerVolumeName sv /\
    forall d, vol_Options v ≫= vopt_Driver = Some d ->
      d = default (mkDriver VolumeDriverLocal None) (vol_Options (Volume.SetDefaults sv) ≫= vopt_Driver).

Definition has_volume (v : VolumeSpec) (m : Machine) : Prop :=
  (exists vol, vol ∈ m_Volumes m /\ DockerVolumeName v = dv_Name vol /\ MatchesDockerVolume v vol = true) \/
  scheduled_on v m.

Definition eligible (s : ServiceSpec) (m : Machine) : Prop :=
  placed s m /\ forall v, v ∈ mounted_specs s -> has_volume v m.

(** The specifications whose volumes are in the form the constraint expects. *)
Definition volumes_explicit (s : ServiceSpec) : Prop :=
  forall v, v ∈ mounted_specs s -> is_Some (vol_Options v).

Definition scheduled_named (state : ClusterState) : Prop :=
  forall m sv, m ∈ state_Machines state -> sv ∈ ScheduledVolumes m -> vol_Type sv = VolumeTypeVolume.

(** ** Lemmas *)
Lemma machine_matches_spec n m : machine_matches n m = true <-> mi_Id (Info m) = n \/ mi_Name (Info m) = n.
Proof. unfold machine_matches. by rewrite orb_true_iff, !String.eqb_eq. Qed.

Lemma volume_exists_spec v m : volume_exists v m = true <->
  exists vol, vol ∈ m_Volumes m /\ DockerVolumeName v = dv_Name vol /\ MatchesDockerVolume v vol = true.
Proof.
  unfold volume_exists. rewrite existsb_exists. setoid_rewrite <- list_elem_of_In.
  assert (Hc : forall vol, (if String.eqb (DockerVolumeName v) (dv_Name vol) then MatchesDockerVolume v vol else false)
            = true <-> DockerVolumeName v = dv_Name vol /\ MatchesDockerVolume v vol = true).
  { intros vol. destruct (String.eqb_spec (DockerVolumeName v) (dv_Name vol)); naive_solver. }
  by setoid_rewrite Hc.
Qed.

Lemma exists_opt_total {A} (f : A -> option bool) l :
  (forall x, x ∈ l -> is_Some (f x)) ->
  exists b, exists_opt f l = Some b /\ (b = true <-> exists x, x ∈ l /\ f x = Some true).
Proof.
  induction l as [|x l IH]; intros Hf; simpl.
  { exists false. split; [done|]. split; [done|]. set_solver. }
  destruct (Hf x) as [[] Hx]; [left| |]; rewrite Hx.
  - exists true. split; [done|]. split; [|done]. intros _. exists x. split; [left|done].
  - destruct IH as (b & Hb & Hspec); [intros y Hy; apply Hf; by right|].
    exists b. split; [done|]. rewrite Hspec. split.
    + intros (y & Hy & ?). exists y. split; [by right|done].
    + intros (y & [->|Hy]%elem_of_cons & ?); [congruence|eauto].
Qed.

Lemma scheduled_matches_spec v sv : is_Some (vol_Options v) -> vol_Type sv = VolumeTypeVolume ->
  exists b, scheduled_matches v sv = Some b /\
    (b = true <-> DockerVolumeName v = DockerVolumeName sv /\
       forall d, vol_Options v ≫= vopt_Driver = Some d ->
         d = default (mkDriver VolumeDriverLocal None) (vol_Options (Volume.SetDefaults sv) ≫= vopt_Driver)).
Proof.
  intros [o Ho] Ht. unfold scheduled_matches. rewrite Ho. simpl.
  destruct (String.eqb_spec (DockerVolumeName v) (DockerVolumeName sv)) as [Hn|Hn]; simpl;
    [|exists false; naive_solver].
  destruct (vopt_Driver o) as [d|]; [|exists true; naive_solver].
  destruct (SetDefaults_volume sv Ht) as (so & -> & _). simpl. eexists; split; [done|].
  rewrite bool_decide_eq_true. naive_solver.
Qed.

Lemma volumes_Evaluate_spec vs m :
  (forall v, v ∈ vs -> is_Some (vol_Options v) /\ vol_Type v = VolumeTypeVolume) ->
  (forall sv, sv ∈ ScheduledVolumes m -> vol_Type sv = VolumeTypeVolume) ->
  exists b, volumes_Evaluate vs m = Some b /\ (b = true <-> forall v, v ∈ vs -> has_volume v m).
Proof.
  intros Hvs Hm. induction vs as [|v vs IH]; simpl.
  { exists true. split; [done|]. split; [set_solver|done]. }
  destruct (Hvs v) as [Ho Ht]; [left|]. rewrite Ht. simpl.
  destruct IH as (b & Hb & Hspec); [intros w Hw; apply Hvs; by right|].
  destruct (exists_opt_total (scheduled_matches v) (ScheduledVolumes m)) as (sb & Hsb & Hsbs).
  { intros sv Hsv. destruct (scheduled_matches_spec v sv Ho (Hm sv Hsv)) as (? & -> & _). eauto. }
  assert (Hsched : sb = true <-> scheduled_on v m).
  { rewrite Hsbs. unfold scheduled_on. split; intros (sv & Hsv & H); exists sv;
      destruct (scheduled_matches_spec v sv Ho (Hm sv Hsv)) as (b' & Hb' & Hbs).
    - rewrite Hb' in H. simplify_eq. split; [done|]. by apply Hbs.
    - split; [done|]. rewrite Hb'. f_equal. by apply Hbs. }
  rewrite Hb, Hsb. destruct (volume_exists v m) eqn:He.
  - apply volume_exists_spec in He. exists b. split; [done|]. rewrite Hspec. split; [|set_solver].
    intros Hall w [->|Hw]%elem_of_cons; [by left|auto].
  - apply not_true_iff_false in He. rewrite volume_exists_spec in He. destruct sb.
    + exists b. split; [done|]. rewrite Hspec. split; [|set_solver].
      intros Hall w [->|Hw]%elem_of_cons; [right; by apply Hsched|auto].
    + exists false. split; [done|]. split; [done|]. intros Hall.
      destruct (Hall v) as [?|H]; [left|done|]. by apply Hsched in H.
Qed.

Lemma mounted_specs_type s v : v ∈ mounted_specs s -> vol_Type v = VolumeTypeVolume /\ v ∈ els (Volumes s).
Proof.
  unfold mounted_specs. rewrite list_elem_of_omap. intros (m & Hm & Hv).
  destruct (Spec.Volume s (VolumeName m)) as [w|] eqn:Hw; [|done].
  destruct (String.eqb_spec (vol_Type w) VolumeTypeVolume); [|done]. simplify_eq.
  by apply find_volume_Some in Hw as [? _].
Qed.

Lemma evaluateConstraints_spec s m : volumes_explicit s ->
  (forall sv, sv ∈ ScheduledVolumes m -> vol_Type sv = VolumeTypeVolume) ->
  exists b, evaluateConstraints (constraintsFromSpec s) m = Some b /\ (b = true <-> eligible s m).
Proof.
  intros Hex Hm.
  destruct (volumes_Evaluate_spec (mounted_specs s) m) as (vb & Hvb & Hvs); [|done|].
  { intros v Hv. split; [by apply Hex|by apply mounted_specs_type in Hv as [? _]]. }
  assert (Hp : placed s m <->
            els (Machines (Placement_ s)) = [] \/ placement_Evaluate (els (Machines (Placement_ s))) m = true).
  { unfold placed, placement_Evaluate. rewrite existsb_exists. setoid_rewrite <- list_elem_of_In.
    by setoid_rewrite machine_matches_spec. }
  assert (Hvols : evaluateConstraints (if Nat.ltb 0 (length (mounted_specs s))
                    then [VolumesConstraint (mounted_specs s)] else []) m = Some vb).
  { destruct (mounted_specs s) as [|v vs] eqn:E; [by injection Hvb as <-|].
    cbn [length Nat.ltb Nat.leb evaluateConstraints Evaluate]. rewrite Hvb. by destruct vb. }
  unfold constraintsFromSpec, eligible. setoid_rewrite Hp.
  destruct (els (Machines (Placement_ s))) as [|n ns] eqn:E.
  - exists vb. split; [exact Hvols|]. rewrite Hvs. naive_solver.
  - cbn [length Nat.ltb Nat.leb app evaluateConstraints Evaluate].
    destruct (placement_Evaluate (n :: ns) m) eqn:Hpe.
    + exists vb. split; [exact Hvols|]. rewrite Hvs. naive_solver.
    + exists false. split; [done|]. naive_solver.
Qed.

(** The loop keeps the machines on which the constraints evaluate to true. *)
Lemma available_loop_spec cs (P : Machine -> Prop) ms :
  (forall m, m ∈ ms -> exists b, evaluateConstraints cs m = Some b /\ (b = true <-> P m)) ->
  exists l, available_loop cs ms = Some l /\ l `sublist_of` ms /\ forall m, m ∈ l <-> m ∈ ms /\ P m.
Proof.
  induction ms as [|m ms IH]; intros Hm; simpl.
  { exists []. split; [done|]. split; [constructor|]. set_solver. }
  destruct (Hm m) as (b & Hb & Hbs); [left|].
  destruct IH as (l & Hl & Hsub & Hls); [intros m' Hm'; apply Hm; by right|].
  rewrite Hb, Hl. destruct b; (eexists; split; [done|]; split; [by constructor|]); intros m'.
  - rewrite !elem_of_cons, Hls. naive_solver.
  - rewrite elem_of_cons, Hls. split; [naive_solver|]. intros [[->|?] He]; [|done].
    apply Hbs in He. done.
Qed.

Lemma EligibleMachines_loop state s (P : Machine -> Prop) :
  (forall m, m ∈ state_Machines state ->
     exists b, evaluateConstraints (constraintsFromSpec s) m = Some b /\ (b = true <-> P m)) ->
  (exists ms, EligibleMachines (NewServiceScheduler state s) = Some (Ok ms) /\ ms <> [] /\
     ms `sublist_of` state_Machines state /\ forall m, m ∈ ms <-> m ∈ state_Machines state /\ P m) \/
  (EligibleMachines (NewServiceScheduler state s) = Some (Err NoMachinesAvailable) /\
     forall m, m ∈ state_Machines state -> ~ P m).
Proof.
  intros Hev. destruct (available_loop_spec _ P _ Hev) as (l & Hl & Hsub & Hls).
  unfold EligibleMachines. simpl. rewrite Hl. destruct l as [|m l].
  - right. split; [done|]. intros m Hm He. by apply (not_elem_of_nil m), Hls.
  - left. exists (m :: l)%list. done.
Qed.

(** [EligibleMachines] never panics on such inputs. *)
Lemma EligibleMachines_spec state s : volumes_explicit s -> scheduled_named state ->
  (exists ms, EligibleMachines (NewServiceScheduler state s) = Some (Ok ms) /\ ms <> [] /\
     ms `sublist_of` state_Machines state /\
     forall m, m ∈ ms <-> m ∈ state_Machines state /\ eligible s m) \/
  (EligibleMachines (NewServiceScheduler state s) = Some (Err NoMachinesAvailable) /\
     forall m, m ∈ state_Machines state -> ~ eligible s m).
Proof.
  intros Hex Hn. apply EligibleMachines_loop. intros m Hm. apply evaluateConstraints_spec; [done|].
  intros sv. by apply Hn.
Qed.

(** Without mounts only the placement counts. *)
Lemma evaluateConstraints_no_mounts s m : mounted_specs s = [] ->
  exists b, evaluateConstraints (constraintsFromSpec s) m = Some b /\ (b = true <-> placed s m).
Proof.
  intros Hv. unfold constraintsFromSpec, placed. rewrite Hv. simpl.
  destruct (els (Machines (Placement_ s))) as [|n ns] eqn:E; cbn [length Nat.ltb Nat.leb app evaluateConstraints Evaluate].
  - exists true. split; [done|]. split; [by left|done].
  - assert (Hp : placement_Evaluate (n :: ns)%list m = true <->
              exists n', n' ∈ (n :: ns)%list /\ (mi_Id (Info m) = n' \/ mi_Name (Info m) = n')).
    { unfold placement_Evaluate. rewrite existsb_exists. setoid_rewrite <- list_elem_of_In.
      by setoid_rewrite machine_matches_spec. }
    destruct (placement_Evaluate (n :: ns) m); (eexists; split; [done|]); [|naive_solver].
    split; [|done]. intros _. right. by apply Hp.
Qed.

(** ** Properties *)

(** The eligible machines of a service are exactly, and in the order of the cluster
    state, the machines its placement allows and that have every named Docker volume it
    mounts, either existing with a matching configuration or scheduled with the same
    driver; it is an error exactly when there are none, and the evaluation never panics,
    provided the options of the mounted volumes are set (as [SetDefaults] does) and only
    named volumes are scheduled. *)
Lemma EligibleMachines_exact (state : ClusterState) (s : ServiceSpec) :
  volumes_explicit s -> scheduled_named state ->
  match EligibleMachines (NewServiceScheduler state s) with
  | Some (Ok ms) => ms <> [] /\ ms `sublist_of` state_Machines state /\
                    forall m, m ∈ ms <-> m ∈ state_Machines state /\ eligible s m
  | Some (Err NoMachinesAvailable) => forall m, m ∈ state_Machines state -> ~ eligible s m
  | None => False
  end.
Proof.
  intros Hex Hn. destruct (EligibleMachines_spec state s Hex Hn) as [(ms & -> & H)|[-> H]]; done.
Qed.

Definition machine_a : Machine := mkMachine (mkMachineInfo "a1" "alpha") [mkDockerVolume "data" "local" None None] [].
Definition machine_b : Machine := mkMachine (mkMachineInfo "b1" "beta") [] [].
Definition service_on_data : ServiceSpec :=
  mkServiceSpec None None (plain_container "nginx" [mkMount "data" "/data" false]) "replicated" "web"
    (mkPlacement None) None None 1 (mkUpdateConfig "" None)
    (Some [mkVolume "data" "volume" None None (Some (mkVolumeOptions None None "data" false ""))]).

(** A valid specification whose volume has no options panics the evaluation as soon as a
    volume with its name is scheduled on a machine. *)
Example nil_volume_options_panic :
  let v := mkVolume "data" "volume" None None None in
  let s := mkServiceSpec None None (plain_container "nginx" [mkMount "data" "/data" false]) "replicated" "web"
             (mkPlacement None) None None 1 (mkUpdateConfig "" None) (Some [v]) in
  service_Validate (fun _ => Ok (E := unit) tt) s = Ok tt /\
  EligibleMachines (NewServiceScheduler
    (mkState [mkMachine (mkMachineInfo "a1" "alpha") [] [Volume.SetDefaults v]]) s) = None.
Proof. split; reflexivity. Qed.

(** A driver given without a name is not recognised once the volume has been scheduled with
    its defaults. *)
Example driver_default_not_recognised :
  let v := mkVolume "data" "volume" None None
             (Some (mkVolumeOptions (Some (mkDriver "" None)) None "data" false "")) in
  let s := mkServiceSpec None None (plain_container "nginx" [mkMount "data" "/data" false]) "replicated" "web"
             (mkPlacement None) None None 1 (mkUpdateConfig "" None) (Some [v]) in
  EligibleMachines (NewServiceScheduler
    (mkState [mkMachine (mkMachineInfo "a1" "alpha") [] [Volume.SetDefaults v]]) s) =
  Some (Err NoMachinesAvailable).
Proof. reflexivity. Qed.
