(* ===== verification/VolumeScheduler.v ===== *)
(** * VolumeScheduler: where missing volumes are created, [pkg/client/deploy/scheduler/volume.go]

    The scheduler of a multi-service deployment: every service that mounts named volumes
    gets a set of eligible machines, the sets of services that share a missing volume are
    intersected until nothing changes, and every missing volume is put on one machine (on
    all eligible machines for global services).

    Sets are never mutated in place by the code, so they are values here.  A call on the nil
    set of an unknown service, or a nil dereference, is [Panic]; the convergence loop has
    fuel, whose bound the termination theorem justifies.  [site] numbers keep the ranges
    over maps apart: each is an independent choice of the runtime. *)

From Stdlib Require Import Cantor.
From S2P Require Import Prelude GoStrings Volume ConfigSpec Spec Scheduler.
#[local] Open Scope string_scope.
#[local] Open Scope list_scope.
#[local] Open Scope go_scope.

Inductive vs_error :=
| InvalidSpec
| DuplicateService (name : string)
| VolumeRedefined (volume : string)
| VolumeMismatch (volume machine : string)
| ServiceUnschedulable (service : string) (e : sched_error)
| NoMachineWithVolumes (service : string) (volumes : list string)
| SharedGlobalReplicated (volume : string)
| NoCommonMachine (services : list string) (volume : string)
| BugNoServices (volume : string)
| BugNoMachines (volume : string)
| PropagationFailed (volume machineID : string) (e : vs_error).

(** How a call can end other than by returning a value. *)
Inductive fault := GoError (e : vs_error) | Panic | OutOfFuel.
Abbreviation outcome A := (result fault A).

(** A range loop over the state [S]. *)
Fixpoint for_each {A S} (body : S -> A -> outcome S) (s : S) (l : list A) : outcome S :=
  match l with
  | [] => Ok s
  | x :: rest => let! s' := body s x in for_each body s' rest
  end.

(** Independent map ranges: the [i]-th visit of the loop [k]. *)
Definition visit (k i : nat) : nat := Cantor.to_nat (k, i).

Abbreviation machine_sets := (gmap string (gset string)).

Record VolumeScheduler := mkVS {
  vs_state : ClusterState;
  serviceSpecs : list ServiceSpec;
  volumeSpecs : gmap string VolumeSpec;
  volumeServices : gmap string (list string);
  existingVolumeMachines : machine_sets
}.

(** ** [NewVolumeScheduler] *)
Record vs_acc := mkAcc {
  acc_names : gset string; acc_specs : list ServiceSpec;
  acc_volumes : gmap string VolumeSpec; acc_services : gmap string (list string)
}.

Definition canonical (v : VolumeSpec) : VolumeSpec :=
  let v := Volume.SetDefaults v in
  mkVolume (DockerVolumeName v) (vol_Type v) (vol_Bind v) (vol_Tmpfs v) (vol_Options v).

Definition without_mounts (s : ServiceSpec) : ServiceSpec :=
  let s := service_Clone s in
  mkServiceSpec (Caddy s) (Configs s)
    (with_mounts (Container_ s) (CVolumes (Container_ s)) None (ConfigMounts (Container_ s)))
    (SMode s) (SName s) (Placement_ s) (Ports s) (PreDeploy s) (Replicas s) (UpdateConfig_ s) (Volumes s).

Section Scheduler.
Context {HC : GoCmp} {HO : GoOrder} {Named RefError : Type} (ParseDockerRef : string -> result RefError Named).

(** One mounted volume of the service [name]. *)
Definition add_volume (name : string) (acc : vs_acc) (v : VolumeSpec) : outcome vs_acc :=
  let v := canonical v in
  let services := map_append (vol_Name v) name (acc_services acc) in
  match acc_volumes acc !! vol_Name v with
  | Some seen =>
      if negb (Volume.Equals seen v) then Err (GoError (VolumeRedefined (vol_Name v)))
      else Ok (mkAcc (acc_names acc) (acc_specs acc) (acc_volumes acc) services)
  | None => Ok (mkAcc (acc_names acc) (acc_specs acc) (<[vol_Name v := v]> (acc_volumes acc)) services)
  end.

(** One service specification, the [i]-th. *)
Definition add_service (acc : vs_acc) (i_spec : nat * ServiceSpec) : outcome vs_acc :=
  let (i, sp) := i_spec in
  match service_Validate ParseDockerRef sp with
  | Err _ => Err (GoError InvalidSpec)
  | Ok _ =>
      if decide (SName sp ∈ acc_names acc) then Err (GoError (DuplicateService (SName sp)))
      else
        let names := {[SName sp]} ∪ acc_names acc in
        let mounted := MountedDockerVolumes (visit 0 i) sp in
        if Nat.eqb (length mounted) 0
        then Ok (mkAcc names (acc_specs acc) (acc_volumes acc) (acc_services acc))
        else for_each (add_volume (SName sp))
               (mkAcc names (acc_specs acc ++ [sp]) (acc_volumes acc) (acc_services acc)) mounted
  end.

(** One volume of a machine. *)
Definition add_existing (volumes : gmap string VolumeSpec) (m : Machine) (existing : machine_sets)
  (vol : DockerVolume) : outcome machine_sets :=
  match volumes !! dv_Name vol with
  | None => Ok existing
  | Some v =>
      if negb (MatchesDockerVolume v vol)
      then Err (GoError (VolumeMismatch (dv_Name vol) (mi_Name (Info m))))
      else Ok (<[dv_Name vol := {[mi_Id (Info m)]} ∪ default ∅ (existing !! dv_Name vol)]> existing)
  end.

Definition NewVolumeScheduler (state : ClusterState) (specs : list ServiceSpec) : outcome VolumeScheduler :=
  let! acc := for_each add_service (mkAcc ∅ [] ∅ ∅) (imap pair specs) in
  let! existing := for_each (fun existing m => for_each (add_existing (acc_volumes acc) m) existing (m_Volumes m))
                     ∅ (state_Machines state) in
  Ok (mkVS state (acc_specs acc) (acc_volumes acc) (acc_services acc) existing).

(** ** [Schedule] *)
Definition is_global_spec (sp : ServiceSpec) : bool := String.eqb (SMode sp) ServiceModeGlobal.

(** Some service using the volume has a specification satisfying [p]. *)
Definition used_by (p : ServiceSpec -> bool) (s : VolumeScheduler) (volumeName : string) : bool :=
  existsb (fun serviceName =>
    existsb (fun sp => String.eqb (SName sp) serviceName && p sp) (serviceSpecs s))
    (map_get (volumeServices s) volumeName).

Definition isVolumeForGlobalService (s : VolumeScheduler) (volumeName : string) : bool :=
  used_by is_global_spec s volumeName.

Definition isVolumeSharedBetweenGlobalAndReplicated (s : VolumeScheduler) (volumeName : string) : bool :=
  let mode sp := if String.eqb (SMode sp) "" then ServiceModeReplicated else SMode sp in
  used_by (fun sp => String.eqb (mode sp) ServiceModeGlobal) s volumeName &&
  used_by (fun sp => negb (String.eqb (mode sp) ServiceModeGlobal)) s volumeName.

Definition serviceEligibleMachinesWithoutVolumes (s : VolumeScheduler) (sp : ServiceSpec) : outcome (gset string) :=
  match EligibleMachines (NewServiceScheduler (vs_state s) (without_mounts sp)) with
  | None => Err Panic
  | Some (Err e) => Err (GoError (ServiceUnschedulable (SName sp) e))
  | Some (Ok ms) => Ok (list_to_set (map (fun m => mi_Id (Info m)) ms))
  end.

(** The set of a service; calling a method on a nil set panics. *)
Definition get_set (eligible : machine_sets) (serviceName : string) : outcome (gset string) :=
  match eligible !! serviceName with None => Err Panic | Some e => Ok e end.

Definition initial_eligible (s : VolumeScheduler) : outcome machine_sets :=
  for_each (fun eligible sp =>
      let! ids := serviceEligibleMachinesWithoutVolumes s sp in Ok (<[SName sp := ids]> eligible))
    ∅ (serviceSpecs s).

(** Narrow one service to the machines of an existing volume, remembering for the error
    message which volumes the service was narrowed by. *)
Definition narrow_service (volumeName : string) (machines : gset string)
  (acc : machine_sets * gmap string (list string)) (serviceName : string) :
  outcome (machine_sets * gmap string (list string)) :=
  let (eligible, quoted) := acc in
  let quoted := map_append serviceName volumeName quoted in
  let! old := get_set eligible serviceName in
  let narrowed := old ∩ machines in
  if Nat.eqb (size narrowed) 0
  then Err (GoError (NoMachineWithVolumes serviceName (map_get quoted serviceName)))
  else Ok (<[serviceName := narrowed]> eligible, quoted).

Definition narrow_by_existing (s : VolumeScheduler) (eligible : machine_sets) : outcome machine_sets :=
  let! acc := for_each (fun acc (vm : string * gset string) =>
      if isVolumeForGlobalService s vm.1 then Ok acc
      else for_each (narrow_service vm.1 vm.2) acc (map_get (volumeServices s) vm.1))
    (eligible, ∅) (range_map (visit 1 0) (existingVolumeMachines s)) in
  Ok acc.1.

(** The volumes the propagation skips. *)
Definition placed_volumes (s : VolumeScheduler) : outcome (gset string) :=
  let existing := list_to_set (filter (fun v => isVolumeForGlobalService s v = false)
                    (elements (dom (existingVolumeMachines s)))) in
  for_each (fun placed (vs : string * VolumeSpec) =>
      if isVolumeSharedBetweenGlobalAndReplicated s vs.1 then Err (GoError (SharedGlobalReplicated vs.1))
      else Ok (if isVolumeForGlobalService s vs.1 then {[vs.1]} ∪ placed else placed))
    existing (range_map (visit 1 1) (volumeSpecs s)).

(** *** Propagation *)

(** The intersection of the sets of the services using a volume. *)
Definition common_machines (eligible : machine_sets) (first : string) (rest : list string) : outcome (gset string) :=
  let! e := get_set eligible first in
  for_each (fun common name => let! e := get_set eligible name in Ok (e ∩ common)) e rest.

Definition assign_common (common : gset string) (acc : bool * machine_sets) (serviceName : string) :
  outcome (bool * machine_sets) :=
  let (changed, eligible) := acc in
  let! old := get_set eligible serviceName in
  Ok (changed || negb (Nat.eqb (size old) (size common)), <[serviceName := common]> eligible).

Definition propagate_volume (skip : gset string) (acc : bool * machine_sets) (vs : string * list string) :
  outcome (bool * machine_sets) :=
  if decide (vs.1 ∈ skip) then Ok acc
  else match vs.2 with
       | [] => Ok acc
       | first :: rest =>
           let! common := common_machines acc.2 first rest in
           if Nat.eqb (size common) 0 then Err (GoError (NoCommonMachine vs.2 vs.1))
           else for_each (assign_common common) acc vs.2
       end.

Fixpoint propagate_rounds (fuel call : nat) (services : gmap string (list string)) (skip : gset string)
  (eligible : machine_sets) : outcome machine_sets :=
  match fuel with
  | O => Err OutOfFuel
  | S fuel' =>
      let! acc := for_each (propagate_volume skip) (false, eligible) (range_map (visit (2 + call) fuel) services) in
      if acc.1 then propagate_rounds fuel' call services skip acc.2 else Ok acc.2
  end.

(** Every round but the last shrinks some set. *)
Definition total_size (eligible : machine_sets) : nat :=
  sum_list (map (fun kv => size kv.2) (map_to_list eligible)).

Definition propagateConstraintsUntilConvergence (call : nat) (s : VolumeScheduler) (eligible : machine_sets)
  (skip : gset string) : outcome machine_sets :=
  propagate_rounds (S (total_size eligible)) call (volumeServices s) skip eligible.

(** *** Placement of the missing volumes *)
Record sched_acc := mkSched {
  sa_calls : nat; sa_eligible : machine_sets; sa_placed : gset string;
  sa_scheduled : gmap string (list VolumeSpec)
}.

Definition union_machines (eligible : machine_sets) (names : list string) : outcome (gset string) :=
  for_each (fun union name => let! e := get_set eligible name in Ok (union ∪ e)) ∅ names.

Definition schedule_global (v : VolumeSpec) (existing : gset string) (scheduled : gmap string (list VolumeSpec))
  (machineID : string) : gmap string (list VolumeSpec) :=
  if decide (machineID ∈ existing) then scheduled else map_append machineID v scheduled.

Definition schedule_volume (s : VolumeScheduler) (acc : sched_acc) (nv : string * VolumeSpec) : outcome sched_acc :=
  let (volumeName, v) := nv in
  let existing := default ∅ (existingVolumeMachines s !! volumeName) in
  match map_get (volumeServices s) volumeName with
  | [] => Err (GoError (BugNoServices volumeName))
  | first :: rest =>
      let names := first :: rest in
      let! machines := (if isVolumeForGlobalService s volumeName
                        then union_machines (sa_eligible acc) names
                        else get_set (sa_eligible acc) first) in
      if Nat.eqb (size machines) 0 then Err (GoError (BugNoMachines volumeName))
      else
        let sorted := sort_strings (elements machines) in
        if isVolumeForGlobalService s volumeName then
          Ok (mkSched (sa_calls acc) (sa_eligible acc) ({[volumeName]} ∪ sa_placed acc)
                (fold_left (schedule_global v existing) sorted (sa_scheduled acc)))
        else if Nat.ltb 0 (size existing) then Ok acc
        else match sorted with
             | [] => Err Panic
             | machineID :: _ =>
                 let eligible := fold_left (fun e name => <[name := {[machineID]}]> e) names (sa_eligible acc) in
                 let placed := {[volumeName]} ∪ sa_placed acc in
                 let scheduled := map_append machineID v (sa_scheduled acc) in
                 match propagateConstraintsUntilConvergence (sa_calls acc) s eligible placed with
                 | Ok eligible => Ok (mkSched (S (sa_calls acc)) eligible placed scheduled)
                 | Err (GoError e) => Err (GoError (PropagationFailed volumeName machineID e))
                 | Err f => Err f
                 end
             end
  end.

(** Append the volumes to the first machine with the ID. *)
Fixpoint update_machine (machineID : string) (volumes : list VolumeSpec) (ms : list Machine) : list Machine :=
  match ms with
  | [] => []
  | m :: rest =>
      if String.eqb (mi_Id (Info m)) machineID
      then mkMachine (Info m) (m_Volumes m) (ScheduledVolumes m ++ volumes) :: rest
      else m :: update_machine machineID volumes rest
  end.

Definition update_state (scheduled : gmap string (list VolumeSpec)) (state : ClusterState) : ClusterState :=
  mkState (fold_left (fun ms kv => update_machine kv.1 kv.2 ms) (range_map (visit 1 3) scheduled)
             (state_Machines state)).

(** The scheduled volumes by machine (nil when there is nothing to schedule) and the
    updated cluster state. *)
Definition Schedule (s : VolumeScheduler) : outcome (gomap (list VolumeSpec) * ClusterState) :=
  if Nat.eqb (length (serviceSpecs s)) 0 then Ok (None, vs_state s)
  else
    let! eligible := initial_eligible s in
    let! eligible := narrow_by_existing s eligible in
    let! placed := placed_volumes s in
    let! eligible := propagateConstraintsUntilConvergence 0 s eligible placed in
    let! acc := for_each (schedule_volume s) (mkSched 1 eligible placed ∅)
                  (range_map (visit 1 2) (volumeSpecs s)) in
    Ok (Some (sa_scheduled acc), update_state (sa_scheduled acc) (vs_state s)).
End Scheduler.

(** ** Loops *)
Definition ends {A} (o : outcome A) (P : A -> Prop) (Q : fault -> Prop) : Prop :=
  match o with Ok a => P a | Err f => Q f end.

Lemma ends_bind {A B} (o : outcome A) (k : A -> outcome B) P R Q :
  ends o P Q -> (forall a, P a -> ends (k a) R Q) -> ends (res_bind o k) R Q.
Proof. destruct o; simpl; auto. Qed.

Lemma ends_mono {A} (o : outcome A) P P' (Q Q' : fault -> Prop) :
  ends o P Q -> (forall a, P a -> P' a) -> (forall f, Q f -> Q' f) -> ends o P' Q'.
Proof. destruct o; simpl; auto. Qed.

(** The invariant [I] of a loop speaks of the elements already visited. *)
Lemma for_each_ends_split {A S} (body : S -> A -> outcome S) (I : list A -> S -> Prop) Q s l :
  I [] s ->
  (forall done x rest s, l = done ++ x :: rest -> I done s -> ends (body s x) (I (done ++ [x])) Q) ->
  ends (for_each body s l) (I l) Q.
Proof.
  intros Hs Hbody. revert Hs. change (I l) with (I ([] ++ l)). assert (Hl : l = [] ++ l) by done.
  revert Hl. generalize (@nil A). generalize l at 2 3 4. intros rest.
  revert s. induction rest as [|x rest IH]; intros s done Hl Hs; simpl.
  { by rewrite app_nil_r. }
  eapply ends_bind; [by apply (Hbody done x rest)|].
  intros s' Hs'. rewrite cons_middle, app_assoc. apply IH; [|done].
  by rewrite Hl, cons_middle, app_assoc.
Qed.

Lemma for_each_ends {A S} (body : S -> A -> outcome S) (I : list A -> S -> Prop) Q s l :
  I [] s ->
  (forall done x s, x ∈ l -> I done s -> ends (body s x) (I (done ++ [x])) Q) ->
  ends (for_each body s l) (I l) Q.
Proof.
  intros Hs Hbody. apply for_each_ends_split; [done|]. intros done x rest s' -> Hs'.
  apply Hbody; [|done]. apply elem_of_app. right. left.
Qed.

(** ** Sizes *)
Lemma total_size_insert (eligible : machine_sets) n old new : eligible !! n = Some old ->
  total_size (<[n := new]> eligible) + size old = total_size eligible + size new.
Proof.
  intros Hn. assert (Hins : forall e, total_size (<[n := e]> (delete n eligible)) =
                                      size e + total_size (delete n eligible)).
  { intros e. unfold total_size.
    assert (Hp : forall l l' : list (string * gset string), l ≡ₚ l' ->
              sum_list (map (fun kv => size kv.2) l) = sum_list (map (fun kv => size kv.2) l')).
    { induction 1; simpl; lia. }
    by rewrite (Hp _ _ (map_to_list_insert (delete n eligible) n e (lookup_delete_eq eligible n))). }
  rewrite <- (insert_delete_eq eligible n new), Hins.
  rewrite <- (insert_delete_id eligible n old Hn) at 2. rewrite Hins. lia.
Qed.

Definition nonempty (eligible : machine_sets) : Prop := forall n e, eligible !! n = Some e -> e <> ∅.

(** ** Propagation *)
Section Propagation.
Context {HO : GoOrder} (services : gmap string (list string)) (skip : gset string).

(** Two services share a volume that is still to be created. *)
Definition shares (s t : string) : Prop :=
  exists v names, services !! v = Some names /\ v ∉ skip /\ s ∈ names /\ t ∈ names.

Definition may (eligible : machine_sets) (s x : string) : Prop :=
  exists e, eligible !! s = Some e /\ x ∈ e.

(** All services connected to [s] by shared volumes could be placed on [x]. *)
Definition agreed (eligible : machine_sets) (s x : string) : Prop :=
  forall t, rtc shares s t -> may eligible t x.

(** All services of the volumes have a set. *)
Definition known (eligible : machine_sets) : Prop :=
  forall v names n, services !! v = Some names -> n ∈ names -> is_Some (eligible !! n).

(** The services of the volume have the same set. *)
Definition co_located (eligible : machine_sets) (v : string) : Prop :=
  forall names s t, services !! v = Some names -> s ∈ names -> t ∈ names -> eligible !! s = eligible !! t.

Lemma shares_sym s t : shares s t -> shares t s.
Proof. intros (v & names & ?). exists v, names. naive_solver. Qed.

Lemma get_set_ends eligible n e : eligible !! n = Some e -> get_set eligible n = Ok e.
Proof. unfold get_set. by intros ->. Qed.

Lemma common_machines_spec eligible first rest :
  (forall n, n ∈ first :: rest -> is_Some (eligible !! n)) ->
  exists common, common_machines eligible first rest = Ok common /\
    forall x, x ∈ common <-> forall n, n ∈ first :: rest -> may eligible n x.
Proof.
  intros Hk. destruct (Hk first) as [e He]; [left|]. unfold common_machines.
  rewrite (get_set_ends _ _ _ He). simpl.
  pose (I := fun (names : list string) (common : gset string) =>
    forall x, x ∈ common <-> forall n, n ∈ first :: names -> may eligible n x).
  assert (Hends : ends (for_each (fun common name =>
      res_bind (get_set eligible name) (fun e => Ok (e ∩ common))) e rest) (I rest) (fun _ => False)).
  { apply for_each_ends.
    - intros x. split.
      + intros Hx n [->|Hn]%elem_of_cons; [by exists e|by apply not_elem_of_nil in Hn].
      + intros Hx. destruct (Hx first) as (e' & He' & ?); [left|]. congruence.
    - intros names n common Hn HI. destruct (Hk n) as [en Hen]; [by right|].
      rewrite (get_set_ends _ _ _ Hen). simpl. intros x. rewrite elem_of_intersection, (HI x). split.
      + intros [Hx Hall] t [->|[Ht| ->%list_elem_of_singleton]%elem_of_app]%elem_of_cons.
        * apply Hall. left.
        * apply Hall. by right.
        * by exists en.
      + intros Hall. split.
        * destruct (Hall n) as (e' & He' & ?); [right; apply elem_of_app; right; left|]. congruence.
        * intros t [->|Ht]%elem_of_cons; apply Hall; [left|right; apply elem_of_app; by left]. }
  destruct (for_each _ e rest) as [common|]; [|done]. by exists common.
Qed.

(** Assigning the intersection: sets only shrink, and [changed] tells whether one did. *)
Lemma assign_common_spec common changed eligible names :
  (forall n, n ∈ names -> exists e, eligible !! n = Some e /\ common ⊆ e) ->
  exists changed' eligible', for_each (assign_common common) (changed, eligible) names = Ok (changed', eligible') /\
    (forall n, eligible' !! n = if decide (n ∈ names) then Some common else eligible !! n) /\
    total_size eligible' <= total_size eligible /\
    (changed' = true -> changed = true \/ total_size eligible' < total_size eligible) /\
    (changed' = false -> changed = false /\ forall n, n ∈ names -> eligible !! n = Some common).
Proof.
  intros Hn.
  pose (I := fun (ns : list string) (acc : bool * machine_sets) =>
    (forall n, acc.2 !! n = if decide (n ∈ ns) then Some common else eligible !! n) /\
    total_size acc.2 <= total_size eligible /\
    (acc.1 = true -> changed = true \/ total_size acc.2 < total_size eligible) /\
    (acc.1 = false -> changed = false /\ forall n, n ∈ ns -> eligible !! n = Some common)).
  assert (Hends : ends (for_each (assign_common common) (changed, eligible) names) (I names) (fun _ => False)).
  { apply for_each_ends.
    - split_and!; simpl; [done|done|by left|]. intros ->. split; [done|]. by intros n ?%not_elem_of_nil.
    - intros ns n [ch el] Hin (Hl & Hle & Ht & Hf). simpl in *. destruct (Hn n Hin) as (e & He & Hsub).
      assert (Hold : exists old, el !! n = Some old /\ common ⊆ old /\
                (ch = false -> old = common -> eligible !! n = Some common)).
      { rewrite Hl. destruct (decide (n ∈ ns)) as [Hin'|Hout]; [|exists e; naive_solver].
        exists common. split; [done|]. split; [done|]. intros Hch _. by apply Hf. }
      destruct Hold as (old & Hold & Hsub' & Hback). rewrite (get_set_ends _ _ _ Hold). simpl.
      pose proof (total_size_insert el n old common Hold) as Hsize.
      pose proof (subseteq_size _ _ Hsub') as Hle'.
      destruct (Nat.eqb_spec (size old) (size common)) as [Heq|Hne].
      + assert (old = common) as Hoc.
        { symmetry. apply leibniz_equiv, set_subseteq_size_equiv; [done|lia]. }
        rewrite orb_false_r. unfold I; cbn [fst snd]; split_and!; [|lia| |].
        * intros t. destruct (decide (n = t)) as [<-|Hnt].
          -- rewrite lookup_insert_eq, decide_True; [done|]. apply elem_of_app. right. left.
          -- rewrite lookup_insert_ne, Hl by done. apply decide_ext. set_solver.
        * intros Hch. destruct (Ht Hch); [by left|right; lia].
        * intros Hch. destruct (Hf Hch) as [? Hall]. split; [done|].
          intros t [Ht'| ->%list_elem_of_singleton]%elem_of_app; [by apply Hall|by apply Hback].
      + rewrite orb_true_r. unfold I; cbn [fst snd]; split_and!; [|lia| |done].
        * intros t. destruct (decide (n = t)) as [<-|Hnt].
          -- rewrite lookup_insert_eq, decide_True; [done|]. apply elem_of_app. right. left.
          -- rewrite lookup_insert_ne, Hl by done. apply decide_ext. set_solver.
        * intros _. right. lia. }
  destruct (for_each _ _ names) as [[changed' eligible']|]; [|done]. exists changed', eligible'. done.
Qed.

(** The services of the volume share one set of machines, which is not empty. *)
Definition settled (eligible : machine_sets) (v : string) : Prop :=
  co_located eligible v /\
  forall names n, services !! v = Some names -> n ∈ names -> exists x, may eligible n x.

(** What the propagation keeps about the sets it started from. *)
Definition narrowed (eligible0 eligible : machine_sets) : Prop :=
  known eligible /\ (forall n, is_Some (eligible !! n) <-> is_Some (eligible0 !! n)) /\
  (forall s x, may eligible s x -> may eligible0 s x) /\
  (forall s x, agreed eligible0 s x -> may eligible s x) /\ (nonempty eligible0 -> nonempty eligible).

(** The failure: for some service sharing the volume no machine is agreed on. *)
Definition no_common (eligible0 : machine_sets) (f : fault) : Prop :=
  exists v names s, f = GoError (NoCommonMachine names v) /\ services !! v = Some names /\ v ∉ skip /\
    s ∈ names /\ forall x, ~ agreed eligible0 s x.

Lemma shares_agreed eligible0 s t x : shares s t -> agreed eligible0 s x -> agreed eligible0 t x.
Proof. intros Hst Ha u Hu. apply Ha. by apply rtc_l with t. Qed.

Lemma propagate_volume_spec eligible0 changed eligible v names :
  services !! v = Some names -> narrowed eligible0 eligible ->
  ends (propagate_volume skip (changed, eligible) (v, names))
    (fun acc => narrowed eligible0 acc.2 /\ total_size acc.2 <= total_size eligible /\
       (acc.1 = true -> changed = true \/ total_size acc.2 < total_size eligible) /\
       (acc.1 = false -> changed = false /\ acc.2 = eligible /\ (v ∉ skip -> settled eligible v)))
    (no_common eligible0).
Proof.
  intros Hv Hnar. pose proof Hnar as (Hk & Hdom & Hsub & Hkeep & Hne). unfold propagate_volume. cbn [fst snd].
  assert (Hsame : (v ∈ skip \/ names = []) -> ends (Ok (changed, eligible) : outcome (bool * machine_sets))
    (fun acc => narrowed eligible0 acc.2 /\ total_size acc.2 <= total_size eligible /\
       (acc.1 = true -> changed = true \/ total_size acc.2 < total_size eligible) /\
       (acc.1 = false -> changed = false /\ acc.2 = eligible /\ (v ∉ skip -> settled eligible v)))
    (no_common eligible0)).
  { intros Hor. simpl. split_and!; [done|done|by left|]. intros ->. split_and!; [done|done|].
    intros Hs. destruct Hor as [?| ->]; [done|]. split; intros names s.
    - intros t Hn Hs'. rewrite Hv in Hn. injection Hn as <-. by apply not_elem_of_nil in Hs'.
    - intros Hn Hs'. rewrite Hv in Hn. injection Hn as <-. by apply not_elem_of_nil in Hs'. }
  destruct (decide (v ∈ skip)) as [Hskip|Hskip]; [by apply Hsame; left|].
  destruct names as [|first rest]; [by apply Hsame; right|]. clear Hsame.
  destruct (common_machines_spec eligible first rest) as (common & -> & Hcommon).
  { intros n Hn. by apply (Hk v _ n Hv). }
  cbn [res_bind]. assert (Hshare : forall s t, s ∈ first :: rest -> t ∈ first :: rest -> shares s t).
  { intros s t Hs Ht. by exists v, (first :: rest). }
  assert (Hagree : forall s x, s ∈ first :: rest -> agreed eligible0 s x -> x ∈ common).
  { intros s x Hs Ha. apply Hcommon. intros n Hn. apply Hkeep. apply (shares_agreed eligible0 s n); auto. }
  destruct (Nat.eqb_spec (size common) 0) as [Hz|Hnz].
  { simpl. exists v, (first :: rest), first. split_and!; [done|done|done|left|]. intros x Ha.
    apply (Hagree first) in Ha; [|left]. apply size_empty_inv in Hz. by apply Hz in Ha. }
  destruct (assign_common_spec common changed eligible (first :: rest)) as (ch & el & -> & Hl & Hle & Ht & Hf).
  { intros n Hn. destruct (Hk v _ n Hv Hn) as [e He]. exists e. split; [done|]. intros x Hx.
    rewrite Hcommon in Hx. destruct (Hx n Hn) as (e' & He' & ?). congruence. }
  simpl. split_and!; [|done|done|].
  - split_and!.
    + intros w ws n Hw Hn. rewrite Hl. destruct (decide _); [eauto|]. by apply (Hk w ws).
    + intros n. rewrite Hl, <- Hdom. destruct (decide (n ∈ _)) as [Hn|]; [|done].
      destruct (Hk v _ n Hv Hn) as [e He]. rewrite He. split; eauto.
    + intros s x (e & He & Hx). rewrite Hl in He. destruct (decide _) as [Hs|Hs].
      * injection He as <-. apply Hsub. by apply Hcommon.
      * apply Hsub. by exists e.
    + intros s x Ha. destruct (decide (s ∈ first :: rest)) as [Hs|Hs].
      * exists common. rewrite Hl, decide_True by done. split; [done|]. by apply (Hagree s).
      * destruct (Hkeep s x Ha) as (e & He & Hx). exists e. by rewrite Hl, decide_False.
    + intros Hne0 n e. rewrite Hl. destruct (decide _) as [Hn|Hn]; [|by apply Hne].
      intros [= <-] E. apply Hnz. by rewrite E, size_empty.
  - intros Hch. destruct (Hf Hch) as [? Hall]. split_and!; [done| |].
    + apply map_eq. intros n. rewrite Hl. destruct (decide _) as [Hn|]; [|done]. by rewrite Hall.
    + intros _. split; intros names s; [intros t|]; intros Hn Hs; rewrite Hv in Hn; injection Hn as <-.
      * intros Htn. by rewrite !Hall.
      * destruct (set_choose_L common) as [x Hx]; [intros E; apply Hnz; by rewrite E, size_empty|].
        exists x, common. split; [by apply Hall|done].
Qed.

Lemma propagate_round eligible0 eligible site : narrowed eligible0 eligible ->
  ends (for_each (propagate_volume skip) (false, eligible) (range_map site services))
    (fun acc => narrowed eligible0 acc.2 /\
       (acc.1 = true -> total_size acc.2 < total_size eligible) /\
       (acc.1 = false -> acc.2 = eligible /\ forall v, v ∉ skip -> settled eligible v))
    (no_common eligible0).
Proof.
  intros Hnar.
  pose (I := fun (visited : list (string * list string)) (acc : bool * machine_sets) =>
    narrowed eligible0 acc.2 /\ total_size acc.2 <= total_size eligible /\
    (acc.1 = true -> total_size acc.2 < total_size eligible) /\
    (acc.1 = false -> acc.2 = eligible /\ forall v names, (v, names) ∈ visited -> v ∉ skip -> settled eligible v)).
  eapply ends_mono; [apply (for_each_ends _ I (no_common eligible0))| |done].
  - unfold I; simpl. split_and!; [done|done|done|]. intros _. split; [done|]. by intros v names ?%not_elem_of_nil.
  - intros visited [v names] [ch el] Hin (Hn & Hle & Ht & Hf). apply elem_of_range_map in Hin. simpl in *.
    eapply ends_mono; [by apply (propagate_volume_spec eligible0)| |done].
    intros [ch' el'] (Hn' & Hle' & Ht' & Hf'). unfold I; simpl in *. split_and!; [done|lia| |].
    + intros ->. destruct (Ht' eq_refl) as [->|]; [specialize (Ht eq_refl)|]; lia.
    + intros ->. destruct (Hf' eq_refl) as (-> & -> & Hco). destruct (Hf eq_refl) as [-> Hall]. split; [done|].
      intros w ws [Hw|[= -> ->]%list_elem_of_singleton]%elem_of_app Hs; [by apply (Hall w ws)|by apply Hco].
  - intros [ch el] (Hn & _ & Ht & Hf). simpl in *. split_and!; [done|done|]. intros Hch.
    destruct (Hf Hch) as [-> Hall]. split; [done|]. intros v Hv. split.
    + intros names s t Hnames. apply (Hall v names); [|done|done]. by apply elem_of_range_map.
    + intros names s Hnames. apply (Hall v names); [|done|done]. by apply elem_of_range_map.
Qed.

Lemma propagate_rounds_spec eligible0 fuel call eligible :
  narrowed eligible0 eligible -> total_size eligible < fuel ->
  ends (propagate_rounds fuel call services skip eligible)
    (fun eligible' => narrowed eligible0 eligible' /\ forall v, v ∉ skip -> settled eligible' v)
    (no_common eligible0).
Proof.
  revert eligible. induction fuel as [|fuel IH]; intros eligible Hnar Hfuel; [lia|]. simpl.
  eapply ends_bind; [by apply propagate_round|].
  intros [[] el] (Hn & Ht & Hf); simpl in *.
  - apply IH; [done|]. specialize (Ht eq_refl). lia.
  - destruct (Hf eq_refl) as [-> Hco]. done.
Qed.

Lemma co_located_rtc eligible s t : (forall v, v ∉ skip -> co_located eligible v) ->
  rtc shares s t -> eligible !! s = eligible !! t.
Proof.
  intros Hco. induction 1 as [|s t u (v & names & Hv & Hskip & Hs & Ht) _ IH]; [done|].
  rewrite <- IH. by apply (Hco v Hskip names).
Qed.

(** The outcome of the propagation does not depend on the order in which it visits volumes. *)
Lemma propagate_settles call eligible : known eligible ->
  ends (propagate_rounds (S (total_size eligible)) call services skip eligible)
    (fun eligible' => (forall n, is_Some (eligible' !! n) <-> is_Some (eligible !! n)) /\
       (forall v, v ∉ skip -> settled eligible' v) /\
       (forall s x, may eligible' s x <-> agreed eligible s x) /\ (nonempty eligible -> nonempty eligible'))
    (no_common eligible).
Proof.
  intros Hk. eapply ends_mono; [apply (propagate_rounds_spec eligible); [|lia]| |done].
  { split_and!; [done|done|done| |done]. intros s x Ha. apply Ha. done. }
  intros el ((_ & Hdom & Hsub & Hkeep & Hne) & Hco). split_and!; [done|done| |done]. intros s x. split; [|apply Hkeep].
  intros (e & He & Hx) t Ht. apply Hsub. exists e. split; [|done]. rewrite <- (co_located_rtc el s t); [done| |done].
  intros v Hv. by apply Hco.
Qed.

Lemma propagate_spec call eligible : known eligible ->
  ends (propagate_rounds (S (total_size eligible)) call services skip eligible)
    (fun eligible' => (forall n, is_Some (eligible' !! n) <-> is_Some (eligible !! n)) /\
       (forall v, v ∉ skip -> co_located eligible' v) /\
       (forall s x, may eligible' s x <-> agreed eligible s x) /\ (nonempty eligible -> nonempty eligible'))
    (no_common eligible).
Proof.
  intros Hk. eapply ends_mono; [by apply propagate_settles| |done].
  intros el (? & Hset & ?). split_and!; try done; [|by destruct_and!..]. intros v Hv. by apply Hset.
Qed.
End Propagation.

(** ** The scheduler that [NewVolumeScheduler] builds *)

(** The Docker volumes used by the service named [n]. *)
Definition uses (s : VolumeScheduler) (n v : string) : Prop := n ∈ map_get (volumeServices s) v.

Definition existing (s : VolumeScheduler) (v : string) : gset string :=
  default ∅ (existingVolumeMachines s !! v).

Record well_formed (s : VolumeScheduler) : Prop := {
  wf_names : NoDup (map SName (serviceSpecs s));
  wf_services v names : volumeServices s !! v = Some names ->
    names <> [] /\ (forall n, n ∈ names -> n ∈ map SName (serviceSpecs s));
  wf_dom v : is_Some (volumeServices s !! v) <-> is_Some (volumeSpecs s !! v);
  wf_specs v vs : volumeSpecs s !! v = Some vs -> vol_Name vs = v;
  wf_existing v ms : existingVolumeMachines s !! v = Some ms -> ms <> ∅ /\ is_Some (volumeSpecs s !! v)
}.

(** The machine [id] is allowed by the placement of [sp]. *)
Definition allowed (s : VolumeScheduler) (sp : ServiceSpec) (id : string) : Prop :=
  exists m, m ∈ state_Machines (vs_state s) /\ mi_Id (Info m) = id /\ placed sp m.

Section Schedule.
Context {HC : GoCmp} {HO : GoOrder} (s : VolumeScheduler) (Hwf : well_formed s).

Lemma uses_named n v : uses s n v -> exists sp, sp ∈ serviceSpecs s /\ SName sp = n.
Proof.
  unfold uses, map_get. destruct (volumeServices s !! v) as [names|] eqn:Hv; [|by intros ?%not_elem_of_nil].
  simpl. intros Hn. apply (wf_services s Hwf) in Hv as [_ Hin]. apply Hin in Hn.
  apply list_elem_of_fmap in Hn as (sp & -> & ?). by exists sp.
Qed.

Lemma spec_unique sp sp' : sp ∈ serviceSpecs s -> sp' ∈ serviceSpecs s -> SName sp = SName sp' -> sp = sp'.
Proof.
  intros [i Hi]%list_elem_of_lookup [j Hj]%list_elem_of_lookup Hn.
  assert (i = j) as ->; [|congruence].
  apply (NoDup_lookup _ _ _ (SName sp) (wf_names s Hwf)); rewrite list_lookup_fmap.
  - by rewrite Hi.
  - rewrite Hj. simpl. by rewrite Hn.
Qed.

Lemma used_by_spec p v : used_by p s v = true <->
  exists sp, sp ∈ serviceSpecs s /\ uses s (SName sp) v /\ p sp = true.
Proof.
  unfold used_by, uses. rewrite existsb_exists. setoid_rewrite existsb_exists.
  setoid_rewrite <- list_elem_of_In. split.
  - intros (n & Hn & sp & Hsp & Hand). apply andb_true_iff in Hand as [<-%String.eqb_eq ?]. eauto.
  - intros (sp & Hsp & Hn & Hp). exists (SName sp). split; [done|]. exists sp. by rewrite String.eqb_refl.
Qed.

(** A volume that a global service uses. *)
Definition global_volume (v : string) : Prop := isVolumeForGlobalService s v = true.

Lemma global_volume_spec v : global_volume v <->
  exists sp, sp ∈ serviceSpecs s /\ uses s (SName sp) v /\ SMode sp = ServiceModeGlobal.
Proof.
  unfold global_volume, isVolumeForGlobalService. rewrite used_by_spec. unfold is_global_spec.
  by setoid_rewrite String.eqb_eq.
Qed.

(** A volume that both kinds of services use. *)
Definition shared_volume (v : string) : Prop :=
  exists sp sp', sp ∈ serviceSpecs s /\ sp' ∈ serviceSpecs s /\ uses s (SName sp) v /\ uses s (SName sp') v /\
    SMode sp = ServiceModeGlobal /\ SMode sp' <> ServiceModeGlobal.

Lemma shared_volume_spec v : isVolumeSharedBetweenGlobalAndReplicated s v = true <-> shared_volume v.
Proof.
  assert (Hm : forall sp, String.eqb (if String.eqb (SMode sp) "" then ServiceModeReplicated else SMode sp)
                            ServiceModeGlobal = true <-> SMode sp = ServiceModeGlobal).
  { intros sp. destruct (String.eqb_spec (SMode sp) "") as [->|]; [done|]. apply String.eqb_eq. }
  unfold isVolumeSharedBetweenGlobalAndReplicated, shared_volume. rewrite andb_true_iff, !used_by_spec.
  assert (Hn : forall sp, negb (String.eqb (if String.eqb (SMode sp) "" then ServiceModeReplicated else SMode sp)
                                 ServiceModeGlobal) = true <-> SMode sp <> ServiceModeGlobal).
  { intros sp. by rewrite negb_true_iff, <- not_true_iff_false, Hm. }
  setoid_rewrite Hn. setoid_rewrite Hm. split.
  - intros [(sp & ? & ? & ?) (sp' & ? & ? & ?)]. exists sp, sp'. done.
  - intros (sp & sp' & ? & ? & ? & ? & ? & ?). split; [exists sp|exists sp']; done.
Qed.

(** *** Eligibility by placement *)
Lemma without_mounts_fields sp :
  mounted_specs (without_mounts sp) = [] /\ Placement_ (without_mounts sp) = Placement_ sp.
Proof. done. Qed.

Lemma eligible_without_spec sp :
  ends (serviceEligibleMachinesWithoutVolumes s sp)
    (fun ids => ids <> ∅ /\ forall id, id ∈ ids <-> allowed s sp id)
    (fun f => exists e, f = GoError (ServiceUnschedulable (SName sp) e) /\ forall id, ~ allowed s sp id).
Proof.
  unfold serviceEligibleMachinesWithoutVolumes.
  destruct (EligibleMachines_loop (vs_state s) (without_mounts sp) (placed sp)) as [(ms & -> & Hne & _ & Hms)|[-> Hno]].
  - intros m _. apply (evaluateConstraints_no_mounts (without_mounts sp) m). done.
  - simpl. assert (Hin : forall id, id ∈ (list_to_set (map (fun m => mi_Id (Info m)) ms) : gset string) <-> allowed s sp id).
    { intros id. rewrite elem_of_list_to_set, list_elem_of_fmap. setoid_rewrite Hms. unfold allowed. naive_solver. }
    split; [|done]. destruct ms as [|m ms]; [done|]. intros He.
    assert (Hm : mi_Id (Info m) ∈ (∅ : gset string)); [|by apply not_elem_of_empty in Hm]. rewrite <- He. set_solver.
  - simpl. exists NoMachinesAvailable. split; [done|]. intros id (m & Hm & _ & Hp). by apply (Hno m).
Qed.

(** The sets of all services are what their placements allow. *)
Definition by_placement (eligible : machine_sets) : Prop :=
  (forall n, is_Some (eligible !! n) <-> n ∈ map SName (serviceSpecs s)) /\
  forall sp, sp ∈ serviceSpecs s -> forall id, may eligible (SName sp) id <-> allowed s sp id.

Lemma initial_eligible_spec :
  ends (initial_eligible s) (fun eligible => by_placement eligible /\ nonempty eligible)
    (fun f => exists sp e, f = GoError (ServiceUnschedulable (SName sp) e) /\ sp ∈ serviceSpecs s /\
       forall id, ~ allowed s sp id).
Proof.
  pose (I := fun (specs : list ServiceSpec) (eligible : machine_sets) =>
    (forall n, is_Some (eligible !! n) <-> n ∈ map SName specs) /\
    (forall sp, sp ∈ serviceSpecs s -> SName sp ∈ map SName specs ->
       forall id, may eligible (SName sp) id <-> allowed s sp id) /\ nonempty eligible).
  eapply ends_mono; [apply (for_each_ends _ I)| |intros f Hf; exact Hf].
  - split_and!; [|intros sp _ Hn; by apply not_elem_of_nil in Hn|intros n e He; by rewrite lookup_empty in He].
    intros n. rewrite lookup_empty. split; [by intros [? ?]|by intros ?%not_elem_of_nil].
  - intros specs sp eligible Hsp (Hdom & Hall & Hne).
    eapply ends_bind; [eapply ends_mono; [apply eligible_without_spec|intros ids Hids; exact Hids|]|].
    { intros f (e & -> & Hno). exists sp, e. done. }
    intros ids [Hids0 Hids]. simpl. unfold I. rewrite map_app. simpl. split_and!.
    + intros n. rewrite lookup_insert_is_Some', Hdom, elem_of_app, list_elem_of_singleton. naive_solver.
    + intros sp' Hsp' Hin id. unfold may. destruct (decide (SName sp = SName sp')) as [Heq|Hneq].
      * rewrite <- Heq, lookup_insert_eq. rewrite <- (spec_unique sp sp' Hsp Hsp' Heq), <- Hids. naive_solver.
      * setoid_rewrite lookup_insert_ne; [|done]. apply Hall; [done|].
        apply elem_of_app in Hin as [?|Hin]; [done|]. apply list_elem_of_singleton in Hin. congruence.
    + intros n e [[_ <-]|[_ He]]%lookup_insert_Some; [done|by apply (Hne n)].
  - intros eligible (Hdom & Hall & Hne). split; [|done]. split; [done|]. intros sp Hsp. apply Hall; [done|].
    by apply list_elem_of_fmap_2.
Qed.

(** *** Existing volumes *)

(** [x] has every existing volume that [n] uses and no global service uses, among [visited]. *)
Definition has_existing (visited : list (string * gset string)) (n x : string) : Prop :=
  forall v ms, (v, ms) ∈ visited -> ~ global_volume v -> uses s n v -> x ∈ ms.

Definition has_all_existing (n x : string) : Prop :=
  forall v ms, existingVolumeMachines s !! v = Some ms -> ~ global_volume v -> uses s n v -> x ∈ ms.

Definition sets_of_services (eligible : machine_sets) : Prop :=
  forall n, is_Some (eligible !! n) <-> n ∈ map SName (serviceSpecs s).

Lemma uses_set eligible n v : sets_of_services eligible -> uses s n v -> is_Some (eligible !! n).
Proof. intros Hdom Hn. apply Hdom. destruct (uses_named n v Hn) as (sp & ? & <-). by apply list_elem_of_fmap_2. Qed.

Lemma may_insert eligible n e m x : may (<[n := e]> eligible) m x <-> (n = m /\ x ∈ e) \/ (n <> m /\ may eligible m x).
Proof.
  unfold may. destruct (decide (n = m)) as [->|Hne].
  - setoid_rewrite lookup_insert_eq. naive_solver.
  - setoid_rewrite lookup_insert_ne; [|done]. naive_solver.
Qed.

(** Narrowing the services of one volume. *)
Lemma narrow_services_spec v ms eligible quoted :
  sets_of_services eligible -> nonempty eligible ->
  ends (for_each (narrow_service v ms) (eligible, quoted) (map_get (volumeServices s) v))
    (fun acc => sets_of_services acc.1 /\ nonempty acc.1 /\
       forall n x, may acc.1 n x <-> may eligible n x /\ (uses s n v -> x ∈ ms))
    (fun f => exists n vs, f = GoError (NoMachineWithVolumes n vs) /\ uses s n v /\
       forall x, ~ (may eligible n x /\ x ∈ ms)).
Proof.
  intros Hdom Hne.
  pose (I := fun (names : list string) (acc : machine_sets * gmap string (list string)) =>
    sets_of_services acc.1 /\ nonempty acc.1 /\
    forall n x, may acc.1 n x <-> may eligible n x /\ (n ∈ names -> x ∈ ms)).
  eapply ends_mono; [apply (for_each_ends _ I)|intros acc Hacc; exact Hacc|intros f Hf; exact Hf].
  - split_and!; [done|done|]. intros n x. split; [|by intros [? _]]. intros Hm. split; [done|].
    by intros ?%not_elem_of_nil.
  - intros names n [el q] Hn (Hd & Hn0 & Hm). simpl in Hd, Hn0, Hm. unfold narrow_service.
    destruct (uses_set el n v Hd Hn) as [old Hold]. rewrite (get_set_ends _ _ _ Hold). cbn [res_bind].
    assert (Hin : forall x, x ∈ old <-> may el n x).
    { intros x. split; [intros Hx; by exists old|intros (e & He & Hx); congruence]. }
    destruct (Nat.eqb_spec (size (old ∩ ms)) 0) as [Hz|Hz].
    { simpl. eexists n, _. split_and!; [done|done|]. intros x [Hx Hms]. apply size_empty_inv in Hz.
      apply (not_elem_of_empty (C := gset string) x). rewrite <- Hz. apply elem_of_intersection.
      split; [|done]. apply Hin, Hm. done. }
    unfold I; cbn [ends fst]. split_and!.
    + intros m. rewrite lookup_insert_is_Some'. split; [|intros; by right; apply Hd].
      intros [<-|Hs]; [|by apply Hd]. apply Hd. by rewrite Hold.
    + intros m e [[_ <-]|[_ He]]%lookup_insert_Some; [|by apply (Hn0 m)]. intros E. apply Hz. by rewrite E, size_empty.
    + intros m x. rewrite may_insert, elem_of_intersection, Hin, elem_of_app, list_elem_of_singleton, !Hm.
      destruct (decide (n = m)) as [<-|Hnm]; naive_solver.
Qed.

Lemma narrow_by_existing_spec eligible : sets_of_services eligible -> nonempty eligible ->
  ends (narrow_by_existing s eligible)
    (fun eligible' => sets_of_services eligible' /\ nonempty eligible' /\
       forall n x, may eligible' n x <-> may eligible n x /\ has_all_existing n x)
    (fun f => exists n v vs, f = GoError (NoMachineWithVolumes n vs) /\ uses s n v /\ ~ global_volume v /\
       forall x, ~ (may eligible n x /\ has_all_existing n x)).
Proof.
  intros Hdom Hne. unfold narrow_by_existing.
  pose (I := fun (visited : list (string * gset string)) (acc : machine_sets * gmap string (list string)) =>
    sets_of_services acc.1 /\ nonempty acc.1 /\
    forall n x, may acc.1 n x <-> may eligible n x /\ has_existing visited n x).
  eapply ends_bind; [apply (for_each_ends_split _ I)|].
  - split_and!; [done|done|]. intros n x. split; [|by intros [? _]]. intros Hm. split; [done|].
    by intros v ms ?%not_elem_of_nil.
  - intros visited [v ms] rest [el q] Hsplit (Hd & Hn0 & Hm). simpl in Hd, Hn0, Hm. cbn [fst snd].
    assert (Hseen : forall w ws, (w, ws) ∈ visited ++ (v, ms) :: rest -> existingVolumeMachines s !! w = Some ws).
    { intros w ws. rewrite <- Hsplit. apply elem_of_range_map. }
    assert (Hsnoc : forall n x, has_existing (visited ++ [(v, ms)]) n x <->
              has_existing visited n x /\ (~ global_volume v -> uses s n v -> x ∈ ms)).
    { intros n x. unfold has_existing. setoid_rewrite elem_of_app. setoid_rewrite list_elem_of_singleton. naive_solver. }
    destruct (isVolumeForGlobalService s v) eqn:Hg.
    + unfold I; cbn [ends fst]. split_and!; [done|done|]. intros n x. rewrite Hsnoc, Hm.
      assert (global_volume v) by done. tauto.
    + assert (Hng : ~ global_volume v) by (unfold global_volume; congruence).
      eapply ends_mono; [by apply narrow_services_spec| |].
      * intros [el' q'] (Hd' & Hn' & Hm'). unfold I; cbn [fst] in *. split_and!; [done|done|].
        intros n x. rewrite Hsnoc, Hm', Hm. tauto.
      * intros f (n & vs & -> & Hu & Hno). exists n, v, vs. split_and!; [done|done|done|].
        intros x [Hx Hall]. apply (Hno x). split.
        -- apply Hm. split; [done|]. intros w ws Hw. apply Hall, Hseen, elem_of_app. by left.
        -- apply (Hall v); [apply Hseen, elem_of_app; right; left|done|done].
  - intros [el q] (Hd & Hn0 & Hm). cbn [ends fst] in *. split_and!; [done|done|]. intros n x. rewrite Hm.
    unfold has_existing, has_all_existing. by setoid_rewrite elem_of_range_map.
Qed.

(** *** The volumes the propagation skips *)
Lemma placed_volumes_spec :
  ends (placed_volumes s)
    (fun placed => (forall v, is_Some (volumeSpecs s !! v) -> ~ shared_volume v) /\
       forall v, is_Some (volumeSpecs s !! v) ->
         (v ∈ placed <-> global_volume v \/ is_Some (existingVolumeMachines s !! v)))
    (fun f => exists v, f = GoError (SharedGlobalReplicated v) /\ shared_volume v).
Proof.
  unfold placed_volumes.
  set (start := list_to_set _).
  assert (Hstart : forall v, v ∈ start <-> ~ global_volume v /\ is_Some (existingVolumeMachines s !! v)).
  { intros v. unfold start. rewrite elem_of_list_to_set, list_elem_of_filter, elem_of_elements, elem_of_dom.
    unfold global_volume. by rewrite not_true_iff_false. }
  pose (I := fun (visited : list (string * VolumeSpec)) (placed : gset string) =>
    (forall v vs, (v, vs) ∈ visited -> ~ shared_volume v) /\
    forall v, v ∈ placed <-> v ∈ start \/ (global_volume v /\ v ∈ map fst visited)).
  eapply ends_mono; [apply (for_each_ends _ I)| |intros f Hf; exact Hf].
  - split; [by intros v vs ?%not_elem_of_nil|]. intros v. split; [by left|]. intros [?|[_ ?%not_elem_of_nil]]; done.
  - intros visited [v vs] placed Hin [Hsh Hpl]. cbn [fst].
    destruct (isVolumeSharedBetweenGlobalAndReplicated s v) eqn:Hshared.
    { exists v. split; [done|]. by apply shared_volume_spec. }
    assert (Hns : ~ shared_volume v) by (rewrite <- shared_volume_spec; congruence).
    cbn [ends]. split.
    + intros w ws [Hw|[= -> ->]%list_elem_of_singleton]%elem_of_app; [by apply (Hsh w ws)|done].
    + intros w. rewrite map_app, elem_of_app. cbn [map fst]. rewrite list_elem_of_singleton.
      destruct (isVolumeForGlobalService s v) eqn:Hg.
      * rewrite elem_of_union, elem_of_singleton, Hpl. assert (global_volume v) by done. naive_solver.
      * assert (~ global_volume v) by (unfold global_volume; congruence). rewrite Hpl. naive_solver.
  - intros placed [Hsh Hpl]. split.
    + intros v [vs Hv]. apply (Hsh v vs). by apply elem_of_range_map.
    + intros v [vs Hv]. rewrite Hpl, Hstart.
      assert (Hin : v ∈ map fst (range_map (visit 1 1) (volumeSpecs s))).
      { apply list_elem_of_fmap. exists (v, vs). split; [done|]. by apply elem_of_range_map. }
      destruct (isVolumeForGlobalService s v) eqn:Hg.
      * assert (global_volume v) by done. tauto.
      * assert (~ global_volume v) by (unfold global_volume; congruence). tauto.
Qed.

(** *** Placing the missing volumes *)

(** The machines on which the volume is scheduled, one entry per specification. *)
Definition sched_ids (scheduled : gmap string (list VolumeSpec)) (v : string) : list string :=
  omap (fun kv => if decide (vol_Name kv.2 = v) then Some kv.1 else None) (pairs scheduled).

Lemma omap_perm {A B} (f : A -> option B) l l' : l ≡ₚ l' -> omap f l ≡ₚ omap f l'.
Proof. intros Hl. by rewrite Hl. Qed.

Lemma sched_ids_append id vs scheduled v :
  sched_ids (map_append id vs scheduled) v ≡ₚ
  sched_ids scheduled v ++ (if decide (vol_Name vs = v) then [id] else []).
Proof.
  unfold sched_ids. rewrite (omap_perm _ _ _ (pairs_append id vs scheduled)), omap_app. simpl.
  by destruct (decide (vol_Name vs = v)).
Qed.

Lemma sched_ids_global vs ex ids scheduled v :
  sched_ids (fold_left (schedule_global vs ex) ids scheduled) v ≡ₚ
  sched_ids scheduled v ++ (if decide (vol_Name vs = v) then filter (fun id => id ∉ ex) ids else []).
Proof.
  revert scheduled. induction ids as [|id ids IH]; intros scheduled; simpl.
  { by destruct (decide _); rewrite app_nil_r. }
  rewrite IH. unfold schedule_global at 1. rewrite filter_cons.
  destruct (decide (id ∈ ex)) as [Hex|Hex].
  - by rewrite (decide_False (P := id ∉ ex)) by tauto.
  - rewrite (decide_True (P := id ∉ ex)) by done. rewrite sched_ids_append.
    destruct (decide (vol_Name vs = v)); [|by rewrite app_nil_r]. by rewrite <- app_assoc.
Qed.

Lemma scheduled_known vs ex ids scheduled (P : string * VolumeSpec -> Prop) :
  (forall id, P (id, vs)) -> (forall kv, kv ∈ pairs scheduled -> P kv) ->
  forall kv, kv ∈ pairs (fold_left (schedule_global vs ex) ids scheduled) -> P kv.
Proof.
  intros Hvs. revert scheduled. induction ids as [|id ids IH]; intros scheduled Hs; simpl; [done|].
  apply IH. unfold schedule_global. destruct (decide _); [done|]. intros kv. rewrite pairs_append.
  intros [?| ->%list_elem_of_singleton]%elem_of_app; auto.
Qed.

Lemma union_machines_spec eligible names : (forall n, n ∈ names -> is_Some (eligible !! n)) ->
  exists u, union_machines eligible names = Ok u /\ forall x, x ∈ u <-> exists n, n ∈ names /\ may eligible n x.
Proof.
  intros Hk. unfold union_machines.
  pose (I := fun (ns : list string) (u : gset string) => forall x, x ∈ u <-> exists n, n ∈ ns /\ may eligible n x).
  assert (Hends : ends (for_each (fun u name => res_bind (get_set eligible name) (fun e => Ok (u ∪ e))) ∅ names)
                    (I names) (fun _ => False)).
  { apply for_each_ends.
    - intros x. split; [by intros ?%not_elem_of_empty|]. by intros (n & ?%not_elem_of_nil & _).
    - intros ns n u Hn Hu. destruct (Hk n Hn) as [e He]. rewrite (get_set_ends _ _ _ He). cbn [res_bind ends].
      intros x. rewrite elem_of_union, (Hu x). split.
      + intros [(m & Hm & ?)|Hx]; [exists m|exists n]; (split; [apply elem_of_app|]); [by left|done|right; left|by exists e].
      + intros (m & [Hm| ->%list_elem_of_singleton]%elem_of_app & Hmay); [left; by exists m|right].
        destruct Hmay as (e' & He' & ?). congruence. }
  destruct (for_each _ ∅ names) as [u|]; [|done]. by exists u.
Qed.

Lemma assign_all names x (eligible : machine_sets) n :
  fold_left (fun (e : machine_sets) name => <[name := {[x]}]> e) names eligible !! n =
  if decide (n ∈ names) then Some {[x]} else eligible !! n.
Proof.
  revert eligible. induction names as [|m names IH]; intros eligible; simpl.
  { done. }
  rewrite IH. destruct (decide (n ∈ names)) as [Hn|Hn].
  - by rewrite decide_True by (by right).
  - destruct (decide (m = n)) as [->|Hmn].
    + by rewrite lookup_insert_eq, decide_True by left.
    + rewrite lookup_insert_ne, decide_False; [done| |done]. intros [->|?]%elem_of_cons; done.
Qed.

(** Putting a volume on one machine of its services keeps every service placeable. *)
Lemma place_one eligible placed v first rest x call :
  volumeServices s !! v = Some (first :: rest) -> v ∉ placed ->
  sets_of_services eligible -> nonempty eligible ->
  (forall w, w ∉ placed -> co_located (volumeServices s) eligible w) -> may eligible first x ->
  let one := fold_left (fun (e : machine_sets) name => <[name := {[x]}]> e) (first :: rest) eligible in
  ends (propagateConstraintsUntilConvergence call s one ({[v]} ∪ placed))
    (fun eligible' => sets_of_services eligible' /\ nonempty eligible' /\
       (forall w, w ∉ {[v]} ∪ placed -> co_located (volumeServices s) eligible' w) /\
       (forall n y, may eligible' n y -> may eligible n y) /\
       (forall n y, n ∈ first :: rest -> may eligible' n y -> y = x) /\
       (forall n, n ∉ first :: rest -> (forall w, uses s n w -> w ∈ placed) ->
          forall y, may eligible n y -> may eligible' n y))
    (fun _ => False).
Proof.
  intros Hv Hskip Hdom Hne Hco Hx one. set (services := volumeServices s).
  assert (Hone : forall n, one !! n = if decide (n ∈ first :: rest) then Some {[x]} else eligible !! n)
    by (intros n; apply assign_all).
  assert (Hsame : forall n, n ∈ first :: rest -> may eligible n x).
  { intros n Hn. destruct Hx as (e & He & Hx). exists e. split; [|done].
    rewrite <- He. apply (Hco v Hskip (first :: rest)); [done|done|left]. }
  assert (Hone_may : forall n y, may one n y <-> (n ∈ first :: rest /\ y = x) \/ (n ∉ first :: rest /\ may eligible n y)).
  { intros n y. unfold may. rewrite Hone. destruct (decide (n ∈ first :: rest)) as [Hn|Hn].
    - split.
      + intros (e & [= <-] & Hy). apply elem_of_singleton in Hy. by left.
      + intros [[_ ->]|[? _]]; [|done]. exists {[x]}. split; [done|]. by apply elem_of_singleton.
    - naive_solver. }
  assert (Hdom1 : sets_of_services one).
  { intros n. rewrite Hone. destruct (decide _) as [Hn|]; [|apply Hdom]. split; [intros _|eauto].
    apply (wf_services s Hwf) in Hv as [_ Hin]. by apply Hin. }
  assert (Hk : known services one).
  { intros w names n Hw Hn. apply Hdom1. apply (wf_services s Hwf) in Hw as [_ Hin]. by apply Hin. }
  assert (Hconn : forall n t, rtc (shares services ({[v]} ∪ placed)) n t -> eligible !! n = eligible !! t).
  { intros n t Ht. apply (co_located_rtc services placed eligible n t); [apply Hco|].
    eapply rtc_subrel; [|done]. intros a b (w & names & Hw & Hw' & H). exists w, names. set_solver. }
  assert (Hagree : forall n, is_Some (eligible !! n) -> exists y, agreed services ({[v]} ∪ placed) one n y).
  { intros n [e He]. destruct (decide (x ∈ e)) as [Hxe|Hxe].
    - exists x. intros t Ht. apply Hone_may. destruct (decide (t ∈ first :: rest)); [by left|right].
      split; [done|]. exists e. by rewrite <- (Hconn n t Ht).
    - destruct (set_choose_L e (Hne n e He)) as [y Hy]. exists y. intros t Ht. apply Hone_may. right.
      split; [|exists e; by rewrite <- (Hconn n t Ht)]. intros Hin. apply Hsame in Hin as (e' & He' & ?).
      rewrite <- (Hconn n t Ht) in He'. congruence. }
  unfold propagateConstraintsUntilConvergence.
  eapply ends_mono; [by apply (propagate_spec services ({[v]} ∪ placed))| |].
  - intros el (Hd & Hco' & Hm & _). split_and!.
    + intros n. by rewrite Hd.
    + intros n e He ->. destruct (Hagree n) as [y Hy].
      { apply Hdom, Hdom1, Hd. by rewrite He. }
      apply Hm in Hy as (e' & He' & Hy). rewrite He in He'. injection He' as <-. by apply not_elem_of_empty in Hy.
    + done.
    + intros n y Hy. apply Hm in Hy. specialize (Hy n (rtc_refl _ _)). apply Hone_may in Hy as [[Hn ->]|[_ ?]]; auto.
    + intros n y Hn Hy. apply Hm in Hy. specialize (Hy n (rtc_refl _ _)). apply Hone_may in Hy as [[_ ?]|[? _]]; done.
    + intros n Hn Hall y Hy. apply Hm. intros t Ht. destruct Ht as [n|n t u (w & names & Hw & Hw' & Hnw & _) _].
      * apply Hone_may. by right.
      * exfalso. apply Hw'. apply elem_of_union. right. apply Hall. unfold uses, map_get. fold services. by rewrite Hw.
  - intros f (w & names & n & _ & Hw & _ & Hn & Hno).
    destruct (Hagree n) as [y Hy]; [|by apply (Hno y)].
    apply Hdom, Hdom1. by apply (Hk w names).
Qed.

(** What has been decided for a volume, given the sets [start] the placement began with. *)
Definition decided (start eligible : machine_sets) (scheduled : gmap string (list VolumeSpec)) (v : string) : Prop :=
  if isVolumeForGlobalService s v then
    NoDup (sched_ids scheduled v) /\
    forall x, x ∈ sched_ids scheduled v <-> x ∉ existing s v /\ exists n, uses s n v /\ may start n x
  else match existingVolumeMachines s !! v with
       | Some _ => sched_ids scheduled v = []
       | None => exists x, sched_ids scheduled v = [x] /\ forall n y, uses s n v -> may eligible n y -> y = x
       end.

Lemma decided_later start eligible eligible' scheduled scheduled' v :
  (forall n y, may eligible' n y -> may eligible n y) ->
  sched_ids scheduled' v ≡ₚ sched_ids scheduled v ->
  decided start eligible scheduled v -> decided start eligible' scheduled' v.
Proof.
  intros Hsub Hp. unfold decided. destruct (isVolumeForGlobalService s v); [by setoid_rewrite Hp|].
  destruct (existingVolumeMachines s !! v).
  - intros E. rewrite E in Hp. symmetry in Hp. by apply Permutation_nil in Hp.
  - intros (x & E & Hall). exists x. rewrite E in Hp. symmetry in Hp. apply Permutation_singleton_l in Hp.
    split; [done|]. intros n y Hn Hy. by apply (Hall n); [|apply Hsub].
Qed.

(** The invariant of the placement loop. *)
Record placing (start : machine_sets) (placed0 : gset string) (visited : list (string * VolumeSpec))
  (acc : sched_acc) : Prop := {
  pl_sets : sets_of_services (sa_eligible acc);
  pl_nonempty : nonempty (sa_eligible acc);
  pl_together w : w ∉ sa_placed acc -> co_located (volumeServices s) (sa_eligible acc) w;
  pl_narrower n y : may (sa_eligible acc) n y -> may start n y;
  pl_skipped v : v ∈ placed0 -> v ∈ sa_placed acc;
  pl_placed v : v ∈ sa_placed acc -> v ∈ placed0 \/ v ∈ map fst visited;
  pl_fixed n : (forall w, uses s n w -> w ∈ placed0) -> forall y, may start n y -> may (sa_eligible acc) n y;
  pl_decided v : v ∈ map fst visited -> decided start (sa_eligible acc) (sa_scheduled acc) v;
  pl_todo v : v ∉ map fst visited -> sched_ids (sa_scheduled acc) v = [];
  pl_specs kv : kv ∈ pairs (sa_scheduled acc) -> volumeSpecs s !! vol_Name kv.2 = Some kv.2
}.

Lemma volume_used v vs : volumeSpecs s !! v = Some vs ->
  exists first rest, volumeServices s !! v = Some (first :: rest) /\
    map_get (volumeServices s) v = first :: rest /\ forall n, uses s n v <-> n ∈ first :: rest.
Proof.
  intros Hv. destruct (proj2 (wf_dom s Hwf v)) as [names Hn]; [eauto|].
  destruct (wf_services s Hwf v names Hn) as [Hne _]. destruct names as [|first rest]; [done|].
  exists first, rest. unfold uses, map_get. by rewrite Hn.
Qed.

(** What a turn for the volume [v] has to show. *)
Lemma placing_snoc start placed0 visited v vs acc acc' :
  placing start placed0 visited acc ->
  sets_of_services (sa_eligible acc') -> nonempty (sa_eligible acc') ->
  (forall w, w ∉ sa_placed acc' -> co_located (volumeServices s) (sa_eligible acc') w) ->
  (forall n y, may (sa_eligible acc') n y -> may (sa_eligible acc) n y) ->
  (forall w, w ∈ sa_placed acc' <-> w ∈ sa_placed acc \/ w = v) ->
  (forall n, (forall w, uses s n w -> w ∈ sa_placed acc) ->
     forall y, may (sa_eligible acc) n y -> may (sa_eligible acc') n y) ->
  (forall w, w <> v -> sched_ids (sa_scheduled acc') w ≡ₚ sched_ids (sa_scheduled acc) w) ->
  decided start (sa_eligible acc') (sa_scheduled acc') v ->
  (forall kv, kv ∈ pairs (sa_scheduled acc') -> volumeSpecs s !! vol_Name kv.2 = Some kv.2) ->
  placing start placed0 (visited ++ [(v, vs)]) acc'.
Proof.
  intros [Hsets Hne Hco Hsub Hskip Hpl Hfix Hdec Htodo Hspecs] Hsets' Hne' Hco' Hsub' Hplaced Hfix' Hother Hv Hspecs'.
  assert (Hvis : forall w, w ∈ map fst (visited ++ [(v, vs)]) <-> w ∈ map fst visited \/ w = v).
  { intros w. rewrite map_app, elem_of_app. cbn [map fst]. by rewrite list_elem_of_singleton. }
  split; try done.
  - intros n y Hy. auto.
  - intros w Hw. apply Hplaced. auto.
  - intros w [Hw| ->]%Hplaced; rewrite Hvis; [apply Hpl in Hw; tauto|tauto].
  - intros n Hn y Hy. apply Hfix'; [|by apply Hfix]. auto.
  - intros w. rewrite Hvis. destruct (decide (w = v)) as [->|Hne'']; [done|]. intros [Hw|?]; [|done].
    apply (decided_later start (sa_eligible acc) _ (sa_scheduled acc)); [done|by apply Hother|by apply Hdec].
  - intros w. rewrite Hvis. intros Hw. assert (Hne'' : w <> v) by tauto.
    specialize (Hother w Hne''). rewrite Htodo in Hother by tauto. symmetry in Hother. by apply Permutation_nil in Hother.
Qed.

(** Without shared volumes, a service that uses a global volume uses no other kind. *)
Lemma only_global n v w : ~ shared_volume v -> global_volume v -> uses s n v -> uses s n w -> global_volume w.
Proof.
  intros Hns (sp0 & Hsp0 & Hu0 & Hm0)%global_volume_spec Hn Hw.
  destruct (uses_named n v Hn) as (sp & Hsp & <-).
  destruct (decide (SMode sp = ServiceModeGlobal)) as [Hm|Hm].
  - apply global_volume_spec. by exists sp.
  - exfalso. apply Hns. by exists sp0, sp.
Qed.

Section Turn.
Context (start : machine_sets) (placed0 : gset string).
Hypothesis Hns : forall v, is_Some (volumeSpecs s !! v) -> ~ shared_volume v.
Hypothesis Hplaced0 : forall v, is_Some (volumeSpecs s !! v) ->
  (v ∈ placed0 <-> global_volume v \/ is_Some (existingVolumeMachines s !! v)).

Lemma used_spec n v : uses s n v -> is_Some (volumeSpecs s !! v).
Proof.
  unfold uses, map_get. intros Hn. apply (wf_dom s Hwf). destruct (volumeServices s !! v); [eauto|].
  by apply not_elem_of_nil in Hn.
Qed.

(** One turn of the loop for a volume of global services. *)
Lemma schedule_global_turn visited v vs acc :
  volumeSpecs s !! v = Some vs -> v ∉ map fst visited -> global_volume v -> placing start placed0 visited acc ->
  ends (schedule_volume s acc (v, vs)) (placing start placed0 (visited ++ [(v, vs)])) (fun _ => False).
Proof.
  intros Hvs Hnew Hg HI. pose proof (wf_specs s Hwf v vs Hvs) as Hname.
  destruct (volume_used v vs Hvs) as (first & rest & Hserv & Hget & Huses).
  unfold schedule_volume. rewrite Hget. fold (existing s v).
  replace (isVolumeForGlobalService s v) with true by (symmetry; exact Hg).
  assert (Hset : forall n, n ∈ first :: rest -> is_Some (sa_eligible acc !! n)).
  { intros n Hn. apply (uses_set _ n v); [apply HI|]. by apply Huses. }
  destruct (union_machines_spec (sa_eligible acc) (first :: rest) Hset) as (u & -> & Hu). cbn [res_bind].
  destruct (Nat.eqb_spec (size u) 0) as [Hz|_].
  { exfalso. destruct (Hset first) as [e He]; [left|].
    destruct (set_choose_L e (pl_nonempty _ _ _ _ HI first e He)) as [x Hx].
    apply size_empty_inv in Hz. apply (not_elem_of_empty (C := gset string) x). rewrite <- Hz. apply Hu.
    exists first. split; [left|by exists e]. }
  cbn [ends]. set (ids := sort_strings (elements u)).
  assert (Hids : ids ≡ₚ elements u) by apply sort_strings_perm.
  pose proof (sched_ids_global vs (existing s v) ids (sa_scheduled acc)) as Hsched.
  assert (Hstart : forall n, uses s n v -> forall y, may (sa_eligible acc) n y <-> may start n y).
  { intros n Hn y. split; [apply (pl_narrower _ _ _ _ HI)|]. apply (pl_fixed _ _ _ _ HI). intros w Hw.
    pose proof (used_spec n w Hw) as Hs. apply Hplaced0; [done|]. left. apply (only_global n v w); eauto. }
  apply (placing_snoc start placed0 visited v vs acc); cbn [sa_eligible sa_placed sa_scheduled]; try solve [apply HI]; try done.
  - intros w Hw. apply (pl_together _ _ _ _ HI). set_solver.
  - intros w. rewrite elem_of_union, elem_of_singleton. tauto.
  - intros w Hw. rewrite Hsched, decide_False by congruence. by rewrite app_nil_r.
  - unfold decided. rewrite (Hg : isVolumeForGlobalService s v = true).
    specialize (Hsched v). rewrite decide_True in Hsched by done.
    rewrite (pl_todo _ _ _ _ HI v Hnew) in Hsched. simpl in Hsched. revert Hsched.
    generalize (sched_ids (fold_left (schedule_global vs (existing s v)) ids (sa_scheduled acc)) v).
    intros placed_ids Hsched. setoid_rewrite Hsched. split.
    + apply NoDup_filter. rewrite Hids. apply NoDup_elements.
    + intros x. rewrite list_elem_of_filter, Hids, elem_of_elements, Hu. setoid_rewrite Huses.
      split; intros [? (n & Hn & Hy)]; (split; [done|]; exists n; split; [done|]); apply (Hstart n); [by apply Huses|done|by apply Huses|done].
  - apply scheduled_known; [|apply HI]. intros id. cbn [snd]. by rewrite Hname.
Qed.

(** One turn for another volume. *)
Lemma schedule_other_turn visited v vs acc :
  volumeSpecs s !! v = Some vs -> v ∉ map fst visited -> ~ global_volume v -> placing start placed0 visited acc ->
  ends (schedule_volume s acc (v, vs)) (placing start placed0 (visited ++ [(v, vs)])) (fun _ => False).
Proof.
  intros Hvs Hnew Hg HI. pose proof (wf_specs s Hwf v vs Hvs) as Hname.
  destruct (volume_used v vs Hvs) as (first & rest & Hserv & Hget & Huses).
  unfold schedule_volume. rewrite Hget. fold (existing s v).
  assert (Hgf : isVolumeForGlobalService s v = false) by (by apply not_true_iff_false).
  rewrite Hgf. destruct (uses_set _ first v (pl_sets _ _ _ _ HI)) as [e He]; [apply Huses; left|].
  rewrite (get_set_ends _ _ _ He). cbn [res_bind].
  pose proof (pl_nonempty _ _ _ _ HI first e He) as Hne.
  destruct (Nat.eqb_spec (size e) 0) as [Hz|_]; [by apply size_empty_inv, leibniz_equiv in Hz|].
  destruct (existingVolumeMachines s !! v) as [ms|] eqn:Hex.
  - (* the volume exists *)
    destruct (wf_existing s Hwf v ms Hex) as [Hms _].
    replace (Nat.ltb 0 (size (existing s v))) with true.
    2:{ symmetry. apply Nat.ltb_lt. unfold existing. rewrite Hex. change (0 < size ms).
        destruct (decide (size ms = 0)) as [Hz|]; [|lia]. by apply size_empty_inv, leibniz_equiv in Hz. }
    cbn [ends]. apply (placing_snoc start placed0 visited v vs acc); try solve [apply HI]; try done.
    + intros w. split; [by left|]. intros [?| ->]; [done|]. apply (pl_skipped _ _ _ _ HI).
      apply Hplaced0; [eauto|]. right. by rewrite Hex.
    + unfold decided. rewrite Hgf, Hex. by apply (pl_todo _ _ _ _ HI).
  - (* it is missing *)
    replace (Nat.ltb 0 (size (existing s v))) with false
      by (unfold existing; rewrite Hex; cbn [default]; by rewrite size_empty).
    destruct (sort_strings (elements e)) as [|x ids] eqn:Hsort.
    { exfalso. pose proof (sort_strings_perm (elements e)) as Hp. rewrite Hsort in Hp.
      apply Permutation_nil in Hp. by apply elements_empty_inv, leibniz_equiv in Hp. }
    assert (Hx : x ∈ e).
    { apply elem_of_elements. rewrite <- (sort_strings_perm (elements e)), Hsort. left. }
    assert (Hv : v ∉ sa_placed acc).
    { intros Hin. apply (pl_placed _ _ _ _ HI) in Hin as [Hin|?]; [|done].
      apply Hplaced0 in Hin as [?|[? ?]]; [done|congruence|eauto]. }
    pose proof (place_one (sa_eligible acc) (sa_placed acc) v first rest x (sa_calls acc) Hserv Hv
      (pl_sets _ _ _ _ HI) (pl_nonempty _ _ _ _ HI) (pl_together _ _ _ _ HI) (ex_intro _ e (conj He Hx))) as Hprop.
    cbv zeta in Hprop. destruct (propagateConstraintsUntilConvergence _ _ _ _) as [el|f]; [|done].
    destruct Hprop as (Hsets' & Hne' & Hco' & Hsub' & Hone & Hkeep). cbn [ends].
    pose proof (fun w => sched_ids_append x vs (sa_scheduled acc) w) as Hsched.
    apply (placing_snoc start placed0 visited v vs acc); cbn [sa_eligible sa_placed sa_scheduled]; try done.
    + intros w. rewrite elem_of_union, elem_of_singleton. tauto.
    + intros n Hn. apply Hkeep; [|done]. intros Hin. apply Hv, Hn, Huses, Hin.
    + intros w Hw. rewrite Hsched, decide_False by congruence. by rewrite app_nil_r.
    + unfold decided. rewrite Hgf, Hex. exists x. split.
      * specialize (Hsched v). rewrite decide_True, (pl_todo _ _ _ _ HI v Hnew) in Hsched by done.
        symmetry in Hsched. by apply Permutation_singleton_l in Hsched.
      * intros n y Hn. apply Hone. by apply Huses.
    + intros kv. rewrite pairs_append. intros [Hkv| ->%list_elem_of_singleton]%elem_of_app; [by apply HI|].
      cbn [snd]. by rewrite Hname.
Qed.
End Turn.

(** ** The specification *)

(** Every service gets a machine: its volumes exist on that machine already, or are the
    ones [loc] puts there. *)
Definition solvable : Prop :=
  (forall v, ~ shared_volume v) /\
  (forall sp, sp ∈ serviceSpecs s -> exists x, allowed s sp x) /\
  exists at_ loc : string -> string, forall sp, sp ∈ serviceSpecs s -> SMode sp <> ServiceModeGlobal ->
    allowed s sp (at_ (SName sp)) /\
    forall v, uses s (SName sp) v ->
      match existingVolumeMachines s !! v with
      | Some ms => at_ (SName sp) ∈ ms
      | None => at_ (SName sp) = loc v
      end.

(** What the scheduled volumes have to be: a missing volume of replicated services on exactly
    one machine, an existing one nowhere else; a volume of global services once on every
    machine allowed for one of them that does not have it; and for every replicated service an
    allowed machine that has, or is about to get, all its volumes. *)
Record solution (scheduled : gmap string (list VolumeSpec)) : Prop := {
  sol_specs kv : kv ∈ pairs scheduled -> volumeSpecs s !! vol_Name kv.2 = Some kv.2;
  sol_replicated v : is_Some (volumeSpecs s !! v) -> ~ global_volume v ->
    match existingVolumeMachines s !! v with
    | Some _ => sched_ids scheduled v = []
    | None => exists x, sched_ids scheduled v = [x]
    end;
  sol_global v : global_volume v -> NoDup (sched_ids scheduled v) /\
    forall x, x ∈ sched_ids scheduled v <->
      x ∉ existing s v /\ exists sp, sp ∈ serviceSpecs s /\ uses s (SName sp) v /\ allowed s sp x;
  sol_service sp : sp ∈ serviceSpecs s -> SMode sp <> ServiceModeGlobal ->
    exists x, allowed s sp x /\
      forall v, uses s (SName sp) v -> x ∈ existing s v \/ x ∈ sched_ids scheduled v
}.

(** The service is not placed by volumes of global services. *)
Lemma replicated_volumes sp v : (forall v, ~ shared_volume v) -> sp ∈ serviceSpecs s ->
  SMode sp <> ServiceModeGlobal -> uses s (SName sp) v -> ~ global_volume v.
Proof.
  intros Hns Hsp Hm Hv (sp0 & Hsp0 & Hu0 & Hm0)%global_volume_spec. apply (Hns v). by exists sp0, sp.
Qed.

Lemma other_volume sp v : sp ∈ serviceSpecs s -> uses s (SName sp) v -> ~ global_volume v ->
  SMode sp <> ServiceModeGlobal.
Proof. intros Hsp Hu Hg Hm. apply Hg, global_volume_spec. by exists sp. Qed.

(** A solution is agreed on by all services that share missing volumes. *)
Lemma solvable_agreed eligible0 eligible placed at_ loc n :
  by_placement eligible0 ->
  (forall m x, may eligible m x <-> may eligible0 m x /\ has_all_existing m x) ->
  (forall v, is_Some (volumeSpecs s !! v) -> (v ∈ placed <-> global_volume v \/ is_Some (existingVolumeMachines s !! v))) ->
  (forall sp, sp ∈ serviceSpecs s -> SMode sp <> ServiceModeGlobal ->
     allowed s sp (at_ (SName sp)) /\
     forall v, uses s (SName sp) v ->
       match existingVolumeMachines s !! v with Some ms => at_ (SName sp) ∈ ms | None => at_ (SName sp) = loc v end) ->
  (exists v, uses s n v /\ ~ global_volume v) ->
  agreed (volumeServices s) placed eligible n (at_ n).
Proof.
  intros [_ Hpl] Hmay Hplaced Hsol (v0 & Hv0 & Hg0) t Ht.
  assert (Hone : forall n v, uses s n v -> ~ global_volume v -> may eligible n (at_ n)).
  { intros m v Hm Hg. destruct (uses_named m v Hm) as (sp & Hsp & <-).
    destruct (Hsol sp Hsp (other_volume sp v Hsp Hm Hg)) as [Hall Hex]. apply Hmay. split; [by apply Hpl|].
    intros w ws Hw _ Hu. specialize (Hex w Hu). by rewrite Hw in Hex. }
  assert (Hsame : forall n t, shares (volumeServices s) placed n t -> at_ n = at_ t /\ exists v, uses s t v /\ ~ global_volume v).
  { intros a b (v & names & Hv & Hskip & Ha & Hb).
    assert (Hua : uses s a v) by (unfold uses, map_get; by rewrite Hv).
    assert (Hub : uses s b v) by (unfold uses, map_get; by rewrite Hv).
    assert (Hnp : ~ (global_volume v \/ is_Some (existingVolumeMachines s !! v))).
    { intros H. apply Hskip, Hplaced; [|done]. apply (wf_dom s Hwf). by rewrite Hv. }
    assert (Hnone : existingVolumeMachines s !! v = None) by (apply eq_None_not_Some; tauto).
    assert (Hloc : forall c, uses s c v -> at_ c = loc v).
    { intros c Hc. destruct (uses_named c v Hc) as (sp & Hsp & <-).
      destruct (Hsol sp Hsp) as [_ Hex]; [apply (other_volume sp v); tauto|]. specialize (Hex v Hc).
      by rewrite Hnone in Hex. }
    split; [by rewrite !Hloc|]. exists v. tauto. }
  assert (Heq : at_ n = at_ t /\ exists v, uses s t v /\ ~ global_volume v).
  { clear Hone. revert v0 Hv0 Hg0. induction Ht as [n|n m t Hnm _ IH]; intros v0 Hv0 Hg0; [eauto|].
    destruct (Hsame n m Hnm) as (-> & v & Hv & Hg). by apply (IH v). }
  destruct Heq as (-> & v & Hv & Hg). by apply (Hone t v).
Qed.

(** The errors of [Schedule]; the other two kinds of its code never occur. *)
Definition scheduling_error (f : fault) : Prop :=
  match f with
  | GoError (ServiceUnschedulable _ _) | GoError (NoMachineWithVolumes _ _)
  | GoError (SharedGlobalReplicated _) | GoError (NoCommonMachine _ _) => True
  | _ => False
  end.

Lemma Schedule_spec :
  ends (Schedule s)
    (fun res => solution (entries res.1) /\
       res.2 = match res.1 with None => vs_state s | Some scheduled => update_state scheduled (vs_state s) end)
    (fun f => scheduling_error f /\ ~ solvable).
Proof.
  unfold Schedule. destruct (Nat.eqb_spec (length (serviceSpecs s)) 0) as [Hz|_].
  { apply nil_length_inv in Hz. cbn [ends fst snd entries]. split; [|done].
    assert (Hnov : forall v, volumeServices s !! v = None).
    { intros v. apply eq_None_not_Some. intros [names Hn].
      destruct (wf_services s Hwf v names Hn) as [Hne Hin]. destruct names as [|n ?]; [done|].
      specialize (Hin n). rewrite Hz in Hin. apply (not_elem_of_nil n), Hin. left. }
    split.
    - intros kv Hkv. change (kv ∈ []) in Hkv. by apply not_elem_of_nil in Hkv.
    - intros v Hv. apply (wf_dom s Hwf) in Hv as [? Hv]. by rewrite Hnov in Hv.
    - intros v (sp & Hsp & _)%global_volume_spec. rewrite Hz in Hsp. by apply not_elem_of_nil in Hsp.
    - intros sp Hsp. rewrite Hz in Hsp. by apply not_elem_of_nil in Hsp. }
  eapply ends_bind.
  { eapply ends_mono; [apply initial_eligible_spec|intros E0 H; exact H|].
    intros f (sp & e & -> & Hsp & Hno). split; [done|]. intros (_ & Hall & _). destruct (Hall sp Hsp) as [x Hx].
    by apply (Hno x). }
  intros E0 [Hpl Hne0]. pose proof Hpl as [Hsets0 Hmay0].
  eapply ends_bind.
  { eapply ends_mono; [by apply narrow_by_existing_spec|intros E1 H; exact H|].
    intros f (n & v & vs & -> & Hu & Hg & Hno). split; [done|]. intros (_ & _ & at_ & loc & Hsol).
    destruct (uses_named n v Hu) as (sp & Hsp & <-).
    destruct (Hsol sp Hsp (other_volume sp v Hsp Hu Hg)) as [Hal Hex]. apply (Hno (at_ (SName sp))).
    split; [by apply Hmay0|]. intros w ws Hw _ Hus. specialize (Hex w Hus). by rewrite Hw in Hex. }
  intros E1 (Hsets1 & Hne1 & Hmay1).
  eapply ends_bind.
  { eapply ends_mono; [apply placed_volumes_spec|intros placed H; exact H|].
    intros f (v & -> & Hsh). split; [done|]. intros (Hns & _). by apply (Hns v). }
  intros placed [Hns0 Hplaced].
  assert (Hns : forall v, ~ shared_volume v).
  { intros v Hsh. pose proof Hsh as (sp & _ & _ & _ & Hu & _). apply (Hns0 v); [by apply (used_spec (SName sp))|done]. }
  assert (Hk1 : known (volumeServices s) E1).
  { intros w names n Hw Hn. apply Hsets1. apply (wf_services s Hwf) in Hw as [_ Hin]. by apply Hin. }
  eapply ends_bind.
  { eapply ends_mono; [by apply (propagate_spec (volumeServices s) placed)|intros E2 H; exact H|].
    intros f (v & names & n & -> & Hv & Hskip & Hn & Hno). split; [done|]. intros (_ & _ & at_ & loc & Hsol).
    apply (Hno (at_ n)). apply (solvable_agreed E0 E1 placed at_ loc); try done.
    exists v. assert (Hu : uses s n v) by (unfold uses, map_get; by rewrite Hv). split; [done|].
    intros Hg. apply Hskip, Hplaced; [by apply (used_spec n)|by left]. }
  intros E2 (Hsets2 & Hco2 & Hmay2 & Hne2).
  assert (Hinit : placing E2 placed [] (mkSched 1 E2 placed ∅)).
  { split; cbn [sa_eligible sa_placed sa_scheduled]; try done.
    - intros n. by rewrite Hsets2.
    - by apply Hne2.
    - by left.
    - by intros v ?%not_elem_of_nil.
    - intros kv Hkv. change (kv ∈ []) in Hkv. by apply not_elem_of_nil in Hkv. }
  eapply ends_bind.
  { eapply ends_mono; [apply (for_each_ends_split _ (placing E2 placed) (fun _ => False)); [done|]|intros acc H; exact H|done].
    intros visited [v vs] rest acc Hsplit HI.
    assert (Hv : volumeSpecs s !! v = Some vs).
    { apply (elem_of_range_map (visit 1 2)). rewrite Hsplit. apply elem_of_app. right. left. }
    assert (Hnew : v ∉ map fst visited).
    { assert (Hnd : NoDup (map fst (range_map (visit 1 2) (volumeSpecs s)))).
      { unfold range_map. rewrite any_order_perm. apply NoDup_fst_map_to_list. }
      rewrite Hsplit, map_app in Hnd. apply NoDup_app in Hnd as (_ & Hd & _). intros Hin.
      apply (Hd v Hin). cbn [map fst]. left. }
    destruct (isVolumeForGlobalService s v) eqn:Hg.
    - by apply schedule_global_turn.
    - apply schedule_other_turn; try done. unfold global_volume. congruence. }
  intros acc HI. cbn [ends fst snd entries default]. split; [|done].
  assert (Hvisited : forall v, is_Some (volumeSpecs s !! v) -> v ∈ map fst (range_map (visit 1 2) (volumeSpecs s))).
  { intros v [vs Hv]. apply list_elem_of_fmap. exists (v, vs). split; [done|]. by apply elem_of_range_map. }
  assert (Hmay : forall sp x, sp ∈ serviceSpecs s -> may (sa_eligible acc) (SName sp) x ->
            allowed s sp x /\ has_all_existing (SName sp) x).
  { intros sp x Hsp Hx. apply (pl_narrower _ _ _ _ HI), Hmay2 in Hx. specialize (Hx _ (rtc_refl _ _)).
    apply Hmay1 in Hx as [Hx ?]. split; [by apply Hmay0|done]. }
  split.
  - apply HI.
  - intros v Hv Hg. pose proof (pl_decided _ _ _ _ HI v (Hvisited v Hv)) as Hd. unfold decided in Hd.
    rewrite (not_true_is_false _ Hg) in Hd. destruct (existingVolumeMachines s !! v); [done|].
    destruct Hd as (x & Hx & _). by exists x.
  - intros v Hg. pose proof Hg as (sp & _ & Hu & _)%global_volume_spec.
    pose proof (pl_decided _ _ _ _ HI v (Hvisited v (used_spec _ _ Hu))) as Hd. unfold decided in Hd.
    rewrite (Hg : isVolumeForGlobalService s v = true) in Hd. destruct Hd as [Hnd Hin]. split; [done|].
    intros x. rewrite Hin. split; intros [Hx (m & Hm)]; (split; [done|]).
    + destruct Hm as [Hum Hx2]. destruct (uses_named m v Hum) as (sp' & Hsp' & <-). exists sp'. split_and!; [done|done|].
      apply Hmay2 in Hx2. specialize (Hx2 _ (rtc_refl _ _)). apply Hmay1 in Hx2 as [Hx2 _]. by apply Hmay0.
    + destruct Hm as (Hm & Hum & Hal). exists (SName m). split; [done|]. apply Hmay2.
      assert (Hm0 : may E0 (SName m) x) by (by apply Hmay0).
      intros t Ht. destruct Ht as [n|n t u (w & names & Hw & Hskip & Hnw & _) _].
      * apply Hmay1. split; [done|]. intros w ws Hw Hgw Huw. exfalso.
        by apply Hgw, (only_global n v).
      * exfalso. assert (Huw : uses s n w) by (unfold uses, map_get; by rewrite Hw).
        apply Hskip, Hplaced; [by apply (used_spec n)|]. left. by apply (only_global n v).
  - intros sp Hsp Hm. destruct (proj2 (pl_sets _ _ _ _ HI (SName sp))) as [e He]; [by apply list_elem_of_fmap_2|].
    destruct (set_choose_L e (pl_nonempty _ _ _ _ HI _ e He)) as [x Hx].
    assert (Hmx : may (sa_eligible acc) (SName sp) x) by (by exists e).
    destruct (Hmay sp x Hsp Hmx) as [Hal Hex]. exists x. split; [done|]. intros v Hu.
    pose proof (replicated_volumes sp v Hns Hsp Hm Hu) as Hg.
    pose proof (pl_decided _ _ _ _ HI v (Hvisited v (used_spec _ _ Hu))) as Hd. unfold decided in Hd.
    rewrite (not_true_is_false _ Hg) in Hd. unfold existing. destruct (existingVolumeMachines s !! v) as [ms|] eqn:Hms.
    + left. by apply (Hex v ms).
    + right. destruct Hd as (y & Hids & Hy). change (x ∈ sched_ids (sa_scheduled acc) v).
      rewrite Hids, (Hy (SName sp) x); [left|done|done].
Qed.
End Schedule.

(** ** [NewVolumeScheduler] builds a well-formed scheduler *)

(** The service mounts the Docker volume [v]. *)
Definition mounts (sp : ServiceSpec) (v : string) : Prop :=
  exists k m, mounted_volumes sp !! k = Some m /\ DockerVolumeName m = v.

Definition with_volumes (specs : list ServiceSpec) : list ServiceSpec :=
  filter (fun sp => mounted_volumes sp <> ∅) specs.

Section New.
Context {HC : GoCmp} {HO : GoOrder} {Named RefError : Type} (ParseDockerRef : string -> result RefError Named).

Lemma canonical_name m : vol_Name (canonical m) = DockerVolumeName m.
Proof. apply SetDefaults_DockerVolumeName. Qed.

(** The volume maps agree with the uses [U] seen so far. *)
Record collected (U : string -> string -> Prop) (acc : vs_acc) : Prop := {
  col_dom v : is_Some (acc_services acc !! v) <-> is_Some (acc_volumes acc !! v);
  col_names v vs : acc_volumes acc !! v = Some vs -> vol_Name vs = v;
  col_nonempty v names : acc_services acc !! v = Some names -> names <> [];
  col_uses n v : n ∈ map_get (acc_services acc) v <-> U n v
}.

Lemma collected_append U n vs services volumes volumes' names specs :
  collected U (mkAcc names specs volumes services) ->
  (forall v, is_Some (volumes' !! v) <-> is_Some (volumes !! v) \/ v = vol_Name vs) ->
  (forall v w, volumes' !! v = Some w -> vol_Name w = v) ->
  collected (fun m v => U m v \/ (m = n /\ v = vol_Name vs))
    (mkAcc names specs volumes' (map_append (vol_Name vs) n services)).
Proof.
  intros [Hdom Hn Hne Hu] Hdom' Hn'. cbn [acc_services acc_volumes] in *. split; cbn [acc_services acc_volumes].
  - intros v. unfold map_append. rewrite lookup_insert_is_Some', Hdom, Hdom'. naive_solver.
  - done.
  - intros v ns. unfold map_append. intros [[_ <-]|[_ ?]]%lookup_insert_Some; [|by apply (Hne v)].
    by destruct (map_get services (vol_Name vs)).
  - intros m v. rewrite map_get_append, elem_of_app, Hu.
    destruct (decide (vol_Name vs = v)) as [<-|Hv].
    + rewrite list_elem_of_singleton. naive_solver.
    + split; [intros [?|?%not_elem_of_nil]; [by left|done]|]. intros [?|[_ ?]]; [by left|done].
Qed.

Lemma add_volume_spec U name acc m : collected U acc ->
  ends (add_volume name acc m)
    (fun acc' => collected (fun n v => U n v \/ (n = name /\ v = DockerVolumeName m)) acc' /\
       acc_names acc' = acc_names acc /\ acc_specs acc' = acc_specs acc)
    (fun f => f = GoError (VolumeRedefined (DockerVolumeName m))).
Proof.
  intros Hcol. pose proof (canonical_name m) as Hname. destruct acc as [names specs volumes services].
  unfold add_volume. cbn [acc_names acc_specs acc_volumes acc_services]. rewrite <- Hname.
  destruct (volumes !! vol_Name (canonical m)) as [seen|] eqn:Hseen.
  - destruct (negb (Volume.Equals seen (canonical m))); [done|]. cbn [ends acc_names acc_specs]. split; [|done].
    apply (collected_append U name (canonical m) services volumes); [done| |apply (col_names _ _ Hcol)].
    intros v. split; [by left|]. intros [?| ->]; [done|]. by rewrite Hseen.
  - cbn [ends acc_names acc_specs]. split; [|done].
    apply (collected_append U name (canonical m) services volumes); [done| |].
    + intros v. rewrite lookup_insert_is_Some'. naive_solver.
    + intros v w [[<- <-]|[_ ?]]%lookup_insert_Some; [done|]. by apply (col_names _ _ Hcol v).
Qed.

Lemma collected_ext U U' acc : (forall n v, U n v <-> U' n v) -> collected U acc -> collected U' acc.
Proof. intros HU [H1 H2 H3 H4]. split; [done|done|done|]. intros n v. by rewrite H4. Qed.

Lemma add_volumes_spec U name ms acc : collected U acc ->
  ends (for_each (add_volume name) acc ms)
    (fun acc' => collected (fun n v => U n v \/ (n = name /\ exists m, m ∈ ms /\ v = DockerVolumeName m)) acc' /\
       acc_names acc' = acc_names acc /\ acc_specs acc' = acc_specs acc)
    (fun f => exists v, f = GoError (VolumeRedefined v)).
Proof.
  intros Hcol.
  apply (for_each_ends _ (fun done acc' =>
    collected (fun n v => U n v \/ (n = name /\ exists m, m ∈ done /\ v = DockerVolumeName m)) acc' /\
    acc_names acc' = acc_names acc /\ acc_specs acc' = acc_specs acc)).
  - split; [|done]. eapply collected_ext; [|exact Hcol]. intros n v. split; [by left|].
    intros [?|(_ & m & ?%not_elem_of_nil & _)]; done.
  - intros visited m acc' _ (Hcol' & Hnames & Hspecs).
    eapply ends_mono; [by apply add_volume_spec| |by intros f ->; eauto].
    intros acc'' (Hcol'' & Hnames' & Hspecs'). split_and!; [|congruence|congruence].
    eapply collected_ext; [|exact Hcol'']. intros n v. cbv beta. setoid_rewrite elem_of_app.
    setoid_rewrite list_elem_of_singleton. naive_solver.
Qed.

(** What the first loop has read after the specifications [done]. *)
Record read_specs (done : list ServiceSpec) (acc : vs_acc) : Prop := {
  rs_valid sp : sp ∈ done -> service_Validate ParseDockerRef sp = Ok tt;
  rs_names n : n ∈ acc_names acc <-> n ∈ map SName done;
  rs_unique : NoDup (map SName done);
  rs_specs : acc_specs acc = with_volumes done;
  rs_volumes : collected (fun n v => exists sp, sp ∈ done /\ SName sp = n /\ mounts sp v) acc
}.

Lemma no_mounts sp : mounted_volumes sp = ∅ -> forall v, ~ mounts sp v.
Proof. intros He v (k & m & Hk & _). by rewrite He, lookup_empty in Hk. Qed.

(** The errors of the constructor. *)
Definition rejected (f : fault) : Prop :=
  match f with
  | GoError InvalidSpec | GoError (DuplicateService _) | GoError (VolumeRedefined _)
  | GoError (VolumeMismatch _ _) => True
  | _ => False
  end.

Lemma add_service_spec done acc i sp : read_specs done acc ->
  ends (add_service ParseDockerRef acc (i, sp)) (read_specs (done ++ [sp])) rejected.
Proof.
  intros [Hval Hnames Hnd Hspecs Hcol]. unfold add_service.
  destruct (service_Validate ParseDockerRef sp) as [[]|e] eqn:Hvalid; [|done].
  destruct (decide (SName sp ∈ acc_names acc)) as [Hdup|Hdup]; [done|].
  assert (Hval' : forall sp', sp' ∈ done ++ [sp] -> service_Validate ParseDockerRef sp' = Ok tt).
  { intros sp' [?| ->%list_elem_of_singleton]%elem_of_app; auto. }
  assert (Hnames' : forall n, n ∈ {[SName sp]} ∪ acc_names acc <-> n ∈ map SName (done ++ [sp])).
  { intros n. rewrite map_app, elem_of_app, elem_of_union, elem_of_singleton, Hnames.
    cbn [map]. rewrite list_elem_of_singleton. tauto. }
  assert (Hnd' : NoDup (map SName (done ++ [sp]))).
  { rewrite map_app. apply NoDup_app. split_and!; [done| |apply NoDup_singleton].
    intros n Hn ->%list_elem_of_singleton. by apply Hdup, Hnames. }
  rewrite Mounted_length. destruct (Nat.eqb_spec (size (mounted_volumes sp)) 0) as [Hz|Hz].
  - apply map_size_empty_inv in Hz. cbn [ends]. split; cbn [acc_names acc_specs]; try done.
    + unfold with_volumes. rewrite filter_app, filter_cons_False by (intros H; by apply H).
      by rewrite filter_nil, app_nil_r.
    + apply (collected_ext (fun n v => exists sp, sp ∈ done /\ SName sp = n /\ mounts sp v));
        [|by destruct Hcol; split].
      intros n v. setoid_rewrite elem_of_app. setoid_rewrite list_elem_of_singleton. split.
      * intros (sp' & ? & ?). exists sp'. tauto.
      * intros (sp' & [?| ->] & Hn & Hm); [by exists sp'|]. exfalso. by apply (no_mounts sp Hz v).
  - eapply ends_mono; [apply (add_volumes_spec (fun n v => exists sp, sp ∈ done /\ SName sp = n /\ mounts sp v))| |].
    + destruct Hcol as [H1 H2 H3 H4]. by split.
    + intros acc' (Hcol' & Hn' & Hs'). cbn [acc_names acc_specs] in *. split; [done| |done| |].
      * intros n. by rewrite Hn', Hnames'.
      * rewrite Hs', Hspecs. unfold with_volumes. rewrite filter_app, filter_cons_True, filter_nil; [done|].
        intros E. apply Hz. by rewrite E, map_size_empty.
      * eapply collected_ext; [|exact Hcol']. intros n v. cbv beta. setoid_rewrite elem_of_app.
        setoid_rewrite list_elem_of_singleton. setoid_rewrite elem_of_Mounted. unfold mounts. split.
        -- intros [(sp' & ? & ?)|(-> & m & (k & Hk) & ->)]; [exists sp'; tauto|]. exists sp. eauto 10.
        -- intros (sp' & [?| ->] & <- & k & m & Hk & <-); [left; exists sp'; eauto 10|right; eauto 10].
    + by intros f (v & ->).
Qed.

(** The machines of the existing volumes. *)
Definition found (volumes : gmap string VolumeSpec) (ms : list Machine) (v x : string) : Prop :=
  is_Some (volumes !! v) /\
  exists m vol, m ∈ ms /\ vol ∈ m_Volumes m /\ dv_Name vol = v /\ mi_Id (Info m) = x.

Definition finds (volumes : gmap string VolumeSpec) (F : string -> string -> Prop) (existing : machine_sets) : Prop :=
  (forall v ms, existing !! v = Some ms -> ms <> ∅ /\ is_Some (volumes !! v)) /\
  forall v x, x ∈ default ∅ (existing !! v) <-> F v x.

Lemma add_existing_spec volumes m F existing vol : finds volumes F existing ->
  ends (add_existing volumes m existing vol)
    (finds volumes (fun v x => F v x \/ (is_Some (volumes !! v) /\ dv_Name vol = v /\ mi_Id (Info m) = x))) rejected.
Proof.
  intros [Hne HF]. unfold add_existing. destruct (volumes !! dv_Name vol) as [vs|] eqn:Hvs.
  2:{ cbn [ends]. split; [done|]. intros v x. rewrite HF. split; [by left|].
      intros [?|(Hs & <- & _)]; [done|]. rewrite Hvs in Hs. by destruct Hs. }
  destruct (negb (MatchesDockerVolume vs vol)); [done|]. cbn [ends]. split.
  - intros v ms [[<- <-]|[_ ?]]%lookup_insert_Some; [|by apply Hne]. split; [|by rewrite Hvs].
    intros E. apply (not_elem_of_empty (C := gset string) (mi_Id (Info m))). rewrite <- E. set_solver.
  - intros v x. destruct (decide (dv_Name vol = v)) as [<-|Hv].
    + rewrite lookup_insert_eq. change (default ∅ (Some ?y)) with y.
      rewrite elem_of_union, elem_of_singleton, HF, Hvs. split; [naive_solver|].
      intros [?|(_ & _ & <-)]; [by right|by left].
    + rewrite lookup_insert_ne, HF by done. split; [by left|]. intros [?|(_ & ? & _)]; done.
Qed.

Lemma finds_ext volumes F F' existing : (forall v x, F v x <-> F' v x) -> finds volumes F existing -> finds volumes F' existing.
Proof. intros HF [H1 H2]. split; [done|]. intros v x. by rewrite H2. Qed.

Lemma all_existing_spec volumes ms :
  ends (for_each (fun existing m => for_each (add_existing volumes m) existing (m_Volumes m)) ∅ ms)
    (finds volumes (found volumes ms)) rejected.
Proof.
  apply (for_each_ends _ (fun done => finds volumes (found volumes done))).
  - split; [intros v ? H; by rewrite lookup_empty in H|]. intros v x. rewrite lookup_empty.
    split; [by intros ?%not_elem_of_empty|]. by intros (_ & m & vol & ?%not_elem_of_nil & _).
  - intros done m existing _ Hf.
    eapply ends_mono; [apply (for_each_ends _ (fun vols => finds volumes (fun v x => found volumes done v x \/
      (is_Some (volumes !! v) /\ exists vol, vol ∈ vols /\ dv_Name vol = v /\ mi_Id (Info m) = x))) rejected)| |auto].
    + eapply finds_ext; [|exact Hf]. intros v x. split; [by left|].
      intros [?|(_ & vol & ?%not_elem_of_nil & _)]; done.
    + intros vols vol ex _ Hex. eapply ends_mono; [by apply add_existing_spec| |auto].
      intros ex'. apply finds_ext. intros v x. cbv beta. setoid_rewrite elem_of_app.
      setoid_rewrite list_elem_of_singleton. naive_solver.
    + intros ex. apply finds_ext. intros v x. unfold found. setoid_rewrite elem_of_app.
      split.
      * intros [(? & m' & vol & ? & ?)|(? & vol & ?)]; (split; [done|]); [exists m', vol|exists m, vol].
        -- tauto.
        -- rewrite list_elem_of_singleton. tauto.
      * intros (? & m' & vol & [?| ->%list_elem_of_singleton] & ?); [left|right]; eauto 10.
Qed.

(** The scheduler knows the services with volumes, which volumes they mount and where
    these exist. *)
Record describes (state : ClusterState) (specs : list ServiceSpec) (s : VolumeScheduler) : Prop := {
  ds_state : vs_state s = state;
  ds_valid sp : sp ∈ specs -> service_Validate ParseDockerRef sp = Ok tt;
  ds_unique : NoDup (map SName specs);
  ds_specs : serviceSpecs s = with_volumes specs;
  ds_uses n v : uses s n v <-> exists sp, sp ∈ specs /\ SName sp = n /\ mounts sp v;
  ds_existing v x : x ∈ existing s v <->
    (exists n, uses s n v) /\
    exists m vol, m ∈ state_Machines state /\ vol ∈ m_Volumes m /\ dv_Name vol = v /\ mi_Id (Info m) = x
}.

Lemma map_snd_imap {A} (l : list A) : map snd (imap pair l) = l.
Proof.
  change (snd <$> imap pair l = l). rewrite fmap_imap. apply list_eq. intros i. rewrite list_lookup_imap.
  by destruct (l !! i).
Qed.

Lemma NewVolumeScheduler_spec state specs :
  ends (NewVolumeScheduler ParseDockerRef state specs)
    (fun s => well_formed s /\ describes state specs s) rejected.
Proof.
  unfold NewVolumeScheduler.
  eapply ends_bind.
  { apply (for_each_ends _ (fun done => read_specs (map snd done)) rejected).
    - split; [by intros sp ?%not_elem_of_nil| |constructor|done|].
      { intros n. split; [by intros ?%not_elem_of_empty|by intros ?%not_elem_of_nil]. }
      split; cbn [acc_services acc_volumes].
      + intros v. rewrite !lookup_empty. done.
      + intros v vs H. by rewrite lookup_empty in H.
      + intros v vs H. by rewrite lookup_empty in H.
      + intros n v. unfold map_get. rewrite lookup_empty. split; [by intros ?%not_elem_of_nil|].
        by intros (sp & ?%not_elem_of_nil & _).
    - intros done [i sp] acc _ Hr. rewrite map_app. by apply add_service_spec. }
  rewrite map_snd_imap. intros acc [Hval Hnames Hnd Hspecs [Hdom Hvn Hne Hu]].
  eapply ends_bind; [apply all_existing_spec|]. intros ex [Hex Hfound]. cbn [ends].
  assert (Hsome : forall v, is_Some (acc_volumes acc !! v) <-> exists n, n ∈ map_get (acc_services acc) v).
  { intros v. rewrite <- Hdom. unfold map_get. split.
    - intros [names Hn]. pose proof (Hne v names Hn). destruct names as [|n names]; [done|]. exists n. rewrite Hn. left.
    - intros [n Hn]. destruct (acc_services acc !! v); [eauto|by apply not_elem_of_nil in Hn]. }
  split.
  - split; cbn [serviceSpecs volumeServices volumeSpecs existingVolumeMachines]; try done.
    + rewrite Hspecs. unfold with_volumes. apply (sublist_NoDup _ (map SName specs)); [done|].
      apply (fmap_sublist SName), sublist_filter.
    + intros v names Hn. split; [by apply (Hne v)|]. intros n Hin.
      assert (Hmem : n ∈ map_get (acc_services acc) v) by (unfold map_get; by rewrite Hn).
      apply Hu in Hmem as (sp & Hsp & <- & Hm). rewrite Hspecs. apply list_elem_of_fmap_2.
      apply list_elem_of_filter. split; [|done]. intros E. by apply (no_mounts sp E v).
  - split; cbn [vs_state serviceSpecs]; try done.
    intros v x. unfold existing, uses. cbn [existingVolumeMachines volumeServices]. rewrite Hfound.
    unfold found. by rewrite Hsome.
Qed.
End New.

(** The outcome of building the scheduler and running it. *)
Lemma volume_schedule_outcome {HC : GoCmp} {HO : GoOrder} {Named RefError}
  (ParseDockerRef : string -> result RefError Named) (state : ClusterState) (specs : list ServiceSpec) :
  ends (NewVolumeScheduler ParseDockerRef state specs)
    (fun s => describes ParseDockerRef state specs s /\
       ends (Schedule s)
         (fun res => solution s (entries res.1) /\
            res.2 = match res.1 with None => state | Some scheduled => update_state scheduled state end)
         (fun f => scheduling_error f /\ ~ solvable s))
    rejected.
Proof.
  eapply ends_mono; [apply NewVolumeScheduler_spec| |auto]. intros s [Hwf Hds]. split; [done|].
  rewrite <- (ds_state _ _ _ _ Hds). by apply Schedule_spec.
Qed.

(** ** Properties *)

(** C2: the volume scheduler is sound and complete, whatever orders the ranges over its maps
    take.  The constructor rejects the specifications or builds a scheduler that knows exactly
    which services mount which Docker volumes and where these exist.  [Schedule] then either
    puts every missing volume of replicated services on exactly one machine (and existing ones
    nowhere), every volume of global services once on each allowed machine that lacks it, and
    leaves every replicated service an allowed machine with all its volumes; or it fails, and
    then no assignment of services and volumes to machines exists.  It never panics, never
    exhausts the bound of its convergence loop and never reports a detected bug. *)
Theorem volume_schedule_correct {HC : GoCmp} {HO : GoOrder} {Named RefError}
  (ParseDockerRef : string -> result RefError Named) (state : ClusterState) (specs : list ServiceSpec) :
  ends (NewVolumeScheduler ParseDockerRef state specs)
    (fun s => describes ParseDockerRef state specs s /\
       ends (Schedule s)
         (fun res => solution s (entries res.1) /\
            res.2 = match res.1 with None => state | Some scheduled => update_state scheduled state end)
         (fun f => scheduling_error f /\ ~ solvable s))
    rejected.
Proof. apply volume_schedule_outcome. Qed.

(** C6: the convergence loop terminates within its bound and its outcome does not depend on
    the order of its map ranges.  Either every service ends up with exactly the machines that
    all services connected to it by unplaced volumes allow, the services of an unplaced volume
    all with the same set, and then every service of an unplaced volume has such a machine; or
    it fails, and then some unplaced volume is used by services none of whose machines all the
    services connected to them allow.  The two exclude each other, so it fails exactly when
    such a volume exists. *)
Theorem propagation_converges {HO : GoOrder} (call : nat) (s : VolumeScheduler)
  (eligible : machine_sets) (skip : gset string) :
  known (volumeServices s) eligible ->
  match propagateConstraintsUntilConvergence call s eligible skip with
  | Ok eligible' =>
      (forall n, is_Some (eligible' !! n) <-> is_Some (eligible !! n)) /\
      (forall v, v ∉ skip -> co_located (volumeServices s) eligible' v) /\
      (forall n x, may eligible' n x <-> agreed (volumeServices s) skip eligible n x) /\
      forall v names n, volumeServices s !! v = Some names -> v ∉ skip -> n ∈ names ->
        exists x, agreed (volumeServices s) skip eligible n x
  | Err f => no_common (volumeServices s) skip eligible f
  end.
Proof.
  intros Hk. pose proof (propagate_settles (volumeServices s) skip call eligible Hk) as Hspec.
  unfold propagateConstraintsUntilConvergence. destruct (propagate_rounds _ _ _ _ _); [|done].
  destruct Hspec as (H1 & H2 & H3 & _). split_and!; [done|by apply H2|done|].
  intros v names n Hv Hs Hn. destruct (H2 v Hs) as [_ Hx]. destruct (Hx names n Hv Hn) as [x ?].
  exists x. by apply H3.
Qed.

(** Three services chained by two shared volumes. *)
Definition chained : VolumeScheduler :=
  mkVS (mkState []) [] ∅ {[ "v" := ["a"; "b"]; "w" := ["b"; "c"] ]} ∅.
Definition chained_sets : machine_sets :=
  {[ "a" := {[ "m1"; "m2" ]}; "b" := {[ "m2"; "m3"; "m4" ]}; "c" := {[ "m2"; "m4" ]} ]}.

Lemma propagation_converges_witness :
  exists eligible', @propagateConstraintsUntilConvergence go_identity_order 0 chained chained_sets ∅ = Ok eligible' /\
    forall n x, may eligible' n x <-> agreed (volumeServices chained) ∅ chained_sets n x.
Proof.
  assert (Hk : known (volumeServices chained) chained_sets).
  { intros v names n. unfold chained. cbn [volumeServices].
    intros [[_ <-]|[_ [_ <-]%lookup_singleton_Some]]%lookup_insert_Some Hn;
      (apply elem_of_cons in Hn as [->|Hn]; [by apply (bool_decide_unpack _)|];
       apply elem_of_cons in Hn as [->|Hn]; [by apply (bool_decide_unpack _)|]; by apply not_elem_of_nil in Hn). }
  pose proof (@propagation_converges go_identity_order 0 chained chained_sets ∅ Hk) as H.
  destruct (@propagateConstraintsUntilConvergence go_identity_order 0 chained chained_sets ∅) as [el|f] eqn:E;
    [|by vm_compute in E].
  exists el. split; [reflexivity|]. apply (proj2 (proj2 H)).
Defined.
