(* ===== verification/SpecChange.v ===== *)
(** * SpecChange: does a container match a specification, [pkg/client/deploy/container.go]

    [EvalContainerSpecChange] compares the specification a container was created from with
    the desired one. Values are immutable here: the program sorts the volumes of its own
    copies, and the configs in place, which changes no comparison. *)

From S2P Require Import Prelude GoStrings Port Volume ConfigSpec Spec.
#[local] Open Scope string_scope.

Inductive ContainerSpecStatus := ContainerUpToDate | ContainerNeedsUpdate | ContainerNeedsRecreate.

#[global] Instance ContainerSpecStatus_eq_dec : EqDecision ContainerSpecStatus.
Proof. solve_decision. Defined.

(** [CaddySpec.Equals], [pkg/api/caddy.go] *)
Definition caddy_Equals (c other : option CaddySpec) : bool :=
  match c with
  | None => match other with None => true | Some o => String.eqb (trim_space (caddy_Config o)) "" end
  | Some c =>
      match other with
      | None => String.eqb (trim_space (caddy_Config c)) ""
      | Some o => String.eqb (trim_space (caddy_Config c)) (trim_space (caddy_Config o))
      end
  end.

#[export] Instance norm_Placement : EquateEmpty Placement := fun p => mkPlacement (norm_slice id (Machines p)).

Definition with_resources (s : ContainerSpec) (r : ContainerResources) (pull : string) : ContainerSpec :=
  mkContainerSpec (CapAdd s) (CapDrop s) (Command s) (Entrypoint s) (Env s) (Healthcheck s)
    (Image s) (Init s) (LogDriver_ s) (PidMode s) (Tty s) (OpenStdin s) (Privileged s) pull r
    (StopGracePeriod s) (Sysctls s) (User s) (VolumeMounts s) (ConfigMounts s) (CVolumes s).

Section Eval.
Context `{GoSort, GoCmp}.

Definition sortVolumes (vs : list VolumeSpec) : list VolumeSpec :=
  sort_slice (fun a b => String.ltb (vol_Name a) (vol_Name b)) vs.
Definition sortConfigs (cs : list ConfigSpec) : list ConfigSpec :=
  sort_slice (fun a b => String.ltb (cfg_Name a) (cfg_Name b)) cs.

(** The index loop over two slices of the same length. *)
Fixpoint all2 {A} (eq : A -> A -> bool) (l1 l2 : list A) : bool :=
  match l1, l2 with
  | x :: l1', y :: l2' => eq x y && all2 eq l1' l2'
  | _, _ => true
  end.

Definition volumes_same (c n : list VolumeSpec) : bool :=
  Nat.eqb (length c) (length n) && all2 Volume.Equals (sortVolumes c) (sortVolumes n).
Definition configs_same (c n : list ConfigSpec) : bool :=
  Nat.eqb (length c) (length n) && all2 config_Equals (sortConfigs c) (sortConfigs n).

Definition EvalContainerSpecChange (current new : ServiceSpec) : ContainerSpecStatus :=
  let current := service_SetDefaults current in
  let new := service_SetDefaults new in
  if negb (String.eqb (SMode current) (SMode new)) then ContainerNeedsRecreate
  else if negb (String.eqb (SName current) (SName new)) then ContainerNeedsRecreate
  else if String.eqb (PullPolicy (Container_ new)) PullPolicyAlways then ContainerNeedsRecreate
  else
    let res := Resources (Container_ current) in
    let newResources := Resources (Container_ new) in
    let newContainer := with_resources (Container_ new) res (PullPolicy (Container_ current)) in
    if negb (container_Equals (Container_ current) newContainer) then ContainerNeedsRecreate
    else if negb (cmp_equal (Placement_ current) (Placement_ new)) then ContainerNeedsRecreate
    else if negb (PortsEqual (els (Ports current)) (els (Ports new))) then ContainerNeedsRecreate
    else if negb (volumes_same (els (Volumes current)) (els (Volumes new))) then ContainerNeedsRecreate
    else if negb (configs_same (els (Configs current)) (els (Configs new))) then ContainerNeedsRecreate
    else if negb (bool_decide (DeviceReservations res = DeviceReservations newResources))
    then ContainerNeedsRecreate
    else if negb (bool_decide (Devices res = Devices newResources)) then ContainerNeedsRecreate
    else if negb (bool_decide (Ulimits res = Ulimits newResources)) then ContainerNeedsRecreate
    else if negb (caddy_Equals (Caddy current) (Caddy new)) then ContainerNeedsRecreate
    else if negb (bool_decide (res = newResources)) then ContainerNeedsUpdate
    else ContainerUpToDate.

(** ** Lemmas *)

(** The immutable part of the specifications agrees. *)
Definition same_immutable (current new : ServiceSpec) : Prop :=
  let c := service_SetDefaults current in
  let n := service_SetDefaults new in
  SMode c = SMode n /\ SName c = SName n /\ PullPolicy (Container_ n) <> PullPolicyAlways /\
  container_Equals (Container_ c)
    (with_resources (Container_ n) (Resources (Container_ c)) (PullPolicy (Container_ c))) = true /\
  norm (Placement_ c) = norm (Placement_ n) /\
  PortsEqual (els (Ports c)) (els (Ports n)) = true /\
  volumes_same (els (Volumes c)) (els (Volumes n)) = true /\
  configs_same (els (Configs c)) (els (Configs n)) = true /\
  DeviceReservations (Resources (Container_ c)) = DeviceReservations (Resources (Container_ n)) /\
  Devices (Resources (Container_ c)) = Devices (Resources (Container_ n)) /\
  Ulimits (Resources (Container_ c)) = Ulimits (Resources (Container_ n)) /\
  caddy_Equals (Caddy c) (Caddy n) = true.

(** A verdict of recreation: some conjunct of the characterisation fails. *)
Ltac rejected := solve [split; split; intuition congruence].

Lemma Eval_iff current new :
  (EvalContainerSpecChange current new <> ContainerNeedsRecreate <-> same_immutable current new) /\
  (EvalContainerSpecChange current new = ContainerUpToDate <->
     same_immutable current new /\
     Resources (Container_ (service_SetDefaults current)) = Resources (Container_ (service_SetDefaults new))).
Proof.
  unfold EvalContainerSpecChange, same_immutable.
  set (c := service_SetDefaults current). set (n := service_SetDefaults new).
  clearbody c n. set (eqc := container_Equals (Container_ c) _). cbv zeta.
  rewrite <- (cmp_equal_spec Placement (Placement_ c) (Placement_ n)).
  destruct (String.eqb_spec (SMode c) (SMode n)); cbn [negb]; [|rejected].
  destruct (String.eqb_spec (SName c) (SName n)); cbn [negb]; [|rejected].
  destruct (String.eqb_spec (PullPolicy (Container_ n)) PullPolicyAlways); cbn [negb];
    [rejected|].
  destruct eqc; cbn [negb]; [|rejected].
  destruct (cmp_equal (Placement_ c) (Placement_ n)); cbn [negb];
    [|rejected].
  destruct (PortsEqual _ _); cbn [negb]; [|rejected].
  destruct (volumes_same _ _); cbn [negb]; [|rejected].
  destruct (configs_same _ _); cbn [negb]; [|rejected].
  do 3 (case_bool_decide; cbn [negb]; [|rejected]).
  destruct (caddy_Equals _ _); cbn [negb]; [|rejected].
  case_bool_decide; cbn [negb]; split; split; done || tauto.
Qed.

Lemma all2_refl {A} (eq : A -> A -> bool) l : (forall x, eq x x = true) -> all2 eq l l = true.
Proof. intros Heq. induction l; simpl; [done|]. by rewrite Heq. Qed.

Lemma volumes_same_refl vs : volumes_same vs vs = true.
Proof.
  unfold volumes_same. rewrite Nat.eqb_refl. apply all2_refl. intros v. by apply Equals_spec.
Qed.

Lemma configs_same_refl cs : configs_same cs cs = true.
Proof.
  unfold configs_same. rewrite Nat.eqb_refl. apply all2_refl. intros c.
  unfold config_Equals. by rewrite !String.eqb_refl.
Qed.

Lemma caddy_Equals_refl c : caddy_Equals c c = true.
Proof. destruct c; simpl; [apply String.eqb_refl|done]. Qed.

Lemma PortsEqual_refl ps : Forall (fun p => Port.Validate p = Ok tt) ps -> PortsEqual ps ps = true.
Proof.
  intros Hv. apply all_print in Hv as [ss Hss]. unfold PortsEqual. rewrite Nat.eqb_refl. simpl.
  rewrite (proj2 (serialise_Some ps ps ss ss eq_refl) (conj Hss Hss)). by apply bool_decide_eq_true.
Qed.

Lemma with_resources_self s : with_resources s (Resources s) (PullPolicy s) = s.
Proof. by destruct s. Qed.

Lemma container_Equals_refl c : container_Equals c c = true.
Proof. by apply container_Equals_spec. Qed.

Lemma Eval_refl s : Forall (fun p => Port.Validate p = Ok tt) (els (Ports s)) ->
  PullPolicy (Container_ s) <> PullPolicyAlways ->
  EvalContainerSpecChange s s = ContainerUpToDate.
Proof.
  intros Hp Hpull. apply Eval_iff. split; [|done]. unfold same_immutable. cbv zeta.
  rewrite with_resources_self. split_and!; try done.
  - simpl. by destruct (String.eqb_spec (PullPolicy (Container_ s)) "").
  - apply container_Equals_refl.
  - simpl. rewrite clone_slice_eq. by apply PortsEqual_refl.
  - apply volumes_same_refl.
  - apply configs_same_refl.
  - apply caddy_Equals_refl.
Qed.

End Eval.

(** The resources Docker can change on a running container. *)
Definition same_mutable_resources (r1 r2 : ContainerResources) : Prop :=
  CPU r1 = CPU r2 /\ Memory r1 = Memory r2 /\ MemoryReservation r1 = MemoryReservation r2 /\
  SharedMemory r1 = SharedMemory r2.

(** ** Properties *)

(** Redeploying an unchanged specification is a no-op for the container: compared with
    itself, every specification whose ports are valid and whose pull policy is not "always"
    is up to date; "up to date" means that the immutable parts agree and all resources are
    the same, and the verdict "needs update" is given exactly when the immutable parts agree
    and one of CPU, memory, memory reservation and shared memory differs. *)
Lemma EvalContainerSpecChange_verdicts `{GoSort, GoCmp} (current new : ServiceSpec) :
  (Forall (fun p => Port.Validate p = Ok tt) (els (Ports new)) ->
   PullPolicy (Container_ new) <> PullPolicyAlways ->
   EvalContainerSpecChange new new = ContainerUpToDate) /\
  (EvalContainerSpecChange current new = ContainerUpToDate <->
     same_immutable current new /\
     same_mutable_resources (Resources (Container_ current)) (Resources (Container_ new))) /\
  (EvalContainerSpecChange current new = ContainerNeedsUpdate <->
     same_immutable current new /\
     ~ same_mutable_resources (Resources (Container_ current)) (Resources (Container_ new))) /\
  (EvalContainerSpecChange current new = ContainerNeedsRecreate <-> ~ same_immutable current new).
Proof.
  destruct (Eval_iff current new) as [Hr Hu].
  assert (Hres : forall s, Resources (Container_ (service_SetDefaults s)) = Resources (Container_ s)).
  { intros s. unfold service_SetDefaults, service_Clone, container_SetDefaults. cbn [Container_].
    by rewrite !clone_container_eq. }
  assert (Hmut : same_immutable current new ->
            (Resources (Container_ current) = Resources (Container_ new) <->
             same_mutable_resources (Resources (Container_ current)) (Resources (Container_ new)))).
  { intros (_ & _ & _ & _ & _ & _ & _ & _ & H1 & H2 & H3 & _). rewrite !Hres in *.
    unfold same_mutable_resources.
    destruct (Resources (Container_ current)), (Resources (Container_ new)); simpl in *. split.
    - by intros [= -> -> -> -> -> -> ->].
    - intros (-> & -> & -> & ->). congruence. }
  rewrite !Hres in Hu. split; [apply Eval_refl|].
  clear Hres. revert Hr Hu Hmut.
  generalize (EvalContainerSpecChange current new), (same_immutable current new),
    (same_mutable_resources (Resources (Container_ current)) (Resources (Container_ new))),
    (Resources (Container_ current) = Resources (Container_ new)).
  intros st P M R Hr Hu Hmut.
  assert (HP : st <> ContainerNeedsRecreate <-> P) by exact Hr.
  destruct st; intuition congruence.
Qed.

