(* ===== verification/Operation.v ===== *)
(** * Operation: the operations of a plan and their execution, [pkg/client/deploy/operation]

    A plan is a sequence of operations on the containers and volumes of the machines.  They
    are executed against a [Client], an interface of state-passing operations over the
    cluster; [logged] records the calls an execution makes, in order and with their outcome,
    and the theorems are about these logs. Progress output and formatting are left out. *)

From S2P Require Import Prelude GoStrings Volume ConfigSpec Spec Container.
#[local] Open Scope string_scope.

Inductive Operation :=
| RunContainerOperation (serviceID : string) (sp : ServiceSpec) (machineID machineName : string)
    (skipHealthMonitor : bool)
| StopContainerOperation (serviceID containerID machineID machineName : string) (grace : option Z)
| RemoveContainerOperation (machineID machineName : string) (container : ServiceContainer)
    (grace : option Z)
| ReplaceContainerOperation (serviceID : string) (sp : ServiceSpec) (machineID machineName : string)
    (old : ServiceContainer) (order : string) (skipHealthMonitor : bool) (grace : option Z)
| CreateVolumeOperation (volume : VolumeSpec) (machineID machineName : string)
| StopPreDeployOperation (machineID machineName : string) (container : ServiceContainer)
| RunPreDeployOperation (serviceID : string) (sp : ServiceSpec) (machineID machineName : string)
    (oldContainerIDs : list string).

(** ** The client *)

(** [volume.CreateOptions] *)
Record CreateOptions := mkCreateOptions {
  co_Name : string; co_Driver : string; co_DriverOpts : gomap string; co_Labels : gomap string
}.

(** The operations of the cluster client over a world [W], with errors [E].  Creating a
    container returns its ID, inspecting one its running state and exit code. *)
Record Client (W E : Type) := mkClient {
  cl_create : string -> ServiceSpec -> string -> W -> W * result E string;
  cl_create_hook : string -> ServiceSpec -> string -> W -> W * result E string;
  cl_start : string -> string -> W -> W * result E unit;
  cl_stop : string -> string -> option Z -> W -> W * result E unit;
  cl_remove : string -> string -> W -> W * result E unit;
  cl_wait_healthy : string -> string -> option Z -> W -> W * result E unit;
  cl_inspect : string -> string -> W -> W * result E (bool * Z);
  cl_create_volume : string -> CreateOptions -> W -> W * result E unit;
  is_not_found : E -> bool
}.
Arguments mkClient {W E}.
Arguments cl_create {W E}. Arguments cl_create_hook {W E}. Arguments cl_start {W E}.
Arguments cl_stop {W E}. Arguments cl_remove {W E}. Arguments cl_wait_healthy {W E}.
Arguments cl_inspect {W E}. Arguments cl_create_volume {W E}. Arguments is_not_found {W E}.

(** ** Execution *)
Section Execute.
Context {W E : Type} (cli : Client W E).

Inductive op_error :=
| CreateFailed (e : E) | StartFailed (e : E) | StopFailed (e : E) | RemoveFailed (e : E)
| InspectFailed (e : E) | CreateVolumeFailed (e : E)
| InvalidVolumeType (type : string)
| ContainerHealthError (containerID : string) (e : E) (rollback : option (option E))
| PreDeployFailed (containerID : string) (exitCode : Z)
| PreDeployTimeout (containerID : string)
| PreDeployCancelled (containerID : string).

(** Sequencing of fallible calls: the first error ends the operation. *)
Definition act (A : Type) : Type := W -> W * result op_error A.

Definition ret {A} (a : A) : act A := fun w => (w, Ok a).
Definition throw {A} (e : op_error) : act A := fun w => (w, Err e).
Definition bind {A B} (m : act A) (k : A -> act B) : act B := fun w =>
  match m w with
  | (w', Ok a) => k a w'
  | (w', Err e) => (w', Err e)
  end.
Definition call {A} (wrap : E -> op_error) (m : W -> W * result E A) : act A := fun w =>
  match m w with
  | (w', Ok a) => (w', Ok a)
  | (w', Err e) => (w', Err (wrap e))
  end.
(** A call whose error is looked at, or ignored. *)
Definition try {A} (m : W -> W * result E A) : act (result E A) := fun w =>
  match m w with (w', r) => (w', Ok r) end.

#[local] Notation "x <- m ;; k" := (bind m (fun x => k)) (at level 90, m at next level, right associativity).

(** [stopOptions]: the timeout in whole seconds. *)
Definition stopOptions (grace : option Z) : option Z :=
  match grace with None => None | Some d => Some (Z.quot d 1000000000) end.

Definition execute_run (serviceID : string) (sp : ServiceSpec) (machineID : string) (skip : bool) : act unit :=
  id <- call CreateFailed (cl_create cli serviceID sp machineID);;
  _ <- call StartFailed (cl_start cli serviceID id);;
  if skip then ret tt
  else call (fun e => ContainerHealthError id e None)
         (cl_wait_healthy cli serviceID id (MonitorPeriod (UpdateConfig_ sp))).

Definition execute_stop (serviceID containerID : string) (grace : option Z) : act unit :=
  call StopFailed (cl_stop cli serviceID containerID (stopOptions grace)).

Definition execute_remove (container : ServiceContainer) (grace : option Z) : act unit :=
  _ <- call StopFailed (cl_stop cli (ServiceID container) (ID (ctr container)) (stopOptions grace));;
  call RemoveFailed (cl_remove cli (ServiceID container) (ID (ctr container))).

(** The steps of a replacement before the new container is created: for stop-first, stop
    the old container if it is running, and remember that it was. *)
Definition stop_old (serviceID : string) (old : ServiceContainer) (stopFirst : bool) (grace : option Z) :
  act bool :=
  if stopFirst then
    st <- call InspectFailed (cl_inspect cli serviceID (ID (ctr old)));;
    if fst st then
      _ <- call StopFailed (cl_stop cli serviceID (ID (ctr old)) (stopOptions grace));;
      ret true
    else ret false
  else ret false.

(** The new container is not healthy: stop it, restart the old one if it was stopped. *)
Definition roll_back (serviceID newID : string) (old : ServiceContainer) (restart : bool)
  (grace : option Z) (e : E) : act unit :=
  _ <- try (cl_stop cli serviceID newID (stopOptions grace));;
  if restart then
    r <- try (cl_start cli serviceID (ID (ctr old)));;
    throw (ContainerHealthError newID e
             (Some (match r with Ok _ => None | Err e' => Some e' end)))
  else throw (ContainerHealthError newID e None).

Definition execute_replace (serviceID : string) (sp : ServiceSpec) (machineID : string)
  (old : ServiceContainer) (order : string) (skip : bool) (grace : option Z) : act unit :=
  let stopFirst := String.eqb order UpdateOrderStopFirst in
  wasRunning <- stop_old serviceID old stopFirst grace;;
  newID <- call CreateFailed (cl_create cli serviceID sp machineID);;
  _ <- call StartFailed (cl_start cli serviceID newID);;
  healthy <- (if skip then ret (Ok tt)
              else try (cl_wait_healthy cli serviceID newID (MonitorPeriod (UpdateConfig_ sp))));;
  match healthy with
  | Err e => roll_back serviceID newID old (stopFirst && wasRunning) grace e
  | Ok _ =>
      _ <- (if negb stopFirst
            then call StopFailed (cl_stop cli serviceID (ID (ctr old)) (stopOptions grace))
            else ret tt);;
      call RemoveFailed (cl_remove cli serviceID (ID (ctr old)))
  end.

Definition volume_options_of (v : VolumeSpec) : CreateOptions :=
  match vol_Options v with
  | None => mkCreateOptions (DockerVolumeName v) "" None None
  | Some o =>
      match vopt_Driver o with
      | Some d => mkCreateOptions (DockerVolumeName v) (driver_Name d) (driver_Options d) (vopt_Labels o)
      | None => mkCreateOptions (DockerVolumeName v) "" None (vopt_Labels o)
      end
  end.

Definition execute_create_volume (v : VolumeSpec) (machineID : string) : act unit :=
  if negb (String.eqb (vol_Type v) VolumeTypeVolume) then throw (InvalidVolumeType (vol_Type v))
  else call CreateVolumeFailed (cl_create_volume cli machineID (volume_options_of v)).

Definition execute_stop_predeploy (container : ServiceContainer) : act unit :=
  r <- try (cl_stop cli (ServiceID container) (ID (ctr container)) None);;
  match r with
  | Ok _ => ret tt
  | Err e => if is_not_found cli e then ret tt else throw (StopFailed e)
  end.

(** The loop that removes the hook containers of previous deployments. *)
Fixpoint remove_old_hooks (serviceID : string) (ids : list string) : act unit :=
  match ids with
  | [] => ret tt
  | id :: rest =>
      _ <- try (cl_stop cli serviceID id None);;
      r <- try (cl_remove cli serviceID id);;
      match r with
      | Ok _ => remove_old_hooks serviceID rest
      | Err e => if is_not_found cli e then remove_old_hooks serviceID rest else throw (RemoveFailed e)
      end
  end.

(** What [waitForExit]'s select receives next: a tick of the poll, or the end of its
    context, by cancellation of the parent or by the timeout. *)
Inductive wait_event := Tick | ContextDone (cancelled : bool).

(** Polling until the container exits; the result is [None] while the events do not end it. *)
Fixpoint waitForExit (serviceID id : string) (events : list wait_event) (w : W) :
  option (W * result op_error unit) :=
  match events with
  | [] => None
  | ContextDone cancelled :: _ =>
      let w' := fst (cl_stop cli serviceID id None w) in
      Some (w', Err (if cancelled then PreDeployCancelled id else PreDeployTimeout id))
  | Tick :: rest =>
      match cl_inspect cli serviceID id w with
      | (w', Err e) => Some (w', Err (InspectFailed e))
      | (w', Ok (running, exitCode)) =>
          if running then waitForExit serviceID id rest w'
          else if (exitCode =? 0)%Z then Some (w', Ok tt)
          else Some (w', Err (PreDeployFailed id exitCode))
      end
  end.

Definition start_hook (serviceID : string) (sp : ServiceSpec) (machineID : string) (oldIDs : list string) :
  act string :=
  _ <- remove_old_hooks serviceID oldIDs;;
  id <- call CreateFailed (cl_create_hook cli serviceID sp machineID);;
  _ <- call StartFailed (cl_start cli serviceID id);;
  ret id.

Definition execute_predeploy (serviceID : string) (sp : ServiceSpec) (machineID : string)
  (oldIDs : list string) (events : list wait_event) (w : W) : option (W * result op_error unit) :=
  match start_hook serviceID sp machineID oldIDs w with
  | (w', Err e) => Some (w', Err e)
  | (w', Ok id) => waitForExit serviceID id events w'
  end.

(** [events] is what a pre-deploy hook waits on; the other operations do not use it. *)
Definition Execute (op : Operation) (events : list wait_event) (w : W) : option (W * result op_error unit) :=
  match op with
  | RunContainerOperation sid sp mid _ skip => Some (execute_run sid sp mid skip w)
  | StopContainerOperation sid cid _ _ grace => Some (execute_stop sid cid grace w)
  | RemoveContainerOperation _ _ c grace => Some (execute_remove c grace w)
  | ReplaceContainerOperation sid sp mid _ old order skip grace =>
      Some (execute_replace sid sp mid old order skip grace w)
  | CreateVolumeOperation v mid _ => Some (execute_create_volume v mid w)
  | StopPreDeployOperation _ _ c => Some (execute_stop_predeploy c w)
  | RunPreDeployOperation sid sp mid _ oldIDs => execute_predeploy sid sp mid oldIDs events w
  end.

(** [SequenceOperation.Execute]: the first error ends the sequence. *)
Fixpoint execute_sequence (ops : list Operation) (events : list wait_event) (w : W) :
  option (W * result op_error unit) :=
  match ops with
  | [] => Some (w, Ok tt)
  | op :: rest =>
      match Execute op events w with
      | Some (w', Ok _) => execute_sequence rest events w'
      | r => r
      end
  end.
End Execute.
Arguments op_error : clear implicits.

(** ** Logs of calls *)
Inductive Call :=
| CCreate (serviceID : string) (sp : ServiceSpec) (machineID : string) (id : option string)  (* the new container, if created *)
| CCreateHook (serviceID : string) (sp : ServiceSpec) (machineID : string) (id : option string)
| CStart (serviceID id : string) (ok : bool)
| CStop (serviceID id : string) (timeout : option Z) (ok : bool)
| CRemove (serviceID id : string) (ok : bool)
| CWait (serviceID id : string) (period : option Z) (ok : bool)
| CInspect (serviceID id : string) (running : option bool)
| CCreateVolume (machineID : string) (opts : CreateOptions) (ok : bool).

Section Logged.
Context {W E : Type} (cli : Client W E).

Definition record {A} (entry : result E A -> Call) (m : W -> W * result E A) :
  W * list Call -> (W * list Call) * result E A := fun '(w, log) =>
  let '(w', r) := m w in ((w', log ++ [entry r])%list, r).

Definition id_of (r : result E string) : option string := match r with Ok id => Some id | Err _ => None end.
Definition running_of (r : result E (bool * Z)) : option bool :=
  match r with Ok st => Some (fst st) | Err _ => None end.

(** The same client, writing down every call it makes and how it ended. *)
Definition logged : Client (W * list Call) E :=
  mkClient
    (fun sid sp mid => record (fun r => CCreate sid sp mid (id_of r)) (cl_create cli sid sp mid))
    (fun sid sp mid => record (fun r => CCreateHook sid sp mid (id_of r)) (cl_create_hook cli sid sp mid))
    (fun sid id => record (fun r => CStart sid id (is_ok r)) (cl_start cli sid id))
    (fun sid id timeout => record (fun r => CStop sid id timeout (is_ok r)) (cl_stop cli sid id timeout))
    (fun sid id => record (fun r => CRemove sid id (is_ok r)) (cl_remove cli sid id))
    (fun sid id period => record (fun r => CWait sid id period (is_ok r)) (cl_wait_healthy cli sid id period))
    (fun sid id => record (fun r => CInspect sid id (running_of r)) (cl_inspect cli sid id))
    (fun mid o => record (fun r => CCreateVolume mid o (is_ok r)) (cl_create_volume cli mid o))
    (is_not_found cli).

(** The outcome and the calls of an operation run from [w]. *)
Definition outcome {A} (m : act (W := W * list Call) (E := E) A) (w : W) : result (op_error E) A * list Call :=
  let '((_, log), r) := m (w, []) in (r, log).
End Logged.

(** One step of the execution of a logged operation: the outcome of the next call. *)
Ltac run_call :=
  match goal with
  | |- context [cl_inspect ?c ?s ?i ?w] => destruct (cl_inspect c s i w) as [? [[[] ?]|?]]
  | |- context [cl_create ?c ?s ?i ?x ?w] => destruct (cl_create c s i x w) as [? [?|?]]
  | |- context [cl_start ?c ?s ?i ?w] => destruct (cl_start c s i w) as [? [[]|?]]
  | |- context [cl_stop ?c ?s ?i ?x ?w] => destruct (cl_stop c s i x w) as [? [[]|?]]
  | |- context [cl_wait_healthy ?c ?s ?i ?x ?w] => destruct (cl_wait_healthy c s i x w) as [? [[]|?]]
  | |- context [cl_remove ?c ?s ?i ?w] => destruct (cl_remove c s i w) as [? [[]|?]]
  end; cbn.

(** The calls of a replacement, in order: [stopped] puts the old container down before the
    new one is created, [started] brings the new one up, and [finished] removes the old one. *)
Section Replacement.
Context (sid : string) (sp : ServiceSpec) (mid : string) (old : ServiceContainer) (stopFirst skip : bool) (grace : option Z).
#[local] Notation oldID := (ID (ctr old)).
#[local] Notation timeout := (stopOptions grace).

(** Stop-first: the old container is stopped if it was [running]. *)
Definition stopped (running : bool) : list Call :=
  if stopFirst then CInspect sid oldID (Some running) :: (if running then [CStop sid oldID timeout true] else []) else [].

Definition started (newID : string) : list Call :=
  CCreate sid sp mid (Some newID) :: CStart sid newID true ::
  (if skip then [] else [CWait sid newID (MonitorPeriod (UpdateConfig_ sp)) true]).

(** Start-first: the old container is stopped only now. *)
Definition finished (removed : bool) : list Call :=
  ((if stopFirst then [] else [CStop sid oldID timeout true]) ++ [CRemove sid oldID removed])%list.

(** The new container is unhealthy: it is stopped, and the old one is started again exactly
    if it had been running and was stopped. *)
Definition rolled_back {E} (running : bool) (newID : string) (restart : option (option E)) (log : list Call) : Prop :=
  skip = false /\ (restart <> None <-> stopFirst = true /\ running = true) /\
  exists ok, log = (stopped running ++
    [CCreate sid sp mid (Some newID); CStart sid newID true;
     CWait sid newID (MonitorPeriod (UpdateConfig_ sp)) false; CStop sid newID timeout ok] ++
    match restart with
    | None => []
    | Some None => [CStart sid oldID true]
    | Some (Some _) => [CStart sid oldID false]
    end)%list.

(** The log of a replacement, by its outcome. *)
Definition replacement_log {E} (r : result (op_error E) unit) (log : list Call) : Prop :=
  exists running newID,
  match r with
  | Ok _ => log = (stopped running ++ started newID ++ finished true)%list
  | Err (RemoveFailed _) => log = (stopped running ++ started newID ++ finished false)%list
  | Err (ContainerHealthError newID _ restart) => rolled_back running newID restart log
  | Err (InspectFailed _) => stopFirst = true /\ log = [CInspect sid oldID None]
  | Err (CreateFailed _) => log = (stopped running ++ [CCreate sid sp mid None])%list
  | Err (StartFailed _) => log = (stopped running ++ [CCreate sid sp mid (Some newID); CStart sid newID false])%list
  | Err (StopFailed _) =>
      log = ((if stopFirst then [CInspect sid oldID (Some true)] else started newID) ++ [CStop sid oldID timeout false])%list
  | Err _ => False
  end.
End Replacement.

(** C18: Replacing a container on any client makes exactly these calls, by its outcome.
    Stop-first: the old container is inspected, stopped if it runs, then the new one is
    created from the specification on the machine, started and, unless that is skipped,
    waited for, then the old one is removed.  Start-first: the new one is created, started
    and waited for first, then the old one stopped and removed.  When the new one is
    unhealthy, it is stopped, the old one is started again exactly if it had been running
    and was stopped, and nothing is removed; any other failure ends the calls at the one
    that failed, and no other error is possible. *)
Theorem replace_outcomes {W E} (cli : Client W E) sid sp mid old order skip grace w :
  let (r, log) := outcome (execute_replace (logged cli) sid sp mid old order skip grace) w in
  replacement_log sid sp mid old (String.eqb order UpdateOrderStopFirst) skip grace r log.
Proof.
  unfold execute_replace, outcome, replacement_log, rolled_back, stopped, started, finished.
  destruct (String.eqb order UpdateOrderStopFirst); unfold stop_old, roll_back, bind, call, try, ret, throw;
    cbn; unfold record; destruct skip; repeat run_call.
  all: match goal with |- context [CInspect _ _ (Some false)] => exists false | _ => exists true end.
  all: match goal with |- context [CCreate _ _ _ (Some ?id)] => exists id | _ => exists "" end.
  all: try reflexivity.
  all: try (split; [reflexivity|reflexivity]).
  all: split; [reflexivity|split; [split; [by intros|by intros []]|]].
  all: first [by exists true|by exists false].
Qed.
