(* ===== verification/Strategy.v ===== *)
(** * Strategy: rolling deployment plans, [pkg/client/deploy/strategy.go]

    The plan that takes the containers of a service to the desired specification.  The
    random service ID, the shuffle of the machines and the order of ranging over a map are
    parameters.  The program sorts [svc.Containers] in place; here the sorted list is a
    new value.  [None] is a panic, inherited from the evaluation of the constraints. *)

From S2P Require Import Prelude GoStrings Port Volume ConfigSpec Spec Scheduler Container SpecChange Operation.
#[local] Open Scope string_scope.
#[local] Open Scope list_scope.

(** [RollingStrategy]: its options; its [state] field is the argument of [Plan]. *)
Record RollingStrategy := mkRolling { ForceRecreate : bool; SkipHealthMonitor : bool }.

Record ServicePlan := mkPlan {
  plan_ServiceID : string; plan_ServiceName : string;
  IsNewService : bool;
  plan_Spec : ServiceSpec;
  Operations : list Operation
}.

Inductive plan_error :=
| StateMissing | UnsupportedMode (mode : string) | ServiceIDFailed
| PlanSchedError (e : sched_error).

Definition with_ops (p : ServicePlan) (ops : list Operation) : ServicePlan :=
  mkPlan (plan_ServiceID p) (plan_ServiceName p) (IsNewService p) (plan_Spec p) ops.

(** [newEmptyServicePlan]; [newID] is what [secret.NewID] generates. *)
Definition newEmptyServicePlan (newID : option string) (svc : option Service) (sp : ServiceSpec) :
  result plan_error ServicePlan :=
  match svc with
  | Some svc => Ok (mkPlan (svc_ID svc) (svc_Name svc) false sp [])
  | None =>
      match newID with
      | None => Err ServiceIDFailed
      | Some id => Ok (mkPlan id (SName sp) true sp [])
      end
  end.

(** The machine ID to name map of the cluster state. *)
Definition machine_names (state : ClusterState) : gmap string string :=
  fold_left (fun names m => <[mi_Id (Info m) := mi_Name (Info m)]> names) (state_Machines state) ∅.

Section Strategy.
Context {HS : GoSort} {HC : GoCmp} {HO : GoOrder}.

Definition determineUpdateOrder (oldContainer : ServiceContainer) (sp : ServiceSpec) : string :=
  if negb (String.eqb (Order (UpdateConfig_ sp)) "") then Order (UpdateConfig_ sp)
  else
    let conflicts := match ConflictingServicePorts oldContainer (els (Ports sp)) with
                     | Err _ => true
                     | Ok ports => Nat.ltb 0 (length ports)
                     end in
    if conflicts then UpdateOrderStopFirst
    else if (Replicas sp <=? 1)%N && Nat.ltb 0 (length (MountedDockerVolumes 2 sp)) then UpdateOrderStopFirst
    else UpdateOrderStartFirst.

(** The machine of the first run or replace operation, as ID and name. *)
Fixpoint hook_machine (ops : list Operation) : string * string :=
  match ops with
  | [] => ("", "")
  | RunContainerOperation _ _ mid name _ :: _ => (mid, name)
  | ReplaceContainerOperation _ _ mid name _ _ _ _ :: _ => (mid, name)
  | _ :: rest => hook_machine rest
  end.

Definition preDeployOperations (state : ClusterState) (svc : option Service) (plan : ServicePlan) :
  list Operation :=
  match PreDeploy (plan_Spec plan) with
  | None => []
  | Some _ =>
      let (mid, name) := hook_machine (Operations plan) in
      if String.eqb mid "" then []
      else
        let hooks := match svc with Some svc => HookContainers svc | None => [] end in
        (omap (fun c => if Running (State (ctr (svc_ctr c)))
                        then Some (StopPreDeployOperation (MachineID c)
                                     (default "" (state_MachineName state (MachineID c))) (svc_ctr c))
                        else None) hooks ++
         [RunPreDeployOperation (plan_ServiceID plan) (plan_Spec plan) mid name (map msc_ID hooks)])
  end.

Definition prepend_hook (state : ClusterState) (svc : option Service) (plan : ServicePlan) : ServicePlan :=
  let ops := preDeployOperations state svc plan in
  if Nat.ltb 0 (length ops) then with_ops plan (ops ++ Operations plan) else plan.

(** ** Replicated services *)
Definition active (c : ServiceContainer) : bool := Running (State (ctr c)) && negb (Paused (State (ctr c))).

Definition status_of (st : RollingStrategy) (sp : ServiceSpec) (c : ServiceContainer) : ContainerSpecStatus :=
  if ForceRecreate st then ContainerNeedsRecreate else EvalContainerSpecChange (spec c) sp.

(** One turn of the loop that evaluates the running containers: the number of up-to-date
    containers by machine, and the statuses by container ID. *)
Definition status_step (st : RollingStrategy) (sp : ServiceSpec)
  (acc : gmap string nat * gmap string ContainerSpecStatus) (c : MachineServiceContainer) :
  gmap string nat * gmap string ContainerSpecStatus :=
  if negb (active (svc_ctr c)) then acc
  else
    let status := status_of st sp (svc_ctr c) in
    (match status with
     | ContainerUpToDate => <[MachineID c := S (default 0 (fst acc !! MachineID c))]> (fst acc)
     | _ => fst acc
     end, <[msc_ID c := status]> (snd acc)).

Definition statuses (st : RollingStrategy) (sp : ServiceSpec) (cs : list MachineServiceContainer) :=
  fold_left (status_step st sp) cs (∅, ∅).

(** The comparator of the containers, [cmp c1 c2 < 0]; it is not antisymmetric. *)
Definition container_less (sts : gmap string ContainerSpecStatus) (c1 c2 : MachineServiceContainer) : bool :=
  match sts !! msc_ID c1 with Some ContainerUpToDate => true | _ => false end.

Definition machine_less (upToDate : gmap string nat) (onMachine : gmap string (list ServiceContainer))
  (m1 m2 : MachineInfo) : bool :=
  let u1 := default 0 (upToDate !! mi_Id m1) in
  let u2 := default 0 (upToDate !! mi_Id m2) in
  if Nat.ltb 0 u1 && Nat.ltb 0 u2 then Nat.ltb u2 u1
  else if Nat.ltb 0 u1 then true
  else if Nat.ltb 0 u2 then false
  else Nat.ltb (length (map_get onMachine (mi_Id m2))) (length (map_get onMachine (mi_Id m1))).

Definition by_machine {V} (f : MachineServiceContainer -> V) (cs : list MachineServiceContainer) :
  gmap string (list V) :=
  fold_left (fun m c => map_append (MachineID c) (f c) m) cs ∅.

(** One replica placed on machine [m]: the operations and the remaining containers. *)
Definition place_replica (st : RollingStrategy) (plan : ServicePlan) (sp : ServiceSpec)
  (sts : gmap string ContainerSpecStatus) (m : MachineInfo) (onMachine : gmap string (list ServiceContainer)) :
  list Operation * gmap string (list ServiceContainer) :=
  match map_get onMachine (mi_Id m) with
  | [] => ([RunContainerOperation (plan_ServiceID plan) sp (mi_Id m) (mi_Name m) (SkipHealthMonitor st)], onMachine)
  | c :: rest =>
      (match sts !! ID (ctr c) with
       | Some ContainerUpToDate => []
       | _ => [ReplaceContainerOperation (plan_ServiceID plan) sp (mi_Id m) (mi_Name m) c
                 (determineUpdateOrder c sp) (SkipHealthMonitor st) (StopGracePeriod (Container_ sp))]
       end, <[mi_Id m := rest]> onMachine)
  end.

(** The loop over the replicas [i]; an index out of range is a panic. *)
Fixpoint replica_loop (st : RollingStrategy) (plan : ServicePlan) (sp : ServiceSpec)
  (sts : gmap string ContainerSpecStatus) (matched : list MachineInfo) (slots : list nat)
  (onMachine : gmap string (list ServiceContainer)) :
  option (list Operation * gmap string (list ServiceContainer)) :=
  match slots with
  | [] => Some ([], onMachine)
  | i :: slots' =>
      match matched !! (Nat.modulo i (length matched)) with
      | None => None
      | Some m =>
          let (ops, onMachine') := place_replica st plan sp sts m onMachine in
          match replica_loop st plan sp sts matched slots' onMachine' with
          | None => None
          | Some (ops', rest) => Some ((ops ++ ops'), rest)
          end
      end
  end.

Definition replica_count (sp : ServiceSpec) : nat := Z.to_nat (int64_of_uint64 (Z.of_N (Replicas sp))).

Definition remove_on (sp : ServiceSpec) (names : gmap string string) (mid : string) (c : ServiceContainer) :
  Operation :=
  RemoveContainerOperation mid (default "" (names !! mid)) c (StopGracePeriod (Container_ sp)).

Definition planReplicated (st : RollingStrategy) (newID : option string) (state : ClusterState)
  (svc : option Service) (sp : ServiceSpec) : option (result plan_error ServicePlan) :=
  match newEmptyServicePlan newID svc sp with
  | Err e => Some (Err e)
  | Ok plan =>
      match EligibleMachines (NewServiceScheduler state sp) with
      | None => None
      | Some (Err e) => Some (Err (PlanSchedError e))
      | Some (Ok available) =>
          let matched := any_order 0 (map Info available) in
          let cs := match svc with Some svc => Containers svc | None => [] end in
          let (upToDate, sts) := statuses st sp cs in
          let onMachine := by_machine svc_ctr (sort_slice (container_less sts) cs) in
          let matched := match svc with
                         | Some _ => sort_slice (machine_less upToDate onMachine) matched
                         | None => matched
                         end in
          match replica_loop st plan sp sts matched (seq 0 (replica_count sp)) onMachine with
          | None => None
          | Some (ops, rest) =>
              let removals := map (fun kc => remove_on sp (machine_names state) kc.1 kc.2)
                                (flatten (range_map 1 rest)) in
              Some (Ok (prepend_hook state svc (with_ops plan (ops ++ removals))))
          end
      end
  end.

(** ** Global services *)
Definition run_on (st : RollingStrategy) (serviceID : string) (sp : ServiceSpec) (m : MachineInfo) : Operation :=
  RunContainerOperation serviceID sp (mi_Id m) (mi_Name m) (SkipHealthMonitor st).

Definition remove_from (sp : ServiceSpec) (machineName : string) (c : MachineServiceContainer) : Operation :=
  RemoveContainerOperation (MachineID c) machineName (svc_ctr c) (StopGracePeriod (Container_ sp)).

(** The index of the first container that is running with the specification. *)
Fixpoint up_to_date_index (st : RollingStrategy) (sp : ServiceSpec) (i : nat) (cs : list MachineServiceContainer) :
  option nat :=
  match cs with
  | [] => None
  | c :: rest =>
      if negb (active (svc_ctr c)) then up_to_date_index st sp (S i) rest
      else match status_of st sp (svc_ctr c) with
           | ContainerUpToDate => Some i
           | _ => up_to_date_index st sp (S i) rest
           end
  end.

(** The loop that removes the containers at the other indices. *)
Fixpoint remove_except (sp : ServiceSpec) (name : string) (i j : nat) (cs : list MachineServiceContainer) :
  list Operation :=
  match cs with
  | [] => []
  | old :: rest =>
      if Nat.eqb i j then remove_except sp name i (S j) rest
      else remove_from sp name old :: remove_except sp name i (S j) rest
  end.

(** The loop that stops the other running containers whose ports conflict. *)
Definition stop_conflicting (serviceID : string) (sp : ServiceSpec) (m : MachineInfo) (keep : string)
  (c : MachineServiceContainer) : option Operation :=
  if String.eqb (msc_ID c) keep || negb (Running (State (ctr (svc_ctr c)))) then None
  else if match ConflictingServicePorts (svc_ctr c) (els (Ports sp)) with
          | Err _ => true
          | Ok ports => Nat.ltb 0 (length ports)
          end
       then Some (StopContainerOperation serviceID (msc_ID c) (mi_Id m) (mi_Name m)
                    (StopGracePeriod (Container_ sp)))
       else None.

Definition reconcileGlobalContainer (st : RollingStrategy) (containers : list MachineServiceContainer)
  (sp : ServiceSpec) (serviceID : string) (m : MachineInfo) : list Operation :=
  if Nat.eqb (length containers) 0 then [run_on st serviceID sp m]
  else match up_to_date_index st sp 0 containers with
       | Some i => remove_except sp (mi_Name m) i 0 containers
       | None =>
           match List.find (fun c => Running (State (ctr (svc_ctr c)))) containers with
           | Some old =>
               (omap (stop_conflicting serviceID sp m (msc_ID old)) containers ++
                [ReplaceContainerOperation serviceID sp (mi_Id m) (mi_Name m) (svc_ctr old)
                   (determineUpdateOrder (svc_ctr old) sp) (SkipHealthMonitor st)
                   (StopGracePeriod (Container_ sp))] ++
                omap (fun c => if String.eqb (msc_ID c) (msc_ID old) then None
                               else Some (remove_from sp (mi_Name m) c)) containers)
           | None => (run_on st serviceID sp m :: map (remove_from sp (mi_Name m)) containers)
           end
       end.

(** The loop over the available machines, with the containers of the others left. *)
Fixpoint global_loop (st : RollingStrategy) (sp : ServiceSpec) (serviceID : string) (available : list Machine)
  (onMachine : gmap string (list MachineServiceContainer)) :
  list Operation * gmap string (list MachineServiceContainer) :=
  match available with
  | [] => ([], onMachine)
  | m :: rest =>
      let ops := reconcileGlobalContainer st (map_get onMachine (mi_Id (Info m))) sp serviceID (Info m) in
      let (ops', left) := global_loop st sp serviceID rest (delete (mi_Id (Info m)) onMachine) in
      ((ops ++ ops'), left)
  end.

Definition planGlobal (st : RollingStrategy) (newID : option string) (state : ClusterState)
  (svc : option Service) (sp : ServiceSpec) : option (result plan_error ServicePlan) :=
  match newEmptyServicePlan newID svc sp with
  | Err e => Some (Err e)
  | Ok plan =>
      let cs := match svc with Some svc => Containers svc | None => [] end in
      match EligibleMachines (NewServiceScheduler state sp) with
      | None => None
      | Some (Err e) => Some (Err (PlanSchedError e))
      | Some (Ok available) =>
          let (ops, left) := global_loop st sp (plan_ServiceID plan) available (by_machine id cs) in
          let names := machine_names state in
          let removals := map (fun kc => remove_from sp (default "" (names !! MachineID kc.2)) kc.2)
                            (flatten (range_map 1 left)) in
          Some (Ok (prepend_hook state svc (with_ops plan (ops ++ removals))))
      end
  end.

Definition Plan (st : RollingStrategy) (newID : option string) (state : option ClusterState)
  (svc : option Service) (sp : ServiceSpec) : option (result plan_error ServicePlan) :=
  match state with
  | None => Some (Err StateMissing)
  | Some state =>
      if String.eqb (SMode sp) ServiceModeReplicated then planReplicated st newID state svc sp
      else if String.eqb (SMode sp) ServiceModeGlobal then planGlobal st newID state svc sp
      else Some (Err (UnsupportedMode (SMode sp)))
  end.

(** ** What a plan does to the containers of a service *)

(** The containers a plan runs, replaces and removes, by machine. *)
Definition runs (ops : list Operation) : list string :=
  omap (fun op => match op with RunContainerOperation _ _ mid _ _ => Some mid | _ => None end) ops.
Definition replaces (ops : list Operation) : list (string * ServiceContainer) :=
  omap (fun op => match op with
                  | ReplaceContainerOperation _ _ mid _ old _ _ _ => Some (mid, old)
                  | _ => None end) ops.
Definition removes (ops : list Operation) : list (string * ServiceContainer) :=
  omap (fun op => match op with RemoveContainerOperation mid _ c _ => Some (mid, c) | _ => None end) ops.

Definition located (c : MachineServiceContainer) : string * ServiceContainer := (MachineID c, svc_ctr c).

Definition up_to_date (st : RollingStrategy) (sp : ServiceSpec) (c : ServiceContainer) : Prop :=
  active c = true /\ status_of st sp c = ContainerUpToDate.

(** Every existing container is kept, replaced or removed, once; the ones kept run the
    desired specification; and after the plan the service has one container on each of the
    machines [target] (with multiplicity). *)
Definition reconciles (st : RollingStrategy) (sp : ServiceSpec) (existing : list (string * ServiceContainer))
  (target : list string) (ops : list Operation) : Prop :=
  exists kept, existing ≡ₚ kept ++ replaces ops ++ removes ops /\
    Forall (fun kc => up_to_date st sp kc.2) kept /\
    map fst kept ++ map fst (replaces ops) ++ runs ops ≡ₚ target.

(** ** Lemmas *)
Lemma effects_app ops1 ops2 :
  runs (ops1 ++ ops2) = (runs ops1 ++ runs ops2) /\
  replaces (ops1 ++ ops2) = (replaces ops1 ++ replaces ops2) /\
  removes (ops1 ++ ops2) = (removes ops1 ++ removes ops2).
Proof. unfold runs, replaces, removes. by rewrite !omap_app. Qed.

(** The hook operations run, replace and remove nothing. *)
Lemma hook_effects state svc plan :
  let ops := preDeployOperations state svc plan in runs ops = [] /\ replaces ops = [] /\ removes ops = [].
Proof.
  unfold preDeployOperations. destruct (PreDeploy (plan_Spec plan)); [|done].
  destruct (hook_machine (Operations plan)) as [mid name]. destruct (String.eqb mid ""); [done|].
  cbv zeta. match goal with |- context [omap ?f ?l] => set (stops := omap f l) end.
  assert (Hs : runs stops = [] /\ replaces stops = [] /\ removes stops = []).
  { unfold stops. generalize (match svc with Some svc => HookContainers svc | None => [] end).
    intros l. induction l as [|c l IH]; [done|]. cbn [omap list_omap]. by destruct (Running _). }
  destruct (effects_app stops [RunPreDeployOperation (plan_ServiceID plan) (plan_Spec plan) mid name
    (map msc_ID match svc with Some svc => HookContainers svc | None => [] end)]) as (-> & -> & ->).
  by destruct Hs as (-> & -> & ->).
Qed.

Lemma prepend_hook_effects state svc plan ops :
  let p := Operations (prepend_hook state svc (with_ops plan ops)) in
  runs p = runs ops /\ replaces p = replaces ops /\ removes p = removes ops.
Proof.
  unfold prepend_hook. destruct (Nat.ltb 0 _); [|done]. cbn [with_ops Operations].
  destruct (hook_effects state svc (with_ops plan ops)) as (H1 & H2 & H3).
  destruct (effects_app (preDeployOperations state svc (with_ops plan ops)) ops) as (-> & -> & ->).
  by rewrite H1, H2, H3.
Qed.

Lemma by_machine_pairs {V} (f : MachineServiceContainer -> V) cs :
  pairs (by_machine f cs) ≡ₚ map (fun c => (MachineID c, f c)) cs.
Proof.
  unfold by_machine. rewrite <- (app_nil_r (map _ cs)), <- (pairs_empty (V := V)).
  generalize (∅ : gmap string (list V)). induction cs as [|c cs IH]; intros m; simpl; [done|].
  rewrite IH, pairs_append. solve_Permutation.
Qed.

Lemma by_machine_at {V} (f : MachineServiceContainer -> V) cs k v :
  v ∈ map_get (by_machine f cs) k <-> exists c, c ∈ cs /\ MachineID c = k /\ v = f c.
Proof.
  rewrite <- elem_of_pairs, by_machine_pairs, list_elem_of_fmap. naive_solver.
Qed.

Lemma statuses_Some st sp cs id s : (statuses st sp cs).2 !! id = Some s ->
  exists c, c ∈ cs /\ msc_ID c = id /\ active (svc_ctr c) = true /\ status_of st sp (svc_ctr c) = s.
Proof.
  unfold statuses. intros Hs.
  assert (Hacc : forall acc, (fold_left (status_step st sp) cs acc).2 !! id = Some s ->
            acc.2 !! id = Some s \/ exists c, c ∈ cs /\ msc_ID c = id /\ active (svc_ctr c) = true /\
                                              status_of st sp (svc_ctr c) = s).
  { clear Hs. induction cs as [|c cs IH]; intros acc Hl; simpl in Hl; [by left|].
    apply IH in Hl as [Hl|(c' & Hc' & H)]; [|right; exists c'; split; [by right|done]].
    unfold status_step in Hl. destruct (active (svc_ctr c)) eqn:Ha; simpl in Hl; [|by left].
    apply lookup_insert_Some in Hl as [[Hid Hst]|[_ Hl]]; [|by left].
    right. exists c. split; [left|done]. }
  destruct (Hacc _ Hs) as [H|H]; [cbn [snd] in H; by apply lookup_empty_Some in H|done].
Qed.

(** The round-robin assignment of [n] replicas to machines. *)
Definition round_robin_over (ids : list string) (slots : list nat) : list string :=
  omap (fun i => ids !! (Nat.modulo i (length ids))) slots.
Definition round_robin (ids : list string) (n : nat) : list string := round_robin_over ids (seq 0 n).

Lemma place_replica_spec st plan sp sts m onMachine :
  let (ops, rest) := place_replica st plan sp sts m onMachine in
  exists kept, pairs onMachine ≡ₚ kept ++ replaces ops ++ pairs rest /\ removes ops = [] /\
    Forall (fun kc => sts !! ID (ctr kc.2) = Some ContainerUpToDate) kept /\
    map fst kept ++ map fst (replaces ops) ++ runs ops = [mi_Id m].
Proof.
  unfold place_replica. destruct (map_get onMachine (mi_Id m)) as [|c rest] eqn:Hg.
  { exists []. done. }
  pose proof (pairs_pop _ _ _ _ Hg) as Hp.
  assert (Hreplace : forall ops', replaces ops' = [(mi_Id m, c)] -> runs ops' = [] -> removes ops' = [] ->
    exists kept, pairs onMachine ≡ₚ kept ++ replaces ops' ++ pairs (<[mi_Id m := rest]> onMachine) /\
    removes ops' = [] /\
    Forall (fun kc => sts !! ID (ctr kc.2) = Some ContainerUpToDate) kept /\
    map fst kept ++ map fst (replaces ops') ++ runs ops' = [mi_Id m]).
  { intros ops' -> -> ->. exists []. done. }
  destruct (sts !! ID (ctr c)) as [[]|] eqn:Hs; try (apply Hreplace; done).
  exists [(mi_Id m, c)]. split_and!; [done|done|by repeat constructor|done].
Qed.

Lemma replica_loop_spec st plan sp sts matched slots onMachine : matched <> [] ->
  exists ops rest kept, replica_loop st plan sp sts matched slots onMachine = Some (ops, rest) /\
    pairs onMachine ≡ₚ kept ++ replaces ops ++ pairs rest /\ removes ops = [] /\
    Forall (fun kc => sts !! ID (ctr kc.2) = Some ContainerUpToDate) kept /\
    map fst kept ++ map fst (replaces ops) ++ runs ops ≡ₚ round_robin_over (map mi_Id matched) slots.
Proof.
  intros Hne. revert onMachine. induction slots as [|i slots IH]; intros onMachine; simpl.
  { exists [], onMachine, []. done. }
  assert (Hk : Nat.modulo i (length matched) < length matched).
  { apply Nat.mod_upper_bound. by destruct matched. }
  destruct (lookup_lt_is_Some_2 _ _ Hk) as [m Hm]. rewrite Hm.
  pose proof (place_replica_spec st plan sp sts m onMachine) as Hplace.
  destruct (place_replica st plan sp sts m onMachine) as [ops rest].
  destruct Hplace as (kept & Hp & Hrm & Hk1 & Ht).
  destruct (IH rest) as (ops' & rest' & kept' & -> & Hp' & Hrm' & Hk' & Ht').
  destruct (effects_app ops ops') as (Er & Ep & Em).
  exists (ops ++ ops'), rest', (kept ++ kept'). split; [done|]. rewrite Er, Ep, Em.
  split_and!.
  - rewrite Hp, Hp'. solve_Permutation.
  - by rewrite Hrm, Hrm'.
  - by apply Forall_app.
  - rewrite length_map, list_lookup_fmap, Hm. simpl. rewrite <- Ht', !map_app.
    change (mi_Id m :: ?l) with ([mi_Id m] ++ l). rewrite <- Ht. solve_Permutation.
Qed.

Lemma up_to_date_kept st sp cs kept rest :
  NoDup (map msc_ID cs) -> map located cs ≡ₚ kept ++ rest ->
  Forall (fun kc => (statuses st sp cs).2 !! ID (ctr kc.2) = Some ContainerUpToDate) kept ->
  Forall (fun kc => up_to_date st sp kc.2) kept.
Proof.
  intros Hnd Hperm. rewrite !Forall_forall. intros Hk [k c] Hin. specialize (Hk _ Hin). simpl in *.
  assert (Hc : (k, c) ∈ map located cs) by (rewrite Hperm; apply elem_of_app; by left).
  apply list_elem_of_fmap in Hc as (c1 & [= -> ->] & Hc1).
  apply statuses_Some in Hk as (c2 & Hc2 & Hid & Ha & Hs).
  assert (c1 = c2) as ->; [|done].
  apply list_elem_of_lookup in Hc1 as [i1 H1]. apply list_elem_of_lookup in Hc2 as [i2 H2].
  assert (i1 = i2) as ->; [|congruence].
  apply (NoDup_lookup _ _ _ (msc_ID c1) Hnd); rewrite list_lookup_fmap.
  - by rewrite H1.
  - rewrite H2. simpl. by f_equal.
Qed.

(** [EligibleMachines] only succeeds with machines. *)
Lemma EligibleMachines_nonempty s ms : EligibleMachines s = Some (Ok ms) -> ms <> [].
Proof. unfold EligibleMachines. by destruct (available_loop _ _) as [[|]|]; naive_solver. Qed.

Definition existing (svc : option Service) : list MachineServiceContainer :=
  match svc with Some svc => Containers svc | None => [] end.

Lemma sorted_existing (upToDate : gmap string nat) onMachine (svc : option Service) (ms : list MachineInfo) :
  match svc with Some _ => sort_slice (machine_less upToDate onMachine) ms | None => ms end ≡ₚ ms.
Proof. destruct svc; [apply sort_slice_perm|done]. Qed.

Lemma removals_effects {K} (mk : K -> Operation) (at_ : K -> string * ServiceContainer) l :
  (forall k, removes [mk k] = [at_ k] /\ replaces [mk k] = [] /\ runs [mk k] = []) ->
  removes (map mk l) = map at_ l /\ replaces (map mk l) = [] /\ runs (map mk l) = [].
Proof.
  intros Hmk. induction l as [|k l (H1 & H2 & H3)]; [done|]. simpl map.
  destruct (effects_app [mk k] (map mk l)) as (E1 & E2 & E3).
  change (mk k :: map mk l) with ([mk k] ++ map mk l). rewrite E1, E2, E3, H1, H2, H3.
  by destruct (Hmk k) as (-> & -> & ->).
Qed.

(** What the planning of a replicated service returns. *)
Lemma planReplicated_spec st newID state svc sp : NoDup (map msc_ID (existing svc)) ->
  match planReplicated st newID state svc sp with
  | None => EligibleMachines (NewServiceScheduler state sp) = None
  | Some (Err e) => svc = None /\ newID = None \/
                    exists e', EligibleMachines (NewServiceScheduler state sp) = Some (Err e')
  | Some (Ok plan) =>
      exists ms ids, EligibleMachines (NewServiceScheduler state sp) = Some (Ok ms) /\
        ids ≡ₚ map (fun m => mi_Id (Info m)) ms /\
        reconciles st sp (map located (existing svc)) (round_robin ids (replica_count sp)) (Operations plan)
  end.
Proof.
  intros Hnd. unfold planReplicated. destruct (newEmptyServicePlan newID svc sp) as [plan|e] eqn:Hplan.
  2:{ left. unfold newEmptyServicePlan in Hplan. by destruct svc, newID. }
  destruct (EligibleMachines _) as [[ms|e]|] eqn:Hms; [|by eauto|done].
  pose proof (EligibleMachines_nonempty _ _ Hms) as Hne. fold (existing svc).
  destruct (statuses st sp (existing svc)) as [upToDate sts] eqn:Hsts.
  set (onMachine := by_machine svc_ctr (sort_slice (container_less sts) (existing svc))).
  set (matched := match svc with Some _ => _ | None => _ end).
  assert (Hmatched : matched ≡ₚ map Info ms).
  { unfold matched. rewrite sorted_existing. apply any_order_perm. }
  assert (Hne' : matched <> []).
  { intros E. rewrite E in Hmatched. apply Permutation_nil in Hmatched. by destruct ms. }
  destruct (replica_loop_spec st plan sp sts matched (seq 0 (replica_count sp)) onMachine Hne')
    as (ops & rest & kept & -> & Hp & Hrm & Hk & Ht).
  exists ms, (map mi_Id matched). split; [done|]. split.
  { rewrite Hmatched, map_map. done. }
  assert (Hall : map located (existing svc) ≡ₚ kept ++ replaces ops ++ pairs rest).
  { rewrite <- Hp. unfold onMachine. rewrite by_machine_pairs.
    by rewrite (sort_slice_perm _ _ (existing svc)). }
  destruct (prepend_hook_effects state svc plan
    (ops ++ map (fun kc => remove_on sp (machine_names state) kc.1 kc.2) (flatten (range_map 1 rest))))
    as (Er & Ep & Em).
  destruct (removals_effects (fun kc => remove_on sp (machine_names state) kc.1 kc.2) id
    (flatten (range_map 1 rest))) as (Xm & Xp & Xr); [by intros [k c]|].
  exists kept. rewrite Er, Ep, Em.
  destruct (effects_app ops (map (fun kc => remove_on sp (machine_names state) kc.1 kc.2)
    (flatten (range_map 1 rest)))) as (-> & -> & ->).
  rewrite Xm, Xp, Xr, Hrm, !app_nil_r, map_id. split_and!.
  - simpl. by rewrite pairs_range.
  - apply (up_to_date_kept st sp (existing svc) kept (replaces ops ++ pairs rest) Hnd Hall). by rewrite Hsts.
  - done.
Qed.

(** *** Even spreading *)
Definition on_machine (id : string) (l : list string) : nat := length (filter (eq id) l).

Lemma on_machine_app id l1 l2 : on_machine id (l1 ++ l2) = on_machine id l1 + on_machine id l2.
Proof. unfold on_machine. by rewrite filter_app, length_app. Qed.

Lemma on_machine_single id x : on_machine id [x] = if decide (id = x) then 1 else 0.
Proof. unfold on_machine. rewrite filter_cons. by destruct (decide (id = x)). Qed.

#[global] Instance on_machine_proper id : Proper ((≡ₚ) ==> eq) (on_machine id).
Proof. intros l1 l2 Hl. unfold on_machine. by rewrite Hl. Qed.

Lemma on_machine_0 id l : id ∉ l -> on_machine id l = 0.
Proof.
  intros Hid. unfold on_machine. induction l as [|x l IH]; [done|].
  rewrite filter_cons_False by (intros ->; apply Hid; left). apply IH. intros ?. apply Hid. by right.
Qed.

Lemma on_machine_total ids l : NoDup ids -> (forall id, id ∈ l -> id ∈ ids) ->
  sum_list (map (fun id => on_machine id l) ids) = length l.
Proof.
  intros Hnd. induction l as [|x l IH]; intros Hin.
  { clear. induction ids; simpl; [done|]. by rewrite IHids. }
  assert (Hx : forall js : list string, NoDup js ->
    sum_list (map (fun id => on_machine id (x :: l)) js) =
    (if decide (x ∈ js) then 1 else 0) + sum_list (map (fun id => on_machine id l) js)).
  { induction 1 as [|j js Hj Hjs IHj]; [done|]. simpl. rewrite IHj.
    change (x :: l) with ([x] ++ l). rewrite on_machine_app, on_machine_single.
    destruct (decide (j = x)) as [->|Hne].
    - rewrite (decide_True (P := x ∈ x :: js)) by left. rewrite decide_False by done. lia.
    - destruct (decide (x ∈ js)) as [?|?].
      + rewrite decide_True by (by right). lia.
      + rewrite decide_False; [lia|]. by intros [->|?]%elem_of_cons. }
  rewrite (Hx ids Hnd), decide_True by (apply Hin; left). rewrite IH; [done|]. intros; apply Hin; by right.
Qed.

(** The machine at index [j] of [k] gets one more replica than the others at or after
    [n mod k]. *)
Lemma round_robin_count ids n j id : NoDup ids -> ids !! j = Some id ->
  on_machine id (round_robin ids n) =
  Nat.div n (length ids) + (if Nat.ltb j (Nat.modulo n (length ids)) then 1 else 0).
Proof.
  intros Hnd Hj. pose proof (lookup_lt_Some _ _ _ Hj) as Hlt. set (k := length ids) in *.
  unfold round_robin, round_robin_over. fold k. induction n as [|n IH].
  { rewrite Nat.Div0.div_0_l, Nat.Div0.mod_0_l. done. }
  rewrite seq_S, omap_app, on_machine_app, IH. simpl.
  assert (Hr : Nat.modulo n k < k) by (apply Nat.mod_upper_bound; lia).
  destruct (lookup_lt_is_Some_2 ids _ Hr) as [x Hx]. rewrite Hx, on_machine_single.
  assert (Hjx : id = x <-> j = Nat.modulo n k).
  { split; [intros ->; by apply (NoDup_lookup ids _ _ x)|]. intros ->. congruence. }
  pose proof (Nat.div_mod_eq n k) as Hn.
  assert (Hd : (S (Nat.modulo n k) = k /\ Nat.div (S n) k = S (Nat.div n k) /\ Nat.modulo (S n) k = 0) \/
               (Nat.div (S n) k = Nat.div n k /\ Nat.modulo (S n) k = S (Nat.modulo n k))).
  { destruct (decide (S (Nat.modulo n k) = k)) as [Hk|Hk]; [left; split; [done|]|right]; split; symmetry.
    - apply (Nat.div_unique _ _ _ 0); lia.
    - apply (Nat.mod_unique _ _ (S (Nat.div n k))); lia.
    - apply (Nat.div_unique _ _ _ (S (Nat.modulo n k))); lia.
    - apply (Nat.mod_unique _ _ (Nat.div n k)); lia. }
  destruct (decide (id = x)) as [E|E].
  - apply Hjx in E. destruct Hd as [(Hk & -> & ->)|(-> & ->)];
      repeat match goal with |- context [Nat.ltb ?a ?b] => destruct (Nat.ltb_spec a b) end; lia.
  - assert (j <> Nat.modulo n k) by tauto. destruct Hd as [(Hk & -> & ->)|(-> & ->)];
      repeat match goal with |- context [Nat.ltb ?a ?b] => destruct (Nat.ltb_spec a b) end; lia.
Qed.

(** [n] replicas on the machines [ids], as evenly as possible. *)
Definition evenly_spread (ids : list string) (n : nat) (target : list string) : Prop :=
  length target = n /\ (forall id, id ∈ target -> id ∈ ids) /\
  forall id1 id2, id1 ∈ ids -> id2 ∈ ids -> on_machine id1 target <= S (on_machine id2 target).

#[global] Instance evenly_spread_proper : Proper ((≡ₚ) ==> eq ==> (≡ₚ) ==> iff) evenly_spread.
Proof.
  intros ids ids' Hids n ? <- t t' Ht. unfold evenly_spread. rewrite Ht.
  by setoid_rewrite Ht; setoid_rewrite Hids.
Qed.

Lemma round_robin_spread ids n : ids <> [] -> NoDup ids -> evenly_spread ids n (round_robin ids n).
Proof.
  intros Hne Hnd. split_and!.
  - unfold round_robin, round_robin_over. induction n as [|n IH]; [done|].
    rewrite seq_S, omap_app, length_app, IH. simpl.
    destruct (lookup_lt_is_Some_2 ids (Nat.modulo n (length ids))) as [x ->]; [|simpl; lia].
    apply Nat.mod_upper_bound. by destruct ids.
  - intros id. unfold round_robin, round_robin_over. rewrite list_elem_of_omap.
    intros (i & _ & Hi). by apply list_elem_of_lookup_2 in Hi.
  - intros id1 id2 [j1 H1]%list_elem_of_lookup [j2 H2]%list_elem_of_lookup.
    rewrite (round_robin_count ids n j1 id1 Hnd H1), (round_robin_count ids n j2 id2 Hnd H2).
    destruct (Nat.ltb j1 _), (Nat.ltb j2 _); lia.
Qed.

(** Nonincreasing counts that differ by at most one are determined by their sum. *)
Lemma even_shape (q : nat) cs : StronglySorted ge cs -> Forall (fun c => c = q \/ c = S q) cs ->
  exists r, r <= length cs /\ cs = replicate r (S q) ++ replicate (length cs - r) q.
Proof.
  induction cs as [|c cs IH]; intros Hs Hq.
  { exists 0. done. }
  inversion Hs as [|? ? Hs' Hhd]; subst. apply Forall_cons in Hq as [[->| ->] Hq].
  - exists 0. split; [lia|]. simpl. f_equal. clear IH Hs Hs'.
    induction cs as [|d cs IH]; [done|]. apply Forall_cons in Hq as [Hd Hq], Hhd as [Hge Hhd].
    simpl. f_equal; [lia|auto].
  - destruct (IH Hs' Hq) as (r & Hr & E). exists (S r). split; [simpl; lia|]. simpl. by f_equal.
Qed.

Lemma even_counts cs j c : StronglySorted ge cs ->
  (forall a b, a ∈ cs -> b ∈ cs -> a <= S b) -> cs !! j = Some c ->
  c = Nat.div (sum_list cs) (length cs) + (if Nat.ltb j (Nat.modulo (sum_list cs) (length cs)) then 1 else 0).
Proof.
  intros Hs Hclose Hj. pose proof (lookup_lt_Some _ _ _ Hj) as Hlt.
  destruct (last cs) as [q|] eqn:Hl; [|apply last_None in Hl; by subst].
  assert (Hlq : forall a, a ∈ cs -> q <= a).
  { clear - Hs Hl. apply last_Some in Hl as [l' ->]. intros a [Ha| ->%list_elem_of_singleton]%elem_of_app; [|done].
    assert (Hge : ge a q); [|exact Hge]. eapply (StronglySorted_app_1_elem_of ge l' [q]); [done|done|by left]. }
  assert (Hq : Forall (fun c => c = q \/ c = S q) cs).
  { apply Forall_forall. intros a Ha. assert (q ∈ cs) by (by apply last_Some_elem_of).
    pose proof (Hlq a Ha). pose proof (Hclose a q Ha ltac:(done)). lia. }
  destruct (even_shape q cs Hs Hq) as (r & Hr & E).
  assert (Hr' : r < length cs).
  { destruct (decide (r = length cs)) as [->|]; [|lia]. rewrite Nat.sub_diag, app_nil_r in E.
    rewrite E, last_lookup, length_replicate, lookup_replicate in Hl. destruct Hl as [Hl _]. lia. }
  assert (Hsum : sum_list cs = length cs * q + r).
  { rewrite E at 1. rewrite sum_list_with_app, !sum_list_replicate. nia. }
  rewrite Hsum. rewrite <- (Nat.div_unique (length cs * q + r) (length cs) q r) by lia.
  rewrite <- (Nat.mod_unique (length cs * q + r) (length cs) q r) by lia.
  rewrite E, lookup_app, length_replicate in Hj. destruct (Nat.ltb_spec j r) as [H|H].
  - rewrite lookup_replicate_2 in Hj by done. injection Hj as <-. lia.
  - rewrite (proj1 (lookup_replicate_None r (S q) j) H) in Hj.
    apply lookup_replicate in Hj as [-> _]. lia.
Qed.

(** *** Converged services *)
Lemma by_machine_count {V} (f : MachineServiceContainer -> V) cs k :
  length (map_get (by_machine f cs) k) = on_machine k (map MachineID cs).
Proof.
  unfold by_machine. change (on_machine k (map MachineID cs))
    with (length (map_get (∅ : gmap string (list V)) k) + on_machine k (map MachineID cs)).
  generalize (∅ : gmap string (list V)). induction cs as [|c cs IH]; intros m; simpl.
  { rewrite (on_machine_0 k []) by apply not_elem_of_nil. lia. }
  rewrite IH, map_get_append, length_app.
  change (MachineID c :: ?l) with ([MachineID c] ++ l). rewrite on_machine_app, on_machine_single.
  destruct (decide (MachineID c = k)), (decide (k = MachineID c)); simpl; congruence || lia.
Qed.

(** When all containers are up to date, the statuses say so and count them all. *)
Lemma statuses_all st sp cs : Forall (fun c => up_to_date st sp (svc_ctr c)) cs ->
  (forall c, c ∈ cs -> (statuses st sp cs).2 !! msc_ID c = Some ContainerUpToDate) /\
  forall k, default 0 ((statuses st sp cs).1 !! k) = on_machine k (map MachineID cs).
Proof.
  unfold statuses. intros Hall.
  assert (Hacc : forall acc : gmap string nat * gmap string ContainerSpecStatus,
    (forall id s, acc.2 !! id = Some s -> s = ContainerUpToDate) ->
    (forall id s, (fold_left (status_step st sp) cs acc).2 !! id = Some s -> s = ContainerUpToDate) /\
    (forall id, is_Some (acc.2 !! id) \/ id ∈ map msc_ID cs ->
       is_Some ((fold_left (status_step st sp) cs acc).2 !! id)) /\
    forall k, default 0 ((fold_left (status_step st sp) cs acc).1 !! k) =
              default 0 (acc.1 !! k) + on_machine k (map MachineID cs)).
  { induction Hall as [|c cs [Ha Hs] Hall IH]; intros [up sts] Hok; simpl.
    { split_and!; [done|by intros id [?|?%not_elem_of_nil]|intros k]. rewrite on_machine_0; [lia|set_solver]. }
    unfold status_step at 2 4 6. rewrite Ha, Hs. simpl.
    destruct (IH (<[MachineID c := S (default 0 (up !! MachineID c))]> up,
                  <[msc_ID c := ContainerUpToDate]> sts)) as (H1 & H2 & H3).
    { intros id s Hl. cbn [snd] in Hl. apply lookup_insert_Some in Hl as [[_ <-]|[_ Hl]]; [done|]. by apply (Hok id). }
    split_and!; [done| |].
    - intros id Hid. apply H2. simpl. destruct (decide (msc_ID c = id)) as [->|Hne].
      + left. rewrite lookup_insert_eq. eauto.
      + rewrite lookup_insert_ne by done. destruct Hid as [?|[->|?]%elem_of_cons]; [by left|done|by right].
    - intros k. rewrite H3. simpl. change (MachineID c :: ?l) with ([MachineID c] ++ l).
      rewrite on_machine_app, on_machine_single. destruct (decide (k = MachineID c)) as [->|Hne].
      + rewrite lookup_insert_eq. simpl. lia.
      + rewrite lookup_insert_ne by done. lia. }
  destruct (Hacc (∅, ∅)) as (H1 & H2 & H3); [intros id s Hl; cbn [snd] in Hl; by apply lookup_empty_Some in Hl|]. split.
  - intros c Hc. destruct (H2 (msc_ID c)) as [s Hs]; [right; by apply list_elem_of_fmap_2|].
    rewrite Hs. f_equal. by apply (H1 (msc_ID c)).
  - intros k. rewrite H3. simpl. by rewrite lookup_empty.
Qed.

Lemma replica_loop_noop st plan sp sts matched slots onMachine : matched <> [] ->
  (forall k c, c ∈ map_get onMachine k -> sts !! ID (ctr c) = Some ContainerUpToDate) ->
  (forall k, length (map_get onMachine k) = on_machine k (round_robin_over (map mi_Id matched) slots)) ->
  exists rest, replica_loop st plan sp sts matched slots onMachine = Some ([], rest) /\
    forall k, map_get rest k = [].
Proof.
  intros Hne. revert onMachine. induction slots as [|i slots IH]; intros onMachine Hup Hcount; simpl.
  { exists onMachine. split; [done|]. intros k. apply nil_length_inv. by rewrite Hcount. }
  assert (Hk : Nat.modulo i (length matched) < length matched) by (apply Nat.mod_upper_bound; by destruct matched).
  destruct (lookup_lt_is_Some_2 _ _ Hk) as [m Hm]. rewrite Hm. unfold place_replica.
  assert (Hslots : forall k, on_machine k (round_robin_over (map mi_Id matched) (i :: slots)) =
    (if decide (k = mi_Id m) then 1 else 0) + on_machine k (round_robin_over (map mi_Id matched) slots)).
  { intros k. unfold round_robin_over. simpl. rewrite length_map, list_lookup_fmap, Hm. simpl.
    change (mi_Id m :: ?l) with ([mi_Id m] ++ l). by rewrite on_machine_app, on_machine_single. }
  setoid_rewrite Hslots in Hcount.
  destruct (map_get onMachine (mi_Id m)) as [|c rest] eqn:Hg.
  { specialize (Hcount (mi_Id m)). rewrite Hg, decide_True in Hcount by done. simpl in Hcount. lia. }
  assert (Hc : sts !! ID (ctr c) = Some ContainerUpToDate) by (apply (Hup (mi_Id m)); rewrite Hg; left).
  rewrite Hc. simpl.
  destruct (IH (<[mi_Id m := rest]> onMachine)) as (rest' & -> & Hrest').
  - intros k c' Hc'. destruct (decide (mi_Id m = k)) as [<-|Hkm].
    + rewrite map_get_insert in Hc'. apply (Hup (mi_Id m)). rewrite Hg. by right.
    + apply (Hup k). unfold map_get in *. by rewrite lookup_insert_ne in Hc'.
  - intros k. specialize (Hcount k). destruct (decide (k = mi_Id m)) as [->|Hkm].
    + rewrite map_get_insert. rewrite Hg in Hcount. simpl in Hcount. lia.
    + unfold map_get in *. by rewrite lookup_insert_ne.
  - by exists rest'.
Qed.

(** Sorting machines by the number of containers aligns the slots with them. *)
Lemma sorted_slots (cnt : string -> nat) (ids : list string) n target :
  NoDup ids -> StronglySorted (fun a b => cnt b <= cnt a) ids ->
  (forall id, cnt id = on_machine id target) -> evenly_spread ids n target ->
  forall id, cnt id = on_machine id (round_robin ids n).
Proof.
  intros Hnd Hs Hcnt (Hlen & Hin & Hclose) id.
  destruct (decide (id ∈ ids)) as [[j Hj]%list_elem_of_lookup|Hid].
  - rewrite (round_robin_count ids n j id Hnd Hj).
    assert (Hsum : sum_list (map cnt ids) = n).
    { rewrite <- Hlen, <- (on_machine_total ids target Hnd Hin). f_equal. by apply map_ext. }
    rewrite <- Hsum, <- (length_map cnt ids). apply even_counts.
    + clear - Hs. induction Hs as [|a l Hs IH Hhd]; [constructor|]. simpl. constructor; [done|].
      apply Forall_forall. intros x (b & -> & Hb)%list_elem_of_fmap. rewrite Forall_forall in Hhd.
      by apply Hhd.
    + intros a b (x & -> & Hx)%list_elem_of_fmap (y & -> & Hy)%list_elem_of_fmap. rewrite !Hcnt. auto.
    + by rewrite list_lookup_fmap, Hj.
  - rewrite Hcnt, !on_machine_0; [done| |].
    + unfold round_robin, round_robin_over. rewrite list_elem_of_omap.
      intros (i & _ & Hi). by apply list_elem_of_lookup_2 in Hi.
    + intros Ht. by apply Hid, Hin.
Qed.

Lemma available_loop_sublist cs ms l : available_loop cs ms = Some l -> l `sublist_of` ms.
Proof.
  revert l; induction ms as [|m ms IH]; intros l; simpl; [by intros [= <-]|].
  destruct (evaluateConstraints cs m) as [ok|]; [|done].
  destruct (available_loop cs ms) as [l'|]; [|done]. intros [= <-].
  destruct ok; constructor; auto.
Qed.

Lemma EligibleMachines_sublist s ms : EligibleMachines s = Some (Ok ms) ->
  ms `sublist_of` state_Machines (sched_state s).
Proof.
  unfold EligibleMachines. destruct (available_loop _ _) as [l|] eqn:Hl; [|done].
  apply available_loop_sublist in Hl. by destruct l; naive_solver.
Qed.

Definition machine_ids (ms : list Machine) : list string := map (fun m => mi_Id (Info m)) ms.

Lemma eligible_ids_NoDup state sp ms : NoDup (machine_ids (state_Machines state)) ->
  EligibleMachines (NewServiceScheduler state sp) = Some (Ok ms) -> NoDup (machine_ids ms).
Proof.
  intros Hnd Hms%EligibleMachines_sublist. apply (sublist_NoDup _ _ Hnd).
  by apply (fmap_sublist (fun m => mi_Id (Info m))).
Qed.

(** With every container up to date, machines are compared by how many they have. *)
Lemma machine_less_counts (up : gmap string nat) onMachine (cnt : string -> nat) m1 m2 :
  (forall k, default 0 (up !! k) = cnt k) -> (forall k, length (map_get onMachine k) = cnt k) ->
  machine_less up onMachine m1 m2 = Nat.ltb (cnt (mi_Id m2)) (cnt (mi_Id m1)).
Proof.
  intros Hup Hlen. unfold machine_less. rewrite !Hup, !Hlen.
  destruct (Nat.ltb_spec 0 (cnt (mi_Id m1))), (Nat.ltb_spec 0 (cnt (mi_Id m2))); simpl; try done;
    symmetry; [apply Nat.ltb_lt|apply Nat.ltb_ge]; lia.
Qed.

Lemma machines_sorted (up : gmap string nat) onMachine (cnt : string -> nat) ms :
  (forall k, default 0 (up !! k) = cnt k) -> (forall k, length (map_get onMachine k) = cnt k) ->
  StronglySorted (fun a b => cnt b <= cnt a) (map mi_Id (sort_slice (machine_less up onMachine) ms)).
Proof.
  intros Hup Hlen. pose proof (machine_less_counts up onMachine cnt) as Hless.
  assert (Hsw : strict_weak (machine_less up onMachine)).
  { split_and!; intros x y z || intros x; rewrite !Hless by done; rewrite ?Nat.ltb_lt, ?Nat.ltb_ge; lia. }
  pose proof (sort_slice_sorted _ _ ms Hsw) as Hs.
  apply Sorted_StronglySorted; [intros a b c; lia|].
  induction Hs as [|m l Hs IH Hhd]; simpl; constructor; [done|].
  inversion Hhd as [|m' l' Hm']; simpl; constructor. rewrite Hless in Hm' by done.
  by apply Nat.ltb_ge in Hm'.
Qed.

(** ** Global services *)
Lemma remove_except_after sp name i j cs : i < j ->
  remove_except sp name i j cs = map (remove_from sp name) cs.
Proof.
  revert j; induction cs as [|c cs IH]; intros j Hj; simpl; [done|].
  rewrite (proj2 (Nat.eqb_neq i j)) by lia. f_equal. apply IH. lia.
Qed.

Lemma removes_from sp name cs :
  removes (map (remove_from sp name) cs) = map located cs /\
  replaces (map (remove_from sp name) cs) = [] /\ runs (map (remove_from sp name) cs) = [].
Proof. by apply removals_effects. Qed.

Lemma remove_except_effects sp name i j cs c : j <= i -> cs !! (i - j) = Some c ->
  map located cs ≡ₚ located c :: removes (remove_except sp name i j cs) /\
  replaces (remove_except sp name i j cs) = [] /\ runs (remove_except sp name i j cs) = [].
Proof.
  revert j; induction cs as [|d cs IH]; intros j Hj Hc; simpl; [done|].
  destruct (Nat.eqb_spec i j) as [->|Hij].
  - rewrite remove_except_after by lia. destruct (removes_from sp name cs) as (-> & -> & ->).
    rewrite Nat.sub_diag in Hc. injection Hc as ->. done.
  - destruct (i - j) as [|n] eqn:En; [lia|]. destruct (IH (S j)) as (H1 & H2 & H3); [lia|by replace (i - S j) with n by lia|].
    split_and!; [|done|done]. cbn. rewrite H1. apply Permutation_swap.
Qed.

Lemma up_to_date_index_spec st sp i cs :
  match up_to_date_index st sp i cs with
  | Some j => i <= j /\ exists c, cs !! (j - i) = Some c /\ up_to_date st sp (svc_ctr c)
  | None => forall c, c ∈ cs -> ~ up_to_date st sp (svc_ctr c)
  end.
Proof.
  revert i; induction cs as [|c cs IH]; intros i; simpl; [by intros c ?%not_elem_of_nil|].
  assert (Hskip : ~ up_to_date st sp (svc_ctr c) ->
    match up_to_date_index st sp (S i) cs with
    | Some j => i <= j /\ exists c0, (c :: cs) !! (j - i) = Some c0 /\ up_to_date st sp (svc_ctr c0)
    | None => forall c0, c0 ∈ c :: cs -> ~ up_to_date st sp (svc_ctr c0)
    end).
  { intros Hc. specialize (IH (S i)). destruct (up_to_date_index st sp (S i) cs) as [j|].
    - destruct IH as (Hj & c0 & Hc0 & Hup). split; [lia|]. exists c0. split; [|done].
      by replace (j - i) with (S (j - S i)) by lia.
    - intros c0 [->|H0]%elem_of_cons; [done|by apply IH]. }
  unfold up_to_date in Hskip at 1. destruct (active (svc_ctr c)) eqn:Ha; simpl; [|apply Hskip; naive_solver].
  destruct (status_of st sp (svc_ctr c)) eqn:Hs; [|apply Hskip; naive_solver..].
  split; [done|]. exists c. by rewrite Nat.sub_diag.
Qed.

Lemma stop_conflicting_effects serviceID sp m keep cs :
  let ops := omap (stop_conflicting serviceID sp m keep) cs in
  runs ops = [] /\ replaces ops = [] /\ removes ops = [].
Proof.
  cbv zeta. induction cs as [|c cs IH]; [done|]. rewrite omap_cons_eq. revert IH.
  generalize (omap (stop_conflicting serviceID sp m keep) cs). intros rest IH. unfold stop_conflicting.
  destruct (_ || _); [done|]. by destruct (ConflictingServicePorts _ _) as [[|]|].
Qed.

(** The other containers, by ID. *)
Lemma others_effects sp name (old : MachineServiceContainer) cs : NoDup (map msc_ID cs) -> old ∈ cs ->
  let ops := omap (fun c => if String.eqb (msc_ID c) (msc_ID old) then None
                            else Some (remove_from sp name c)) cs in
  map located cs ≡ₚ located old :: removes ops /\ runs ops = [] /\ replaces ops = [].
Proof.
  cbv zeta. intros Hnd Hold.
  assert (Hout : forall l, msc_ID old ∉ map msc_ID l ->
    omap (fun c => if String.eqb (msc_ID c) (msc_ID old) then None else Some (remove_from sp name c)) l
    = map (remove_from sp name) l).
  { intros l. induction l as [|c l IH]; [done|]. rewrite omap_cons_eq. cbn [map].
    intros [Hc Hl]%not_elem_of_cons. rewrite (proj2 (String.eqb_neq _ _)) by congruence. by rewrite IH. }
  induction cs as [|c cs IH]; [by apply not_elem_of_nil in Hold|]. cbn [map] in Hnd.
  apply NoDup_cons in Hnd as [Hc Hnd]. rewrite omap_cons_eq.
  destruct (String.eqb_spec (msc_ID c) (msc_ID old)) as [E|E].
  - assert (c = old) as ->.
    { apply elem_of_cons in Hold as [->|Hold]; [done|]. exfalso. apply Hc. rewrite E.
      by apply list_elem_of_fmap_2. }
    rewrite Hout by done. destruct (removes_from sp name cs) as (-> & -> & ->). done.
  - apply elem_of_cons in Hold as [->|Hold]; [done|]. destruct (IH Hnd Hold) as (H1 & H2 & H3).
    split_and!; [|done|done]. cbn. rewrite H1. apply Permutation_swap.
Qed.

(** Exactly one container is left on the machine. *)
Lemma reconcileGlobalContainer_spec st cs sp serviceID m :
  NoDup (map msc_ID cs) -> (forall c, c ∈ cs -> MachineID c = mi_Id m) ->
  reconciles st sp (map located cs) [mi_Id m] (reconcileGlobalContainer st cs sp serviceID m).
Proof.
  intros Hnd Hm. unfold reconcileGlobalContainer, reconciles.
  destruct (Nat.eqb_spec (length cs) 0) as [E|_].
  { apply nil_length_inv in E as ->. by exists []. }
  pose proof (up_to_date_index_spec st sp 0 cs) as Hup.
  destruct (up_to_date_index st sp 0 cs) as [i|].
  - destruct Hup as (Hi & c & Hc & Hup).
    destruct (remove_except_effects sp (mi_Name m) i 0 cs c Hi Hc) as (H1 & -> & ->).
    exists [located c]. split_and!; [done|by apply Forall_singleton|].
    simpl. rewrite (Hm c) by (by eapply list_elem_of_lookup_2). done.
  - clear Hup. destruct (List.find _ cs) as [old|] eqn:Hold.
    + apply List.find_some in Hold as [Hold _]. rewrite <- list_elem_of_In in Hold.
      destruct (others_effects sp (mi_Name m) old cs Hnd Hold) as (H1 & H2 & H3).
      destruct (stop_conflicting_effects serviceID sp m (msc_ID old) cs) as (S1 & S2 & S3).
      exists []. rewrite !(proj1 (effects_app _ _)), !(proj1 (proj2 (effects_app _ _))),
        !(proj2 (proj2 (effects_app _ _))), S1, S2, S3, H2, H3.
      split_and!; [|done|done]. cbn. rewrite H1. unfold located at 1. by rewrite (Hm old).
    + destruct (removes_from sp (mi_Name m) cs) as (H1 & H2 & H3). exists [].
      change (run_on st serviceID sp m :: ?l) with ([run_on st serviceID sp m] ++ l).
      rewrite !(proj1 (effects_app _ _)), !(proj1 (proj2 (effects_app _ _))),
        !(proj2 (proj2 (effects_app _ _))), H1, H2, H3. done.
Qed.

Lemma reconciles_app st sp e1 e2 t1 t2 ops1 ops2 :
  reconciles st sp e1 t1 ops1 -> reconciles st sp e2 t2 ops2 ->
  reconciles st sp (e1 ++ e2) (t1 ++ t2) (ops1 ++ ops2).
Proof.
  intros (k1 & H1 & F1 & T1) (k2 & H2 & F2 & T2). exists (k1 ++ k2).
  destruct (effects_app ops1 ops2) as (-> & -> & ->). split_and!.
  - rewrite H1, H2. solve_Permutation.
  - by apply Forall_app.
  - rewrite <- T1, <- T2, !map_app. solve_Permutation.
Qed.

Lemma reconciles_same st sp e t ops ops' :
  runs ops = runs ops' /\ replaces ops = replaces ops' /\ removes ops = removes ops' ->
  reconciles st sp e t ops' -> reconciles st sp e t ops.
Proof. unfold reconciles. by intros (-> & -> & ->). Qed.

(** Only removals. *)
Lemma reconciles_removals st sp e ops :
  e ≡ₚ removes ops -> replaces ops = [] -> runs ops = [] -> reconciles st sp e [] ops.
Proof. intros He Hp Hr. exists []. by rewrite Hp, Hr. Qed.

#[global] Instance reconciles_proper st sp :
  Proper ((≡ₚ) ==> (≡ₚ) ==> eq ==> iff) (reconciles st sp).
Proof.
  intros e e' He t t' Ht ops ? <-.
  split; intros (kept & H1 & H2 & H3); exists kept; [rewrite <- He, <- Ht|rewrite He, Ht]; done.
Qed.

(** The containers of a map by machine, each under its own machine. *)
Definition grouped (m : gmap string (list MachineServiceContainer)) : Prop :=
  NoDup (map (fun kc => msc_ID kc.2) (pairs m)) /\ forall k c, c ∈ map_get m k -> MachineID c = k.

Lemma grouped_at m k : grouped m ->
  NoDup (map msc_ID (map_get m k)) /\ (forall c, c ∈ map_get m k -> MachineID c = k) /\ grouped (delete k m).
Proof.
  intros [Hnd Hk]. rewrite (pairs_delete k m), map_app, map_map in Hnd. apply NoDup_app in Hnd as (H1 & _ & H2).
  split_and!; [done|by apply Hk|]. split; [done|]. intros k' c Hc.
  destruct (decide (k = k')) as [->|Hne]; unfold map_get in *.
  - rewrite lookup_delete_eq in Hc. by apply not_elem_of_nil in Hc.
  - rewrite lookup_delete_ne in Hc by done. by apply Hk.
Qed.

Lemma by_machine_grouped cs : NoDup (map msc_ID cs) -> grouped (by_machine id cs).
Proof.
  intros Hnd. split.
  - rewrite (by_machine_pairs id cs), map_map. done.
  - intros k c Hc. apply by_machine_at in Hc as (c' & _ & <- & ->). done.
Qed.

Definition locate_all (m : gmap string (list MachineServiceContainer)) : list (string * ServiceContainer) :=
  map (fun kc => located kc.2) (pairs m).

Lemma global_loop_spec st sp serviceID available onMachine : grouped onMachine ->
  let (ops, left) := global_loop st sp serviceID available onMachine in
  exists taken, locate_all onMachine ≡ₚ taken ++ locate_all left /\
    reconciles st sp taken (machine_ids available) ops.
Proof.
  revert onMachine. induction available as [|m ms IH]; intros onMachine Hg; simpl.
  { exists []. split; [done|]. by apply reconciles_removals. }
  destruct (grouped_at onMachine (mi_Id (Info m)) Hg) as (Hnd & Hm & Hg').
  specialize (IH _ Hg'). destruct (global_loop st sp serviceID ms _) as [ops left].
  destruct IH as (taken & Hp & Hr).
  exists (map located (map_get onMachine (mi_Id (Info m))) ++ taken). split.
  - unfold locate_all in *. rewrite (pairs_delete (mi_Id (Info m)) onMachine), map_app, map_map, Hp. simpl.
    solve_Permutation.
  - change (mi_Id (Info m) :: ?l) with ([mi_Id (Info m)] ++ l).
    apply reconciles_app; [by apply reconcileGlobalContainer_spec|done].
Qed.

Lemma planGlobal_spec st newID state svc sp : NoDup (map msc_ID (existing svc)) ->
  match planGlobal st newID state svc sp with
  | None => EligibleMachines (NewServiceScheduler state sp) = None
  | Some (Err e) => svc = None /\ newID = None \/
                    exists e', EligibleMachines (NewServiceScheduler state sp) = Some (Err e')
  | Some (Ok plan) =>
      exists ms, EligibleMachines (NewServiceScheduler state sp) = Some (Ok ms) /\
        reconciles st sp (map located (existing svc)) (machine_ids ms) (Operations plan)
  end.
Proof.
  intros Hnd. unfold planGlobal. destruct (newEmptyServicePlan newID svc sp) as [plan|e] eqn:Hplan.
  2:{ left. unfold newEmptyServicePlan in Hplan. by destruct svc, newID. }
  fold (existing svc). destruct (EligibleMachines _) as [[ms|e]|] eqn:Hms; [|by eauto|done].
  pose proof (global_loop_spec st sp (plan_ServiceID plan) ms _ (by_machine_grouped _ Hnd)) as Hloop.
  destruct (global_loop _ _ _ _ _) as [ops left]. destruct Hloop as (taken & Hp & Hr).
  exists ms. split; [done|].
  eapply reconciles_same; [apply prepend_hook_effects|].
  assert (He : map located (existing svc) ≡ₚ taken ++ locate_all left).
  { rewrite <- Hp. unfold locate_all. by rewrite (by_machine_pairs id), map_map. }
  rewrite He, <- (app_nil_r (machine_ids ms)). apply reconciles_app; [done|].
  destruct (removals_effects (fun kc => remove_from sp (default "" (machine_names state !! MachineID kc.2)) kc.2)
    (fun kc : string * MachineServiceContainer => located kc.2) (flatten (range_map 1 left))) as (Xm & Xp & Xr);
    [by intros [k c]|].
  apply reconciles_removals; [|done|done]. rewrite Xm. unfold locate_all. by rewrite pairs_range.
Qed.

Lemma prepend_hook_nil state svc plan : Operations (prepend_hook state svc (with_ops plan [])) = [].
Proof.
  unfold prepend_hook, preDeployOperations. simpl. by destruct (PreDeploy (plan_Spec plan)).
Qed.

Lemma no_pairs {V} (m : gmap string (list V)) site : (forall k, map_get m k = []) -> flatten (range_map site m) = [].
Proof.
  intros Hm. apply Permutation_nil. symmetry. rewrite pairs_range.
  assert (E : pairs m = []); [|by rewrite E]. apply elem_of_nil_inv. intros [k v] Hin.
  apply elem_of_pairs in Hin. rewrite Hm in Hin. by apply not_elem_of_nil in Hin.
Qed.

Lemma planReplicated_noop st newID state s sp ms :
  NoDup (machine_ids (state_Machines state)) ->
  EligibleMachines (NewServiceScheduler state sp) = Some (Ok ms) ->
  Forall (fun c => up_to_date st sp (svc_ctr c)) (Containers s) ->
  evenly_spread (machine_ids ms) (replica_count sp) (map MachineID (Containers s)) ->
  exists plan, planReplicated st newID state (Some s) sp = Some (Ok plan) /\ Operations plan = [].
Proof.
  intros Hnd Hms Hall Hspread. pose proof (eligible_ids_NoDup _ _ _ Hnd Hms) as Hids.
  pose proof (EligibleMachines_nonempty _ _ Hms) as Hne.
  destruct (statuses_all st sp (Containers s) Hall) as [Hsts Hup].
  unfold planReplicated. simpl. rewrite Hms.
  destruct (statuses st sp (Containers s)) as [up sts]. simpl in Hsts, Hup.
  set (sorted := sort_slice (container_less sts) (Containers s)).
  assert (Hsorted : sorted ≡ₚ Containers s) by apply sort_slice_perm.
  set (matched := sort_slice _ (any_order 0 (map Info ms))).
  assert (Hm : map mi_Id matched ≡ₚ machine_ids ms).
  { unfold matched. rewrite sort_slice_perm, any_order_perm, map_map. done. }
  assert (Hcount : forall k, length (map_get (by_machine svc_ctr sorted) k) = on_machine k (map MachineID (Containers s))).
  { intros k. by rewrite by_machine_count, Hsorted. }
  destruct (replica_loop_noop st (mkPlan (svc_ID s) (svc_Name s) false sp []) sp sts matched
    (seq 0 (replica_count sp)) (by_machine svc_ctr sorted)) as (rest & -> & Hrest).
  - intros E. rewrite E in Hm. apply Permutation_nil in Hm. by destruct ms.
  - intros k c Hc. apply by_machine_at in Hc as (c' & Hc' & _ & ->). apply Hsts. by rewrite <- Hsorted.
  - intros k. rewrite Hcount.
    refine (sorted_slots (fun k => on_machine k (map MachineID (Containers s))) (map mi_Id matched)
      (replica_count sp) (map MachineID (Containers s)) _ _ (fun _ => eq_refl) _ k).
    + by rewrite Hm.
    + by apply machines_sorted.
    + by rewrite Hm.
  - eexists. split; [done|]. rewrite no_pairs by done. apply prepend_hook_nil.
Qed.

Lemma global_loop_noop st sp serviceID ms onMachine :
  NoDup (machine_ids ms) ->
  (forall id, id ∈ machine_ids ms -> exists c, map_get onMachine id = [c] /\ up_to_date st sp (svc_ctr c)) ->
  exists left, global_loop st sp serviceID ms onMachine = ([], left) /\
    forall k, map_get left k = if decide (k ∈ machine_ids ms) then [] else map_get onMachine k.
Proof.
  revert onMachine. induction ms as [|m ms IH]; intros onMachine Hnd Hone; simpl.
  { exists onMachine. split; [done|]. done. }
  apply NoDup_cons in Hnd as [Hm Hnd].
  destruct (Hone (mi_Id (Info m))) as (c & -> & Ha & Hs); [left|].
  unfold reconcileGlobalContainer. simpl. rewrite Ha, Hs. simpl.
  destruct (IH (delete (mi_Id (Info m)) onMachine) Hnd) as (left & -> & Hleft).
  { intros id Hid. destruct (Hone id) as (c' & Hc' & Hup'); [by right|]. exists c'. split; [|done].
    rewrite <- Hc'. unfold map_get. rewrite lookup_delete_ne; [done|]. intros E. apply Hm. by rewrite E. }
  exists left. split; [done|]. intros k. rewrite Hleft.
  destruct (decide (k ∈ machine_ids ms)) as [Hk|Hk].
  - by rewrite decide_True by (by right).
  - destruct (decide (k = mi_Id (Info m))) as [->|Hne].
    + rewrite decide_True by left. unfold map_get. by rewrite lookup_delete_eq.
    + rewrite decide_False by (by intros [?|?]%elem_of_cons). unfold map_get. by rewrite lookup_delete_ne.
Qed.

Lemma planGlobal_noop st newID state s sp ms :
  NoDup (machine_ids (state_Machines state)) ->
  EligibleMachines (NewServiceScheduler state sp) = Some (Ok ms) ->
  Forall (fun c => up_to_date st sp (svc_ctr c)) (Containers s) ->
  map MachineID (Containers s) ≡ₚ machine_ids ms ->
  exists plan, planGlobal st newID state (Some s) sp = Some (Ok plan) /\ Operations plan = [].
Proof.
  intros Hnd Hms Hall Hids. pose proof (eligible_ids_NoDup _ _ _ Hnd Hms) as Hnd'.
  unfold planGlobal. simpl. rewrite Hms.
  assert (Hcount : forall k, length (map_get (by_machine id (Containers s)) k) = on_machine k (machine_ids ms)).
  { intros k. by rewrite by_machine_count, Hids. }
  destruct (global_loop_noop st sp (svc_ID s) ms (by_machine id (Containers s)) Hnd') as (left & -> & Hleft).
  - intros k Hk. specialize (Hcount k). apply list_elem_of_lookup in Hk as [j Hj].
    assert (Hc1 : on_machine k (machine_ids ms) = 1).
    { rewrite <- (take_drop_middle _ _ _ Hj). change (k :: ?l) with ([k] ++ l).
      rewrite !on_machine_app, on_machine_single, decide_True by done.
      rewrite <- (take_drop_middle _ _ _ Hj) in Hnd'. apply NoDup_app in Hnd' as (_ & H1 & H2).
      apply NoDup_cons in H2 as [H2 _]. rewrite !on_machine_0; [lia|done|].
      intros Hk. apply (H1 k Hk). left. }
    rewrite Hc1 in Hcount. destruct (map_get _ k) as [|c [|]] eqn:Hg; try done. exists c. split; [done|].
    assert (Hc : c ∈ map_get (by_machine id (Containers s)) k) by (rewrite Hg; left).
    apply by_machine_at in Hc as (c' & Hc' & _ & ->). rewrite Forall_forall in Hall. by apply Hall.
  - eexists. split; [done|]. rewrite no_pairs; [apply prepend_hook_nil|]. intros k. rewrite Hleft.
    destruct (decide (k ∈ machine_ids ms)) as [Hk|Hk]; [done|]. apply nil_length_inv.
    by rewrite Hcount, on_machine_0.
Qed.
End Strategy.

(** What a plan for a replicated service does, for machines with distinct IDs. *)
Lemma planReplicated_outcome {HS : GoSort} {HC : GoCmp} {HO : GoOrder}
  (st : RollingStrategy) (newID : option string) (state : ClusterState) (svc : option Service) (sp : ServiceSpec) :
  NoDup (map msc_ID (existing svc)) -> NoDup (machine_ids (state_Machines state)) ->
  match planReplicated st newID state svc sp with
  | None => EligibleMachines (NewServiceScheduler state sp) = None
  | Some (Err e) => svc = None /\ newID = None \/
                    exists e', EligibleMachines (NewServiceScheduler state sp) = Some (Err e')
  | Some (Ok plan) =>
      exists ms target, EligibleMachines (NewServiceScheduler state sp) = Some (Ok ms) /\
        evenly_spread (machine_ids ms) (replica_count sp) target /\
        reconciles st sp (map located (existing svc)) target (Operations plan)
  end.
Proof.
  intros Hnd Hm. pose proof (planReplicated_spec st newID state svc sp Hnd) as Hspec.
  destruct (planReplicated st newID state svc sp) as [[plan|e]|]; [|done..].
  destruct Hspec as (ms & ids & Hms & Hids & Hr). fold (machine_ids ms) in Hids.
  exists ms, (round_robin ids (replica_count sp)). split_and!; [done| |done].
  rewrite <- Hids. pose proof (eligible_ids_NoDup _ _ _ Hm Hms) as Hnd'. rewrite <- Hids in Hnd'.
  apply round_robin_spread; [|done]. intros ->. apply Permutation_nil in Hids.
  pose proof (EligibleMachines_nonempty _ _ Hms). by destruct ms.
Qed.

(** The two modes together. *)
Lemma rolling_plan_reconciles {HS : GoSort} {HC : GoCmp} {HO : GoOrder}
  (st : RollingStrategy) (newID : option string) (state : ClusterState) (svc : option Service) (sp : ServiceSpec) p :
  NoDup (map msc_ID (existing svc)) -> NoDup (machine_ids (state_Machines state)) ->
  Plan st newID (Some state) svc sp = Some (Ok p) ->
  exists ms target, EligibleMachines (NewServiceScheduler state sp) = Some (Ok ms) /\
    reconciles st sp (map located (existing svc)) target (Operations p) /\
    (SMode sp = ServiceModeReplicated -> evenly_spread (machine_ids ms) (replica_count sp) target) /\
    (SMode sp = ServiceModeGlobal -> target = machine_ids ms).
Proof.
  intros Hnd Hm. unfold Plan. destruct (String.eqb_spec (SMode sp) ServiceModeReplicated) as [E|E];
    [|destruct (String.eqb_spec (SMode sp) ServiceModeGlobal); [|done]]; intros Hp.
  - pose proof (planReplicated_outcome st newID state svc sp Hnd Hm) as H. rewrite Hp in H.
    destruct H as (ms & target & ? & ? & ?). exists ms, target. rewrite E. done.
  - pose proof (planGlobal_spec st newID state svc sp Hnd) as H. rewrite Hp in H.
    destruct H as (ms & ? & ?). by exists ms, (machine_ids ms).
Qed.

(** ** Properties *)

(** C3: a plan for a replicated service accounts for every existing container exactly once:
    it is kept because it already runs the desired specification, replaced on its machine, or
    removed; and after the plan exactly [replica_count] containers are left, all on eligible
    machines and spread over them with a difference of at most one.  This holds whatever
    order the shuffle, the sorts and the map ranges choose, for containers and machines with
    distinct IDs; planning panics or fails only if selecting the machines does, or if no ID
    could be generated for a new service. *)
Theorem planReplicated_reconciles {HS : GoSort} {HC : GoCmp} {HO : GoOrder}
  (st : RollingStrategy) (newID : option string) (state : ClusterState) (svc : option Service) (sp : ServiceSpec) :
  NoDup (map msc_ID (existing svc)) -> NoDup (machine_ids (state_Machines state)) ->
  match planReplicated st newID state svc sp with
  | None => EligibleMachines (NewServiceScheduler state sp) = None
  | Some (Err e) => svc = None /\ newID = None \/
                    exists e', EligibleMachines (NewServiceScheduler state sp) = Some (Err e')
  | Some (Ok plan) =>
      exists ms target, EligibleMachines (NewServiceScheduler state sp) = Some (Ok ms) /\
        evenly_spread (machine_ids ms) (replica_count sp) target /\
        reconciles st sp (map located (existing svc)) target (Operations plan)
  end.
Proof. apply planReplicated_outcome. Qed.

Definition container_on (mid id : string) (sp : ServiceSpec) (running : bool) : MachineServiceContainer :=
  mkMSC mid mid (mkServiceContainer
    (Container.mkContainer id id None
       (Container.mkState running false false false 0 "" None None None) None "" None None) sp).

Definition two_machines : ClusterState :=
  Scheduler.mkState [mkMachine (mkMachineInfo "a1" "alpha") [] []; mkMachine (mkMachineInfo "b1" "beta") [] []].
Definition three_replicas : ServiceSpec :=
  mkServiceSpec None None (plain_container "nginx" []) "replicated" "web" (mkPlacement None) None None 3
    (mkUpdateConfig "" None) None.
Definition old_replicas : ServiceSpec :=
  mkServiceSpec None None (plain_container "nginx:1" []) "replicated" "web" (mkPlacement None) None None 3
    (mkUpdateConfig "" None) None.
Definition web_service : Service :=
  mkService "1" "web" "replicated"
    [container_on "b1" "x" old_replicas true; container_on "b1" "y" three_replicas true;
     container_on "b1" "z" three_replicas false; container_on "c1" "w" three_replicas true] [].

Lemma planReplicated_reconciles_witness :
  exists plan ms target,
    @planReplicated go_insertion_sort go_cmp_decide go_identity_order (mkRolling false false) None two_machines
      (Some web_service) three_replicas = Some (Ok plan) /\
    evenly_spread (machine_ids ms) 3 target /\
    @reconciles go_insertion_sort go_cmp_decide (mkRolling false false) three_replicas
      (map located (Containers web_service)) target (Operations plan).
Proof.
  assert (Hids : NoDup (map msc_ID (existing (Some web_service)))) by (by apply (bool_decide_unpack _)).
  assert (Hms : NoDup (machine_ids (state_Machines two_machines))) by (by apply (bool_decide_unpack _)).
  pose proof (@planReplicated_reconciles go_insertion_sort go_cmp_decide go_identity_order (mkRolling false false)
    None two_machines (Some web_service) three_replicas Hids Hms) as H.
  destruct (planReplicated _ _ _ _ _) as [[p|]|] eqn:E; [|by vm_compute in E..].
  destruct H as (ms & target & _ & Hs & Hr). exists p, ms, target. split; [reflexivity|]. split; [exact Hs|exact Hr].
Defined.

(** C4: the same for a global service: every existing container is kept because it runs the
    desired specification, replaced, or removed, and after the plan exactly one container is
    left on each eligible machine, and none elsewhere. *)
Theorem planGlobal_reconciles {HS : GoSort} {HC : GoCmp} {HO : GoOrder}
  (st : RollingStrategy) (newID : option string) (state : ClusterState) (svc : option Service) (sp : ServiceSpec) :
  NoDup (map msc_ID (existing svc)) ->
  match planGlobal st newID state svc sp with
  | None => EligibleMachines (NewServiceScheduler state sp) = None
  | Some (Err e) => svc = None /\ newID = None \/
                    exists e', EligibleMachines (NewServiceScheduler state sp) = Some (Err e')
  | Some (Ok plan) =>
      exists ms, EligibleMachines (NewServiceScheduler state sp) = Some (Ok ms) /\
        reconciles st sp (map located (existing svc)) (machine_ids ms) (Operations plan)
  end.
Proof. apply planGlobal_spec. Qed.

Lemma planGlobal_reconciles_witness :
  exists plan ms,
    @planGlobal go_insertion_sort go_cmp_decide go_identity_order (mkRolling false false) None two_machines
      (Some web_service) three_replicas = Some (Ok plan) /\
    @reconciles go_insertion_sort go_cmp_decide (mkRolling false false) three_replicas
      (map located (Containers web_service)) (machine_ids ms) (Operations plan).
Proof.
  assert (Hids : NoDup (map msc_ID (existing (Some web_service)))) by (by apply (bool_decide_unpack _)).
  pose proof (@planGlobal_reconciles go_insertion_sort go_cmp_decide go_identity_order (mkRolling false false)
    None two_machines (Some web_service) three_replicas Hids) as H.
  destruct (planGlobal _ _ _ _ _) as [[p|]|] eqn:E; [|by vm_compute in E..].
  destruct H as (ms & _ & Hr). exists p, ms. split; [reflexivity|exact Hr].
Defined.

(** C5: planning is idempotent: when every container of the service already runs the desired
    specification and they sit where a plan would leave them (spread evenly for a replicated
    service, one per eligible machine for a global one), the plan has no operations, whatever
    the shuffle, the sorts and the map ranges do. *)
Theorem converged_plan_empty {HS : GoSort} {HC : GoCmp} {HO : GoOrder}
  (st : RollingStrategy) (newID : option string) (state : ClusterState) (s : Service) (sp : ServiceSpec)
  (ms : list Machine) :
  NoDup (machine_ids (state_Machines state)) ->
  EligibleMachines (NewServiceScheduler state sp) = Some (Ok ms) ->
  Forall (fun c => up_to_date st sp (svc_ctr c)) (Containers s) ->
  (SMode sp = ServiceModeReplicated /\
     evenly_spread (machine_ids ms) (replica_count sp) (map MachineID (Containers s))) \/
  (SMode sp = ServiceModeGlobal /\ map MachineID (Containers s) ≡ₚ machine_ids ms) ->
  exists plan, Plan st newID (Some state) (Some s) sp = Some (Ok plan) /\ Operations plan = [].
Proof.
  intros Hnd Hms Hall [[Hmode Hspread]|[Hmode Hids]]; unfold Plan; rewrite Hmode; simpl.
  - by apply planReplicated_noop with ms.
  - by apply planGlobal_noop with ms.
Qed.

Definition settled_service : Service :=
  mkService "1" "web" "replicated"
    [container_on "b1" "x" three_replicas true; container_on "a1" "y" three_replicas true;
     container_on "b1" "z" three_replicas true] [].

Lemma converged_plan_empty_witness :
  exists plan, @Plan go_insertion_sort go_cmp_decide go_identity_order (mkRolling false false) None
    (Some two_machines) (Some settled_service) three_replicas = Some (Ok plan) /\ Operations plan = [].
Proof.
  apply (@converged_plan_empty go_insertion_sort go_cmp_decide go_identity_order (mkRolling false false)
    None two_machines settled_service three_replicas (state_Machines two_machines)).
  - by apply (bool_decide_unpack _).
  - reflexivity.
  - repeat constructor.
  - left. split; [reflexivity|]. split; [reflexivity|]. split.
    + intros id Hid. cbn in Hid |- *. set_solver.
    + intros id1 id2 H1 H2. cbn in H1, H2. set_unfold.
      destruct H1 as [->|[->|[]]], H2 as [->|[->|[]]]; apply Nat.leb_le; reflexivity.
Defined.

(** An update that does not ask for an order is start-first only when that is safe: the
    ports of the old container could be read, none of the host ports of the new specification
    competes with them, and a service of at most one replica mounts no Docker volume. *)
Lemma start_first_is_safe {HO : GoOrder} (old : ServiceContainer) (sp : ServiceSpec) :
  Order (UpdateConfig_ sp) = "" ->
  determineUpdateOrder old sp = UpdateOrderStopFirst \/
  (determineUpdateOrder old sp = UpdateOrderStartFirst /\
   (exists svcPorts, ServicePorts old = Ok svcPorts /\
      forall p sp', p ∈ els (Ports sp) -> sp' ∈ els svcPorts -> Mode p = PortModeHost -> ~ competes sp' p) /\
   ((Replicas sp <= 1)%N -> mounted_volumes sp = ∅)).
Proof.
  intros Ho. unfold determineUpdateOrder. rewrite Ho. simpl. unfold ConflictingServicePorts.
  destruct (ServicePorts old) as [svcPorts|e]; [|by left].
  destruct (Nat.ltb_spec 0 (length (conflicting_ports (els svcPorts) (els (Ports sp))))) as [?|Hc]; [by left|].
  destruct ((Replicas sp <=? 1)%N && _) eqn:Hv; [by left|right]. split; [done|]. split.
  - exists svcPorts. split; [done|]. intros p sp' Hp Hsp Hm Hcomp.
    assert (Hin : p ∈ conflicting_ports (els svcPorts) (els (Ports sp))).
    { apply conflicting_ports_spec. split_and!; [done|done|]. by exists sp'. }
    destruct (conflicting_ports _ _); [by apply not_elem_of_nil in Hin|simpl in Hc; lia].
  - intros Hr. apply N.leb_le in Hr. rewrite Hr in Hv. simpl in Hv. apply Nat.ltb_ge in Hv.
    rewrite Mounted_length in Hv. apply map_size_empty_inv. lia.
Qed.

