(* ===== verification/Deployment.v ===== *)
(** * Deployment: planning and running the deployment of services

    [pkg/client/deploy/deploy.go] and the deployment of a compose project,
    [pkg/client/compose/deploy.go] and [plan.go].  A [Deployment] is the state threaded
    through [Validate], [Plan] and [Run].  The cluster client is a record of the answers its
    calls give; a strategy is an interface, with the contract [StrategyLaws] the rolling
    strategy satisfies.  [None] is a panic inherited from the evaluation of constraints. *)

From S2P Require Import Prelude GoStrings Port Volume ConfigSpec Spec Resolver Container Scheduler VolumeScheduler.
From S2P Require Import SpecChange Operation Strategy.
#[local] Open Scope string_scope.
#[local] Open Scope list_scope.

(** ** Strategies *)

(** The interface [Strategy]. *)
Record DeployStrategy := mkStrategy {
  strat_Type : string;
  strat_Plan : option ClusterState -> option Service -> ServiceSpec ->
               option (result plan_error ServicePlan)
}.

(** A plan is for the specification and the service it was asked for. *)
Class StrategyLaws (strat : DeployStrategy) := {
  plan_for_spec : forall state svc sp p, strat_Plan strat state svc sp = Some (Ok p) -> plan_Spec p = sp;
  plan_for_service : forall state svc sp p, strat_Plan strat state svc sp = Some (Ok p) ->
    match svc with
    | Some s => plan_ServiceID p = svc_ID s /\ plan_ServiceName p = svc_Name s /\ IsNewService p = false
    | None => plan_ServiceName p = SName sp /\ IsNewService p = true
    end
}.

Definition rolling `{GoSort, GoCmp, GoOrder} (st : RollingStrategy) (newID : option string) : DeployStrategy :=
  mkStrategy "rolling" (Strategy.Plan st newID).

(** ** Deployments *)
Section Deploy.
Context {HS : GoSort} {HC : GoCmp} {HO : GoOrder}.
Context {Named RefError E : Type} (ParseDockerRef : string -> result RefError Named)
  (FamiliarName : Named -> string).

(** What the client's calls return while a plan is made. *)
Record DeployClient := mkDeployClient {
  dc_InspectService : string -> result E Service;
  dc_GetDomain : result E string;
  dc_members : option (list MachineInfo);
  dc_volumes : option (list MachineVolume);
  dc_is_not_found : E -> bool
}.

Record Deployment := mkDeployment {
  dp_Service : option Service;
  dp_Spec : ServiceSpec;
  dp_Strategy : DeployStrategy;
  dp_plan : option ServicePlan;
  dp_state : option ClusterState
}.

(** [NewDeployment]; the nil strategy is the rolling one without options. *)
Definition NewDeployment (newID : option string) (s : ServiceSpec) (strategy : option DeployStrategy) : Deployment :=
  mkDeployment None s (default (rolling (mkRolling false false) newID) strategy) None None.

Definition NewDeploymentWithClusterState (newID : option string) (s : ServiceSpec) (strategy : option DeployStrategy)
  (state : option ClusterState) : Deployment :=
  let d := NewDeployment newID s strategy in
  mkDeployment (dp_Service d) (dp_Spec d) (dp_Strategy d) (dp_plan d) state.

Inductive validate_error :=
| InvalidServiceSpec (e : @service_error RefError)
| InspectServiceFailed (e : E)
| NameCannotChange
| ModeCannotChange.

Inductive deploy_error :=
| InvalidDeployment (e : validate_error)
| GetDomainFailed (e : E)
| ResolveFailed (e : @resolve_error RefError)
| InspectStateFailed (e : inspect_error)
| PlanFailed (strategy : string) (e : plan_error).

Definition with_service (d : Deployment) (svc : option Service) : Deployment :=
  mkDeployment svc (dp_Spec d) (dp_Strategy d) (dp_plan d) (dp_state d).
Definition with_state (d : Deployment) (state : option ClusterState) : Deployment :=
  mkDeployment (dp_Service d) (dp_Spec d) (dp_Strategy d) (dp_plan d) state.
Definition with_plan (d : Deployment) (plan : ServicePlan) : Deployment :=
  mkDeployment (dp_Service d) (dp_Spec d) (dp_Strategy d) (Some plan) (dp_state d).

(** The service the deployment updates, looked up by name unless it is known. *)
Definition find_service (cli : DeployClient) (d : Deployment) : result validate_error (option Service) :=
  match dp_Service d with
  | Some svc => Ok (Some svc)
  | None =>
      if String.eqb (SName (dp_Spec d)) "" then Ok None
      else match dc_InspectService cli (SName (dp_Spec d)) with
           | Ok svc => Ok (Some svc)
           | Err e => if dc_is_not_found cli e then Ok None else Err (InspectServiceFailed e)
           end
  end.

Definition Validate (cli : DeployClient) (d : Deployment) : Deployment * result validate_error unit :=
  match service_Validate ParseDockerRef (dp_Spec d) with
  | Err e => (d, Err (InvalidServiceSpec e))
  | Ok _ =>
      match find_service cli d with
      | Err e => (d, Err e)
      | Ok found =>
          let d := with_service d found in
          match dp_Service d with
          | None => (d, Ok tt)
          | Some svc =>
              if negb (String.eqb (svc_Name svc) (SName (dp_Spec d))) then (d, Err NameCannotChange)
              else
                let mode := if String.eqb (SMode (dp_Spec d)) "" then ServiceModeReplicated
                            else SMode (dp_Spec d) in
                if negb (String.eqb mode (svc_Mode svc)) then (d, Err ModeCannotChange) else (d, Ok tt)
          end
      end
  end.

(** The cluster state is inspected unless the deployment came with one. *)
Definition inspect_state (cli : DeployClient) (d : Deployment) : result inspect_error Deployment :=
  match dp_state d with
  | Some _ => Ok d
  | None => match InspectClusterState (dc_members cli) (dc_volumes cli) with
            | Ok st => Ok (with_state d (Some st))
            | Err e => Err e
            end
  end.

Definition domain_of (cli : DeployClient) : result E string :=
  match dc_GetDomain cli with
  | Ok domain => Ok domain
  | Err e => if dc_is_not_found cli e then Ok "" else Err e
  end.

(** The strategy's plan, remembered by the deployment. *)
Definition make_plan (d : Deployment) (resolvedSpec : ServiceSpec) :
  Deployment * option (result deploy_error ServicePlan) :=
  match strat_Plan (dp_Strategy d) (dp_state d) (dp_Service d) resolvedSpec with
  | None => (d, None)
  | Some (Err e) => (d, Some (Err (PlanFailed (strat_Type (dp_Strategy d)) e)))
  | Some (Ok plan) => (with_plan d plan, Some (Ok plan))
  end.

(** [Plan]; [draws] are the random characters of a generated name. *)
Definition Plan (cli : DeployClient) (draws : nat -> draw) (d : Deployment) :
  Deployment * option (result deploy_error ServicePlan) :=
  match dp_plan d with
  | Some plan => (d, Some (Ok plan))
  | None =>
      match Validate cli d with
      | (d, Err e) => (d, Some (Err (InvalidDeployment e)))
      | (d, Ok _) =>
          match domain_of cli with
          | Err e => (d, Some (Err (GetDomainFailed e)))
          | Ok domain =>
              match Resolve ParseDockerRef FamiliarName (mkResolver domain) draws (dp_Spec d) with
              | Err e => (d, Some (Err (ResolveFailed e)))
              | Ok resolvedSpec =>
                  match inspect_state cli d with
                  | Err e => (d, Some (Err (InspectStateFailed e)))
                  | Ok d => make_plan d resolvedSpec
                  end
              end
          end
      end
  end.

Inductive run_error {E'} := CreatePlanFailed (e : deploy_error) | ExecuteFailed (e : op_error E').
#[global] Arguments run_error : clear implicits.

(** [Run]: the plan, executed on the containers of the cluster [w]. *)
Definition Run {W E'} (cli : DeployClient) (containers : Client W E') (draws : nat -> draw)
  (events : list wait_event) (d : Deployment) (w : W) :
  Deployment * option (W * result (run_error E') ServicePlan) :=
  match Plan cli draws d with
  | (d, None) => (d, None)
  | (d, Some (Err e)) => (d, Some (w, Err (CreatePlanFailed e)))
  | (d, Some (Ok plan)) =>
      (d, match execute_sequence containers (Operations plan) events w with
          | None => None
          | Some (w, Err e) => Some (w, Err (ExecuteFailed e))
          | Some (w, Ok _) => Some (w, Ok plan)
          end)
  end.
End Deploy.

(** ** Lemmas *)
Lemma newEmptyServicePlan_for newID svc sp p : newEmptyServicePlan newID svc sp = Ok p ->
  plan_Spec p = sp /\ match svc with
    | Some s => plan_ServiceID p = svc_ID s /\ plan_ServiceName p = svc_Name s /\ IsNewService p = false
    | None => plan_ServiceName p = SName sp /\ IsNewService p = true
    end.
Proof. unfold newEmptyServicePlan. destruct svc; [|destruct newID]; by intros [= <-]. Qed.

Lemma prepend_hook_for `{GoOrder} state svc p : exists ops, prepend_hook state svc p = with_ops p ops.
Proof. unfold prepend_hook. destruct (Nat.ltb _ _); [by eauto|]. exists (Operations p). by destruct p. Qed.

Lemma rolling_plan_for `{GoSort, GoCmp, GoOrder} st newID state svc sp p :
  Strategy.Plan st newID state svc sp = Some (Ok p) ->
  exists p0 ops, newEmptyServicePlan newID svc sp = Ok p0 /\ p = with_ops p0 ops.
Proof.
  unfold Strategy.Plan. destruct state as [state|]; [|done].
  destruct (String.eqb _ _); [|destruct (String.eqb _ _); [|done]].
  - unfold planReplicated. destruct (newEmptyServicePlan _ _ _) as [p0|]; [|done].
    destruct (EligibleMachines _) as [[ms|]|]; [|done..]. destruct (statuses _ _ _) as [up sts].
    destruct (replica_loop _ _ _ _ _ _ _) as [[ops rest]|]; [|done]. intros [= <-].
    edestruct prepend_hook_for as [ops' ->]. by exists p0, ops'.
  - unfold planGlobal. destruct (newEmptyServicePlan _ _ _) as [p0|]; [|done].
    destruct (EligibleMachines _) as [[ms|]|]; [|done..].
    destruct (global_loop _ _ _ _ _) as [ops rest]. intros [= <-].
    edestruct prepend_hook_for as [ops' ->]. by exists p0, ops'.
Qed.

#[export] Instance rolling_laws `{GoSort, GoCmp, GoOrder} st newID : StrategyLaws (rolling st newID).
Proof.
  split; intros state svc sp p (p0 & ops & Hp0 & ->)%rolling_plan_for;
    by apply newEmptyServicePlan_for in Hp0 as [? ?].
Qed.

Section Facts.
Context {HS : GoSort} {HC : GoCmp} {HO : GoOrder}.
Context {Named RefError E : Type} (ParseDockerRef : string -> result RefError Named)
  (FamiliarName : Named -> string) (cli : DeployClient (E := E)).

(** The mode a specification without one stands for. *)
Definition mode_of (s : ServiceSpec) : string :=
  if String.eqb (SMode s) "" then ServiceModeReplicated else SMode s.

(** What the cluster says: the service of a name, if there is one, and its domain, if there is one. *)
Definition service_answer (name : string) (svc : option Service) : Prop :=
  match svc with
  | Some svc => dc_InspectService cli name = Ok svc
  | None => name = "" \/ exists e, dc_InspectService cli name = Err e /\ dc_is_not_found cli e = true
  end.
Definition domain_answer (domain : string) : Prop :=
  dc_GetDomain cli = Ok domain \/
  domain = "" /\ exists e, dc_GetDomain cli = Err e /\ dc_is_not_found cli e = true.

Lemma domain_of_answer domain : domain_of cli = Ok domain -> domain_answer domain.
Proof.
  unfold domain_of, domain_answer. destruct (dc_GetDomain cli) as [dom|e]; [intros [= <-]; by left|].
  destruct (dc_is_not_found cli e) eqn:He; [|done]. intros [= <-]. right. eauto.
Qed.

(** A plan of [s] for the service the cluster has: it keeps its identity and mode, and is a
    new one only if there is none. *)
Definition plan_updates (s : ServiceSpec) (svc : option Service) (p : ServicePlan) : Prop :=
  match svc with
  | Some svc => svc_Name svc = SName s /\ svc_Mode svc = mode_of s /\ plan_ServiceID p = svc_ID svc /\
                plan_ServiceName p = SName s /\ IsNewService p = false
  | None => IsNewService p = true
  end.

(** What a deployment updates: the service of its name, if there is one. *)
Definition target_of (d : Deployment) (svc : option Service) : Prop :=
  match svc with
  | Some svc => svc_Name svc = SName (dp_Spec d) /\ svc_Mode svc = mode_of (dp_Spec d) /\
                (dp_Service d = Some svc \/ dc_InspectService cli (SName (dp_Spec d)) = Ok svc)
  | None => dp_Service d = None /\
            (SName (dp_Spec d) = "" \/ exists e, dc_InspectService cli (SName (dp_Spec d)) = Err e /\
                                                dc_is_not_found cli e = true)
  end.

Lemma Validate_same d d' r : Validate ParseDockerRef cli d = (d', r) -> d' = with_service d (dp_Service d').
Proof.
  unfold Validate. destruct (service_Validate _ _); [|intros [= <- _]; by destruct d].
  destruct (find_service _ _) as [[svc|]|]; [|intros [= <- _]; by destruct d..].
  cbn [dp_Service dp_Spec with_service]. destruct (negb _); [intros [= <- _]; by destruct d|].
  destruct (negb _); intros [= <- _]; by destruct d.
Qed.

Lemma Validate_Ok d d' : Validate ParseDockerRef cli d = (d', Ok tt) ->
  service_Validate ParseDockerRef (dp_Spec d) = Ok tt /\ target_of d (dp_Service d').
Proof.
  unfold Validate. destruct (service_Validate _ _) as [[]|]; [|done]. intros H. split; [done|]. revert H.
  destruct (find_service cli d) as [found|] eqn:Hf; [|done]. cbn [dp_Service dp_Spec with_service].
  assert (Hfound : match found with
            | Some svc => dp_Service d = Some svc \/ dc_InspectService cli (SName (dp_Spec d)) = Ok svc
            | None => target_of d None end).
  { revert Hf. unfold find_service, target_of. destruct (dp_Service d) as [svc|]; [intros [= <-]; by left|].
    destruct (String.eqb_spec (SName (dp_Spec d)) ""); [intros [= <-]; eauto|].
    destruct (dc_InspectService _ _) as [svc|e] eqn:Hi; [intros [= <-]; by right|].
    destruct (dc_is_not_found cli e) eqn:Hnf; [|done]. intros [= <-]. eauto. }
  destruct found as [svc|]; [|intros [= <-]; exact Hfound].
  destruct (String.eqb_spec (svc_Name svc) (SName (dp_Spec d))) as [Hn|]; cbn [negb]; [|done].
  destruct (String.eqb_spec (if String.eqb (SMode (dp_Spec d)) "" then ServiceModeReplicated else SMode (dp_Spec d))
              (svc_Mode svc)) as [Hm|]; cbn [negb]; [|done].
  intros [= <-]. split_and!; done.
Qed.

(** What the plan [p] of the deployment [d] is for; [sp] is the resolved specification. *)
Record plans_for (d d' : Deployment) (domain : string) (sp : ServiceSpec) (p : ServicePlan) : Prop := {
  pf_domain : domain_of cli = Ok domain;
  pf_valid : service_Validate ParseDockerRef (dp_Spec d) = Ok tt;
  pf_deployable : deployable ParseDockerRef domain (dp_Spec d) sp;
  pf_spec : plan_Spec p = sp;
  pf_target : target_of d (dp_Service d');
  pf_service : match dp_Service d' with
               | Some svc => plan_ServiceID p = svc_ID svc /\ plan_ServiceName p = SName (dp_Spec d) /\
                             svc_Mode svc = SMode sp /\ IsNewService p = false
               | None => plan_ServiceName p = SName sp /\ IsNewService p = true
               end;
  pf_strategy : exists state, dp_state d' = Some state /\
                  (dp_state d = Some state \/
                   dp_state d = None /\ InspectClusterState (dc_members cli) (dc_volumes cli) = Ok state) /\
                  strat_Plan (dp_Strategy d) (Some state) (dp_Service d') sp = Some (Ok p)
}.

Lemma plans_for_service d d' domain sp p : dp_Service d = None -> plans_for d d' domain sp p ->
  service_answer (SName (dp_Spec d)) (dp_Service d') /\ plan_updates (dp_Spec d) (dp_Service d') p /\ domain_answer domain.
Proof.
  intros Hnone [Hdom _ _ _ Htarget Hsvc _]. split_and!; [| |by apply domain_of_answer].
  - unfold target_of in Htarget. destruct (dp_Service d') as [svc|]; [|apply Htarget].
    destruct Htarget as (_ & _ & [H|H]); [by rewrite Hnone in H|done].
  - unfold plan_updates, target_of in *. destruct (dp_Service d') as [svc|]; [|apply Hsvc]. naive_solver.
Qed.

Lemma Resolve_Ok r draws s s' : Resolve ParseDockerRef FamiliarName r draws s = Ok s' ->
  service_Validate ParseDockerRef s = Ok tt /\ deployable ParseDockerRef (ClusterDomain r) s s'.
Proof. intros H. pose proof (Resolve_outcome ParseDockerRef FamiliarName r draws s) as Ho. by rewrite H in Ho. Qed.

Lemma Plan_Ok draws d d' p : StrategyLaws (dp_Strategy d) -> dp_plan d = None ->
  Plan ParseDockerRef FamiliarName cli draws d = (d', Some (Ok p)) ->
  dp_plan d' = Some p /\ exists domain sp, plans_for d d' domain sp p.
Proof.
  intros [Hspec Hsvc] Hnone. unfold Plan. rewrite Hnone.
  destruct (Validate _ _ d) as [d1 [[]|e]] eqn:Hv; [|done].
  pose proof (Validate_same _ _ _ Hv) as Hd1. apply Validate_Ok in Hv as [Hvalid Htarget].
  destruct (domain_of cli) as [domain|] eqn:Hdom; [|done].
  destruct (Resolve _ _ _ _ _) as [sp|] eqn:Hr; [|done]. apply Resolve_Ok in Hr as [_ Hdep].
  unfold inspect_state. rewrite Hd1 in Hdep |- *. cbn in Hdep.
  assert (Hfin : forall state, (dp_state d = Some state \/
              dp_state d = None /\ InspectClusterState (dc_members cli) (dc_volumes cli) = Ok state) ->
            make_plan (RefError := RefError) (E := E)
              (with_state (with_service d (dp_Service d1)) (Some state)) sp = (d', Some (Ok p)) ->
            dp_plan d' = Some p /\ exists domain sp, plans_for d d' domain sp p).
  { intros state Hst. unfold make_plan. cbn. destruct (strat_Plan _ _ _ _) as [[plan|]|] eqn:Hp; [|done..].
    intros [= <- ->]. cbn. split; [done|]. exists domain, sp. constructor; cbn; try done.
    - by apply Hspec in Hp.
    - apply Hsvc in Hp. destruct (dp_Service d1) as [svc|]; [|done].
      destruct Hp as (-> & -> & ->). destruct Htarget as (-> & -> & _). split_and!; try done.
      symmetry. apply (dep_mode _ _ _ _ Hdep).
    - by exists state. }
  cbn [dp_state with_service]. destruct (dp_state d) as [state|] eqn:Hst.
  - intros H. apply (Hfin state); [by left|]. unfold with_state, with_service. cbn. by rewrite <- Hst.
  - destruct (InspectClusterState _ _) as [state|] eqn:Hi; [|done]. apply (Hfin state); by right.
Qed.

Lemma make_plan_not_Ok (d d' : Deployment) sp (r : option (result (deploy_error (RefError := RefError) (E := E)) ServicePlan)) :
  dp_plan d = None ->
  make_plan d sp = (d', r) -> (forall p, r <> Some (Ok p)) -> dp_plan d' = None.
Proof.
  intros Hd. unfold make_plan. destruct (strat_Plan _ _ _ _) as [[p|]|]; intros [= <- <-]; [|done..].
  intros H. by destruct (H p).
Qed.

Lemma Plan_not_Ok draws d d' r : dp_plan d = None ->
  Plan ParseDockerRef FamiliarName cli draws d = (d', r) -> (forall p, r <> Some (Ok p)) -> dp_plan d' = None.
Proof.
  intros Hnone. unfold Plan. rewrite Hnone. destruct (Validate _ _ d) as [d1 [[]|e]] eqn:Hv;
    pose proof (Validate_same _ _ _ Hv) as Hd1; rewrite Hd1 in *; clear Hd1; [|by intros [= <- <-]].
  destruct (domain_of cli); [|by intros [= <- <-]]. destruct (Resolve _ _ _ _ _); [|by intros [= <- <-]].
  unfold inspect_state. cbn.
  destruct (dp_state d); [by apply make_plan_not_Ok|].
  destruct (InspectClusterState _ _); [by apply make_plan_not_Ok|by intros [= <- <-]].
Qed.
End Facts.

(** ** Properties *)

(** A deployment plans for a valid specification in its deployable form; it updates the
    service of its name, keeping the identity and the mode of that service, and creates one
    only when the cluster reports that there is none.  The plan is made once: planning again
    returns the same plan whatever the cluster says by then, and a failed attempt leaves no
    plan behind. *)
Lemma deployment_Plan_spec {HS : GoSort} {HC : GoCmp} {HO : GoOrder} {Named RefError E}
  (ParseDockerRef : string -> result RefError Named) (FamiliarName : Named -> string)
  (cli : DeployClient (E := E)) (draws : nat -> draw) (d : Deployment) :
  StrategyLaws (dp_Strategy d) -> dp_plan d = None ->
  match Plan ParseDockerRef FamiliarName cli draws d with
  | (d', Some (Ok p)) =>
      (exists domain sp, plans_for ParseDockerRef cli d d' domain sp p) /\
      forall (cli' : DeployClient (E := E)) draws', Plan ParseDockerRef FamiliarName cli' draws' d' = (d', Some (Ok p))
  | (d', _) => dp_plan d' = None
  end.
Proof.
  intros Hlaws Hnone. destruct (Plan _ _ _ _ d) as [d' [[p|e]|]] eqn:Hp.
  - apply Plan_Ok in Hp as [Hmemo Hfor]; [|done..]. split; [done|]. intros cli' draws'. unfold Plan. by rewrite Hmemo.
  - by eapply Plan_not_Ok in Hp.
  - by eapply Plan_not_Ok in Hp.
Qed.

(** A cluster of two machines with the service "web" and no cluster domain. *)
Definition small_cluster : DeployClient (E := unit) :=
  mkDeployClient
    (fun name => if String.eqb name "web" then Ok web_service else Err tt) (Err tt)
    (Some [mkMachineInfo "a1" "alpha"; mkMachineInfo "b1" "beta"]) (Some []) (fun _ => true).

Definition web_spec : ServiceSpec :=
  mkServiceSpec None None (plain_container "nginx" []) "" "web" (mkPlacement None) None None 2 (mkUpdateConfig "" None) None.

Definition web_deployment : Deployment :=
  @NewDeployment go_insertion_sort go_cmp_decide go_identity_order None web_spec None.

#[local] Notation web_plan :=
  (@Plan unit unit unit (fun _ => Ok tt) (fun _ => "nginx") small_cluster (fun _ => None) web_deployment).

Lemma web_plan_made : exists d' p, web_plan = (d', Some (Ok p)) /\ IsNewService p = false /\ plan_ServiceID p = "1".
Proof.
  assert (H : match web_plan.2 with Some (Ok p) => negb (IsNewService p) && String.eqb (plan_ServiceID p) "1"
              | _ => false end = true) by (vm_compute; reflexivity).
  destruct web_plan as [d' [[p|]|]]; [|done..]. cbn in H. exists d', p.
  apply andb_true_iff in H as [H1%negb_true_iff H2%String.eqb_eq]. done.
Qed.

(** The machines of an inspected cluster are its members. *)
Lemma InspectClusterState_ids members volumes state : InspectClusterState members volumes = Ok state ->
  exists ms, members = Some ms /\ machine_ids (state_Machines state) = map mi_Id ms.
Proof.
  unfold InspectClusterState. destruct members as [ms|]; [|done]. destruct volumes; [|done].
  intros [= <-]. exists ms. split; [done|]. unfold machine_ids. cbn. by rewrite map_map.
Qed.

(** A rolling deployment of a service that is looked up by name reconciles it. *)
Lemma Plan_reconciles {HS : GoSort} {HC : GoCmp} {HO : GoOrder} {Named RefError E}
  (ParseDockerRef : string -> result RefError Named) (FamiliarName : Named -> string)
  (cli : DeployClient (E := E)) (draws : nat -> draw) st newID d d' p :
  dp_Strategy d = rolling st newID -> dp_plan d = None -> dp_Service d = None ->
  (forall svc, dc_InspectService cli (SName (dp_Spec d)) = Ok svc -> NoDup (map msc_ID (Containers svc))) ->
  Plan ParseDockerRef FamiliarName cli draws d = (d', Some (Ok p)) ->
  exists domain sp state, plans_for ParseDockerRef cli d d' domain sp p /\
    (dp_state d = Some state \/
     dp_state d = None /\ InspectClusterState (dc_members cli) (dc_volumes cli) = Ok state) /\
    (NoDup (machine_ids (state_Machines state)) ->
     exists ms target, EligibleMachines (NewServiceScheduler state sp) = Some (Ok ms) /\
       reconciles st sp (map located (existing (dp_Service d'))) target (Operations p) /\
       (SMode sp = ServiceModeReplicated -> evenly_spread (machine_ids ms) (replica_count sp) target) /\
       (SMode sp = ServiceModeGlobal -> target = machine_ids ms)).
Proof.
  intros Hroll Hplan Hsvc Hcontainers Hp.
  apply Plan_Ok in Hp as (_ & domain & sp & Hfor); [|rewrite Hroll; apply rolling_laws|done].
  pose proof Hfor as [_ _ _ _ Htarget _ (state & _ & Hst & Hstrat)].
  exists domain, sp, state. split; [done|]. split; [done|]. intros Hm.
  apply (rolling_plan_reconciles st newID state (dp_Service d') sp p); [|done|by rewrite Hroll in Hstrat].
  unfold target_of in Htarget. destruct (dp_Service d') as [svc|]; [|constructor].
  destruct Htarget as (_ & _ & [Hs|Hs]); [by rewrite Hsvc in Hs|by apply Hcontainers].
Qed.

(** C30: deploying a specification with the default strategy reconciles the service with it,
    from the specification the user wrote to the operations on containers. The plan is for the service
    that the cluster has under the name, keeping its identity, and for a new one exactly if the cluster
    reports that there is none or the specification has no name; the specification is deployed in its deployable form for the domain
    of the cluster. Every existing container of that service is kept because it runs that form,
    replaced or removed, and afterwards the service has its replicas spread
    evenly over the eligible machines of the inspected cluster, or one container on each of
    them when it is global. A failed attempt leaves no plan. *)
Theorem deployment_reconciles {HS : GoSort} {HC : GoCmp} {HO : GoOrder} {Named RefError E}
  (ParseDockerRef : string -> result RefError Named) (FamiliarName : Named -> string)
  (cli : DeployClient (E := E)) (draws : nat -> draw) (newID : option string) (s : ServiceSpec) :
  (forall svc, dc_InspectService cli (SName s) = Ok svc -> NoDup (map msc_ID (Containers svc))) ->
  (forall members, dc_members cli = Some members -> NoDup (map mi_Id members)) ->
  match Plan ParseDockerRef FamiliarName cli draws (NewDeployment newID s None) with
  | (d', Some (Ok p)) => exists svc domain sp state ms target,
      service_answer cli (SName s) svc /\ plan_updates s svc p /\ domain_answer cli domain /\
      deployable ParseDockerRef domain s sp /\ plan_Spec p = sp /\
      InspectClusterState (dc_members cli) (dc_volumes cli) = Ok state /\
      EligibleMachines (NewServiceScheduler state sp) = Some (Ok ms) /\
      reconciles (mkRolling false false) sp (map located (existing svc)) target (Operations p) /\
      (SMode sp = ServiceModeReplicated -> evenly_spread (machine_ids ms) (replica_count sp) target) /\
      (SMode sp = ServiceModeGlobal -> target = machine_ids ms)
  | (d', _) => dp_plan d' = None
  end.
Proof.
  intros Hcontainers Hmembers. set (d := NewDeployment newID s None).
  destruct (Plan ParseDockerRef FamiliarName cli draws d) as [d' r] eqn:Hp.
  destruct r as [[p|e]|]; [|by eapply Plan_not_Ok in Hp..].
  eapply Plan_reconciles in Hp as (domain & sp & state & Hfor & Hst & Hr); [|done..].
  destruct Hst as [|[_ Hst]]; [done|].
  destruct (plans_for_service ParseDockerRef cli d d' domain sp p eq_refl Hfor) as (Hsvc & Hup & Hdom).
  exists (dp_Service d'), domain, sp, state. destruct Hr as (ms & target & ? & ? & ? & ?).
  - apply InspectClusterState_ids in Hst as (ms & Hms & ->). by apply Hmembers.
  - destruct Hfor. by exists ms, target.
Qed.

Lemma deployment_reconciles_witness :
  exists p sp ms target svc, web_plan.2 = Some (Ok p) /\ service_answer small_cluster "web" svc /\
    @reconciles go_insertion_sort go_cmp_decide (mkRolling false false) sp (map located (existing svc)) target
      (Operations p) /\
    (SMode sp = ServiceModeReplicated -> evenly_spread (machine_ids ms) (replica_count sp) target).
Proof.
  pose proof (@deployment_reconciles go_insertion_sort go_cmp_decide go_identity_order unit unit unit (fun _ => Ok tt)
    (fun _ => "nginx") small_cluster (fun _ => None) None web_spec) as H.
  destruct web_plan_made as (d' & p & E & _). rewrite E.
  unfold web_deployment in E. rewrite E in H. clear E.
  destruct H as (svc & domain & sp & state & ms & target & H0 & _ & _ & _ & _ & _ & _ & H1 & H2 & _).
  - intros svc Hsvc. injection Hsvc as <-. apply (bool_decide_unpack _). reflexivity.
  - intros members Hmembers. injection Hmembers as <-. apply (bool_decide_unpack _). reflexivity.
  - exists p, sp, ms, target, svc. split; [reflexivity|]. split; [exact H0|]. split; [exact H1|exact H2].
Defined.
