(* ===== verification/RunService.v ===== *)
(** * RunService: running a new service, [RunService] of [pkg/client/service.go]

    The composition of the volume scheduler and a deployment: the volumes the service misses
    are scheduled and created, then the service is deployed.  [view] gives the answers of the
    cluster in each world; [None] is a panic inherited from the planner. *)

From S2P Require Import Prelude GoStrings Port Volume ConfigSpec Spec Resolver Container Scheduler VolumeScheduler.
From S2P Require Import SpecChange Operation Strategy Deployment.
#[local] Open Scope string_scope.
#[local] Open Scope list_scope.

Section RunService.
Context {HS : GoSort} {HC : GoCmp} {HO : GoOrder}.
Context {Named RefError W E : Type} (ParseDockerRef : string -> result RefError Named) (FamiliarName : Named -> string).
Context (view : W -> DeployClient (E := E)) (containers : Client W E).

Inductive run_service_error :=
| RunInvalidSpec (e : @Spec.service_error RefError)
| ServiceExists (name : string)
| RunInspectFailed (e : E)
| RunStateFailed (e : Scheduler.inspect_error)
| ScheduleFailed (e : vs_error)
| RunVolumeFailed (name : string) (e : E)
| DeployFailed (e : run_error (RefError := RefError) (E := E) E).

(** The optimistic check that the name is not taken. *)
Definition name_taken (s : ServiceSpec) (w : W) : option run_service_error :=
  if String.eqb (SName s) "" then None
  else match dc_InspectService (view w) (SName s) with
       | Ok _ => Some (ServiceExists (SName s))
       | Err e => if dc_is_not_found (view w) e then None else Some (RunInspectFailed e)
       end.

Definition run_volume_options (v : VolumeSpec) : CreateOptions :=
  match vol_Options v with
  | None => mkCreateOptions (vol_Name v) "" None None
  | Some o => match vopt_Driver o with
              | Some d => mkCreateOptions (vol_Name v) (driver_Name d) (driver_Options d) (vopt_Labels o)
              | None => mkCreateOptions (vol_Name v) "" None (vopt_Labels o)
              end
  end.

Fixpoint create_volumes (vs : list (string * VolumeSpec)) (w : W) : W * result run_service_error unit :=
  match vs with
  | [] => (w, Ok tt)
  | (machineID, v) :: rest =>
      match cl_create_volume containers machineID (run_volume_options v) w with
      | (w, Err e) => (w, Err (RunVolumeFailed (vol_Name v) e))
      | (w, Ok _) => create_volumes rest w
      end
  end.

(** The volumes to create, by machine; [None] is a panic. *)
Definition missing_volumes (s : ServiceSpec) (w : W) :
  option (result run_service_error (gmap string (list VolumeSpec))) :=
  if Nat.eqb (length (MountedDockerVolumes (visit 2 0) s)) 0 then Some (Ok ∅)
  else match InspectClusterState (dc_members (view w)) (dc_volumes (view w)) with
       | Err e => Some (Err (RunStateFailed e))
       | Ok state =>
           match (let! vs := NewVolumeScheduler ParseDockerRef state [s] in Schedule vs)%go with
           | Ok (scheduled, _) => Some (Ok (entries scheduled))
           | Err (GoError e) => Some (Err (ScheduleFailed e))
           | Err _ => None
           end
       end.

Definition RunService (newID : option string) (draws : nat -> draw) (events : list wait_event) (s : ServiceSpec) (w : W) :
  option (W * result run_service_error (string * string)) :=
  match service_Validate ParseDockerRef s with
  | Err e => Some (w, Err (RunInvalidSpec e))
  | Ok _ =>
      match name_taken s w with
      | Some e => Some (w, Err e)
      | None =>
          match missing_volumes s w with
          | None => None
          | Some (Err e) => Some (w, Err e)
          | Some (Ok scheduled) =>
              match create_volumes (flatten (range_map (visit 2 1) scheduled)) w with
              | (w, Err e) => Some (w, Err e)
              | (w, Ok _) =>
                  match snd (Run ParseDockerRef FamiliarName (view w) containers draws events
                               (NewDeployment newID s None) w) with
                  | None => None
                  | Some (w, Err e) => Some (w, Err (DeployFailed e))
                  | Some (w, Ok plan) => Some (w, Ok (plan_ServiceID plan, plan_ServiceName plan))
                  end
              end
          end
      end
  end.
End RunService.

(** ** Lemmas *)
Section Facts.
Context {HS : GoSort} {HC : GoCmp} {HO : GoOrder}.
Context {Named RefError W E : Type} (ParseDockerRef : string -> result RefError Named) (FamiliarName : Named -> string).
Context (view : W -> DeployClient (E := E)) (containers : Client W E).

(** The name is free: it is empty, or the client does not find a service of that name. *)
Definition name_free (s : ServiceSpec) (w : W) : Prop :=
  SName s = "" \/ exists e, dc_InspectService (view w) (SName s) = Err e /\ dc_is_not_found (view w) e = true.

Lemma name_taken_spec s w :
  match name_taken (RefError := RefError) view s w with
  | None => name_free s w
  | Some (ServiceExists n) => n = SName s /\ n <> "" /\ exists svc, dc_InspectService (view w) n = Ok svc
  | Some (RunInspectFailed e) =>
      SName s <> "" /\ dc_InspectService (view w) (SName s) = Err e /\ dc_is_not_found (view w) e = false
  | Some _ => False
  end.
Proof.
  unfold name_taken. destruct (String.eqb_spec (SName s) "") as [He|He]; [by left|].
  destruct (dc_InspectService (view w) (SName s)) as [svc|e] eqn:Hi.
  - split_and!; [done..|]. by exists svc.
  - destruct (dc_is_not_found (view w) e) eqn:Hf; [right; by exists e|done].
Qed.

(** The volume a specification asks for: its name, and its driver and labels if it has any. *)
Definition volume_request (v : VolumeSpec) : CreateOptions :=
  let driver := vol_Options v ≫= vopt_Driver in
  mkCreateOptions (vol_Name v) (from_option driver_Name "" driver) (driver ≫= driver_Options) (vol_Options v ≫= vopt_Labels).

Lemma run_volume_options_request v : run_volume_options v = volume_request v.
Proof. unfold run_volume_options, volume_request. destruct (vol_Options v) as [o|]; [cbn; by destruct (vopt_Driver o)|done]. Qed.

(** The log of created volumes. *)
Definition created_volumes (vs : list (string * VolumeSpec)) : list Call :=
  map (fun mv => CCreateVolume (fst mv) (volume_request (snd mv)) true) vs.

Lemma create_volumes_log vs w log :
  let '((w', log'), r) := create_volumes (RefError := RefError) (logged containers) vs (w, log) in
  match r with
  | Ok _ => log' = log ++ created_volumes vs
  | Err (RunVolumeFailed name e) => exists before m v after w1, vs = before ++ (m, v) :: after /\ vol_Name v = name /\
      cl_create_volume containers m (volume_request v) w1 = (w', Err e) /\
      log' = log ++ created_volumes before ++ [CCreateVolume m (volume_request v) false]
  | Err _ => False
  end.
Proof.
  revert w log; induction vs as [|[m v] vs IH]; intros w log; cbn [create_volumes]; [by rewrite app_nil_r|].
  rewrite run_volume_options_request. cbn [logged cl_create_volume]. unfold record.
  destruct (cl_create_volume containers m (volume_request v) w) as [w1 [[]|e]] eqn:Hone; cbn [is_ok].
  - specialize (IH w1 (log ++ [CCreateVolume m (volume_request v) true])).
    destruct (create_volumes _ vs _) as [[w2 log2] [[]|[]]]; try done.
    + by rewrite IH, <- app_assoc.
    + destruct IH as (before & m' & v' & after & w1' & -> & Hv & Hc & ->).
      exists ((m, v) :: before), m', v', after, w1'. split_and!; [done..|]. by rewrite <- app_assoc.
  - by exists [], m, v, vs, w.
Qed.

(** What is created for the service: nothing if it mounts no volume, else what the scheduler
    answers on the cluster as it is. *)
Definition schedule_for (s : ServiceSpec) (w : W) (scheduled : gmap string (list VolumeSpec)) : Prop :=
  MountedDockerVolumes (visit 2 0) s = [] /\ scheduled = ∅ \/
  exists state vs, InspectClusterState (dc_members (view w)) (dc_volumes (view w)) = Ok state /\
    describes ParseDockerRef state [s] vs /\ solution vs scheduled.

(** The error of the scheduler is justified: the specification was rejected, or no placement
    of the volumes and the service exists. *)
Definition unschedulable (s : ServiceSpec) (w : W) (e : vs_error) : Prop :=
  exists state, InspectClusterState (dc_members (view w)) (dc_volumes (view w)) = Ok state /\
    (NewVolumeScheduler ParseDockerRef state [s] = Err (GoError e) /\ rejected (GoError e) \/
     exists vs, describes ParseDockerRef state [s] vs /\ Schedule vs = Err (GoError e) /\ ~ solvable vs).

Lemma missing_volumes_spec s w :
  match missing_volumes ParseDockerRef view s w with
  | Some (Ok scheduled) => schedule_for s w scheduled
  | Some (Err (RunStateFailed e)) => InspectClusterState (dc_members (view w)) (dc_volumes (view w)) = Err e
  | Some (Err (ScheduleFailed e)) => unschedulable s w e
  | _ => False
  end.
Proof.
  unfold missing_volumes. destruct (Nat.eqb_spec (length (MountedDockerVolumes (visit 2 0) s)) 0) as [Hm|Hm].
  { left. by apply nil_length_inv in Hm. }
  destruct (InspectClusterState _ _) as [state|e] eqn:Hst; [|done].
  pose proof (volume_schedule_outcome ParseDockerRef state [s]) as Hv.
  destruct (NewVolumeScheduler ParseDockerRef state [s]) as [vs|f] eqn:Hnew; cbn [res_bind ends] in *.
  - destruct Hv as [Hds Hsch]. destruct (Schedule vs) as [[scheduled st]|f] eqn:Hs; cbn [ends fst snd] in Hsch.
    + right. exists state, vs. destruct Hsch as [Hsol _]. done.
    + destruct Hsch as [Hf Hns]. destruct f; try done. exists state. split; [done|]. right. by exists vs.
  - destruct f; try done. exists state. split; [done|]. by left.
Qed.
End Facts.

(** ** Properties *)

(** C21: running a service, for every answer of the cluster.  On success the specification
    is valid and its name was free, the missing volumes solve the scheduling problem of the
    service on the cluster as it was found, each was created once on its machine with the
    name, driver and labels it asks for, and only then the deployment ran, from that state,
    and its service is returned.  On failure before the deployment no container is touched:
    nothing is called when the specification is invalid, the name is taken or cannot be
    looked up, or the volumes cannot be scheduled, and volumes are created up to the first
    that fails.  Every error is justified, by the validation, by the answer of the cluster
    or by there being no placement, in the order of these checks. *)
Theorem RunService_volumes_first {HS : GoSort} {HC : GoCmp} {HO : GoOrder} {Named RefError W E}
  (ParseDockerRef : string -> result RefError Named) (FamiliarName : Named -> string)
  (view : W -> DeployClient (E := E)) (containers : Client W E) (newID : option string) (draws : nat -> draw)
  (events : list wait_event) (s : ServiceSpec) (w : W) :
  let deploy := fun wl => snd (Run ParseDockerRef FamiliarName (view (fst wl)) (logged containers) draws events
                                 (NewDeployment newID s None) wl) in
  let volumes := fun scheduled => flatten (range_map (visit 2 1) scheduled) in
  let checked := service_Validate ParseDockerRef s = Ok tt /\ name_free view s w in
  match RunService ParseDockerRef FamiliarName (fun wl => view (fst wl)) (logged containers) newID draws events s (w, []) with
  | None => checked /\ exists scheduled w1, schedule_for ParseDockerRef view s w scheduled /\
              deploy (w1, created_volumes (volumes scheduled)) = None
  | Some ((w', log), Ok (id, name)) =>
      checked /\ exists scheduled w1 plan, schedule_for ParseDockerRef view s w scheduled /\
        deploy (w1, created_volumes (volumes scheduled)) = Some ((w', log), Ok plan) /\
        id = plan_ServiceID plan /\ name = plan_ServiceName plan
  | Some ((w', log), Err e) =>
      match e with
      | RunInvalidSpec e => service_Validate ParseDockerRef s = Err e /\ w' = w /\ log = []
      | ServiceExists n => service_Validate ParseDockerRef s = Ok tt /\ n = SName s /\ n <> "" /\
          (exists svc, dc_InspectService (view w) n = Ok svc) /\ w' = w /\ log = []
      | RunInspectFailed e => service_Validate ParseDockerRef s = Ok tt /\ SName s <> "" /\
          dc_InspectService (view w) (SName s) = Err e /\ dc_is_not_found (view w) e = false /\ w' = w /\ log = []
      | RunStateFailed e => checked /\ InspectClusterState (dc_members (view w)) (dc_volumes (view w)) = Err e /\
          w' = w /\ log = []
      | ScheduleFailed e => checked /\ unschedulable ParseDockerRef view s w e /\ w' = w /\ log = []
      | RunVolumeFailed n e => checked /\ exists scheduled before m v after w1,
          schedule_for ParseDockerRef view s w scheduled /\
          volumes scheduled = before ++ (m, v) :: after /\ vol_Name v = n /\
          cl_create_volume containers m (volume_request v) w1 = (w', Err e) /\
          log = created_volumes before ++ [CCreateVolume m (volume_request v) false]
      | DeployFailed e => checked /\ exists scheduled w1, schedule_for ParseDockerRef view s w scheduled /\
          deploy (w1, created_volumes (volumes scheduled)) = Some ((w', log), Err e)
      end
  end.
Proof.
  cbv zeta. unfold RunService. destruct (service_Validate ParseDockerRef s) as [[]|e]; [|done].
  assert (Hsched : missing_volumes (RefError := RefError) (E := E) ParseDockerRef (fun wl : W * list Call => view (fst wl)) s (w, []) =
                   missing_volumes ParseDockerRef view s w) by done.
  assert (Htaken : name_taken (RefError := RefError) (fun wl : W * list Call => view (fst wl)) s (w, []) =
                   name_taken view s w) by done.
  rewrite Htaken, Hsched. clear Htaken Hsched.
  pose proof (name_taken_spec (RefError := RefError) view s w) as Hn.
  destruct (name_taken view s w) as [[]|]; try done; [by destruct_and!; split_and!..|].
  pose proof (missing_volumes_spec (E := E) ParseDockerRef view s w) as Hm.
  destruct (missing_volumes ParseDockerRef view s w) as [[scheduled|[]]|]; try done.
  pose proof (create_volumes_log (RefError := RefError) containers (flatten (range_map (visit 2 1) scheduled)) w []) as Hc.
  destruct (create_volumes _ _ _) as [[w1 log1] [[]|[]]]; try done.
  - cbn [app] in Hc. subst log1.
    destruct (snd (Run _ _ _ _ _ _ _ _)) as [[[w2 log2] [plan|e]]|] eqn:Hrun; (split; [done|]).
    + by exists scheduled, w1, plan.
    + by exists scheduled, w1.
    + by exists scheduled, w1.
  - destruct Hc as (before & m & v & after & w2 & Hvs & Hv & Hcall & ->). split; [done|].
    by exists scheduled, before, m, v, after, w2.
Qed.
