(* ===== verification/Commands.v ===== *)
(** * Commands: services on the command line, [cmd/uc/service]

    [run.go] turns the flags of [uc run] into a service specification, with the volume flags
    in the format of Docker's command line, and [scale.go] decides what is deployed to
    scale a service.  The parsers of the Docker libraries (ulimits, image references, the
    pattern of volume names), the random source and the environment are parameters; sizes
    are given as the flag library parses them. *)

From S2P Require Import Prelude GoStrings NetAddr Port Volume ConfigSpec Spec Resolver.
#[local] Open Scope string_scope.
#[local] Open Scope list_scope.

(** [strings.Cut(s, c)] *)
Definition cut (c : ascii) (s : string) : string * string * bool :=
  match cut_byte c s with Some (k, v) => (k, v, true) | None => (s, "", false) end.

(** [cli.ExpandCommaSeparatedValues]; nil for no values. *)
Definition ExpandCommaSeparatedValues (values : list string) : slice string :=
  match filter (fun v => v <> "") (map trim_space (concat (map (split_byte ",") values))) with
  | [] => None
  | vs => Some vs
  end.

Inductive volume_flag_error :=
| NoSeparator | TooManySeparators | MountNotAbsolute (path : string) | InvalidOption (opt : string)
| RandomSuffix | InvalidVolumeName (name : string).

Inductive flag_error {RefError : Type} :=
| ReadCaddyfile (e : string) | InvalidEnv (e : string) | InvalidMode (mode : string) | InvalidPull (pull : string)
| InvalidPort (port : string) (e : port_error) | InvalidUlimit (u : string)
| InvalidVolumeFlag (vol : string) (e : volume_flag_error)
| InvalidService (e : @service_error RefError) | GenerateName (e : @resolve_error RefError).
Arguments flag_error : clear implicits.

Record runOptions := mkRunOptions {
  ro_caddyfile : string; ro_command : slice string; ro_cpu : Z; ro_entrypoint : string; ro_entrypointChanged : bool;
  ro_env : list string; ro_image : string; ro_machines : list string; ro_memory : Z; ro_mode : string; ro_shmSize : Z;
  ro_name : string; ro_privileged : bool; ro_publish : list string; ro_pull : string; ro_replicas : N;
  ro_ulimits : list string; ro_user : string; ro_volumes : list string
}.

Section Flags.
Context {Named RefError : Type} (ParseDockerRef : string -> result RefError Named) (FamiliarName : Named -> string).
Context (ParseUlimit : string -> option (string * Ulimit)) (RestrictedName : string -> bool)
  (LookupEnv : string -> option string) (ReadFile : string -> result string string).
#[local] Open Scope go_scope.

(** *** Environment *)
Fixpoint parseEnv_from (env : list string) (vars : gmap string string) : result (flag_error RefError) (gmap string string) :=
  match env with
  | [] => Ok vars
  | e :: rest =>
      let '(key, value, hasValue) := cut "=" e in
      if String.eqb key "" then Err (InvalidEnv e)
      else parseEnv_from rest
             (if hasValue then <[key := value]> vars
              else match LookupEnv key with Some v => <[key := v]> vars | None => vars end)
  end.

Definition parseEnv (env : list string) : result (flag_error RefError) (gmap string string) := parseEnv_from env ∅.

(** *** Ulimits *)
Fixpoint parseUlimits_from (ulimits : list string) (m : gmap string Ulimit) : result (flag_error RefError) (gmap string Ulimit) :=
  match ulimits with
  | [] => Ok m
  | u :: rest => match ParseUlimit u with
                 | None => Err (InvalidUlimit u)
                 | Some (name, l) => parseUlimits_from rest (<[name := l]> m)
                 end
  end.

Definition parseUlimits (ulimits : list string) : result (flag_error RefError) (gomap Ulimit) :=
  match ulimits with [] => Ok None | _ => let! m := parseUlimits_from ulimits ∅ in Ok (Some m) end.

(** *** Volumes *)
(** The options of a mount: read-only, and no copy into a new volume. *)
Fixpoint mount_options (opts : list string) (ro nocopy : bool) : result volume_flag_error (bool * bool) :=
  match opts with
  | [] => Ok (ro, nocopy)
  | o :: rest =>
      if String.eqb o "ro" || String.eqb o "readonly" then mount_options rest true nocopy
      else if String.eqb o "volume-nocopy" then mount_options rest ro true
      else Err (InvalidOption o)
  end.

(** [draws]: the random source during the call. *)
Definition parseVolumeFlagValue (draws : nat -> draw) (volume : string) : result volume_flag_error (VolumeSpec * VolumeMount) :=
  let parse source path opts :=
    if negb (has_prefix "/" path) then Err (MountNotAbsolute path)
    else
      let! ros := mount_options opts false false in
      let! spec :=
        (if has_prefix "/" source then
           match RandomAlphaNumeric 4 draws with
           | None => Err RandomSuffix
           | Some suffix => Ok (mkVolume ("bind-" +:+ suffix) VolumeTypeBind (Some (mkBind source true "" "")) None None)
           end
         else if negb (RestrictedName source) then Err (InvalidVolumeName source)
         else Ok (mkVolume source VolumeTypeVolume None None (Some (mkVolumeOptions None None source (snd ros) "")))) in
      Ok (spec, mkMount (vol_Name spec) path (fst ros)) in
  match split_byte ":" volume with
  | [source; path] => parse source path []
  | [source; path; opts] => parse source path (split_byte "," opts)
  | [_] | [] => Err NoSeparator
  | _ => Err TooManySeparators
  end.

(** [draws k]: the random source during the [k]-th call. *)
Fixpoint parseVolumeFlags_from (draws : nat -> nat -> draw) (k : nat) (volumes : list string) (specs : list VolumeSpec)
  (mounts : list VolumeMount) : result (flag_error RefError) (list VolumeSpec * list VolumeMount) :=
  match volumes with
  | [] => Ok (specs, mounts)
  | vol :: rest =>
      match parseVolumeFlagValue (draws k) vol with
      | Err e => Err (InvalidVolumeFlag vol e)
      | Ok (spec, mount) =>
          let specs := if decide (vol_Name spec ∈ map vol_Name specs) then specs else specs ++ [spec] in
          parseVolumeFlags_from draws (S k) rest specs (mounts ++ [mount])
      end
  end.

Definition parseVolumeFlags (draws : nat -> nat -> draw) (volumes : list string) :
  result (flag_error RefError) (list VolumeSpec * list VolumeMount) := parseVolumeFlags_from draws 0 volumes [] [].

(** *** The specification *)
Definition read_caddyfile (path : string) : result (flag_error RefError) string :=
  if String.eqb path "" then Ok ""
  else match ReadFile path with Err e => Err (ReadCaddyfile e) | Ok data => Ok (trim_space data) end.

Definition parse_ports (publish : list string) : result (flag_error RefError) (list PortSpec) :=
  map_ok (fun p => wrap_err (InvalidPort p) (ParsePortSpec p)) publish.

Definition entrypoint (o : runOptions) : slice string :=
  if negb (String.eqb (ro_entrypoint o) "") then Some [ro_entrypoint o]
  else if ro_entrypointChanged o then Some [""] else None.

(** The specification of the flags, before it is validated. *)
Definition flags_spec (o : runOptions) (caddyfile : string) (env : gmap string string) (ports : list PortSpec)
  (ulimits : gomap Ulimit) (volumes : list VolumeSpec) (mounts : list VolumeMount) : ServiceSpec :=
  mkServiceSpec (if String.eqb caddyfile "" then None else Some (mkCaddy caddyfile)) None
    (mkContainerSpec None None (ro_command o) (entrypoint o) (Some env) None (ro_image o) None None "" false false
       (ro_privileged o) (ro_pull o) (mkResources (ro_cpu o) (ro_memory o) 0 None None (ro_shmSize o) ulimits) None None
       (ro_user o) (Some mounts) None None)
    (ro_mode o) (ro_name o) (mkPlacement (ExpandCommaSeparatedValues (ro_machines o))) (Some ports) None (ro_replicas o)
    (mkUpdateConfig "" None) (Some volumes).

Definition prepareServiceSpec (draws : nat -> nat -> draw) (name_draws : nat -> draw) (o : runOptions) :
  result (flag_error RefError) ServiceSpec :=
  let! caddyfile := read_caddyfile (ro_caddyfile o) in
  let! env := parseEnv (ro_env o) in
  let! _ := (if one_of (ro_mode o) [ServiceModeReplicated; ServiceModeGlobal] then Ok tt else Err (InvalidMode (ro_mode o))) in
  let! _ := (if one_of (ro_pull o) [PullPolicyAlways; PullPolicyMissing; PullPolicyNever] then Ok tt else Err (InvalidPull (ro_pull o))) in
  let! ports := parse_ports (ro_publish o) in
  let! ulimits := parseUlimits (ro_ulimits o) in
  let! vm := parseVolumeFlags draws (ro_volumes o) in
  let spec := flags_spec o caddyfile env ports ulimits (fst vm) (snd vm) in
  let! _ := wrap_err InvalidService (service_Validate ParseDockerRef spec) in
  if String.eqb (SName spec) ""
  then let! name := wrap_err GenerateName (GenerateServiceName ParseDockerRef FamiliarName name_draws (Image (Container_ spec))) in
       Ok (with_name spec name)
  else Ok spec.
End Flags.

(** ** Scaling *)
(** What [uc scale] does: nothing is left to deploy, or the service is deployed with a
    specification; [ScalePanic] is the first container of none. *)
Inductive scale_result := ScaleToZero | NotReplicated (mode : string) | NoChange | DeployScaled (s : ServiceSpec) | ScalePanic.

Definition with_replicas (n : N) (s : ServiceSpec) : ServiceSpec :=
  mkServiceSpec (Caddy s) (Configs s) (Container_ s) (SMode s) (SName s) (Placement_ s) (Ports s) (PreDeploy s) n
    (UpdateConfig_ s) (Volumes s).

(** [specs]: the specifications of the containers of the service. *)
Definition scale (replicas : N) (mode : string) (specs : list ServiceSpec) : scale_result :=
  if (replicas =? 0)%N then ScaleToZero
  else if negb (String.eqb mode ServiceModeReplicated) then NotReplicated mode
  else if (N.of_nat (length specs) =? replicas)%N then NoChange
  else match specs with [] => ScalePanic | s :: _ => DeployScaled (with_replicas replicas s) end.

(** ** Volumes of the flags *)
Lemma parseVolumeFlagValue_Ok Restricted draws vol spec mount :
  parseVolumeFlagValue Restricted draws vol = Ok (spec, mount) ->
  exists source path opts ro nocopy, (split_byte ":" vol = [source; path] /\ opts = [] \/ exists o, split_byte ":" vol = [source; path; o] /\ opts = split_byte "," o) /\
    has_prefix "/" path = true /\ mount_options opts false false = Ok (ro, nocopy) /\
    mount = mkMount (vol_Name spec) path ro /\
    (has_prefix "/" source = true /\ (exists suffix, vol_Name spec = "bind-" +:+ suffix) /\ vol_Type spec = VolumeTypeBind /\
       vol_Bind spec = Some (mkBind source true "" "") \/
     has_prefix "/" source = false /\ Restricted source = true /\
       spec = mkVolume source VolumeTypeVolume None None (Some (mkVolumeOptions None None source nocopy ""))).
Proof.
  unfold parseVolumeFlagValue.
  assert (H : forall source path opts,
    (if negb (has_prefix "/" path) then Err (MountNotAbsolute path)
     else (let! ros := mount_options opts false false in
           let! spec := (if has_prefix "/" source then
              match RandomAlphaNumeric 4 draws with
              | None => Err RandomSuffix
              | Some suffix => Ok (mkVolume ("bind-" +:+ suffix) VolumeTypeBind (Some (mkBind source true "" "")) None None)
              end
            else if negb (Restricted source) then Err (InvalidVolumeName source)
            else Ok (mkVolume source VolumeTypeVolume None None (Some (mkVolumeOptions None None source (snd ros) "")))) in
           Ok (spec, mkMount (vol_Name spec) path (fst ros)))%go) = Ok (spec, mount) ->
    exists ro nocopy, has_prefix "/" path = true /\ mount_options opts false false = Ok (ro, nocopy) /\
      mount = mkMount (vol_Name spec) path ro /\
      (has_prefix "/" source = true /\ (exists suffix, vol_Name spec = "bind-" +:+ suffix) /\ vol_Type spec = VolumeTypeBind /\
         vol_Bind spec = Some (mkBind source true "" "") \/
       has_prefix "/" source = false /\ Restricted source = true /\
         spec = mkVolume source VolumeTypeVolume None None (Some (mkVolumeOptions None None source nocopy "")))).
  { intros source path opts. destruct (has_prefix "/" path); [|done]. cbn [negb].
    intros ([ro nocopy] & Hopts & (sp & Hsp & [= -> <-])%res_bind_Ok)%res_bind_Ok. exists ro, nocopy. split_and!; try done.
    destruct (has_prefix "/" source).
    - left. destruct (RandomAlphaNumeric 4 draws) as [suffix|]; [|done]. injection Hsp as <-. split_and!; try done. by exists suffix.
    - right. destruct (Restricted source); [|done]. by injection Hsp as <-. }
  destruct (split_byte ":" vol) as [|source [|path [|o [|]]]] eqn:Hsplit; try done; intros (ro & nocopy & Hrest)%H.
  - exists source, path, [], ro, nocopy. split; [by left|exact Hrest].
  - exists source, path, (split_byte "," o), ro, nocopy. split; [right; by exists o|exact Hrest].
Qed.

(** The volume a mount of flags refers to is the first specification of its name: every
    mount has one, names are unique, and the mounts are in the order of the flags. *)
Definition volumes_described (specs : list VolumeSpec) (mounts : list VolumeMount) : Prop :=
  NoDup (map vol_Name specs) /\
  (forall m, m ∈ mounts -> VolumeName m ∈ map vol_Name specs) /\
  (forall v, v ∈ specs -> vol_Name v ∈ map VolumeName mounts).

Lemma parseVolumeFlags_from_Ok {RefError} Restricted draws volumes : forall k specs mounts specs' mounts',
  volumes_described specs mounts ->
  parseVolumeFlags_from (RefError := RefError) Restricted draws k volumes specs mounts = Ok (specs', mounts') ->
  volumes_described specs' mounts' /\ specs `prefix_of` specs' /\
  exists added, mounts' = mounts ++ added /\
    Forall2 (fun vol m => exists i spec, parseVolumeFlagValue Restricted (draws i) vol = Ok (spec, m) /\
                                         vol_Name spec = VolumeName m) volumes added.
Proof.
  induction volumes as [|vol rest IH]; intros k specs mounts specs' mounts' Hd; cbn [parseVolumeFlags_from].
  - intros [= <- <-]. split; [done|]. split; [done|]. exists []. by rewrite app_nil_r.
  - destruct (parseVolumeFlagValue Restricted (draws k) vol) as [[spec m]|] eqn:Hvol; [|done].
    destruct (parseVolumeFlagValue_Ok _ _ _ _ _ Hvol) as (? & ? & ? & ? & ? & _ & _ & _ & Hm & _).
    assert (Hname : VolumeName m = vol_Name spec) by by rewrite Hm.
    destruct Hd as (Hnd & Hmounts & Hspecs). set (specs1 := if decide _ then specs else _).
    assert (Hd1 : volumes_described specs1 (mounts ++ [m]) /\ specs `prefix_of` specs1).
    { unfold specs1; destruct (decide _) as [Hin|Hin].
      - split; [|done]. split_and!; [done| |].
        + intros m0. rewrite elem_of_app, list_elem_of_singleton. intros [?| ->]; [by apply Hmounts|]. by rewrite Hname.
        + intros v0 Hv. rewrite map_app. apply elem_of_app. left. by apply Hspecs.
      - split; [|by eexists]. split_and!.
        + rewrite map_app. apply NoDup_app. split; [done|]. split; [|apply NoDup_singleton].
          intros n Hx Hx'. apply list_elem_of_singleton in Hx' as ->. done.
        + intros m0. rewrite map_app, !elem_of_app, list_elem_of_singleton. intros [?| ->]; [left; by apply Hmounts|].
          right. rewrite Hname. cbn. by apply list_elem_of_singleton.
        + intros v0. rewrite map_app, !elem_of_app, list_elem_of_singleton. intros [?| ->]; [left; by apply Hspecs|].
          right. rewrite <- Hname. cbn. by apply list_elem_of_singleton. }
    intros Hrest. destruct (IH _ _ _ _ _ (proj1 Hd1) Hrest) as (Hd' & Hpre & added & -> & Hall).
    split; [done|]. split; [by etrans; [apply Hd1|]|]. exists (m :: added). rewrite <- app_assoc. split; [done|].
    constructor; [by exists k, spec|done].
Qed.

Lemma parseVolumeFlags_Ok {RefError} Restricted draws volumes specs mounts :
  parseVolumeFlags (RefError := RefError) Restricted draws volumes = Ok (specs, mounts) ->
  volumes_described specs mounts /\
  Forall2 (fun vol m => exists i spec, parseVolumeFlagValue Restricted (draws i) vol = Ok (spec, m) /\
                                       vol_Name spec = VolumeName m) volumes mounts.
Proof.
  intros H. destruct (parseVolumeFlags_from_Ok (RefError := RefError) Restricted draws volumes 0 [] [] specs mounts) as (Hd & _ & added & -> & Hall);
    [|done|by rewrite app_nil_l].
  split_and!; [by constructor|intros ? []%not_elem_of_nil|intros ? []%not_elem_of_nil].
Qed.

(** ** Environment *)
(** What a flag sets the variable [k] to. *)
Definition env_value (LookupEnv : string -> option string) (k e : string) : option string :=
  let '(key, value, hasValue) := cut "=" e in
  if String.eqb key k then if (hasValue : bool) then Some value else LookupEnv key else None.

(** The last flag that sets a variable wins. *)
Lemma parseEnv_from_lookup {RefError} LookupEnv env : forall vars,
  if existsb (fun e => String.eqb (fst (fst (cut "=" e))) "") env
  then exists e, parseEnv_from (RefError := RefError) LookupEnv env vars = Err (InvalidEnv e)
  else exists vars', parseEnv_from (RefError := RefError) LookupEnv env vars = Ok vars' /\
         forall k, vars' !! k = from_option Some (vars !! k) (last (omap (env_value LookupEnv k) env)).
Proof.
  induction env as [|e rest IH]; intros vars; cbn [existsb parseEnv_from]; [by exists vars|].
  destruct (cut "=" e) as [[key value] hasValue] eqn:Hcut. cbn [fst]. destruct (String.eqb_spec key "") as [|Hne].
  { cbn [orb]. by exists e. }
  cbn [orb]. set (vars1 := if hasValue then _ else _). specialize (IH vars1).
  destruct (existsb _ rest); [done|]. destruct IH as (vars' & -> & Hl). exists vars'. split; [done|]. intros k. rewrite Hl.
  assert (Hval : env_value LookupEnv k e = (if String.eqb key k then if hasValue then Some value else LookupEnv key else None))
    by (unfold env_value; by rewrite Hcut).
  cbn [omap list_omap]. rewrite Hval.
  assert (H1 : vars1 !! k = from_option Some (vars !! k) (if String.eqb key k then if hasValue then Some value else LookupEnv key else None)).
  { unfold vars1. destruct (String.eqb_spec key k) as [Heq|Hk]; [rewrite Heq|];
      destruct hasValue; cbn; repeat case_match; by simplify_map_eq. }
  destruct (if String.eqb key k then _ else _) as [x|]; cbn [from_option] in *.
  - destruct (omap (env_value LookupEnv k) rest) as [|y l] eqn:Ho; [by rewrite H1|].
    change (last (x :: y :: l)) with (last (y :: l)). destruct (last (y :: l)) eqn:Hlast; [done|].
    by apply last_None in Hlast.
  - by rewrite H1.
Qed.

Lemma parseEnv_lookup {RefError : Type} LookupEnv env vars : parseEnv (RefError := RefError) LookupEnv env = Ok vars ->
  forall k, vars !! k = last (omap (env_value LookupEnv k) env).
Proof.
  unfold parseEnv. pose proof (parseEnv_from_lookup (RefError := RefError) LookupEnv env ∅) as H. destruct (existsb _ env).
  - destruct H as [e ->]. done.
  - destruct H as (vars' & -> & Hl). intros [= <-] k. rewrite Hl, lookup_empty. by destruct (last _).
Qed.

(** ** The specification *)
Section Prepared.
Context {Named RefError : Type} (ParseDockerRef : string -> result RefError Named) (FamiliarName : Named -> string).
Context (ParseUlimit : string -> option (string * Ulimit)) (RestrictedName : string -> bool)
  (LookupEnv : string -> option string) (ReadFile : string -> result string string).

(** The result: a valid specification of the flags, whose name is the flag's, or is
    generated from the image and not validated again. *)
Lemma prepareServiceSpec_Ok draws name_draws o s :
  prepareServiceSpec ParseDockerRef FamiliarName ParseUlimit RestrictedName LookupEnv ReadFile draws name_draws o = Ok s ->
  exists caddyfile env ports ulimits volumes mounts,
    let spec := flags_spec o caddyfile env ports ulimits volumes mounts in
    service_valid ParseDockerRef spec /\ volumes_described volumes mounts /\ length mounts = length (ro_volumes o) /\
    Forall2 (fun p port => ParsePortSpec p = Ok port) (ro_publish o) ports /\
    (forall k, env !! k = last (omap (env_value LookupEnv k) (ro_env o))) /\
    (ro_name o <> "" /\ s = spec \/
     ro_name o = "" /\ exists name, GenerateServiceName ParseDockerRef FamiliarName name_draws (ro_image o) = Ok name /\ s = with_name spec name).
Proof.
  unfold prepareServiceSpec. intros (caddyfile & _ & (env & Henv & (u1 & _ & (u2 & _ & (ports & Hports & (ulimits & _ &
    ((volumes, mounts) & Hvol & (u3 & Hvalid & Hname)%res_bind_Ok)%res_bind_Ok)%res_bind_Ok)%res_bind_Ok)%res_bind_Ok)%res_bind_Ok)%res_bind_Ok)%res_bind_Ok.
  exists caddyfile, env, ports, ulimits, volumes, mounts. cbn [fst snd] in Hvalid, Hname.
  destruct (parseVolumeFlags_Ok _ _ _ _ _ Hvol) as [Hd Hm]. split_and!; [| |symmetry; by eapply Forall2_length| | |].
  - apply wrap_err_Ok in Hvalid. destruct u3. by apply service_Validate_Ok.
  - done.
  - unfold parse_ports in Hports. apply map_ok_Ok in Hports. eapply Forall2_impl; [exact Hports|].
    intros p port. by rewrite wrap_err_Ok.
  - exact (parseEnv_lookup _ _ _ Henv).
  - change (SName (flags_spec o caddyfile env ports ulimits volumes mounts)) with (ro_name o) in Hname.
    destruct (String.eqb_spec (ro_name o) "") as [Hn|Hn]; [right|left].
    + split; [done|]. apply res_bind_Ok in Hname as (name & Hg%wrap_err_Ok & [= <-]). by exists name.
    + by injection Hname.
Qed.
End Prepared.

(** ** Scaling *)
Lemma scale_deploys replicas mode specs s : scale replicas mode specs = DeployScaled s <->
  replicas <> 0%N /\ mode = ServiceModeReplicated /\ N.of_nat (length specs) <> replicas /\
  exists s0 rest, specs = s0 :: rest /\ s = with_replicas replicas s0.
Proof.
  unfold scale. destruct (N.eqb_spec replicas 0); [naive_solver|].
  destruct (String.eqb_spec mode ServiceModeReplicated); cbn [negb]; [|naive_solver].
  destruct (N.eqb_spec (N.of_nat (length specs)) replicas); [naive_solver|].
  destruct specs as [|s0 rest]; [naive_solver|]. split.
  - intros [= <-]. split_and!; try done. by exists s0, rest.
  - intros (_ & _ & _ & s1 & rest1 & [= <- <-] & ->). done.
Qed.

(** A service has a container, so [uc scale] does not panic on one that was found. *)
Lemma scale_no_panic replicas mode specs : specs <> [] -> scale replicas mode specs <> ScalePanic.
Proof. unfold scale. repeat case_match; done. Qed.

(** Expanded values are not empty: no value at all is nil, which is no constraint. *)
Lemma ExpandCommaSeparatedValues_Some values vs : ExpandCommaSeparatedValues values = Some vs -> vs <> [] /\ "" ∉ vs.
Proof.
  unfold ExpandCommaSeparatedValues.
  destruct (filter _ (map trim_space (concat (map (split_byte ",") values)))) as [|v l] eqn:Hf; [done|].
  intros [= <-]. split; [done|]. rewrite <- Hf. intros [Hin _]%list_elem_of_filter. done.
Qed.

(** ** Flags the parsers treat unexpectedly *)
Definition zero_draws : nat -> draw := fun _ => Some 0%fin.
Definition any_name (s : string) : bool := negb (String.eqb s "").

(** A second mount of a volume loses its options for the volume: no copy is asked for. *)
Example second_nocopy_is_lost :
  parseVolumeFlags (RefError := unit) any_name (fun _ => zero_draws) ["data:/a"; "data:/b:volume-nocopy"] =
  Ok ([mkVolume "data" VolumeTypeVolume None None (Some (mkVolumeOptions None None "data" false ""))],
      [mkMount "data" "/a" false; mkMount "data" "/b" false]).
Proof. vm_compute. reflexivity. Qed.

(** Two bind mounts that draw the same suffix: both mounts are of the first host path. *)
Example equal_suffixes_share_the_host_path :
  parseVolumeFlags (RefError := unit) any_name (fun _ => zero_draws) ["/etc:/a"; "/var:/b"] =
  Ok ([mkVolume "bind-aaaa" VolumeTypeBind (Some (mkBind "/etc" true "" "")) None None],
      [mkMount "bind-aaaa" "/a" false; mkMount "bind-aaaa" "/b" false]).
Proof. vm_compute. reflexivity. Qed.

(** The option of a named volume is accepted, and ignored, for a bind mount. *)
Example nocopy_of_a_bind_mount :
  parseVolumeFlagValue any_name zero_draws "/etc:/a:volume-nocopy" =
  Ok (mkVolume "bind-aaaa" VolumeTypeBind (Some (mkBind "/etc" true "" "")) None None, mkMount "bind-aaaa" "/a" false).
Proof. vm_compute. reflexivity. Qed.

(** A valid specification of an image without a service name becomes an invalid one: the
    repository name has an underscore, which a service name may not have, and the name is
    generated after the validation. *)
Definition underscore_flags : runOptions :=
  mkRunOptions "" None 0 "" false [] "my_app" [] 0 ServiceModeReplicated 0 "" false [] PullPolicyMissing 1 [] "" [].

Definition accept (s : string) : result unit string := Ok s.

Example generated_name_is_not_valid :
  exists s, prepareServiceSpec accept (fun n => n) (fun _ => None) any_name (fun _ => None) (fun _ => Err "")
              (fun _ => zero_draws) zero_draws underscore_flags = Ok s /\
    SName s = "my_app-aaaa" /\ service_Validate accept s = Err (NameInvalid "my_app-aaaa").
Proof. eexists. split; [vm_compute; reflexivity|]. split; vm_compute; reflexivity. Qed.
