(* ===== verification/LogArgs.v ===== *)
(** * LogArgs: the arguments of [uc logs], [internal/cli/logs/logs.go]

    Positional arguments name a service, or a container of it; they are grouped by service.
    The reference is the grouping itself. *)

From S2P Require Import Prelude GoStrings.
#[local] Open Scope string_scope.
#[local] Open Scope list_scope.

(** ** [Tail] *)
Definition Tail (tail : string) : result string Z :=
  if String.eqb tail "all" then Ok (-1)%Z
  else match ParseInt tail with Some n => Ok n | None => Err tail end.

(** ** [ParseServiceArgs] *)
(** A nil slice of containers is every container of the service. *)
Record ServiceArg := mkServiceArg { sa_Service : string; sa_Containers : slice string }.

Inductive arg_error := EmptyArgument | NoServiceName (arg : string) | NoContainerName (arg : string).

(** The service and the container, if there is a slash. *)
Definition parse_arg (arg : string) : result arg_error (string * option string) :=
  let arg := trim_space arg in
  if String.eqb arg "" then Err EmptyArgument
  else
    let '(service, container) := match cut_byte "/" arg with Some (s, c) => (s, Some c) | None => (arg, None) end in
    if String.eqb service "" then Err (NoServiceName arg)
    else if bool_decide (container = Some "") then Err (NoContainerName arg)
    else Ok (service, container).

Record groups := mkGroups { indexByService : gmap string nat; allContainers : gmap string bool; grouped : list ServiceArg }.

Definition add_arg (g : groups) (a : string * option string) : groups :=
  let '(service, container) := a in
  match indexByService g !! service with
  | None =>
      let '(entry, all) := match container with
                           | Some c => (mkServiceArg service (Some [c]), allContainers g)
                           | None => (mkServiceArg service None, <[service := true]> (allContainers g))
                           end in
      mkGroups (<[service := length (grouped g)]> (indexByService g)) all (grouped g ++ [entry])
  | Some idx =>
      match container with
      | None => mkGroups (indexByService g) (<[service := true]> (allContainers g))
                  (alter (fun e => mkServiceArg (sa_Service e) None) idx (grouped g))
      | Some c =>
          if default false (allContainers g !! service) then g
          else mkGroups (indexByService g) (allContainers g)
                 (alter (fun e => mkServiceArg (sa_Service e) (Some (default [] (sa_Containers e) ++ [c]))) idx (grouped g))
      end
  end.

Fixpoint group_args (g : groups) (args : list string) : result arg_error groups :=
  match args with
  | [] => Ok g
  | arg :: rest => match parse_arg arg with
                   | Err e => Err e
                   | Ok a => group_args (add_arg g a) rest
                   end
  end.

Definition ParseServiceArgs (args : list string) : result arg_error (list ServiceArg) :=
  match group_args (mkGroups ∅ ∅ []) args with Ok g => Ok (grouped g) | Err e => Err e end.

(** ** The reference *)
(** Services in the order they are first named. *)
Definition first_seen (l : list string) : list string :=
  fold_left (fun seen s => if decide (s ∈ seen) then seen else seen ++ [s]) l [].

(** All containers when one argument names just the service, those named otherwise. *)
Definition containers_of (parsed : list (string * option string)) (service : string) : slice string :=
  let own := filter (fun a => a.1 = service) parsed in
  if decide (Exists (fun a => a.2 = None) own) then None else Some (omap snd own).

Definition group_by_service (parsed : list (string * option string)) : list ServiceArg :=
  map (fun s => mkServiceArg s (containers_of parsed s)) (first_seen (map fst parsed)).

(** ** Equivalence *)
Lemma first_seen_snoc l s : first_seen (l ++ [s]) = if decide (s ∈ first_seen l) then first_seen l else first_seen l ++ [s].
Proof. unfold first_seen. by rewrite fold_left_app. Qed.

Lemma first_seen_elem l s : s ∈ first_seen l <-> s ∈ l.
Proof.
  induction l as [|x l IH] using rev_ind; [done|]. rewrite first_seen_snoc, elem_of_app, list_elem_of_singleton, <- IH.
  destruct (decide (x ∈ first_seen l)) as [Hin|Hin]; [|by rewrite elem_of_app, list_elem_of_singleton].
  split; [by left|]. by intros [?| ->].
Qed.

Lemma first_seen_NoDup l : NoDup (first_seen l).
Proof.
  induction l as [|x l IH] using rev_ind; [constructor|]. rewrite first_seen_snoc. destruct (decide _) as [Hin|Hin]; [done|].
  apply NoDup_app. split; [done|]. split; [|apply NoDup_singleton]. intros y Hy Hy'. apply list_elem_of_singleton in Hy' as ->. done.
Qed.

Lemma containers_of_other parsed a s : a.1 <> s -> containers_of (parsed ++ [a]) s = containers_of parsed s.
Proof.
  intros Hne. unfold containers_of. by rewrite filter_app, filter_cons_False, filter_nil, app_nil_r by done.
Qed.

Lemma containers_of_own parsed service container : containers_of (parsed ++ [(service, container)]) service =
  match container with
  | None => None
  | Some c => match containers_of parsed service with None => None | Some l => Some (l ++ [c]) end
  end.
Proof.
  unfold containers_of. rewrite filter_app, filter_cons_True, filter_nil by done.
  set (own := filter (fun a => a.1 = service) parsed). destruct container as [c|].
  - destruct (decide (Exists (fun a => a.2 = None) own)) as [He|He], (decide (Exists (fun a => a.2 = None) (own ++ [(service, Some c)]))) as [He'|He'].
    + done.
    + exfalso. apply He', Exists_app. by left.
    + exfalso. apply Exists_app in He' as [?|He']; [done|]. apply Exists_cons in He' as [?|He']; [done|]. by apply Exists_nil in He'.
    + by rewrite omap_app.
  - rewrite decide_True; [done|]. apply Exists_app. right. by apply Exists_cons_hd.
Qed.

(** The loop has grouped what it has seen. *)
Definition grouping (parsed : list (string * option string)) (g : groups) : Prop :=
  grouped g = group_by_service parsed /\
  (forall s i, indexByService g !! s = Some i <-> first_seen (map fst parsed) !! i = Some s) /\
  (forall s, default false (allContainers g !! s) = true <-> s ∈ map fst parsed /\ containers_of parsed s = None).

Lemma map_fst_snoc parsed (a : string * option string) s : s ∈ map fst (parsed ++ [a]) <-> s ∈ map fst parsed \/ s = a.1.
Proof. rewrite map_app, elem_of_app. change (map fst [a]) with [a.1]. by rewrite list_elem_of_singleton. Qed.

(** Another argument of a service changes its entry only. *)
Lemma group_seen parsed service container idx : first_seen (map fst parsed) !! idx = Some service ->
  group_by_service (parsed ++ [(service, container)]) =
  alter (fun _ => mkServiceArg service (containers_of (parsed ++ [(service, container)]) service)) idx (group_by_service parsed).
Proof.
  intros Hidx. unfold group_by_service. rewrite map_app. cbn [map]. rewrite first_seen_snoc.
  rewrite decide_True by (by eapply list_elem_of_lookup_2). apply list_eq. intros i.
  destruct (decide (idx = i)) as [<-|Hne].
  - rewrite list_lookup_alter_eq, !list_lookup_fmap, Hidx. done.
  - rewrite list_lookup_alter_ne, !list_lookup_fmap by done. destruct (first_seen (map fst parsed) !! i) as [s|] eqn:Hs; [|done].
    cbn. rewrite containers_of_other; [done|]. cbn. intros ->. apply Hne. eapply NoDup_lookup; [apply first_seen_NoDup|done|done].
Qed.

Lemma containers_of_new parsed service : service ∉ map fst parsed -> containers_of parsed service = Some [].
Proof.
  intros Hnew. unfold containers_of. assert (Hown : filter (fun a => a.1 = service) parsed = []).
  { destruct (filter _ parsed) as [|a l] eqn:Hf; [done|]. exfalso. apply Hnew.
    assert (Ha : a ∈ filter (fun a => a.1 = service) parsed) by (rewrite Hf; by left).
    apply list_elem_of_filter in Ha as [<- Ha]. apply list_elem_of_fmap. by exists a. }
  rewrite Hown, decide_False; [done|]. by intros ?%Exists_nil.
Qed.

Lemma group_new parsed service container : service ∉ map fst parsed ->
  group_by_service (parsed ++ [(service, container)]) =
  group_by_service parsed ++ [mkServiceArg service (match container with Some c => Some [c] | None => None end)].
Proof.
  intros Hnew. unfold group_by_service. rewrite map_app. cbn [map]. rewrite first_seen_snoc, decide_False, map_app by (by rewrite first_seen_elem).
  f_equal.
  - apply map_ext_in. intros s Hs%list_elem_of_In. rewrite first_seen_elem in Hs. rewrite containers_of_other; [done|]. cbn. by intros ->.
  - cbn. f_equal. f_equal. rewrite containers_of_own. destruct container as [c|]; [|done].
    by rewrite (containers_of_new _ _ Hnew).
Qed.

Lemma add_arg_grouping parsed g a : grouping parsed g -> grouping (parsed ++ [a]) (add_arg g a).
Proof.
  destruct a as [service container]. intros (Hg & Hidx & Hall).
  assert (Hothers : forall s, s <> service ->
    (default false (allContainers g !! s) = true <-> s ∈ map fst (parsed ++ [(service, container)]) /\ containers_of (parsed ++ [(service, container)]) s = None)).
  { intros s Hs. rewrite Hall, map_fst_snoc, containers_of_other by done. cbn. naive_solver. }
  unfold add_arg. destruct (indexByService g !! service) as [idx|] eqn:Hi.
  - pose proof (proj1 (Hidx _ _) Hi) as Hseen. assert (Hin : service ∈ map fst parsed) by (apply first_seen_elem; by eapply list_elem_of_lookup_2).
    assert (Hkeys : first_seen (map fst (parsed ++ [(service, container)])) = first_seen (map fst parsed)).
    { rewrite map_app. cbn [map]. rewrite first_seen_snoc, decide_True; [done|]. by rewrite first_seen_elem. }
    assert (Hentry : grouped g !! idx = Some (mkServiceArg service (containers_of parsed service)))
      by (rewrite Hg; unfold group_by_service; by rewrite list_lookup_fmap, Hseen).
    pose proof (containers_of_own parsed service container) as Hown.
    destruct container as [c|]; [destruct (default false (allContainers g !! service)) eqn:Hflag|]; (split; [|split]); cbn [grouped indexByService allContainers];
      try (by rewrite Hkeys).
    + rewrite (group_seen _ _ _ _ Hseen), Hown, <- Hg. apply Hall in Hflag as [_ Hnone]. rewrite Hnone in *.
      symmetry. rewrite <- (list_alter_id (fun x => x) (grouped g) idx) at 2 by done.
      apply list_alter_ext; [|done]. intros x Hx. rewrite Hentry in Hx. by injection Hx as <-.
    + intros s. destruct (decide (s = service)) as [->|]; [|by apply Hothers]. rewrite Hflag, Hown. apply Hall in Hflag as [_ ->].
      rewrite map_fst_snoc. naive_solver.
    + rewrite (group_seen _ _ _ _ Hseen), Hown, <- Hg. apply list_alter_ext; [|done]. intros x Hx. rewrite Hentry in Hx. injection Hx as <-. cbn.
      destruct (containers_of parsed service) as [l|] eqn:Hl; [done|]. exfalso.
      assert (Ht : default false (allContainers g !! service) = true) by (apply Hall; done). by rewrite Hflag in Ht.
    + intros s. destruct (decide (s = service)) as [->|]; [|by apply Hothers]. rewrite Hflag, Hown. split; [done|]. intros [_ Hn].
      destruct (containers_of parsed service) as [l|] eqn:Hl; [done|]. assert (Ht : default false (allContainers g !! service) = true) by (apply Hall; done). by rewrite Hflag in Ht.
    + rewrite (group_seen _ _ _ _ Hseen), Hown, <- Hg. apply list_alter_ext; [|done]. intros x Hx. rewrite Hentry in Hx. by injection Hx as <-.
    + intros s. destruct (decide (s = service)) as [->|Hs].
      * rewrite lookup_insert_eq, Hown, map_fst_snoc. cbn. naive_solver.
      * rewrite lookup_insert_ne by done. by apply Hothers.
  - assert (Hnew : service ∉ map fst parsed).
    { intros Hin. apply first_seen_elem, list_elem_of_lookup in Hin as [i Hin%Hidx]. congruence. }
    assert (Hlen : length (grouped g) = length (first_seen (map fst parsed))) by (rewrite Hg; apply length_map).
    assert (Hkeys : first_seen (map fst (parsed ++ [(service, container)])) = first_seen (map fst parsed) ++ [service]).
    { rewrite map_app. cbn [map]. rewrite first_seen_snoc, decide_False; [done|]. by rewrite first_seen_elem. }
    assert (Hindex : forall s i, <[service := length (grouped g)]> (indexByService g) !! s = Some i <->
      first_seen (map fst (parsed ++ [(service, container)])) !! i = Some s).
    { intros s i. rewrite Hkeys, lookup_snoc_Some, <- Hlen. destruct (decide (s = service)) as [->|Hs].
      - rewrite lookup_insert_eq. split; [intros [= <-]; by right|]. intros [[_ Hl%list_elem_of_lookup_2]|[-> _]]; [|done].
        rewrite first_seen_elem in Hl. done.
      - rewrite lookup_insert_ne, Hidx by done. split; [|naive_solver]. intros Hl. left. split; [|done]. rewrite Hlen. by eapply lookup_lt_Some. }
    assert (Hnoflag : default false (allContainers g !! service) = false).
    { destruct (default false (allContainers g !! service)) eqn:Hf; [|done]. apply Hall in Hf as [Hin _]. done. }
    pose proof (containers_of_own parsed service container) as Hown.
    rewrite (containers_of_new _ _ Hnew) in Hown. destruct container as [c|]; (split; [|split]); cbn [grouped indexByService allContainers]; try done.
    + by rewrite (group_new _ _ _ Hnew), Hg.
    + intros s. destruct (decide (s = service)) as [->|]; [|by apply Hothers]. rewrite Hnoflag, Hown. naive_solver.
    + by rewrite (group_new _ _ _ Hnew), Hg.
    + intros s. destruct (decide (s = service)) as [->|Hs].
      * rewrite lookup_insert_eq, Hown, map_fst_snoc. cbn. naive_solver.
      * rewrite lookup_insert_ne by done. by apply Hothers.
Qed.

Lemma group_args_grouping args : forall parsed g, grouping parsed g ->
  match group_args g args with
  | Ok g' => exists more, map_ok parse_arg args = Ok more /\ grouping (parsed ++ more) g'
  | Err e => map_ok parse_arg args = Err e
  end.
Proof.
  induction args as [|arg args IH]; intros parsed g Hg; cbn [group_args map_ok]; [exists []; by rewrite app_nil_r|].
  destruct (parse_arg arg) as [a|e]; [|done]. specialize (IH _ _ (add_arg_grouping _ _ a Hg)).
  destruct (group_args (add_arg g a) args) as [g'|e].
  - destruct IH as (more & -> & Hg'). exists (a :: more). split; [done|]. by rewrite <- app_assoc in Hg'.
  - by rewrite IH.
Qed.

(** The arguments of [uc logs] are grouped by service in the order the services are first
    named, with all the containers of a service when one argument names just the service;
    and the error is that of the first argument that is not valid. *)
Lemma ParseServiceArgs_groups args :
  ParseServiceArgs args = match map_ok parse_arg args with Ok parsed => Ok (group_by_service parsed) | Err e => Err e end.
Proof.
  unfold ParseServiceArgs. assert (Hg : grouping [] (mkGroups ∅ ∅ [])).
  { split; [done|]. split; [intros s i; unfold first_seen; cbn [indexByService map fold_left]; by rewrite lookup_empty, lookup_nil|].
    intros s. cbn [allContainers]. rewrite lookup_empty. split; [done|]. by intros [?%not_elem_of_nil _]. }
  pose proof (group_args_grouping args _ _ Hg) as H. destruct (group_args (mkGroups ∅ ∅ []) args) as [g|e]; [|by rewrite H].
  destruct H as (parsed & -> & (-> & _)). done.
Qed.

Example log_args :
  ParseServiceArgs ["web/a1"; "api"; "web/b2"; " api/c3 "; "db/x"; "db"] =
  Ok [mkServiceArg "web" (Some ["a1"; "b2"]); mkServiceArg "api" None; mkServiceArg "db" None] /\
  ParseServiceArgs ["web/"; ""] = Err (NoContainerName "web/").
Proof. split; vm_compute; reflexivity. Qed.
