(* ===== verification/ClientConfig.v ===== *)
(** * ClientConfig: how the command line finds a cluster, [internal/cli]

    Machine connections and SSH destinations ([config/connection.go]), the configuration
    file with its contexts ([config/config.go], [config/context.go]), the connection given on
    the command line ([cmd/uc/main.go]), and the choice of a context and of a connection that
    works ([cli.go], [connect.go]).  YAML, the file system and the connectors are given by
    their results; the terminal interface is left out. *)

From S2P Require Import Prelude GoStrings NetAddr NetText.
#[local] Open Scope string_scope.
#[local] Open Scope list_scope.

(** ** SSH destinations *)
(** [port] is an [int]. *)
Definition NewSSHDestination (user host : string) (port : Z) : string :=
  let dst := if (port =? 0)%Z then host else JoinHostPort host (itoa_int port) in
  if String.eqb user "" then dst else user +:+ "@" +:+ dst.

(** [SSHDestination.Parse]; [None] is a port that is not a number. *)
Definition Destination_Parse (d : string) : option (string * string * Z) :=
  let '(user, host) := match cut_byte "@" d with Some (u, h) => (u, h) | None => ("", d) end in
  match SplitHostPort host with
  | None => Some (user, host, 0%Z)
  | Some (h, p) => (fun n => (user, h, n)) <$> ParseInt p
  end.

(** ** Connections *)
Record MachineConnection := mkConnection {
  SSH : string; SSHCLI : string; SSHGo : string; SSHKeyFile : string; TCP : option AddrPort; Unix : string;
  conn_Host : string; conn_PublicKey : string; conn_MachineID : string
}.
#[global] Instance MachineConnection_eq_dec : EqDecision MachineConnection.
Proof. solve_decision. Defined.

Definition no_connection : MachineConnection := mkConnection "" "" "" "" None "" "" "" "".
Definition ssh_connection (d : string) : MachineConnection := mkConnection d "" "" "" None "" "" "" "".
Definition ssh_go_connection (d : string) : MachineConnection := mkConnection "" "" d "" None "" "" "" "".
Definition tcp_connection (a : AddrPort) : MachineConnection := mkConnection "" "" "" "" (Some a) "" "" "" "".
Definition unix_connection (path : string) : MachineConnection := mkConnection "" "" "" "" None path "" "" "".

(** [AddrPort.IsValid] and [AddrPort.String]. *)
Definition AddrPort_IsValid (a : AddrPort) : bool := match ap_Addr a with NoAddr => false | _ => true end.
Definition AddrPort_String (a : AddrPort) : string :=
  match ap_Addr a with
  | NoAddr => "invalid AddrPort"
  | Addr4 _ => addr_String (ap_Addr a) +:+ ":" +:+ sprint (ap_Port a)
  | _ => "[" +:+ addr_String (ap_Addr a) +:+ "]:" +:+ sprint (ap_Port a)
  end.

(** [c.TCP != nil && c.TCP.IsValid()] *)
Definition valid_tcp (c : MachineConnection) : option AddrPort :=
  a ← TCP c; if AddrPort_IsValid a then Some a else None.

Definition conn_String (c : MachineConnection) : string :=
  if negb (String.eqb (SSH c) "") then "ssh://" +:+ SSH c
  else if negb (String.eqb (SSHCLI c) "") then "ssh://" +:+ SSHCLI c
  else if negb (String.eqb (SSHGo c) "") then "ssh+go://" +:+ SSHGo c
  else match valid_tcp c with
       | Some a => "tcp://" +:+ AddrPort_String a
       | None => if negb (String.eqb (Unix c) "") then "unix://" +:+ Unix c else "unknown connection"
       end.

Inductive conn_error := NoMethod | ManyMethods | InvalidConnection (e : conn_error) | UnreachableBranch | ParseSSH (d : string).

Definition setCount (c : MachineConnection) : nat :=
  let one b := if b : bool then 1 else 0 in
  one (negb (String.eqb (SSH c) "")) + one (negb (String.eqb (SSHCLI c) "")) + one (negb (String.eqb (SSHGo c) "")) +
  one (bool_decide (is_Some (valid_tcp c))) + one (negb (String.eqb (Unix c) "")).

Definition conn_Validate (c : MachineConnection) : result conn_error unit :=
  if Nat.eqb (setCount c) 0 then Err NoMethod else if Nat.ltb 1 (setCount c) then Err ManyMethods else Ok tt.

(** ** Connecting to a machine *)
Record SSHConnectorConfig := mkSSHConfig { sc_User : string; sc_Host : string; sc_Port : Z; sc_KeyPath : string }.

Inductive Connector :=
| TCPConnector (a : AddrPort) | UnixConnector (path : string)
| SSHConnector (c : SSHConnectorConfig) | SSHCLIConnector (c : SSHConnectorConfig).

(** [fs.ExpandHomeDir]; [home] is the home directory, when it is known. *)
Definition ExpandHomeDir (home : option string) (path : string) : string :=
  match path with
  | String "~" rest => match home with Some h => h +:+ rest | None => path end
  | _ => path
  end.

(** The connector of [connectCluster]. *)
Definition connector_of (home : option string) (c : MachineConnection) : result conn_error Connector :=
  match conn_Validate c with
  | Err e => Err (InvalidConnection e)
  | Ok _ =>
      let ssh dest useGo :=
        match Destination_Parse dest with
        | None => Err (ParseSSH dest)
        | Some (user, host, port) =>
            let cfg := mkSSHConfig user host port (ExpandHomeDir home (SSHKeyFile c)) in
            Ok (if useGo : bool then SSHConnector cfg else SSHCLIConnector cfg)
        end in
      if negb (String.eqb (SSH c) "") then ssh (SSH c) false
      else if negb (String.eqb (SSHCLI c) "") then ssh (SSHCLI c) false
      else if negb (String.eqb (SSHGo c) "") then ssh (SSHGo c) true
      else match valid_tcp c with
           | Some a => Ok (TCPConnector a)
           | None => if negb (String.eqb (Unix c) "") then Ok (UnixConnector (Unix c)) else Err UnreachableBranch
           end
  end.

(** ** Contexts *)
(** A context of the file is not null. *)
Record Context_ := mkContext { ctx_Name : string; Connections : list MachineConnection }.
(** A nil map of contexts has no entry to read. *)
Record Config := mkConfig { CurrentContext : string; Contexts : gmap string Context_; cfg_path : string }.

Definition with_connections (f : list MachineConnection -> list MachineConnection) (c : Context_) : Context_ :=
  mkContext (ctx_Name c) (f (Connections c)).

(** [index] is an [int]. *)
Definition SetDefaultConnection (index : Z) (c : Context_) : Context_ :=
  if (index <? 0)%Z || (Z.of_nat (length (Connections c)) <=? index)%Z then c
  else match Connections c !! Z.to_nat index with
       | None => c
       | Some selected => with_connections (fun l => selected :: delete (Z.to_nat index) l) c
       end.

(** The file the configuration is read from: missing, not accessible, or read and decoded. *)
Inductive config_file := FileMissing | StatFailed (e : string) | ReadFailed (e : string) | FileRead (current : string) (contexts : gmap string Context_).
Inductive config_error := CheckFile (path e : string) | ReadConfigFile (path e : string).

Definition NewFromFile (file : string -> config_file) (path : string) : result config_error Config :=
  match file path with
  | StatFailed e => Err (CheckFile path e)
  | FileMissing => Ok (mkConfig "" ∅ path)
  | ReadFailed e => Err (ReadConfigFile path e)
  | FileRead current contexts => Ok (mkConfig current contexts path)
  end.

(** ** The command line *)
Record CLI := mkCLI { cli_Config : option Config; cli_conn : option MachineConnection; contextOverride : string }.

Definition New (file : string -> config_file) (configPath : string) (conn : option MachineConnection) (contextName : string) :
  result config_error CLI :=
  match conn with
  | Some c => Ok (mkCLI None (Some c) "")
  | None => match NewFromFile file configPath with
            | Err e => Err e
            | Ok cfg => Ok (mkCLI (Some cfg) None contextName)
            end
  end.

(** The connection of [--connect], [cmd/uc/main.go]; [None] is a TCP address that is not one. *)
Definition parse_connect (connect : string) : option MachineConnection :=
  match cut_prefix "tcp://" connect with
  | Some after => match ParseAddrPort after with Ok a => Some (tcp_connection a) | Err _ => None end
  | None =>
      match cut_prefix "ssh+go://" connect with
      | Some after => Some (ssh_go_connection after)
      | None =>
          match cut_prefix "ssh+cli://" connect with
          | Some after => Some (ssh_connection after)
          | None =>
              match cut_prefix "unix://" connect with
              | Some after => Some (unix_connection after)
              | None => Some (ssh_connection (trim_prefix "ssh://" connect))
              end
          end
      end
  end.

Definition DefaultUncloudSockPath : string := "/run/uncloud/uncloud.sock".

(** The connection [uc] starts with: the one given, the socket of this machine when there is
    no configuration file, or none. *)
Definition initial_connection (Exists : string -> bool) (connect configPath : string) : option (option MachineConnection) :=
  if negb (String.eqb connect "") then Some <$> parse_connect connect
  else Some (if negb (Exists configPath) && Exists DefaultUncloudSockPath
             then Some (unix_connection DefaultUncloudSockPath) else None).

(** *** Contexts of the command line *)
Inductive context_error := ContextExists (name : string) | ContextNotFound (name : string).

(** The configuration [CreateContext] and [SetCurrentContext] save; it is changed in memory
    even if that fails. *)
Definition CreateContext (name : string) (cfg : Config) : result context_error Config :=
  if decide (is_Some (Contexts cfg !! name)) then Err (ContextExists name)
  else Ok (mkConfig (CurrentContext cfg) (<[name := mkContext name []]> (Contexts cfg)) (cfg_path cfg)).

Definition SetCurrentContext (name : string) (cfg : Config) : result context_error Config :=
  if decide (is_Some (Contexts cfg !! name)) then Ok (mkConfig name (Contexts cfg) (cfg_path cfg))
  else Err (ContextNotFound name).

Definition ContextOverrideOrCurrent (cli : CLI) : string :=
  if negb (String.eqb (contextOverride cli) "") then contextOverride cli
  else match cli_Config cli with Some cfg => CurrentContext cfg | None => "" end.

Definition DirectConnection (cli : CLI) : string :=
  match cli_conn cli with Some c => conn_String c | None => "" end.

Definition SetClusterContextIfUnset (name : string) (cli : CLI) : CLI :=
  if String.eqb name "" || negb (String.eqb (contextOverride cli) "") || bool_decide (is_Some (cli_conn cli)) then cli
  else mkCLI (cli_Config cli) (cli_conn cli) name.

(** *** A new name *)
Definition DefaultContextName : string := "default".
Definition numbered_context (i : nat) : string := DefaultContextName +:+ "-" +:+ itoa (N.of_nat i).

(** The loop has no bound: the model tries one name more than there are contexts. *)
Definition numbered_name (contexts : gmap string Context_) : option string :=
  numbered_context <$> first_from (fun i => bool_decide (contexts !! numbered_context i = None)) (S (size contexts)) 1.

Inductive name_error := NameTaken (name : string) | OutOfNames.

Definition newContextName (cfg : Config) (name : string) : result name_error string :=
  let name := if String.eqb name "" then DefaultContextName else name in
  if decide (Contexts cfg !! name = None) then Ok name
  else if negb (String.eqb name DefaultContextName) then Err (NameTaken name)
  else match numbered_name (Contexts cfg) with
       | Some n => Ok n
       | None => Err OutOfNames
       end.

(** *** Connecting to a cluster *)
Inductive connect_error {E : Type} :=
| ConnectFailed (e : E) | NoContexts (path : string) | CurrentUnset (path : string) | CurrentMissing (name path : string)
| ContextMissing (name path : string) | NoConnections (name path : string)
| AllFailed (name path : string) (n : nat) (last : option E).
Arguments connect_error : clear implicits.

Section Connect.
Context {Client E : Type} (connect : MachineConnection -> result E Client).

(** Each connection in order until one succeeds, or the last error. *)
Fixpoint try_connections (conns : list MachineConnection) (lastErr : option E) : option E + Client :=
  match conns with
  | [] => inl lastErr
  | c :: rest => match connect c with
                 | Ok client => inr client
                 | Err e => try_connections rest (Some e)
                 end
  end.

Definition chosen_context (override : string) (cfg : Config) : result (connect_error E) string :=
  if negb (String.eqb override "") then Ok override
  else if String.eqb (CurrentContext cfg) "" then Err (CurrentUnset (cfg_path cfg))
  else match Contexts cfg !! CurrentContext cfg with
       | None => Err (CurrentMissing (CurrentContext cfg) (cfg_path cfg))
       | Some _ => Ok (CurrentContext cfg)
       end.

(** The configuration is nil only when there is a connection. *)
Definition ConnectCluster (cli : CLI) : result (connect_error E) Client :=
  match cli_conn cli, cli_Config cli with
  | Some c, _ => wrap_err ConnectFailed (connect c)
  | None, None => Err (NoContexts "")
  | None, Some cfg =>
      if decide (Contexts cfg = ∅) then Err (NoContexts (cfg_path cfg))
      else (let! contextName := chosen_context (contextOverride cli) cfg in
            match Contexts cfg !! contextName with
            | None => Err (ContextMissing contextName (cfg_path cfg))
            | Some ctx =>
                match Connections ctx with
                | [] => Err (NoConnections contextName (cfg_path cfg))
                | conns => match try_connections conns None with
                           | inr client => Ok client
                           | inl lastErr => Err (AllFailed contextName (cfg_path cfg) (length conns) lastErr)
                           end
                end
            end)%go
  end.
End Connect.

(** ** WireGuard endpoints of the command line, [flags.go] *)
Inductive endpoint_error := InvalidEndpoint (v : string).

Definition ParseWireGuardEndpoints (defaultPort : Z) (values : list string) : result endpoint_error (list AddrPort) :=
  map_ok (fun v => match ParseAddrPort v with
                   | Ok ap => Ok ap
                   | Err _ => match ParseAddr v with
                              | None => Err (InvalidEndpoint v)
                              | Some a => Ok (mkAddrPort a defaultPort)
                              end
                   end) values.

(** ** Destinations *)
Lemma SplitHostPort_bare host : contains_byte "[" host = false -> count_byte ":" host <> 1 -> SplitHostPort host = None.
Proof.
  intros Ho Hc. unfold SplitHostPort. destruct (last_cut_byte ":" host) as [[pre port]|] eqn:Hcut; [|done].
  apply last_cut_byte_Some in Hcut as [-> Hport].
  assert (Hp : cut_prefix "[" (pre +:+ String ":" port) = None).
  { destruct pre as [|a pre]; [done|]. cbn [contains_byte String.append] in Ho. apply orb_false_iff in Ho as [Ha _].
    cbn [String.append cut_prefix]. by rewrite Ascii.eqb_sym, Ha. }
  rewrite Hp. destruct (contains_byte ":" pre) eqn:Hpre; [done|]. exfalso. apply Hc.
  rewrite count_byte_app. cbn [count_byte]. change (Ascii.eqb ":" ":") with true.
  by rewrite (proj2 (count_byte_0 _ _) Hpre), (proj2 (count_byte_0 _ _) Hport).
Qed.

(** The host is a name or an IP address: no brackets, and not exactly one colon, when the
    port is left out. *)
Definition destination_host (host : string) (port : Z) : Prop :=
  contains_byte "[" host = false /\ contains_byte "]" host = false /\ contains_byte "@" host = false /\
  (port = 0%Z -> count_byte ":" host <> 1).

(** An SSH destination is parsed back to the user, host and port it was built from,
    IPv6 hosts included. *)
Lemma destination_roundtrip user host port :
  (0 <= port < 2 ^ 63)%Z -> contains_byte "@" user = false -> destination_host host port ->
  Destination_Parse (NewSSHDestination user host port) = Some (user, host, port).
Proof.
  intros Hport Hu (Ho & Hb & Ha & Hcolon). unfold NewSSHDestination.
  set (dst := if (port =? 0)%Z then host else JoinHostPort host (itoa_int port)).
  assert (Hitoa : itoa_int port = sprint port) by (unfold itoa_int; destruct (Z.ltb_spec port 0); [lia|done]).
  assert (Hdst : contains_byte "@" dst = false /\
    match SplitHostPort dst with None => Some (user, dst, 0%Z) | Some (h, p) => (fun n => (user, h, n)) <$> ParseInt p end = Some (user, host, port)).
  { subst dst. destruct (Z.eqb_spec port 0) as [->|Hne].
    - split; [done|]. by rewrite SplitHostPort_bare by auto.
    - rewrite Hitoa. split.
      + unfold JoinHostPort. destruct (contains_byte ":" host); rewrite !contains_byte_app, Ha, ?sprint_no_byte by done; done.
      + rewrite split_join_host_port by (done || by apply sprint_no_byte). by rewrite ParseInt_sprint by lia. }
  destruct Hdst as [Hat Hsplit]. unfold Destination_Parse. destruct (String.eqb_spec user "") as [->|Hne].
  - rewrite (proj2 (cut_byte_None _ _) Hat). exact Hsplit.
  - change (user +:+ "@" +:+ dst) with (user +:+ String "@" dst). rewrite cut_byte_app by done. exact Hsplit.
Qed.

(** ** One method *)
Inductive conn_method := ViaSSH (d : string) | ViaSSHCLI (d : string) | ViaSSHGo (d : string) | ViaTCP (a : AddrPort) | ViaUnix (path : string).

(** The methods a connection sets, in the order they are looked at. *)
Definition methods (c : MachineConnection) : list conn_method :=
  let some s (m : conn_method) := if String.eqb s "" then [] else [m] in
  some (SSH c) (ViaSSH (SSH c)) ++ some (SSHCLI c) (ViaSSHCLI (SSHCLI c)) ++ some (SSHGo c) (ViaSSHGo (SSHGo c)) ++
  (match valid_tcp c with Some a => [ViaTCP a] | None => [] end) ++ some (Unix c) (ViaUnix (Unix c)).

Lemma setCount_methods c : setCount c = length (methods c).
Proof.
  unfold setCount, methods. rewrite !length_app.
  destruct (String.eqb (SSH c) ""), (String.eqb (SSHCLI c) ""), (String.eqb (SSHGo c) ""), (valid_tcp c), (String.eqb (Unix c) ""); reflexivity.
Qed.

Definition method_String (m : conn_method) : string :=
  match m with
  | ViaSSH d | ViaSSHCLI d => "ssh://" +:+ d
  | ViaSSHGo d => "ssh+go://" +:+ d
  | ViaTCP a => "tcp://" +:+ AddrPort_String a
  | ViaUnix p => "unix://" +:+ p
  end.

(** A valid connection has one method, which is the one printed and the one dialled. *)
Lemma conn_Validate_Ok c : conn_Validate c = Ok tt <-> exists m, methods c = [m].
Proof.
  unfold conn_Validate. rewrite setCount_methods. destruct (methods c) as [|m [|m' l]]; cbn; [naive_solver| |naive_solver].
  split; [by exists m|done].
Qed.

Definition dial (home : option string) (keyFile : string) (m : conn_method) : result conn_error Connector :=
  let ssh d (k : SSHConnectorConfig -> Connector) :=
    match Destination_Parse d with
    | None => Err (ParseSSH d)
    | Some (user, host, port) => Ok (k (mkSSHConfig user host port (ExpandHomeDir home keyFile)))
    end in
  match m with
  | ViaSSH d | ViaSSHCLI d => ssh d SSHCLIConnector
  | ViaSSHGo d => ssh d SSHConnector
  | ViaTCP a => Ok (TCPConnector a)
  | ViaUnix p => Ok (UnixConnector p)
  end.

Lemma connector_of_spec home c :
  match methods c with
  | [m] => connector_of home c = dial home (SSHKeyFile c) m /\ conn_String c = method_String m
  | [] => connector_of home c = Err (InvalidConnection NoMethod)
  | _ => connector_of home c = Err (InvalidConnection ManyMethods)
  end.
Proof.
  unfold connector_of, conn_Validate, conn_String. rewrite setCount_methods. unfold methods, dial.
  destruct (String.eqb (SSH c) ""), (String.eqb (SSHCLI c) ""), (String.eqb (SSHGo c) ""), (valid_tcp c), (String.eqb (Unix c) "");
    cbn; try done; split; try done; by destruct (Destination_Parse _) as [[[? ?] ?]|].
Qed.

(** ** The connection of the command line *)
Definition addrport_text (a : AddrPort) : Prop :=
  text_ok (ap_Addr a) = true /\ AddrPort_IsValid a = true /\ (0 <= ap_Port a < 2 ^ 16)%Z.

Lemma ParseAddrPort_String a : addrport_text a -> ParseAddrPort (AddrPort_String a) = Ok a.
Proof.
  intros (Htext & Hvalid & Hport). destruct (text_ok_spec _ Htext) as (Hp & _ & _ & Ho & Hc).
  assert (Hne : addr_String (ap_Addr a) <> "") by (intros He; rewrite He in Hp; done).
  assert (Hn : parse_uint 16 (sprint (ap_Port a)) = Ok (Z.to_N (ap_Port a))) by (unfold sprint; apply itoa_parse; lia).
  assert (Hcolon : contains_byte ":" (sprint (ap_Port a)) = false) by by apply sprint_no_byte.
  assert (Hpe : sprint (ap_Port a) <> "") by (intros He; by rewrite He in Hn).
  assert (Hpz : Z.of_N (Z.to_N (ap_Port a)) = ap_Port a) by lia.
  assert (Hpre : cut_prefix "[" (addr_String (ap_Addr a)) = None).
  { destruct (addr_String (ap_Addr a)) as [|x s]; [done|]. cbn [contains_byte] in Ho. apply orb_false_iff in Ho as [Hx _].
    cbn [cut_prefix]. by rewrite Ascii.eqb_sym, Hx. }
  unfold ParseAddrPort, split_addr_port, AddrPort_String. destruct a as [ip port]. cbn [ap_Addr ap_Port] in *.
  assert (Hbr : forall s, s <> "" -> cut_prefix "[" s = None ->
    last_cut_byte ":" ("[" +:+ s +:+ "]:" +:+ sprint port) = Some ("[" +:+ s +:+ "]", sprint port)).
  { intros s _ _. replace ("[" +:+ s +:+ "]:" +:+ sprint port) with (("[" +:+ s +:+ "]") +:+ String ":" (sprint port))
      by (rewrite !string_app_assoc; reflexivity). by apply last_cut_byte_app. }
  destruct ip as [|v|v z]; [done| |].
  - change (addr_String (Addr4 v) +:+ ":" +:+ sprint port) with (addr_String (Addr4 v) +:+ String ":" (sprint port)).
    rewrite last_cut_byte_app by done. rewrite (proj2 (String.eqb_neq _ _) Hne), (proj2 (String.eqb_neq _ _) Hpe), Hpre, Hn, Hp, Hpz. done.
  - rewrite Hbr by done. cbn [String.eqb String.append]. rewrite (proj2 (String.eqb_neq _ _) Hpe).
    cbn [cut_prefix Ascii.eqb Bool.eqb]. rewrite cut_suffix_app, Hn, Hp, Hpz. done.
Qed.

(** What a connection is printed as is read back as the connection with that method. *)
Definition connection_of (m : conn_method) : MachineConnection :=
  match m with
  | ViaSSH d | ViaSSHCLI d => ssh_connection d
  | ViaSSHGo d => ssh_go_connection d
  | ViaTCP a => tcp_connection a
  | ViaUnix p => unix_connection p
  end.

Lemma parse_connect_String m : match m with ViaTCP a => addrport_text a | _ => True end ->
  parse_connect (method_String m) = Some (connection_of m).
Proof.
  destruct m as [d|d|d|a|p]; intros Hm; cbn; try reflexivity. by rewrite ParseAddrPort_String.
Qed.

(** ** Contexts *)
Lemma numbered_context_inj i j : numbered_context i = numbered_context j -> i = j.
Proof. unfold numbered_context. intros H. apply Nat2N.inj, itoa_inj. by injection H. Qed.

(** A name that is free is used as it is; the default one is numbered with the first number
    that is free; another one that is taken is an error. *)
Lemma newContextName_spec cfg name :
  let name' := if String.eqb name "" then DefaultContextName else name in
  match newContextName cfg name with
  | Ok n => Contexts cfg !! n = None /\
      (n = name' \/ name' = DefaultContextName /\ exists i, (1 <= i)%nat /\ n = numbered_context i /\
         is_Some (Contexts cfg !! DefaultContextName) /\
         forall k, (1 <= k < i)%nat -> is_Some (Contexts cfg !! numbered_context k))
  | Err e => e = NameTaken name' /\ name' <> DefaultContextName /\ is_Some (Contexts cfg !! name')
  end.
Proof.
  cbn zeta. unfold newContextName. set (name' := if String.eqb name "" then DefaultContextName else name).
  destruct (decide (Contexts cfg !! name' = None)) as [Hf|Hf]; [auto|].
  apply not_eq_None_Some in Hf. destruct (String.eqb_spec name' DefaultContextName) as [Heq|Hne]; cbn [negb]; [|done].
  unfold numbered_name.
  destruct (free_candidate numbered_context (map_to_list (Contexts cfg)).*1 1) as (j & Hj & Hfree); [apply numbered_context_inj|].
  rewrite length_fmap, length_map_to_list in Hj.
  destruct (first_from_spec (fun i => bool_decide (Contexts cfg !! numbered_context i = None)) (S (size (Contexts cfg))) 1) as
    (i & -> & Hi & Hok & Hall).
  { exists j. split; [done|]. apply bool_decide_eq_true. destruct (Contexts cfg !! numbered_context j) as [c|] eqn:Hl; [|done].
    exfalso. apply Hfree. apply list_elem_of_fmap. exists (numbered_context j, c). split; [done|]. by apply elem_of_map_to_list. }
  cbn. apply bool_decide_eq_true in Hok. split; [done|]. right. split; [done|]. exists i. split_and!; [done|done|by rewrite <- Heq|].
  intros k Hk. apply not_eq_None_Some. intros He. specialize (Hall k Hk). apply bool_decide_eq_false in Hall. done.
Qed.

(** The default connection is first, and the others stay in order. *)
Lemma SetDefaultConnection_perm index c : Connections (SetDefaultConnection index c) ≡ₚ Connections c.
Proof.
  unfold SetDefaultConnection. destruct (_ || _); [done|].
  destruct (Connections c !! Z.to_nat index) as [selected|] eqn:Hl; [|done]. cbn. symmetry. by apply delete_Permutation.
Qed.

Lemma SetDefaultConnection_first index c selected : (0 <= index)%Z -> Connections c !! Z.to_nat index = Some selected ->
  head (Connections (SetDefaultConnection index c)) = Some selected.
Proof.
  intros H0 Hl. unfold SetDefaultConnection. pose proof (lookup_lt_Some _ _ _ Hl).
  destruct (Z.ltb_spec index 0), (Z.leb_spec (Z.of_nat (length (Connections c))) index); try lia. cbn [orb]. by rewrite Hl.
Qed.

(** ** Connecting *)
Section ConnectSpec.
Context {Client E : Type} (connect : MachineConnection -> result E Client).

(** The client is of the first connection that works, and the error is that of the last. *)
Lemma try_connections_spec conns : forall lastErr,
  match try_connections connect conns lastErr with
  | inr client => exists before c after, conns = before ++ c :: after /\ connect c = Ok client /\
      Forall (fun b => exists e, connect b = Err e) before
  | inl e => Forall (fun b => exists e, connect b = Err e) conns /\
      match last conns with Some c => exists e', connect c = Err e' /\ e = Some e' | None => e = lastErr end
  end.
Proof.
  induction conns as [|c rest IH]; intros lastErr; cbn [try_connections]; [by split|].
  destruct (connect c) as [client|e] eqn:Hc; [by exists [], c, rest|]. specialize (IH (Some e)).
  destruct (try_connections connect rest (Some e)) as [e'|client].
  - destruct IH as [Hall Hlast]. split; [constructor; eauto|]. destruct rest as [|c' rest]; [cbn in *; eauto|].
    change (last (c :: c' :: rest)) with (last (c' :: rest)). destruct (last (c' :: rest)) eqn:Hl; [done|by apply last_None in Hl].
  - destruct IH as (before & c' & after & -> & Hc' & Hall). exists (c :: before), c', after. split_and!; [done|done|]. constructor; eauto.
Qed.

(** A cluster is reached over the connection of the command line if there is one, and over
    the first connection that works of the context that was chosen otherwise. *)
Lemma ConnectCluster_Ok cli client : ConnectCluster connect cli = Ok client ->
  (exists c, cli_conn cli = Some c /\ connect c = Ok client) \/
  cli_conn cli = None /\ exists cfg ctx before c after, cli_Config cli = Some cfg /\
    Contexts cfg !! ContextOverrideOrCurrent cli = Some ctx /\ Connections ctx = before ++ c :: after /\
    connect c = Ok client /\ Forall (fun b => exists e, connect b = Err e) before.
Proof.
  unfold ConnectCluster, ContextOverrideOrCurrent. destruct (cli_conn cli) as [c|]; [rewrite wrap_err_Ok; eauto|].
  destruct (cli_Config cli) as [cfg|]; [|done]. destruct (decide _); [done|].
  intros (name & Hname & Hrun)%res_bind_Ok. right. split; [done|]. exists cfg.
  assert (Hn : name = if negb (String.eqb (contextOverride cli) "") then contextOverride cli else CurrentContext cfg).
  { unfold chosen_context in Hname. destruct (negb _); [by injection Hname|]. destruct (String.eqb _ _); [done|].
    destruct (Contexts cfg !! CurrentContext cfg); [by injection Hname|done]. }
  rewrite <- Hn. destruct (Contexts cfg !! name) as [ctx|]; [|done]. destruct (Connections ctx) as [|c0 l] eqn:Hl; [done|].
  pose proof (try_connections_spec (c0 :: l) None) as Hspec. destruct (try_connections connect (c0 :: l) None) as [|client']; [done|].
  injection Hrun as ->. destruct Hspec as (before & c & after & He & Hc & Hall). exists ctx, before, c, after. by rewrite Hl.
Qed.

(** A connection that works is never missed. *)
Lemma ConnectCluster_reaches cli cfg ctx c : cli_conn cli = None -> cli_Config cli = Some cfg ->
  Contexts cfg !! ContextOverrideOrCurrent cli = Some ctx -> ContextOverrideOrCurrent cli <> "" ->
  c ∈ Connections ctx -> is_ok (connect c) = true -> exists client, ConnectCluster connect cli = Ok client.
Proof.
  intros Hconn Hcfg Hctx Hne Hc Hok. unfold ConnectCluster. rewrite Hconn, Hcfg.
  destruct (decide (Contexts cfg = ∅)) as [He|_]; [by rewrite He in Hctx|].
  assert (Hname : chosen_context (E := E) (contextOverride cli) cfg = Ok (ContextOverrideOrCurrent cli)).
  { unfold chosen_context, ContextOverrideOrCurrent in *. rewrite Hcfg in *. destruct (negb _); [done|].
    rewrite (proj2 (String.eqb_neq _ _) Hne), Hctx. done. }
  rewrite Hname. cbn [res_bind]. rewrite Hctx. destruct (Connections ctx) as [|c0 l]; [by apply not_elem_of_nil in Hc|].
  pose proof (try_connections_spec (c0 :: l) None) as Hspec. destruct (try_connections connect (c0 :: l) None) as [e|client]; [|by exists client].
  destruct Hspec as [Hall _]. rewrite Forall_forall in Hall. destruct (Hall c Hc) as [e' He']. by rewrite He' in Hok.
Qed.
End ConnectSpec.

(** ** Examples *)
(** The user name of a domain account has an [@]: [ssh] takes the last one for the host. *)
Example domain_user : Destination_Parse "alice@corp.example@host" = Some ("alice", "corp.example@host", 0%Z).
Proof. vm_compute. reflexivity. Qed.

(** A port out of range is accepted. *)
Example port_out_of_range : Destination_Parse "host:70000" = Some ("", "host", 70000%Z).
Proof. vm_compute. reflexivity. Qed.

Example destinations :
  map Destination_Parse ["host"; "root@10.0.0.1:22"; "2001:db8::1"; "u@[2001:db8::1]:22"; "host:"] =
  [Some ("", "host", 0%Z); Some ("root", "10.0.0.1", 22%Z); Some ("", "2001:db8::1", 0%Z); Some ("u", "2001:db8::1", 22%Z); None].
Proof. vm_compute. reflexivity. Qed.
