(* ===== verification/Shell.v ===== *)
(** * Shell: commands for remote machines, [internal/sshexec/executor.go] and [internal/cli/machine.go]

    Quoting of command arguments, and the command that installs the daemon over SSH.  The
    reference is the quoting of the POSIX shell: [lex] gives the words and the control
    operators of a command line, and fails on anything a shell would expand. *)

From S2P Require Import Prelude GoStrings.
#[local] Open Scope string_scope.
#[local] Open Scope list_scope.

(** ** Quoting *)
(** The characters [pattern] does not match: [\w@%+=:,./-]. *)
Definition safe_char (c : ascii) : bool :=
  existsb (Ascii.eqb c) (String.list_ascii_of_string "0123456789ABCDEFGHIJKLMNOPQRSTUVWXYZabcdefghijklmnopqrstuvwxyz_@%+=:,./-").

Fixpoint all_chars (f : ascii -> bool) (s : string) : bool :=
  match s with "" => true | String c s' => f c && all_chars f s' end.

(** [strings.ReplaceAll] of one byte. *)
Fixpoint replace_byte (c : ascii) (by_ s : string) : string :=
  match s with
  | "" => ""
  | String a s' => if Ascii.eqb a c then by_ +:+ replace_byte c by_ s' else String a (replace_byte c by_ s')
  end.

Definition squote : ascii := "'"%char.
Definition dquote : ascii := "034"%char.
(** A single quote in double quotes, between two parts in single quotes. *)
Definition quoted_squote : string := String squote (String dquote (String squote (String dquote (String squote "")))).

Definition Quote (s : string) : string :=
  if Nat.eqb (String.length s) 0 then "''"
  else if negb (all_chars safe_char s) then "'" +:+ replace_byte squote quoted_squote s +:+ "'"
  else s.

Definition QuoteCommand (args : list string) : string := join " " (map Quote args).

(** ** Installing the daemon *)
Definition group_var : string := "UNCLOUD_GROUP_ADD_USER=".
Definition version_var : string := "UNCLOUD_VERSION=".
Definition rootUser : string := "root".

Definition installCmd (scriptBase64 user version : string) : string :=
  let sudoPrefix := if String.eqb user rootUser then "" else "sudo " in
  let env := (if String.eqb user rootUser then [] else [group_var +:+ Quote user]) ++
             (if String.eqb version "" then [] else [version_var +:+ Quote version]) in
  let envPrefix := if Nat.ltb 0 (length env) then join " " env +:+ " " else "" in
  "printf '%s' " +:+ scriptBase64 +:+ " | base64 -d | " +:+ sudoPrefix +:+ envPrefix +:+ "bash".

(** The command [provisionMachine] runs. *)
Definition install_command (scriptBase64 user version : string) : string :=
  QuoteCommand ["bash"; "-c"; "set -o pipefail; " +:+ installCmd scriptBase64 user version].

(** ** The words of a shell command *)
Inductive token := Word (w : string) | Op (c : ascii).
Inductive quoting := Unquoted | InSingle | InDouble.

(** Inside double quotes these are still special. *)
Definition expands (c : ascii) : bool := existsb (Ascii.eqb c) (String.list_ascii_of_string "$`\!").

Definition flush (cur : option string) : list token := match cur with Some w => [Word w] | None => [] end.
Definition grow (cur : option string) (w : string) : option string := Some (default "" cur +:+ w).

(** [cur] is the word that has started, if any. *)
Fixpoint lex (q : quoting) (cur : option string) (s : string) : option (list token) :=
  match q, s with
  | Unquoted, "" => Some (flush cur)
  | Unquoted, String c s' =>
      if Ascii.eqb c " " then (fun l => flush cur ++ l) <$> lex Unquoted None s'
      else if Ascii.eqb c "|" || Ascii.eqb c ";" then (fun l => flush cur ++ Op c :: l) <$> lex Unquoted None s'
      else if Ascii.eqb c squote then lex InSingle (grow cur "") s'
      else if Ascii.eqb c dquote then lex InDouble (grow cur "") s'
      else if safe_char c then lex Unquoted (grow cur (String c "")) s'
      else None
  | InSingle, String c s' => if Ascii.eqb c squote then lex Unquoted cur s' else lex InSingle (grow cur (String c "")) s'
  | InDouble, String c s' =>
      if Ascii.eqb c dquote then lex Unquoted cur s' else if expands c then None else lex InDouble (grow cur (String c "")) s'
  | _, "" => None
  end.

Definition sh_tokens (s : string) : option (list token) := lex Unquoted None s.

(** ** Quoting is exact *)
Lemma grow_grow cur a b : grow (grow cur a) b = grow cur (a +:+ b).
Proof. unfold grow. cbn. by rewrite string_app_assoc. Qed.

Lemma safe_char_plain c : safe_char c = true ->
  Ascii.eqb c " " = false /\ Ascii.eqb c "|" = false /\ Ascii.eqb c ";" = false /\ Ascii.eqb c squote = false /\ Ascii.eqb c dquote = false.
Proof.
  intros Hs. assert (Hne : forall x, safe_char x = false -> Ascii.eqb c x = false).
  { intros x Hx. destruct (Ascii.eqb_spec c x) as [->|]; [congruence|done]. }
  split_and!; by apply Hne.
Qed.

Lemma lex_safe w rest : forall cur, all_chars safe_char w = true -> w <> "" ->
  lex Unquoted cur (w +:+ rest) = lex Unquoted (grow cur w) rest.
Proof.
  induction w as [|c w IH]; intros cur; [done|]. cbn [all_chars]. intros [Hc Hw]%andb_true_iff _.
  destruct (safe_char_plain c Hc) as (H1 & H2 & H3 & H4 & H5). cbn [String.append lex]. rewrite H1, H2, H3, H4, H5, Hc. cbn [orb].
  destruct w as [|c' w]; [done|]. rewrite IH by done. by rewrite grow_grow.
Qed.

Lemma lex_single w rest : forall cur,
  lex InSingle cur (replace_byte squote quoted_squote w +:+ String squote rest) = lex Unquoted (match w with "" => cur | _ => grow cur w end) rest.
Proof.
  induction w as [|c w IH]; intros cur; [by destruct cur|]. cbn [replace_byte].
  assert (Hgrow : match w with "" => grow cur (String c "") | _ => grow (grow cur (String c "")) w end = grow cur (String c w))
    by (destruct w; [done|apply grow_grow]).
  destruct (Ascii.eqb_spec c squote) as [->|Hne].
  - rewrite <- Hgrow, <- IH. cbn. by rewrite !grow_grow.
  - cbn [String.append lex]. rewrite (proj2 (Ascii.eqb_neq _ _) Hne), IH. by rewrite <- Hgrow.
Qed.

Lemma lex_Quote w cur rest : lex Unquoted cur (Quote w +:+ rest) = lex Unquoted (grow cur w) rest.
Proof.
  unfold Quote. destruct w as [|c w]; [by cbn|]. cbn [String.length Nat.eqb].
  destruct (all_chars safe_char (String c w)) eqn:Hsafe; cbn [negb]; [by apply lex_safe|].
  rewrite !string_app_assoc. change ("'" +:+ ?x) with (String squote x). cbn [String.append].
  change (lex Unquoted cur (String squote ?x)) with (lex InSingle (grow cur "") x).
  change (String "'" rest) with (String squote rest). rewrite lex_single. by rewrite grow_grow.
Qed.

Lemma lex_space cur rest : lex Unquoted cur (String " " rest) = (fun l => flush cur ++ l) <$> sh_tokens rest.
Proof. reflexivity. Qed.

(** The command line of [QuoteCommand] is read by a shell as exactly its arguments,
    whatever bytes they are made of. *)
Lemma QuoteCommand_words args : sh_tokens (QuoteCommand args) = Some (map Word args).
Proof.
  unfold QuoteCommand. induction args as [|w args IH]; [done|]. destruct args as [|w' args].
  - cbn [map join]. rewrite <- (string_app_nil_r (Quote w)). unfold sh_tokens. rewrite lex_Quote. done.
  - change (join " " (map Quote (w :: w' :: args))) with (Quote w +:+ String " " (join " " (map Quote (w' :: args)))).
    unfold sh_tokens. rewrite lex_Quote, lex_space. unfold sh_tokens in *. rewrite IH. done.
Qed.

(** ** The install command *)
(** An assignment of a quoted value is one word. *)
Lemma lex_assignment name w rest : all_chars safe_char name = true -> name <> "" ->
  lex Unquoted None ((name +:+ Quote w) +:+ String " " rest) = (fun l => Word (name +:+ w) :: l) <$> sh_tokens rest.
Proof.
  intros Hn Hne. rewrite string_app_assoc, lex_safe by done. rewrite lex_Quote, lex_space, grow_grow. done.
Qed.

Lemma lex_word w rest : all_chars safe_char w = true -> w <> "" ->
  lex Unquoted None (w +:+ String " " rest) = (fun l => Word w :: l) <$> sh_tokens rest.
Proof. intros Hw Hne. by rewrite lex_safe, lex_space by done. Qed.

(** The environment of the script: the user is added to the group, unless it is root. *)
Definition install_env (user version : string) : list token :=
  (if String.eqb user rootUser then [] else [Word (group_var +:+ user)]) ++
  (if String.eqb version "" then [] else [Word (version_var +:+ version)]).

Definition install_words (scriptBase64 user version : string) : list token :=
  [Word "printf"; Word "%s"; Word scriptBase64; Op "|"; Word "base64"; Word "-d"; Op "|"] ++
  (if String.eqb user rootUser then [] else [Word "sudo"]) ++ install_env user version ++ [Word "bash"].

(** C37: the install command is the pipeline it is meant to be for every user name and
    version: neither can add a word or an operator to it. *)
Theorem installCmd_words scriptBase64 user version :
  all_chars safe_char scriptBase64 = true -> scriptBase64 <> "" ->
  sh_tokens (installCmd scriptBase64 user version) = Some (install_words scriptBase64 user version) /\
  sh_tokens (install_command scriptBase64 user version) =
    Some [Word "bash"; Word "-c"; Word ("set -o pipefail; " +:+ installCmd scriptBase64 user version)].
Proof.
  intros Hs Hne. split; [|apply QuoteCommand_words]. unfold installCmd, install_words, install_env, sh_tokens.
  set (tail := (if String.eqb user rootUser then "" else "sudo ") +:+ _).
  assert (Htail : sh_tokens tail = Some ((if String.eqb user rootUser then [] else [Word "sudo"]) ++
    ((if String.eqb user rootUser then [] else [Word (group_var +:+ user)]) ++
     (if String.eqb version "" then [] else [Word (version_var +:+ version)])) ++ [Word "bash"])).
  { subst tail. assert (Hg : forall r, sh_tokens (group_var +:+ Quote user +:+ " " +:+ r) = (fun l => Word (group_var +:+ user) :: l) <$> sh_tokens r)
      by (intros r; rewrite <- string_app_assoc; by apply lex_assignment).
    assert (Hv : forall r, sh_tokens (version_var +:+ Quote version +:+ " " +:+ r) = (fun l => Word (version_var +:+ version) :: l) <$> sh_tokens r)
      by (intros r; rewrite <- string_app_assoc; by apply lex_assignment).
    assert (Hsudo : forall r, sh_tokens ("sudo " +:+ r) = (fun l => Word "sudo" :: l) <$> sh_tokens r)
      by (intros r; by apply (lex_word "sudo")).
    assert (Hnil : forall r, sh_tokens ("" +:+ r) = sh_tokens r) by done.
    destruct (String.eqb user rootUser), (String.eqb version ""); cbn [app length Nat.ltb Nat.leb join];
      rewrite ?Hsudo, ?Hnil, ?string_app_assoc, ?Hg, ?Hv; done. }
  assert (Hprintf : forall r, sh_tokens ("printf '%s' " +:+ r) = (fun l => Word "printf" :: Word "%s" :: l) <$> sh_tokens r)
    by (intros r; unfold sh_tokens; cbn; by destruct (lex Unquoted None r)).
  assert (Hbase : forall r, sh_tokens ("| base64 -d | " +:+ r) = (fun l => [Op "|"; Word "base64"; Word "-d"; Op "|"] ++ l) <$> sh_tokens r)
    by (intros r; unfold sh_tokens; cbn; by destruct (lex Unquoted None r)).
  fold (sh_tokens ("printf '%s' " +:+ scriptBase64 +:+ " | base64 -d | " +:+ tail)). rewrite Hprintf.
  change (" | base64 -d | " +:+ tail) with (String " " ("| base64 -d | " +:+ tail)).
  unfold sh_tokens at 1. rewrite lex_word by done. by rewrite Hbase, Htail.
Qed.

Lemma installCmd_words_witness :
  sh_tokens (installCmd "c2NyaXB0" "o'neil; reboot" "1.0 | true") =
    Some [Word "printf"; Word "%s"; Word "c2NyaXB0"; Op "|"; Word "base64"; Word "-d"; Op "|"; Word "sudo";
          Word "UNCLOUD_GROUP_ADD_USER=o'neil; reboot"; Word "UNCLOUD_VERSION=1.0 | true"; Word "bash"].
Proof. exact (proj1 (installCmd_words "c2NyaXB0" "o'neil; reboot" "1.0 | true" eq_refl ltac:(discriminate))). Defined.
