(* ===== verification/ComposeDeploy.v ===== *)
(** * ComposeDeploy: deploying a compose project, [pkg/client/compose/deploy.go] and [plan.go]

    Secrets are resolved, every service is converted to a specification, missing volumes are
    scheduled, and every service is planned against the cluster state that has the scheduled
    volumes.  The order in which the dependency graph yields the services is a parameter. *)

From Stdlib Require Import SpecFloat.
From S2P Require Import Prelude GoStrings Port Volume ConfigSpec Spec Resolver Compose Secrets Container.
From S2P Require Import Scheduler VolumeScheduler SpecChange Operation Strategy Deployment.
#[local] Open Scope string_scope.
#[local] Open Scope list_scope.

(** The compose project with its secrets. *)
Record ComposeProject := mkComposeProject {
  cp_project : Project;
  cp_Secrets : gmap string SecretConfig;
  cp_Environment : gmap string string
}.

Definition with_environment (s : ServiceConfig) (env : environment) : ServiceConfig :=
  mkServiceConfig (s_Name s) (s_CapAdd s) (s_CapDrop s) (s_Command s) (s_Entrypoint s) env
    (s_HealthCheck s) (s_Image s) (s_Init s) (s_Pid s) (s_Tty s) (s_StdinOpen s) (s_Privileged s) (s_PullPolicy s)
    (s_Sysctls s) (s_User s) (s_Logging s) (s_StopGracePeriod s) (s_Scale s) (s_Deploy s) (s_CPUS s) (s_MemLimit s)
    (s_MemReservation s) (s_ShmSize s) (s_Ulimits s) (s_Devices s) (s_Gpus s) (s_Volumes s) (s_Configs s) (s_Ports s)
    (x_Caddy s) (x_Ports s) (x_Machines s) (x_PreDeploy s).

(** The environments are changed in place. *)
Definition with_environments (p : Project) (envs : gmap string environment) : Project :=
  mkProject (p_Name p) (p_WorkingDir p)
    (map_imap (fun name s => Some (with_environment s (default (s_Environment s) (envs !! name)))) (p_Services p))
    (p_Volumes p) (p_Configs p).

(** [Plan] of the package. *)
Record ComposePlan := mkComposePlan { VolumeOps : list Operation; ServicePlans : list ServicePlan }.

Definition IsEmpty (p : ComposePlan) : bool :=
  Nat.eqb (length (VolumeOps p)) 0 && Nat.eqb (length (ServicePlans p)) 0.

Section ComposeDeploy.
Context {HS : GoSort} {HC : GoCmp} {HO : GoOrder}.
Context {Named RefError E : Type} (ParseDockerRef : string -> result RefError Named)
  (FamiliarName : Named -> string).
Context (ReadFile run_command : string -> option string) (sha256 : string -> string) (IsQualifiedName : string -> bool)
  (out_of_range : spec_float -> Z).
(** The services in the order in which the visits of the graph append their specifications: the visits
    are concurrent but read only the project, so that any interleaving of them gives such an order. *)
Context (InDependencyOrder : Project -> list string).

Record ComposeDeployment := mkComposeDeployment {
  cpd_Project : ComposeProject;
  cpd_ClusterDomain : string;
  cpd_Strategy : option DeployStrategy;
  cpd_state : ClusterState;
  cpd_plan : option ComposePlan
}.

Inductive compose_deploy_error :=
| ComposeInspectFailed (e : inspect_error)
| ComposeDomainFailed (e : E)
| SecretsFailed (e : secret_error)
| ConversionFailed (service : string) (e : compose_error)
| ExternalVolumesNotFound (names : list string)
| VolumeSchedulingFailed (e : vs_error)
| ServicePlanFailed (service : string) (e : deploy_error (RefError := RefError) (E := E)).

(** [NewDeploymentWithStrategy] *)
Definition NewComposeDeployment (cli : DeployClient (E := E)) (project : ComposeProject)
  (strategy : option DeployStrategy) : result compose_deploy_error ComposeDeployment :=
  match InspectClusterState (dc_members cli) (dc_volumes cli) with
  | Err e => Err (ComposeInspectFailed e)
  | Ok state =>
      match domain_of cli with
      | Err e => Err (ComposeDomainFailed e)
      | Ok domain => Ok (mkComposeDeployment project domain strategy state None)
      end
  end.

Definition with_cluster_state (d : ComposeDeployment) (state : ClusterState) : ComposeDeployment :=
  mkComposeDeployment (cpd_Project d) (cpd_ClusterDomain d) (cpd_Strategy d) state (cpd_plan d).
Definition with_project (d : ComposeDeployment) (p : Project) : ComposeDeployment :=
  mkComposeDeployment (mkComposeProject p (cp_Secrets (cpd_Project d)) (cp_Environment (cpd_Project d)))
    (cpd_ClusterDomain d) (cpd_Strategy d) (cpd_state d) (cpd_plan d).
Definition with_compose_plan (d : ComposeDeployment) (plan : ComposePlan) : ComposeDeployment :=
  mkComposeDeployment (cpd_Project d) (cpd_ClusterDomain d) (cpd_Strategy d) (cpd_state d) (Some plan).

(** The names of the external volumes no machine has. *)
Definition on_some_machine (state : ClusterState) (name : string) : bool :=
  existsb (fun m => existsb (fun v => String.eqb (dv_Name v) name) (m_Volumes m)) (state_Machines state).

Definition missing_external (p : Project) (state : ClusterState) : list string :=
  let externalNames := omap (fun kv => if vc_External kv.2 then Some (vc_Name kv.2) else None)
                         (range_map 10 (p_Volumes p)) in
  filter (fun name => on_some_machine state name = false) externalNames.

Definition create_volume (state : ClusterState) (kv : string * VolumeSpec) : Operation :=
  CreateVolumeOperation kv.2 kv.1
    (match state_Machine state kv.1 with Some m => mi_Name (Info m) | None => kv.1 end).

(** [planVolumes]: the operations and the cluster state with the scheduled volumes. *)
Definition planVolumes (p : Project) (state : ClusterState) (specs : list ServiceSpec) :
  option (result compose_deploy_error (list Operation * ClusterState)) :=
  if Nat.eqb (size (p_Volumes p)) 0 then Some (Ok ([], state))
  else match missing_external p state with
       | [] =>
           match NewVolumeScheduler ParseDockerRef state specs with
           | Err (GoError e) => Some (Err (VolumeSchedulingFailed e))
           | Err _ => None
           | Ok vs =>
               match Schedule vs with
               | Err (GoError e) => Some (Err (VolumeSchedulingFailed e))
               | Err _ => None
               | Ok (scheduled, state') =>
                   Some (Ok (map (create_volume state') (flatten (range_map 11 (entries scheduled))), state'))
               end
           end
       | missing => Some (Err (ExternalVolumesNotFound missing))
       end.

(** The specifications of all services; the first failure ends the walk over the graph. *)
Definition service_specs (p : Project) : result (string * cfault) (list ServiceSpec) :=
  map_ok (fun name => wrap_err (pair name)
    (ServiceSpecFromCompose ReadFile sha256 IsQualifiedName out_of_range p (p_Services p !! name) name))
    (InDependencyOrder p).

(** The random parts of the [i]-th service plan. *)
Context (newID : nat -> option string) (draws : nat -> nat -> draw).

Definition plan_service (cli : DeployClient (E := E)) (strategy : option DeployStrategy) (state : ClusterState)
  (i : nat) (sp : ServiceSpec) : option (result compose_deploy_error ServicePlan) :=
  match Deployment.Plan ParseDockerRef FamiliarName cli (draws i)
          (NewDeploymentWithClusterState (newID i) sp strategy (Some state)) with
  | (_, None) => None
  | (_, Some (Err e)) => Some (Err (ServicePlanFailed (SName sp) e))
  | (_, Some (Ok plan)) => Some (Ok plan)
  end.

Fixpoint plan_services (cli : DeployClient (E := E)) (strategy : option DeployStrategy) (state : ClusterState)
  (i : nat) (specs : list ServiceSpec) : option (result compose_deploy_error (list ServicePlan)) :=
  match specs with
  | [] => Some (Ok [])
  | sp :: rest =>
      match plan_service cli strategy state i sp with
      | Some (Ok plan) =>
          match plan_services cli strategy state (S i) rest with
          | Some (Ok plans) => Some (Ok (if Nat.ltb 0 (length (Operations plan)) then plan :: plans else plans))
          | r => r
          end
      | Some (Err e) => Some (Err e)
      | None => None
      end
  end.

(** [Deployment.Plan] of the package; [None] is a panic. *)
Definition PlanProject (cli : DeployClient (E := E)) (d : ComposeDeployment) :
  ComposeDeployment * option (result compose_deploy_error ComposePlan) :=
  match cpd_plan d with
  | Some plan => (d, Some (Ok plan))
  | None =>
      let p := cp_project (cpd_Project d) in
      match ResolveSecrets ReadFile run_command (cp_Environment (cpd_Project d)) (cp_Secrets (cpd_Project d))
              (s_Environment <$> p_Services p) with
      | (_, envs, Err e) => (with_project d (with_environments p envs), Some (Err (SecretsFailed e)))
      | (_, envs, Ok _) =>
          let p := with_environments p envs in
          let d := with_project d p in
          match service_specs p with
          | Err (name, CErr e) => (d, Some (Err (ConversionFailed name e)))
          | Err (_, CPanic) => (d, None)
          | Ok specs =>
              match planVolumes p (cpd_state d) specs with
              | None => (d, None)
              | Some (Err e) => (d, Some (Err e))
              | Some (Ok (volumeOps, state)) =>
                  let d := with_cluster_state d state in
                  match plan_services cli (cpd_Strategy d) state 0 specs with
                  | None => (d, None)
                  | Some (Err e) => (d, Some (Err e))
                  | Some (Ok plans) =>
                      let plan := mkComposePlan volumeOps plans in
                      (with_compose_plan d plan, Some (Ok plan))
                  end
              end
          end
      end
  end.
End ComposeDeploy.

(** ** Execution *)
Section Execute.
Context {W E : Type} (cli : Client W E).

Fixpoint execute_services (plans : list ServicePlan) (events : list wait_event) (w : W) :
  option (W * result (op_error E) unit) :=
  match plans with
  | [] => Some (w, Ok tt)
  | p :: rest =>
      match execute_sequence cli (Operations p) events w with
      | Some (w, Ok _) => execute_services rest events w
      | r => r
      end
  end.

(** [Plan.Execute]: all volumes, then all services. *)
Definition ExecutePlan (p : ComposePlan) (events : list wait_event) (w : W) : option (W * result (op_error E) unit) :=
  match execute_sequence cli (VolumeOps p) events w with
  | Some (w, Ok _) => execute_services (ServicePlans p) events w
  | r => r
  end.
End Execute.

(** ** Lemmas *)
Lemma execute_sequence_app {W E} (cli : Client W E) ops1 ops2 events w :
  execute_sequence cli (ops1 ++ ops2) events w =
  match execute_sequence cli ops1 events w with
  | Some (w', Ok _) => execute_sequence cli ops2 events w'
  | r => r
  end.
Proof.
  revert w; induction ops1 as [|op ops1 IH]; intros w; [done|]. cbn [app execute_sequence].
  by destruct (Execute cli op events w) as [[w' [a|e]]|].
Qed.

(** A compose plan runs as one sequence: its volumes, then its services in order. *)
Lemma ExecutePlan_sequence {W E} (cli : Client W E) p events w :
  ExecutePlan cli p events w = execute_sequence cli (VolumeOps p ++ flat_map Operations (ServicePlans p)) events w.
Proof.
  unfold ExecutePlan. rewrite execute_sequence_app.
  destruct (execute_sequence cli (VolumeOps p) events w) as [[w' [[]|e]]|]; [|done..].
  generalize w'. clear. induction (ServicePlans p) as [|sp plans IH]; intros w; [done|].
  cbn [execute_services flat_map]. rewrite execute_sequence_app.
  by destruct (execute_sequence cli (Operations sp) events w) as [[w' [[]|e]]|].
Qed.

Lemma update_machine_ids id vs ms : map (fun m => mi_Id (Info m)) (update_machine id vs ms) = map (fun m => mi_Id (Info m)) ms.
Proof. induction ms as [|m ms IH]; [done|]. cbn. destruct (String.eqb _ _); cbn; [done|by rewrite IH]. Qed.

Lemma update_state_ids `{GoOrder} scheduled state :
  machine_ids (state_Machines (update_state scheduled state)) = machine_ids (state_Machines state).
Proof.
  unfold update_state, machine_ids. cbn [state_Machines]. destruct state as [ms]. cbn [state_Machines].
  generalize (range_map (visit 1 3) scheduled). intros l. revert ms. induction l as [|kv l IH]; intros ms; [done|]. cbn [fold_left]. rewrite IH. cbn. apply update_machine_ids.
Qed.

Section Facts.
Context {HS : GoSort} {HC : GoCmp} {HO : GoOrder}.
Context {Named RefError E : Type} (ParseDockerRef : string -> result RefError Named)
  (FamiliarName : Named -> string) (cli : DeployClient (E := E)).
Context (newID : nat -> option string) (draws : nat -> nat -> draw).

(** The volumes of a plan: none, or a solution of the scheduling problem the specifications
    pose, with one operation for every scheduled volume. *)
Definition volumes_planned (p : Project) (state : ClusterState) (specs : list ServiceSpec)
  (ops : list Operation) (state' : ClusterState) : Prop :=
  (p_Volumes p = ∅ /\ ops = [] /\ state' = state) \/
  (forall k v, p_Volumes p !! k = Some v -> vc_External v = true -> on_some_machine state (vc_Name v) = true) /\
  exists vs scheduled, describes ParseDockerRef state specs vs /\ solution vs (entries scheduled) /\
    ops ≡ₚ map (create_volume state') (pairs (entries scheduled)) /\
    state' = match scheduled with None => state | Some m => update_state m state end.

Lemma missing_external_nil p state : missing_external p state = [] ->
  forall k v, p_Volumes p !! k = Some v -> vc_External v = true -> on_some_machine state (vc_Name v) = true.
Proof.
  unfold missing_external. intros Hnil k v Hk Hx.
  assert (Hin : vc_Name v ∈ omap (fun kv : string * VolumeConfig => if vc_External kv.2 then Some (vc_Name kv.2) else None)
            (range_map 10 (p_Volumes p))).
  { apply list_elem_of_omap. exists (k, v). cbn. rewrite Hx. split; [by apply elem_of_range_map|done]. }
  destruct (on_some_machine state (vc_Name v)) eqn:Hon; [done|].
  assert (Hf : vc_Name v ∈ (filter (fun name => on_some_machine state name = false)
            (omap (fun kv : string * VolumeConfig => if vc_External kv.2 then Some (vc_Name kv.2) else None)
              (range_map 10 (p_Volumes p))))) by (by apply list_elem_of_filter).
  rewrite Hnil in Hf. by apply not_elem_of_nil in Hf.
Qed.

Lemma planVolumes_spec p state specs :
  match planVolumes ParseDockerRef (RefError := RefError) (E := E) p state specs with
  | Some (Ok (ops, state')) => volumes_planned p state specs ops state'
  | Some (Err (ExternalVolumesNotFound _)) | Some (Err (VolumeSchedulingFailed _)) => True
  | _ => False
  end.
Proof.
  unfold planVolumes. destruct (Nat.eqb_spec (size (p_Volumes p)) 0) as [Hz|_].
  { left. by apply map_size_empty_inv in Hz. }
  destruct (missing_external p state) as [|name names] eqn:Hm; [|done].
  pose proof (volume_schedule_outcome ParseDockerRef state specs) as H.
  destruct (NewVolumeScheduler _ _ _) as [vs|f]; cbn [ends] in H.
  - destruct H as [Hd H]. destruct (Schedule vs) as [[scheduled state']|f]; cbn [ends] in H.
    + destruct H as [Hs Hst]. right. split; [by apply missing_external_nil|].
      exists vs, scheduled. split_and!; try done. by rewrite pairs_range.
    + destruct H as [H _]. unfold scheduling_error in H. by destruct f.
  - unfold rejected in H. by destruct f.
Qed.

(** What the plan of a service does to its containers on the machines of [state]. *)
Definition service_planned (state : ClusterState) (sp : ServiceSpec) (p : ServicePlan) : Prop :=
  exists domain resolved ms target svc,
    service_answer cli (SName sp) svc /\ plan_updates sp svc p /\ domain_answer cli domain /\
    deployable ParseDockerRef domain sp resolved /\ plan_Spec p = resolved /\
    EligibleMachines (NewServiceScheduler state resolved) = Some (Ok ms) /\
    reconciles (mkRolling false false) resolved (map located (existing svc)) target (Operations p) /\
    (SMode resolved = ServiceModeReplicated -> evenly_spread (machine_ids ms) (replica_count resolved) target) /\
    (SMode resolved = ServiceModeGlobal -> target = machine_ids ms).

Lemma plan_service_spec state i sp p :
  NoDup (machine_ids (state_Machines state)) ->
  (forall name svc, dc_InspectService cli name = Ok svc -> NoDup (map msc_ID (Containers svc))) ->
  plan_service ParseDockerRef FamiliarName newID draws cli None state i sp = Some (Ok p) ->
  service_planned state sp p.
Proof.
  intros Hm Hc. unfold plan_service. set (d := NewDeploymentWithClusterState _ _ _ _).
  destruct (Deployment.Plan _ _ _ _ d) as [d' [[q|e]|]] eqn:Hp; [|done..]. intros [= ->].
  eapply (Plan_reconciles _ _ _ _ (mkRolling false false) (newID i)) in Hp as (domain & rs & state' & Hfor & Hst & Hr);
    [|done..|by intros svc; apply Hc].
  destruct Hst as [[= <-]|[? _]]; [|done]. destruct (Hr Hm) as (ms & target & Hms & Hrec & Hrep & Hglob).
  destruct (plans_for_service ParseDockerRef cli d d' domain rs p eq_refl Hfor) as (Hsvc & Hup & Hdom).
  destruct Hfor as [_ _ Hdep Hspec _ _ _]. by exists domain, rs, ms, target, (dp_Service d').
Qed.

Lemma plan_services_spec state i specs plans :
  NoDup (machine_ids (state_Machines state)) ->
  (forall name svc, dc_InspectService cli name = Ok svc -> NoDup (map msc_ID (Containers svc))) ->
  plan_services ParseDockerRef FamiliarName newID draws cli None state i specs = Some (Ok plans) ->
  exists all, Forall2 (service_planned state) specs all /\ plans = filter (fun p => Operations p <> []) all.
Proof.
  intros Hm Hc. revert i plans; induction specs as [|sp specs IH]; intros i plans; cbn [plan_services].
  { intros [= <-]. by exists []. }
  destruct (plan_service _ _ _ _ _ _ _ _ _) as [[p|e]|] eqn:Hp; [|done..].
  destruct (plan_services _ _ _ _ _ _ _ _ _) as [[rest|e]|] eqn:Hrest; [|done..]. intros [= <-].
  destruct (IH _ _ Hrest) as (all & Hall & ->). exists (p :: all).
  split; [constructor; [by eapply plan_service_spec|done]|].
  rewrite filter_cons. destruct (Operations p) as [|op ops] eqn:Ho; cbn.
  - rewrite decide_False; [done|]. intros H. by apply H.
  - by rewrite decide_True.
Qed.
End Facts.

Lemma with_environments_names p envs :
  map fst (map_to_list (p_Services (with_environments p envs))) ≡ₚ map fst (map_to_list (p_Services p)).
Proof.
  apply NoDup_Permutation; [apply NoDup_fst_map_to_list..|]. intros name.
  rewrite !list_elem_of_In, !in_map_iff. setoid_rewrite <- list_elem_of_In. split.
  - intros ([k v] & <- & Hk%elem_of_map_to_list). cbn in Hk. rewrite map_lookup_imap in Hk.
    destruct (p_Services p !! k) as [s|] eqn:Hs; [|done]. exists (k, s). split; [done|]. by apply elem_of_map_to_list.
  - intros ([k v] & <- & Hk%elem_of_map_to_list). exists (k, with_environment v (default (s_Environment v) (envs !! k))).
    split; [done|]. apply elem_of_map_to_list. cbn. by rewrite map_lookup_imap, Hk.
Qed.

(** ** Properties *)

(** C26: the plan of a compose project, with the default strategy, when the graph visits every
    service once: secret references are
    replaced by their values, every service of the project is converted, the missing
    volumes are those of a solution of the scheduling problem the services pose (one
    operation for every scheduled volume, none if the project has no volumes), and every
    service is reconciled with the deployable form of its specification, for the domain of the cluster, on the machines with
    the scheduled volumes: as the service the cluster has under its name, and as a new one only if it
    has none. Plans without operations are left out. The plan is made once,
    and a failed attempt leaves none. *)
Theorem compose_plan_correct {HS : GoSort} {HC : GoCmp} {HO : GoOrder} {Named RefError E}
  (ParseDockerRef : string -> result RefError Named) (FamiliarName : Named -> string)
  (ReadFile run_command : string -> option string) (sha256 : string -> string) (IsQualifiedName : string -> bool)
  (out_of_range : spec_float -> Z) (InDependencyOrder : Project -> list string)
  (newID : nat -> option string) (draws : nat -> nat -> draw) (cli : DeployClient (E := E)) (d : ComposeDeployment) :
  (forall p, InDependencyOrder p ≡ₚ map fst (map_to_list (p_Services p))) ->
  cpd_plan d = None -> cpd_Strategy d = None ->
  NoDup (machine_ids (state_Machines (cpd_state d))) ->
  (forall name svc, dc_InspectService cli name = Ok svc -> NoDup (map msc_ID (Containers svc))) ->
  match PlanProject ParseDockerRef FamiliarName ReadFile run_command sha256 IsQualifiedName out_of_range
          InDependencyOrder newID draws cli d with
  | (d', Some (Ok plan)) =>
      cpd_plan d' = Some plan /\
      exists p names specs all, p = cp_project (cpd_Project d') /\
        names ≡ₚ map fst (map_to_list (p_Services (cp_project (cpd_Project d)))) /\
        (forall name s, p_Services (cp_project (cpd_Project d)) !! name = Some s -> exists s',
           p_Services p !! name = Some s' /\
           resolved_env ReadFile run_command (cp_Environment (cpd_Project d)) (cp_Secrets (cpd_Project d))
             (s_Environment s) (s_Environment s')) /\
        Forall2 (fun name sp => ServiceSpecFromCompose ReadFile sha256 IsQualifiedName out_of_range p
                                  (p_Services p !! name) name = Ok sp) names specs /\
        volumes_planned ParseDockerRef p (cpd_state d) specs (VolumeOps plan) (cpd_state d') /\
        Forall2 (service_planned ParseDockerRef cli (cpd_state d')) specs all /\
        ServicePlans plan = filter (fun sp => Operations sp <> []) all
  | (d', _) => cpd_plan d' = None
  end.
Proof.
  intros Hgraph Hnone Hstrat Hm Hc. unfold PlanProject. rewrite Hnone.
  pose proof (ResolveSecrets_outcome ReadFile run_command (cp_Environment (cpd_Project d)) (cp_Secrets (cpd_Project d))
    (s_Environment <$> p_Services (cp_project (cpd_Project d)))) as Hs. cbn zeta in Hs.
  destruct (ResolveSecrets _ _ _ _ _) as [[r envs] [[]|e]]; [|done]. destruct Hs as (_ & _ & _ & Henvs).
  set (p := with_environments (cp_project (cpd_Project d)) envs).
  destruct (service_specs _ _ _ _ _ p) as [specs|[name [e|]]] eqn:Hspecs; [|done..].
  pose proof (planVolumes_spec (E := E) ParseDockerRef p (cpd_state d) specs) as Hv. cbn [cpd_state with_project].
  destruct (planVolumes _ _ _ _) as [[[ops state']|e]|]; [|done..].
  assert (Hm' : NoDup (machine_ids (state_Machines state'))).
  { destruct Hv as [(_ & _ & ->)|(_ & vs & scheduled & _ & _ & _ & ->)]; [done|].
    destruct scheduled; [by rewrite update_state_ids|done]. }
  cbn [cpd_Strategy with_cluster_state with_project]. rewrite Hstrat.
  destruct (plan_services _ _ _ _ cli None state' 0 specs) as [[plans|e]|] eqn:Hp; [|done..].
  apply plan_services_spec in Hp as (all & Hall & Hplans); [|done..].
  split; [done|]. exists p, (InDependencyOrder p), specs, all. split_and!; try done.
  - rewrite Hgraph. unfold p. by rewrite with_environments_names.
  - intros name s Hsvc. specialize (Henvs name). rewrite lookup_fmap, Hsvc in Henvs. cbn in Henvs.
    destruct Henvs as (env' & He & Hres). exists (with_environment s env').
    split; [|done]. cbn. by rewrite map_lookup_imap, Hsvc, He.
  - apply map_ok_Ok in Hspecs. eapply Forall2_impl; [exact Hspecs|]. intros name sp. cbn. by rewrite wrap_err_Ok.
Qed.

(** A project with one service and one named volume that exists nowhere. *)
Definition stored_project : Project :=
  mkProject "app" "/srv/app" {[ "web" := compose_service ]} {[ "data" := mkVolumeConfig "data" "local" None false None None ]}
    {[ "conf" := mkConfigObj "" "key=1" false ]}.

Definition stored_deployment : ComposeDeployment :=
  mkComposeDeployment (mkComposeProject stored_project ∅ ∅) "" None two_machines None.

#[local] Notation stored_plan := (@PlanProject go_insertion_sort go_cmp_decide go_identity_order unit unit unit
  (fun _ => Ok tt) (fun _ => "nginx") (fun _ => None) (fun _ => None) (fun s => s) (fun _ => false) (fun _ => 0%Z)
  (fun p => map fst (map_to_list (p_Services p))) (fun _ => None) (fun _ _ => None) small_cluster stored_deployment).

Lemma stored_plan_made : exists d' plan, stored_plan = (d', Some (Ok plan)) /\ length (VolumeOps plan) = 1 /\
  length (ServicePlans plan) = 1.
Proof.
  assert (H : match stored_plan.2 with
              | Some (Ok plan) => Nat.eqb (length (VolumeOps plan)) 1 && Nat.eqb (length (ServicePlans plan)) 1
              | _ => false end = true) by (vm_compute; reflexivity).
  destruct stored_plan as [d' [[plan|]|]]; [|done..]. cbn in H. exists d', plan.
  apply andb_true_iff in H as [H1%Nat.eqb_eq H2%Nat.eqb_eq]. done.
Qed.

Lemma compose_plan_correct_witness :
  exists d' plan, stored_plan = (d', Some (Ok plan)) /\ length (VolumeOps plan) = 1 /\ cpd_plan d' = Some plan.
Proof.
  pose proof (@compose_plan_correct go_insertion_sort go_cmp_decide go_identity_order unit unit unit
    (fun _ => Ok tt) (fun _ => "nginx") (fun _ => None) (fun _ => None) (fun s => s) (fun _ => false) (fun _ => 0%Z)
    (fun p => map fst (map_to_list (p_Services p))) (fun _ => None) (fun _ _ => None) small_cluster stored_deployment (fun p => Permutation_refl _) eq_refl eq_refl) as H.
  destruct stored_plan_made as (d' & plan & E & Hv & _). rewrite E in H |- *.
  exists d', plan. split; [reflexivity|]. split; [exact Hv|]. apply H.
  - apply (bool_decide_unpack _). reflexivity.
  - intros name svc Hsvc. cbn in Hsvc. destruct (String.eqb name "web"); [|discriminate Hsvc].
    injection Hsvc as <-. apply (bool_decide_unpack _). reflexivity.
Defined.
