(* ===== verification/Ipam.v ===== *)
(** * Ipam: subnet allocation, [internal/machine/cluster/ipam.go]

    The allocator keeps its allocated subnets in a [netipx.IPSetBuilder]. The
    [go4.org/netipx] package is not part of the repository, so it is the class
    [Netipx]: the operations the allocator calls, with the behaviour their
    documentation states. [netipx_list] is an instance of it. *)

From S2P Require Import Prelude NetAddr.
From Stdlib Require Import ZArith Lia.
#[local] Open Scope Z_scope.

Class Netipx := {
  IPSetBuilder : Type;
  IPSet : Type;
  new_builder : IPSetBuilder;                        (* var b netipx.IPSetBuilder *)
  AddPrefix : IPSetBuilder -> prefix -> IPSetBuilder;
  builder_IPSet : IPSetBuilder -> option IPSet;      (* None: an error *)
  OverlapsPrefix : IPSet -> prefix -> bool;
  PrefixLastIP : prefix -> addr
}.

Class NetipxSpec `{Netipx} : Prop := {
  (** PrefixLastIP returns the last IP in the prefix. *)
  PrefixLastIP_spec : forall p, prefix_wf p ->
    PrefixLastIP p = with_val (prefix_addr p) (last_val p);
  (** The set built from valid prefixes is available, and OverlapsPrefix reports
      whether the IPs of the prefix overlap with one that was added. *)
  IPSet_spec : forall ps, Forall prefix_wf ps ->
    exists s, builder_IPSet (fold_left AddPrefix ps new_builder) = Some s /\
      forall p, prefix_wf p -> OverlapsPrefix s p = existsb (overlaps p) ps
}.

Definition netipx_list : Netipx := {|
  IPSetBuilder := list prefix;
  IPSet := list prefix;
  new_builder := [];
  AddPrefix := fun b p => b ++ [p];
  builder_IPSet := Some;
  OverlapsPrefix := fun s p => existsb (overlaps p) s;
  PrefixLastIP := fun p => if prefix_IsValid p
                           then with_val (prefix_addr p) (last_val p) else NoAddr
|}.

Lemma netipx_list_spec : @NetipxSpec netipx_list.
Proof.
  split; simpl.
  - intros p (_ & _ & _ & Hb). unfold prefix_IsValid.
    by destruct (Z.leb_spec 0 (prefix_bits p)); [|lia].
  - intros ps _. eexists; split; [done|]. intros p _.
    assert (forall acc, fold_left (fun b p => b ++ [p]) ps acc = acc ++ ps) as ->; [|done].
    induction ps as [|q ps IH]; intros acc; simpl; [by rewrite app_nil_r|].
    by rewrite IH, <- app_assoc.
Qed.

Module IPAM.
Section IPAM.
Context `{Netipx}.

Record t := mk { network : prefix; allocated : IPSetBuilder }.

Inductive error :=
| InvalidNetwork | InvalidSubnetSize | GetAllocated | NoAvailableSubnet
| SubnetNotInNetwork | SubnetOverlaps | AllocateFailed (sn : prefix) (e : error).

Definition NewIPAM (n : prefix) : result error t :=
if negb (prefix_IsValid n) || (prefix_bits n =? 0) then Err InvalidNetwork
else Ok (mk (prefix_Masked n) new_builder).

(** [AllocateSubnet] returns the updated allocator. *)
Definition AllocateSubnet (ipam : t) (subnet : prefix) : result error t :=
let subnetLastIP := PrefixLastIP subnet in
if negb (prefix_Contains (network ipam) (prefix_addr subnet)) ||
   negb (prefix_Contains (network ipam) subnetLastIP)
then Err SubnetNotInNetwork
else match builder_IPSet (allocated ipam) with
     | None => Err GetAllocated
     | Some ipset =>
         if OverlapsPrefix ipset subnet then Err SubnetOverlaps
         else Ok (mk (network ipam) (AddPrefix (allocated ipam) subnet))
     end.

Fixpoint allocate_all (ipam : t) (subnets : list prefix) : result error t :=
match subnets with
| [] => Ok ipam
| sn :: rest =>
    match AllocateSubnet ipam sn with
    | Err e => Err (AllocateFailed sn e)
    | Ok ipam' => allocate_all ipam' rest
    end
end.

Definition NewIPAMWithAllocated (n : prefix) (subnets : list prefix) : result error t :=
match NewIPAM n with
| Err e => Err e
| Ok ipam => allocate_all ipam subnets
end.

(** The loop of [AllocateSubnetLen]; [None] when the fuel does not suffice. *)
Fixpoint allocate_loop (fuel : nat) (ipam : t) (bits : Z) (subnet : prefix) :
option (result error (prefix * t)) :=
match fuel with
| O => None
| S f =>
    if prefix_Contains (network ipam) (prefix_addr subnet) then
      match builder_IPSet (allocated ipam) with
      | None => Some (Err GetAllocated)
      | Some ipset =>
          if negb (OverlapsPrefix ipset subnet)
          then Some (Ok (subnet, mk (network ipam) (AddPrefix (allocated ipam) subnet)))
          else
            let nextSubnetAddr := addr_Next (PrefixLastIP subnet) in
            allocate_loop f ipam bits (PrefixFrom nextSubnetAddr bits)
      end
    else Some (Err NoAvailableSubnet)
end.

(** The subnets of length [bits] of the network, and one more round to leave it. *)
Definition loop_fuel (ipam : t) (bits : Z) : nat :=
S (Z.to_nat (2 ^ (bits - prefix_bits (network ipam)))).

Definition AllocateSubnetLen (ipam : t) (bits : Z) : option (result error (prefix * t)) :=
if (bits <? prefix_bits (network ipam)) || (BitLen (prefix_addr (network ipam)) <? bits)
then Some (Err InvalidSubnetSize)
else allocate_loop (loop_fuel ipam bits) ipam bits
       (PrefixFrom (prefix_addr (network ipam)) bits).

(** ** The state of an allocator

  [repr ipam ps]: a well-formed allocator that has allocated [ps]. *)
Definition repr (ipam : t) (ps : list prefix) : Prop :=
prefix_wf (network ipam) /\ canonical (network ipam) /\
allocated ipam = fold_left AddPrefix ps new_builder /\ Forall prefix_wf ps.

(** The specification: what the clients rely on. *)
Definition inside (n p : prefix) : Prop :=
same_family n p = true /\ first_val n <= first_val p /\ last_val p <= last_val n.

Definition free (ps : list prefix) (p : prefix) : Prop :=
Forall (fun q => overlaps p q = false) ps.

Fixpoint disjoint_subnets (ps : list prefix) : Prop :=
match ps with
| [] => True
| p :: ps' => free ps' p /\ disjoint_subnets ps'
end.

Context `{!NetipxSpec}.
Implicit Types (ipam : t) (p q n : prefix) (ps : list prefix).

Lemma existsb_free p ps : existsb (overlaps p) ps = false <-> free ps p.
Proof.
unfold free. induction ps as [|q ps IH]; simpl; [done|].
rewrite orb_false_iff, Forall_cons, IH. done.
Qed.

Lemma repr_IPSet ipam ps : repr ipam ps ->
exists s, builder_IPSet (allocated ipam) = Some s /\
  forall p, prefix_wf p -> OverlapsPrefix s p = existsb (overlaps p) ps.
Proof. intros (_ & _ & -> & Hps). by apply IPSet_spec. Qed.

Lemma repr_add ipam ps p : repr ipam ps -> prefix_wf p ->
repr (mk (network ipam) (AddPrefix (allocated ipam) p)) (ps ++ [p]).
Proof.
intros (Hn & Hc & Ha & Hps) Hp. split_and!; [done..| |]; simpl.
- by rewrite fold_left_app, Ha.
- apply Forall_app. auto.
Qed.

Lemma NewIPAM_repr n ipam : prefix_wf n -> NewIPAM n = Ok ipam ->
network ipam = prefix_Masked n /\ 0 < prefix_bits n /\ repr ipam [].
Proof.
intros Hn. unfold NewIPAM. destruct (negb _ || _) eqn:E; [done|]. intros [= <-].
apply orb_false_iff in E as [_ E]. apply Z.eqb_neq in E.
assert (0 < prefix_bits n) by (destruct Hn as (_ & _ & _ & Hb); lia).
split_and!; [done..|]. repeat split; simpl; auto using Forall_nil_2; try apply Masked_wf; auto.
all: by apply Masked_wf.
Qed.

Lemma last_addr_wf p : prefix_wf p -> addr_wf (PrefixLastIP p).
Proof.
intros Hp. rewrite PrefixLastIP_spec by done. pose proof (block_bounds p Hp) as (_ & H1 & H2).
pose proof (first_last p Hp). destruct Hp as (Ha & Hv & _).
unfold addr_wf in *. rewrite with_val_BitLen.
destruct (prefix_addr p); simpl in *; [done|lia..].
Qed.

Lemma inside_check ipam ps p : repr ipam ps -> prefix_wf p -> canonical p ->
prefix_Contains (network ipam) (prefix_addr p) = true /\
prefix_Contains (network ipam) (PrefixLastIP p) = true <-> inside (network ipam) p.
Proof.
intros (Hn & _ & _ & _) Hp Hc. apply canonical_spec in Hc; [|done].
pose proof (first_last p Hp).
rewrite !Contains_spec by (try apply last_addr_wf; try done; apply Hp).
rewrite PrefixLastIP_spec by done. unfold inside, same_family, in_prefix.
rewrite Z.eqb_eq, with_val_BitLen, Hc. destruct Hp as (_ & Hv & Hz & _).
destruct (prefix_addr p); simpl in *; [done|..]; naive_solver lia.
Qed.

(** ** The candidate subnets

  The loop visits the subnets of length [bits] of the network from the first
  one on: [candidate ipam bits i] is number [i]. *)
Definition subnet_count ipam bits : Z := 2 ^ (bits - prefix_bits (network ipam)).
Definition subnet_size ipam bits : Z := 2 ^ (BitLen (prefix_addr (network ipam)) - bits).

Definition candidate ipam bits (i : Z) : prefix :=
mkPrefix (with_val (prefix_addr (network ipam))
           (first_val (network ipam) + i * subnet_size ipam bits)) bits.

Definition bits_ok ipam bits : Prop :=
prefix_bits (network ipam) <= bits <= BitLen (prefix_addr (network ipam)).

Lemma size_count ipam bits : prefix_wf (network ipam) -> bits_ok ipam bits ->
0 < subnet_size ipam bits /\ 0 < subnet_count ipam bits /\
2 ^ host_bits (network ipam) = subnet_count ipam bits * subnet_size ipam bits.
Proof.
intros (_ & _ & _ & Hb) [Hlo Hhi]. unfold subnet_size, subnet_count, host_bits.
split_and!; [apply Z.pow_pos_nonneg; lia..|].
rewrite <- Z.pow_add_r by lia. f_equal. lia.
Qed.

Section Candidate.
Context (ipam : t) (bits : Z).
Hypothesis Hnet : prefix_wf (network ipam).
Hypothesis Hbits : bits_ok ipam bits.

Lemma net_aligned : exists b, first_val (network ipam) = b * subnet_size ipam bits.
Proof.
destruct (size_count ipam bits Hnet Hbits) as (_ & _ & Hsz).
exists (block (network ipam) * subnet_count ipam bits).
unfold first_val. rewrite Hsz. lia.
Qed.

Lemma candidate_first i : first_val (candidate ipam bits i) =
first_val (network ipam) + i * subnet_size ipam bits.
Proof.
destruct net_aligned as [b Hb]. destruct (size_count ipam bits Hnet Hbits) as (Hs & _ & _).
unfold first_val at 1, block, host_bits. unfold candidate. simpl.
rewrite with_val_BitLen. fold (subnet_size ipam bits). rewrite Hb.
assert (Hval : forall v, addr_val (with_val (prefix_addr (network ipam)) v) = v).
{ destruct Hnet as (_ & Hv & _). intros v. by destruct (prefix_addr (network ipam)). }
rewrite Hval. rewrite <- Z.mul_add_distr_r, Z.div_mul by lia. done.
Qed.

Lemma candidate_last i : last_val (candidate ipam bits i) =
first_val (network ipam) + (i + 1) * subnet_size ipam bits - 1.
Proof.
unfold last_val. rewrite candidate_first. unfold host_bits, candidate. simpl.
rewrite with_val_BitLen. fold (subnet_size ipam bits). lia.
Qed.

Lemma candidate_wf i : 0 <= i < subnet_count ipam bits ->
prefix_wf (candidate ipam bits i) /\ canonical (candidate ipam bits i) /\
inside (network ipam) (candidate ipam bits i).
Proof.
intros Hi. destruct (size_count ipam bits Hnet Hbits) as (Hs & Hc & Hsz).
pose proof (block_bounds _ Hnet) as (_ & Hf & Hl).
pose proof (candidate_first i) as Hcf. pose proof (candidate_last i) as Hcl.
assert (Hlast : last_val (network ipam) = first_val (network ipam) +
          subnet_count ipam bits * subnet_size ipam bits - 1) by (unfold last_val; lia).
assert (Hwf : prefix_wf (candidate ipam bits i)).
{ destruct Hnet as (_ & Hv & Hz & _). destruct Hbits. unfold prefix_wf, addr_wf, candidate.
  simpl. rewrite with_val_BitLen.
  assert (0 <= first_val (network ipam) + i * subnet_size ipam bits
          < 2 ^ BitLen (prefix_addr (network ipam))) by nia.
  destruct Hnet as (_ & _ & _ & ?).
  destruct (prefix_addr (network ipam)); simpl in *; try done; repeat split; try lia; done. }
split_and!; [done| |].
- apply canonical_spec; [done|]. rewrite Hcf. unfold candidate. simpl.
  destruct Hnet as (_ & Hv & _). by destruct (prefix_addr (network ipam)).
- unfold inside, same_family, candidate at 1. simpl. rewrite with_val_BitLen, Z.eqb_refl, Hcf, Hcl.
  split_and!; [done|nia|nia].
Qed.

Lemma candidate_0 : canonical (network ipam) ->
PrefixFrom (prefix_addr (network ipam)) bits = candidate ipam bits 0.
Proof.
intros Hc. apply canonical_spec in Hc; [|done]. destruct Hbits as [Hlo Hhi].
destruct Hnet as (_ & Hv & Hz & Hb). unfold PrefixFrom, candidate. rewrite Hv.
rewrite (proj2 (Z.leb_le 0 bits)), (proj2 (Z.leb_le bits _)) by lia. simpl.
f_equal. rewrite Z.add_0_r, <- Hc. by destruct (prefix_addr (network ipam)); simplify_eq/=.
Qed.

Lemma candidate_next_addr i : 0 <= i < subnet_count ipam bits ->
addr_Next (PrefixLastIP (candidate ipam bits i)) =
let x := first_val (network ipam) + (i + 1) * subnet_size ipam bits in
if x <? 2 ^ BitLen (prefix_addr (network ipam))
then with_val (prefix_addr (network ipam)) x else NoAddr.
Proof.
intros Hi. destruct (candidate_wf i Hi) as (Hwf & _ & _).
rewrite PrefixLastIP_spec by done. rewrite candidate_last. unfold addr_Next.
rewrite with_val_BitLen. unfold candidate. cbn [prefix_addr]. rewrite with_val_BitLen.
destruct Hnet as (_ & Hv & _). destruct (prefix_addr (network ipam)); [done|..]; simpl;
  by rewrite Z.sub_add.
Qed.

(** The step of the loop: the next candidate, or an address outside the network. *)
Lemma candidate_next i : 0 <= i < subnet_count ipam bits ->
let next := PrefixFrom (addr_Next (PrefixLastIP (candidate ipam bits i))) bits in
(i + 1 < subnet_count ipam bits /\ next = candidate ipam bits (i + 1)) \/
(i + 1 = subnet_count ipam bits /\
 prefix_Contains (network ipam) (prefix_addr next) = false).
Proof.
intros Hi next. destruct (size_count ipam bits Hnet Hbits) as (Hs & Hc & Hsz).
pose proof (block_bounds _ Hnet) as (_ & Hf & Hl).
assert (Hlast : last_val (network ipam) = first_val (network ipam) +
          subnet_count ipam bits * subnet_size ipam bits - 1) by (unfold last_val; lia).
subst next. rewrite candidate_next_addr by done. cbv zeta.
set (x := first_val (network ipam) + (i + 1) * subnet_size ipam bits).
assert (Hx0 : 0 <= x) by (subst x; nia).
pose proof Hnet as (_ & Hv & Hz & Hb). destruct Hbits as [Hlo Hhi].
destruct (decide (i + 1 = subnet_count ipam bits)) as [He|Hne]; [right|left].
- split; [done|]. destruct (Z.ltb_spec x (2 ^ BitLen (prefix_addr (network ipam)))).
  + apply not_true_is_false. intros Hcon. apply Contains_spec in Hcon; [|done|].
    * destruct Hcon as (_ & _ & _ & Hin). unfold in_prefix in Hin.
      assert (x <= last_val (network ipam)) by (destruct (prefix_addr (network ipam)); [done|apply Hin..]).
      subst x. rewrite He in *. lia.
    * unfold addr_wf. destruct (prefix_addr (network ipam)); [done|split; simpl in *; lia..].
  + unfold prefix_Contains. simpl. rewrite andb_false_r. done.
- split; [lia|]. rewrite (proj2 (Z.ltb_lt _ _)) by (subst x; nia).
  unfold PrefixFrom. rewrite with_val_BitLen.
  rewrite (proj2 (Z.leb_le 0 bits)), (proj2 (Z.leb_le bits _)) by lia.
  unfold candidate. destruct (prefix_addr (network ipam)); simpl in *; simplify_eq/=; done.
Qed.

(** Every canonical subnet of that length inside the network is a candidate. *)
Lemma candidate_all q : prefix_wf q -> prefix_bits q = bits -> inside (network ipam) q ->
exists i, 0 <= i < subnet_count ipam bits /\
  first_val q = first_val (candidate ipam bits i) /\
  last_val q = last_val (candidate ipam bits i) /\
  BitLen (prefix_addr q) = BitLen (prefix_addr (candidate ipam bits i)).
Proof.
intros Hq Hqb (Hfam & Hlo & Hhi). destruct (size_count ipam bits Hnet Hbits) as (Hs & Hc & Hsz).
destruct net_aligned as [b Hb]. unfold same_family in Hfam. apply Z.eqb_eq in Hfam.
assert (Hhb : 2 ^ host_bits q = subnet_size ipam bits).
{ unfold host_bits, subnet_size. by rewrite Hqb, Hfam. }
assert (Hfq : first_val q = block q * subnet_size ipam bits) by (unfold first_val; by rewrite Hhb).
assert (Hlq : last_val q = first_val q + subnet_size ipam bits - 1) by (unfold last_val; by rewrite Hhb).
assert (Hln : last_val (network ipam) = first_val (network ipam) +
          subnet_count ipam bits * subnet_size ipam bits - 1) by (unfold last_val; lia).
exists (block q - b). rewrite candidate_first, candidate_last.
split_and!; [nia|nia|nia|nia|]. unfold candidate. simpl. by rewrite with_val_BitLen.
Qed.
End Candidate.

Lemma free_ext ps p q :
first_val p = first_val q -> last_val p = last_val q ->
BitLen (prefix_addr p) = BitLen (prefix_addr q) -> free ps p -> free ps q.
Proof.
unfold free, overlaps, same_family. intros -> -> ->. done.
Qed.

(** What a successful or failing run of the loop means. *)
Definition alloc_post ipam ps bits (r : result error (prefix * t)) : Prop :=
match r with
| Ok (p, ipam') =>
    prefix_wf p /\ canonical p /\ prefix_bits p = bits /\
    inside (network ipam) p /\ free ps p /\
    network ipam' = network ipam /\ repr ipam' (ps ++ [p]) /\
    (forall q, prefix_wf q -> prefix_bits q = bits -> inside (network ipam) q ->
       free ps q -> first_val p <= first_val q)
| Err NoAvailableSubnet =>
    forall q, prefix_wf q -> prefix_bits q = bits -> inside (network ipam) q -> ~ free ps q
| Err InvalidSubnetSize => ~ bits_ok ipam bits
| Err _ => False
end.

Lemma loop_spec ipam ps bits : repr ipam ps -> bits_ok ipam bits ->
forall fuel i, 0 <= i < subnet_count ipam bits ->
  subnet_count ipam bits - i < Z.of_nat fuel ->
  (forall j, 0 <= j < i -> ~ free ps (candidate ipam bits j)) ->
  exists r, allocate_loop fuel ipam bits (candidate ipam bits i) = Some r /\
            alloc_post ipam ps bits r.
Proof.
intros Hr Hbits. pose proof Hr as (Hnet & Hcan & _ & _).
induction fuel as [|fuel IH]; intros i Hi Hfuel Hpast; [lia|]. cbn [allocate_loop].
destruct (candidate_wf ipam bits Hnet Hbits i Hi) as (Hwf & Hc & Hin).
destruct (proj2 (inside_check ipam ps _ Hr Hwf Hc) Hin) as [-> _].
destruct (repr_IPSet ipam ps Hr) as (s & -> & Hov). rewrite Hov by done.
destruct (existsb (overlaps (candidate ipam bits i)) ps) eqn:Hex; simpl.
- assert (Hnf : forall j, 0 <= j < i + 1 -> ~ free ps (candidate ipam bits j)).
  { intros j Hj. destruct (decide (j = i)) as [->|]; [|apply Hpast; lia].
    rewrite <- existsb_free, Hex. done. }
  destruct (candidate_next ipam bits Hnet Hbits i Hi) as [[Hlt ->]|[He Hout]].
  + apply IH; [lia|lia|done].
  + destruct fuel as [|fuel]; [lia|]. cbn [allocate_loop]. rewrite Hout.
    eexists; split; [done|]. simpl. intros q Hq Hqb Hqi Hqf.
    destruct (candidate_all ipam bits Hnet Hbits q Hq Hqb Hqi) as (j & Hj & H1 & H2 & H3).
    apply (Hnf j); [lia|]. by apply (free_ext ps q).
- apply existsb_free in Hex. eexists; split; [done|]. simpl.
  split_and!; [done..| |].
  + by apply repr_add.
  + intros q Hq Hqb Hqi Hqf.
    destruct (candidate_all ipam bits Hnet Hbits q Hq Hqb Hqi) as (j & Hj & H1 & H2 & H3).
    rewrite H1, !candidate_first by done. destruct (decide (j < i)).
    * exfalso. apply (Hpast j); [lia|]. by apply (free_ext ps q).
    * destruct (size_count ipam bits Hnet Hbits) as (Hs & _ & _). nia.
Qed.

(** ** Theorems *)

Lemma AllocateSubnetLen_sound ipam ps bits : repr ipam ps ->
exists r, AllocateSubnetLen ipam bits = Some r /\ alloc_post ipam ps bits r.
Proof.
intros Hr. pose proof Hr as (Hnet & Hcan & _ & _). unfold AllocateSubnetLen.
destruct (_ || _) eqn:E.
- eexists; split; [done|]. simpl. unfold bits_ok.
  apply orb_true_iff in E as [E|E]; apply Z.ltb_lt in E; lia.
- apply orb_false_iff in E as [E1 E2]. apply Z.ltb_ge in E1, E2.
  assert (Hbits : bits_ok ipam bits) by (split; lia).
  destruct (size_count ipam bits Hnet Hbits) as (_ & Hc & _).
  rewrite (candidate_0 ipam bits Hnet Hbits Hcan).
  apply loop_spec; [done..|lia| |lia].
  unfold loop_fuel. fold (subnet_count ipam bits). lia.
Qed.

Lemma AllocateSubnet_sound ipam ps p : repr ipam ps -> prefix_wf p -> canonical p ->
match AllocateSubnet ipam p with
| Ok ipam' => inside (network ipam) p /\ free ps p /\
              network ipam' = network ipam /\ repr ipam' (ps ++ [p])
| Err SubnetNotInNetwork => ~ inside (network ipam) p
| Err SubnetOverlaps => inside (network ipam) p /\ ~ free ps p
| Err _ => False
end.
Proof.
intros Hr Hp Hc. unfold AllocateSubnet. pose proof (inside_check ipam ps p Hr Hp Hc) as Hin.
destruct (repr_IPSet ipam ps Hr) as (s & -> & Hov). rewrite Hov by done.
destruct (negb _ || negb _) eqn:E.
- intros Hi. apply Hin in Hi as [H1 H2]. by rewrite H1, H2 in E.
- apply orb_false_iff in E as [E1 E2]. apply negb_false_iff in E1, E2.
  destruct (existsb (overlaps p) ps) eqn:Hex.
  + split; [by apply Hin|]. by rewrite <- existsb_free, Hex.
  + apply existsb_free in Hex. split_and!; [by apply Hin|done..|by apply repr_add].
Qed.

Lemma disjoint_app ps p : disjoint_subnets ps -> free ps p -> disjoint_subnets (ps ++ [p]).
Proof.
unfold free. induction ps as [|q ps IH]; simpl; [by repeat constructor|].
intros [Hq Hps] [Hpq Hp]%Forall_cons. split; [|auto].
apply Forall_app. split; [done|]. constructor; [|done]. by rewrite overlaps_sym.
Qed.

(** The state an allocator is meant to be in: everything allocated is a subnet of
  the network and no two subnets share an address. *)
Definition Inv (ipam : t) (ps : list prefix) : Prop :=
repr ipam ps /\ disjoint_subnets ps /\ Forall (inside (network ipam)) ps.

Lemma Inv_add ipam ps ipam' p : Inv ipam ps -> inside (network ipam) p -> free ps p ->
network ipam' = network ipam -> repr ipam' (ps ++ [p]) -> Inv ipam' (ps ++ [p]).
Proof.
intros (_ & Hd & Hi) Hp Hf Hn Hr. split_and!; [done|by apply disjoint_app|].
rewrite Hn. apply Forall_app. auto.
Qed.

Lemma allocate_all_Inv subnets ipam ps ipam' :
Inv ipam ps -> Forall prefix_wf subnets -> Forall canonical subnets ->
allocate_all ipam subnets = Ok ipam' ->
network ipam' = network ipam /\ Inv ipam' (ps ++ subnets).
Proof.
intros HI Hwf. revert ipam ps HI. induction Hwf as [|p subnets Hp Hwf IH];
  intros ipam ps HI Hcan; simpl.
- intros [= <-]. by rewrite app_nil_r.
- inversion Hcan as [|?? Hc Hcan']; subst.
  pose proof (AllocateSubnet_sound ipam ps p (proj1 HI) Hp Hc) as Hs.
  destruct (AllocateSubnet ipam p) as [ipam1|e]; [|done]. destruct Hs as (Hi & Hf & Hn & Hr).
  intros Hall. destruct (IH ipam1 (ps ++ [p])) as [Hn' HI']; [by eapply Inv_add|done|done|].
  split; [congruence|]. by rewrite <- app_assoc in HI'.
Qed.
End IPAM.
End IPAM.


(** ** Properties *)
Section Properties.
Context `{NetipxSpec}.

(** C34: [AllocateSubnetLen] always returns, and on success the subnet has the
    requested length, lies inside the cluster network, shares no address with any
    subnet allocated before, and is the lowest such subnet; it reports
    "no available subnet" only when every subnet of that length inside the network
    overlaps an allocated one, and "invalid subnet size" only for a length outside
    the network's. *)
Theorem AllocateSubnetLen_first_fit (ipam : IPAM.t) (ps : list prefix) (bits : Z)
  (Hrepr : IPAM.repr ipam ps) :
  exists r, IPAM.AllocateSubnetLen ipam bits = Some r /\ IPAM.alloc_post ipam ps bits r.
Proof. by apply IPAM.AllocateSubnetLen_sound. Qed.

(** The allocator's invariant (allocated subnets pairwise disjoint and inside the
    network) holds of the allocator built from the machines' subnets by
    [NewIPAMWithAllocated] and is preserved by [AllocateSubnetLen]: the subnet handed
    to a new machine never overlaps the subnet of another machine. *)
Lemma allocated_subnets_disjoint (n : prefix) (subnets : list prefix) (bits : Z)
  (ipam ipam' : IPAM.t) (p : prefix)
  (Hn : prefix_wf n) (Hwf : Forall prefix_wf subnets) (Hcan : Forall canonical subnets)
  (Hnew : IPAM.NewIPAMWithAllocated n subnets = Ok ipam)
  (Halloc : IPAM.AllocateSubnetLen ipam bits = Some (Ok (p, ipam'))) :
  IPAM.Inv ipam subnets /\ IPAM.Inv ipam' (subnets ++ [p]) /\
  IPAM.network ipam' = prefix_Masked n.
Proof.
  unfold IPAM.NewIPAMWithAllocated in Hnew.
  destruct (IPAM.NewIPAM n) as [ipam0|] eqn:Hni; [|done].
  apply IPAM.NewIPAM_repr in Hni as (Hnet & _ & Hr0); [|done].
  destruct (IPAM.allocate_all_Inv subnets ipam0 [] ipam) as [Hnet1 HI]; [by split_and!|done..|].
  simpl in HI. split; [done|].
  destruct (IPAM.AllocateSubnetLen_sound ipam subnets bits (proj1 HI)) as (r & Hr & Hpost).
  rewrite Halloc in Hr. injection Hr as <-. destruct Hpost as (Hp & _ & _ & Hi & Hf & Hn' & Hr' & _).
  split; [by eapply IPAM.Inv_add|congruence].
Qed.

(** [AllocateSubnet] accepts a subnet in canonical form exactly when it lies inside
    the network and shares no address with an allocated subnet, and tells the two
    reasons of a refusal apart. *)
Lemma AllocateSubnet_spec (ipam : IPAM.t) (ps : list prefix) (p : prefix)
  (Hrepr : IPAM.repr ipam ps) (Hp : prefix_wf p) (Hc : canonical p) :
  match IPAM.AllocateSubnet ipam p with
  | Ok ipam' => IPAM.inside (IPAM.network ipam) p /\ IPAM.free ps p /\
                IPAM.network ipam' = IPAM.network ipam /\ IPAM.repr ipam' (ps ++ [p])
  | Err IPAM.SubnetNotInNetwork => ~ IPAM.inside (IPAM.network ipam) p
  | Err IPAM.SubnetOverlaps => IPAM.inside (IPAM.network ipam) p /\ ~ IPAM.free ps p
  | Err _ => False
  end.
Proof. by apply IPAM.AllocateSubnet_sound. Qed.
End Properties.

(** ** Concrete runs, on the default cluster network 10.210.0.0/16 *)
Definition DefaultSubnetBits : Z := 24.
Definition DefaultNetwork : prefix := mkPrefix (Addr4 181534720) 16.

Definition subnet_210 (i : Z) : prefix := mkPrefix (Addr4 (181534720 + i * 256)) 24.

#[local] Existing Instance netipx_list.
#[local] Existing Instance netipx_list_spec.

Definition ipam_two : IPAM.t := IPAM.mk DefaultNetwork [subnet_210 0; subnet_210 2].

Definition ipam_three : IPAM.t :=
  IPAM.mk DefaultNetwork [subnet_210 0; subnet_210 2; subnet_210 1].

Lemma ipam_two_repr : IPAM.repr ipam_two [subnet_210 0; subnet_210 2].
Proof.
  repeat split; simpl; try lia; try done.
  repeat constructor; simpl; unfold addr_wf; simpl; lia.
Qed.

Lemma AllocateSubnetLen_first_fit_witness :
  IPAM.repr ipam_two [subnet_210 0; subnet_210 2] /\
  exists r, IPAM.AllocateSubnetLen ipam_two 24 = Some r /\
    IPAM.alloc_post ipam_two [subnet_210 0; subnet_210 2] 24 r.
Proof.
  split; [apply ipam_two_repr|].
  exact (AllocateSubnetLen_first_fit ipam_two [subnet_210 0; subnet_210 2] 24 ipam_two_repr).
Defined.

Example AllocateSubnetLen_gap :
  IPAM.AllocateSubnetLen ipam_two 24 =
  Some (Ok (subnet_210 1, ipam_three)).
Proof. reflexivity. Qed.

(** The check of [AllocateSubnet] looks at the subnet's own address and at its last
    address only.  A subnet that is not in canonical form and larger than the network
    passes it when the two end at the same address: 10.255.3.4/8 is accepted by the
    allocator of 10.255.0.0/16 although it covers all of 10.0.0.0/8. *)
Definition net_10_255 : prefix := mkPrefix (Addr4 184483840) 16.
Definition host_10_255_3_4_8 : prefix := mkPrefix (Addr4 184484612) 8.

(** [AllocateSubnet] accepts a subnet that is not inside the network: the check
    compares only the address the subnet is written with and its last address. *)
Lemma AllocateSubnet_accepts_supernet :
  prefix_wf host_10_255_3_4_8 /\
  IPAM.AllocateSubnet (IPAM.mk net_10_255 []) host_10_255_3_4_8 =
    Ok (IPAM.mk net_10_255 [host_10_255_3_4_8]) /\
  ~ IPAM.inside net_10_255 host_10_255_3_4_8.
Proof.
  split_and!.
  - repeat split; simpl; unfold addr_wf; simpl; lia.
  - reflexivity.
  - intros (_ & H & _). vm_compute in H. by apply H.
Qed.
