(* ===== verification/Cluster.v ===== *)
(** * Cluster: the membership of a cluster, [internal/machine/cluster]

    [cluster.go] (the gRPC cluster service) and [machine.go] (machine IDs and names), on
    the store of Store.v and the subnet allocator of Ipam.v.  A request runs against the
    store of one machine, and the store of another machine may not have seen its changes
    yet: the theorems are about requests that are served one after the other on one store.
    Contexts, log messages and the time stamp of [Init] are not modelled. *)

From S2P Require Import Prelude GoStrings NetAddr NetText Proto Corrosion Store Ipam Resolver.
#[local] Open Scope Z_scope.

(** ** Machine IDs and names ([machine.go], [internal/secret]) *)

(** [hex.EncodeToString]. *)
Fixpoint hex_encode (s : string) : string :=
  match s with
  | EmptyString => ""
  | String c s' => String (hex_char (byte_val c / 16)) (String (hex_char (byte_val c mod 16)) (hex_encode s'))
  end.

(** [New(16)] gives 16 random bytes or an error, [None]. *)
Definition NewMachineID (random : option string) : option string := hex_encode <$> random.

Definition NewRandomMachineName (draws : nat -> draw) : option string :=
  (fun suffix => String.append "machine-" suffix) <$> RandomAlphaNumeric 4 draws.

(** The runes of a string, as [range] decodes them: [utf8.RuneError] for each byte that
    does not start a valid encoding. *)
Definition RuneError : Z := 65533.

Definition continuation (lo hi : Z) (s : string) : option (Z * string) :=
  match s with
  | String c s' => if (lo <=? byte_val c) && (byte_val c <=? hi) then Some (byte_val c mod 64, s') else None
  | EmptyString => None
  end.

(** The accepted range of the second byte, and the number of bytes, by the first byte. *)
Definition rune_shape (b : Z) : option (nat * Z * Z) :=
  if (194 <=? b) && (b <=? 223) then Some (1%nat, 128, 191)
  else if b =? 224 then Some (2%nat, 160, 191)
  else if b =? 237 then Some (2%nat, 128, 159)
  else if (225 <=? b) && (b <=? 239) then Some (2%nat, 128, 191)
  else if b =? 240 then Some (3%nat, 144, 191)
  else if b =? 244 then Some (3%nat, 128, 143)
  else if (241 <=? b) && (b <=? 243) then Some (3%nat, 128, 191)
  else None.

(** The remaining continuation bytes, after the value [acc] of those read. *)
Fixpoint continuations (n : nat) (lo hi acc : Z) (s : string) : option (Z * string) :=
  match n with
  | O => Some (acc, s)
  | S k => match continuation lo hi s with
           | None => None
           | Some (v, s') => continuations k 128 191 (acc * 64 + v) s'
           end
  end.

(** [utf8.DecodeRuneInString] on a non-empty string: the rune and the rest. *)
Definition decode_rune (c : ascii) (s : string) : Z * string :=
  let b := byte_val c in
  if b <? 128 then (b, s)
  else match rune_shape b with
       | None => (RuneError, s)
       | Some (n, lo, hi) =>
           match continuations n lo hi (b mod (2 ^ (6 - Z.of_nat n))) s with
           | Some (r, rest) => (r, rest)
           | None => (RuneError, s)
           end
       end.

Fixpoint runes_fuel (fuel : nat) (s : string) : list Z :=
  match fuel, s with
  | S f, String c s' => let (r, rest) := decode_rune c s' in r :: runes_fuel f rest
  | _, _ => []
  end.

(** Every rune takes at least one byte. *)
Definition runes (s : string) : list Z := runes_fuel (String.length s) s.

(** [unicode.ToLower] as far as its result is an ASCII character: the capital letters,
    the dotted capital I and the Kelvin sign; other runes are kept, and are not ASCII
    unless they are lower-case already. *)
Definition rune_lower (r : Z) : Z :=
  if (65 <=? r) && (r <=? 90) then r + 32
  else if r =? 304 then 105
  else if r =? 8490 then 107
  else r.

Definition name_rune (r : Z) : bool :=
  ((97 <=? r) && (r <=? 122)) || ((48 <=? r) && (r <=? 57)) || (r =? 45) || (r =? 95).

Definition sanitise (r : Z) : ascii := if name_rune r then Ascii.ascii_of_N (Z.to_N r) else "-"%char.

Fixpoint of_chars (l : list ascii) : string :=
  match l with [] => EmptyString | c :: l' => String c (of_chars l') end.

(** [strings.Trim(s, "-")], on the characters. *)
Fixpoint drop_hyphens (l : list ascii) : list ascii :=
  match l with
  | c :: l' => if Ascii.eqb c "-" then drop_hyphens l' else l
  | [] => []
  end.

Definition trim_hyphens (l : list ascii) : list ascii := reverse (drop_hyphens (reverse (drop_hyphens l))).

Definition machineNameFromHostname (hostname : string) : string :=
  let label := match cut_byte "." hostname with Some (b, _) => b | None => hostname end in
  of_chars (trim_hyphens (map (fun r => sanitise (rune_lower r)) (runes (trim_space label)))).

Definition contains_name (existing : list string) (name : string) : bool := existsb (String.eqb name) existing.

Definition candidate_name (name : string) (i : nat) : string :=
  String.append name (String.append "-" (itoa (N.of_nat i))).

(** The loop over the suffixes [i], [i + 1], ...; [None] when the fuel does not suffice. *)
Fixpoint suffix_loop (fuel : nat) (name : string) (existing : list string) (i : nat) : option string :=
  match fuel with
  | O => None
  | S f =>
      if negb (contains_name existing (candidate_name name i)) then Some (candidate_name name i)
      else suffix_loop f name existing (S i)
  end.

(** One candidate more than there are names. *)
Definition DefaultMachineName (hostname : string) (existing : list string) (draws : nat -> draw) : option string :=
  match (if String.eqb (machineNameFromHostname hostname) "" then NewRandomMachineName draws
         else Some (machineNameFromHostname hostname)) with
  | None => None
  | Some name =>
      if negb (contains_name existing name) then Some name
      else suffix_loop (S (length existing)) name existing 1
  end.

(** *** What a default name is *)
Definition name_char (c : ascii) : bool := name_rune (byte_val c).

Lemma name_rune_byte r : name_rune r = true -> byte_val (Ascii.ascii_of_N (Z.to_N r)) = r.
Proof. unfold name_rune. intros H. apply byte_of_val. lia. Qed.

Lemma sanitise_char r : name_char (sanitise r) = true.
Proof. unfold name_char, sanitise. destruct (name_rune r) eqn:Hr; [by rewrite name_rune_byte|done]. Qed.

Lemma drop_hyphens_suffix l : exists h, l = h ++ drop_hyphens l.
Proof.
  induction l as [|c l [h IH]]; cbn; [by exists []|].
  destruct (Ascii.eqb c "-"); [exists (c :: h); cbn; by f_equal|by exists []].
Qed.

Lemma drop_hyphens_head l c l' : drop_hyphens l = c :: l' -> c <> "-"%char.
Proof.
  induction l as [|d l IH]; cbn; [done|]. destruct (Ascii.eqb_spec d "-"); [done|]. by intros [= <- _].
Qed.

(** Trimming leaves a part of the characters that neither starts nor ends with a hyphen. *)
Lemma trim_hyphens_spec l : exists h t, l = h ++ trim_hyphens l ++ t /\
  head (trim_hyphens l) <> Some "-"%char /\ last (trim_hyphens l) <> Some "-"%char.
Proof.
  unfold trim_hyphens. destruct (drop_hyphens_suffix l) as [h Hh].
  destruct (drop_hyphens_suffix (reverse (drop_hyphens l))) as [t Ht].
  assert (Hd : drop_hyphens l = reverse (drop_hyphens (reverse (drop_hyphens l))) ++ reverse t).
  { apply (f_equal reverse) in Ht. by rewrite reverse_involutive, reverse_app in Ht. }
  set (r := drop_hyphens (reverse (drop_hyphens l))) in *. exists h, (reverse t). split_and!.
  - rewrite <- Hd. exact Hh.
  - intros Hhead. destruct (reverse r) as [|c k] eqn:Hr; [done|]. injection Hhead as ->.
    by apply (drop_hyphens_head l "-"%char (k ++ reverse t)).
  - destruct r as [|c k] eqn:Hr; [done|]. rewrite reverse_cons, last_snoc. intros [= ->].
    by apply (drop_hyphens_head (reverse (drop_hyphens l)) "-"%char k).
Qed.

Lemma list_of_chars l : String.list_ascii_of_string (of_chars l) = l.
Proof. induction l as [|c l IH]; cbn; congruence. Qed.

(** A name derived from a host name has only the characters [a-z0-9_-] and neither starts
    nor ends with a hyphen. *)
Lemma machineNameFromHostname_valid hostname :
  let l := String.list_ascii_of_string (machineNameFromHostname hostname) in
  Forall (fun c => name_char c = true) l /\ head l <> Some "-"%char /\ last l <> Some "-"%char.
Proof.
  unfold machineNameFromHostname. cbv zeta. rewrite list_of_chars.
  set (rs := runes _). destruct (trim_hyphens_spec (map (fun r => sanitise (rune_lower r)) rs)) as (h & t & Heq & Hh & Ht).
  split_and!; [|done..].
  assert (Hall : Forall (fun c => name_char c = true) (map (fun r => sanitise (rune_lower r)) rs)).
  { apply Forall_map, Forall_forall. intros r _. apply sanitise_char. }
  rewrite Heq in Hall. by apply Forall_app in Hall as [_ [Hall _]%Forall_app].
Qed.

Lemma contains_name_spec existing name : contains_name existing name = true <-> name ∈ existing.
Proof.
  unfold contains_name. rewrite existsb_exists. setoid_rewrite String.eqb_eq.
  rewrite list_elem_of_In. split; [by intros (? & ? & ->)|]. intros H. by exists name.
Qed.

Lemma candidate_name_inj name i j : candidate_name name i = candidate_name name j -> i = j.
Proof.
  unfold candidate_name. intros H.
  assert (Hinj : forall p s t, String.append p s = String.append p t -> s = t).
  { induction p as [|c p IH]; [done|]. intros s t [= Hst]. by apply IH. }
  apply Hinj, Hinj, itoa_inj in H. lia.
Qed.

(** The loop finds the first suffix that is free, within one round more than there are
    names. *)
Lemma suffix_loop_spec name existing fuel : forall i,
  (exists j, (i <= j < i + fuel)%nat /\ candidate_name name j ∉ existing) ->
  exists j, suffix_loop fuel name existing i = Some (candidate_name name j) /\ (i <= j)%nat /\
    candidate_name name j ∉ existing /\
    forall k, (i <= k < j)%nat -> candidate_name name k ∈ existing.
Proof.
  induction fuel as [|fuel IH]; intros i (j & Hj & Hfree); [lia|]. cbn [suffix_loop].
  destruct (contains_name existing (candidate_name name i)) eqn:Hc; cbn [negb].
  - apply contains_name_spec in Hc. destruct (IH (S i)) as (j' & Hrun & Hle & Hf & Hall).
    + exists j. split; [|done]. assert (i <> j) by congruence. lia.
    + exists j'. split_and!; [done|lia|done|]. intros k Hk. destruct (decide (k = i)) as [->|]; [done|]. apply Hall. lia.
  - exists i. split_and!; [done|lia| |lia]. rewrite <- contains_name_spec, Hc. done.
Qed.

Lemma free_suffix name existing :
  exists j, (1 <= j < 1 + S (length existing))%nat /\ candidate_name name j ∉ existing.
Proof. apply free_candidate. apply candidate_name_inj. Qed.

(** [DefaultMachineName] always finds a name: that of the host, or a random one, if it is
    not taken, else the first free one with a number appended; it fails only with the
    random source. *)
Lemma DefaultMachineName_spec hostname existing draws :
  match DefaultMachineName hostname existing draws with
  | Some name => name ∉ existing /\
      exists base, (if String.eqb (machineNameFromHostname hostname) "" then NewRandomMachineName draws = Some base
                    else base = machineNameFromHostname hostname) /\
        (name = base \/ base ∈ existing /\ exists j, (1 <= j)%nat /\ name = candidate_name base j /\
           forall k, (1 <= k < j)%nat -> candidate_name base k ∈ existing)
  | None => machineNameFromHostname hostname = "" /\ NewRandomMachineName draws = None
  end.
Proof.
  unfold DefaultMachineName. set (base := if String.eqb _ "" then _ else _).
  assert (Hbase : match base with
    | Some b => if String.eqb (machineNameFromHostname hostname) "" then NewRandomMachineName draws = Some b
                else b = machineNameFromHostname hostname
    | None => machineNameFromHostname hostname = "" /\ NewRandomMachineName draws = None end).
  { subst base. destruct (String.eqb_spec (machineNameFromHostname hostname) ""); [|done].
    by destruct (NewRandomMachineName draws). }
  destruct base as [b|]; [|done].
  destruct (contains_name existing b) eqn:Hc; cbn [negb].
  - destruct (suffix_loop_spec b existing (S (length existing)) 1 (free_suffix b existing)) as (j & -> & Hj & Hf & Hall).
    split; [done|]. exists b. split; [done|]. right. split; [by apply contains_name_spec|]. by exists j.
  - split; [by rewrite <- contains_name_spec, Hc|]. exists b. split; [done|]. by left.
Qed.

Example default_names :
  map machineNameFromHostname ["Web-1.example.com"; " My_Host!  "; "--"; utf8 [195; 188; 98; 101; 114]%nat; utf8 [226; 132; 170; 49]%nat] =
  ["web-1"; "my_host"; ""; "ber"; "k1"] /\
  DefaultMachineName "web.lan" ["web"; "web-1"] (fun _ => None) = Some "web-2".
Proof. split; reflexivity. Qed.

(** ** Requests and errors *)
Record AddMachineRequest := mkAddMachineRequest {
  am_Name : string; am_Network : option NetworkConfig; am_PublicIp : option IP }.

Inductive Code := InvalidArgument | NotFound | AlreadyExists | Internal | Unavailable.

Inductive cluster_error :=
| NotReady
| NetworkNotSet | NetworkInvalid (e : validate_error) | EndpointsNotSet | PublicIPInvalid (e : pb_error)
| ListMachinesFailed (e : store_error)
| NameExists (name : string)
| ManagementIPExists (name : string)
| PublicKeyExists (name : string)
| MachineIDFailed | MachineNameFailed
| ClusterNetworkFailed (e : option store_error)      (* None: the text does not parse *)
| CreateIPAMFailed (e : IPAM.error)
| AllocateSubnetFailed (e : IPAM.error)
| CreateMachineFailed (e : store_error)
| MembershipStatesFailed
| MachineIDNotSet
| MachineNotFound (id : string)
| DeleteMachineFailed (e : store_error)
| AlreadyInitialised | PutFailed (e : store_error).

(** The gRPC status code of an error; the errors of [Init] have none. *)
Definition status_code (e : cluster_error) : option Code :=
  match e with
  | NotReady => Some Unavailable
  | NetworkNotSet | NetworkInvalid _ | EndpointsNotSet | PublicIPInvalid _ | MachineIDNotSet => Some InvalidArgument
  | NameExists _ | ManagementIPExists _ | PublicKeyExists _ => Some AlreadyExists
  | MachineNotFound _ => Some NotFound
  | AlreadyInitialised | PutFailed _ => None
  | _ => Some Internal
  end.

(** A machine in a listing of the members; the address and state of a member as Corrosion
    reports them. *)
Record MachineMember := mkMachineMember { mem_Machine : MachineInfo; mem_State : MembershipState }.
Inductive MemberState := MembershipStateAlive | MembershipStateSuspect | MembershipStateDown.
Record ClusterMembershipState := mkClusterMembershipState { cms_ID : string; cms_Addr : AddrPort; cms_State : MemberState; cms_Timestamp : Z }.

Section Cluster.
Context {PJ : ProtoJSON} {NX : Netipx} {W : Type} (corro : Corro W).

(** What a machine's cluster service holds. *)
Record Cluster := mkCluster { machineID : string; initialised : bool; ready : bool }.

Definition UpdateMachineID (mid : string) (c : Cluster) : Cluster := mkCluster mid (initialised c) (ready c).

Definition Init (c : Cluster) (network : prefix) (created_at : string) (w : W) : W * result cluster_error unit :=
  if initialised c then (w, Err AlreadyInitialised)
  else match Put corro "network" (prefix_String network) w with
  | (w1, Err e) => (w1, Err (PutFailed e))
  | (w1, Ok _) =>
      match Put corro "created_at" created_at w1 with
      | (w2, Err e) => (w2, Err (PutFailed e))
      | (w2, Ok _) => (w2, Ok tt)
      end
  end.

Definition network (w : W) : result cluster_error prefix :=
  match Get corro "network" w with
  | Err e => Err (ClusterNetworkFailed (Some e))
  | Ok text => match ParsePrefix text with
               | None => Err (ClusterNetworkFailed None)
               | Some p => Ok p
               end
  end.

(** The checks on the request. *)
Definition check_request (req : AddMachineRequest) : nilable cluster_error NetworkConfig :=
  match am_Network req with
  | None => Some (Err NetworkNotSet)
  | Some c =>
      match Validate c with
      | None => None
      | Some (Err e) => Some (Err (NetworkInvalid e))
      | Some (Ok _) =>
          match nc_Endpoints c with
          | [] => Some (Err EndpointsNotSet)
          | _ =>
              match am_PublicIp req with
              | None => Some (Ok c)
              | Some ip =>
                  match ToAddr (Some ip) with
                  | None => None
                  | Some (Err e) => Some (Err (PublicIPInvalid e))
                  | Some (Ok _) => Some (Ok c)
                  end
              end
          end
      end
  end.

(** [bytes.Equal] does not tell a nil slice from an empty one. *)
Definition same_key (k1 k2 : option string) : bool := String.eqb (default "" k1) (default "" k2).

(** The subnet of a machine, [netip.Prefix{}] if it does not convert. *)
Definition machine_subnet (c : NetworkConfig) : option prefix :=
  match ToPrefix (nc_Subnet c) with
  | None => None
  | Some (Err _) => Some NoPrefix
  | Some (Ok p) => Some p
  end.

(** The loop over the machines: the first conflict, or the allocated subnets. *)
Fixpoint check_machines (req : AddMachineRequest) (c : NetworkConfig) (ms : list MachineInfo) :
  nilable cluster_error (list prefix) :=
  match ms with
  | [] => Some (Ok [])
  | m :: rest =>
      if negb (String.eqb (am_Name req) "") && String.eqb (mi_Name m) (am_Name req)
      then Some (Err (NameExists (am_Name req)))
      else match mi_Network m with
      | None => None
      | Some mc =>
          match (if is_set (nc_ManagementIp c) then IP_Equal (nc_ManagementIp c) (nc_ManagementIp mc) else Some false) with
          | None => None
          | Some true => Some (Err (ManagementIPExists (mi_Name m)))
          | Some false =>
              if same_key (nc_PublicKey mc) (nc_PublicKey c) then Some (Err (PublicKeyExists (mi_Name m)))
              else match machine_subnet mc with
              | None => None
              | Some p =>
                  match check_machines req c rest with
                  | Some (Ok ps) => Some (Ok (p :: ps))
                  | r => r
                  end
              end
          end
      end
  end.

(** What the request draws from the random source. *)
Record randomness := mkRandomness { rnd_id : option string; rnd_name : nat -> draw }.

(** [None] is a panic; it also stands for a subnet search that runs out of fuel, which
    none does. *)
Definition AddMachineWithoutReadyCheck (req : AddMachineRequest) (rnd : randomness) (w : W) :
  option (W * result cluster_error MachineInfo) :=
  match check_request req with
  | None => None
  | Some (Err e) => Some (w, Err e)
  | Some (Ok c) =>
  match ListMachines corro w with
  | None => None
  | Some (Err e) => Some (w, Err (ListMachinesFailed e))
  | Some (Ok ms) =>
  match check_machines req c ms with
  | None => None
  | Some (Err e) => Some (w, Err e)
  | Some (Ok allocatedSubnets) =>
  match NewMachineID (rnd_id rnd) with
  | None => Some (w, Err MachineIDFailed)
  | Some mid =>
  match (if String.eqb (am_Name req) "" then NewRandomMachineName (rnd_name rnd) else Some (am_Name req)) with
  | None => Some (w, Err MachineNameFailed)
  | Some name =>
  match (match nc_ManagementIp c with
         | Some ip => Some ip
         | None => NewIP <$> ManagementIP (default "" (nc_PublicKey c))
         end) with
  | None => None
  | Some manageIP =>
  match network w with
  | Err e => Some (w, Err e)
  | Ok clusterNetwork =>
  match IPAM.NewIPAMWithAllocated clusterNetwork allocatedSubnets with
  | Err e => Some (w, Err (CreateIPAMFailed e))
  | Ok ipam =>
  match IPAM.AllocateSubnetLen ipam DefaultSubnetBits with
  | None => None
  | Some (Err e) => Some (w, Err (AllocateSubnetFailed e))
  | Some (Ok (subnet, _)) =>
      let m := mkMachineInfo mid name
        (Some (mkNetworkConfig (Some (NewIPPrefix subnet)) (Some manageIP) (nc_Endpoints c) (nc_PublicKey c)))
        (am_PublicIp req) "" "" "" "" "" "" in
      match CreateMachine corro m w with
      | (w', Err e) => Some (w', Err (CreateMachineFailed e))
      | (w', Ok _) => Some (w', Ok m)
      end
  end end end end end end end end end.

Definition AddMachine (c : Cluster) (req : AddMachineRequest) (rnd : randomness) (w : W) :
  option (W * result cluster_error MachineInfo) :=
  if negb (ready c) then Some (w, Err NotReady) else AddMachineWithoutReadyCheck req rnd w.

Definition RemoveMachine (c : Cluster) (id : string) (w : W) : W * result cluster_error unit :=
  if negb (ready c) then (w, Err NotReady)
  else if String.eqb id "" then (w, Err MachineIDNotSet)
  else
    let w1 := fst (x_delete_containers corro [id] w) in
    match DeleteMachine corro id w1 with
    | (w2, Ok _) => (w2, Ok tt)
    | (w2, Err (ErrMachineNotFound _)) => (w2, Err (MachineNotFound id))
    | (w2, Err e) => (w2, Err (DeleteMachineFailed e))
    end.

(** The state reported for a machine: that of the first member with its address. *)
Fixpoint member_state (a : addr) (states : list ClusterMembershipState) : MembershipState :=
  match states with
  | [] => DOWN
  | s :: rest =>
      match addr_Compare (ap_Addr (cms_Addr s)) a with
      | Eq => match cms_State s with
              | MembershipStateAlive => UP
              | MembershipStateSuspect => SUSPECT
              | MembershipStateDown => DOWN
              end
      | _ => member_state a rest
      end
  end.

Definition machine_member (c : Cluster) (states : list ClusterMembershipState) (m : MachineInfo) : option MachineMember :=
  match mi_Network m with
  | None => None
  | Some mc =>
      match ToAddr (nc_ManagementIp mc) with
      | None => None
      | Some r =>
          let a := match r with Ok a => a | Err _ => NoAddr end in
          Some (mkMachineMember m (if String.eqb (mi_Id m) (machineID c) then UP else member_state a states))
      end
  end.

(** The latest [states] of the members that Corrosion reports (Admin.v); [None] is an error. *)
Definition list_members (c : Cluster) (states : option (list ClusterMembershipState)) (w : W) :
  nilable cluster_error (list MachineMember) :=
  if negb (ready c) then Some (Err NotReady)
  else match ListMachines corro w with
  | None => None
  | Some (Err e) => Some (Err (ListMachinesFailed e))
  | Some (Ok ms) =>
      match states with
      | None => Some (Err MembershipStatesFailed)
      | Some latest =>
          match mapM (machine_member c latest) ms with
          | None => None
          | Some l => Some (Ok l)
          end
      end
  end.
End Cluster.

(** ** The invariant of the membership *)

Definition config_of (m : MachineInfo) : NetworkConfig := default (mkNetworkConfig None None [] None) (mi_Network m).
Definition key_of (m : MachineInfo) : string := default "" (nc_PublicKey (config_of m)).
Definition subnet_of (m : MachineInfo) : prefix := default NoPrefix (machine_subnet (config_of m)).

(** A machine as [AddMachine] creates it in the cluster network [n]. *)
Record machine_ok (n : prefix) (m : MachineInfo) : Prop := {
  mo_network : mi_Network m = Some (config_of m);
  mo_valid : Validate (config_of m) = Some (Ok tt);
  mo_ip : nc_ManagementIp (config_of m) <> None;
  mo_subnet : machine_subnet (config_of m) = Some (subnet_of m);
  mo_wf : prefix_wf (subnet_of m);
  mo_canonical : canonical (subnet_of m);
  mo_bits : prefix_bits (subnet_of m) = DefaultSubnetBits;
  mo_inside : IPAM.inside (prefix_Masked n) (subnet_of m)
}.

(** The machines of a cluster do not get in each other's way. *)
Definition machines_ok (n : prefix) (ms : list MachineInfo) : Prop :=
  Forall (machine_ok n) ms /\ IPAM.disjoint_subnets (map subnet_of ms) /\ NoDup (map key_of ms).

Lemma disjoint_subnets_perm ps qs : ps ≡ₚ qs -> IPAM.disjoint_subnets ps -> IPAM.disjoint_subnets qs.
Proof.
  induction 1 as [|p ps qs Hp IH|p q ps|]; cbn [IPAM.disjoint_subnets]; [done|..].
  - intros [Hf Hd]. split; [|by apply IH]. unfold IPAM.free in *. by rewrite <- Hp.
  - unfold IPAM.free. rewrite !Forall_cons. rewrite (overlaps_sym q p). naive_solver.
  - naive_solver.
Qed.

#[global] Instance machines_ok_proper n : Proper ((≡ₚ) ==> iff) (machines_ok n).
Proof.
  enough (forall l k, l ≡ₚ k -> machines_ok n l -> machines_ok n k) as H by (intros l k Hlk; split; by apply H).
  intros l k Hlk (H1 & H2 & H3). split_and!; [by rewrite <- Hlk| |by rewrite <- Hlk].
  eapply disjoint_subnets_perm; [|exact H2]. by rewrite Hlk.
Qed.

Lemma machines_ok_cons n m ms : machines_ok n (m :: ms) <->
  machine_ok n m /\ IPAM.free (map subnet_of ms) (subnet_of m) /\ key_of m ∉ map key_of ms /\ machines_ok n ms.
Proof. unfold machines_ok. cbn. rewrite Forall_cons, NoDup_cons. tauto. Qed.

Section Membership.
Context {PJ : ProtoJSON} {PJS : ProtoJSONSpec} {NX : Netipx} {NXS : NetipxSpec} {W : Type} (corro : Corro W).
Context {TB : Tables corro}.
Implicit Types (w : W) (n : prefix) (m : MachineInfo).

(** A record of the machines table holds the machine of its ID. *)
Definition record_ok (kv : string * string) : Prop :=
  kv.2 <> "" /\ kv.2 <> "{}" /\ exists m, pj_Unmarshal kv.2 = Some m /\ mi_Id m = kv.1.

(** The machines in the store of a world, in the order of a listing. *)
Definition members w : list MachineInfo := omap (fun kv => pj_Unmarshal kv.2) (listing_order w).

(** The store of a cluster with the network [n]. *)
Record cluster_ok n w : Prop := {
  co_text : exists text, settings w !! "network" = Some text /\ ParsePrefix text = Some n;
  co_wf : prefix_wf n;
  co_records : Forall record_ok (listing_order w);
  co_machines : machines_ok n (members w)
}.

Lemma Get_answer key w text : settings w !! key = Some text ->
  Get corro key w = Ok text \/ fails (q_key corro key w).
Proof.
  intros Hk. destruct (key_read key w) as [Hf|Ha]; [by right|left].
  unfold Get. rewrite Ha, Hk. reflexivity.
Qed.

Lemma network_read n w : cluster_ok n w ->
  network corro w = Ok n \/ (exists e, network corro w = Err (ClusterNetworkFailed (Some e))) /\ fails (q_key corro "network" w).
Proof.
  intros [(text & Ht & Hp) _ _ _]. unfold network.
  destruct (Get_answer "network" w text Ht) as [-> |Hf]; [left; by rewrite Hp|right].
  split; [|done]. unfold Get. destruct Hf as [e ->]. by eexists.
Qed.

Lemma machine_row_ok kv m : record_ok kv -> pj_Unmarshal kv.2 = Some m ->
  mi_Network m = Some (config_of m) -> Validate (config_of m) = Some (Ok tt) ->
  machine_row ["id"; "info"] (mkRow 1 [JString kv.1; JString kv.2]) = Some (Ok (Some m)).
Proof.
  intros (H1 & H2 & _) Hm Hn Hv. unfold machine_row. cbn -[String.eqb Validate].
  apply String.eqb_neq in H1, H2. by rewrite H1, H2, Hm, Hn, Hv.
Qed.

Lemma machine_rows_ok n (l : list (string * string)) : Forall record_ok l ->
  Forall (machine_ok n) (omap (fun kv => pj_Unmarshal kv.2) l) ->
  machine_rows ["id"; "info"] (map (fun kv => mkRow 1 [JString kv.1; JString kv.2]) l) =
  Some (Ok (omap (fun kv => pj_Unmarshal kv.2) l)).
Proof.
  induction 1 as [|kv l Hkv Hl IH]; intros Hok; [done|].
  pose proof Hkv as (_ & _ & m & Hm & _). cbn [omap list_omap] in *. rewrite Hm in *.
  apply Forall_cons in Hok as [Hmo Hok]. cbn [map machine_rows].
  rewrite (machine_row_ok kv m Hkv Hm (mo_network _ _ Hmo) (mo_valid _ _ Hmo)). by rewrite (IH Hok).
Qed.

Lemma machines_ok_app n ms1 ms2 : machines_ok n (ms1 ++ ms2) -> machines_ok n ms1.
Proof.
  induction ms1 as [|m ms1 IH]; cbn [app]; [by repeat constructor|].
  intros (Hm & Hf & Hk & Hms)%machines_ok_cons. apply machines_ok_cons. split_and!; [done| | |by apply IH].
  - unfold IPAM.free in *. rewrite map_app in Hf. by apply Forall_app in Hf as [? _].
  - rewrite map_app in Hk. by apply not_elem_of_app in Hk as [? _].
Qed.

(** A listing gives the first members, and all of them when it does not break off. *)
Lemma ListMachines_reads n w : cluster_ok n w ->
  (exists e, ListMachines corro w = Some (Err e)) /\ fails (q_machines corro w) \/
  exists ms rest, ListMachines corro w = Some (Ok ms) /\ members w = ms ++ rest /\
    (whole_listing corro w -> ms = members w).
Proof.
  intros [_ _ Hrec (Hok & _ & _)].
  destruct (listed_rows machine_columns (map machine_values (listing_order w)) (q_machines corro w))
    as [Hf|(rs & k & Hq & Hc & Hr & Hwhole)]; [by apply Forall_map, Forall_forall|apply machines_listed|left|right].
  - split; [|done]. unfold ListMachines. destruct Hf as [e ->]. by eexists.
  - pose proof (take_drop k (listing_order w)) as Hsplit. unfold members in Hok |- *.
    rewrite <- Hsplit in Hrec, Hok. rewrite omap_app in Hok.
    apply Forall_app in Hrec as [Hrec _], Hok as [Hok _].
    exists (omap (fun kv => pj_Unmarshal kv.2) (take k (listing_order w))), (omap (fun kv => pj_Unmarshal kv.2) (drop k (listing_order w))).
    split_and!; [|by rewrite <- omap_app, Hsplit|].
    + unfold ListMachines. rewrite Hq, Hc, Hr, <- fmap_take. unfold as_rows. rewrite map_map. by apply (machine_rows_ok n).
    + intros Hw. specialize (Hwhole Hw). rewrite <- fmap_take in Hwhole. apply (f_equal length) in Hwhole.
      rewrite !length_map, length_take in Hwhole. by rewrite take_ge by lia.
Qed.

(** The request sees all the members. *)
Definition sees_members w : Prop :=
  ListMachines corro w = Some (Ok (members w)) \/
  (exists e, ListMachines corro w = Some (Err e)) /\ fails (q_machines corro w).

Lemma whole_sees_members n w : cluster_ok n w -> whole_listing corro w -> sees_members w.
Proof.
  intros H Hw. destruct (ListMachines_reads n w H) as [Hf|(ms & rest & Hl & _ & Hall)]; [by right|left].
  by rewrite Hl, (Hall Hw).
Qed.

(** A listing of no machines cannot miss any. *)
Lemma no_members_sees n w : cluster_ok n w -> members w = [] -> sees_members w.
Proof.
  intros H Hn. destruct (ListMachines_reads n w H) as [Hf|(ms & rest & Hl & Hm & _)]; [by right|left].
  rewrite Hn in Hm. symmetry in Hm. apply app_eq_nil in Hm as [-> _]. by rewrite Hl, Hn.
Qed.

(** The loop over the machines of a good store. *)
Definition no_conflict (req : AddMachineRequest) (c : NetworkConfig) (ms : list MachineInfo) : Prop :=
  (am_Name req <> "" -> am_Name req ∉ map mi_Name ms) /\
  (forall ip, nc_ManagementIp c = Some ip -> Some ip ∉ map (fun m => nc_ManagementIp (config_of m)) ms) /\
  default "" (nc_PublicKey c) ∉ map key_of ms.

Definition conflict (req : AddMachineRequest) (c : NetworkConfig) (ms : list MachineInfo) (e : cluster_error) : Prop :=
  match e with
  | NameExists name => name = am_Name req /\ name <> "" /\ name ∈ map mi_Name ms
  | ManagementIPExists name => exists ip m, m ∈ ms /\ mi_Name m = name /\
      nc_ManagementIp c = Some ip /\ nc_ManagementIp (config_of m) = Some ip
  | PublicKeyExists name => exists m, m ∈ ms /\ mi_Name m = name /\ key_of m = default "" (nc_PublicKey c)
  | _ => False
  end.

Lemma conflict_cons req c m ms e : conflict req c ms e -> conflict req c (m :: ms) e.
Proof.
  unfold conflict. destruct e; try done; cbn [map].
  - intros (? & ? & ?). split_and!; [done..|]. by right.
  - intros (ip & m' & ? & ?). exists ip, m'. split; [by right|done].
  - intros (m' & ? & ?). exists m'. split; [by right|done].
Qed.

Lemma check_machines_spec n req c ms : Forall (machine_ok n) ms ->
  exists r, check_machines req c ms = Some r /\
  match r with
  | Ok ps => ps = map subnet_of ms /\ no_conflict req c ms
  | Err e => conflict req c ms e
  end.
Proof.
  induction 1 as [|m ms Hm Hms IH]; cbn [check_machines].
  - eexists. split; [done|]. split; [done|]. repeat split; intros; by apply not_elem_of_nil.
  - destruct (negb (String.eqb (am_Name req) "") && String.eqb (mi_Name m) (am_Name req)) eqn:Hname.
    { eexists. split; [done|]. cbn. apply andb_true_iff in Hname as [H1 H2].
      apply negb_true_iff, String.eqb_neq in H1. apply String.eqb_eq in H2.
      split_and!; [done..|]. rewrite <- H2. by left. }
    rewrite (mo_network _ _ Hm).
    destruct (nc_ManagementIp (config_of m)) as [mip|] eqn:Hmip; [|by destruct (mo_ip _ _ Hm)].
    assert (Hip : exists b, (if is_set (nc_ManagementIp c) then IP_Equal (nc_ManagementIp c) (Some mip) else Some false) = Some b /\
      if b then nc_ManagementIp c = Some mip else nc_ManagementIp c <> Some mip).
    { destruct (nc_ManagementIp c) as [ip|]; cbn; [|by eexists].
      eexists. split; [done|]. destruct (String.eqb_spec (Ip ip) (Ip mip)) as [He|He].
      - destruct ip, mip; cbn in He; by subst.
      - intros [= ->]. done. }
    destruct Hip as ([|] & -> & Hip).
    { eexists. split; [done|]. cbn. exists mip, m. split_and!; [by left|done..]. }
    destruct (same_key _ _) eqn:Hkey; unfold same_key in Hkey.
    { apply String.eqb_eq in Hkey. eexists. split; [done|]. cbn. exists m. split_and!; [by left|done..]. }
    apply String.eqb_neq in Hkey.
    rewrite (mo_subnet _ _ Hm). destruct IH as (r & -> & Hr). destruct r as [ps|e].
    + destruct Hr as [-> (N1 & N2 & N3)]. eexists. split; [done|]. split; [done|].
      split_and!; cbn [map]; intros; rewrite not_elem_of_cons; (split; [|by auto]).
      * intros He. rewrite He, String.eqb_refl, andb_true_r in Hname.
        apply negb_false_iff, String.eqb_eq in Hname. congruence.
      * congruence.
      * intros He. apply Hkey. symmetry. exact He.
    + eexists. split; [done|]. by apply conflict_cons.
Qed.

(** ** Allocation among the subnets of the machines *)
Lemma allocate_all_ok subnets : forall ipam ps, IPAM.Inv ipam ps ->
  Forall prefix_wf subnets -> Forall canonical subnets -> Forall (IPAM.inside (IPAM.network ipam)) subnets ->
  IPAM.disjoint_subnets (ps ++ subnets) ->
  exists ipam', IPAM.allocate_all ipam subnets = Ok ipam' /\
    IPAM.network ipam' = IPAM.network ipam /\ IPAM.Inv ipam' (ps ++ subnets).
Proof.
  induction subnets as [|p subnets IH]; intros ipam ps HI Hwf Hcan Hin Hdis; cbn [IPAM.allocate_all].
  - exists ipam. by rewrite app_nil_r.
  - apply Forall_cons in Hwf as [Hp Hwf], Hcan as [Hc Hcan], Hin as [Hi Hin].
    pose proof (IPAM.AllocateSubnet_sound ipam ps p (proj1 HI) Hp Hc) as Hs.
    assert (Hfree : IPAM.free ps p).
    { eapply disjoint_subnets_perm in Hdis; [|apply Permutation_sym, Permutation_middle].
      destruct Hdis as [Hf _]. unfold IPAM.free in *. by apply Forall_app in Hf as [? _]. }
    destruct (IPAM.AllocateSubnet ipam p) as [ipam1|e].
    + destruct Hs as (_ & _ & Hn & Hr).
      destruct (IH ipam1 (ps ++ [p])) as (ipam' & Ha & Hn' & HI'); [by eapply IPAM.Inv_add|done|done| | |].
      * by rewrite Hn.
      * by rewrite <- app_assoc.
      * exists ipam'. split; [done|]. split; [congruence|]. by rewrite <- app_assoc in HI'.
    + destruct e; tauto.
Qed.

Lemma NewIPAMWithAllocated_ok n ms : prefix_wf n -> machines_ok n ms ->
  match IPAM.NewIPAMWithAllocated n (map subnet_of ms) with
  | Ok ipam => IPAM.network ipam = prefix_Masked n /\ IPAM.Inv ipam (map subnet_of ms)
  | Err e => e = IPAM.InvalidNetwork /\ prefix_bits n = 0
  end.
Proof.
  intros Hn (Hok & Hdis & _). unfold IPAM.NewIPAMWithAllocated.
  destruct (IPAM.NewIPAM n) as [ipam|e] eqn:Hnew.
  - apply IPAM.NewIPAM_repr in Hnew as (Hnet & _ & Hr); [|done].
    destruct (allocate_all_ok (map subnet_of ms) ipam []) as (ipam' & -> & Hn' & HI).
    + by split_and!.
    + apply Forall_map. eapply Forall_impl; [exact Hok|]. intros m Hm. apply (mo_wf _ _ Hm).
    + apply Forall_map. eapply Forall_impl; [exact Hok|]. intros m Hm. apply (mo_canonical _ _ Hm).
    + rewrite Hnet. apply Forall_map. eapply Forall_impl; [exact Hok|]. intros m Hm. apply (mo_inside _ _ Hm).
    + done.
    + split; [congruence|done].
  - revert Hnew. unfold IPAM.NewIPAM. destruct Hn as (_ & _ & _ & Hb).
    assert (prefix_IsValid n = true) as -> by (unfold prefix_IsValid; lia).
    cbn [negb orb]. destruct (Z.eqb_spec (prefix_bits n) 0); [|done]. by intros [= <-].
Qed.

(** The machine that [AddMachine] stores is one of the cluster. *)
Definition new_machine (req : AddMachineRequest) (c : NetworkConfig) (mid name : string) (manageIP : IP) (subnet : prefix) : MachineInfo :=
  mkMachineInfo mid name
    (Some (mkNetworkConfig (Some (NewIPPrefix subnet)) (Some manageIP) (nc_Endpoints c) (nc_PublicKey c)))
    (am_PublicIp req) "" "" "" "" "" "".

Lemma new_machine_ok n req c mid name manageIP subnet :
  Validate c = Some (Ok tt) -> (exists a, ToAddr (Some manageIP) = Some (Ok a)) ->
  prefix_wf subnet -> canonical subnet -> prefix_bits subnet = DefaultSubnetBits ->
  IPAM.inside (prefix_Masked n) subnet ->
  machine_ok n (new_machine req c mid name manageIP subnet) /\
  subnet_of (new_machine req c mid name manageIP subnet) = subnet /\
  wire_ok (new_machine req c mid name manageIP subnet).
Proof.
  intros Hv Hip Hwf Hcan Hb Hin.
  assert (Hsub : machine_subnet (config_of (new_machine req c mid name manageIP subnet)) = Some subnet).
  { unfold machine_subnet, config_of. cbn -[ToPrefix]. by rewrite NewIPPrefix_ToPrefix. }
  assert (Hs : subnet_of (new_machine req c mid name manageIP subnet) = subnet).
  { unfold subnet_of. by rewrite Hsub. }
  apply NetworkConfig_Validate_Ok in Hv as (_ & _ & Heps & k & Hk & Hlen).
  split; [|split; [done|]].
  - constructor; rewrite ?Hs; try done.
    apply NetworkConfig_Validate_Ok. unfold config_of. cbn -[ToPrefix ToAddr].
    split_and!; [right|right|done|].
    + exists subnet. by apply NewIPPrefix_ToPrefix.
    + done.
    + by exists k.
  - unfold wire_ok. cbn. split.
    + eapply Forall_impl; [exact Heps|]. by intros ep (e & a & -> & _).
    + rewrite Hk. intros [= ->]. done.
Qed.

(** ** The effect of a statement on the members *)
#[local] Instance omap_perm {A B} (f : A -> option B) : Proper ((≡ₚ) ==> (≡ₚ)) (omap f).
Proof.
  intros l k H. induction H as [|x l k H IH|x y l|]; cbn [omap list_omap]; [done|..].
  - destruct (f x); by rewrite IH.
  - destruct (f x), (f y); try done. apply Permutation_swap.
  - by etrans.
Qed.

Lemma cluster_ok_records n w w' l : cluster_ok n w -> settings w' = settings w ->
  listing_order w' ≡ₚ l -> Forall record_ok l -> machines_ok n (omap (fun kv => pj_Unmarshal kv.2) l) ->
  cluster_ok n w'.
Proof.
  intros [Ht Hwf _ _] Hset Hl Hrec Hok. constructor; [by rewrite Hset|done|by rewrite Hl|].
  unfold members. by rewrite Hl.
Qed.

Lemma cluster_ok_same n w w' : cluster_ok n w -> settings w' = settings w -> machines w' = machines w ->
  cluster_ok n w' /\ members w' ≡ₚ members w.
Proof.
  intros H Hs Hm.
  assert (Hl : listing_order w' ≡ₚ listing_order w) by (by rewrite !listing_order_all, Hm).
  split; [|unfold members; by rewrite Hl].
  eapply cluster_ok_records; [exact H|done|exact Hl|apply (co_records _ _ H)|apply (co_machines _ _ H)].
Qed.

Lemma cluster_ok_insert n w w' m info : cluster_ok n w -> settings w' = settings w ->
  machines w !! mi_Id m = None -> machines w' = <[mi_Id m := info]> (machines w) ->
  record_ok (mi_Id m, info) -> pj_Unmarshal info = Some m -> machines_ok n (m :: members w) ->
  cluster_ok n w' /\ members w' ≡ₚ m :: members w.
Proof.
  intros H Hs Hnone Hins Hrec Hm Hok.
  assert (Hl : listing_order w' ≡ₚ (mi_Id m, info) :: listing_order w).
  { rewrite !listing_order_all, Hins. by apply map_to_list_insert. }
  split.
  - eapply cluster_ok_records; [exact H|done|exact Hl| |].
    + constructor; [done|apply (co_records _ _ H)].
    + cbn [omap list_omap snd]. by rewrite Hm.
  - unfold members. rewrite Hl. cbn [omap list_omap snd]. by rewrite Hm.
Qed.

Lemma cluster_ok_delete n w w' id : cluster_ok n w -> settings w' = settings w ->
  machines w' = delete id (machines w) ->
  cluster_ok n w' /\ (machines w !! id <> None -> exists m, mi_Id m = id /\ members w ≡ₚ m :: members w').
Proof.
  intros H Hs Hdel. destruct (machines w !! id) as [info|] eqn:Hid.
  - assert (Hl : listing_order w ≡ₚ (id, info) :: listing_order w').
    { rewrite !listing_order_all, Hdel. by rewrite map_to_list_delete. }
    pose proof (co_records _ _ H) as Hrec. rewrite Hl, Forall_cons in Hrec.
    destruct Hrec as [(_ & _ & m & Hm & Hmid) Hrec]. cbn [fst snd] in Hm, Hmid.
    assert (Hmem : members w ≡ₚ m :: members w').
    { unfold members. rewrite Hl. cbn [omap list_omap snd]. by rewrite Hm. }
    split; [|intros _; by exists m].
    eapply cluster_ok_records; [exact H|done|reflexivity|done|].
    pose proof (co_machines _ _ H) as Hok. rewrite Hmem in Hok. by apply machines_ok_cons in Hok as (_ & _ & _ & ?).
  - split; [|done]. apply (cluster_ok_same n w w'); [done..|]. by rewrite Hdel, delete_id.
Qed.

(** ** What [AddMachine] does on a good store *)

(** The outcome of a request whose configuration is [c]. *)
Definition add_outcome n (req : AddMachineRequest) (c : NetworkConfig) (rnd : randomness) w (r : result cluster_error MachineInfo) w' : Prop :=
  match r with
  | Ok m =>
      members w' ≡ₚ m :: members w /\ machines w !! mi_Id m = None /\
      NewMachineID (rnd_id rnd) = Some (mi_Id m) /\
      (if String.eqb (am_Name req) "" then NewRandomMachineName (rnd_name rnd) = Some (mi_Name m) else mi_Name m = am_Name req) /\
      mi_PublicIp m = am_PublicIp req /\ nc_PublicKey (config_of m) = nc_PublicKey c /\
      nc_Subnet (config_of m) = Some (NewIPPrefix (subnet_of m)) /\
      nc_Endpoints (config_of m) = nc_Endpoints c /\
      (if is_set (nc_ManagementIp c) then nc_ManagementIp (config_of m) = nc_ManagementIp c
       else nc_ManagementIp (config_of m) = NewIP <$> ManagementIP (default "" (nc_PublicKey c))) /\
      no_conflict req c (members w) /\
      (forall q, prefix_wf q -> prefix_bits q = DefaultSubnetBits -> IPAM.inside (prefix_Masked n) q ->
         IPAM.free (map subnet_of (members w)) q -> first_val (subnet_of m) <= first_val q)
  | Err (ListMachinesFailed _) => fails (q_machines corro w) /\ w' = w
  | Err ((NameExists _ | ManagementIPExists _ | PublicKeyExists _) as e) => conflict req c (members w) e /\ w' = w
  | Err MachineIDFailed => rnd_id rnd = None /\ w' = w
  | Err MachineNameFailed => NewRandomMachineName (rnd_name rnd) = None /\ w' = w
  | Err (ClusterNetworkFailed _) => fails (q_key corro "network" w) /\ w' = w
  | Err (CreateIPAMFailed e) => e = IPAM.InvalidNetwork /\ prefix_bits n = 0 /\ w' = w
  | Err (AllocateSubnetFailed IPAM.InvalidSubnetSize) =>
      ~ prefix_bits n <= DefaultSubnetBits <= BitLen (prefix_addr n) /\ w' = w
  | Err (AllocateSubnetFailed IPAM.NoAvailableSubnet) => w' = w /\
      forall q, prefix_wf q -> prefix_bits q = DefaultSubnetBits -> IPAM.inside (prefix_Masked n) q ->
        ~ IPAM.free (map subnet_of (members w)) q
  | Err (CreateMachineFailed StoreMarshal) => w' = w
  | Err (CreateMachineFailed (StoreExec _)) => True
  | Err _ => False
  end.

Lemma CreateMachine_ok n m w w' r : cluster_ok n w -> mi_Id m <> "" -> wire_ok m -> machines_ok n (m :: members w) ->
  CreateMachine corro m w = (w', r) ->
  match r with
  | Ok _ => machines w !! mi_Id m = None /\ members w' ≡ₚ m :: members w
  | Err StoreMarshal => w' = w
  | Err (StoreExec _) => True
  | Err _ => False
  end /\ cluster_ok n w'.
Proof.
  intros H Hid Hwire Hok. unfold CreateMachine. destruct (pj_Marshal m) as [info|] eqn:Hm; [|by intros [= <- <-]].
  destruct (x_insert_machine corro (mi_Id m) info w) as [w1 x] eqn:Hx. intros [= <- <-].
  destruct (machine_inserted _ _ _ _ _ Hx) as [Hs Hins].
  destruct (pj_object m info Hm) as [Ho1 Ho2].
  assert (Hrec : record_ok (mi_Id m, info)).
  { split_and!; cbn; [done|by apply Ho2|]. exists m. split; [by apply pj_roundtrip|done]. }
  destruct Hins as [[Hnone Hins]|[Hsame Hf]].
  - destruct (cluster_ok_insert n w w1 m info H Hs Hnone Hins Hrec (pj_roundtrip m info Hwire Hm) Hok) as [Hc Hp].
    split; [|done]. unfold exec_store. by destruct (ExecContext x).
  - destruct (exec_store_fails x Hf) as [e He]. rewrite He. split; [|by apply (cluster_ok_same n w w1)].
    unfold exec_store in He. destruct (ExecContext x); [done|]. by injection He as <-.
Qed.

Lemma hex_encode_nonempty s : s <> "" -> hex_encode s <> "".
Proof. by destruct s. Qed.

(** The random bytes of an ID. *)
Definition random_ok (rnd : randomness) : Prop := forall s, rnd_id rnd = Some s -> String.length s = 16%nat.

Lemma machine_id_nonempty rnd mid : random_ok rnd -> NewMachineID (rnd_id rnd) = Some mid -> mid <> "".
Proof.
  unfold random_ok, NewMachineID. destruct (rnd_id rnd) as [s|]; [|done]. intros Hr [= <-].
  apply hex_encode_nonempty. intros ->. by specialize (Hr "" eq_refl).
Qed.

Lemma check_request_Ok req c : check_request req = Some (Ok c) ->
  am_Network req = Some c /\ Validate c = Some (Ok tt) /\ nc_Endpoints c <> [].
Proof.
  unfold check_request. destruct (am_Network req) as [c'|]; [|done].
  destruct (Validate c') as [[[]|]|] eqn:Hv; [|done..]. destruct (nc_Endpoints c') as [|ep eps] eqn:He; [done|].
  destruct (am_PublicIp req) as [ip|]; [destruct (ToAddr (Some ip)) as [[|]|]; try done|];
    intros [= <-]; rewrite He; done.
Qed.

Lemma manage_ip_ok c : Validate c = Some (Ok tt) -> exists ip a,
  match nc_ManagementIp c with
  | Some ip => Some ip
  | None => NewIP <$> ManagementIP (default "" (nc_PublicKey c))
  end = Some ip /\ ToAddr (Some ip) = Some (Ok a).
Proof.
  intros Hv. apply NetworkConfig_Validate_Ok in Hv as (_ & Hip & _ & k & Hk & Hlen).
  destruct (nc_ManagementIp c) as [ip|].
  - destruct Hip as [|[a Ha]]; [done|]. by exists ip, a.
  - rewrite Hk. cbn [default from_option id]. unfold ManagementIP. rewrite Hlen. cbn [KeyLen Nat.ltb Nat.leb fmap option_fmap option_map].
    do 2 eexists. split; [done|]. apply NewIP_ToAddr; [|done]. unfold addr_wf. cbn [addr_val BitLen].
    pose proof (be_val_range (String.append (be_bytes 2 64972) (fst (split_at 14 k)))) as Hr.
    rewrite string_app_length, be_bytes_length, split_at_length in Hr by (rewrite Hlen; unfold KeyLen; lia). exact Hr.
Qed.

Lemma AddMachine_ok n req c rnd w : cluster_ok n w -> sees_members w -> random_ok rnd ->
  check_request req = Some (Ok c) ->
  exists w' r, AddMachineWithoutReadyCheck corro req rnd w = Some (w', r) /\
    add_outcome n req c rnd w r w' /\ cluster_ok n w'.
Proof.
  intros H Hsees Hrnd Hreq. unfold AddMachineWithoutReadyCheck. rewrite Hreq.
  pose proof Hreq as (_ & Hv & _)%check_request_Ok.
  destruct Hsees as [-> |[[e ->] Hf]]; [|by do 2 eexists].
  destruct (check_machines_spec n req c (members w) (proj1 (co_machines _ _ H))) as ([ps|e] & -> & Hc).
  2: { do 2 eexists. split; [done|]. split; [|done]. destruct e; try done; by split. }
  destruct Hc as [-> Hnc].
  destruct (NewMachineID (rnd_id rnd)) as [mid|] eqn:Hmid.
  2: { do 2 eexists. split; [done|]. split; [|done]. cbn. split; [|done]. revert Hmid. unfold NewMachineID. by destruct (rnd_id rnd). }
  pose proof (machine_id_nonempty rnd mid Hrnd Hmid) as Hmid0.
  destruct (if String.eqb (am_Name req) "" then _ else _) as [name|] eqn:Hname.
  2: { do 2 eexists. split; [done|]. split; [|done]. cbn. split; [|done]. by destruct (String.eqb (am_Name req) ""). }
  destruct (manage_ip_ok c Hv) as (ip & a & Hip & Ha). rewrite Hip.
  destruct (network_read n w H) as [-> |[[e ->] Hf]]; [|by do 2 eexists].
  pose proof (NewIPAMWithAllocated_ok n (members w) (co_wf _ _ H) (co_machines _ _ H)) as Hipam.
  destruct (IPAM.NewIPAMWithAllocated n _) as [ipam|e]; [|destruct Hipam as [-> ?]; by do 2 eexists].
  destruct Hipam as [Hnet HI].
  destruct (IPAM.AllocateSubnetLen_sound ipam _ DefaultSubnetBits (proj1 HI)) as (r & -> & Hpost).
  destruct r as [[subnet ipam']|e].
  2: { do 2 eexists. split; [done|]. split; [|done]. destruct e; try done; cbn in Hpost |- *.
    - split; [|done]. unfold IPAM.bits_ok in Hpost. rewrite Hnet in Hpost.
      revert Hpost. destruct (co_wf _ _ H) as (_ & _ & _ & Hb). unfold prefix_Masked, prefix_IsValid.
      rewrite (proj2 (Z.leb_le 0 _)) by lia. cbn. by rewrite with_val_BitLen.
    - rewrite Hnet in Hpost. done. }
  destruct Hpost as (Hwf & Hcan & Hbits & Hin & Hfree & _ & _ & Hlow). rewrite Hnet in Hin, Hlow.
  destruct (new_machine_ok n req c mid name ip subnet Hv (ex_intro _ a Ha) Hwf Hcan Hbits Hin) as (Hm & Hs & Hwire).
  fold (new_machine req c mid name ip subnet). set (m := new_machine req c mid name ip subnet) in *.
  assert (Hok : machines_ok n (m :: members w)).
  { apply machines_ok_cons. rewrite Hs. split_and!; [done|done|apply Hnc|apply (co_machines _ _ H)]. }
  destruct (CreateMachine corro m w) as [w' r] eqn:Hcreate.
  destruct (CreateMachine_ok n m w w' r H Hmid0 Hwire Hok Hcreate) as [Hr Hc'].
  destruct r as [u|e]; do 2 eexists; (split; [done|]); (split; [|done]).
  - destruct Hr as [Hnone Hmem]. cbn [add_outcome]. rewrite Hs. split_and!; try done.
    + destruct (String.eqb (am_Name req) ""); [done|]. by injection Hname as <-.
    + cbn. by destruct (nc_ManagementIp c).
  - cbn. by destruct e.
Qed.

Lemma RemoveMachine_ok n cl id w w' r : cluster_ok n w -> RemoveMachine corro cl id w = (w', r) ->
  cluster_ok n w' /\
  match r with
  | Ok _ => exists m, mi_Id m = id /\ members w ≡ₚ m :: members w'
  | Err NotReady => ready cl = false /\ w' = w
  | Err MachineIDNotSet => id = "" /\ w' = w
  | Err (MachineNotFound id') => id' = id /\ machines w !! id = None /\ members w' ≡ₚ members w
  | Err (DeleteMachineFailed (StoreExec _)) => True
  | Err _ => False
  end.
Proof.
  intros H. unfold RemoveMachine. destruct (ready cl) eqn:Hready; cbn [negb]; [|by intros [= <- <-]].
  destruct (String.eqb_spec id "") as [->|Hid]; [by intros [= <- <-]|].
  destruct (x_delete_containers corro [id] w) as [w1 x1] eqn:Hx1. cbn [fst].
  destruct (containers_deleted _ _ _ _ Hx1) as [Hs1 Hm1].
  destruct (cluster_ok_same n w w1 H Hs1 Hm1) as [H1 Hp1]. unfold DeleteMachine.
  destruct (x_delete_machine corro id w1) as [w2 x2] eqn:Hx2.
  destruct (machine_deleted _ _ _ _ Hx2) as [Hs2 Hdel]. rewrite Hm1 in Hdel.
  assert (Hfail : forall e', affected id x2 = Err e' -> exec_fails x2 -> exists e, e' = StoreExec e).
  { unfold affected. intros e' He [e Hx]. rewrite Hx in He. injection He as <-. by eexists. }
  assert (Hok : cluster_ok n w2 /\ (exec_fails x2 \/
    match machines w !! id with
    | Some _ => affects 1 x2 /\ exists m, mi_Id m = id /\ members w ≡ₚ m :: members w2
    | None => affects 0 x2 /\ members w2 ≡ₚ members w
    end)).
  { destruct Hdel as [Hdel|[Hsame Hf]].
    - destruct (machines w !! id) as [info|] eqn:Hget; destruct Hdel as [Hdel Hr].
      + rewrite <- Hm1 in Hdel. destruct (cluster_ok_delete n w1 w2 id H1 Hs2 Hdel) as [H2 Hm].
        split; [done|]. destruct Hr as [Hr|Hf]; [right|by left]. split; [done|].
        rewrite Hm1, Hget in Hm. destruct Hm as (m & Hmid & Hp); [done|]. exists m. by rewrite <- Hp1.
      + rewrite <- Hm1 in Hdel. destruct (cluster_ok_same n w1 w2 H1 Hs2 Hdel) as [H2 Hp].
        split; [done|]. destruct Hr as [Hr|Hf]; [right|by left]. split; [done|]. by rewrite Hp.
    - rewrite <- Hm1 in Hsame. destruct (cluster_ok_same n w1 w2 H1 Hs2 Hsame) as [H2 _]. by split; [|left]. }
  destruct Hok as [H2 Hcase]. intros Heq.
  assert (w' = w2) as ->. { by destruct (affected id x2) as [|[]]; injection Heq as <- <-. }
  split; [done|]. destruct Hcase as [Hf|Hcase].
  - destruct (affected id x2) as [u|e'] eqn:Ha.
    + unfold affected in Ha. destruct Hf as [e He]. by rewrite He in Ha.
    + destruct (Hfail e' eq_refl Hf) as [e ->]. by injection Heq as <-.
  - unfold affected in Heq. destruct (machines w !! id);
      destruct Hcase as [(res & Hres & Hn) Hm]; rewrite Hres, Hn in Heq; cbn in Heq; by injection Heq as <-.
Qed.

(** The requests a machine serves, one after the other. *)
Inductive request_step : W -> W -> Prop :=
| StepAdd cl req rnd w w' r : random_ok rnd -> AddMachine corro cl req rnd w = Some (w', r) -> request_step w w'
| StepRemove cl id w w' r : RemoveMachine corro cl id w = (w', r) -> request_step w w'.

Lemma request_step_ok n w w' : cluster_ok n w -> sees_members w -> request_step w w' -> cluster_ok n w'.
Proof.
  intros H Hsees Hstep. destruct Hstep as [cl req rnd w w' r Hrnd Hadd|cl id w w' r Hrm].
  - unfold AddMachine in Hadd. destruct (negb (ready cl)); [by injection Hadd as <- _|].
    destruct (check_request req) as [[c|e]|] eqn:Hreq.
    + destruct (AddMachine_ok n req c rnd w H Hsees Hrnd Hreq) as (w1 & r1 & Hrun & _ & H1).
      rewrite Hrun in Hadd. by injection Hadd as <- _.
    + unfold AddMachineWithoutReadyCheck in Hadd. rewrite Hreq in Hadd. by injection Hadd as <- _.
    + unfold AddMachineWithoutReadyCheck in Hadd. by rewrite Hreq in Hadd.
  - by apply (RemoveMachine_ok n) in Hrm as [? _].
Qed.
End Membership.

(** ** Properties *)

(** C7: Whatever machines are added to and removed from a cluster, and whichever of the
    requests fail halfway, its machines stay well-formed and apart, as long as no listing of
    the machines breaks off while a request is served: every machine has a
    valid network configuration and a canonical subnet of 24 bits inside the cluster
    network, no two subnets share an address and no two machines have the same public key.
    A listing then finds only such machines, and all of them unless it breaks off.  (A
    listing that breaks off is taken for a whole one by the code, and the property is lost:
    [Memory.broken_listing_reuses_subnet].) *)
Theorem membership_invariant `{ProtoJSONSpec} `{NetipxSpec} {W : Type} (corro : Corro W) `{!Tables corro}
  (n : prefix) (w w' : W) (Hinit : cluster_ok corro n w)
  (Hsteps : rtc (fun w1 w2 => request_step corro w1 w2 /\ whole_listing corro w1) w w') :
  cluster_ok corro n w' /\
  forall ms, ListMachines corro w' = Some (Ok ms) ->
    machines_ok n ms /\ (whole_listing corro w' -> length ms = size (machines w')).
Proof.
  assert (H' : cluster_ok corro n w').
  { induction Hsteps as [|w1 w2 w3 [Hstep Hwhole] _ IH]; [done|]. apply IH.
    eapply request_step_ok; [done|by eapply whole_sees_members|exact Hstep]. }
  split; [done|]. intros ms Hms.
  destruct (ListMachines_reads corro n w' H') as [[[e He] _]|(ms' & rest & Heq & Hm & Hall)]; [congruence|].
  rewrite Heq in Hms. injection Hms as <-. split.
  - apply machines_ok_app with rest. rewrite <- Hm. by apply co_machines.
  - intros Hw. rewrite (Hall Hw), <- length_map_to_list, <- listing_order_all. unfold members.
    pose proof (co_records _ _ _ H') as Hrec. induction Hrec as [|kv l (_ & _ & m & Hmm & _) _ IH]; [done|].
    cbn [omap list_omap]. rewrite Hmm. cbn [length]. by f_equal.
Qed.

(** [AddMachine] on the store of a cluster whose members it sees never panics once the request's pointers
    are set, and its outcome is exact: it adds the machine under a fresh ID with the
    lowest free subnet of 24 bits, the requested name and addresses and no conflict with a
    member; or reports the conflict that exists, that no subnet is free, that the cluster
    network has no subnets of that size, or the call to the store or to the random source
    that failed; in all cases of failure but that of the final insertion the store is
    unchanged. *)
Lemma AddMachine_outcome `{ProtoJSONSpec} `{NetipxSpec} {W : Type} (corro : Corro W) `{!Tables corro}
  (n : prefix) (req : AddMachineRequest) (rnd : randomness) (w : W)
  (Hok : cluster_ok corro n w) (Hsees : sees_members corro w) (Hrnd : random_ok rnd) :
  match check_request req with
  | None => AddMachineWithoutReadyCheck corro req rnd w = None
  | Some (Err e) => AddMachineWithoutReadyCheck corro req rnd w = Some (w, Err e) /\ status_code e = Some InvalidArgument
  | Some (Ok c) => exists w' r, AddMachineWithoutReadyCheck corro req rnd w = Some (w', r) /\
      add_outcome corro n req c rnd w r w' /\ cluster_ok corro n w'
  end.
Proof.
  destruct (check_request req) as [[c|e]|] eqn:Hreq.
  - by apply AddMachine_ok.
  - unfold AddMachineWithoutReadyCheck. rewrite Hreq. split; [done|]. revert Hreq. unfold check_request.
    destruct (am_Network req) as [c'|]; [|by intros [= <-]].
    destruct (Validate c') as [[[]|]|]; [|by intros [= <-]|done].
    destruct (nc_Endpoints c'); [by intros [= <-]|]. destruct (am_PublicIp req) as [ip|]; [|done].
    destruct (ToAddr (Some ip)) as [[]|]; [done|by intros [= <-]|done].
  - unfold AddMachineWithoutReadyCheck. by rewrite Hreq.
Qed.

(** ** Concrete runs

    A store in memory, with an encoding of the messages in place of [protojson]. *)
Module Memory.
#[local] Instance IP_countable : Countable IP.
Proof. by refine (inj_countable' Ip mkIP _); intros []. Defined.
#[local] Instance IPPort_countable : Countable IPPort.
Proof. by refine (inj_countable' (fun p => (ipp_Ip p, ipp_Port p)) (fun '(a, b) => mkIPPort a b) _); intros []. Defined.
#[local] Instance IPPrefix_countable : Countable IPPrefix.
Proof. by refine (inj_countable' (fun p => (ipx_Ip p, ipx_Bits p)) (fun '(a, b) => mkIPPrefix a b) _); intros []. Defined.
#[local] Instance NetworkConfig_countable : Countable NetworkConfig.
Proof.
  by refine (inj_countable' (fun c => (nc_Subnet c, nc_ManagementIp c, nc_Endpoints c, nc_PublicKey c))
    (fun '(a, b, c, d) => mkNetworkConfig a b c d) _); intros [].
Defined.
#[local] Instance MachineInfo_countable : Countable MachineInfo.
Proof.
  by refine (inj_countable' (fun m => (mi_Id m, mi_Name m, mi_Network m, mi_PublicIp m,
      (mi_DaemonVersion m, mi_DockerVersion m, mi_Hostname m, mi_Arch m, mi_OsPrettyName m, mi_KernelVersion m)))
    (fun '(a, b, c, d, (e, f, g, h, i, j)) => mkMachineInfo a b c d e f g h i j) _); intros [].
Defined.

Fixpoint bits_text (p : positive) : string :=
  match p with xH => "" | xO q => String "0" (bits_text q) | xI q => String "1" (bits_text q) end.
Fixpoint text_bits (s : string) : positive :=
  match s with
  | EmptyString => xH
  | String c s' => if Ascii.eqb c "1" then xI (text_bits s') else xO (text_bits s')
  end.

Lemma text_bits_text p : text_bits (bits_text p) = p.
Proof. induction p as [p IH|p IH|]; cbn; by rewrite ?IH. Qed.

#[local] Instance bits_json : ProtoJSON := {|
  pj_Marshal m := Some (String "{" (bits_text (encode m)));
  pj_Unmarshal s := match s with String _ s' => decode (text_bits s') | EmptyString => None end
|}.

#[local] Instance bits_json_spec : ProtoJSONSpec.
Proof.
  split.
  - intros m s _ [= <-]. cbn. by rewrite text_bits_text, decode_encode.
  - intros m s [= <-]. split; [done|]. intros _ [= H]. by destruct (encode m).
Qed.

Record World := mkWorld { w_settings : gmap string string; w_machines : gmap string string }.

Definition done_exec (n : Z) : exec_response := ExecResponds 200 (Some [mkExecResult n None]).
Definition rows_exec (o : option string) : exec_response := done_exec (if o then 1 else 0).

Definition memory : Corro World := {|
  q_key k w := answer ["value"] (match w_settings w !! k with Some v => [[v]] | None => [] end);
  x_put k v w := (mkWorld (<[k := v]> (w_settings w)) (w_machines w), done_exec 1);
  x_delete_key k w := (mkWorld (delete k (w_settings w)) (w_machines w), done_exec 1);
  q_machine id w := answer ["info"] (match w_machines w !! id with Some v => [[v]] | None => [] end);
  q_machines w := answer ["id"; "info"] (map (fun kv => [kv.1; kv.2]) (map_to_list (w_machines w)));
  x_insert_machine id info w :=
    match w_machines w !! id with
    | Some _ => (w, ExecResponds 500 (Some [mkExecResult 0 (Some "UNIQUE constraint failed: machines.id")]))
    | None => (mkWorld (w_settings w) (<[id := info]> (w_machines w)), done_exec 1)
    end;
  x_update_machine info id w :=
    (mkWorld (w_settings w) (match w_machines w !! id with Some _ => <[id := info]> (w_machines w) | None => w_machines w end),
     rows_exec (w_machines w !! id));
  x_delete_machine id w := (mkWorld (w_settings w) (delete id (w_machines w)), rows_exec (w_machines w !! id));
  x_delete_containers _ w := (w, done_exec 0)
|}.

#[local] Instance memory_tables : Tables memory.
Proof.
  refine {| settings := w_settings; machines := w_machines; listing_order w := map_to_list (w_machines w) |}.
  - done.
  - intros k w. by right.
  - intros id w. by right.
  - intros w. left. by right.
  - intros k v w w' r [= <- <-]. split; [done|by left].
  - intros k w w' r [= <- <-]. split; [done|by left].
  - intros id info w w' r. cbn. destruct (w_machines w !! id) eqn:Hid; intros [= <- <-]; (split; [done|]).
    + right. split; [done|]. by eexists.
    + by left.
  - intros id info w w' r [= <- <-]. split; [done|]. left. cbn.
    destruct (w_machines w !! id); (split; [done|]); left; by eexists.
  - intros id w w' r [= <- <-]. split; [done|]. left. cbn.
    destruct (w_machines w !! id) eqn:Hid; (split; [|left; by eexists]); [done|by apply delete_id].
  - intros ids w w' r [= <- <-]. done.
Defined.

#[local] Existing Instance netipx_list.
#[local] Existing Instance netipx_list_spec.

Definition empty_store : World := mkWorld {["network" := "10.210.0.0/16"]} ∅.

Lemma empty_store_ok : cluster_ok memory DefaultNetwork empty_store.
Proof.
  constructor.
  - exists "10.210.0.0/16". by split.
  - repeat split; cbn; unfold addr_wf; cbn; lia.
  - constructor.
  - repeat constructor.
Qed.

Definition key_a : string := "aaaaaaaaaaaaaaaaaaaaaaaaaaaaaaaa".
Definition key_b : string := "bbbbbbbbbbbbbbbbbbbbbbbbbbbbbbbb".
Definition config_with (key : string) : NetworkConfig :=
  mkNetworkConfig None None [Some (NewIPPort (Addr4 167772161) 51820)] (Some key).
Definition add_request (name key : string) : AddMachineRequest := mkAddMachineRequest name (Some (config_with key)) None.
Definition draws_of (id : string) : randomness := mkRandomness (Some id) (fun _ => None).
Definition id_a : string := "0123456789abcdef".
Definition id_b : string := "fedcba9876543210".

Lemma draws_ok id : String.length id = 16%nat -> random_ok (draws_of id).
Proof. intros Hid s [= <-]. done. Qed.

Definition serving : Cluster := mkCluster "" true true.

Definition run_add (name key id : string) (w : World) : World :=
  match AddMachine memory serving (add_request name key) (draws_of id) w with Some (w', _) => w' | None => w end.

Definition two_machines : World := run_add "two" key_b id_b (run_add "one" key_a id_a empty_store).

(** Names and subnets of the machines, as the store lists them. *)
Definition summary (w : World) : list (string * string) :=
  map (fun m => (mi_Name m, prefix_String (subnet_of m))) (members memory w).

Example two_machines_subnets :
  summary two_machines = [("two", "10.210.1.0/24"); ("one", "10.210.0.0/24")] \/
  summary two_machines = [("one", "10.210.0.0/24"); ("two", "10.210.1.0/24")].
Proof. vm_compute. auto. Qed.

(** A removed machine's subnet is given to the next one. *)
Definition one_removed : World := fst (RemoveMachine memory serving (hex_encode id_a) two_machines).

Example subnet_is_reused :
  summary one_removed = [("two", "10.210.1.0/24")] /\
  map (fun m => prefix_String (subnet_of m)) (members memory (run_add "three" key_a id_a one_removed)) =
  ["10.210.0.0/24"; "10.210.1.0/24"].
Proof. split; vm_compute; reflexivity. Qed.

(** The key of a member is refused. *)
Example known_key_refused :
  match AddMachine memory serving (add_request "three" key_a) (draws_of id_a) two_machines with
  | Some (w', Err (PublicKeyExists name)) => name = "one"
  | _ => False
  end.
Proof. vm_compute. reflexivity. Qed.

(** The management IP derived from a key is not compared with those of the members: two
    keys that share their first 14 bytes get the same one. *)
Definition key_a' : string := "aaaaaaaaaaaaaabbbbbbbbbbbbbbbbbb".
Example derived_management_ip_collides :
  map (fun m => nc_ManagementIp (config_of m)) (members memory (run_add "two" key_a' id_b (run_add "one" key_a id_a empty_store))) =
  replicate 2 (NewIP <$> ManagementIP key_a).
Proof. vm_compute. reflexivity. Qed.

(** A request whose subnet or endpoint has no address makes the server dereference nil. *)
Example request_without_ip_panics :
  AddMachine memory serving
    (mkAddMachineRequest "one" (Some (mkNetworkConfig None None [Some (mkIPPort None 51820)] (Some key_a))) None)
    (draws_of id_a) empty_store = None.
Proof. reflexivity. Qed.

(** A listing that breaks off is taken for the whole list, [rows.Err()] not being looked
    at: the subnet of the machine that was not read is given out again. *)
Definition broken_listing : Corro World := {|
  q_key := q_key memory; x_put := x_put memory; x_delete_key := x_delete_key memory; q_machine := q_machine memory;
  q_machines w := Responds 200 [columns_event ["id"; "info"]; DecodeFails "unexpected EOF"];
  x_insert_machine := x_insert_machine memory; x_update_machine := x_update_machine memory;
  x_delete_machine := x_delete_machine memory; x_delete_containers := x_delete_containers memory |}.

Example broken_listing_reuses_subnet :
  match AddMachine broken_listing serving (add_request "two" key_b) (draws_of id_b) (run_add "one" key_a id_a empty_store) with
  | Some (w', Ok m) => map snd (summary w') = ["10.210.0.0/24"; "10.210.0.0/24"]
  | _ => False
  end.
Proof. vm_compute. reflexivity. Qed.

(** It is a listing the tables allow. *)
Lemma broken_listing_allowed w :
  listed machine_columns (map machine_values (map_to_list (w_machines w))) (q_machines broken_listing w).
Proof. right. exists 0%nat, [DecodeFails "unexpected EOF"]. split; [done|]. intros r [= <-]. by eexists. Qed.

Definition served (w w' : World) : Prop := request_step memory w w' /\ whole_listing memory w.

Lemma run_add_step name key id w : String.length id = 16%nat -> served w (run_add name key id w) \/ run_add name key id w = w.
Proof.
  intros Hid. unfold run_add. destruct (AddMachine memory serving _ _ w) as [[w' r]|] eqn:Hadd; [left|by right].
  split; [|by right]. eapply StepAdd; [by apply (draws_ok id Hid)|exact Hadd].
Qed.

Lemma two_machines_reached : rtc served empty_store two_machines.
Proof.
  unfold two_machines. etransitivity.
  - destruct (run_add_step "one" key_a id_a empty_store eq_refl) as [H|H]; [by apply rtc_once|by rewrite H].
  - destruct (run_add_step "two" key_b id_b (run_add "one" key_a id_a empty_store) eq_refl) as [H|H]; [by apply rtc_once|by rewrite H].
Qed.
Lemma membership_invariant_witness : cluster_ok memory DefaultNetwork two_machines.
Proof.
  exact (proj1 (membership_invariant memory DefaultNetwork _ _ empty_store_ok two_machines_reached)).
Defined.

End Memory.
