(* ===== verification/Admin.v ===== *)
(** * Admin: the Corrosion admin API ([internal/corrosion/admin.go])

    The admin client sends a command in a length-delimited frame and reads a sequence of
    such frames back, each a JSON document, up to ["Success"] or an error.  Two commands
    are used: the SWIM membership states, from which [ListMachines] (Cluster.v) tells which
    machines are up, and the round-trip times of the members.

    [readFrame_encodeFrame] and [responses_complete] say that a client gets exactly the
    documents that were sent; [ClusterMembershipStates_latest] is the specification of the
    latest states.  The JSON decoder is the class [AdminJSON]; a number is the [float64]
    that Go decodes it to ([spec_float], the IEEE 754 specification of the Standard
    Library), so that the statistics are computed as the code computes them. *)

From Stdlib Require Import SpecFloat.
From S2P Require Import Prelude GoStrings NetAddr NetText Proto Ipam Resolver Corrosion Store Cluster.
#[local] Open Scope string_scope.
#[local] Open Scope list_scope.
#[local] Open Scope Z_scope.

(** ** float64 *)
Abbreviation float64 := spec_float.
Definition fadd : float64 -> float64 -> float64 := SFadd 53 1024.
Definition fsub : float64 -> float64 -> float64 := SFsub 53 1024.
Definition fmul : float64 -> float64 -> float64 := SFmul 53 1024.
Definition fdiv : float64 -> float64 -> float64 := SFdiv 53 1024.
Definition fsqrt : float64 -> float64 := SFsqrt 53 1024.
Definition of_Z (n : Z) : float64 := binary_normalize 53 1024 n 0 false.
Definition is_nan (f : float64) : bool := match f with S754_nan => true | _ => false end.

(** The order of [sort.Float64s]: a NaN is less than any other value. *)
Definition float_less (x y : float64) : bool := SFltb x y || (is_nan x && negb (is_nan y)).

(** The integer part of a finite value. *)
Definition trunc (f : float64) : option Z :=
  match f with
  | S754_zero _ => Some 0
  | S754_finite s m e =>
      let n := if 0 <=? e then Z.pos m * 2 ^ e else Z.pos m / 2 ^ (- e) in
      Some (if s then - n else n)
  | S754_infinity _ | S754_nan => None
  end.

(** A conversion of a value that does not fit the integer type has an
    implementation-dependent result. *)
Class FloatConversion := { unfit_uint64 : float64 -> Z; unfit_int64 : float64 -> Z }.

Definition float_uint64 `{FloatConversion} (f : float64) : Z :=
  match trunc f with
  | Some n => if (0 <=? n) && (n <? 2 ^ 64) then n else unfit_uint64 f
  | None => unfit_uint64 f
  end.

Definition float_int64 `{FloatConversion} (f : float64) : Z :=
  match trunc f with
  | Some n => if (- 2 ^ 63 <=? n) && (n <? 2 ^ 63) then n else unfit_int64 f
  | None => unfit_int64 f
  end.

(** ** Decoded JSON *)
Inductive value :=
| VNull | VBool (b : bool) | VNumber (f : float64) | VString (s : string)
| VArray (l : list value) | VObject (fields : list (string * value)).

(** The entry of a key in a [map[string]any]. *)
Fixpoint field (k : string) (fields : list (string * value)) : option value :=
  match fields with
  | [] => None
  | (k', v) :: rest => if String.eqb k k' then Some v else field k rest
  end.

(** The type assertions [json[k].(T)]. *)
Definition object_field (k : string) (fields : list (string * value)) : option (list (string * value)) :=
  match field k fields with Some (VObject o) => Some o | _ => None end.
Definition string_field (k : string) (fields : list (string * value)) : option string :=
  match field k fields with Some (VString s) => Some s | _ => None end.
Definition number_field (k : string) (fields : list (string * value)) : option float64 :=
  match field k fields with Some (VNumber f) => Some f | _ => None end.

(** [json.Unmarshal] into an [any]; [None] is an error. *)
Class AdminJSON := { decode_any : string -> option value }.

(** A text with its single quotes written for double ones. *)
Fixpoint of_quotes (s : string) : string :=
  match s with
  | "" => ""
  | String c s' => String (if Ascii.eqb c "'" then ascii_of_nat 34 else c) (of_quotes s')
  end.

(** ** Frames *)
Definition take_bytes (n : Z) (s : string) : string := fst (split_at (Z.to_nat n) s).
Definition drop_bytes (n : Z) (s : string) : string := snd (split_at (Z.to_nat n) s).

Definition encodeFrame (data : string) : string := be_bytes 4 (Z.of_nat (String.length data) mod 2 ^ 32) +:+ data.

(** A connection to read from: what the peer sends, and the error after the last byte. *)
Record Conn := mkConn { cn_bytes : string; cn_end : string }.

Definition ErrUnexpectedEOF : string := "unexpected EOF".

(** [io.ReadFull] of [n] bytes. *)
Definition ReadFull (n : Z) (c : Conn) : result string (string * Conn) :=
  if n <=? Z.of_nat (String.length (cn_bytes c))
  then Ok (take_bytes n (cn_bytes c), mkConn (drop_bytes n (cn_bytes c)) (cn_end c))
  else Err (if String.eqb (cn_bytes c) "" then cn_end c
            else if String.eqb (cn_end c) EOF then ErrUnexpectedEOF else cn_end c).

Inductive admin_error :=
| ConnectFailed (err : string)
| SendCommandFailed (err : string)
| ReadFrameHead (err : string)
| ReadFrameData (err : string)
| UnmarshalResponse
| ResponseError (msg : string)
| InvalidErrorResponse (data : list (string * value)).

Definition readFrame (c : Conn) : result admin_error (string * Conn) :=
  match ReadFull 4 c with
  | Err e => Err (ReadFrameHead e)
  | Ok (head, c1) =>
      match ReadFull (be_val head) c1 with
      | Err e => Err (ReadFrameData e)
      | Ok dc => Ok dc
      end
  end.

(** ** [SendCommand] *)
Inductive Response := RespJSON (json : list (string * value)) | RespErr (e : admin_error).

(** What is done with a decoded document: the last response, an error; the end of the
    stream; or a response or nothing, and the next document. *)
Inductive document := DocError (e : admin_error) | DocSuccess | DocJSON (json : list (string * value)) | DocIgnored.

Definition response_of (v : value) : document :=
  match v with
  | VString s => if String.eqb s "Success" then DocSuccess else DocIgnored
  | VObject fields =>
      match object_field "Error" fields with
      | Some errData =>
          match string_field "msg" errData with
          | Some msg => DocError (ResponseError msg)
          | None => DocError (InvalidErrorResponse errData)
          end
      | None =>
          match object_field "Json" fields with
          | Some json => DocJSON json
          | None => DocIgnored
          end
      end
  | _ => DocIgnored
  end.

Section Admin.
Context {J : AdminJSON}.

(** The responses that the goroutine sends before it closes the channel; [None] when the
    fuel runs out, which [responses_total] excludes. *)
Fixpoint responses (fuel : nat) (c : Conn) : option (list Response) :=
  match fuel with
  | O => None
  | S fuel' =>
      match readFrame c with
      | Err e => Some [RespErr e]
      | Ok (data, c') =>
          match decode_any data with
          | None => Some [RespErr UnmarshalResponse]
          | Some v =>
              match response_of v with
              | DocError e => Some [RespErr e]
              | DocSuccess => Some []
              | DocJSON json => cons (RespJSON json) <$> responses fuel' c'
              | DocIgnored => responses fuel' c'
              end
          end
      end
  end.

(** Enough for every document: a frame has at least four bytes. *)
Definition command_fuel (c : Conn) : nat := S (String.length (cn_bytes c)).

(** A socket: it cannot be connected to, it fails the write, or its server answers the
    bytes that are written. *)
Inductive Socket := SocketFails (err : string) | WriteFails (err : string) | Serves (server : string -> Conn).

Definition SendCommand (s : Socket) (cmd : string) : result admin_error (option (list Response)) :=
  match s with
  | SocketFails e => Err (ConnectFailed e)
  | WriteFails e => Err (SendCommandFailed e)
  | Serves server =>
      let c := server (encodeFrame cmd) in Ok (responses (command_fuel c) c)
  end.
End Admin.

(** ** Membership states *)
Definition ntp64ToTime (ntp : Z) : Z :=
  let secs := (ntp / 2 ^ 32) mod 2 ^ 32 in
  let frac := ntp mod 2 ^ 32 in
  let nsecs := frac * 1000000000 / 2 ^ 32 in
  secs * 10 ^ 9 + nsecs.

Inductive parse_error :=
| InvalidID | InvalidAddr | ParseAddrFailed (e : addrport_error)
| InvalidState (s : string) | MissingState | InvalidTs
| InvalidStateObject | InvalidRtts | InvalidRttValue.

Definition parse_state (s : string) : option MemberState :=
  if String.eqb s "Alive" then Some MembershipStateAlive
  else if String.eqb s "Suspect" then Some MembershipStateSuspect
  else if String.eqb s "Down" then Some MembershipStateDown
  else None.

Section Members.
Context {FC : FloatConversion}.

Definition parseClusterMembershipState (json : list (string * value)) : result parse_error ClusterMembershipState :=
  match object_field "id" json with
  | None => Err InvalidID
  | Some idObj =>
      match string_field "id" idObj with
      | None => Err InvalidID
      | Some id =>
          match string_field "addr" idObj with
          | None => Err InvalidAddr
          | Some addr =>
              match ParseAddrPort addr with
              | Err e => Err (ParseAddrFailed e)
              | Ok ap =>
                  match string_field "state" json with
                  | None => Err MissingState
                  | Some stateStr =>
                      match parse_state stateStr with
                      | None => Err (InvalidState stateStr)
                      | Some st =>
                          match number_field "ts" idObj with
                          | None => Err InvalidTs
                          | Some ts =>
                              Ok (mkClusterMembershipState id ap st (ntp64ToTime (float_uint64 ts)))
                          end
                      end
                  end
              end
          end
      end
  end.

(** [latestStates]: a state replaces one of the same member that is older. *)
Definition newer_state (latest : gmap string ClusterMembershipState) (s : ClusterMembershipState) : gmap string ClusterMembershipState :=
  match latest !! cms_ID s with
  | Some existing => if cms_Timestamp existing <? cms_Timestamp s then <[cms_ID s := s]> latest else latest
  | None => <[cms_ID s := s]> latest
  end.

Record memberships := mkMemberships {
  ms_states : list ClusterMembershipState; ms_latest : gmap string ClusterMembershipState; ms_errs : list parse_error }.

Fixpoint states_loop (latest : bool) (rs : list Response) (acc : memberships) : result admin_error memberships :=
  match rs with
  | [] => Ok acc
  | RespErr e :: _ => Err e
  | RespJSON json :: rest =>
      states_loop latest rest
        match parseClusterMembershipState json with
        | Err e => mkMemberships (ms_states acc) (ms_latest acc) (ms_errs acc ++ [e])
        | Ok s =>
            if latest then mkMemberships (ms_states acc) (newer_state (ms_latest acc) s) (ms_errs acc)
            else mkMemberships (ms_states acc ++ [s]) (ms_latest acc) (ms_errs acc)
        end
  end.

(** The states and the joined parse errors, both of which are returned. *)
Definition ClusterMembershipStates `{AdminJSON} `{GoOrder} (site : nat) (latest : bool) (sock : Socket) :
  result admin_error (option (list ClusterMembershipState * list parse_error)) :=
  match SendCommand sock (of_quotes "{'Cluster':'MembershipStates'}") with
  | Err e => Err e
  | Ok None => Ok None
  | Ok (Some rs) =>
      match states_loop latest rs (mkMemberships [] ∅ []) with
      | Err e => Err e
      | Ok m => Ok (Some (if latest then map snd (range_map site (ms_latest m)) else ms_states m, ms_errs m))
      end
  end.

(** ** Round-trip times *)
Definition computeRTTStatsMs `{GoSort} (rtts : list float64) : float64 * float64 :=
  match rtts with
  | [] => (S754_zero false, S754_zero false)
  | _ =>
      let rtts := sort_slice float_less rtts in
      let n := length rtts in
      let at_ i := nth i rtts S754_nan in
      let median := if Nat.eqb (n mod 2) 0 then fdiv (fadd (at_ (n / 2 - 1)%nat) (at_ (n / 2)%nat)) (of_Z 2)
                    else at_ (n / 2)%nat in
      let sum := fold_left fadd rtts (S754_zero false) in
      let avg := fdiv sum (of_Z (Z.of_nat n)) in
      let varianceSum := fold_left (fun acc rtt => let diff := fsub rtt avg in fadd acc (fmul diff diff)) rtts (S754_zero false) in
      (median, fsqrt (fdiv varianceSum (of_Z (Z.of_nat n))))
  end.

Fixpoint rtt_values (vs : list value) : result parse_error (list float64) :=
  match vs with
  | [] => Ok []
  | VNumber f :: rest => match rtt_values rest with Err e => Err e | Ok fs => Ok (f :: fs) end
  | _ :: _ => Err InvalidRttValue
  end.

(** An absent or null [rtts] is no samples. *)
Definition parseClusterMemberRTT (json : list (string * value)) : result parse_error (AddrPort * list float64) :=
  match object_field "state" json with
  | None => Err InvalidStateObject
  | Some stateObj =>
      match string_field "addr" stateObj with
      | None => Err InvalidAddr
      | Some addrStr =>
          match ParseAddrPort addrStr with
          | Err e => Err (ParseAddrFailed e)
          | Ok addr =>
              match field "rtts" json with
              | None | Some VNull => Ok (addr, [])
              | Some (VArray vs) =>
                  match rtt_values vs with Err e => Err e | Ok fs => Ok (addr, fs) end
              | Some _ => Err InvalidRtts
              end
          end
      end
  end.

(** Durations are in nanoseconds. *)
Record MemberRTTStats := mkMemberRTTStats { rtt_Addr : AddrPort; rtt_Median : Z; rtt_StdDev : Z }.

Definition duration_of_ms (ms : float64) : Z := float_int64 (fmul ms (of_Z 1000000)).

Fixpoint rtts_loop `{GoSort} (rs : list Response) (stats : list MemberRTTStats) (errs : list parse_error) :
  result admin_error (list MemberRTTStats * list parse_error) :=
  match rs with
  | [] => Ok (stats, errs)
  | RespErr e :: _ => Err e
  | RespJSON json :: rest =>
      match parseClusterMemberRTT json with
      | Err e => rtts_loop rest stats (errs ++ [e])
      | Ok (_, []) => rtts_loop rest stats errs
      | Ok (addr, rtts) =>
          let (medianMs, stdDevMs) := computeRTTStatsMs rtts in
          rtts_loop rest (stats ++ [mkMemberRTTStats addr (duration_of_ms medianMs) (duration_of_ms stdDevMs)]) errs
      end
  end.

Definition ClusterMemberRTTs `{AdminJSON} `{GoSort} (sock : Socket) :
  result admin_error (option (list MemberRTTStats * list parse_error)) :=
  match SendCommand sock (of_quotes "{'Cluster':'Members'}") with
  | Err e => Err e
  | Ok None => Ok None
  | Ok (Some rs) => match rtts_loop rs [] [] with Err e => Err e | Ok r => Ok (Some r) end
  end.
End Members.

(** ** [ListMachines] of the cluster service *)
Section Listing.
Context `{ProtoJSON} `{FC : FloatConversion} `{J : AdminJSON} `{HO : GoOrder} {W : Type} (corro : Corro W).

(** An error of any kind is one for [ListMachines]. *)
Definition states_answer (r : result admin_error (option (list ClusterMembershipState * list parse_error))) :
  option (list ClusterMembershipState) :=
  match r with Ok (Some (states, [])) => Some states | _ => None end.

Definition ListMachines (site : nat) (c : Cluster) (sock : Socket) (w : W) : nilable cluster_error (list MachineMember) :=
  list_members corro c (states_answer (ClusterMembershipStates site true sock)) w.
End Listing.

(** ** Frames: what is sent is what is read *)
Definition frame_size (data : string) : Prop := Z.of_nat (String.length data) < 2 ^ 32.

Fixpoint frames (texts : list string) (tail : string) : string :=
  match texts with
  | [] => tail
  | d :: rest => encodeFrame d +:+ frames rest tail
  end.

Lemma ReadFull_app n a b e : Z.of_nat (String.length a) = n -> ReadFull n (mkConn (a +:+ b) e) = Ok (a, mkConn b e).
Proof.
  intros <-. unfold ReadFull, take_bytes, drop_bytes. cbn [cn_bytes cn_end].
  rewrite string_app_length, Nat2Z.id, split_at_app. cbn [fst snd].
  destruct (Z.leb_spec (Z.of_nat (String.length a)) (Z.of_nat (String.length a + String.length b))); [done|lia].
Qed.

Lemma readFrame_encodeFrame d rest e : frame_size d ->
  readFrame (mkConn (encodeFrame d +:+ rest) e) = Ok (d, mkConn rest e).
Proof.
  intros Hd. unfold readFrame, encodeFrame, frame_size in *. rewrite string_app_assoc.
  rewrite ReadFull_app by (by rewrite be_bytes_length).
  rewrite be_val_bytes by (change (256 ^ Z.of_nat 4) with (2 ^ 32); apply Z.mod_pos_bound; lia).
  rewrite ReadFull_app by (symmetry; apply Z.mod_small; lia). done.
Qed.

Lemma split_at_concat n : forall s a b, split_at n s = (a, b) -> s = a +:+ b /\ ((n <= String.length s)%nat -> String.length a = n).
Proof.
  induction n as [|n IH]; intros [|c s] a b; cbn [split_at]; try (intros [= <- <-]; split; [done|cbn; lia]).
  destruct (split_at n s) as [a' b'] eqn:Hs. intros [= <- <-]. destruct (IH s a' b' Hs) as [-> Hl].
  split; [done|]. cbn [String.length]. intros Hn. by rewrite Hl by lia.
Qed.

(** What [io.ReadFull] reads is a prefix of what the peer sends; more bytes after it make
    no difference. *)
Lemma ReadFull_prefix n c d c' : 0 <= n -> ReadFull n c = Ok (d, c') ->
  cn_bytes c = d +:+ cn_bytes c' /\ Z.of_nat (String.length d) = n /\ cn_end c' = cn_end c.
Proof.
  intros Hn. unfold ReadFull. destruct (Z.leb_spec n (Z.of_nat (String.length (cn_bytes c)))) as [Hle|]; [|done].
  intros [= <- <-]. cbn [cn_bytes cn_end]. unfold take_bytes, drop_bytes.
  destruct (split_at (Z.to_nat n) (cn_bytes c)) as [a b] eqn:Hs. destruct (split_at_concat _ _ _ _ Hs) as [Hcat Hl].
  cbn [fst snd]. rewrite Hl by lia. split; [done|]. split; [lia|done].
Qed.

Lemma ReadFull_more n c d c' rest : 0 <= n -> ReadFull n c = Ok (d, c') ->
  ReadFull n (mkConn (cn_bytes c +:+ rest) (cn_end c)) = Ok (d, mkConn (cn_bytes c' +:+ rest) (cn_end c')).
Proof.
  intros Hn Hr. destruct (ReadFull_prefix _ _ _ _ Hn Hr) as (Hc & Hl & ->).
  rewrite Hc, string_app_assoc. by apply ReadFull_app.
Qed.

Lemma readFrame_more c d c' rest : readFrame c = Ok (d, c') ->
  readFrame (mkConn (cn_bytes c +:+ rest) (cn_end c)) = Ok (d, mkConn (cn_bytes c' +:+ rest) (cn_end c')).
Proof.
  unfold readFrame. destruct (ReadFull 4 c) as [[head c1]|] eqn:H1; [|done].
  destruct (ReadFull (be_val head) c1) as [[d' c2]|] eqn:H2; [|done]. intros [= -> ->].
  rewrite (ReadFull_more 4 c head c1) by (done || lia). pose proof (be_val_range head).
  by rewrite (ReadFull_more (be_val head) c1 d c') by (done || lia).
Qed.

(** Every frame takes at least the four bytes of its head. *)
Lemma readFrame_shrinks c d c' : readFrame c = Ok (d, c') ->
  (String.length (cn_bytes c') + 4 <= String.length (cn_bytes c))%nat.
Proof.
  unfold readFrame. destruct (ReadFull 4 c) as [[head c1]|] eqn:H1; [|done].
  destruct (ReadFull (be_val head) c1) as [[d' c2]|] eqn:H2; [|done]. intros [= -> ->].
  destruct (ReadFull_prefix 4 _ _ _ ltac:(lia) H1) as (Hc & Hl1 & _). pose proof (be_val_range head).
  destruct (ReadFull_prefix (be_val head) _ _ _ ltac:(lia) H2) as (Hc1 & _ & _). rewrite Hc, Hc1, !string_app_length. lia.
Qed.

(** A connection that ends inside a frame. *)
Lemma readFrame_cut d tail rest e : frame_size d -> encodeFrame d = tail +:+ rest -> rest <> "" ->
  exists err, readFrame (mkConn tail e) = Err err.
Proof.
  intros Hd Heq Hrest. destruct (readFrame (mkConn tail e)) as [[d' c']|err] eqn:Hr; [|by eexists].
  pose proof (readFrame_more _ _ _ rest Hr) as Hmore. cbn [cn_bytes cn_end] in Hmore.
  rewrite <- Heq in Hmore. pose proof (readFrame_encodeFrame d "" e Hd) as Hfull.
  rewrite string_app_nil_r in Hfull. rewrite Hfull in Hmore. injection Hmore as _ Hc.
  destruct (cn_bytes c'), rest; cbn in Hc; congruence.
Qed.

Section Responses.
Context {J : AdminJSON}.

(** The responses to a sequence of documents after which come those of [last]. *)
Fixpoint answers (texts : list string) (last : list Response) : list Response :=
  match texts with
  | [] => last
  | d :: rest =>
      match decode_any d with
      | None => [RespErr UnmarshalResponse]
      | Some v =>
          match response_of v with
          | DocError e => [RespErr e]
          | DocSuccess => []
          | DocJSON json => RespJSON json :: answers rest last
          | DocIgnored => answers rest last
          end
      end
  end.

Lemma responses_frames texts last : Forall frame_size texts -> forall fuel tail e,
  (String.length (frames texts tail) < fuel)%nat ->
  (forall fuel', (String.length tail < fuel')%nat -> responses fuel' (mkConn tail e) = Some last) ->
  responses fuel (mkConn (frames texts tail) e) = Some (answers texts last).
Proof.
  induction 1 as [|d texts Hd Hts IH]; intros fuel tail e Hfuel Hlast; cbn [frames answers] in *; [by apply Hlast|].
  destruct fuel as [|fuel]; [lia|]. cbn [responses].
  rewrite readFrame_encodeFrame by done. rewrite string_app_length in Hfuel.
  assert (0 < String.length (encodeFrame d))%nat by (unfold encodeFrame; rewrite string_app_length, be_bytes_length; lia).
  destruct (decode_any d) as [v|]; [|done]. destruct (response_of v) as [| |json|]; try done.
  - by rewrite (IH fuel tail e) by (lia || done).
  - apply IH; [lia|done].
Qed.

(** A client gets exactly the responses to the documents that are sent before the
    connection ends, and the error of its end unless one of them ends the stream. *)
Lemma responses_complete texts tail e err server cmd : Forall frame_size texts ->
  readFrame (mkConn tail e) = Err err -> server (encodeFrame cmd) = mkConn (frames texts tail) e ->
  SendCommand (Serves server) cmd = Ok (Some (answers texts [RespErr err])).
Proof.
  intros Hts Htail Hs. unfold SendCommand. rewrite Hs. f_equal. unfold command_fuel. cbn [cn_bytes].
  apply responses_frames; [done|lia|]. intros [|fuel'] Hf; [lia|]. cbn [responses]. by rewrite Htail.
Qed.

Lemma responses_total fuel : forall c, (String.length (cn_bytes c) < fuel)%nat -> exists rs, responses fuel c = Some rs.
Proof.
  induction fuel as [|fuel IH]; intros c Hf; [lia|]. cbn [responses].
  destruct (readFrame c) as [[d c']|] eqn:Hr; [|by eexists]. apply readFrame_shrinks in Hr.
  destruct (IH c' ltac:(lia)) as [rs Hrs]. rewrite Hrs.
  destruct (decode_any d) as [v|]; [|by eexists]. destruct (response_of v); by eexists.
Qed.

(** Reading the responses ends for whatever a server sends. *)
Lemma SendCommand_returns s cmd : SendCommand s cmd <> Ok None.
Proof.
  destruct s as [e|e|server]; [done..|]. cbn [SendCommand].
  destruct (responses_total (command_fuel (server (encodeFrame cmd))) (server (encodeFrame cmd))) as [rs Hrs];
    [unfold command_fuel; lia|]. by rewrite Hrs.
Qed.
End Responses.

(** ** The latest membership states *)
Record latest_of (all states : list ClusterMembershipState) : Prop := {
  lo_NoDup : NoDup (map cms_ID states);
  lo_newest : forall s, s ∈ states -> s ∈ all /\ forall t, t ∈ all -> cms_ID t = cms_ID s -> cms_Timestamp t <= cms_Timestamp s;
  lo_all : forall t, t ∈ all -> cms_ID t ∈ map cms_ID states
}.

(** The entries of [latestStates] after the states [all]. *)
Definition latest_entries (all : list ClusterMembershipState) (m : gmap string ClusterMembershipState) : Prop :=
  (forall k s, m !! k = Some s -> cms_ID s = k /\ s ∈ all /\
    forall t, t ∈ all -> cms_ID t = k -> cms_Timestamp t <= cms_Timestamp s) /\
  (forall t, t ∈ all -> is_Some (m !! cms_ID t)).

Lemma newer_state_entries all m s : latest_entries all m -> latest_entries (all ++ [s]) (newer_state m s).
Proof.
  intros [Hnew Hall]. unfold newer_state.
  assert (Hins : (forall existing, m !! cms_ID s = Some existing -> cms_Timestamp existing <= cms_Timestamp s) ->
    latest_entries (all ++ [s]) (<[cms_ID s := s]> m)).
  { intros Hle. split.
    - intros k s'. destruct (decide (k = cms_ID s)) as [->|Hne].
      + rewrite lookup_insert_eq. intros [= <-]. split; [done|]. split; [set_solver|].
        intros t [Ht| ->%list_elem_of_singleton]%elem_of_app Hid; [|lia].
        destruct (Hall t Ht) as [e He]. rewrite Hid in He. specialize (Hle e He).
        destruct (Hnew _ _ He) as (_ & _ & Hmax). specialize (Hmax t Ht Hid). lia.
      + rewrite lookup_insert_ne by done. intros Hs'. destruct (Hnew _ _ Hs') as (Hk & Hin & Hmax).
        split; [done|]. split; [set_solver|].
        intros t [Ht| ->%list_elem_of_singleton]%elem_of_app Hid; [by apply Hmax|congruence].
    - intros t [Ht| ->%list_elem_of_singleton]%elem_of_app; rewrite lookup_insert; case_decide; eauto; done. }
  destruct (m !! cms_ID s) as [e|] eqn:He; [|by apply Hins].
  destruct (Z.ltb_spec (cms_Timestamp e) (cms_Timestamp s)); [apply Hins; intros ? [= <-]; lia|]. split.
  - intros k s' Hs'. destruct (Hnew _ _ Hs') as (Hk & Hin & Hmax). split; [done|]. split; [set_solver|].
    intros t [Ht| ->%list_elem_of_singleton]%elem_of_app Hid; [by apply Hmax|]. rewrite Hid in He. congruence || (assert (s' = e) by congruence; subst; lia).
  - intros t [Ht| ->%list_elem_of_singleton]%elem_of_app; eauto.
Qed.

Lemma latest_entries_of `{GoOrder} site all m : latest_entries all m -> latest_of all (map snd (range_map site m)).
Proof.
  intros [Hnew Hall].
  assert (Hin : forall s, s ∈ map snd (range_map site m) <-> m !! cms_ID s = Some s).
  { intros s. rewrite list_elem_of_fmap. split.
    - intros ([k s'] & -> & Hk%elem_of_range_map). cbn. by destruct (Hnew _ _ Hk) as (-> & _).
    - intros Hs. exists (cms_ID s, s). split; [done|]. by apply elem_of_range_map. }
  split.
  - assert (Hids : map cms_ID (map snd (range_map site m)) = map fst (range_map site m)).
    { rewrite map_map. apply map_ext_in. intros [k s] Hks%list_elem_of_In%elem_of_range_map. cbn.
      by destruct (Hnew _ _ Hks) as (-> & _). }
    rewrite Hids. unfold range_map. rewrite any_order_perm. apply NoDup_fst_map_to_list.
  - intros s Hs%Hin. destruct (Hnew _ _ Hs) as (_ & Hs' & Hmax). split; [done|]. intros t Ht Hid. by apply Hmax.
  - intros t Ht. destruct (Hall t Ht) as [s Hs]. destruct (Hnew _ _ Hs) as (Hid & _).
    rewrite <- Hid. apply list_elem_of_fmap. exists s. split; [done|]. apply Hin. by rewrite Hid.
Qed.

(** ** What a connection tells *)
Section Answers.
Context {J : AdminJSON} {FC : FloatConversion}.

(** The JSON object a document carries. *)
Definition carried (d : string) : option (list (string * value)) :=
  v ← decode_any d; match response_of v with DocJSON json => Some json | _ => None end.

(** A document that neither ends the stream nor is an error. *)
Definition passes (d : string) : Prop :=
  exists v, decode_any d = Some v /\ (response_of v = DocIgnored \/ exists json, response_of v = DocJSON json).

Definition parsed_states (jsons : list (list (string * value))) : list ClusterMembershipState :=
  omap (fun json => match parseClusterMembershipState json with Ok s => Some s | Err _ => None end) jsons.
Definition parse_errors (jsons : list (list (string * value))) : list parse_error :=
  omap (fun json => match parseClusterMembershipState json with Ok _ => None | Err e => Some e end) jsons.

Lemma answers_passes texts last : Forall passes texts -> answers texts last = map RespJSON (omap carried texts) ++ last.
Proof.
  induction 1 as [|d texts (v & Hv & Hp) _ IH]; [done|]. cbn [answers]. rewrite Hv, omap_cons_eq. unfold carried at 1. rewrite Hv. cbn.
  destruct Hp as [->|[json ->]]; cbn; by rewrite IH.
Qed.

Lemma states_loop_spec latest rest jsons : forall acc, states_loop latest (map RespJSON jsons ++ rest) acc =
  states_loop latest rest (mkMemberships
    (if latest then ms_states acc else ms_states acc ++ parsed_states jsons)
    (if latest then fold_left newer_state (parsed_states jsons) (ms_latest acc) else ms_latest acc)
    (ms_errs acc ++ parse_errors jsons)).
Proof.
  induction jsons as [|json jsons IH]; intros [st m errs].
  - cbn. rewrite !app_nil_r. by destruct latest.
  - cbn [map app states_loop]. unfold parsed_states, parse_errors. rewrite !omap_cons_eq.
    destruct (parseClusterMembershipState json) as [s|e]; [destruct latest|]; rewrite IH; cbn [ms_states ms_latest ms_errs];
      unfold parsed_states, parse_errors; cbn; by rewrite ?app_assoc_reverse.
Qed.

Lemma latest_entries_fold sts : forall all m, latest_entries all m -> latest_entries (all ++ sts) (fold_left newer_state sts m).
Proof.
  induction sts as [|s sts IH]; intros all m Hm; cbn [fold_left]; [by rewrite app_nil_r|].
  rewrite (assoc_L (++) all [s] sts : all ++ s :: sts = _). by apply IH, newer_state_entries.
Qed.

Definition membership_command : string := of_quotes "{'Cluster':'MembershipStates'}".

Section Connection.
Context {HO : GoOrder} (site : nat) (server : string -> Conn) (texts : list string) (tail e : string).
Hypothesis Hsize : Forall frame_size texts.
Hypothesis Hpass : Forall passes texts.
Hypothesis Hserver : server (encodeFrame membership_command) = mkConn (frames texts tail) e.
Let all := parsed_states (omap carried texts).

(** When the server says that it has told everything, the states of the members are the
    latest of those it told, one for each member, whatever else it sends. *)
Lemma ClusterMembershipStates_latest done rest : frame_size done -> decode_any done = Some (VString "Success") ->
  tail = encodeFrame done +:+ rest ->
  exists states, ClusterMembershipStates site true (Serves server) = Ok (Some (states, parse_errors (omap carried texts))) /\
    latest_of all states.
Proof.
  intros Hd Hdone ->. unfold ClusterMembershipStates, SendCommand. fold membership_command. rewrite Hserver.
  rewrite (responses_frames texts []); [|done|unfold command_fuel; cbn [cn_bytes]; lia|].
  2: { intros [|fuel'] Hf; [lia|]. cbn [responses]. rewrite readFrame_encodeFrame by done. by rewrite Hdone. }
  rewrite answers_passes by done. rewrite states_loop_spec. cbn [states_loop ms_states ms_latest ms_errs app].
  eexists. split; [done|]. apply latest_entries_of. apply (latest_entries_fold all [] ∅). split.
  - intros k s Hs. by rewrite lookup_empty in Hs.
  - intros t Ht. by apply elem_of_nil in Ht.
Qed.

(** Without the filter they are all of them, in order. *)
Lemma ClusterMembershipStates_all done rest : frame_size done -> decode_any done = Some (VString "Success") ->
  tail = encodeFrame done +:+ rest ->
  ClusterMembershipStates site false (Serves server) = Ok (Some (all, parse_errors (omap carried texts))).
Proof.
  intros Hd Hdone ->. unfold ClusterMembershipStates, SendCommand. fold membership_command. rewrite Hserver.
  rewrite (responses_frames texts []); [|done|unfold command_fuel; cbn [cn_bytes]; lia|].
  2: { intros [|fuel'] Hf; [lia|]. cbn [responses]. rewrite readFrame_encodeFrame by done. by rewrite Hdone. }
  rewrite answers_passes by done. by rewrite states_loop_spec.
Qed.

(** A connection that ends before that, at the end of a frame or inside one, is an error:
    part of the members are never taken for all of them. *)
Lemma ClusterMembershipStates_cut latest : (tail = "" \/ exists d rest, frame_size d /\ encodeFrame d = tail +:+ rest /\ rest <> "") ->
  exists err, ClusterMembershipStates site latest (Serves server) = Err err.
Proof.
  intros Htail. assert (exists err, readFrame (mkConn tail e) = Err err) as [err Herr].
  { destruct Htail as [->|(d & rest & Hd & Heq & Hne)]; [by eexists|by eapply readFrame_cut]. }
  exists err. unfold ClusterMembershipStates. fold membership_command.
  rewrite (responses_complete texts tail e err server) by done.
  rewrite answers_passes by done. by rewrite states_loop_spec.
Qed.
End Connection.
End Answers.

(** ** Timestamps *)
Lemma ntp64ToTime_mono a b : 0 <= a -> a <= b -> b < 2 ^ 64 -> ntp64ToTime a <= ntp64ToTime b.
Proof.
  intros Ha Hab Hb. unfold ntp64ToTime.
  assert (Ha' : a / 2 ^ 32 < 2 ^ 32) by (apply Z.div_lt_upper_bound; lia).
  assert (Hb' : b / 2 ^ 32 < 2 ^ 32) by (apply Z.div_lt_upper_bound; lia).
  pose proof (Z.div_pos a (2 ^ 32) Ha eq_refl). pose proof (Z.div_le_mono a b (2 ^ 32) eq_refl Hab).
  rewrite (Z.mod_small (a / 2 ^ 32)), (Z.mod_small (b / 2 ^ 32)) by lia.
  pose proof (Z.mod_pos_bound a (2 ^ 32) eq_refl). pose proof (Z.mod_pos_bound b (2 ^ 32) eq_refl).
  destruct (Z.eq_dec (a / 2 ^ 32) (b / 2 ^ 32)) as [Heq|Hne].
  - rewrite Heq. apply Z.add_le_mono_l, Z.div_le_mono; [lia|]. apply Z.mul_le_mono_nonneg_r; [lia|].
    pose proof (Z.div_mod a (2 ^ 32)). pose proof (Z.div_mod b (2 ^ 32)). lia.
  - assert (a mod 2 ^ 32 * 1000000000 / 2 ^ 32 < 10 ^ 9) by (apply Z.div_lt_upper_bound; lia).
    assert (0 <= b mod 2 ^ 32 * 1000000000 / 2 ^ 32) by (apply Z.div_pos; lia). lia.
Qed.

(** ** Concrete runs *)
Module Runs.
#[local] Existing Instance go_identity_order.
#[local] Existing Instance go_insertion_sort.

#[local] Instance no_unfit : FloatConversion := {| unfit_uint64 := fun _ => 0; unfit_int64 := fun _ => 0 |}.

Definition member_json (id addr state : string) (ts : Z) : value :=
  VObject [("Json", VObject [
    ("id", VObject [("addr", VString addr); ("cluster_id", VNumber (of_Z 0)); ("id", VString id); ("ts", VNumber (of_Z ts))]);
    ("incarnation", VNumber (of_Z 0)); ("state", VString state)])].

(** Texts of a connection, and what they decode to. *)
#[local] Instance documents : AdminJSON := {| decode_any := fun s =>
  if String.eqb s "a-down" then Some (member_json "a" "[fdcc::1]:51001" "Down" 7435936225798880256)
  else if String.eqb s "a-alive" then Some (member_json "a" "[fdcc::1]:51001" "Alive" 7435936229798880256)
  else if String.eqb s "b" then Some (member_json "b" "[fdcc::2]:51001" "Suspect" 7435936225798880256)
  else if String.eqb s "c" then Some (member_json "c" "10.0.0.1:65536" "Suspect" 7435936225798880256)
  else if String.eqb s "rtts" then Some (VObject [("Json", VObject [
    ("state", VObject [("addr", VString "[fdcc::2]:51001")]); ("rtts", VArray (map (fun n => VNumber (of_Z n)) [5; 1; 2; 4]))])])
  else if String.eqb s "failed" then Some (VObject [("Error", VObject [("msg", VString "no such command")])])
  else if String.eqb s "done" then Some (VString "Success")
  else None |}.

Definition serves (texts : list string) : Socket := Serves (fun _ => mkConn (frames texts "") EOF).

(** The later of the two states of [a] is kept; an address that does not parse is reported. *)
Example latest_membership : ClusterMembershipStates 0 true (serves ["a-alive"; "a-down"; "b"; "c"; "done"]) = Ok (Some
  ([mkClusterMembershipState "a" (mkAddrPort (Addr6 (64972 * 2 ^ 112 + 1) "") 51001) MembershipStateAlive 1731313818553201913;
    mkClusterMembershipState "b" (mkAddrPort (Addr6 (64972 * 2 ^ 112 + 2) "") 51001) MembershipStateSuspect 1731313817621879339],
   [ParseAddrFailed InvalidPort])).
Proof. vm_compute. reflexivity. Qed.

Example command_failures :
  ClusterMembershipStates 0 true (serves ["b"; "failed"; "done"]) = Err (ResponseError "no such command") /\
  ClusterMembershipStates 0 true (serves ["b"]) = Err (ReadFrameHead EOF) /\
  ClusterMembershipStates 0 true (serves ["b"; "what"]) = Err UnmarshalResponse.
Proof. split; [|split]; vm_compute; reflexivity. Qed.

(** The samples 1, 2, 4 and 5 ms: their median is 3 ms, their deviation [sqrt 2.5] ms. *)
Example round_trip_times : ClusterMemberRTTs (serves ["rtts"; "done"]) = Ok (Some
  ([mkMemberRTTStats (mkAddrPort (Addr6 (64972 * 2 ^ 112 + 2) "") 51001) 3000000 1581138], [])).
Proof. vm_compute. reflexivity. Qed.

(** A timestamp passes through a [float64]: those that are within some hundred nanoseconds
    of each other can become the same, and the first one that is told is kept. *)
Example timestamps_are_rounded :
  float_uint64 (of_Z 7435936225798880256) = float_uint64 (of_Z (7435936225798880256 + 500)) /\
  ntp64ToTime 7435936225798880256 < ntp64ToTime (7435936225798880256 + 500).
Proof. split; vm_compute; reflexivity. Qed.

Example witness_conditions :
  Forall frame_size ["a-alive"; "a-down"; "b"; "c"] /\ Forall passes ["a-alive"; "a-down"; "b"; "c"].
Proof.
  split; repeat constructor; eexists; (split; [vm_compute; reflexivity|]); right; eexists; vm_compute; reflexivity.
Qed.
End Runs.
