(* ===== verification/Network.v ===== *)
(** * Network: the WireGuard network of a machine, [internal/machine/network]

    [peer.go], [config.go] and the control loop of [wireguard_linux.go]: the status of a
    peer, the rotation of its endpoints, and the configuration of the device.

    Endpoints are pointers in the code, which compares them as pointers in two places; a
    pointer is its location and the value there, nothing being ever written through one.
    Instants are nanoseconds; the readings of the clock within one call are one [now]. *)

From S2P Require Import Prelude GoStrings NetAddr.
#[local] Open Scope string_scope.
#[local] Open Scope list_scope.
#[local] Open Scope Z_scope.
#[local] Open Scope go_scope.

(** ** Time *)
Definition second : Z := 1000000000.
Definition zero_time : Z := -62135596800 * second.

(** [time.Since]: the difference saturates. *)
Definition since (now t : Z) : Z := Z.max (- 2 ^ 63) (Z.min (2 ^ 63 - 1) (now - t)).

(** ** Endpoints and their pointers *)
(** A variable of its own, or an element of a slice. *)
Inductive location := Own (n : nat) | Element (slice i : nat).
#[global] Instance location_eq_dec : EqDecision location.
Proof. solve_decision. Defined.

Record pointer := mkPtr { loc : location; deref : AddrPort }.
(** [p == q] on pointers that may be nil. *)
Definition same_pointer (p q : option pointer) : bool :=
  match p, q with
  | None, None => true
  | Some p, Some q => bool_decide (loc p = loc q)
  | _, _ => false
  end.

Record Endpoints := mkEndpoints { slice_id : nat; addrs : list AddrPort }.
(** [&s[0]] *)
Definition first_element (s : Endpoints) : option pointer :=
  match addrs s with [] => None | a :: _ => Some (mkPtr (Element (slice_id s) 0) a) end.

(** ** Configurations *)
Record PeerConfig := mkPeerConfig {
  pc_Subnet : option prefix; pc_ManagementIP : addr; pc_Endpoint : option pointer;
  pc_AllEndpoints : Endpoints; pc_PublicKey : string
}.

Definition with_endpoint (c : PeerConfig) (p : pointer) : PeerConfig :=
  mkPeerConfig (pc_Subnet c) (pc_ManagementIP c) (Some p) (pc_AllEndpoints c) (pc_PublicKey c).

(** The fields of [Config] the network is configured from. *)
Record Config := mkConfig {
  cf_Subnet : prefix; cf_ManagementIP : addr; cf_WireGuardPort : Z; cf_MTU : Z;
  cf_PrivateKey : option string; cf_PublicKey : option string; cf_Peers : list PeerConfig
}.

Definition DefaultWireGuardPort : Z := 51820.
Definition MaxWireGuardMTU : Z := 1420.

Definition IsConfigured (c : Config) : bool :=
  negb (bool_decide (cf_Subnet c = NoPrefix)) && negb (bool_decide (cf_ManagementIP c = NoAddr)) &&
  match cf_PrivateKey c, cf_PublicKey c with Some _, Some _ => true | _, _ => false end.
Definition EffectiveWireGuardPort (c : Config) : Z := if cf_WireGuardPort c =? 0 then DefaultWireGuardPort else cf_WireGuardPort c.
Definition EffectiveMTU (c : Config) : Z := if cf_MTU c =? 0 then MaxWireGuardMTU else cf_MTU c.

Definition addrToSingleIPPrefix (a : addr) : option prefix :=
  if IsValid a then Some (prefix_Masked (PrefixFrom a (if Is6 a then 128 else 32))) else None.

Definition MachineIP (subnet : prefix) : addr := addr_Next (prefix_addr (prefix_Masked subnet)).

(** [PeerConfig.prefixes] *)
Definition prefixes (c : PeerConfig) : option (list prefix) :=
  (fun m => m :: match pc_Subnet c with Some s => [s] | None => [] end) <$> addrToSingleIPPrefix (pc_ManagementIP c).

(** ** Peers *)
Inductive PeerStatus := PeerStatusUnknown | PeerStatusUp | PeerStatusDown.
#[global] Instance PeerStatus_eq_dec : EqDecision PeerStatus.
Proof. solve_decision. Defined.

Record peer := mkPeer {
  p_config : PeerConfig; lastEndpointChangeTime : Z; lastHandshakeTime : Z;
  receiveBytes : Z; transmitBytes : Z; status : PeerStatus
}.

(** [wgtypes.Peer], as far as it is read. *)
Record WgPeer := mkWgPeer {
  wg_PublicKey : string; wg_Endpoint : option AddrPort; wg_LastHandshakeTime : Z; wg_ReceiveBytes : Z; wg_TransmitBytes : Z
}.

Definition newPeer (now : Z) (c : PeerConfig) (wg : option WgPeer) : peer :=
  let changed :=
    match pc_Endpoint c with
    | None => zero_time
    | Some e =>
        match wg with
        | Some wg => match wg_Endpoint wg with
                     | Some a => if decide (deref e = a) then zero_time else now
                     | None => now
                     end
        | None => now
        end
    end in
  mkPeer c changed zero_time 0 0 PeerStatusUnknown.

Definition updateConfig (now : Z) (c : PeerConfig) (p : peer) : peer :=
  let same := same_pointer (pc_Endpoint (p_config p)) (pc_Endpoint c) in
  mkPeer c (if same then lastEndpointChangeTime p else now) (lastHandshakeTime p) (receiveBytes p) (transmitBytes p)
    (if same then status p else PeerStatusUnknown).

Definition endpointConnectionTimeout : Z := 15 * second.
Definition peerDownInterval : Z := (180 + 5 + 90) * second.

(** The status of a peer from the times of its last handshake and endpoint change. *)
Definition current_status (now : Z) (p : peer) : PeerStatus :=
  let sinceLastHandshake := since now (lastHandshakeTime p) in
  let sinceEndpointChange := since now (lastEndpointChangeTime p) in
  let after := lastEndpointChangeTime p <? lastHandshakeTime p in
  let s :=
    if peerDownInterval <? sinceEndpointChange
    then if sinceLastHandshake <? peerDownInterval then PeerStatusUp else PeerStatusDown
    else if sinceEndpointChange <? endpointConnectionTimeout
    then if after then PeerStatusUp else PeerStatusUnknown
    else if after then PeerStatusUp else PeerStatusDown in
  match s, pc_Endpoint (p_config p) with
  | PeerStatusDown, None => PeerStatusUnknown
  | _, _ => s
  end.

Definition calculateStatus (now : Z) (p : peer) : peer :=
  mkPeer (p_config p) (lastEndpointChangeTime p) (lastHandshakeTime p) (receiveBytes p) (transmitBytes p)
    (current_status now p).

(** [updateFromDevice]; [fresh] is the location of the variable a new endpoint is in. *)
Definition updateFromDevice (now : Z) (fresh : location) (wg : WgPeer) (p : peer) : peer * bool :=
  let changed :=
    match wg_Endpoint wg with
    | None => None
    | Some a => match pc_Endpoint (p_config p) with
                | None => Some a
                | Some e => if decide (deref e = a) then None else Some a
                end
    end in
  let config := match changed with Some a => with_endpoint (p_config p) (mkPtr fresh a) | None => p_config p end in
  let changeTime := match changed with Some _ => zero_time | None => lastEndpointChangeTime p end in
  (calculateStatus now
     (mkPeer config changeTime (wg_LastHandshakeTime wg) (wg_ReceiveBytes wg) (wg_TransmitBytes wg) (status p)),
   match changed with Some _ => true | None => false end).

Fixpoint index_of (a : AddrPort) (l : list AddrPort) : option nat :=
  match l with
  | [] => None
  | b :: l => if decide (b = a) then Some O else S <$> index_of a l
  end.

(** The endpoint to rotate to: the one after the current one, the first if it is unknown. *)
Definition next_endpoint (all : list AddrPort) (current : AddrPort) : option AddrPort :=
  let idx := match index_of current all with Some i => Z.of_nat i | None => -1 end in
  all !! Z.to_nat ((idx + 1) mod Z.of_nat (length all)).

(** [shouldChangeEndpoint]: the endpoint to change to, if any. *)
Definition shouldChangeEndpoint (p : peer) : option AddrPort :=
  let all := addrs (pc_AllEndpoints (p_config p)) in
  match pc_Endpoint (p_config p) with
  | Some e =>
      if negb (bool_decide (status p = PeerStatusDown)) then None
      else if Nat.eqb (length all) 0 then None
      else if Nat.eqb (length all) 1 && same_pointer (Some e) (first_element (pc_AllEndpoints (p_config p))) then None
      else next_endpoint all (deref e)
  | None => match all with [] => None | a :: _ => Some a end
  end.

(** ** The device configuration *)
Record WgPeerConfig := mkWgPeerConfig {
  wc_PublicKey : string; wc_Remove : bool; wc_UpdateOnly : bool; wc_ReplaceAllowedIPs : bool;
  wc_AllowedIPs : list prefix; wc_Endpoint : option AddrPort; wc_PersistentKeepalive : option Z
}.
Record WgConfig := mkWgConfig { wgc_PrivateKey : option string; wgc_ListenPort : option Z; wgc_Peers : list WgPeerConfig }.

Definition WireGuardKeepaliveInterval : Z := 25 * second.

Inductive config_error := BadPrivateKey | BadPublicKey (key : string) | BadManagementIP (a : addr).

Section Device.
(** [wgtypes.NewKey] accepts the bytes of a key. *)
Context (valid_key : string -> bool).

Definition peer_device_config (c : PeerConfig) : result config_error WgPeerConfig :=
  if negb (valid_key (pc_PublicKey c)) then Err (BadPublicKey (pc_PublicKey c))
  else match addrToSingleIPPrefix (pc_ManagementIP c) with
       | None => Err (BadManagementIP (pc_ManagementIP c))
       | Some m => Ok (mkWgPeerConfig (pc_PublicKey c) false false true
                         (m :: match pc_Subnet c with Some s => [s] | None => [] end)
                         (deref <$> pc_Endpoint c) (Some WireGuardKeepaliveInterval))
       end.

Definition remove_peer (key : string) : WgPeerConfig := mkWgPeerConfig key true false false [] None None.

Definition toDeviceConfig (c : Config) (current : list WgPeer) : result config_error WgConfig :=
  if negb (match cf_PrivateKey c with Some k => valid_key k | None => valid_key "" end) then Err BadPrivateKey
  else
    let! peers := map_ok peer_device_config (cf_Peers c) in
    let keys := map wc_PublicKey peers in
    let removed := filter (fun k => k ∉ keys) (map wg_PublicKey current) in
    Ok (mkWgConfig (cf_PrivateKey c) (Some (EffectiveWireGuardPort c)) (peers ++ map remove_peer removed)).

(** ** The network *)

(** The peers by public key (nil until the first configuration) and the number of variables
    allocated for endpoints. *)
Record Network := mkNetwork { n_peers : gomap peer; n_fresh : nat }.

(** The first configuration: the peers are reconstructed from the device. *)
Definition initial_peers (now : Z) (configs : list PeerConfig) (current : list WgPeer) : gmap string peer :=
  let wgPeers : gmap string WgPeer := fold_left (fun m w => <[wg_PublicKey w := w]> m) current ∅ in
  fold_left (fun ps c => <[pc_PublicKey c := newPeer now c (wgPeers !! pc_PublicKey c)]> ps) configs ∅.

Definition configure_peer (now : Z) (peers : gmap string peer) (c : PeerConfig) : gmap string peer :=
  match peers !! pc_PublicKey c with
  | Some p => <[pc_PublicKey c := updateConfig now c p]> peers
  | None => <[pc_PublicKey c := newPeer now c None]> peers
  end.

(** The peers after the part of [configureDevice] before the device is touched. *)
Definition configured_peers (now : Z) (configs : list PeerConfig) (current : list WgPeer) (peers : gomap peer) :
  gmap string peer :=
  let start := match peers with Some ps => ps | None => initial_peers now configs current end in
  let updated := fold_left (configure_peer now) configs start in
  filter (fun kp => kp.1 ∈ map pc_PublicKey configs) updated.

Section Loop.
Context {W E : Type}.

(** The device: its peers, and the application of a configuration to it. *)
Context (Device : W -> result E (list WgPeer)) (ConfigureDevice : WgConfig -> W -> W * result E unit).

Inductive network_error := DeviceFailed (e : E) | ConfigFailed (e : config_error) | ApplyFailed (e : E) | BadPeerKey (key : string).

Definition configureDevice (now : Z) (c : Config) (n : Network) (w : W) : Network * W * result network_error unit :=
  match Device w with
  | Err e => (n, w, Err (DeviceFailed e))
  | Ok current =>
      let n := mkNetwork (Some (configured_peers now (cf_Peers c) current (n_peers n))) (n_fresh n) in
      match toDeviceConfig c current with
      | Err e => (n, w, Err (ConfigFailed e))
      | Ok wgConfig =>
          match ConfigureDevice wgConfig w with
          | (w, Err e) => (n, w, Err (ApplyFailed e))
          | (w, Ok _) => (n, w, Ok tt)
          end
      end
  end.

Record EndpointChangeEvent := mkEvent { ev_PublicKey : string; ev_Endpoint : AddrPort }.

(** One peer of the device in [updatePeersFromDevice]. *)
Definition update_from (now : Z) (acc : Network * list EndpointChangeEvent) (wg : WgPeer) : Network * list EndpointChangeEvent :=
  let (n, events) := acc in
  match entries (n_peers n) !! wg_PublicKey wg with
  | None => (n, events)
  | Some p =>
      let (p', changed) := updateFromDevice now (Own (n_fresh n)) wg p in
      let events := if changed then match pc_Endpoint (p_config p') with
                                    | Some e => events ++ [mkEvent (wg_PublicKey wg) (deref e)]
                                    | None => events
                                    end else events in
      (mkNetwork (Some (<[wg_PublicKey wg := p']> (entries (n_peers n)))) (S (n_fresh n)), events)
  end.

Definition updatePeersFromDevice (now : Z) (n : Network) (w : W) :
  Network * result network_error (list EndpointChangeEvent) :=
  match Device w with
  | Err e => (n, Err (DeviceFailed e))
  | Ok current => let (n, events) := fold_left (update_from now) current (n, []) in (n, Ok events)
  end.

(** The loop of [changeWireGuardEndpoints] over the peers, in the order of the range. *)
Fixpoint change_loop (now : Z) (todo : list (string * peer)) (n : Network) (changes : list (string * AddrPort)) :
  Network * result network_error (list (string * AddrPort)) :=
  match todo with
  | [] => (n, Ok changes)
  | (key, p) :: rest =>
      match shouldChangeEndpoint p with
      | None => change_loop now rest n changes
      | Some a =>
          let p' := updateConfig now (with_endpoint (p_config p) (mkPtr (Own (n_fresh n)) a)) p in
          let n := mkNetwork (Some (<[key := p']> (entries (n_peers n)))) (S (n_fresh n)) in
          if negb (valid_key (pc_PublicKey (p_config p))) then (n, Err (BadPeerKey (pc_PublicKey (p_config p))))
          else change_loop now rest n (changes ++ [(pc_PublicKey (p_config p), a)])
      end
  end.

Definition endpoint_patch (changes : list (string * AddrPort)) : WgConfig :=
  mkWgConfig None None (map (fun ka => mkWgPeerConfig ka.1 false true false [] (Some ka.2) None) changes).

Definition changeWireGuardEndpoints `{GoOrder} (site : nat) (now : Z) (n : Network) (w : W) :
  Network * W * result network_error (list EndpointChangeEvent) :=
  match change_loop now (range_map site (entries (n_peers n))) n [] with
  | (n, Err e) => (n, w, Err e)
  | (n, Ok []) => (n, w, Ok [])
  | (n, Ok changes) =>
      match ConfigureDevice (endpoint_patch changes) w with
      | (w, Err e) => (n, w, Err (ApplyFailed e))
      | (w, Ok _) => (n, w, Ok (map (fun ka => mkEvent ka.1 ka.2) changes))
      end
  end.

(** A tick of [Run]: both steps, whose errors are only logged; the events for the watchers. *)
Definition tick `{GoOrder} (site : nat) (now : Z) (n : Network) (w : W) : Network * W * list EndpointChangeEvent :=
  let (n, r1) := updatePeersFromDevice now n w in
  let '(n, w, r2) := changeWireGuardEndpoints site now n w in
  (n, w, match r1 with Ok evs => evs | Err _ => [] end ++ match r2 with Ok evs => evs | Err _ => [] end).
End Loop.
End Device.

(** ** Status *)
Lemma since_lt now t x : - 2 ^ 63 < x < 2 ^ 63 - 1 -> (since now t < x <-> now - t < x).
Proof. unfold since. lia. Qed.

Lemma since_gt now t x : - 2 ^ 63 < x < 2 ^ 63 - 1 -> (x < since now t <-> x < now - t).
Proof. unfold since. lia. Qed.

(** A peer with an endpoint and no handshake since it was set is unknown for the connection
    timeout and down from then on. *)
Lemma silent_status now p e : pc_Endpoint (p_config p) = Some e ->
  lastHandshakeTime p <= lastEndpointChangeTime p ->
  current_status now p =
    if now - lastEndpointChangeTime p <? endpointConnectionTimeout then PeerStatusUnknown else PeerStatusDown.
Proof.
  intros He Hh. unfold current_status. rewrite He.
  assert (Hd : - 2 ^ 63 < peerDownInterval < 2 ^ 63 - 1) by (unfold peerDownInterval, second; lia).
  assert (Hc : - 2 ^ 63 < endpointConnectionTimeout < 2 ^ 63 - 1) by (unfold endpointConnectionTimeout, second; lia).
  pose proof (since_gt now (lastEndpointChangeTime p) _ Hd) as Hgt.
  pose proof (since_lt now (lastEndpointChangeTime p) _ Hc) as Hlt.
  pose proof (since_lt now (lastHandshakeTime p) _ Hd) as Hhs.
  assert (Hcd : endpointConnectionTimeout < peerDownInterval) by (unfold endpointConnectionTimeout, peerDownInterval, second; lia).
  destruct (Z.ltb_spec (lastEndpointChangeTime p) (lastHandshakeTime p)) as [|_]; [lia|].
  destruct (Z.ltb_spec peerDownInterval (since now (lastEndpointChangeTime p))) as [H1|H1].
  - destruct (Z.ltb_spec (since now (lastHandshakeTime p)) peerDownInterval) as [H2|H2]; [lia|].
    by destruct (Z.ltb_spec (now - lastEndpointChangeTime p) endpointConnectionTimeout); [lia|].
  - destruct (Z.ltb_spec (since now (lastEndpointChangeTime p)) endpointConnectionTimeout);
      destruct (Z.ltb_spec (now - lastEndpointChangeTime p) endpointConnectionTimeout); done || lia.
Qed.

(** With a handshake since the endpoint was set, a peer is up until that handshake is too
    old, or the endpoint was set recently. *)
Lemma handshake_status now p : lastEndpointChangeTime p < lastHandshakeTime p ->
  current_status now p = PeerStatusUp \/
  peerDownInterval <= now - lastHandshakeTime p /\ peerDownInterval < now - lastEndpointChangeTime p.
Proof.
  intros Hh. unfold current_status. assert (Hd : - 2 ^ 63 < peerDownInterval < 2 ^ 63 - 1) by (unfold peerDownInterval, second; lia).
  pose proof (since_gt now (lastEndpointChangeTime p) _ Hd) as Hgt.
  pose proof (since_lt now (lastHandshakeTime p) _ Hd) as Hhs.
  destruct (Z.ltb_spec (lastEndpointChangeTime p) (lastHandshakeTime p)) as [_|]; [|lia].
  destruct (Z.ltb_spec peerDownInterval (since now (lastEndpointChangeTime p))) as [H1|H1].
  - destruct (Z.ltb_spec (since now (lastHandshakeTime p)) peerDownInterval) as [H2|H2]; [by left|right; lia].
  - left. by destruct (_ <? endpointConnectionTimeout).
Qed.

(** ** Configuration *)
Definition dom_is (peers : gmap string peer) (configs : list PeerConfig) : Prop :=
  forall k, is_Some (peers !! k) <-> k ∈ map pc_PublicKey configs.

Lemma configure_fold now configs : forall start k,
  (k ∈ map pc_PublicKey configs -> exists c p, c ∈ configs /\ pc_PublicKey c = k /\
     fold_left (configure_peer now) configs start !! k = Some p /\ p_config p = c) /\
  (k ∉ map pc_PublicKey configs -> fold_left (configure_peer now) configs start !! k = start !! k).
Proof.
  induction configs as [|c configs IH] using rev_ind; intros start k.
  { split; [by intros ?%not_elem_of_nil|done]. }
  rewrite fold_left_app, map_app. cbn [fold_left map]. set (ps := fold_left (configure_peer now) configs start).
  assert (Hins : exists p, configure_peer now ps c = <[pc_PublicKey c := p]> ps /\ p_config p = c).
  { unfold configure_peer. destruct (ps !! pc_PublicKey c); by eexists. }
  destruct Hins as (p & -> & Hp). destruct (IH start k) as [IH1 IH2]. fold ps in IH1, IH2.
  destruct (decide (pc_PublicKey c = k)) as [Heq|Hne]; [subst k; rewrite lookup_insert_eq|rewrite lookup_insert_ne by done].
  - split; [intros _; exists c, p; split_and!; [|done..]; apply elem_of_app; right; left|].
    intros Hn. exfalso. apply Hn, elem_of_app. right. left.
  - rewrite elem_of_app, list_elem_of_singleton. split.
    + intros [Hk|Hk]; [|by destruct Hne]. destruct (IH1 Hk) as (c' & p' & Hc' & Hrest). exists c', p'.
      split; [by apply elem_of_app; left|done].
    + intros Hn. apply IH2. tauto.
Qed.

Lemma configured_peers_dom now configs current peers : dom_is (configured_peers now configs current peers) configs.
Proof.
  intros k. unfold configured_peers.
  set (start := match peers with Some ps => ps | None => initial_peers now configs current end).
  destruct (configure_fold now configs start k) as [H1 H2]. split.
  - intros [p [_ Hk]%map_lookup_filter_Some]. done.
  - intros Hk. destruct (H1 Hk) as (c & p & _ & _ & Hp & _). exists p. by apply map_lookup_filter_Some.
Qed.

(** A peer keeps its status and the time of its last endpoint change while its endpoint is
    the same pointer, and is unknown from now on otherwise. *)
Definition reconfigured (now : Z) (c : PeerConfig) (old : option peer) (p : peer) : Prop :=
  p_config p = c /\
  match old with
  | Some q => if same_pointer (pc_Endpoint (p_config q)) (pc_Endpoint c)
              then status p = status q /\ lastEndpointChangeTime p = lastEndpointChangeTime q /\ lastHandshakeTime p = lastHandshakeTime q
              else status p = PeerStatusUnknown /\ lastEndpointChangeTime p = now
  | None => status p = PeerStatusUnknown
  end.

Lemma configure_fold_once now configs : forall start c, NoDup (map pc_PublicKey configs) -> c ∈ configs ->
  exists p, fold_left (configure_peer now) configs start !! pc_PublicKey c = Some p /\
    reconfigured now c (start !! pc_PublicKey c) p.
Proof.
  induction configs as [|c0 configs IH]; intros start c Hnd Hc; [by apply not_elem_of_nil in Hc|].
  apply NoDup_cons in Hnd as [Hc0 Hnd]. cbn [fold_left]. apply elem_of_cons in Hc as [->|Hc].
  - destruct (configure_fold now configs (configure_peer now start c0) (pc_PublicKey c0)) as [_ H2]. rewrite (H2 Hc0).
    unfold configure_peer. destruct (start !! pc_PublicKey c0) as [q|]; rewrite lookup_insert_eq; eexists; (split; [done|]).
    + split; [done|]. unfold updateConfig. cbn. by destruct (same_pointer _ _).
    + by split.
  - destruct (IH (configure_peer now start c0) c Hnd Hc) as (p & Hp & Hr). exists p. split; [done|].
    assert (Hne : pc_PublicKey c0 <> pc_PublicKey c).
    { intros He. apply Hc0. rewrite He. apply list_elem_of_fmap. by exists c. }
    unfold configure_peer in Hr. destruct (start !! pc_PublicKey c0); by rewrite lookup_insert_ne in Hr.
Qed.

Lemma configured_peer now configs current peers c : NoDup (map pc_PublicKey configs) -> c ∈ configs ->
  exists p, configured_peers now configs current (Some peers) !! pc_PublicKey c = Some p /\
    reconfigured now c (peers !! pc_PublicKey c) p.
Proof.
  intros Hnd Hc. destruct (configure_fold_once now configs peers c Hnd Hc) as (p & Hp & Hr). exists p. split; [|done].
  unfold configured_peers. apply map_lookup_filter_Some. split; [done|]. apply list_elem_of_fmap. by exists c.
Qed.

(** What the device is told: every configured peer with exactly its addresses, and the
    removal of exactly the peers that are not configured. *)
Definition device_follows (configs : list PeerConfig) (current : list WgPeer) (wc : WgConfig) : Prop :=
  exists told removed, wgc_Peers wc = told ++ map remove_peer removed /\
    Forall2 (fun c t => wc_PublicKey t = pc_PublicKey c /\ wc_Remove t = false /\ wc_UpdateOnly t = false /\
                        wc_ReplaceAllowedIPs t = true /\ prefixes c = Some (wc_AllowedIPs t) /\
                        wc_Endpoint t = deref <$> pc_Endpoint c) configs told /\
    forall k, k ∈ removed <-> k ∈ map wg_PublicKey current /\ k ∉ map pc_PublicKey configs.

Lemma toDeviceConfig_follows valid_key c current wc : toDeviceConfig valid_key c current = Ok wc ->
  device_follows (cf_Peers c) current wc /\ wgc_ListenPort wc = Some (EffectiveWireGuardPort c).
Proof.
  unfold toDeviceConfig. destruct (negb _); [done|]. destruct (map_ok _ _) as [told|] eqn:Hm; cbn [res_bind]; [|done].
  intros [= <-]. split; [|done]. apply map_ok_Ok in Hm.
  assert (Htold : Forall2 (fun c t => wc_PublicKey t = pc_PublicKey c /\ wc_Remove t = false /\ wc_UpdateOnly t = false /\
                        wc_ReplaceAllowedIPs t = true /\ prefixes c = Some (wc_AllowedIPs t) /\
                        wc_Endpoint t = deref <$> pc_Endpoint c) (cf_Peers c) told).
  { eapply Forall2_impl; [exact Hm|]. intros pc t Ht. unfold peer_device_config in Ht. destruct (negb _); [done|].
    unfold prefixes. destruct (addrToSingleIPPrefix _) as [m|]; [|done]. by injection Ht as <-. }
  assert (Hkeys : map wc_PublicKey told = map pc_PublicKey (cf_Peers c)).
  { clear -Htold. induction Htold as [|pc t pcs ts [Hk _] _ IH]; [done|]. cbn. by rewrite Hk, IH. }
  eexists told, _. split; [done|]. split; [done|]. intros k. rewrite list_elem_of_filter, Hkeys. tauto.
Qed.

(** ** The control loop *)
Lemma entries_Some {V} (m : gmap string V) : entries (Some m) = m.
Proof. done. Qed.

Lemma update_fold now current : forall n evs k, NoDup (map wg_PublicKey current) ->
  let n' := fst (fold_left (update_from now) current (n, evs)) in
  (k ∉ map wg_PublicKey current -> entries (n_peers n') !! k = entries (n_peers n) !! k) /\
  (forall wg, wg ∈ current -> wg_PublicKey wg = k ->
     match entries (n_peers n) !! k with
     | Some p => exists f, entries (n_peers n') !! k = Some (fst (updateFromDevice now (Own f) wg p))
     | None => entries (n_peers n') !! k = None
     end).
Proof.
  induction current as [|w current IH]; intros n evs k Hnd; cbn [fold_left map].
  { split; [done|]. by intros wg Hw%not_elem_of_nil. }
  apply NoDup_cons in Hnd as [Hw Hnd]. destruct (update_from now (n, evs) w) as [n1 evs1] eqn:Hu.
  assert (Hstep : forall k, entries (n_peers n1) !! k =
            if decide (k = wg_PublicKey w)
            then (fun p => fst (updateFromDevice now (Own (n_fresh n)) w p)) <$> entries (n_peers n) !! k
            else entries (n_peers n) !! k).
  { intros k'. unfold update_from in Hu. destruct (entries (n_peers n) !! wg_PublicKey w) as [p|] eqn:Hp.
    - destruct (updateFromDevice now (Own (n_fresh n)) w p) as [p' ch] eqn:Hup. injection Hu as <- _. cbn [n_peers]. rewrite entries_Some.
      destruct (decide (k' = wg_PublicKey w)) as [->|Hne]; [by rewrite lookup_insert_eq, Hp; cbn [fmap option_fmap option_map]; rewrite Hup|].
      by rewrite lookup_insert_ne.
    - injection Hu as <- _. destruct (decide (k' = wg_PublicKey w)) as [->|]; [by rewrite Hp|done]. }
  destruct (IH n1 evs1 k Hnd) as [IH1 IH2]. split.
  - intros [Hk Hk']%not_elem_of_cons. rewrite (IH1 Hk'), Hstep. by rewrite decide_False.
  - intros wg [->|Hin]%elem_of_cons Hkey.
    + subst k. rewrite (IH1 Hw), Hstep, decide_True by done. destruct (entries (n_peers n) !! _); [by eexists|done].
    + specialize (IH2 wg Hin Hkey). rewrite Hstep, decide_False in IH2; [done|]. intros ->. apply Hw.
      rewrite <- Hkey. apply list_elem_of_fmap. by exists wg.
Qed.

Lemma update_fresh now current : forall acc, (n_fresh (fst acc) <= n_fresh (fst (fold_left (update_from now) current acc)))%nat.
Proof.
  induction current as [|wg current IH]; intros [n evs]; cbn [fold_left]; [done|]. etrans; [|apply IH].
  unfold update_from. destruct (entries (n_peers n) !! wg_PublicKey wg) as [p|]; [|done].
  destruct (updateFromDevice _ _ wg p). cbn. lia.
Qed.

(** What the rotation does to a peer, with the variables from [lo] to [hi]. *)
Definition rotated (now : Z) (lo hi : nat) (p p' : peer) : Prop :=
  match shouldChangeEndpoint p with
  | None => p' = p
  | Some a => exists f, (lo <= f < hi)%nat /\ p' = updateConfig now (with_endpoint (p_config p) (mkPtr (Own f) a)) p
  end.

Lemma rotated_mono now lo hi lo' hi' p p' : (lo' <= lo)%nat -> (hi <= hi')%nat -> rotated now lo hi p p' -> rotated now lo' hi' p p'.
Proof.
  intros Hlo Hhi. unfold rotated. destruct (shouldChangeEndpoint p); [|done]. intros (f & Hf & ->). exists f. split; [lia|done].
Qed.

Lemma rotated_key now lo hi p p' : rotated now lo hi p p' -> pc_PublicKey (p_config p') = pc_PublicKey (p_config p).
Proof. unfold rotated. destruct (shouldChangeEndpoint p); [by intros (f & _ & ->)|by intros ->]. Qed.

Lemma change_loop_spec {E} valid_key now todo : forall n changes, NoDup (map fst todo) ->
  (forall k p, (k, p) ∈ todo -> entries (n_peers n) !! k = Some p /\ valid_key (pc_PublicKey (p_config p)) = true) ->
  exists n', change_loop (E := E) valid_key now todo n changes =
      (n', Ok (changes ++ omap (fun kp => (fun a => (pc_PublicKey (p_config (snd kp)), a)) <$> shouldChangeEndpoint (snd kp)) todo)) /\
    (forall k, k ∉ map fst todo -> entries (n_peers n') !! k = entries (n_peers n) !! k) /\
    (forall k p, (k, p) ∈ todo -> exists p', entries (n_peers n') !! k = Some p' /\ rotated now (n_fresh n) (n_fresh n') p p') /\
    (n_fresh n <= n_fresh n')%nat.
Proof.
  induction todo as [|[key p] todo IH]; intros n changes Hnd Hin; cbn [change_loop map].
  { exists n. rewrite app_nil_r. split_and!; [done..| |done]. by intros ? ? ?%not_elem_of_nil. }
  apply NoDup_cons in Hnd as [Hkey Hnd]. cbn [fst] in Hkey. destruct (Hin key p) as [Hp Hv]; [left|].
  assert (Hne : forall k q, (k, q) ∈ todo -> k <> key).
  { intros k q Hq ->. apply Hkey, list_elem_of_fmap. by exists (key, q). }
  cbn [omap list_omap snd]. destruct (shouldChangeEndpoint p) as [a|] eqn:Ha; cbn [fmap option_fmap option_map].
  - rewrite Hv. cbn [negb]. set (p' := updateConfig _ _ p). set (n1 := mkNetwork _ _).
    destruct (IH n1 (changes ++ [(pc_PublicKey (p_config p), a)]) Hnd) as (n' & -> & Hout & Hall & Hle).
    { intros k q Hq. destruct (Hin k q) as [Hkq Hvq]; [by right|]. split; [|done]. unfold n1; cbn [n_peers]. rewrite entries_Some.
      by rewrite lookup_insert_ne by (intros ->; by apply (Hne k q Hq)). }
    unfold n1 in Hle; cbn [n_fresh] in Hle. exists n'. rewrite <- app_assoc. split; [done|]. split_and!; [| |lia].
    + intros k [Hk Hk']%not_elem_of_cons. rewrite Hout by done. unfold n1; cbn [n_peers]. rewrite entries_Some. by rewrite lookup_insert_ne.
    + intros k q [[= -> ->]|Hq]%elem_of_cons.
      2:{ destruct (Hall k q Hq) as (q' & Hq' & Hrot). exists q'. split; [done|]. by apply (rotated_mono now (S (n_fresh n)) (n_fresh n')); [lia..|]. }
      exists p'. rewrite Hout by done. unfold n1; cbn [n_peers]. rewrite entries_Some.
      rewrite lookup_insert_eq. split; [done|]. unfold rotated. rewrite Ha. exists (n_fresh n). split; [lia|done].
  - destruct (IH n changes Hnd) as (n' & -> & Hout & Hall & Hle); [intros k q Hq; apply Hin; by right|].
    exists n'. split; [done|]. split_and!; [| |done].
    + intros k [_ Hk]%not_elem_of_cons. by apply Hout.
    + intros k q [[= -> ->]|Hq]%elem_of_cons; [|by apply Hall]. exists p. rewrite Hout by done. split; [done|].
      unfold rotated. by rewrite Ha.
Qed.

(** ** Rotation of the endpoints of a peer *)
Lemma index_of_nth (l : list AddrPort) j a : NoDup l -> l !! j = Some a -> index_of a l = Some j.
Proof.
  revert j; induction l as [|b l IH]; intros j Hnd Hj; [done|]. apply NoDup_cons in Hnd as [Hb Hnd]. cbn [index_of].
  destruct j as [|j]; cbn in Hj.
  - injection Hj as ->. by rewrite decide_True.
  - rewrite decide_False by (intros ->; apply Hb; by apply list_elem_of_lookup_2 in Hj). by rewrite (IH j).
Qed.

Lemma next_endpoint_after (all : list AddrPort) j a : NoDup all -> all !! j = Some a ->
  exists b, next_endpoint all a = Some b /\ all !! (S j mod length all)%nat = Some b.
Proof.
  intros Hnd Hj. unfold next_endpoint. rewrite (index_of_nth all j a Hnd Hj).
  assert (Hlen : (0 < length all)%nat) by (apply lookup_lt_Some in Hj; lia).
  assert (Hidx : Z.to_nat ((Z.of_nat j + 1) mod Z.of_nat (length all)) = (S j mod length all)%nat).
  { replace (Z.of_nat j + 1) with (Z.of_nat (S j)) by lia. by rewrite <- Nat2Z.inj_mod, Nat2Z.id. }
  rewrite Hidx. destruct (lookup_lt_is_Some_2 all (S j mod length all)%nat) as [b Hb]; [apply Nat.mod_upper_bound; lia|].
  by exists b.
Qed.

(** The state of a silent peer before the [n]-th variable is allocated: it has several
    endpoints, and its endpoint is the [j]-th, set at [c]. *)
Definition silent_peer (all : list AddrPort) (j : nat) (c : Z) (n : nat) (p : peer) : Prop :=
  addrs (pc_AllEndpoints (p_config p)) = all /\ (2 <= length all)%nat /\ lastEndpointChangeTime p = c /\
  exists e, pc_Endpoint (p_config p) = Some e /\ all !! j = Some (deref e) /\ forall m, loc e = Own m -> (m < n)%nat.

Lemma silent_peer_later all j c n m p : (n <= m)%nat -> silent_peer all j c n p -> silent_peer all j c m p.
Proof.
  intros Hm (H1 & H2 & H3 & e & He & Hj & Hn). split_and!; [done..|]. exists e. split_and!; [done..|].
  intros k Hk. specialize (Hn k Hk). lia.
Qed.

(** The endpoint a down peer rotates to. *)
Lemma down_rotates all j c n p : NoDup all -> silent_peer all j c n p -> status p = PeerStatusDown ->
  exists a, shouldChangeEndpoint p = Some a /\ all !! (S j mod length all)%nat = Some a.
Proof.
  intros Hnd (Hall & Hlen & _ & e & He & Hj & _) Hs. unfold shouldChangeEndpoint. rewrite He, Hs, Hall.
  rewrite bool_decide_eq_true_2 by done. cbn [negb].
  destruct (Nat.eqb_spec (length all) 0) as [|_]; [lia|]. destruct (Nat.eqb_spec (length all) 1) as [|_]; [lia|]. cbn [andb].
  destruct (next_endpoint_after all j (deref e) Hnd Hj) as (a & Hn & Ha). by exists a.
Qed.

(** Brought up to date with a device that has its endpoint and no handshake since it was set,
    and rotated, the peer keeps the endpoint until the timeout and has the next one after it. *)
Lemma silent_update all j c h now fresh n n1 hi wg p p2 : NoDup all -> h <= c -> silent_peer all j c n p ->
  wg_Endpoint wg = deref <$> pc_Endpoint (p_config p) -> wg_LastHandshakeTime wg = h -> (n <= n1 <= hi)%nat ->
  let p1 := fst (updateFromDevice now fresh wg p) in
  rotated now n1 hi p1 p2 ->
  if now - c <? endpointConnectionTimeout
  then shouldChangeEndpoint p1 = None /\ silent_peer all j c hi p2
  else exists a, shouldChangeEndpoint p1 = Some a /\ all !! (S j mod length all)%nat = Some a /\
         silent_peer all (S j mod length all) now hi p2.
Proof.
  intros Hnd Hh Hp Hwe Hwh Hle. pose proof Hp as (Hall & Hlen & Hc & e & He & Hj & Hn).
  unfold updateFromDevice. rewrite Hwe, He, Hwh. cbn [fmap option_fmap option_map]. rewrite decide_True by done. cbn [fst].
  set (q := mkPeer (p_config p) (lastEndpointChangeTime p) h (wg_ReceiveBytes wg) (wg_TransmitBytes wg) (status p)).
  assert (Hst : current_status now q = if now - c <? endpointConnectionTimeout then PeerStatusUnknown else PeerStatusDown).
  { rewrite <- Hc. apply (silent_status now q e); [done|]. cbn. lia. }
  cbv zeta. set (q' := calculateStatus now q). assert (Hq : silent_peer all j c n q') by exact Hp.
  unfold rotated. destruct (now - c <? endpointConnectionTimeout) eqn:Ht.
  - assert (Hnone : shouldChangeEndpoint q' = None).
    { unfold shouldChangeEndpoint. change (p_config q') with (p_config p). rewrite He.
      change (status q') with (current_status now q). by rewrite Hst. }
    rewrite Hnone. intros ->. split; [done|]. apply (silent_peer_later all j c n); [lia|done].
  - destruct (down_rotates all j c n q' Hnd Hq) as (a & Ha & Hja); [exact Hst|].
    rewrite Ha. intros (f & Hf & ->). exists a. split; [done|]. split; [done|]. split_and!; [done|done| |].
    + unfold updateConfig. cbn [lastEndpointChangeTime p_config]. change (p_config q') with (p_config p). rewrite He.
      unfold same_pointer. cbn [pc_Endpoint with_endpoint loc].
      by rewrite bool_decide_eq_false_2 by (intros Hl; specialize (Hn _ Hl); lia).
    + exists (mkPtr (Own f) a). split_and!; [done..|]. cbn. intros m [= <-]. lia.
Qed.

(** Rotations at least a connection timeout apart, the first one after [c]. *)
Fixpoint spaced (c : Z) (rs : list (Z * AddrPort)) : Prop :=
  match rs with
  | [] => True
  | (t, _) :: rs => c + endpointConnectionTimeout <= t /\ spaced t rs
  end.

(** Ticks in order and at most [g] apart. *)
Fixpoint often (g prev : Z) (times : list Z) : Prop :=
  match times with
  | [] => True
  | t :: times => prev <= t <= prev + g /\ often g t times
  end.

Definition last_time (prev : Z) (times : list Z) : Z := default prev (last times).

Lemma last_time_cons prev t times : last_time prev (t :: times) = last_time t times.
Proof. unfold last_time. rewrite last_cons. by destruct (last times). Qed.

Lemma mod_walk j i k : ((S (S j mod k) + i) mod k = (S j + S i) mod k)%nat.
Proof. replace (S (S j mod k) + i)%nat with (S j mod k + S i)%nat by lia. apply Nat.Div0.add_mod_idemp_l. Qed.

(** A walk of as many steps as there are elements visits them all. *)
Lemma walk_visits (all : list AddrPort) j a : a ∈ all ->
  exists i, (i < length all)%nat /\ all !! ((S j + i) mod length all)%nat = Some a.
Proof.
  intros [x Hx]%list_elem_of_lookup. pose proof (lookup_lt_Some _ _ _ Hx) as Hlt. set (k := length all) in *.
  assert (Hm : (S j mod k < k)%nat) by (apply Nat.mod_upper_bound; lia).
  exists ((x + k - S j mod k) mod k)%nat. split; [apply Nat.mod_upper_bound; lia|]. rewrite <- Hx. f_equal.
  rewrite Nat.Div0.add_mod_idemp_r, <- Nat.Div0.add_mod_idemp_l.
  replace (S j mod k + (x + k - S j mod k))%nat with (x + 1 * k)%nat by lia. rewrite Nat.Div0.mod_add.
  by apply Nat.mod_small.
Qed.

(** The peer [p] of the key [k], brought up to date with the device. *)
Definition updated (now : Z) (current : list WgPeer) (k : string) (p p1 : peer) : Prop :=
  k ∉ map wg_PublicKey current /\ p1 = p \/
  exists wg f, wg ∈ current /\ wg_PublicKey wg = k /\ p1 = fst (updateFromDevice now (Own f) wg p).

(** The key and the new endpoint of a peer that is changed. *)
Definition change_of (kp : string * peer) : option (string * AddrPort) :=
  (fun a => (pc_PublicKey (p_config (snd kp)), a)) <$> shouldChangeEndpoint (snd kp).

(** A tick of the control loop acts on each peer by itself, in whatever order the peers
    are ranged over: a peer the device knows is brought up to date with it, and then changed
    to its next endpoint if it is down or has none; peers of the device that are not
    configured are ignored.  The device is patched once, with exactly the changed endpoints,
    and not at all when there are none. *)
Lemma tick_acts_on_each_peer {HO : GoOrder} {W E} (valid_key : string -> bool) (Device : W -> result E (list WgPeer))
  (ConfigureDevice : WgConfig -> W -> W * result E unit) (site : nat) (now : Z) (n : Network) (w : W) (current : list WgPeer) :
  Device w = Ok current -> NoDup (map wg_PublicKey current) ->
  map_Forall (fun _ p => valid_key (pc_PublicKey (p_config p)) = true) (entries (n_peers n)) ->
  let '(n', w', events) := tick valid_key Device ConfigureDevice site now n w in
  exists (mid : gmap string peer) changes,
    (forall k, is_Some (mid !! k) <-> is_Some (entries (n_peers n) !! k)) /\
    (forall k p, entries (n_peers n) !! k = Some p -> exists p1 p2, mid !! k = Some p1 /\ updated now current k p p1 /\
       entries (n_peers n') !! k = Some p2 /\ rotated now (n_fresh n) (n_fresh n') p1 p2) /\
    (forall k, entries (n_peers n) !! k = None -> entries (n_peers n') !! k = None) /\ (n_fresh n <= n_fresh n')%nat /\
    changes ≡ₚ omap change_of (map_to_list mid) /\
    (w', events) =
      let (w2, r) := match changes with [] => (w, Ok tt) | _ => ConfigureDevice (endpoint_patch changes) w end in
      (w2, snd (fold_left (update_from now) current (n, [])) ++
           match r with Ok _ => map (fun ka => mkEvent ka.1 ka.2) changes | Err _ => [] end).
Proof.
  intros HD Hnd Hkeys. unfold tick, updatePeersFromDevice. rewrite HD.
  destruct (fold_left (update_from now) current (n, [])) as [n1 evs] eqn:Hf.
  assert (Hmid : forall k, match entries (n_peers n) !! k with
            | Some p => exists p1, entries (n_peers n1) !! k = Some p1 /\ updated now current k p p1 /\
                          pc_PublicKey (p_config p1) = pc_PublicKey (p_config p)
            | None => entries (n_peers n1) !! k = None
            end).
  { intros k. destruct (update_fold now current n [] k Hnd) as [Hout Hin]. rewrite Hf in Hout, Hin. cbn [fst] in Hout, Hin.
    destruct (decide (k ∈ map wg_PublicKey current)) as [Hk|Hk].
    - apply list_elem_of_fmap in Hk as (wg & -> & Hwg). specialize (Hin wg Hwg eq_refl).
      destruct (entries (n_peers n) !! wg_PublicKey wg) as [p|]; [|done]. destruct Hin as [f Hp]. eexists. split; [exact Hp|].
      split; [right; by exists wg, f|]. unfold updateFromDevice. cbn [fst calculateStatus p_config].
      by destruct (match wg_Endpoint wg with Some _ => _ | None => _ end).
    - specialize (Hout Hk). destruct (entries (n_peers n) !! k) as [p|]; [|done]. exists p. split; [done|]. split; [by left|done]. }
  unfold changeWireGuardEndpoints. set (todo := range_map site (entries (n_peers n1))).
  assert (Htodo : todo ≡ₚ map_to_list (entries (n_peers n1))) by (unfold todo, range_map; by rewrite any_order_perm).
  destruct (change_loop_spec (E := E) valid_key now todo n1 []) as (n2 & -> & Hout & Hall & Hfresh2).
  { rewrite Htodo. apply NoDup_fst_map_to_list. }
  { intros k p Hp. unfold todo in Hp. apply elem_of_range_map in Hp. split; [done|]. specialize (Hmid k).
    destruct (entries (n_peers n) !! k) as [q|] eqn:Hq; [|congruence]. destruct Hmid as (p1 & Hp1 & _ & Hpk).
    rewrite Hp in Hp1. injection Hp1 as ->. rewrite Hpk. apply (Hkeys k q Hq). }
  cbn [app]. set (changes := omap _ todo).
  assert (Hchanges : changes ≡ₚ omap change_of (map_to_list (entries (n_peers n1)))) by (by rewrite <- Htodo).
  assert (Hpeers : forall k p, entries (n_peers n) !! k = Some p -> exists p1 p2, entries (n_peers n1) !! k = Some p1 /\
            updated now current k p p1 /\ entries (n_peers n2) !! k = Some p2 /\ rotated now (n_fresh n) (n_fresh n2) p1 p2).
  { intros k p Hp. specialize (Hmid k). rewrite Hp in Hmid. destruct Hmid as (p1 & Hp1 & Hup & _).
    destruct (Hall k p1) as (p2 & Hp2 & Hr); [by apply elem_of_range_map|]. exists p1, p2. split_and!; [done..|].
    apply (rotated_mono now (n_fresh n1) (n_fresh n2)); [|done|done]. pose proof (update_fresh now current (n, [])) as Hle. by rewrite Hf in Hle. }
  assert (Hdom : forall k, is_Some (entries (n_peers n1) !! k) <-> is_Some (entries (n_peers n) !! k)).
  { intros k. specialize (Hmid k). destruct (entries (n_peers n) !! k) as [p|]; [|by rewrite Hmid].
    destruct Hmid as (p1 & -> & _). by split; eexists. }
  assert (Hfresh : (n_fresh n <= n_fresh n2)%nat).
  { pose proof (update_fresh now current (n, [])) as Hle. rewrite Hf in Hle. cbn [fst] in Hle. lia. }
  assert (Hnone : forall k, entries (n_peers n) !! k = None -> entries (n_peers n2) !! k = None).
  { intros k Hk. specialize (Hmid k). rewrite Hk in Hmid. rewrite Hout; [done|].
    intros ([k' q] & -> & Hq%elem_of_range_map)%list_elem_of_fmap. cbn in Hmid. congruence. }
  cbn [snd]. clearbody changes. destruct changes as [|ch changes].
  - exists (entries (n_peers n1)), []. by split_and!.
  - destruct (ConfigureDevice (endpoint_patch (ch :: changes)) w) as [w2 [[]|e]] eqn:Happ;
      exists (entries (n_peers n1)), (ch :: changes); rewrite Happ; by split_and!.
Qed.

Lemma map_NoDup_inj {A B} (f : A -> B) l x y : NoDup (map f l) -> x ∈ l -> y ∈ l -> f x = f y -> x = y.
Proof.
  induction l as [|z l IH]; intros Hnd Hx Hy Hf; [by apply not_elem_of_nil in Hx|]. apply NoDup_cons in Hnd as [Hz Hnd].
  apply elem_of_cons in Hx as [->|Hx]; apply elem_of_cons in Hy as [->|Hy]; [done| | |by apply IH].
  - destruct Hz. apply list_elem_of_fmap. by exists y.
  - destruct Hz. apply list_elem_of_fmap. by exists x.
Qed.

(** *** The control loop over a peer that does not answer *)
Section Silent.
Context {HO : GoOrder} {W E : Type} (valid_key : string -> bool) (Device : W -> result E (list WgPeer))
  (ConfigureDevice : WgConfig -> W -> W * result E unit).

(** The device has the peer with the endpoint [a] and its last handshake at [h]. *)
Definition holds (w : W) (key : string) (a : AddrPort) (h : Z) : Prop :=
  exists current wg, Device w = Ok current /\ NoDup (map wg_PublicKey current) /\ wg ∈ current /\
    wg_PublicKey wg = key /\ wg_Endpoint wg = Some a /\ wg_LastHandshakeTime wg = h.

Definition endpoint_in (changes : list (string * AddrPort)) (key : string) (a : AddrPort) : AddrPort :=
  default a (last (omap (fun ka => if decide (ka.1 = key) then Some ka.2 else None) changes)).

(** WireGuard accepts a patch of endpoints, and it sets the endpoints it names and nothing else. *)
Definition patches_applied : Prop := forall changes w, exists w',
  ConfigureDevice (endpoint_patch changes) w = (w', Ok tt) /\
  forall key a h, holds w key a h -> holds w' key (endpoint_in changes key a) h.

(** The peers of a network are under their keys, which are keys. *)
Definition keyed (n : Network) : Prop :=
  map_Forall (fun k p => pc_PublicKey (p_config p) = k /\ valid_key k = true) (entries (n_peers n)).

(** The ticks of [Run], each with its time and what happens to the device before it; the
    endpoints the watchers are told of for a key, with their times. *)
Definition told_of (key : string) (now : Z) (events : list EndpointChangeEvent) : list (Z * AddrPort) :=
  omap (fun ev => if decide (ev_PublicKey ev = key) then Some (now, ev_Endpoint ev) else None) events.

Fixpoint ticks (key : string) (ts : list (nat * Z * (W -> W))) (n : Network) (w : W) : Network * W * list (Z * AddrPort) :=
  match ts with
  | [] => (n, w, [])
  | (site, now, happens) :: ts =>
      let '(n, w, events) := tick valid_key Device ConfigureDevice site now n (happens w) in
      let '(n, w, rs) := ticks key ts n w in
      (n, w, told_of key now events ++ rs)
  end.

(** What happens to the device of a silent peer by itself: anything to the other peers. *)
Definition silent (key : string) (h : Z) (happens : W -> W) : Prop :=
  forall w a, holds w key a h -> holds (happens w) key a h.

Lemma told_of_app key now evs1 evs2 : told_of key now (evs1 ++ evs2) = told_of key now evs1 ++ told_of key now evs2.
Proof. unfold told_of. apply omap_app. Qed.

(** Only a peer whose endpoint has changed on the device makes an event. *)
Lemma update_events now current key : forall p n evs,
  entries (n_peers n) !! key = Some p ->
  (forall wg, wg ∈ current -> wg_PublicKey wg = key -> wg_Endpoint wg = deref <$> pc_Endpoint (p_config p)) ->
  told_of key now (snd (fold_left (update_from now) current (n, evs))) = told_of key now evs.
Proof.
  induction current as [|wg current IH]; intros p n evs Hp Hsame; [done|]. cbn [fold_left]. unfold update_from at 2.
  destruct (entries (n_peers n) !! wg_PublicKey wg) as [q|] eqn:Hq.
  2:{ apply (IH p); [done|]. intros wg' Hw'. apply Hsame. by right. }
  destruct (decide (wg_PublicKey wg = key)) as [Hk|Hk].
  - rewrite Hk in Hq. rewrite Hp in Hq. injection Hq as <-. unfold updateFromDevice.
    rewrite (Hsame wg (list_elem_of_here _ _) Hk).
    assert (Hnone : match deref <$> pc_Endpoint (p_config p) with
                    | None => None
                    | Some a => match pc_Endpoint (p_config p) with
                                | None => Some a
                                | Some e => if decide (deref e = a) then None else Some a
                                end
                    end = None).
    { destruct (pc_Endpoint (p_config p)) as [e|]; [|done]. cbn. by rewrite decide_True. }
    rewrite Hnone. eapply IH; [cbn [n_peers]; rewrite entries_Some, <- Hk; apply lookup_insert_eq|].
    cbn [p_config calculateStatus]. intros wg' Hw'. apply Hsame. by right.
  - destruct (updateFromDevice now (Own (n_fresh n)) wg q) as [q' ch].
    rewrite (IH p); [|cbn [n_peers]; rewrite entries_Some; by rewrite lookup_insert_ne|intros wg' Hw'; apply Hsame; by right].
    destruct ch; [|done]. destruct (pc_Endpoint (p_config q')) as [e|]; [|done]. rewrite told_of_app.
    unfold told_of at 2. cbn [omap list_omap ev_PublicKey]. rewrite decide_False by done. by rewrite app_nil_r.
Qed.

(** The changes of a key are those of its peer. *)
Definition for_key (key : string) (changes : list (string * AddrPort)) : list AddrPort :=
  omap (fun ka => if decide (ka.1 = key) then Some ka.2 else None) changes.

Lemma for_key_none key (l : list (string * peer)) : (forall k p, (k, p) ∈ l -> pc_PublicKey (p_config p) <> key) ->
  for_key key (omap change_of l) = [].
Proof.
  unfold for_key. induction l as [|[k p] l IH]; intros Hl; [done|]. cbn [omap list_omap]. unfold change_of at 1. cbn [snd].
  assert (Hrest : omap (fun ka => if decide (ka.1 = key) then Some ka.2 else None) (omap change_of l) = [])
    by (apply IH; intros k' p' Hin; apply (Hl k'); by right).
  destruct (shouldChangeEndpoint p); cbn; [|exact Hrest]. rewrite decide_False; [exact Hrest|]. apply (Hl k). left.
Qed.

Lemma for_key_peers key (m : gmap string peer) p changes : m !! key = Some p ->
  map_Forall (fun k p => pc_PublicKey (p_config p) = k) m ->
  changes ≡ₚ omap change_of (map_to_list m) ->
  for_key key changes = match shouldChangeEndpoint p with Some a => [a] | None => [] end.
Proof.
  intros Hp Hk Hc. assert (Hperm : for_key key changes ≡ₚ for_key key (omap change_of ((key, p) :: map_to_list (delete key m)))).
  { unfold for_key. rewrite Hc. f_equiv. f_equiv. rewrite <- map_to_list_insert by apply lookup_delete_eq.
    by rewrite insert_delete_id. }
  assert (Hrest : for_key key (omap change_of (map_to_list (delete key m))) = []).
  { apply for_key_none. intros k q Hq%elem_of_map_to_list. apply lookup_delete_Some in Hq as [Hne Hq]. rewrite (Hk k q Hq). congruence. }
  unfold for_key in *. cbn [omap list_omap] in Hperm. unfold change_of at 1 in Hperm. cbn [snd] in Hperm.
  destruct (shouldChangeEndpoint p) as [a|]; cbn in Hperm.
  - destruct (decide (pc_PublicKey (p_config p) = key)) as [_|Hn]; [|by destruct Hn; apply (Hk key p)].
    rewrite Hrest in Hperm. by apply Permutation_singleton_r in Hperm.
  - rewrite Hrest in Hperm. by apply Permutation_nil_r in Hperm.
Qed.

Lemma told_of_changes key now changes :
  told_of key now (map (fun ka => mkEvent ka.1 ka.2) changes) = map (pair now) (for_key key changes).
Proof.
  unfold told_of, for_key. induction changes as [|[k a] changes IH]; [done|]. cbn.
  destruct (decide (k = key)); cbn; by rewrite IH.
Qed.

(** A tick, for a silent peer. *)
Lemma silent_tick site now n w key p all j c h a0 :
  patches_applied -> keyed n -> entries (n_peers n) !! key = Some p -> NoDup all -> h <= c ->
  silent_peer all j c (n_fresh n) p -> all !! j = Some a0 -> holds w key a0 h ->
  let '(n', w', events) := tick valid_key Device ConfigureDevice site now n w in
  keyed n' /\ exists p', entries (n_peers n') !! key = Some p' /\
  if now - c <? endpointConnectionTimeout
  then told_of key now events = [] /\ silent_peer all j c (n_fresh n') p' /\ holds w' key a0 h
  else exists a, told_of key now events = [(now, a)] /\ all !! (S j mod length all)%nat = Some a /\
         silent_peer all (S j mod length all) now (n_fresh n') p' /\ holds w' key a h.
Proof.
  intros Happ Hkeyed Hp Hnd Hh Hs Hj Hw. pose proof Hw as (current & wg & HD & Hcur & Hin & Hwk & Hwe & Hwh).
  assert (Hvalid : map_Forall (fun _ p => valid_key (pc_PublicKey (p_config p)) = true) (entries (n_peers n))).
  { intros k q Hq. destruct (Hkeyed k q Hq) as [-> Hv]. done. }
  pose proof (tick_acts_on_each_peer valid_key Device ConfigureDevice site now n w current HD Hcur Hvalid) as Ht.
  destruct (tick _ _ _ site now n w) as [[n' w'] events].
  destruct Ht as (mid & changes & Hdom & Hpeers & Hnone & Hfresh & Hchanges & Hend).
  assert (Hup : forall k q q1, entries (n_peers n) !! k = Some q -> updated now current k q q1 -> pc_PublicKey (p_config q1) = k).
  { intros k q q1 Hq Hu. destruct (Hkeyed k q Hq) as [Hk _]. destruct Hu as [[_ ->]|(wg' & f & _ & _ & ->)]; [done|].
    rewrite <- Hk. unfold updateFromDevice. cbn [fst calculateStatus p_config]. by destruct (match wg_Endpoint wg' with Some _ => _ | None => _ end). }
  assert (Hkmid : map_Forall (fun k p => pc_PublicKey (p_config p) = k) mid).
  { intros k q1 Hq1. destruct (proj1 (Hdom k)) as [q Hq]; [by exists q1|].
    destruct (Hpeers k q Hq) as (q1' & q2 & Hq1' & Hu & _). rewrite Hq1 in Hq1'. injection Hq1' as <-. by apply (Hup k q). }
  split.
  { intros k q2 Hq2. destruct (entries (n_peers n) !! k) as [q|] eqn:Hq; [|by rewrite Hnone in Hq2].
    destruct (Hpeers k q Hq) as (q1 & q2' & _ & Hu & Hq2' & Hr). rewrite Hq2 in Hq2'. injection Hq2' as <-.
    split; [rewrite (rotated_key _ _ _ _ _ Hr); by apply (Hup k q)|apply (Hkeyed k q Hq)]. }
  destruct (Hpeers key p Hp) as (p1 & p2 & Hp1 & Hu & Hp2 & Hr). exists p2. split; [done|].
  pose proof Hs as (_ & _ & _ & e & He & Hje & _). rewrite Hj in Hje. injection Hje as ->.
  assert (Hp1eq : exists f, p1 = fst (updateFromDevice now (Own f) wg p)).
  { destruct Hu as [[Hk _]|(wg' & f & Hin' & Hk' & ->)].
    - destruct Hk. apply list_elem_of_fmap. by exists wg.
    - exists f. f_equal. f_equal. by apply (map_NoDup_inj wg_PublicKey current); [..|congruence]. }
  destruct Hp1eq as [f ->].
  assert (Hold : told_of key now (snd (fold_left (update_from now) current (n, []))) = []).
  { rewrite (update_events now current key p); [done|done|]. intros wg' Hin' Hk'.
    assert (wg' = wg) as -> by (by apply (map_NoDup_inj wg_PublicKey current); [..|congruence]). by rewrite Hwe, He. }
  pose proof (for_key_peers key mid _ changes Hp1 Hkmid Hchanges) as Hfor.
  assert (Hafter : holds w' key (default (deref e) (last (for_key key changes))) h /\
    told_of key now events = map (pair now) (for_key key changes)).
  { destruct changes as [|ch changes].
    - injection Hend as -> ->. rewrite app_nil_r. by split.
    - destruct (Happ (ch :: changes) w) as (w2 & Hc2 & Hset). rewrite Hc2 in Hend. injection Hend as -> ->.
      split; [by apply (Hset key (deref e) h)|]. rewrite told_of_app, Hold. exact (told_of_changes key now (ch :: changes)). }
  destruct Hafter as [Hw' ->].
  pose proof (silent_update all j c h now (Own f) (n_fresh n) (n_fresh n) (n_fresh n') wg p p2 Hnd Hh Hs) as Hsil.
  rewrite He, Hwe in Hsil. specialize (Hsil eq_refl Hwh (conj (le_n _) Hfresh) Hr). rewrite Hfor in *.
  destruct (now - c <? endpointConnectionTimeout).
  - destruct Hsil as [Hno Hs2]. rewrite Hno in *. by split_and!.
  - destruct Hsil as (a & Ha & Hja & Hs2). rewrite Ha in *. exists a. by split_and!.
Qed.

(** The whole state before a tick: the endpoint of the silent peer is the [j]-th, set at [c]. *)
Record silent_state (key : string) (all : list AddrPort) (h : Z) (j : nat) (c : Z) (n : Network) (w : W) : Prop := {
  ss_keyed : keyed n;
  ss_peer : exists p, entries (n_peers n) !! key = Some p /\ silent_peer all j c (n_fresh n) p;
  ss_device : exists a, all !! j = Some a /\ holds w key a h }.

Lemma silent_state_tick key all h j c n w site now happens :
  patches_applied -> silent key h happens -> NoDup all -> h <= c -> silent_state key all h j c n w ->
  let '(n', w', events) := tick valid_key Device ConfigureDevice site now n (happens w) in
  if now - c <? endpointConnectionTimeout
  then told_of key now events = [] /\ silent_state key all h j c n' w'
  else exists a, told_of key now events = [(now, a)] /\ all !! (S j mod length all)%nat = Some a /\
         silent_state key all h (S j mod length all) now n' w'.
Proof.
  intros Happ Hsil Hnd Hh [Hk (p & Hp & Hs) (a0 & Hj & Hw)].
  pose proof (silent_tick site now n (happens w) key p all j c h a0 Happ Hk Hp Hnd Hh Hs Hj (Hsil w a0 Hw)) as Ht.
  destruct (tick _ _ _ site now n (happens w)) as [[n' w'] events]. destruct Ht as (Hk' & p' & Hp' & Ht).
  destruct (now - c <? endpointConnectionTimeout).
  - destruct Ht as (H1 & H2 & H3). split; [done|]. constructor; [done|by exists p'|by exists a0].
  - destruct Ht as (a & H1 & H2 & H3 & H4). exists a. split_and!; [done..|]. constructor; [done|by exists p'|by exists a].
Qed.

Definition times (ts : list (nat * Z * (W -> W))) : list Z := map (fun t => t.1.2) ts.

Lemma ticks_walk key all h g ts : forall prev j c n w, patches_applied -> Forall (fun t => silent key h t.2) ts ->
  NoDup all -> h <= c -> silent_state key all h j c n w -> c <= prev -> often g prev (times ts) ->
  let '(n', w', rs) := ticks key ts n w in
  spaced c rs /\ (forall i t a, rs !! i = Some (t, a) -> all !! ((S j + i) mod length all)%nat = Some a) /\
  exists a0, all !! j = Some a0 /\ holds w' key (default a0 (snd <$> last rs)) h.
Proof.
  induction ts as [|[[site now] happens] ts IH]; intros prev j c n w Happ Hsil Hnd Hh Hs Hc Hg; cbn [ticks].
  { split_and!; [done..|]. destruct (ss_device _ _ _ _ _ _ _ Hs) as (a & Ha & Hw). by exists a. }
  apply Forall_cons in Hsil as [Hsil1 Hsil]. destruct Hg as [Hnow Hg]. cbn [fst snd] in Hnow, Hg. fold (times ts) in Hg.
  pose proof (silent_state_tick key all h j c n w site now happens Happ Hsil1 Hnd Hh Hs) as Ht.
  destruct (tick _ _ _ site now n (happens w)) as [[n1 w1] events].
  destruct (Z.ltb_spec (now - c) endpointConnectionTimeout) as [Hlt|Hge].
  - destruct Ht as [-> Hs1]. specialize (IH now j c n1 w1 Happ Hsil Hnd Hh Hs1).
    destruct (ticks key ts n1 w1) as [[n2 w2] rs]. cbn [app]. apply IH; [lia|done].
  - destruct Ht as (a & -> & Ha & Hs1). specialize (IH now (S j mod length all)%nat now n1 w1 Happ Hsil Hnd).
    destruct (ticks key ts n1 w1) as [[n2 w2] rs]. cbn [app].
    destruct IH as (H1 & H2 & a1 & Ha1 & Hw); [lia|done|lia|done|]. rewrite Ha in Ha1. injection Ha1 as <-.
    destruct (ss_device _ _ _ _ _ _ _ Hs) as (a0 & Ha0 & _). split_and!.
    + split; [lia|done].
    + intros [|i] t b Hi; cbn in Hi; [injection Hi as <- <-; by rewrite Nat.add_0_r|]. apply H2 in Hi. by rewrite <- mod_walk.
    + exists a0. split; [done|]. rewrite last_cons. by destruct (last rs).
Qed.

Lemma ticks_length key all h g ts : forall prev j c n w m, patches_applied -> Forall (fun t => silent key h t.2) ts ->
  NoDup all -> h <= c -> silent_state key all h j c n w ->
  c <= prev < c + endpointConnectionTimeout -> 0 <= g -> often g prev (times ts) ->
  c + Z.of_nat m * (endpointConnectionTimeout + g) <= last_time prev (times ts) ->
  (m <= length (snd (ticks key ts n w)))%nat.
Proof.
  induction ts as [|[[site now] happens] ts IH]; intros prev j c n w m Happ Hsil Hnd Hh Hs Hc Hg0 Hg Hlast; cbn [ticks].
  { unfold last_time in Hlast. cbn in Hlast. destruct m; [done|]. unfold endpointConnectionTimeout, second in *. nia. }
  apply Forall_cons in Hsil as [Hsil1 Hsil]. destruct Hg as [Hnow Hg]. cbn [times map fst snd] in Hlast. rewrite last_time_cons in Hlast.
  cbn [fst snd] in Hnow, Hg. fold (times ts) in Hg, Hlast.
  pose proof (silent_state_tick key all h j c n w site now happens Happ Hsil1 Hnd Hh Hs) as Ht.
  destruct (tick _ _ _ site now n (happens w)) as [[n1 w1] events].
  destruct (Z.ltb_spec (now - c) endpointConnectionTimeout) as [Hlt|Hge].
  - destruct Ht as [-> Hs1]. specialize (IH now j c n1 w1 m Happ Hsil Hnd Hh Hs1).
    destruct (ticks key ts n1 w1) as [[n2 w2] rs]. cbn [app snd] in *. apply IH; [lia|done..].
  - destruct Ht as (a & -> & Ha & Hs1). destruct m as [|m]; [lia|].
    specialize (IH now (S j mod length all)%nat now n1 w1 m Happ Hsil Hnd).
    destruct (ticks key ts n1 w1) as [[n2 w2] rs]. cbn [app snd length] in *. apply le_n_S. apply IH; [lia|done| |done|done|].
    + unfold endpointConnectionTimeout, second in *. lia.
    + rewrite Nat2Z.inj_succ in Hlast. unfold endpointConnectionTimeout, second in *. lia.
Qed.
End Silent.


(** ** Properties *)



(** C24: the endpoints of a peer that does not answer. Take a peer with at least two distinct
    endpoints, whose device accepts patches and sees no handshake of the peer since its endpoint was
    set, whatever else happens to the device and to the other peers between the ticks of the control loop. Then the loop
    tells the watchers of a new endpoint of the peer at most once in every connection timeout; these are the
    advertised endpoints in their order, round and round; the device always has the last of them;
    and if the loop ticks at least every [g], it has tried all of them after as many
    times the timeout and [g]. *)
Theorem rotation_tries_every_endpoint {HO : GoOrder} {W E} (valid_key : string -> bool) (Device : W -> result E (list WgPeer))
  (ConfigureDevice : WgConfig -> W -> W * result E unit) (key : string) (all : list AddrPort) (j : nat) (c prev h g : Z)
  (ts : list (nat * Z * (W -> W))) (n : Network) (w : W) :
  patches_applied Device ConfigureDevice -> Forall (fun t => silent Device key h t.2) ts ->
  silent_state valid_key Device key all h j c n w -> NoDup all -> h <= c -> 0 <= g ->
  c <= prev < c + endpointConnectionTimeout -> often g prev (times ts) ->
  let '(n', w', rs) := ticks valid_key Device ConfigureDevice key ts n w in
  spaced c rs /\
  (forall i t a, rs !! i = Some (t, a) -> all !! ((S j + i) mod length all)%nat = Some a) /\
  (exists a0, all !! j = Some a0 /\ holds Device w' key (default a0 (snd <$> last rs)) h) /\
  (c + Z.of_nat (length all) * (endpointConnectionTimeout + g) <= last_time prev (times ts) ->
     forall a, a ∈ all -> exists t, (t, a) ∈ rs).
Proof.
  intros Happ Hsil Hs Hnd Hh Hg0 Hc Hg.
  pose proof (ticks_walk valid_key Device ConfigureDevice key all h g ts prev j c n w Happ Hsil Hnd Hh Hs (proj1 Hc) Hg) as Hw.
  pose proof (ticks_length valid_key Device ConfigureDevice key all h g ts prev j c n w (length all) Happ Hsil Hnd Hh Hs Hc Hg0 Hg) as Hlen.
  destruct (ticks _ _ _ key ts n w) as [[n' w'] rs]. destruct Hw as (H1 & H2 & H3). split_and!; [done..|].
  intros Hlast a Ha. specialize (Hlen Hlast). cbn [snd] in Hlen. destruct (walk_visits all j a Ha) as (i & Hi & Hia).
  destruct (lookup_lt_is_Some_2 rs i) as [[t b] Hb]; [lia|]. exists t. pose proof (H2 i t b Hb) as Hb'.
  rewrite Hia in Hb'. injection Hb' as ->. by apply list_elem_of_lookup_2 in Hb.
Qed.


(** ** A peer that does not answer *)
Definition ep (port : Z) : AddrPort := mkAddrPort (Addr4 167772161) port.
Definition silent_config (all : list AddrPort) (e : option pointer) : PeerConfig :=
  mkPeerConfig None (Addr4 1) e (mkEndpoints 0 all) "key".
Definition peer_of_two : peer :=
  mkPeer (silent_config [ep 1; ep 2] (first_element (mkEndpoints 0 [ep 1; ep 2]))) 0 0 0 0 PeerStatusUnknown.

Definition ticks_every (g : Z) (k : nat) : list (nat * Z * (list WgPeer -> list WgPeer)) :=
  map (fun i => (0%nat, Z.of_nat i * g, id)) (seq 1 k).

(** A device that is the list of its peers: a configuration sets the endpoints of those it names. *)
Definition set_endpoint (wc : WgConfig) (wg : WgPeer) : WgPeer :=
  let given := last (omap (fun pc => if decide (wc_PublicKey pc = wg_PublicKey wg) then wc_Endpoint pc else None) (wgc_Peers wc)) in
  mkWgPeer (wg_PublicKey wg) (match given with Some a => Some a | None => wg_Endpoint wg end)
    (wg_LastHandshakeTime wg) (wg_ReceiveBytes wg) (wg_TransmitBytes wg).

Definition list_device (w : list WgPeer) : result unit (list WgPeer) := Ok w.
Definition list_configure (wc : WgConfig) (w : list WgPeer) : list WgPeer * result unit unit := (map (set_endpoint wc) w, Ok tt).

Lemma list_patches_applied : patches_applied list_device list_configure.
Proof.
  intros changes w. eexists. split; [done|]. intros key a h (current & wg & [= <-] & Hnd & Hin & Hk & He & Hh).
  eexists _, (set_endpoint (endpoint_patch changes) wg). split; [done|]. split_and!; try done.
  - by rewrite map_map.
  - apply list_elem_of_fmap. by exists wg.
  - assert (Hgiven : omap (fun pc => if decide (wc_PublicKey pc = wg_PublicKey wg) then wc_Endpoint pc else None)
        (wgc_Peers (endpoint_patch changes)) = omap (fun ka => if decide (ka.1 = key) then Some ka.2 else None) changes).
    { rewrite Hk. cbn [endpoint_patch wgc_Peers]. clear. induction changes as [|[k b] changes IH]; [done|]. cbn in IH |- *.
      destruct (decide (k = key)); cbn; by rewrite IH. }
    unfold set_endpoint. cbn [wg_Endpoint]. rewrite Hgiven, He. unfold endpoint_in. by destruct (last _).
Qed.

Definition device_of (p : peer) : list WgPeer := [mkWgPeer "key" (deref <$> pc_Endpoint (p_config p)) 0 0 0].
Definition ticks_on_list : string -> list (nat * Z * (list WgPeer -> list WgPeer)) -> Network -> list WgPeer -> Network * list WgPeer * list (Z * AddrPort) :=
  @ticks go_identity_order _ unit (fun _ => true) list_device list_configure.

Lemma rotation_tries_every_endpoint_witness :
  exists t, (t, ep 1) ∈ snd (ticks_on_list "key" (ticks_every (5 * second) 10) (mkNetwork (Some {["key" := peer_of_two]}) 3) (device_of peer_of_two)).
Proof.
  assert (Ho : often (5 * second) 0 (times (ticks_every (5 * second) 10))) by (cbn; unfold second; lia).
  pose proof (@rotation_tries_every_endpoint go_identity_order (list WgPeer) unit (fun _ => true) list_device list_configure "key"
    [ep 1; ep 2] 0 0 0 0 (5 * second) (ticks_every (5 * second) 10) (mkNetwork (Some {["key" := peer_of_two]}) 3) (device_of peer_of_two)
    list_patches_applied) as H. unfold ticks_on_list.
  destruct (ticks _ _ _ _ _ _ _) as [[n' w'] rs]. cbn [snd]. apply H.
  - apply Forall_forall. intros t (i & -> & _)%list_elem_of_fmap w a Hw. exact Hw.
  - constructor.
    + unfold keyed. cbn [n_peers]. rewrite entries_Some. by apply map_Forall_singleton.
    + exists peer_of_two. split; [by apply lookup_singleton_eq|]. split_and!; [done|cbn; lia|done|].
      eexists. split_and!; [done..|]. intros m [=].
    + exists (ep 1). split; [done|]. exists (device_of peer_of_two), (mkWgPeer "key" (Some (ep 1)) 0 0 0).
      split_and!; try done; [apply NoDup_singleton|left].
  - apply NoDup_cons. split; [set_solver|]. apply NoDup_singleton.
  - done.
  - unfold second. lia.
  - unfold endpointConnectionTimeout, second. lia.
  - exact Ho.
  - vm_compute. done.
  - left.
Defined.

(** The network of that peer when its device has not seen a handshake for twenty seconds. *)
Definition network_of_two : Network := mkNetwork (Some {["key" := peer_of_two]}) 3.

(** Reconfigured with the same peer, while the device still has another one. *)
Definition config_of_two : Config :=
  mkConfig NoPrefix (Addr4 1) 0 0 (Some "private") (Some "public") [p_config peer_of_two].


(** The endpoints of a silent peer over [k] ticks, one in sixteen seconds. *)
Definition endpoints_told (k : nat) (p : peer) : list AddrPort :=
  map snd (snd (ticks_on_list "key" (ticks_every (16 * second) k) (mkNetwork (Some {["key" := p]}) 8) (device_of p))).

(** The only endpoint of a peer is rotated to itself, every connection timeout, unless it is
    the pointer to the first element of the slice. *)
Example single_endpoint_rotates :
  let at_slice := first_element (mkEndpoints 0 [ep 1]) in
  let at_copy := Some (mkPtr (Own 7) (ep 1)) in
  let told e := endpoints_told 3 (mkPeer (silent_config [ep 1] e) 0 0 0 0 PeerStatusUnknown) in
  told at_slice = [] /\ told at_copy = [ep 1; ep 1; ep 1].
Proof. by split; vm_compute. Qed.

(** A repeated endpoint hides the ones after it: the third is never tried. *)
Example repeated_endpoint_hides :
  endpoints_told 6 (mkPeer (silent_config [ep 1; ep 2; ep 1; ep 3] (Some (mkPtr (Own 0) (ep 1)))) 0 0 0 0 PeerStatusUnknown) =
  [ep 2; ep 1; ep 2; ep 1; ep 2; ep 1].
Proof. by vm_compute. Qed.

(** An endpoint that is the same address but another pointer loses the status of the peer. *)
Example equal_endpoint_resets :
  let config n := silent_config [ep 1; ep 2] (Some (mkPtr (Own n) (ep 2))) in
  let p := mkPeer (config 0%nat) 5 9 0 0 PeerStatusUp in
  status (updateConfig 100 (config 0%nat) p) = PeerStatusUp /\ status (updateConfig 100 (config 1%nat) p) = PeerStatusUnknown.
Proof. by split. Qed.
