(* ===== verification/Link.v ===== *)
(** * Link: the network interface of WireGuard, [internal/machine/network]

    The part of [wireguard_linux.go] that talks to the kernel about the link: its creation,
    its addresses, its MTU, its flags and the routes to the peers ([createOrGetLink],
    [Configure], [updateAddresses], [updatePeerRoutes], [Run], [notifyWatchers],
    [Cleanup]), and the conversions of [ip.go].  The device and its peers are in [Network].

    The [netlink] package is the record [Netlink] of operations with the class [NetlinkSpec]
    of what the kernel documents about addresses and routes; the ranges of [netipx] extend
    the class of [Ipam].  Byte slices are lists of [Z]. *)

From S2P Require Import Prelude GoStrings NetAddr NetText Ipam Network.
#[local] Open Scope string_scope.
#[local] Open Scope list_scope.
#[local] Open Scope Z_scope.

(** ** Addresses as bytes *)
(** The bytes of an integer, the most significant first. *)
Fixpoint be_bytes (n : nat) (v : Z) : list Z :=
  match n with O => [] | S n => be_bytes n (Z.shiftr v 8) ++ [Z.land v 255] end.

(** [Addr.AsSlice]; [nil] for the zero address. *)
Definition AsSlice (a : addr) : list Z :=
  match a with NoAddr => [] | Addr4 v => be_bytes 4 v | Addr6 v _ => be_bytes 16 v end.

Definition AddrFromSlice (b : list Z) : option addr :=
  if Nat.eqb (length b) 4 then Some (Addr4 (bytes_val b))
  else if Nat.eqb (length b) 16 then Some (Addr6 (bytes_val b) "")
  else None.

Definition Is4In6 (a : addr) : bool := match a with Addr6 v _ => is4in6 v | _ => false end.
Definition Unmap (a : addr) : addr :=
  match a with Addr6 v _ => if is4in6 v then Addr4 (v mod 2 ^ 32) else a | _ => a end.

(** ** Masks *)
Fixpoint mask_bytes (l : nat) (n : Z) : list Z :=
  match l with
  | O => []
  | S l => if 8 <=? n then 255 :: mask_bytes l (n - 8) else Z.lxor 255 (Z.shiftr 255 n) :: mask_bytes l 0
  end.

(** [net.CIDRMask]; [nil] for lengths out of range. *)
Definition CIDRMask (ones bits : Z) : list Z :=
  if negb ((bits =? 32) || (bits =? 128)) || (ones <? 0) || (bits <? ones) then []
  else mask_bytes (Z.to_nat (bits / 8)) ones.

(** The loop that shifts the leading ones out of a byte, and what is left of it. *)
Fixpoint leading_ones (fuel : nat) (v : Z) : Z * Z :=
  match fuel with
  | O => (0, v)
  | S fuel => if Z.testbit v 7
              then let (n, v) := leading_ones fuel (Z.land (Z.shiftl v 1) 255) in (n + 1, v)
              else (0, v)
  end.

(** [simpleMaskLength]; [None] is -1. *)
Fixpoint simpleMaskLength (m : list Z) : option Z :=
  match m with
  | [] => Some 0
  | v :: rest =>
      if v =? 255 then Z.add 8 <$> simpleMaskLength rest
      else let (n, v) := leading_ones 8 v in
           if (v =? 0) && forallb (Z.eqb 0) rest then Some n else None
  end.

(** [IPMask.Size] *)
Definition Mask_Size (m : list Z) : Z * Z :=
  match simpleMaskLength m with Some ones => (ones, 8 * Z.of_nat (length m)) | None => (0, 0) end.

(** ** Networks: [net.IPNet] *)
Record IPNet := mkIPNet { n_IP : list Z; n_Mask : list Z }.
#[global] Instance IPNet_eq_dec : EqDecision IPNet.
Proof. solve_decision. Defined.

Definition prefixToIPNet (p : prefix) : IPNet :=
  mkIPNet (AsSlice (prefix_addr p)) (CIDRMask (prefix_bits p) (BitLen (prefix_addr p))).

Inductive ip_error := InvalidIPNetwork | InvalidMaskLength (l : nat) | NonContiguousMask.

Definition ipNetToPrefix (n : IPNet) : result ip_error prefix :=
  match AddrFromSlice (n_IP n) with
  | None => Err InvalidIPNetwork
  | Some ip =>
      let ip := Unmap ip in
      let l := length (n_Mask n) in
      if negb (Nat.eqb l 4 || Nat.eqb l 16) then Err (InvalidMaskLength l)
      else let (ones, bits) := Mask_Size (n_Mask n) in
           if (ones =? 0) && (bits =? 0) then Err NonContiguousMask
           else Ok (PrefixFrom ip ones)
  end.

(** [IP.To4] *)
Definition To4 (b : list Z) : option (list Z) :=
  if Nat.eqb (length b) 4 then Some b
  else if Nat.eqb (length b) 16 && forallb (Z.eqb 0) (take 10 b) && forallb (Z.eqb 255) (take 2 (drop 10 b))
  then Some (drop 12 b)
  else None.

Definition networkNumberAndMask (n : IPNet) : option (list Z * list Z) :=
  match (match To4 (n_IP n) with Some b => Some b | None => if Nat.eqb (length (n_IP n)) 16 then Some (n_IP n) else None end) with
  | None => None
  | Some ip =>
      if Nat.eqb (length (n_Mask n)) 4 then (if Nat.eqb (length ip) 4 then Some (ip, n_Mask n) else None)
      else if Nat.eqb (length (n_Mask n)) 16 then
        Some (ip, if Nat.eqb (length ip) 4 then drop 12 (n_Mask n) else n_Mask n)
      else None
  end.

(** [IP.String], of four or sixteen bytes. *)
Definition IP_String (b : list Z) : string :=
  match To4 b with
  | Some b => string4 (bytes_val b)
  | None => addr_String (Addr6 (bytes_val b) "")
  end.

Definition hex_byte (b : Z) : string := String (hex_char (b / 16)) (String (hex_char (b mod 16)) "").

(** [IPNet.String] *)
Definition IPNet_String (n : IPNet) : string :=
  match networkNumberAndMask n with
  | None => "<nil>"
  | Some (ip, m) =>
      match simpleMaskLength m with
      | None => IP_String ip +:+ "/" +:+ join "" (map hex_byte m)
      | Some l => IP_String ip +:+ "/" +:+ sprint l
      end
  end.

(** ** The kernel's links, addresses and routes *)
(** What [Link.Attrs] returns, fixed when the link is fetched. *)
Record Link := mkLink { l_Name : string; l_Index : Z; l_MTU : Z; l_Flags : Z }.

(** [r_Other]: the attributes that are not set here (metric, protocol, table). *)
Record Route := mkRoute { r_LinkIndex : Z; r_Scope : Z; r_Dst : option IPNet; r_Src : list Z; r_Other : Z }.
#[global] Instance Route_eq_dec : EqDecision Route.
Proof. solve_decision. Defined.

Inductive errno := EEXIST | OtherErrno (text : string).
Inductive find_error := LinkNotFoundError | FindFailed (text : string).

Record Netlink (S : Type) := mkNetlink {
  nl_LinkByName : string -> S -> result find_error Link;
  nl_LinkAdd : string -> S -> S * option string;           (* a link of type wireguard *)
  nl_LinkSetMTU : Link -> Z -> S -> S * option string;
  nl_LinkSetUp : Link -> S -> S * option string;
  nl_LinkDel : Link -> S -> S * option string;
  nl_AddrAdd : Link -> IPNet -> S -> S * option errno;
  nl_AddrList : Link -> S -> result string (list IPNet);
  nl_AddrDel : Link -> IPNet -> S -> S * option string;
  nl_RouteAdd : Route -> S -> S * option errno;
  nl_RouteList : Link -> S -> result string (list Route);
  nl_RouteDel : Route -> S -> S * option string
}.
Arguments nl_LinkByName {S}. Arguments nl_LinkAdd {S}. Arguments nl_LinkSetMTU {S}. Arguments nl_LinkSetUp {S}.
Arguments nl_LinkDel {S}. Arguments nl_AddrAdd {S}. Arguments nl_AddrList {S}. Arguments nl_AddrDel {S}.
Arguments nl_RouteAdd {S}. Arguments nl_RouteList {S}. Arguments nl_RouteDel {S}.

(** The ranges of a set of [netipx]: prefixes in canonical form that contain the addresses
    of the prefixes the set was built from. *)
Class NetipxRanges `{Netipx} := { Prefixes : IPSet -> list prefix }.
Class NetipxRangesSpec `{NetipxRanges} : Prop := {
  Prefixes_spec : forall ps s, Forall prefix_wf ps -> builder_IPSet (fold_left AddPrefix ps new_builder) = Some s ->
    Forall (fun p => prefix_wf p /\ canonical p) (Prefixes s) /\
    forall a, existsb (fun p => prefix_Contains p a) (Prefixes s) = existsb (fun p => prefix_Contains p a) ps
}.

Definition SCOPE_LINK : Z := 253.
Definition IFF_UP : Z := 1.

Inductive link_error :=
| FindLink (e : string) | CreateLink (e : string) | FindCreatedLink (e : find_error)
| DeviceError (e : @network_error string) | ParseManagementIP
| AddAddress (e : errno) | ListAddresses (e : string) | RemoveAddress (n : IPNet) (e : string)
| SetMTU (mtu : Z) (e : string) | SetUp (e : string)
| PeerAddresses | BuildRanges | AddRoute (e : errno) | ListRoutes (e : string) | ParseDestination (e : ip_error)
| RemoveRoute (r : Route) (e : string)
| AlreadyRunning | StillRunning | DeleteLink (e : string)
| LinkPanic.    (* a nil destination or a nil link *)

Section Link.
Context {S : Type} (nl : Netlink S).
#[local] Open Scope st_scope.
Notation program A := (stateful S link_error A).

Definition createOrGetLink (name : string) : program Link := fun s =>
  match nl_LinkByName nl name s with
  | Ok link => (s, Ok link)
  | Err (FindFailed e) => (s, Err (FindLink e))
  | Err LinkNotFoundError =>
      (let* _ := st_call CreateLink (nl_LinkAdd nl name) in
       st_read (fun s => wrap_err FindCreatedLink (nl_LinkByName nl name s))) s
  end.

(** *** Addresses *)
(** An address or a route that is there already is fine. *)
Definition unless_exists (wrap : errno -> link_error) (op : S -> S * option errno) : program unit := fun s =>
  match op s with
  | (s', None) | (s', Some EEXIST) => (s', Ok tt)
  | (s', Some e) => (s', Err (wrap e))
  end.

Fixpoint add_addresses (link : Link) (addrs : list prefix) : program unit :=
  match addrs with
  | [] => st_ret tt
  | a :: rest =>
      let* _ := unless_exists AddAddress (nl_AddrAdd nl link (prefixToIPNet a)) in
      add_addresses link rest
  end.

Fixpoint remove_addresses (link : Link) (addrs : list prefix) (linkAddrs : list IPNet) : program unit :=
  match linkAddrs with
  | [] => st_ret tt
  | n :: rest =>
      if existsb (fun a => String.eqb (IPNet_String n) (prefix_String a)) addrs then remove_addresses link addrs rest
      else let* _ := st_call (RemoveAddress n) (nl_AddrDel nl link n) in remove_addresses link addrs rest
  end.

Definition updateAddresses (link : Link) (addrs : list prefix) : program unit :=
  let* _ := add_addresses link addrs in
  let* linkAddrs := st_read (fun s => wrap_err ListAddresses (nl_AddrList nl link s)) in
  remove_addresses link addrs linkAddrs.

(** *** Routes *)
Section Routes.
Context `{NetipxRanges}.

(** The prefixes of the peers, added to the builder in the order of the range. *)
Fixpoint add_peers (b : IPSetBuilder) (peers : list (string * peer)) : option IPSetBuilder :=
  match peers with
  | [] => Some b
  | (_, p) :: rest =>
      match prefixes (p_config p) with
      | None => None
      | Some ps => add_peers (fold_left AddPrefix ps b) rest
      end
  end.

Definition peer_route (link : Link) (machineIP : addr) (p : prefix) : Route :=
  mkRoute (l_Index link) SCOPE_LINK (Some (prefixToIPNet p))
    (match prefix_addr p with Addr4 _ => AsSlice machineIP | _ => [] end) 0.

Fixpoint add_routes (link : Link) (machineIP : addr) (ranges : list prefix) : program unit :=
  match ranges with
  | [] => st_ret tt
  | p :: rest =>
      let* _ := unless_exists AddRoute (nl_RouteAdd nl (peer_route link machineIP p)) in
      add_routes link machineIP rest
  end.

Fixpoint remove_routes (ranges : list prefix) (routes : list Route) : program unit :=
  match routes with
  | [] => st_ret tt
  | r :: rest =>
      match r_Dst r with
      | None => st_throw LinkPanic
      | Some dst =>
          match ipNetToPrefix dst with
          | Err e => st_throw (ParseDestination e)
          | Ok p =>
              if decide (p ∈ ranges) then remove_routes ranges rest
              else let* _ := st_call (RemoveRoute r) (nl_RouteDel nl r) in remove_routes ranges rest
          end
      end
  end.

Definition updatePeerRoutes `{GoOrder} (site : nat) (link : Link) (peers : gmap string peer) (machineIP : addr) : program unit :=
  match add_peers new_builder (range_map site peers) with
  | None => st_throw PeerAddresses
  | Some b =>
      match builder_IPSet b with
      | None => st_throw BuildRanges
      | Some ipset =>
          let* _ := add_routes link machineIP (Prefixes ipset) in
          let* routes := st_read (fun s => wrap_err ListRoutes (nl_RouteList nl link s)) in
          remove_routes (Prefixes ipset) routes
      end
  end.

(** ** The network *)
(** [wn_link]: [None] after the clean-up; [wn_watchers]: the channels, closed or not. *)
Record WireGuardNetwork := mkWireGuardNetwork {
  wn_link : option Link; wn_net : Network; wn_watchers : list bool; wn_running : bool
}.

Definition NewWireGuardNetwork : program WireGuardNetwork :=
  let* link := createOrGetLink "uncloud" in    (* WireGuardInterfaceName *)
 
  st_ret (mkWireGuardNetwork (Some link) (mkNetwork None 0) [] false).

Definition WatchEndpoints (n : WireGuardNetwork) : WireGuardNetwork :=
  mkWireGuardNetwork (wn_link n) (wn_net n) (wn_watchers n ++ [false]) (wn_running n).

(** The WireGuard device of a link. *)
Context (valid_key : string -> bool) (Device : string -> S -> result string (list WgPeer))
  (ConfigureDevice : string -> WgConfig -> S -> S * result string unit).

(** The rest of [Configure], once the device is configured. *)
Definition configure_link `{GoOrder} (site : nat) (link : Link) (c : Config) (peers : gmap string peer) : program unit :=
  match addrToSingleIPPrefix (cf_ManagementIP c) with
  | None => st_throw ParseManagementIP
  | Some managementPrefix =>
      let* _ := updateAddresses link [managementPrefix] in
      let* _ := (if l_MTU link =? EffectiveMTU c then st_ret tt
                 else st_call (SetMTU (EffectiveMTU c)) (nl_LinkSetMTU nl link (EffectiveMTU c))) in
      let* _ := (if Z.land (l_Flags link) IFF_UP =? IFF_UP then st_ret tt else st_call SetUp (nl_LinkSetUp nl link)) in
      updatePeerRoutes site link peers (MachineIP (cf_Subnet c))
  end.

Definition with_net (n : WireGuardNetwork) (net : Network) : WireGuardNetwork :=
  mkWireGuardNetwork (wn_link n) net (wn_watchers n) (wn_running n).

Definition Configure `{GoOrder} (site : nat) (now : Z) (c : Config) (n : WireGuardNetwork) (s : S) :
  WireGuardNetwork * S * result link_error unit :=
  match wn_link n with
  | None => (n, s, Err LinkPanic)
  | Some link =>
      match configureDevice valid_key (Device (l_Name link)) (ConfigureDevice (l_Name link)) now c (wn_net n) s with
      | (net, s, Err e) => (with_net n net, s, Err (DeviceError e))
      | (net, s, Ok _) => let (s, r) := configure_link site link c (entries (n_peers net)) s in (with_net n net, s, r)
      end
  end.

(** *** The control loop *)
(** What became of an event offered to a watcher. *)
Inductive offer := Received | TimedOut | Cancelled.

(** The events one watcher takes, and the offer that ended the notification, if any. *)
Fixpoint notify_watcher (answer : nat -> offer) (i : nat) (events : list EndpointChangeEvent) :
  list EndpointChangeEvent * option offer :=
  match events with
  | [] => ([], None)
  | e :: rest =>
      match answer i with
      | Received => let (taken, stop) := notify_watcher answer (Datatypes.S i) rest in (e :: taken, stop)
      | o => ([], Some o)
      end
  end.

(** The events each watcher takes; [true] is the timeout error. *)
Fixpoint notifyWatchers (answer : nat -> nat -> offer) (w : nat) (watchers : list bool) (events : list EndpointChangeEvent) :
  list (list EndpointChangeEvent) * bool :=
  match watchers with
  | [] => ([], false)
  | _ :: rest =>
      match notify_watcher (answer w) 0 events with
      | (taken, None) => let (more, e) := notifyWatchers answer (Datatypes.S w) rest events in (taken :: more, e)
      | (taken, Some o) => (taken :: map (fun _ => []) rest, match o with TimedOut => true | _ => false end)
      end
  end.

Inductive loop_event := Ticker (site : nat) (now : Z) | ContextDone.

(** The loop of [Run]: the ticks until the context is cancelled, with the events of each. *)
Fixpoint run_loop `{GoOrder} (events : list loop_event) (n : WireGuardNetwork) (s : S) :
  WireGuardNetwork * S * result link_error (list (list EndpointChangeEvent)) :=
  match events with
  | [] => (n, s, Ok [])
  | ContextDone :: _ => (mkWireGuardNetwork (wn_link n) (wn_net n) (map (fun _ => true) (wn_watchers n)) false, s, Ok [])
  | Ticker site now :: rest =>
      match wn_link n with
      | None => (n, s, Err LinkPanic)
      | Some link =>
          let '(net, s, changes) :=
            tick valid_key (Device (l_Name link)) (ConfigureDevice (l_Name link)) site now (wn_net n) s in
          let '(n, s, more) := run_loop rest (with_net n net) s in
          (n, s, match more with Ok more => Ok (changes :: more) | Err e => Err e end)
      end
  end.

Definition Run `{GoOrder} (events : list loop_event) (n : WireGuardNetwork) (s : S) :
  WireGuardNetwork * S * result link_error (list (list EndpointChangeEvent)) :=
  if wn_running n then (n, s, Err AlreadyRunning)
  else run_loop events (mkWireGuardNetwork (wn_link n) (wn_net n) (wn_watchers n) true) s.

Definition Cleanup (n : WireGuardNetwork) (s : S) : WireGuardNetwork * S * result link_error unit :=
  if wn_running n then (n, s, Err StillRunning)
  else match wn_link n with
       | None => (n, s, Err LinkPanic)
       | Some link =>
           match nl_LinkDel nl link s with
           | (s, Some e) => (n, s, Err (DeleteLink e))
           | (s, None) => (mkWireGuardNetwork None (wn_net n) (wn_watchers n) false, s, Ok tt)
           end
       end.
End Routes.
End Link.

(** ** Bytes and masks *)
Lemma length_be_bytes n v : length (be_bytes n v) = n.
Proof. revert v; induction n as [|n IH]; intros v; cbn; [done|]. rewrite length_app, IH. cbn. lia. Qed.

Lemma bytes_val_app l b : bytes_val (l ++ [b]) = bytes_val l * 256 + b.
Proof. unfold bytes_val. by rewrite fold_left_app. Qed.

Lemma bytes_val_be_bytes n v : 0 <= v < 256 ^ Z.of_nat n -> bytes_val (be_bytes n v) = v.
Proof.
  revert v; induction n as [|n IH]; intros v Hv; [cbn in *; lia|].
  cbn [be_bytes]. rewrite bytes_val_app. rewrite Nat2Z.inj_succ, Z.pow_succ_r in Hv by lia.
  change 255 with (Z.ones 8). rewrite Z.shiftr_div_pow2, Z.land_ones by lia. change (2 ^ 8) with 256.
  rewrite IH; [pose proof (Z.div_mod v 256); lia|]. split; [apply Z.div_pos; lia|]. apply Z.div_lt_upper_bound; lia.
Qed.

Lemma AddrFromSlice_AsSlice a : addr_wf a -> IsValid a = true -> AddrFromSlice (AsSlice a) = Some (withoutZone a).
Proof.
  unfold AddrFromSlice, addr_wf. destruct a as [|v|v z]; [done| |]; cbn [AsSlice addr_val BitLen withoutZone]; intros Hv _;
    rewrite length_be_bytes; cbn [Nat.eqb]; by rewrite bytes_val_be_bytes.
Qed.

Lemma length_mask_bytes l n : length (mask_bytes l n) = l.
Proof. revert n; induction l as [|l IH]; intros n; cbn; [done|]. destruct (8 <=? n); cbn; by rewrite IH. Qed.

Lemma mask_bytes_zero l : forallb (Z.eqb 0) (mask_bytes l 0) = true.
Proof. induction l; cbn; done. Qed.

(** The byte with [n] leading ones. *)
Lemma partial_byte n : 0 <= n < 8 ->
  (Z.lxor 255 (Z.shiftr 255 n) =? 255) = false /\ leading_ones 8 (Z.lxor 255 (Z.shiftr 255 n)) = (n, 0).
Proof.
  intros Hn. assert (n = 0 \/ n = 1 \/ n = 2 \/ n = 3 \/ n = 4 \/ n = 5 \/ n = 6 \/ n = 7) as Hc by lia.
  by decompose [or] Hc; subst.
Qed.

Lemma simpleMaskLength_mask_bytes l n : 0 <= n <= 8 * Z.of_nat l -> simpleMaskLength (mask_bytes l n) = Some n.
Proof.
  revert n; induction l as [|l IH]; intros n Hn; cbn [mask_bytes simpleMaskLength].
  - f_equal. lia.
  - destruct (Z.leb_spec 8 n) as [H8|H8].
    + cbn [simpleMaskLength]. rewrite Z.eqb_refl, IH by lia. cbn. f_equal. lia.
    + cbn [simpleMaskLength]. destruct (partial_byte n) as [-> ->]; [lia|]. by rewrite mask_bytes_zero.
Qed.

Lemma CIDRMask_spec ones bits : bits = 32 \/ bits = 128 -> 0 <= ones <= bits ->
  CIDRMask ones bits = mask_bytes (Z.to_nat (bits / 8)) ones /\ 8 * Z.of_nat (Z.to_nat (bits / 8)) = bits.
Proof.
  intros Hb Ho. unfold CIDRMask.
  destruct (Z.ltb_spec ones 0); [lia|]. destruct (Z.ltb_spec bits ones); [lia|]. by destruct Hb as [-> | ->].
Qed.

(** An address of an IPv4 network written in IPv6 loses its form in [ipNetToPrefix]; all
    others are read back. *)
Lemma ipNetToPrefix_roundtrip p : prefix_wf p -> Is4In6 (prefix_addr p) = false -> ipNetToPrefix (prefixToIPNet p) = Ok p.
Proof.
  intros (Hwf & Hv & Hz & Hb) H46. unfold ipNetToPrefix, prefixToIPNet. cbn [n_IP n_Mask].
  rewrite AddrFromSlice_AsSlice by done. destruct p as [a n]. cbn [prefix_addr prefix_bits] in *.
  assert (Hbits : BitLen a = 32 \/ BitLen a = 128) by (destruct a; cbn in *; [done|by left|by right]).
  destruct (CIDRMask_spec n (BitLen a) Hbits Hb) as [-> Hlen].
  assert (Hu : Unmap (withoutZone a) = a).
  { destruct a as [|v|v z]; [done..|]. cbn in *. subst z. by rewrite H46. }
  rewrite Hu. unfold Mask_Size. rewrite simpleMaskLength_mask_bytes, length_mask_bytes by lia. rewrite Hlen.
  assert ((Nat.eqb (Z.to_nat (BitLen a / 8)) 4 || Nat.eqb (Z.to_nat (BitLen a / 8)) 16) = true) as ->
    by (by destruct Hbits as [-> | ->]).
  assert ((BitLen a =? 0) = false) as -> by (by destruct Hbits as [-> | ->]). rewrite andb_false_r. cbn [negb].
  f_equal. unfold PrefixFrom. rewrite Hv. destruct (Z.leb_spec 0 n); [|lia]. destruct (Z.leb_spec n (BitLen a)); [|lia].
  cbn. f_equal. destruct a; cbn in *; by subst.
Qed.

(** ** Texts *)
Lemma be_bytes_app n m v : be_bytes (n + m) v = be_bytes n (Z.shiftr v (8 * Z.of_nat m)) ++ be_bytes m v.
Proof.
  revert v; induction m as [|m IH]; intros v.
  - by rewrite Nat.add_0_r, Z.mul_0_r, Z.shiftr_0_r, app_nil_r.
  - rewrite Nat.add_succ_r. cbn [be_bytes]. rewrite IH, Z.shiftr_shiftr by lia.
    replace (8 + 8 * Z.of_nat m) with (8 * Z.of_nat (Datatypes.S m)) by lia. by rewrite app_assoc.
Qed.

Lemma forallb_eqb_replicate x l : forallb (Z.eqb x) l = true -> l = replicate (length l) x.
Proof.
  induction l as [|y l IH]; cbn; [done|]. intros [Hy Hl]%andb_true_iff. apply Z.eqb_eq in Hy as <-. by rewrite <- IH.
Qed.

(** Sixteen bytes are an IPv4 address to [To4] exactly when [Is4In6] says so. *)
Lemma To4_AsSlice v z : 0 <= v < 2 ^ 128 -> is4in6 v = false -> To4 (AsSlice (Addr6 v z)) = None.
Proof.
  intros Hv H46. unfold To4, AsSlice. rewrite length_be_bytes. cbn [Nat.eqb andb].
  change (be_bytes 16 v) with (be_bytes (12 + 4) v). rewrite be_bytes_app. change (8 * Z.of_nat 4) with 32.
  set (l := be_bytes 12 (Z.shiftr v 32)).
  assert (Hl : length l = 12%nat) by apply length_be_bytes.
  assert (Hlv : bytes_val l = v / 2 ^ 32).
  { unfold l. rewrite Z.shiftr_div_pow2 by lia. apply bytes_val_be_bytes. split; [apply Z.div_pos; lia|].
    apply Z.div_lt_upper_bound; lia. }
  rewrite take_app_le, drop_app_le, take_app_le by (rewrite ?length_drop; lia).
  destruct (forallb (Z.eqb 0) (take 10 l)) eqn:H0; [|done].
  destruct (forallb (Z.eqb 255) (take 2 (drop 10 l))) eqn:H1; [|done]. exfalso.
  apply forallb_eqb_replicate in H0, H1. rewrite length_take_le in H0 by lia.
  rewrite length_take_le in H1 by (rewrite length_drop; lia).
  rewrite (take_ge (drop 10 l)) in H1 by (rewrite length_drop; lia).
  rewrite <- (take_drop 10 l), H0, H1 in Hlv. unfold is4in6 in H46. rewrite <- Hlv in H46. done.
Qed.

Lemma string_of_prefix p : prefix_wf p -> Is4In6 (prefix_addr p) = false -> IPNet_String (prefixToIPNet p) = prefix_String p.
Proof.
  intros (Hwf & Hv & Hz & Hb) H46. destruct p as [a n]. cbn [prefix_addr prefix_bits] in *.
  assert (Hbits : BitLen a = 32 \/ BitLen a = 128) by (destruct a; cbn in *; [done|by left|by right]).
  destruct (CIDRMask_spec n (BitLen a) Hbits Hb) as [Hmask Hlen].
  unfold prefix_String, prefix_IsValid. cbn [prefix_addr prefix_bits]. destruct (Z.leb_spec 0 n); [|lia].
  unfold IPNet_String, networkNumberAndMask, prefixToIPNet. cbn [n_IP n_Mask prefix_addr prefix_bits].
  rewrite Hmask, length_mask_bytes. destruct a as [|v|v z]; [done| |].
  - unfold To4, IP_String. cbn [AsSlice]. rewrite length_be_bytes. cbn [Nat.eqb BitLen].
    change (Z.to_nat (32 / 8)) with 4%nat. cbn [Nat.eqb]. rewrite length_be_bytes. cbn [Nat.eqb].
    rewrite simpleMaskLength_mask_bytes by (cbn in Hb |- *; lia). unfold To4. rewrite length_be_bytes. cbn [Nat.eqb].
    by rewrite bytes_val_be_bytes by exact Hwf.
  - cbn in Hz, H46. subst z. rewrite To4_AsSlice by done. cbn [AsSlice]. rewrite length_be_bytes. cbn [Nat.eqb BitLen].
    change (Z.to_nat (128 / 8)) with 16%nat. cbn [Nat.eqb]. rewrite length_be_bytes. cbn [Nat.eqb].
    rewrite simpleMaskLength_mask_bytes by (cbn in Hb |- *; lia). unfold IP_String.
    change (be_bytes 16 v) with (AsSlice (Addr6 v "")). rewrite To4_AsSlice by done. cbn [AsSlice].
    by rewrite bytes_val_be_bytes by exact Hwf.
Qed.

(** ** What the kernel documents *)
Class NetlinkSpec {S} (nl : Netlink S) := {
  assigned : S -> Z -> list IPNet;     (* the addresses of the link with an index *)
  table : S -> list Route;
  (** An address is there already when the link has it with any prefix length. *)
  AddrAdd_spec : forall link a s, match nl_AddrAdd nl link a s with
    | (s', None) => forall x, x ∈ assigned s' (l_Index link) <-> x = a \/ x ∈ assigned s (l_Index link)
    | (s', Some EEXIST) => assigned s' = assigned s /\ exists m, mkIPNet (n_IP a) m ∈ assigned s (l_Index link)
    | (_, Some _) => True
    end;
  AddrList_spec : forall link s l, nl_AddrList nl link s = Ok l -> forall x, x ∈ l <-> x ∈ assigned s (l_Index link);
  AddrDel_spec : forall link a s s', nl_AddrDel nl link a s = (s', None) ->
    forall x, x ∈ assigned s' (l_Index link) <-> x ∈ assigned s (l_Index link) /\ x <> a;
  (** A route is added with the attributes the kernel completes; it is there already when
      any link has a route to the destination. *)
  RouteAdd_spec : forall r s, match nl_RouteAdd nl r s with
    | (s', None) => exists r', r_LinkIndex r' = r_LinkIndex r /\ r_Dst r' = r_Dst r /\ forall x, x ∈ table s' <-> x = r' \/ x ∈ table s
    | (s', Some EEXIST) => table s' = table s /\ exists r', r' ∈ table s /\ r_Dst r' = r_Dst r
    | (_, Some _) => True
    end;
  RouteList_spec : forall link s l, nl_RouteList nl link s = Ok l -> forall x, x ∈ l <-> x ∈ table s /\ r_LinkIndex x = l_Index link;
  RouteDel_spec : forall r s s', nl_RouteDel nl r s = (s', None) -> forall x, x ∈ table s' <-> x ∈ table s /\ x <> r;
  (** Operations on a link give no other link a route. *)
  AddrAdd_routes : forall link a s x, x ∈ table (fst (nl_AddrAdd nl link a s)) -> r_LinkIndex x <> l_Index link -> x ∈ table s;
  AddrDel_routes : forall link a s x, x ∈ table (fst (nl_AddrDel nl link a s)) -> r_LinkIndex x <> l_Index link -> x ∈ table s;
  LinkSetMTU_routes : forall link mtu s x, x ∈ table (fst (nl_LinkSetMTU nl link mtu s)) -> r_LinkIndex x <> l_Index link -> x ∈ table s;
  LinkSetUp_routes : forall link s x, x ∈ table (fst (nl_LinkSetUp nl link s)) -> r_LinkIndex x <> l_Index link -> x ∈ table s
}.

Section Kernel.
Context {S : Type} (nl : Netlink S) `{NetlinkSpec S nl}.
Implicit Types (s : S) (link : Link) (p : prefix) (x : Route).

(** *** Addresses *)
Lemma add_addresses_spec link addrs : forall s s' u, add_addresses nl link addrs s = (s', Ok u) ->
  (forall n, n ∈ assigned s (l_Index link) -> n ∈ assigned s' (l_Index link)) /\
  (forall n, n ∈ assigned s' (l_Index link) -> n ∈ assigned s (l_Index link) \/ n ∈ map prefixToIPNet addrs) /\
  (forall a, a ∈ addrs -> exists m, mkIPNet (AsSlice (prefix_addr a)) m ∈ assigned s' (l_Index link) /\
     (prefixToIPNet a ∈ assigned s' (l_Index link) \/ mkIPNet (AsSlice (prefix_addr a)) m ∈ assigned s (l_Index link) \/
      exists b, b ∈ addrs /\ mkIPNet (AsSlice (prefix_addr a)) m = prefixToIPNet b)).
Proof.
  induction addrs as [|a addrs IH]; intros s s' u; cbn [add_addresses].
  { intros [= -> _]. split_and!; [done|by left|]. by intros a Ha%not_elem_of_nil. }
  intros (s1 & u1 & H1 & H2)%st_bind_Ok. unfold unless_exists in H1.
  pose proof (AddrAdd_spec link (prefixToIPNet a) s) as Hadd.
  assert (Hstep : (forall n, n ∈ assigned s (l_Index link) -> n ∈ assigned s1 (l_Index link)) /\
    (forall n, n ∈ assigned s1 (l_Index link) -> n ∈ assigned s (l_Index link) \/ n = prefixToIPNet a) /\
    (prefixToIPNet a ∈ assigned s1 (l_Index link) \/ exists m, mkIPNet (AsSlice (prefix_addr a)) m ∈ assigned s (l_Index link))).
  { destruct (nl_AddrAdd nl link (prefixToIPNet a) s) as [s2 [[|e]|]]; try done; injection H1 as -> _.
    - destruct Hadd as [-> Hm]. split_and!; [done|by left|by right].
    - split_and!; [|naive_solver|left; by apply Hadd; left]. intros n Hn. apply Hadd. by right. }
  destruct Hstep as (Hk & Hn & Ha). destruct (IH _ _ _ H2) as (IHk & IHn & IHa). split_and!.
  - intros n Hin. by apply IHk, Hk.
  - intros n [Hin|Hin]%IHn; [|right; by right]. destruct (Hn _ Hin) as [Hs| ->]; [by left|right; left].
  - intros b [->|Hb]%elem_of_cons.
    + destruct Ha as [Ha|[m Hm]].
      * exists (n_Mask (prefixToIPNet a)). split; [by apply IHk|left; by apply IHk].
      * exists m. split; [by apply IHk, Hk|right; by left].
    + destruct (IHa b Hb) as (m & Hm & Hor). exists m. split; [done|]. destruct Hor as [Hor|[Hor|(c & Hc & Hor)]].
      * by left.
      * destruct (Hn _ Hor) as [Hs|Heq]; [right; by left|]. right. right. exists a. split; [left|done].
      * right. right. exists c. split; [by right|done].
Qed.

Definition named_in (addrs : list prefix) (n : IPNet) : Prop := exists a, a ∈ addrs /\ IPNet_String n = prefix_String a.

Lemma remove_addresses_spec link addrs l : forall s s' u, remove_addresses nl link addrs l s = (s', Ok u) ->
  forall n, n ∈ assigned s' (l_Index link) <-> n ∈ assigned s (l_Index link) /\ (n ∈ l -> named_in addrs n).
Proof.
  induction l as [|m l IH]; intros s s' u; cbn [remove_addresses].
  { intros [= -> _] n. split; [|naive_solver]. intros Hn. split; [done|]. by intros ?%not_elem_of_nil. }
  assert (Hex : existsb (fun a => String.eqb (IPNet_String m) (prefix_String a)) addrs = true <-> named_in addrs m).
  { rewrite existsb_exists. unfold named_in. by setoid_rewrite String.eqb_eq; setoid_rewrite list_elem_of_In. }
  destruct (existsb _ addrs).
  - intros Hr n. rewrite (IH _ _ _ Hr). setoid_rewrite elem_of_cons. naive_solver.
  - intros (s1 & u1 & H1%st_call_Ok & H2)%st_bind_Ok n. rewrite (IH _ _ _ H2), (AddrDel_spec _ _ _ _ H1), elem_of_cons.
    destruct (decide (n = m)) as [->|]; naive_solver.
Qed.

(** A successful update leaves the link with the requested addresses only, and with each of
    them unless the link had the same address with another prefix length. *)
Lemma updateAddresses_spec link addrs s s' u : updateAddresses nl link addrs s = (s', Ok u) ->
  Forall (fun a => prefix_wf a /\ Is4In6 (prefix_addr a) = false) addrs ->
  (forall a b, a ∈ addrs -> b ∈ addrs -> prefix_addr a = prefix_addr b -> a = b) ->
  (forall n, n ∈ assigned s' (l_Index link) -> named_in addrs n) /\
  (forall a, a ∈ addrs -> (forall m, mkIPNet (AsSlice (prefix_addr a)) m ∈ assigned s (l_Index link) -> mkIPNet (AsSlice (prefix_addr a)) m = prefixToIPNet a) ->
     prefixToIPNet a ∈ assigned s' (l_Index link)).
Proof.
  unfold updateAddresses. intros (s1 & u1 & Hadd & (s2 & l & Hlist & Hrm)%st_bind_Ok)%st_bind_Ok Hwf Hone.
  unfold st_read in Hlist. destruct (nl_AddrList nl link s1) as [l'|] eqn:Hl; [|done]. injection Hlist as <- <-.
  destruct (add_addresses_spec _ _ _ _ _ Hadd) as (_ & _ & Hin).
  pose proof (remove_addresses_spec _ _ _ _ _ _ Hrm) as Hrest. split.
  - intros n [Hn Hnamed]%Hrest. by apply Hnamed, (AddrList_spec _ _ _ Hl).
  - intros a Ha Hother. pose proof (proj1 (Forall_forall _ _) Hwf a Ha) as [Hw H46]. apply Hrest. split.
    + destruct (Hin a Ha) as (m & Hm & [Hd|[Hs|(b & Hb & Heq)]]); [done|by rewrite (Hother _ Hs) in Hm|].
      rewrite Heq in Hm. pose proof (proj1 (Forall_forall _ _) Hwf b Hb) as [Hwb H46b].
      assert (Hab : prefix_addr a = prefix_addr b); [|by rewrite (Hone a b Ha Hb Hab)].
      assert (Hsl : AsSlice (prefix_addr a) = AsSlice (prefix_addr b)) by (by injection Heq).
      destruct Hw as (Hwa & Hva & Hza & _), Hwb as (Hwb & Hvb & Hzb & _).
      pose proof (AddrFromSlice_AsSlice _ Hwa Hva) as Ea. rewrite Hsl, (AddrFromSlice_AsSlice _ Hwb Hvb) in Ea. injection Ea as Ea.
      destruct (prefix_addr a), (prefix_addr b); cbn in *; congruence.
    + intros _. exists a. split; [done|by apply string_of_prefix].
Qed.

(** *** The routes of other links *)
Lemma add_addresses_routes link addrs : forall s s' u, add_addresses nl link addrs s = (s', Ok u) ->
  forall x, x ∈ table s' -> r_LinkIndex x <> l_Index link -> x ∈ table s.
Proof.
  induction addrs as [|a addrs IH]; intros s s' u; cbn [add_addresses]; [by intros [= -> _]|].
  intros (s1 & u1 & H1 & H2)%st_bind_Ok x Hx Hi. pose proof (IH _ _ _ H2 x Hx Hi) as Hx1.
  apply (AddrAdd_routes link (prefixToIPNet a) s x); [|done]. unfold unless_exists in H1.
  by destruct (nl_AddrAdd nl link (prefixToIPNet a) s) as [s2 [[|e]|]]; injection H1 as -> _.
Qed.

Lemma remove_addresses_routes link addrs l : forall s s' u, remove_addresses nl link addrs l s = (s', Ok u) ->
  forall x, x ∈ table s' -> r_LinkIndex x <> l_Index link -> x ∈ table s.
Proof.
  induction l as [|n l IH]; intros s s' u; cbn [remove_addresses]; [by intros [= -> _]|].
  destruct (existsb _ addrs); [apply IH|]. intros (s1 & u1 & H1%st_call_Ok & H2)%st_bind_Ok x Hx Hi.
  apply (AddrDel_routes link n s x); [|done]. rewrite H1. by apply (IH _ _ _ H2).
Qed.

Lemma updateAddresses_routes link addrs s s' u : updateAddresses nl link addrs s = (s', Ok u) ->
  forall x, x ∈ table s' -> r_LinkIndex x <> l_Index link -> x ∈ table s.
Proof.
  unfold updateAddresses. intros (s1 & u1 & Hadd & (s2 & l & Hlist & Hrm)%st_bind_Ok)%st_bind_Ok x Hx Hi.
  unfold st_read in Hlist. destruct (nl_AddrList nl link s1); [|done]. injection Hlist as <- <-.
  eapply add_addresses_routes; [exact Hadd| |done]. by eapply remove_addresses_routes.
Qed.
End Kernel.

(** ** Routes *)
Lemma Contains_own p : prefix_wf p -> prefix_Contains p (prefix_addr p) = true.
Proof.
  intros (_ & Hv & Hz & Hb). unfold prefix_Contains, prefix_IsValid. rewrite Hz, Z.lxor_nilpotent, Z.shiftr_0_l.
  destruct (Z.leb_spec 0 (prefix_bits p)); [|lia]. cbn [String.eqb andb]. rewrite !Z.eqb_refl.
  by destruct (prefix_addr p).
Qed.

(** The addresses of a peer. *)
Definition peer_covers (c : PeerConfig) (a : addr) : Prop :=
  exists ps p, prefixes c = Some ps /\ p ∈ ps /\ prefix_Contains p a = true.

(** The management address and the subnet of a peer are well-formed and no address of them
    is an IPv4 one written in IPv6. *)
Definition valid_peer (c : PeerConfig) : Prop :=
  addr_wf (pc_ManagementIP c) /\ (forall sn, pc_Subnet c = Some sn -> prefix_wf sn) /\
  forall a, peer_covers c a -> Is4In6 a = false.

Lemma single_prefix_wf a p : addr_wf a -> addrToSingleIPPrefix a = Some p -> prefix_wf p.
Proof.
  unfold addrToSingleIPPrefix. destruct (IsValid a) eqn:Hv; [|done]. intros Hwf [= <-]. apply Masked_wf.
  unfold PrefixFrom, prefix_wf, addr_wf in *. rewrite Hv. destruct a; cbn in *; [done|split_and!; (done || lia)..].
Qed.

Lemma prefixes_wf c ps : valid_peer c -> prefixes c = Some ps -> Forall prefix_wf ps.
Proof.
  intros (Hm & Hs & _). unfold prefixes. intros (m & Hp & ->)%fmap_Some. constructor.
  - by apply (single_prefix_wf (pc_ManagementIP c)).
  - destruct (pc_Subnet c); [|done]. apply Forall_singleton. by apply Hs.
Qed.

Section PeerRoutes.
Context {S : Type} (nl : Netlink S) `{NetlinkSpec S nl} `{NetipxRangesSpec}.
Implicit Types (s : S) (link : Link) (x : Route).

Lemma add_routes_spec link ip ranges : forall s s' u, add_routes nl link ip ranges s = (s', Ok u) ->
  (forall x, x ∈ table s -> x ∈ table s') /\
  (forall x, x ∈ table s' -> x ∈ table s \/ r_LinkIndex x = l_Index link) /\
  (forall p, p ∈ ranges -> exists x, x ∈ table s' /\ r_Dst x = Some (prefixToIPNet p)).
Proof.
  induction ranges as [|p ranges IH]; intros s s' u; cbn [add_routes].
  { intros [= -> _]. split_and!; [done|by left|]. by intros p Hp%not_elem_of_nil. }
  intros (s1 & u1 & Hop & Hrec)%st_bind_Ok. unfold unless_exists in Hop.
  pose proof (RouteAdd_spec (peer_route link ip p) s) as Hadd.
  assert (Hstep : (forall x, x ∈ table s -> x ∈ table s1) /\
    (forall x, x ∈ table s1 -> x ∈ table s \/ r_LinkIndex x = l_Index link) /\
    exists x, x ∈ table s1 /\ r_Dst x = Some (prefixToIPNet p)).
  { destruct (nl_RouteAdd nl (peer_route link ip p) s) as [s2 [[|e]|]]; try done; injection Hop as -> _.
    - destruct Hadd as [-> (x & Hx & Hd)]. split_and!; [done|by left|by exists x].
    - destruct Hadd as (r & Hi & Hd & Hr). split_and!.
      + intros x Hx. apply Hr. by right.
      + intros x [-> |Hx]%Hr; [by right|by left].
      + exists r. split; [apply Hr; by left|done]. }
  destruct Hstep as (Hk & Hn & x0 & Hx0 & Hd0). destruct (IH _ _ _ Hrec) as (IHk & IHn & IHp). split_and!.
  - intros x Hx. by apply IHk, Hk.
  - intros x [Hx|Hx]%IHn; [by apply Hn|by right].
  - intros q [-> |Hq]%elem_of_cons; [exists x0; split; [by apply IHk|done]|by apply IHp].
Qed.

(** The destination of a route is one of the ranges. *)
Definition to_range (ranges : list prefix) (x : Route) : Prop :=
  exists d p, r_Dst x = Some d /\ ipNetToPrefix d = Ok p /\ p ∈ ranges.

Lemma remove_routes_spec ranges routes : forall s s' u, remove_routes nl ranges routes s = (s', Ok u) ->
  forall x, x ∈ table s' <-> x ∈ table s /\ (x ∈ routes -> to_range ranges x).
Proof.
  induction routes as [|r routes IH]; intros s s' u; cbn [remove_routes].
  { intros [= -> _] x. split; [|naive_solver]. intros Hx. split; [done|]. by intros ?%not_elem_of_nil. }
  destruct (r_Dst r) as [d|] eqn:Hd; [|done]. destruct (ipNetToPrefix d) as [p|e] eqn:Hp; [|done].
  destruct (decide (p ∈ ranges)) as [Hin|Hout].
  - intros Hr x. rewrite (IH _ _ _ Hr), elem_of_cons. assert (to_range ranges r) by (by exists d, p). naive_solver.
  - assert (Hn : ~ to_range ranges r) by (intros (d' & p' & Hd' & Hp' & Hin); congruence).
    intros (s1 & u1 & Hop%st_call_Ok & Hrec)%st_bind_Ok x. rewrite (IH _ _ _ Hrec), (RouteDel_spec _ _ _ Hop), elem_of_cons.
    destruct (decide (x = r)) as [-> |]; naive_solver.
Qed.

Lemma add_peers_Some peers : forall b b', add_peers b peers = Some b' ->
  exists pss, Forall2 (fun kp ps => prefixes (p_config kp.2) = Some ps) peers pss /\ b' = fold_left AddPrefix (concat pss) b.
Proof.
  induction peers as [|[k p] peers IH]; intros b b'; cbn [add_peers].
  - intros [= ->]. exists []. by split.
  - destruct (prefixes (p_config p)) as [ps|] eqn:Hps; [|done]. intros (pss & Hall & ->)%IH.
    exists (ps :: pss). split; [by constructor|]. cbn [concat]. by rewrite fold_left_app.
Qed.

(** Some route of the link with index [i] is to a destination that contains [a]. *)
Definition routed (s : S) (i : Z) (a : addr) : Prop :=
  exists x d p, x ∈ table s /\ r_LinkIndex x = i /\ r_Dst x = Some d /\ ipNetToPrefix d = Ok p /\ prefix_Contains p a = true.

(** The ranges are exactly the addresses of the peers, and are read back from the routes. *)
Lemma ranges_of_peers {HO : GoOrder} site (peers : gmap string peer) b ipset :
  map_Forall (fun _ p => valid_peer (p_config p)) peers ->
  add_peers new_builder (range_map site peers) = Some b -> builder_IPSet b = Some ipset ->
  Forall (fun p => ipNetToPrefix (prefixToIPNet p) = Ok p) (Prefixes ipset) /\
  forall a, (exists p, p ∈ Prefixes ipset /\ prefix_Contains p a = true) <->
            exists k p, peers !! k = Some p /\ peer_covers (p_config p) a.
Proof.
  intros Hvalid (pss & Hall & ->)%add_peers_Some Hset.
  assert (Hwf : Forall prefix_wf (concat pss)).
  { apply Forall_concat. apply (Forall2_Forall_r _ _ _ _ Hall), Forall_forall. intros [k p] Hkp ps Hps.
    apply elem_of_range_map in Hkp. exact (prefixes_wf _ _ (Hvalid k p Hkp) Hps). }
  destruct (Prefixes_spec _ _ Hwf Hset) as [Hranges Hcover].
  assert (Hsame : forall a, (exists p, p ∈ Prefixes ipset /\ prefix_Contains p a = true) <->
            exists k p, peers !! k = Some p /\ peer_covers (p_config p) a).
  { intros a. setoid_rewrite list_elem_of_In. rewrite <- existsb_exists, Hcover, existsb_exists. split.
    - intros (p & Hp & Ha). apply in_concat in Hp as (ps & Hps & Hp).
      apply list_elem_of_In, list_elem_of_lookup in Hps as [i Hi].
      destruct (Forall2_lookup_r _ _ _ _ _ Hall Hi) as ([k q] & Hk & Hpre).
      apply list_elem_of_lookup_2, elem_of_range_map in Hk. exists k, q. split; [done|]. exists ps, p.
      by rewrite list_elem_of_In.
    - intros (k & q & Hk & ps & p & Hps & Hp & Ha). exists p. split; [|done]. apply in_concat.
      apply (elem_of_range_map site), list_elem_of_lookup in Hk as [i Hi].
      destruct (Forall2_lookup_l _ _ _ _ _ Hall Hi) as (ps' & Hi' & Hps'). cbn in Hps'. assert (ps' = ps) as -> by congruence.
      exists ps. split; apply list_elem_of_In; [by apply list_elem_of_lookup_2 in Hi'|done]. }
  split; [|exact Hsame]. apply Forall_forall. intros p Hp. apply (proj1 (Forall_forall _ _) Hranges) in Hp as Hq.
  destruct Hq as [Hpw _]. apply ipNetToPrefix_roundtrip; [done|].
  destruct (proj1 (Hsame (prefix_addr p))) as (k & q & Hk & Hq); [exists p; split; [done|by apply Contains_own]|].
  by apply (Hvalid k q Hk).
Qed.

(** After a successful update the routes of the link lead to the addresses of the peers and
    to no other; an address of a peer is routed, through the link unless another link had
    a route to its range; and the routes of other links are as before. *)
Lemma updatePeerRoutes_spec {HO : GoOrder} site link (peers : gmap string peer) ip s s' u :
  map_Forall (fun _ p => valid_peer (p_config p)) peers ->
  updatePeerRoutes nl site link peers ip s = (s', Ok u) ->
  (forall a, routed s' (l_Index link) a -> exists k p, peers !! k = Some p /\ peer_covers (p_config p) a) /\
  (forall a k p, peers !! k = Some p -> peer_covers (p_config p) a ->
     exists i, routed s' i a /\ (i = l_Index link \/ routed s i a)) /\
  (forall x, r_LinkIndex x <> l_Index link -> x ∈ table s' <-> x ∈ table s).
Proof.
  intros Hvalid. unfold updatePeerRoutes. destruct (add_peers _ _) as [b|] eqn:Hb; [|done].
  destruct (builder_IPSet b) as [ipset|] eqn:Hset; [|done].
  destruct (ranges_of_peers site peers b ipset Hvalid Hb Hset) as [Hback Hcover].
  intros (s1 & u1 & Hadd & (s2 & l & Hlist & Hrm)%st_bind_Ok)%st_bind_Ok. unfold st_read in Hlist.
  destruct (nl_RouteList nl link s1) as [l'|] eqn:Hl; [|done]. injection Hlist as <- <-.
  destruct (add_routes_spec _ _ _ _ _ _ Hadd) as (Hk & Hn & Hr).
  pose proof (remove_routes_spec _ _ _ _ _ Hrm) as Hrest. pose proof (RouteList_spec _ _ _ Hl) as Hlisted. split_and!.
  - intros a (x & d & p & Hx & Hi & Hd & Hp & Ha). apply Hrest in Hx as [Hx Hto]. apply Hcover.
    destruct Hto as (d' & p' & Hd' & Hp' & Hin); [by apply Hlisted|]. exists p. split; [congruence|done].
  - intros a k p Hkp Ha. destruct (proj2 (Hcover a)) as (q & Hq & Hqa); [by exists k, p|].
    pose proof (proj1 (Forall_forall _ _) Hback q Hq) as Hqq. destruct (Hr q Hq) as (x & Hx & Hd).
    exists (r_LinkIndex x). split.
    + exists x, (prefixToIPNet q), q. split_and!; try done. apply Hrest. split; [done|]. intros _. by exists (prefixToIPNet q), q.
    + destruct (Hn x Hx) as [Hs|Hi]; [right|by left]. by exists x, (prefixToIPNet q), q.
  - intros x Hx. rewrite Hrest. split.
    + intros [[Hs|Hi]%Hn _]; [done|by destruct Hx].
    + intros Hs. split; [by apply Hk|]. intros [_ Hi]%Hlisted. by destruct Hx.
Qed.
End PeerRoutes.

(** ** The whole configuration *)
Lemma configured_peers_from now configs current old k p : configured_peers now configs current old !! k = Some p ->
  p_config p ∈ configs /\ pc_PublicKey (p_config p) = k.
Proof.
  unfold configured_peers. intros [Hp Hk]%map_lookup_filter_Some. cbn in Hk.
  set (start := match old with Some ps => ps | None => initial_peers now configs current end) in Hp.
  destruct (configure_fold now configs start k) as [Hin _].
  destruct (Hin Hk) as (c & q & Hc & Hck & Hq & Hqc). assert (q = p) as -> by congruence. by subst c.
Qed.

Lemma configured_peers_all now configs current old c : NoDup (map pc_PublicKey configs) -> c ∈ configs ->
  exists p, configured_peers now configs current old !! pc_PublicKey c = Some p /\ p_config p = c.
Proof.
  intros Hnd Hc. unfold configured_peers.
  set (start := match old with Some ps => ps | None => initial_peers now configs current end).
  destruct (configure_fold_once now configs start c Hnd Hc) as (p & Hp & Hr & _).
  exists p. split; [|done]. apply map_lookup_filter_Some. split; [done|]. apply list_elem_of_fmap. by exists c.
Qed.

(** Watchers before the one whose offer failed take all events, that one the events before
    the failure, the later ones nothing; only a timeout is an error. *)
Lemma notify_watcher_spec answer events : forall i,
  let (taken, stop) := notify_watcher answer i events in
  exists n, taken = take n events /\
    match stop with None => n = length events | Some o => (n < length events)%nat /\ answer (i + n)%nat = o /\ o <> Received end.
Proof.
  induction events as [|e events IH]; intros i; cbn [notify_watcher]; [by exists 0%nat|].
  destruct (answer i) eqn:Ho.
  1:{ specialize (IH (Datatypes.S i)). destruct (notify_watcher answer (Datatypes.S i) events) as [taken stop].
      destruct IH as (n & -> & Hn). exists (Datatypes.S n). split; [done|]. destruct stop as [o|]; cbn; [|by subst].
      rewrite <- Nat.add_succ_comm. split_and!; [lia|apply Hn..]. }
  all: exists 0%nat; rewrite Nat.add_0_r, Ho; cbn; split_and!; done || lia.
Qed.

Lemma notifyWatchers_spec answer events watchers : forall w,
  let (taken, timeout) := notifyWatchers answer w watchers events in
  length taken = length watchers /\ Forall (fun t => t `prefix_of` events) taken /\
  ((forall w i, answer w i = Received) -> taken = map (fun _ => events) watchers /\ timeout = false) /\
  (timeout = true -> exists w i, answer w i = TimedOut).
Proof.
  induction watchers as [|c watchers IH]; intros w; cbn [notifyWatchers]; [by split_and!|].
  pose proof (notify_watcher_spec (answer w) events 0) as Hw.
  destruct (notify_watcher (answer w) 0 events) as [t [o|]]; destruct Hw as (n & -> & Hn).
  - destruct Hn as (Hlt & Ho & Hr). cbn [length map]. split_and!.
    + by rewrite length_map.
    + constructor; [by apply prefix_take|]. apply Forall_forall. intros x (? & -> & _)%list_elem_of_fmap. apply prefix_nil.
    + intros Hall. rewrite Hall in Ho. by destruct Hr.
    + destruct o; [done| |done]. intros _. eauto.
  - specialize (IH (Datatypes.S w)). destruct (notifyWatchers _ _ _ _) as [more e]. destruct IH as (Hl & Hp & Hall & Ht).
    subst n. rewrite firstn_all. cbn [length map]. split_and!; [by rewrite Hl|by constructor| |done].
    intros Ha. by destruct (Hall Ha) as [-> ->].
Qed.

(** When the loop of [Run] ends without a panic on a cancelled context, the network is not
    running, its watchers are closed, its link is the same, and it can be cleaned up. *)
Lemma Run_stops {HO : GoOrder} {S} valid_key Device ConfigureDevice ticks n (s : S) : wn_running n = false ->
  wn_link n <> None ->
  let '(n', s', r) := Run valid_key Device ConfigureDevice (map (fun t => Ticker t.1 t.2) ticks ++ [ContextDone]) n s in
  wn_link n' = wn_link n /\ wn_running n' = false /\ wn_watchers n' = map (fun _ => true) (wn_watchers n) /\
  exists changes, r = Ok changes /\ length changes = length ticks.
Proof.
  intros Hrun Hlink. unfold Run. rewrite Hrun.
  remember (mkWireGuardNetwork _ _ _ true) as n0 eqn:Hn0.
  assert (Hsame : wn_link n0 = wn_link n /\ wn_watchers n0 = wn_watchers n) by (by subst). clear Hn0.
  revert n0 s Hsame; induction ticks as [|[site now] ticks IH]; intros n0 s [Hl Hw]; cbn [map app run_loop].
  { cbn. rewrite Hl, Hw. split_and!; try done. by exists []. }
  rewrite Hl. destruct (wn_link n) as [link|] eqn:He; [|done]. cbn [fst snd].
  destruct (tick valid_key _ _ site now (wn_net n0) s) as [[net s1] changes].
  specialize (IH (with_net n0 net) s1). destruct (run_loop valid_key _ _ _ (with_net n0 net) s1) as [[n2 s2] r].
  destruct IH as (H1 & H2 & H3 & more & -> & H4); [done|]. split_and!; try done. exists (changes :: more). cbn. by rewrite H4.
Qed.

(** *** An executable kernel *)
Record Kernel := mkKernel { k_links : list Link; k_addrs : list (Z * IPNet); k_routes : list Route; k_peers : list WgPeer }.

Definition on_link (i : Z) (f : Link -> Link) (k : Kernel) : Kernel :=
  mkKernel (map (fun l => if l_Index l =? i then f l else l) (k_links k)) (k_addrs k) (k_routes k) (k_peers k).

Definition kernel : Netlink Kernel := {|
  nl_LinkByName name k := match List.find (fun l => String.eqb (l_Name l) name) (k_links k) with
                          | Some l => Ok l | None => Err LinkNotFoundError end;
  nl_LinkAdd name k := (mkKernel (k_links k ++ [mkLink name (1 + Z.of_nat (length (k_links k))) 1420 0]) (k_addrs k) (k_routes k) (k_peers k), None);
  nl_LinkSetMTU l mtu k := (on_link (l_Index l) (fun l => mkLink (l_Name l) (l_Index l) mtu (l_Flags l)) k, None);
  nl_LinkSetUp l k := (on_link (l_Index l) (fun l => mkLink (l_Name l) (l_Index l) (l_MTU l) (Z.lor (l_Flags l) IFF_UP)) k, None);
  nl_LinkDel l k := (mkKernel (filter (fun l' => l_Index l' <> l_Index l) (k_links k)) (k_addrs k) (k_routes k) (k_peers k), None);
  nl_AddrAdd l a k :=
    if existsb (fun x => bool_decide (x.1 = l_Index l /\ n_IP x.2 = n_IP a)) (k_addrs k) then (k, Some EEXIST)
    else (mkKernel (k_links k) (k_addrs k ++ [(l_Index l, a)]) (k_routes k) (k_peers k), None);
  nl_AddrList l k := Ok (map snd (filter (fun x => x.1 = l_Index l) (k_addrs k)));
  nl_AddrDel l a k := (mkKernel (k_links k) (filter (fun x => x <> (l_Index l, a)) (k_addrs k)) (k_routes k) (k_peers k), None);
  nl_RouteAdd r k :=
    if existsb (fun x => bool_decide (r_Dst x = r_Dst r)) (k_routes k) then (k, Some EEXIST)
    else (mkKernel (k_links k) (k_addrs k) (k_routes k ++ [r]) (k_peers k), None);
  nl_RouteList l k := Ok (filter (fun r => r_LinkIndex r = l_Index l) (k_routes k));
  nl_RouteDel r k := (mkKernel (k_links k) (k_addrs k) (filter (fun x => x <> r) (k_routes k)) (k_peers k), None)
|}.

Definition addresses_of (k : Kernel) (i : Z) : list IPNet := map snd (filter (fun x => x.1 = i) (k_addrs k)).

Lemma elem_of_link_addresses k i n : n ∈ addresses_of k i <-> (i, n) ∈ k_addrs k.
Proof.
  unfold addresses_of. rewrite list_elem_of_fmap. setoid_rewrite list_elem_of_filter. split.
  - by intros ([j m] & -> & <- & Hx).
  - intros Hx. by exists (i, n).
Qed.

#[refine] Instance kernel_spec : NetlinkSpec kernel := {| assigned := addresses_of; table := k_routes |}.
Proof.
  - intros l a k. cbn. destruct (existsb _ (k_addrs k)) eqn:He.
    + apply existsb_exists in He as ([i n] & Hin%list_elem_of_In & [Hi Hip]%bool_decide_eq_true). split; [done|].
      exists (n_Mask n). apply elem_of_link_addresses. cbn in Hi, Hip. rewrite <- Hip, <- Hi. by destruct n.
    + intros x. rewrite !elem_of_link_addresses. cbn. rewrite elem_of_app, list_elem_of_singleton. naive_solver.
  - by intros l k r [= <-] x.
  - intros l a k k' [= <-] x. rewrite !elem_of_link_addresses. cbn. rewrite list_elem_of_filter. naive_solver.
  - intros r k. cbn. destruct (existsb _ (k_routes k)) eqn:He.
    + apply existsb_exists in He as (x & Hin%list_elem_of_In & Hd%bool_decide_eq_true). split; [done|]. by exists x.
    + exists r. split_and!; [done..|]. intros x. cbn. rewrite elem_of_app, list_elem_of_singleton. naive_solver.
  - intros l k r [= <-] x. rewrite list_elem_of_filter. naive_solver.
  - intros r k k' [= <-] x. cbn. rewrite list_elem_of_filter. naive_solver.
  - intros l a k x Hx _. cbn in Hx. by destruct (existsb _ (k_addrs k)).
  - by intros l a k x Hx _.
  - by intros l mtu k x Hx _.
  - by intros l k x Hx _.
Defined.

(** *** The ranges of the executable [netipx] *)
Definition ranges_list : @NetipxRanges netipx_list := 
  @Build_NetipxRanges netipx_list (fun s : list prefix => remove_dups (map prefix_Masked s)).

Lemma Masked_Contains p a : prefix_wf p -> prefix_Contains (prefix_Masked p) a = prefix_Contains p a.
Proof.
  intros Hp. pose proof (host_bits_nonneg p Hp) as Hh. pose proof (pow_host_pos p Hp) as Hpow.
  rewrite Masked_spec by done. unfold prefix_Contains, prefix_IsValid.
  assert (Hb : host_bits (mkPrefix (with_val (prefix_addr p) (first_val p)) (prefix_bits p)) = host_bits p).
  { unfold host_bits. cbn. by rewrite with_val_BitLen. }
  rewrite Hb. cbn [prefix_addr prefix_bits]. rewrite with_val_BitLen, !shiftr_lxor_0 by done.
  assert (addr_val (with_val (prefix_addr p) (first_val p)) = first_val p) as ->.
  { destruct Hp as (_ & Hv & _). by destruct (prefix_addr p). }
  unfold first_val. by rewrite Z.div_mul by lia.
Qed.

Lemma ranges_list_spec : @NetipxRangesSpec netipx_list ranges_list.
Proof.
  constructor. intros ps s Hwf. cbn.
  assert (Hfold : forall acc, fold_left (fun b p => b ++ [p]) ps acc = acc ++ ps).
  { clear. induction ps as [|p ps IH]; intros acc; cbn; [by rewrite app_nil_r|]. by rewrite IH, <- app_assoc. }
  rewrite Hfold. cbn. intros [= <-]. split.
  - apply Forall_forall. intros q Hq. rewrite elem_of_remove_dups in Hq. apply list_elem_of_fmap in Hq as (p & -> & Hp).
    apply (proj1 (Forall_forall _ _) Hwf) in Hp. by split; [apply Masked_wf|apply Masked_idem].
  - intros a. apply eq_true_iff_eq. rewrite !existsb_exists. setoid_rewrite <- list_elem_of_In.
    setoid_rewrite elem_of_remove_dups. split.
    + intros (q & (p & -> & Hp)%list_elem_of_fmap & Ha). exists p. split; [done|].
      by rewrite Masked_Contains in Ha by by apply (proj1 (Forall_forall _ _) Hwf).
    + intros (p & Hp & Ha). exists (prefix_Masked p). split; [apply list_elem_of_fmap; by exists p|].
      by rewrite Masked_Contains by by apply (proj1 (Forall_forall _ _) Hwf).
Qed.

(** ** The claim *)

(** C29: once [Configure] succeeds, the kernel's routes of the WireGuard link lead to the
    addresses of the configured peers, their management addresses and their subnets, and to
    no other address: traffic for anything else never enters the mesh.  Conversely every
    address of every configured peer is routed through the link, unless another link had a
    route to it before; and no other link is given a route. This holds whatever routes the link had before, in whatever order the
    peers are visited and whatever ranges the peers' addresses compact to; the configuration of the
    WireGuard device itself adds no routes. *)
Theorem Configure_routes_peers {HO : GoOrder} `{NetipxRangesSpec} {S} (nl : Netlink S) {HK : NetlinkSpec nl} valid_key Device ConfigureDevice
  (site : nat) (now : Z) (c : Config) (n n' : WireGuardNetwork) (link : Link) (s s' : S) :
  (forall name wc s0 x, x ∈ table (fst (ConfigureDevice name wc s0)) -> x ∈ table s0) ->
  NoDup (map pc_PublicKey (cf_Peers c)) -> Forall valid_peer (cf_Peers c) -> wn_link n = Some link ->
  Configure nl valid_key Device ConfigureDevice site now c n s = (n', s', Ok tt) ->
  (forall a, routed nl s' (l_Index link) a -> exists pc, pc ∈ cf_Peers c /\ peer_covers pc a) /\
  (forall pc a, pc ∈ cf_Peers c -> peer_covers pc a ->
     routed nl s' (l_Index link) a \/ exists i, i <> l_Index link /\ routed nl s i a) /\
  (forall x, x ∈ table s' -> r_LinkIndex x <> l_Index link -> x ∈ table s).
Proof.
  intros Hdevice Hnd Hvalid Hlink. unfold Configure. rewrite Hlink.
  destruct (configureDevice _ _ _ _ _ _ _) as [[net s1] [[]|e]] eqn:Hdev; [|done].
  destruct (configure_link _ _ _ _ _ s1) as [s2 r] eqn:Hconf. intros [= <- <- ->].
  assert (Hpeers : exists current, entries (n_peers net) = configured_peers now (cf_Peers c) current (n_peers (wn_net n))).
  { unfold configureDevice in Hdev. destruct (Device _ s) as [current|]; [|done].
    destruct (toDeviceConfig _ _ _); [|done]. destruct (ConfigureDevice _ _ s) as [? [|]]; [|done].
    injection Hdev as <- _. by exists current. }
  assert (Hs1 : forall x, x ∈ table s1 -> x ∈ table s).
  { intros x Hx. unfold configureDevice in Hdev. destruct (Device _ s) as [current|]; [|done].
    destruct (toDeviceConfig _ _ _) as [wc|]; [|done]. apply (Hdevice (l_Name link) wc).
    destruct (ConfigureDevice _ wc s) as [s0 [|]]; [|done]. by injection Hdev as _ ->. }
  destruct Hpeers as [current Hpeers]. unfold configure_link in Hconf.
  destruct (addrToSingleIPPrefix _) as [pre|]; [|done].
  apply st_bind_Ok in Hconf as (s3 & u3 & H3 & Hconf). apply st_bind_Ok in Hconf as (s4 & u4 & H4 & Hconf).
  apply st_bind_Ok in Hconf as (s5 & u5 & H5 & Hconf).
  assert (Hother : forall x, x ∈ table s5 -> r_LinkIndex x <> l_Index link -> x ∈ table s).
  { intros x Hx Hi. apply Hs1. eapply updateAddresses_routes; [exact H3| |done].
    assert (Hx4 : x ∈ table s4).
    { destruct (_ =? IFF_UP); [by injection H5 as ->|]. apply st_call_Ok in H5.
      apply (LinkSetUp_routes link s4 x); [by rewrite H5|done]. }
    destruct (_ =? EffectiveMTU c); [by injection H4 as ->|]. apply st_call_Ok in H4.
    apply (LinkSetMTU_routes link (EffectiveMTU c) s3 x); [by rewrite H4|done]. }
  assert (Hvp : map_Forall (fun _ p => valid_peer (p_config p)) (entries (n_peers net))).
  { rewrite Hpeers. intros k p [Hp _]%configured_peers_from. by apply (proj1 (Forall_forall _ _) Hvalid). }
  destruct (updatePeerRoutes_spec nl site link _ _ _ _ _ Hvp Hconf) as (Hin & Hout & Hsame).
  rewrite Hpeers in Hin, Hout. split_and!.
  - intros a Ha. destruct (Hin a Ha) as (k & p & Hp%configured_peers_from & Hc). exists (p_config p). by split; [apply Hp|].
  - intros pc a Hpc Ha. destruct (configured_peers_all now _ current (n_peers (wn_net n)) pc Hnd Hpc) as (p & Hp & Hcp).
    rewrite <- Hcp in Ha. destruct (Hout a _ p Hp Ha) as (i & Hi & Hor).
    destruct (decide (i = l_Index link)) as [-> |Hne]; [by left|right]. exists i. split; [done|].
    destruct Hor as [|(x & d & q & Hx & <- & Hrest)]; [done|]. exists x, d, q. split; [by apply Hother|by split].
  - intros x Hx Hi. apply Hother; [|done]. by apply Hsame.
Qed.

(** *** Concrete runs *)
Definition ipv6 (v : Z) : addr := Addr6 (0xfdcc * 2 ^ 112 + v) "".
Definition subnet_10 (i : Z) : prefix := mkPrefix (Addr4 (181534720 + i * 256)) 24.

Definition mesh_peer (key : string) (i : Z) : PeerConfig :=
  mkPeerConfig (Some (subnet_10 i)) (ipv6 i) None (mkEndpoints 0 []) key.

Definition machine_config (mtu : Z) (peers : list PeerConfig) : Config :=
  mkConfig (subnet_10 0) (ipv6 7) 0 mtu (Some "private") (Some "public") peers.

(** A link with an address and a route that were left over. *)
Definition stale_route : Route := mkRoute 1 SCOPE_LINK (Some (prefixToIPNet (subnet_10 9))) [] 0.
Definition kernel_0 : Kernel := mkKernel [mkLink "uncloud" 1 1420 0] [(1, prefixToIPNet (subnet_10 8))] [stale_route] [].

Definition network_0 : WireGuardNetwork := mkWireGuardNetwork (Some (mkLink "uncloud" 1 1420 0)) (mkNetwork None 0) [] false.

#[local] Existing Instance go_identity_order.
#[local] Existing Instance netipx_list.
#[local] Existing Instance ranges_list.
#[local] Existing Instance ranges_list_spec.

Definition configure_0 (c : Config) (n : WireGuardNetwork) (k : Kernel) : WireGuardNetwork * Kernel * result link_error unit :=
  Configure kernel (fun _ => true) (fun _ k => Ok (k_peers k)) (fun _ _ k => (k, Ok tt)) 0 0 c n k.

Definition config_0 : Config := machine_config 0 [mesh_peer "a" 1; mesh_peer "b" 2].

(** What a configuration leaves of the link: its addresses and the destinations of its routes. *)
Definition shown (k : Kernel) : list string * list string :=
  (map IPNet_String (addresses_of k 1), omap (fun r => IPNet_String <$> r_Dst r) (k_routes k)).

Example configured_link :
  shown (snd (fst (configure_0 config_0 network_0 kernel_0))) =
  (["fdcc::7/128"], ["fdcc::1/128"; "10.210.1.0/24"; "fdcc::2/128"; "10.210.2.0/24"]).
Proof. vm_compute. reflexivity. Qed.


Lemma single_prefix_contains a p b : IsValid a = true -> addr_zone a = "" -> addrToSingleIPPrefix a = Some p ->
  prefix_Contains p b = true -> b = a.
Proof.
  unfold addrToSingleIPPrefix, prefix_Masked, prefix_IsValid, PrefixFrom. intros Hv Hz. rewrite Hv. intros [= <-].
  assert (Hbits : (if Is6 a then 128 else 32) = BitLen a) by (by destruct a).
  rewrite Hbits. assert (0 <= BitLen a) by (by destruct a). cbn [prefix_bits prefix_addr].
  assert (((0 <=? BitLen a) && (BitLen a <=? BitLen a)) = true) as -> by (by destruct a).
  destruct (Z.leb_spec 0 (BitLen a)); [|lia]. unfold host_bits. cbn [prefix_addr prefix_bits].
  assert (BitLen (withoutZone a) = BitLen a) as -> by (by destruct a). rewrite Z.sub_diag, Z.shiftr_0_r, Z.shiftl_0_r.
  unfold prefix_Contains, host_bits. cbn [prefix_addr prefix_bits]. rewrite with_val_BitLen.
  assert (BitLen (withoutZone a) = BitLen a) as -> by (by destruct a). rewrite Z.sub_diag, Z.shiftr_0_r.
  rewrite !andb_true_iff, !Z.eqb_eq, String.eqb_eq. intros (((((_ & Hbz) & _) & _) & Hlen) & Hx).
  apply Z.lxor_eq in Hx. destruct a, b; cbn in *; congruence.
Qed.

Lemma mesh_peer_valid key i : 0 <= i < 200 -> valid_peer (mesh_peer key i).
Proof.
  intros Hi. assert (Hm : addr_wf (ipv6 i)) by (unfold addr_wf, ipv6; cbn; lia).
  assert (Hs : prefix_wf (subnet_10 i)) by (unfold prefix_wf, addr_wf, subnet_10; cbn -[Z.mul Z.add Z.pow]; split_and!; done || lia).
  split_and!; [done|by intros sn [= <-]|].
  intros a (ps & p & Hps & Hp & Ha). unfold prefixes in Hps. apply fmap_Some in Hps as (m & Hsingle & ->).
  cbn in Hp. rewrite elem_of_cons, list_elem_of_singleton in Hp. destruct Hp as [-> | ->].
  - apply (single_prefix_contains (ipv6 i)) in Ha as ->; [|done..]. cbn -[Z.mul Z.pow Z.div]. unfold is4in6. apply Z.eqb_neq.
    assert (65536 <= (0xfdcc * 2 ^ 112 + i) / 2 ^ 32) by (apply Z.div_le_lower_bound; lia). lia.
  - destruct a as [| |v z]; [done..|]. exfalso. unfold prefix_Contains in Ha. cbn in Ha. by rewrite andb_false_r in Ha.
Qed.

Lemma Configure_routes_peers_witness :
  let k := snd (fst (configure_0 config_0 network_0 kernel_0)) in
  routed kernel k 1 (Addr4 (181534720 + 2 * 256 + 3)) /\
  forall a, routed kernel k 1 a -> exists pc, pc ∈ cf_Peers config_0 /\ peer_covers pc a.
Proof.
  intros k. destruct (configure_0 config_0 network_0 kernel_0) as [[n' s'] r] eqn:Hc.
  assert (Hr : r = Ok tt) by (vm_compute in Hc; by injection Hc). subst r.
  destruct (Configure_routes_peers kernel (fun _ => true) (fun _ k => Ok (k_peers k)) (fun _ _ k => (k, Ok tt)) 0 0 config_0
    network_0 n' (mkLink "uncloud" 1 1420 0) kernel_0 s') as (Hin & Hout & _).
  - by intros name wc k0 x.
  - by apply (bool_decide_unpack _); vm_compute.
  - apply Forall_cons_2; [apply mesh_peer_valid; lia|]. apply Forall_singleton. apply mesh_peer_valid. lia.
  - done.
  - exact Hc.
  - split; [|exact Hin]. destruct (Hout (mesh_peer "b" 2) (Addr4 (181534720 + 2 * 256 + 3))) as [Hr|(i & Hi & Hr)].
    + right. left.
    + exists [mkPrefix (ipv6 2) 128; subnet_10 2], (subnet_10 2). split_and!; [by vm_compute|right; left|by vm_compute].
    + exact Hr.
    + exfalso. destruct Hr as (x & d & p & Hx & Hxi & _). apply list_elem_of_singleton in Hx as ->. by apply Hi.
Defined.

(** The MTU is compared with that of the link when the daemon started: going back to it has
    no effect. *)
Example mtu_is_not_restored :
  let '(n1, k1, _) := configure_0 (machine_config 1400 []) network_0 kernel_0 in
  let '(_, k2, r) := configure_0 (machine_config 1420 []) n1 k1 in
  r = Ok tt /\ map l_MTU (k_links k1) = [1400] /\ map l_MTU (k_links k2) = [1400].
Proof. vm_compute. by split. Qed.

(** A route of another link to the range of a peer is left, without an error. *)
Example foreign_route_is_left :
  let other := mkRoute 2 SCOPE_LINK (Some (prefixToIPNet (subnet_10 1))) [] 0 in
  let '(_, k, r) := configure_0 config_0 network_0 (mkKernel (k_links kernel_0) [] [other] []) in
  r = Ok tt /\ map r_LinkIndex (k_routes k) = [2; 1; 1; 1].
Proof. vm_compute. by split. Qed.

(** The management address with another prefix length is taken for the requested one and
    then removed: the link is left without an address until the next configuration. *)
Example address_with_another_length_is_lost :
  let k := mkKernel (k_links kernel_0) [(1, prefixToIPNet (mkPrefix (ipv6 7) 64))] [] [] in
  let '(n1, k1, r1) := configure_0 config_0 network_0 k in
  let '(_, k2, r2) := configure_0 config_0 n1 k1 in
  r1 = Ok tt /\ fst (shown k1) = [] /\ r2 = Ok tt /\ fst (shown k2) = ["fdcc::7/128"].
Proof. vm_compute. by split_and!. Qed.

(** Prefixes through the kernel's representation and back. *)
Example networks :
  map ipNetToPrefix [prefixToIPNet (subnet_10 3); prefixToIPNet (mkPrefix (Addr6 (65535 * 2 ^ 32 + 5) "") 128);
                     mkIPNet [10; 0; 0; 0] [255; 0; 255; 0]; mkIPNet [10; 0; 0; 0] []; mkIPNet [] []] =
  [Ok (subnet_10 3); Ok (mkPrefix (Addr4 5) (-1)); Err NonContiguousMask; Err (InvalidMaskLength 0); Err InvalidIPNetwork].
Proof. vm_compute. reflexivity. Qed.
