(* ===== verification/StateFile.v ===== *)
(** * StateFile: the atomic save of the machine state, [internal/machine/state.go]

    [Save] writes a temporary file, syncs it and renames it over the state file.  The file
    system is a map from paths to files; a file that has not been synced since it was
    written has unspecified contents after a crash of the machine, and a rename that was not
    followed by a sync of the directory, which [Save] does not do, may be undone by it.
    Every system call may fail, and the machine may crash before or after it.  The JSON
    encoding of the state is given by its result. *)

From S2P Require Import Prelude GoStrings.

(** ** The file system *)
Record file := mkFile { contents : string; synced : bool }.
Abbreviation filesystem := (gmap string file).

(** A disk: the files as programs see them, and as a crash may leave them, when renames of
    the directory that have not been synced are lost. *)
Record disk := mkDisk { files : filesystem; undone : list filesystem }.

(** What happens at a system call: it succeeds, it fails, or the machine crashes before it. *)
Inductive event := Succeeds | Fails | Crashes.

(** The events of the calls of one [Save], in order; a failing [Write] may have written
    some of the data. *)
Record schedule := mkSchedule {
  at_mkdir : event; at_create : event; at_write : event; at_sync : event; at_close : event; at_rename : event;
  at_remove : event; at_end : bool;    (* whether the machine crashes after the last call *)
  partial : string }.

Inductive save_error :=
| PathNotSet | MkdirFailed | EncodeFailed | CreateTempFailed | WriteFailed | SyncFailed | CloseFailed | RenameFailed.

(** The end of a run: an answer, or a crash. *)
Inductive run_end := Returned (r : result save_error unit) | Crashed.

Definition write_file (path data : string) (ok : bool) (fs : filesystem) : filesystem := <[path := mkFile data ok]> fs.

(** [os.Rename] replaces the target at once for the programs that run. *)
Definition rename (from to_ : string) (fs : filesystem) : filesystem :=
  match fs !! from with
  | Some f => <[to_ := f]> (delete from fs)
  | None => fs
  end.

Definition with_files (f : filesystem -> filesystem) (d : disk) : disk := mkDisk (f (files d)) (undone d).

(** The rename is not on the disk until the directory is synced. *)
Definition rename_on (from to_ : string) (d : disk) : disk :=
  mkDisk (rename from to_ (files d)) (files d :: undone d).

(** The deferred removal of the temporary file; its error is ignored. *)
Definition clean_up (s : schedule) (tmp : string) (err : save_error) (d : disk) : disk * run_end :=
  match at_remove s with
  | Succeeds => (with_files (delete tmp) d, if at_end s then Crashed else Returned (Err err))
  | Fails => (d, if at_end s then Crashed else Returned (Err err))
  | Crashes => (d, Crashed)
  end.

(** One system call: a crash ends the run, a failure is handled. *)
Definition call (e : event) (d : disk) (failed next : disk * run_end) : disk * run_end :=
  match e with
  | Succeeds => next
  | Fails => failed
  | Crashes => (d, Crashed)
  end.

(** [Save] of the state at [path], whose encoding is [data] ([None]: the encoding fails);
    [tmp] is the name that [os.CreateTemp] chooses. *)
Definition Save (s : schedule) (path tmp : string) (data : option string) (d : disk) : disk * run_end :=
  let fail e := (d, Returned (Err e)) in
  if String.eqb path "" then fail PathNotSet
  else call (at_mkdir s) d (fail MkdirFailed)
    match data with
    | None => fail EncodeFailed
    | Some data =>
        call (at_create s) d (fail CreateTempFailed)
        (let d1 := with_files (write_file tmp "" false) d in
         call (at_write s) d1 (clean_up s tmp WriteFailed (with_files (write_file tmp (partial s) false) d))
         (let d2 := with_files (write_file tmp data false) d in
          call (at_sync s) d2 (clean_up s tmp SyncFailed d2)
          (let d3 := with_files (write_file tmp data true) d in
           call (at_close s) d3 (clean_up s tmp CloseFailed d3)
           (call (at_rename s) d3 (clean_up s tmp RenameFailed d3)
             (rename_on tmp path d3, if at_end s then Crashed else Returned (Ok tt))))))
    end.

(** What a reader may find at a path: the contents, while the machine runs; after a crash,
    those of a synced file, in the directory as it was or before a rename was lost.  [lost]
    stands for whatever an unsynced file has. *)
Definition read_crashed (lost : string) (path : string) (fs : filesystem) : option string :=
  (fun f => if synced f then contents f else lost) <$> fs !! path.

Definition found (lost : string) (crashed : bool) (path : string) (d : disk) (v : option string) : Prop :=
  if crashed then exists fs, fs ∈ files d :: undone d /\ v = read_crashed lost path fs
  else v = contents <$> files d !! path.

Definition is_crash (e : run_end) : bool := match e with Crashed => true | Returned _ => false end.

(** ** Lemmas *)
Section Save.
Context (s : schedule) (path tmp : string) (data : string) (d : disk).
Context (Hpath : path <> "") (Htmp : tmp <> path) (Hfresh : files d !! tmp = None).

(** The disk after [Save]: the state file is untouched, or a successful save has replaced it
    with the new, synced one, and the directory is as it was but for that. *)
Lemma Save_disk d' e : Save s path tmp (Some data) d = (d', e) ->
  (files d' !! path = files d !! path /\ undone d' = undone d /\ e <> Returned (Ok tt) /\
   (at_remove s = Succeeds -> e <> Crashed -> files d' = files d)) \/
  (files d' = <[path := mkFile data true]> (files d) /\ (e = Crashed \/ e = Returned (Ok tt)) /\
   exists old, undone d' = old :: undone d /\ old !! path = files d !! path).
Proof.
  unfold Save, call. rewrite (proj2 (String.eqb_neq path "") Hpath).
  assert (Hother : forall dt ok, write_file tmp dt ok (files d) !! path = files d !! path)
    by (intros dt ok; unfold write_file; by rewrite lookup_insert_ne).
  assert (Hclean : forall err dt ok, clean_up s tmp err (with_files (write_file tmp dt ok) d) = (d', e) ->
    files d' !! path = files d !! path /\ undone d' = undone d /\ e <> Returned (Ok tt) /\
    (at_remove s = Succeeds -> e <> Crashed -> files d' = files d)).
  { intros err dt ok. unfold clean_up. destruct (at_remove s); intros [= <- <-]; cbn [files undone with_files].
    - rewrite lookup_delete_ne, Hother by done. split_and!; try done; [by destruct (at_end s)|].
      intros _ _. unfold write_file. by rewrite delete_insert_id.
    - split_and!; [apply Hother|done|by destruct (at_end s)|done].
    - split_and!; [apply Hother|done..]. }
  destruct (at_mkdir s); [|by intros [= <- <-]; left..].
  destruct (at_create s); [|by intros [= <- <-]; left..].
  destruct (at_write s); [|intros H; left; by eapply Hclean|intros [= <- <-]; left; split_and!; [apply Hother|done..]].
  destruct (at_sync s); [|intros H; left; by eapply Hclean|intros [= <- <-]; left; split_and!; [apply Hother|done..]].
  destruct (at_close s); [|intros H; left; by eapply Hclean|intros [= <- <-]; left; split_and!; [apply Hother|done..]].
  destruct (at_rename s); [|intros H; left; by eapply Hclean|intros [= <- <-]; left; split_and!; [apply Hother|done..]].
  intros [= <- <-]. right. cbn [files undone with_files rename_on]. split_and!.
  - unfold rename, write_file. rewrite lookup_insert_eq. f_equal. by rewrite delete_insert_id.
  - destruct (at_end s); auto.
  - eexists. split; [done|apply Hother].
Qed.
End Save.

(** ** Properties *)

(** C15: Saving the machine state is atomic, whatever fails and wherever the machine
    crashes: afterwards the state file reads either as it may have before or as the complete
    new state, never a part of it.  After a save that reports success it reads as the new
    state while the machine runs; a crash later may undo the rename, the directory not being
    synced, and then it reads as before the save, never worse.  A save that reports an error
    leaves the file as it was, and no temporary file unless its removal fails too. *)
Theorem state_save_is_atomic (s : schedule) (path tmp data lost : string) (d : disk)
  (Hpath : path <> "") (Htmp : tmp <> path) (Hfresh : files d !! tmp = None)
  (Hold : forall fs f, fs ∈ files d :: undone d -> fs !! path = Some f -> synced f = true) :
  let (d', e) := Save s path tmp (Some data) d in
  (forall v, found lost (is_crash e) path d' v -> v = Some data \/ found lost (is_crash e) path d v) /\
  match e with
  | Crashed => True
  | Returned (Ok _) => found lost false path d' (Some data) /\
      forall v, found lost true path d' v -> v = Some data \/ found lost true path d v
  | Returned (Err _) => files d' !! path = files d !! path /\ undone d' = undone d /\
      (at_remove s = Succeeds -> files d' = files d)
  end.
Proof.
  destruct (Save s path tmp (Some data) d) as [d' e] eqn:Hsave.
  destruct (Save_disk s path tmp data d Hpath Htmp Hfresh d' e Hsave)
    as [(Hf & Hu & Hne & Hclean)|(Hf & He & old & Hu & Ho)].
  - split.
    + intros v H. right. destruct (is_crash e); cbn [found] in *; [|by rewrite <- Hf].
      rewrite Hu in H. destruct H as (fs & [->|Hin]%elem_of_cons & ->).
      * exists (files d). split; [left|]. unfold read_crashed. by rewrite Hf.
      * exists fs. split; [by right|done].
    + destruct e as [[[]|err]|]; [done| |done]. split_and!; [done..|]. intros Hr. by apply Hclean.
  - assert (Hcrash : forall v, found lost true path d' v -> v = Some data \/ found lost true path d v).
    { intros v (fs & Hin & ->). rewrite Hu in Hin. apply elem_of_cons in Hin as [->|Hin].
      - left. unfold read_crashed. by rewrite Hf, lookup_insert_eq.
      - right. apply elem_of_cons in Hin as [->|Hin].
        + exists (files d). split; [left|]. unfold read_crashed. by rewrite Ho.
        + exists fs. split; [by right|done]. }
    destruct He as [-> | ->]; cbn [is_crash].
    + by split.
    + assert (Hnow : found lost false path d' (Some data)) by (cbn; by rewrite Hf, lookup_insert_eq).
      split; [|by split]. intros v Hv. left. cbn in Hv, Hnow. congruence.
Qed.

(** ** Concrete runs *)
Definition state_path : string := "/var/lib/uncloud/machine.json".
Definition temp_path : string := "/var/lib/uncloud/.machine.json.123".
Definition old_state : disk := mkDisk {[state_path := mkFile "old" true]} [].
Definition smooth : schedule := mkSchedule Succeeds Succeeds Succeeds Succeeds Succeeds Succeeds Succeeds false "".
Definition crash_at_rename : schedule := mkSchedule Succeeds Succeeds Succeeds Succeeds Succeeds Crashes Succeeds false "".
Definition disk_full : schedule := mkSchedule Succeeds Succeeds Fails Succeeds Succeeds Succeeds Succeeds false "ne".

Lemma state_save_is_atomic_witness :
  (let (d', e) := Save crash_at_rename state_path temp_path (Some "new") old_state in
   is_crash e = true /\ forall v, found "" true state_path d' v -> v = Some "new" \/ v = Some "old") /\
  (let (d', e) := Save disk_full state_path temp_path (Some "new") old_state in files d' = files old_state) /\
  (let (d', e) := Save smooth state_path temp_path (Some "new") old_state in
   found "" false state_path d' (Some "new")).
Proof.
  assert (H : forall fs f, fs ∈ files old_state :: undone old_state -> fs !! state_path = Some f -> synced f = true).
  { intros fs f ->%list_elem_of_singleton [= <-]. reflexivity. }
  pose proof (fun s => state_save_is_atomic s state_path temp_path "new" "" old_state ltac:(discriminate) ltac:(discriminate) eq_refl H) as Hs.
  split; [|split].
  - specialize (Hs crash_at_rename). split; [reflexivity|]. intros v Hv.
    destruct (proj1 Hs v Hv) as [->|(fs & ->%list_elem_of_singleton & ->)]; [by left|by right].
  - specialize (Hs disk_full). cbv zeta in Hs. exact (proj2 (proj2 (proj2 Hs)) eq_refl).
  - specialize (Hs smooth). exact (proj1 (proj2 Hs)).
Defined.

(** The rename of a save that reported success is undone by a crash. *)
Example successful_save_is_undone :
  exists d', Save smooth state_path temp_path (Some "new") old_state = (d', Returned (Ok tt)) /\
    found "" true state_path d' (Some "old").
Proof. eexists. split; [reflexivity|]. eexists. split; [right; left|]. reflexivity. Qed.
