(* ===== verification/Controller.v ===== *)
(** * Controller: a machine as a member of its cluster

    [internal/machine/cluster.go] (the cluster controller) and the handlers of
    [internal/machine/machine.go] that change the machine state: joining a cluster,
    updates of the machine, its record in the cluster store, the wait for the first
    synchronisation, and the peers of the WireGuard network.  The machine state is the
    source of truth for the machine's own record; it is saved by StateFile.v, here a call
    of the world. *)

From S2P Require Import Prelude GoStrings NetAddr Proto Corrosion Store Ipam Cluster Network.
#[local] Open Scope Z_scope.

(** The state of a machine: [State], with the advertised endpoints of its network
    configuration. *)
Record State := mkState {
  st_ID : string; st_Name : string; st_Network : Config; st_Endpoints : list AddrPort;
  st_PublicIP : addr; st_MinStoreVersion : gmap string Z }.

Definition with_name (n : string) (s : State) : State :=
  mkState (st_ID s) n (st_Network s) (st_Endpoints s) (st_PublicIP s) (st_MinStoreVersion s).
Definition with_public_ip (a : addr) (s : State) : State :=
  mkState (st_ID s) (st_Name s) (st_Network s) (st_Endpoints s) a (st_MinStoreVersion s).
Definition with_endpoints (eps : list AddrPort) (s : State) : State :=
  mkState (st_ID s) (st_Name s) (st_Network s) eps (st_PublicIP s) (st_MinStoreVersion s).
Definition with_min_version (v : gmap string Z) (s : State) : State :=
  mkState (st_ID s) (st_Name s) (st_Network s) (st_Endpoints s) (st_PublicIP s) v.
Definition with_peers (ps : list PeerConfig) (s : State) : State :=
  let c := st_Network s in
  mkState (st_ID s) (st_Name s)
    (mkConfig (cf_Subnet c) (cf_ManagementIP c) (cf_WireGuardPort c) (cf_MTU c) (cf_PrivateKey c) (cf_PublicKey c) ps)
    (st_Endpoints s) (st_PublicIP s) (st_MinStoreVersion s).

(** ** The record of the machine *)
Definition pb_port (a : AddrPort) : IPPort := NewIPPort (ap_Addr a) (ap_Port a).

(** [ep.ToAddrPort()] on a pointer that may be nil. *)
Definition to_addr_port (ep : option IPPort) : nilable pb_error AddrPort :=
  match ep with
  | None => None
  | Some ep => match ToAddrPort ep with
               | None => None
               | Some (Err e) => Some (Err e)
               | Some (Ok (a, p)) => Some (Ok (mkAddrPort a p))
               end
  end.

(** Endpoints that do not convert are skipped; [None] is a panic. *)
Fixpoint endpointsToAddrPorts (eps : list (option IPPort)) : option (list AddrPort) :=
  match eps with
  | [] => Some []
  | ep :: rest =>
      match to_addr_port ep, endpointsToAddrPorts rest with
      | Some (Ok a), Some l => Some (a :: l)
      | Some (Err _), Some l => Some l
      | _, _ => None
      end
  end.

(** What [Info] reads from the machine it runs on; the Docker version is empty when the
    engine does not answer. *)
Record Runtime := mkRuntime {
  rt_DaemonVersion : string; rt_DockerVersion : string; rt_Hostname : string; rt_Arch : string;
  rt_OsPrettyName : string; rt_KernelVersion : string }.

Definition Info (rt : Runtime) (s : State) : MachineInfo :=
  mkMachineInfo (st_ID s) (st_Name s)
    (Some (mkNetworkConfig (Some (NewIPPrefix (cf_Subnet (st_Network s)))) (Some (NewIP (cf_ManagementIP (st_Network s))))
             (map (fun ep => Some (pb_port ep)) (st_Endpoints s)) (cf_PublicKey (st_Network s))))
    (if IsValid (st_PublicIP s) then Some (NewIP (st_PublicIP s)) else None)
    (rt_DaemonVersion rt) (rt_DockerVersion rt) (rt_Hostname rt) (rt_Arch rt) (rt_OsPrettyName rt) (rt_KernelVersion rt).

Definition with_docker_version (v : string) (m : MachineInfo) : MachineInfo :=
  mkMachineInfo (mi_Id m) (mi_Name m) (mi_Network m) (mi_PublicIp m) (mi_DaemonVersion m) v (mi_Hostname m)
    (mi_Arch m) (mi_OsPrettyName m) (mi_KernelVersion m).

(** [proto.Equal] of two records, which tells them apart when they are encoded
    differently. *)
Class ProtoEqual := { proto_Equal : MachineInfo -> MachineInfo -> bool }.

(** ** Requests *)
Record UpdateMachineRequest := mkUpdateMachineRequest {
  um_Name : option string; um_PublicIp : option IP; um_Endpoints : list (option IPPort) }.
Record JoinClusterRequest := mkJoinClusterRequest {
  jc_Machine : option MachineInfo; jc_OtherMachines : list MachineInfo;
  jc_MinStoreVersion : gmap string Z; jc_WireguardPort : Z; jc_WireguardMtu : Z }.

Section Controller.
Context {PJ : ProtoJSON} {PE : ProtoEqual} {W E : Type} (corro : Corro W).

(** [State.Save] and [WireGuardNetwork.Configure]. *)
Context (save : State -> W -> W * result E unit) (Configure : Config -> W -> W * result E unit).

Inductive machine_error :=
| NameEmpty | UpdateListFailed (e : store_error) | NameTaken (name : string) | PublicIPBad (e : pb_error)
| EndpointBad (e : pb_error) | SaveFailed (e : E)
| AlreadyMember | NoMachineID | NoMachineName | NoNetwork | BadNetworkConfig (e : validate_error) | KeyMismatch
| GetMachineFailed (e : store_error) | UpdateInStoreFailed (e : store_error) | CreateInStoreFailed (e : store_error)
| NoMachines | ConfigureFailed (e : E)
| VersionGapsFailed (e : E).

(** *** [applyMachineUpdate]: the state in memory, changed step by step, and the result *)

Definition update_name (req : UpdateMachineRequest) (s : State) (w : W) : nilable machine_error State :=
  match um_Name req with
  | None => Some (Ok s)
  | Some name =>
      if String.eqb name "" then Some (Err NameEmpty)
      else if String.eqb name (st_Name s) then Some (Ok (with_name name s))
      else match ListMachines corro w with
           | None => None
           | Some (Err e) => Some (Err (UpdateListFailed e))
           | Some (Ok ms) =>
               if existsb (fun m => negb (String.eqb (mi_Id m) (st_ID s)) && String.eqb (mi_Name m) name) ms
               then Some (Err (NameTaken name))
               else Some (Ok (with_name name s))
           end
  end.

Definition update_public_ip (req : UpdateMachineRequest) (s : State) : nilable machine_error State :=
  match um_PublicIp req with
  | None => Some (Ok s)
  | Some ip =>
      if String.eqb (Ip ip) "" then Some (Ok (with_public_ip NoAddr s))
      else match ToAddr (Some ip) with
           | None => None
           | Some (Err e) => Some (Err (PublicIPBad e))
           | Some (Ok a) => Some (Ok (with_public_ip a s))
           end
  end.

Fixpoint convert_endpoints (eps : list (option IPPort)) : nilable machine_error (list AddrPort) :=
  match eps with
  | [] => Some (Ok [])
  | ep :: rest =>
      match to_addr_port ep with
      | None => None
      | Some (Err e) => Some (Err (EndpointBad e))
      | Some (Ok a) => match convert_endpoints rest with
                       | Some (Ok l) => Some (Ok (a :: l))
                       | r => r
                       end
      end
  end.

Definition update_endpoints (req : UpdateMachineRequest) (s : State) : nilable machine_error State :=
  match um_Endpoints req with
  | [] => Some (Ok s)
  | eps => match convert_endpoints eps with
           | None => None
           | Some (Err e) => Some (Err e)
           | Some (Ok l) => Some (Ok (with_endpoints l s))
           end
  end.

Definition applyMachineUpdate (req : UpdateMachineRequest) (s : State) (w : W) :
  option (State * W * result machine_error unit) :=
  match update_name req s w with
  | None => None
  | Some (Err e) => Some (s, w, Err e)
  | Some (Ok s1) =>
      match update_public_ip req s1 with
      | None => None
      | Some (Err e) => Some (s1, w, Err e)
      | Some (Ok s2) =>
          match update_endpoints req s2 with
          | None => None
          | Some (Err e) => Some (s2, w, Err e)
          | Some (Ok s3) =>
              match save s3 w with
              | (w', Err e) => Some (s3, w', Err (SaveFailed e))
              | (w', Ok _) => Some (s3, w', Ok tt)
              end
          end
      end
  end.

(** *** The record in the cluster store *)

Definition is_not_found (e : store_error) : bool := match e with ErrMachineNotFound _ => true | _ => false end.

(** The record to publish; nothing if the published one is equal. *)
Definition publish (info : MachineInfo) (published : option MachineInfo) : option MachineInfo :=
  match published with
  | None => Some info
  | Some p =>
      let info := if String.eqb (mi_DockerVersion info) "" then with_docker_version (mi_DockerVersion p) info else info in
      if proto_Equal info p then None else Some info
  end.

(** The record is created if the update does not find it. *)
Definition write_record (info : MachineInfo) (w : W) : W * result machine_error unit :=
  match UpdateMachine corro info w with
  | (w1, Ok _) => (w1, Ok tt)
  | (w1, Err e) =>
      if negb (is_not_found e) then (w1, Err (UpdateInStoreFailed e))
      else match CreateMachine corro info w1 with
           | (w2, Ok _) => (w2, Ok tt)
           | (w2, Err e) => (w2, Err (CreateInStoreFailed e))
           end
  end.

Definition sync_record (rt : Runtime) (s : State) (published : option MachineInfo) (w : W) : W * result machine_error unit :=
  match publish (Info rt s) published with
  | None => (w, Ok tt)
  | Some info => write_record info w
  end.

Definition syncMachineInfo (rt : Runtime) (s : State) (w : W) : option (W * result machine_error unit) :=
  match GetMachine corro (st_ID s) w with
  | None => None
  | Some (Ok p) => Some (sync_record rt s (Some p) w)
  | Some (Err e) => Some (if is_not_found e then sync_record rt s None w else (w, Err (GetMachineFailed e)))
  end.

(** [backfillMachineState]; a record without network has no endpoints to take over. *)
Definition backfillMachineState (s : State) (w : W) : option (State * W * result machine_error unit) :=
  if negb (length (st_Endpoints s) =? 0)%nat && IsValid (st_PublicIP s) then Some (s, w, Ok tt)
  else match GetMachine corro (st_ID s) w with
  | None => None
  | Some (Err e) => Some (s, w, if is_not_found e then Ok tt else Err (GetMachineFailed e))
  | Some (Ok existing) =>
      match (if (length (st_Endpoints s) =? 0)%nat
             then endpointsToAddrPorts (match mi_Network existing with Some c => nc_Endpoints c | None => [] end)
             else Some []) with
      | None => None
      | Some eps =>
          let s1 := match eps with [] => s | _ => with_endpoints eps s end in
          let ip := if negb (IsValid (st_PublicIP s)) && is_set (mi_PublicIp existing)
                    then match ToAddr (mi_PublicIp existing) with Some (Ok a) => a | _ => NoAddr end
                    else NoAddr in
          let s2 := if IsValid ip then with_public_ip ip s1 else s1 in
          if negb (length eps =? 0)%nat || IsValid ip then
            match save s2 w with
            | (w', Ok _) => Some (s2, w', Ok tt)
            | (w', Err e) => Some (s2, w', Err (SaveFailed e))
            end
          else Some (s2, w, Ok tt)
      end
  end.

(** *** Peers *)

(** [addrPort, _ := ep.ToAddrPort()]. *)
Definition addr_port_of (ep : option IPPort) : option AddrPort :=
  match to_addr_port ep with
  | None => None
  | Some (Ok a) => Some a
  | Some (Err _) => Some (mkAddrPort NoAddr 0)
  end.

(** The peer of another machine, whose endpoints are put in the slice number [slice]. *)
Definition peer_config (slice : nat) (current : gmap string (option pointer)) (c : NetworkConfig) : option PeerConfig :=
  match ToPrefix (nc_Subnet c), ToAddr (nc_ManagementIp c), mapM addr_port_of (nc_Endpoints c) with
  | Some rs, Some ra, Some eps =>
      let key := default "" (nc_PublicKey c) in
      let subnet := match rs with Ok p => p | Err _ => NoPrefix end in
      let manageIP := match ra with Ok a => a | Err _ => NoAddr end in
      let endpoints := mkEndpoints slice eps in
      let endpoint := match current !! key with
                      | Some (Some p) => if decide (deref p ∈ addrs endpoints) then Some p else first_element endpoints
                      | _ => first_element endpoints
                      end in
      Some (mkPeerConfig (Some subnet) manageIP endpoint endpoints key)
  | _, _, _ => None
  end.

(** The peers of the machines other than [id]; [None] is a panic. *)
Fixpoint peer_configs (slice : nat) (id : string) (current : gmap string (option pointer)) (ms : list MachineInfo) :
  option (list PeerConfig) :=
  match ms with
  | [] => Some []
  | m :: rest =>
      if String.eqb (mi_Id m) id then peer_configs slice id current rest
      else match mi_Network m with
      | None => None
      | Some c =>
          match Validate c with
          | None => None
          | Some (Err _) => peer_configs slice id current rest
          | Some (Ok _) =>
              match peer_config slice current c, peer_configs (S slice) id current rest with
              | Some p, Some ps => Some (p :: ps)
              | _, _ => None
              end
          end
      end
  end.

(** The current endpoints of the peers, by public key. *)
Definition current_endpoints (ps : list PeerConfig) : gmap string (option pointer) :=
  fold_left (fun m p => <[pc_PublicKey p := pc_Endpoint p]> m) ps ∅.

Definition configurePeers (slice : nat) (ms : list MachineInfo) (s : State) (w : W) :
  option (State * W * result machine_error unit) :=
  match ms with
  | [] => Some (s, w, Err NoMachines)
  | _ =>
      match peer_configs slice (st_ID s) (current_endpoints (cf_Peers (st_Network s))) ms with
      | None => None
      | Some peers =>
          let s1 := with_peers peers s in
          match save s1 w with
          | (w1, Err e) => Some (s1, w1, Err (SaveFailed e))
          | (w1, Ok _) =>
              match Configure (st_Network s1) w1 with
              | (w2, Err e) => Some (s1, w2, Err (ConfigureFailed e))
              | (w2, Ok _) => Some (s1, w2, Ok tt)
              end
          end
      end
  end.

(** A change signal in [handleMachineChanges]: the world the listing is read in, and the
    number of slices allocated so far; errors are logged. *)
Definition machines_changed (slice : nat) (s : State) (w : W) : option (State * W) :=
  match ListMachines corro w with
  | None => None
  | Some (Err _) => Some (s, w)
  | Some (Ok []) => Some (s, w)
  | Some (Ok ms) => (fun r => fst r) <$> configurePeers slice ms s w
  end.

(** The loop over the signals; between them the world changes by itself. *)
Fixpoint handle_changes (slice : nat) (signals : list (W -> W)) (s : State) (w : W) : option (State * W) :=
  match signals with
  | [] => Some (s, w)
  | env :: rest =>
      match machines_changed slice s (env w) with
      | None => None
      | Some (s', w') => handle_changes (slice + length (cf_Peers (st_Network s'))) rest s' w'
      end
  end.

(** An event of [handleEndpointChanges]; [n] is the number of event variables so far. *)
Fixpoint set_endpoint (p : pointer) (key : string) (ps : list PeerConfig) : list PeerConfig :=
  match ps with
  | [] => []
  | c :: rest => if String.eqb (pc_PublicKey c) key then with_endpoint c p :: rest else c :: set_endpoint p key rest
  end.

Definition endpoint_changed (n : nat) (e : EndpointChangeEvent) (s : State) (w : W) : State * W :=
  let s1 := with_peers (set_endpoint (mkPtr (Own n) (Network.ev_Endpoint e)) (ev_PublicKey e) (cf_Peers (st_Network s))) s in
  (s1, fst (save s1 w)).

(** *** Joining *)
Definition join_peer (slice : nat) (m : MachineInfo) : option (option PeerConfig) :=
  match mi_Network m with
  | None => None
  | Some c => match Validate c with
              | None => None
              | Some (Err _) => Some None
              | Some (Ok _) => Some <$> peer_config slice ∅ c
              end
  end.

Fixpoint join_peers (slice : nat) (ms : list MachineInfo) : option (list PeerConfig) :=
  match ms with
  | [] => Some []
  | m :: rest =>
      match join_peer slice m, join_peers (S slice) rest with
      | Some (Some p), Some ps => Some (p :: ps)
      | Some None, Some ps => Some ps
      | _, _ => None
      end
  end.

(** [JoinCluster]; [mtu] is what [network.DetectMTU] finds. *)
Definition JoinCluster (initialised : bool) (mtu : Z) (slice : nat) (req : JoinClusterRequest) (s : State) (w : W) :
  option (State * W * result machine_error unit) :=
  if initialised then Some (s, w, Err AlreadyMember)
  else match jc_Machine req with
  | None => None
  | Some m =>
  if String.eqb (mi_Id m) "" then Some (s, w, Err NoMachineID)
  else if String.eqb (mi_Name m) "" then Some (s, w, Err NoMachineName)
  else match mi_Network m with
  | None => Some (s, w, Err NoNetwork)
  | Some c =>
  match Validate c with
  | None => None
  | Some (Err e) => Some (s, w, Err (BadNetworkConfig e))
  | Some (Ok _) =>
  if negb (String.eqb (default "" (cf_PublicKey (st_Network s))) (default "" (nc_PublicKey c)))
  then Some (s, w, Err KeyMismatch)
  else match ToPrefix (nc_Subnet c), ToAddr (nc_ManagementIp c) with
  | Some rs, Some ra =>
      match (if is_set (mi_PublicIp m) then ToAddr (mi_PublicIp m) else Some (Ok NoAddr)) with
      | None => None
      | Some (Err e) => Some (s, w, Err (PublicIPBad e))
      | Some (Ok publicIP) =>
          match endpointsToAddrPorts (nc_Endpoints c), join_peers slice (jc_OtherMachines req) with
          | Some eps, Some peers =>
              let cfg := mkConfig (match rs with Ok p => p | Err _ => NoPrefix end) (match ra with Ok a => a | Err _ => NoAddr end)
                (if jc_WireguardPort req =? 0 then DefaultWireGuardPort else jc_WireguardPort req)
                (if jc_WireguardMtu req =? 0 then mtu else jc_WireguardMtu req)
                (cf_PrivateKey (st_Network s)) (cf_PublicKey (st_Network s)) peers in
              let s1 := mkState (mi_Id m) (mi_Name m) cfg eps publicIP (jc_MinStoreVersion req) in
              match save s1 w with
              | (w1, Err e) => Some (s1, w1, Err (SaveFailed e))
              | (w1, Ok _) => Some (s1, w1, Ok tt)
              end
          | _, _ => None
          end
      end
  | _, _ => None
  end end end end.

(** *** The first synchronisation of the store *)
Definition laggingActors (local target : gmap string Z) : gmap string (Z * Z) :=
  map_imap (fun actor need => let have := default 0 (local !! actor) in
    if have <? need then Some (have, need) else None) target.

(** What a poll of the gaps finds: the context is done, or the number of missing changes. *)
Inductive gap_event := GapCtx | GapMissing (r : result E nat).
Inductive gap_end := GapsDone | GapsStopped | GapsFailed (e : E) | GapsWaiting.

Fixpoint waitKnownMissingChanges (events : list gap_event) : gap_end :=
  match events with
  | [] => GapsWaiting
  | GapCtx :: _ => GapsStopped
  | GapMissing (Err e) :: _ => GapsFailed e
  | GapMissing (Ok n) :: rest => if (n =? 0)%nat then GapsDone else waitKnownMissingChanges rest
  end.

(** What a round of [waitStoreSync] finds: the context is done, the warning timer, or the
    local version, together with the polls of the gaps if they are looked at, and whether
    the context is done after them. *)
Inductive sync_event :=
| SyncCtx
| SyncWarn
| SyncVersion (r : result E (gmap string Z)) (gaps : list gap_event) (ctx_done : bool).

(** [None]: still waiting when the events end. *)
Fixpoint wait_loop (target : gmap string Z) (events : list sync_event) (s : State) (w : W) :
  option (State * W * result machine_error unit) :=
  match events with
  | [] => None
  | SyncCtx :: _ => Some (s, w, Ok tt)
  | SyncWarn :: rest => wait_loop target rest s w
  | SyncVersion (Err _) _ _ :: rest => wait_loop target rest s w
  | SyncVersion (Ok local) gaps ctx_done :: rest =>
      if decide (laggingActors local target = ∅) then
        match waitKnownMissingChanges gaps with
        | GapsWaiting => None
        | GapsFailed e => Some (s, w, Err (VersionGapsFailed e))
        | GapsStopped => Some (s, w, Ok tt)
        | GapsDone =>
            if ctx_done then Some (s, w, Ok tt)
            else let s1 := with_min_version ∅ s in
                 match save s1 w with
                 | (w1, Err e) => Some (s1, w1, Err (SaveFailed e))
                 | (w1, Ok _) => Some (s1, w1, Ok tt)
                 end
        end
      else wait_loop target rest s w
  end.

Definition waitStoreSync (events : list sync_event) (s : State) (w : W) : option (State * W * result machine_error unit) :=
  if decide (st_MinStoreVersion s = ∅) then Some (s, w, Ok tt)
  else wait_loop (st_MinStoreVersion s) events s w.
End Controller.

(** ** Peers follow the machines *)

(** A machine that can be a peer: its configuration is valid and has a subnet and a
    management IP, as that of every machine added to the cluster. *)
Definition peer_ready (m : MachineInfo) : Prop :=
  exists c, mi_Network m = Some c /\ Validate c = Some (Ok tt) /\ nc_Subnet c <> None /\ nc_ManagementIp c <> None.

(** The peer a machine becomes, given the current endpoints: its own addresses, key and
    advertised endpoints, and as endpoint the current one if it is still advertised, else
    the first. *)
Definition peer_of (current : gmap string (option pointer)) (m : MachineInfo) (p : PeerConfig) : Prop :=
  exists c sn, mi_Network m = Some c /\ ToPrefix (nc_Subnet c) = Some (Ok sn) /\ pc_Subnet p = Some sn /\
    ToAddr (nc_ManagementIp c) = Some (Ok (pc_ManagementIP p)) /\ nc_PublicKey c = Some (pc_PublicKey p) /\
    Forall2 (fun ep a => to_addr_port ep = Some (Ok a)) (nc_Endpoints c) (addrs (pc_AllEndpoints p)) /\
    match current !! pc_PublicKey p with
    | Some (Some q) => if decide (deref q ∈ addrs (pc_AllEndpoints p)) then pc_Endpoint p = Some q
                       else pc_Endpoint p = first_element (pc_AllEndpoints p)
    | _ => pc_Endpoint p = first_element (pc_AllEndpoints p)
    end.

Lemma endpoint_ok_converts ep : endpoint_ok ep -> exists a, to_addr_port ep = Some (Ok a) /\ addr_port_of ep = Some a.
Proof.
  intros (e & a & -> & Ha). unfold addr_port_of, to_addr_port, ToAddrPort. rewrite Ha. by eexists.
Qed.

Lemma endpoints_convert eps : Forall endpoint_ok eps ->
  exists l, mapM addr_port_of eps = Some l /\ Forall2 (fun ep a => to_addr_port ep = Some (Ok a)) eps l.
Proof.
  induction 1 as [|ep eps Hep _ (l & Hl & IH)]; [by exists []|].
  destruct (endpoint_ok_converts ep Hep) as (a & Ha & Ha'). exists (a :: l). split; [|by constructor].
  cbn. by rewrite Ha', Hl.
Qed.

Lemma peer_config_ready slice current m c : mi_Network m = Some c -> Validate c = Some (Ok tt) ->
  nc_Subnet c <> None -> nc_ManagementIp c <> None ->
  exists p, peer_config slice current c = Some p /\ peer_of current m p.
Proof.
  intros Hm Hv Hs Hi. apply NetworkConfig_Validate_Ok in Hv as ([|[sn Hsn]] & [|[a Ha]] & Heps & k & Hk & _); [done..|].
  destruct (endpoints_convert _ Heps) as (l & Hl & Hconv).
  unfold peer_config. rewrite Hsn, Ha, Hl, Hk. cbn [default from_option id].
  eexists. split; [done|]. exists c, sn. cbn. split_and!; try done.
  destruct (current !! k) as [[q|]|]; [|done..]. by destruct (decide _).
Qed.

Lemma peer_configs_ready id current ms : Forall peer_ready ms -> forall slice,
  exists peers, peer_configs slice id current ms = Some peers /\
    Forall2 (peer_of current) (filter (fun m => mi_Id m <> id) ms) peers.
Proof.
  induction 1 as [|m ms Hm _ IH]; intros slice; [by exists []|]. cbn [peer_configs].
  destruct (String.eqb_spec (mi_Id m) id) as [He|He].
  - destruct (IH slice) as (peers & Hp & Hf). exists peers. split; [done|]. by rewrite filter_cons_False by auto.
  - destruct Hm as (c & Hc & Hv & Hs & Hi). rewrite Hc, Hv.
    destruct (peer_config_ready slice current m c Hc Hv Hs Hi) as (p & -> & Hp).
    destruct (IH (S slice)) as (peers & -> & Hf). eexists. split; [done|].
    rewrite filter_cons_True by done. by constructor.
Qed.

(** ** Concatenating and converting bytes both ways *)
Lemma be_bytes_of_val s : be_bytes (String.length s) (be_val s) = s.
Proof.
  apply be_val_inj; [by rewrite be_bytes_length|]. rewrite be_val_bytes; [done|]. apply be_val_range.
Qed.

Lemma be_bytes_of_val_n n s : String.length s = n -> be_bytes n (be_val s) = s.
Proof. intros <-. apply be_bytes_of_val. Qed.

Lemma split_at_join n s : String.append (fst (split_at n s)) (snd (split_at n s)) = s.
Proof.
  revert s. induction n as [|n IH]; intros [|c s]; try done. cbn [split_at].
  specialize (IH s). destruct (split_at n s). cbn in *. by rewrite IH.
Qed.

(** An address message is what its address is encoded as. *)
Lemma NewIP_of_ToAddr ip a : ToAddr (Some ip) = Some (Ok a) -> NewIP a = ip.
Proof.
  unfold ToAddr. destruct (Addr_UnmarshalBinary (Ip ip)) as [a'|] eqn:Hu; [|done].
  destruct (IsValid a') eqn:Hv; [|done]. intros [= <-]. destruct ip as [b]. unfold NewIP. f_equal. cbn [Ip] in Hu.
  revert Hu Hv. unfold Addr_UnmarshalBinary.
  destruct (Nat.eqb_spec (String.length b) 0); [by intros [= <-]|].
  destruct (Nat.eqb_spec (String.length b) 4) as [Hl|]; [intros [= <-] _; by apply be_bytes_of_val_n|].
  destruct (Nat.eqb_spec (String.length b) 16) as [Hl|].
  { intros [= <-] _. cbn [Addr_MarshalBinary]. rewrite string_app_nil_r. by apply be_bytes_of_val_n. }
  destruct (Nat.ltb_spec 16 (String.length b)); [|done].
  pose proof (split_at_length 16 b ltac:(lia)) as Hl. pose proof (split_at_join 16 b) as Hj.
  destruct (split_at 16 b) as [v zone]. cbn [fst snd] in *. intros [= <-] _. cbn [Addr_MarshalBinary].
  by rewrite (be_bytes_of_val_n 16 v Hl).
Qed.

(** The prefix message of a prefix without zone. *)
Lemma NewIPPrefix_of_ToPrefix p pfx : ToPrefix (Some p) = Some (Ok pfx) ->
  (exists a, ToAddr (ipx_Ip p) = Some (Ok a) /\ addr_zone a = "") -> NewIPPrefix pfx = p.
Proof.
  intros Hp (a & Ha & Hz). revert Hp. unfold ToPrefix. rewrite Ha.
  destruct (prefix_IsValid _) eqn:Hv; [|done]. intros [= <-]. revert Hv.
  destruct p as [[ip|] bits]; cbn [ipx_Ip ipx_Bits] in *; [|done].
  unfold NewIPPrefix, PrefixFrom, prefix_IsValid. cbn [prefix_addr prefix_bits].
  pose proof (ToAddr_wf _ _ Ha) as [_ Hva]. rewrite Hva. cbn [andb].
  destruct (Z.leb_spec 0 bits); [|done]. destruct (Z.leb_spec bits (BitLen a)); [|done]. cbn [andb]. intros _.
  assert (BitLen a <= 128) by (by destruct a). rewrite Z.mod_small by lia.
  assert (withoutZone a = a) as -> by (destruct a; cbn in *; by subst).
  by rewrite (NewIP_of_ToAddr ip a Ha).
Qed.

Definition port_in_range (ep : option IPPort) : Prop := forall e, ep = Some e -> 0 <= ipp_Port e < 2 ^ 16.

Lemma pb_port_of_ToAddrPort ep a : to_addr_port ep = Some (Ok a) -> port_in_range ep -> Some (pb_port a) = ep.
Proof.
  unfold to_addr_port, ToAddrPort. destruct ep as [[ip port]|]; [|done]. cbn [ipp_Ip ipp_Port].
  destruct (ToAddr ip) as [[b|]|] eqn:Hip; [|done..]. intros [= <-] Hr. specialize (Hr _ eq_refl). cbn [ipp_Port] in Hr.
  destruct ip as [ip|]; [|done]. unfold pb_port, NewIPPort. cbn [ap_Addr ap_Port].
  rewrite Z.mod_small by done. by rewrite (NewIP_of_ToAddr ip b Hip).
Qed.

Lemma endpoints_skip_none eps l : Forall2 (fun ep a => to_addr_port ep = Some (Ok a)) eps l ->
  endpointsToAddrPorts eps = Some l.
Proof. induction 1 as [|ep a eps l Ha _ IH]; [done|]. cbn. by rewrite Ha, IH. Qed.

Lemma endpoints_pb_roundtrip eps l : Forall2 (fun ep a => to_addr_port ep = Some (Ok a)) eps l ->
  Forall port_in_range eps -> map (fun a => Some (pb_port a)) l = eps.
Proof.
  induction 1 as [|ep a eps l Ha _ IH]; [done|]. intros [Hr Hrs]%Forall_cons. cbn.
  by rewrite (pb_port_of_ToAddrPort ep a Ha Hr), (IH Hrs).
Qed.

(** The subnet of a configuration is a prefix without a zone. *)
Definition plain_subnet (c : NetworkConfig) : Prop :=
  exists p a, nc_Subnet c = Some p /\ ToAddr (ipx_Ip p) = Some (Ok a) /\ addr_zone a = "".

(** A configuration that is taken apart into the state is published as it was. *)
Lemma published_config c sn a l : ToPrefix (nc_Subnet c) = Some (Ok sn) -> ToAddr (nc_ManagementIp c) = Some (Ok a) ->
  Forall2 (fun ep b => to_addr_port ep = Some (Ok b)) (nc_Endpoints c) l -> Forall port_in_range (nc_Endpoints c) ->
  plain_subnet c ->
  mkNetworkConfig (Some (NewIPPrefix sn)) (Some (NewIP a)) (map (fun ep => Some (pb_port ep)) l) (nc_PublicKey c) = c.
Proof.
  intros Hsn Ha Hconv Hports (p & b & Hp & Hb & Hz). rewrite Hp in Hsn.
  rewrite (NewIPPrefix_of_ToPrefix p sn Hsn) by (by exists b). rewrite <- Hp.
  destruct (nc_ManagementIp c) as [mip|] eqn:Hmipc; [|done].
  rewrite (NewIP_of_ToAddr mip a Ha), (endpoints_pb_roundtrip _ _ Hconv Hports), <- Hmipc. by destruct c.
Qed.

(** ** Properties *)

(** The endpoint a machine is currently reached at, if any, is one that it advertises. *)
Definition advertises (current : gmap string (option pointer)) (m : MachineInfo) : Prop :=
  forall c k q, mi_Network m = Some c -> nc_PublicKey c = Some k -> current !! k = Some (Some q) ->
    exists ep, ep ∈ nc_Endpoints c /\ to_addr_port ep = Some (Ok (deref q)).

(** The peer a machine becomes: its own addresses, key and advertised endpoints; its current
    endpoint, the same pointer, is preserved, and it starts with the first one if it has none. *)
Definition follows_machine (current : gmap string (option pointer)) (m : MachineInfo) (p : PeerConfig) : Prop :=
  exists c sn, mi_Network m = Some c /\ ToPrefix (nc_Subnet c) = Some (Ok sn) /\ pc_Subnet p = Some sn /\
    ToAddr (nc_ManagementIp c) = Some (Ok (pc_ManagementIP p)) /\ nc_PublicKey c = Some (pc_PublicKey p) /\
    Forall2 (fun ep a => to_addr_port ep = Some (Ok a)) (nc_Endpoints c) (addrs (pc_AllEndpoints p)) /\
    pc_Endpoint p = match current !! pc_PublicKey p with
                    | Some (Some q) => Some q
                    | _ => first_element (pc_AllEndpoints p)
                    end.

Lemma peer_of_follows current m p : advertises current m -> peer_of current m p -> follows_machine current m p.
Proof.
  intros Hadv (c & sn & Hc & Hsn & Hps & Hip & Hk & Heps & Hend). exists c, sn. split_and!; try done.
  destruct (current !! pc_PublicKey p) as [[q|]|] eqn:Hcur; [|done..].
  destruct (Hadv c _ q Hc Hk Hcur) as (ep & Hep & Hq). rewrite decide_True in Hend; [done|].
  apply list_elem_of_lookup in Hep as [i Hi]. destruct (Forall2_lookup_l _ _ _ _ _ Heps Hi) as (a & Ha & Hconv).
  assert (a = deref q) as -> by congruence. by apply list_elem_of_lookup_2 in Ha.
Qed.


(** ** The record in the store *)
Class ProtoEqualSpec `{ProtoEqual} : Prop := {
  proto_Equal_spec : forall a b, wire_ok a -> proto_Equal a b = true -> a = b
}.

(** The record to publish given the published one: a Docker version that is not known is
    kept. *)
Definition record_of (info : MachineInfo) (published : option MachineInfo) : MachineInfo :=
  match published with
  | Some p => if String.eqb (mi_DockerVersion info) "" then with_docker_version (mi_DockerVersion p) info else info
  | None => info
  end.

Section Sync.
Context {PJ : ProtoJSON} {PJS : ProtoJSONSpec} {PE : ProtoEqual} {PES : ProtoEqualSpec} {W E : Type}
  (corro : Corro W) {TB : Tables corro}.

Lemma Info_wire_ok rt s : cf_PublicKey (st_Network s) <> Some "" -> wire_ok (Info rt s).
Proof.
  intros Hk. unfold wire_ok. cbn. split; [|done]. by apply Forall_map, Forall_forall.
Qed.

Lemma record_of_wire_ok info p : wire_ok info -> wire_ok (record_of info p).
Proof. intros H. destruct p as [p|]; [|done]. cbn. by destruct (String.eqb _ _). Qed.

Lemma record_of_id info p : mi_Id (record_of info p) = mi_Id info.
Proof. destruct p as [p|]; [|done]. cbn. by destruct (String.eqb _ _). Qed.

(** A write that succeeds leaves the record of the machine, and no other changed. *)
Lemma write_record_ok info w w' : mi_Id info <> "" -> wire_ok info ->
  write_record (E := E) corro info w = (w', Ok tt) ->
  settings w' = settings w /\ exists text, pj_Unmarshal text = Some info /\ machines w' = <[mi_Id info := text]> (machines w).
Proof.
  intros Hid Hwire. unfold write_record, UpdateMachine, CreateMachine. rewrite (proj2 (String.eqb_neq _ "") Hid).
  destruct (pj_Marshal info) as [text|] eqn:Hm; [|done].
  pose proof (pj_roundtrip info text Hwire Hm) as Hrt.
  destruct (x_update_machine corro text (mi_Id info) w) as [w1 x1] eqn:Hx1.
  destruct (machine_updated _ _ _ _ _ Hx1) as [Hs1 Hup]. unfold affected.
  destruct (ExecContext x1) as [res|e] eqn:Hexec; [|done].
  assert (Hnofail : ~ exec_fails x1) by (intros [e He]; congruence).
  destruct Hup as [Hup|[_ Hf]]; [|done].
  destruct (machines w !! mi_Id info) as [old|] eqn:Hold; destruct Hup as [Hup [(res' & Hres & Hn)|Hf]]; try done;
    assert (res' = res) as -> by congruence; rewrite Hn; cbn.
  - intros [= <-]. split; [done|]. by exists text.
  - destruct (x_insert_machine corro (mi_Id info) text w1) as [w2 x2] eqn:Hx2.
    destruct (machine_inserted _ _ _ _ _ Hx2) as [Hs2 Hins]. unfold exec_store.
    destruct (ExecContext x2) as [res2|] eqn:Hexec2; [|done]. intros [= <-].
    destruct Hins as [[_ Hins]|[_ [e He]]]; [|congruence].
    split; [congruence|]. exists text. split; [done|]. by rewrite Hins, Hup.
Qed.
End Sync.

(** A synchronisation that succeeds leaves the machine's own record in the cluster
    store equal to the machine state, creating it if it is missing; only a Docker version
    the engine does not tell is kept from the record.  No other record changes. *)
Lemma syncMachineInfo_publishes `{ProtoJSONSpec} `{ProtoEqualSpec} {W E : Type} (corro : Corro W) `{!Tables corro}
  (rt : Runtime) (s : State) (w w' : W)
  (Hid : st_ID s <> "") (Hkey : cf_PublicKey (st_Network s) <> Some "")
  (Hsync : syncMachineInfo (E := E) corro rt s w = Some (w', Ok tt)) :
  exists text published, machines w' !! st_ID s = Some text /\
    pj_Unmarshal text = Some (record_of (Info rt s) published) /\
    (published = None \/ exists old, machines w !! st_ID s = Some old /\ pj_Unmarshal old = published) /\
    forall id, id <> st_ID s -> machines w' !! id = machines w !! id.
Proof.
  pose proof (Info_wire_ok rt s Hkey) as Hwire. unfold syncMachineInfo in Hsync.
  destruct (GetMachine corro (st_ID s) w) as [r|] eqn:Hget; [|done].
  pose proof (GetMachine_record corro _ _ _ Hid Hget) as Hr.
  assert (Hwrite : forall published, sync_record (E := E) corro rt s published w = (w', Ok tt) ->
    (exists text, machines w !! st_ID s = Some text /\ pj_Unmarshal text = published) \/ published = None ->
    exists text, machines w' !! st_ID s = Some text /\ pj_Unmarshal text = Some (record_of (Info rt s) published) /\
      forall id, id <> st_ID s -> machines w' !! id = machines w !! id).
  { intros published Hrun Hpub. unfold sync_record, publish in Hrun.
    assert (Hw : forall info, write_record (E := E) corro info w = (w', Ok tt) -> info = record_of (Info rt s) published ->
      exists text, machines w' !! st_ID s = Some text /\ pj_Unmarshal text = Some (record_of (Info rt s) published) /\
      forall id, id <> st_ID s -> machines w' !! id = machines w !! id).
    { intros info Hok ->. apply (write_record_ok corro) in Hok as (_ & text & Ht & Hm); [|by rewrite record_of_id|by apply record_of_wire_ok].
      rewrite record_of_id in Hm. exists text. rewrite Hm. cbn [mi_Id Info]. split; [by rewrite lookup_insert_eq|].
      split; [done|]. intros id Hne. by rewrite lookup_insert_ne. }
    destruct published as [p|]; [|by apply (Hw _ Hrun)].
    fold (record_of (Info rt s) (Some p)) in Hrun. destruct (proto_Equal _ p) eqn:Heq; [|by apply (Hw _ Hrun)].
    injection Hrun as <-. apply proto_Equal_spec in Heq; [|by apply record_of_wire_ok].
    destruct Hpub as [(text & Ht & Hp)|]; [|done]. exists text. rewrite Heq. by split_and!. }
  destruct r as [p|e].
  - destruct Hr as (old & Hold & Hp & _). injection Hsync as Hsync.
    destruct (Hwrite (Some p) Hsync) as (text & Ht1 & Ht2 & Ht3); [left; by exists old|].
    exists text, (Some p). split_and!; [done..| |done]. right. by exists old.
  - destruct (is_not_found e) eqn:He; [|done]. injection Hsync as Hsync.
    destruct (Hwrite None Hsync) as (text & Ht1 & Ht2 & Ht3); [by right|]. exists text, None. split_and!; [done..| |done]. by left.
Qed.

(** C33: A machine that joins a cluster becomes the machine the cluster added: when
    [JoinCluster] is given the record of a valid machine with this machine's key, the
    record that the machine then publishes about itself has the same ID, name, addresses
    and key, so the round trip over the wire messages and the state loses nothing; its
    peers are the other machines, and it waits for the store version of the request. *)
Theorem JoinCluster_roundtrip {W E : Type} (save : State -> W -> W * result E unit)
  (mtu : Z) (slice : nat) (req : JoinClusterRequest) (rt : Runtime) (s : State) (w : W) (m : MachineInfo) (c : NetworkConfig)
  (Hm : jc_Machine req = Some m) (Hid : mi_Id m <> "") (Hname : mi_Name m <> "")
  (Hc : mi_Network m = Some c) (Hready : peer_ready m)
  (Hzone : plain_subnet c)
  (Hports : Forall port_in_range (nc_Endpoints c))
  (Hip : mi_PublicIp m = None \/ exists a, ToAddr (mi_PublicIp m) = Some (Ok a))
  (Hkey : cf_PublicKey (st_Network s) = nc_PublicKey c)
  (Hothers : Forall peer_ready (jc_OtherMachines req)) :
  match JoinCluster save false mtu slice req s w with
  | Some (s', w', r) =>
      mi_Id (Info rt s') = mi_Id m /\ mi_Name (Info rt s') = mi_Name m /\
      mi_Network (Info rt s') = mi_Network m /\ mi_PublicIp (Info rt s') = mi_PublicIp m /\
      Forall2 (peer_of ∅) (jc_OtherMachines req) (cf_Peers (st_Network s')) /\
      st_MinStoreVersion s' = jc_MinStoreVersion req /\
      match save s' w with
      | (w1, Ok _) => r = Ok tt /\ w' = w1
      | (w1, Err e) => r = Err (SaveFailed e) /\ w' = w1
      end
  | None => False
  end.
Proof.
  assert (Hpeers : forall ms, Forall peer_ready ms -> forall sl, exists ps, join_peers sl ms = Some ps /\ Forall2 (peer_of ∅) ms ps).
  { clear. induction 1 as [|x ms (cx & Hcx & Hvx & Hsx & Hix) _ IH]; intros sl; [by exists []|].
    cbn [join_peers]. unfold join_peer. rewrite Hcx, Hvx.
    destruct (peer_config_ready sl ∅ x cx Hcx Hvx Hsx Hix) as (p & -> & Hp).
    destruct (IH (S sl)) as (ps & -> & Hps). eexists. split; [done|]. by constructor. }
  destruct Hready as (c' & Hc' & Hv & Hsub & Hmip). assert (c' = c) as -> by congruence.
  unfold JoinCluster. rewrite Hm, (proj2 (String.eqb_neq _ "") Hid), (proj2 (String.eqb_neq _ "") Hname), Hc, Hv.
  pose proof Hv as ([|[sn Hsn]] & [|[a Ha]] & Heps & k & Hk & _)%NetworkConfig_Validate_Ok; [done..|].
  rewrite Hkey, String.eqb_refl. cbn [negb]. rewrite Hsn, Ha.
  destruct (endpoints_convert _ Heps) as (l & _ & Hconv). rewrite (endpoints_skip_none _ _ Hconv).
  destruct (Hpeers _ Hothers slice) as (ps & -> & Hps).
  assert (Hpub : exists ip, (if is_set (mi_PublicIp m) then ToAddr (mi_PublicIp m) else Some (Ok NoAddr)) = Some (Ok ip) /\
    (if IsValid ip then Some (NewIP ip) else None) = mi_PublicIp m).
  { destruct (mi_PublicIp m) as [pip|]; cbn [is_set]; [|by exists NoAddr].
    destruct Hip as [|[b Hb]]; [done|]. exists b. split; [done|].
    pose proof (ToAddr_wf _ _ Hb) as [_ ->]. by rewrite (NewIP_of_ToAddr _ _ Hb). }
  destruct Hpub as (ip & -> & Hipeq).
  set (s' := mkState _ _ _ _ _ _).
  assert (Hnet : mi_Network (Info rt s') = Some c).
  { subst s'. unfold Info. cbn [mi_Network st_Network st_Endpoints cf_Subnet cf_ManagementIP cf_PublicKey]. f_equal.
    by apply published_config. }
  destruct (save s' w) as [w1 [u|e]] eqn:Hsave; rewrite Hsave;
    (split_and!; [done|done|done|exact Hipeq|exact Hps|done|by destruct u || done|done]).
Qed.

Lemma laggingActors_empty local target : laggingActors local target = ∅ <->
  forall actor need, target !! actor = Some need -> need <= default 0 (local !! actor).
Proof.
  unfold laggingActors. rewrite map_eq_iff. split.
  - intros H actor need Hn. specialize (H actor). rewrite map_lookup_imap, Hn, lookup_empty in H. cbn in H.
    destruct (Z.ltb_spec (default 0 (local !! actor)) need); [done|lia].
  - intros H actor. rewrite map_lookup_imap, lookup_empty. destruct (target !! actor) as [need|] eqn:Hn; [|done]. cbn.
    specialize (H actor need Hn). by rewrite (proj2 (Z.ltb_ge _ _)).
Qed.

Lemma wait_loop_reaches_target {W E : Type} (save : State -> W -> W * result E unit) target events s w s' w' :
  wait_loop save target events s w = Some (s', w', Ok tt) ->
  (s' = s /\ w' = w /\ (SyncCtx ∈ events \/ exists local gaps cd, SyncVersion (Ok local) gaps cd ∈ events /\
     (cd = true \/ waitKnownMissingChanges gaps = GapsStopped))) \/
  (s' = with_min_version ∅ s /\ save s' w = (w', Ok tt) /\ exists local gaps,
     SyncVersion (Ok local) gaps false ∈ events /\ laggingActors local target = ∅ /\ waitKnownMissingChanges gaps = GapsDone).
Proof.
  induction events as [|ev events IH]; cbn [wait_loop]; [done|].
  assert (Hlift : wait_loop save target events s w = Some (s', w', Ok tt) ->
    (s' = s /\ w' = w /\ (SyncCtx ∈ ev :: events \/ exists local gaps cd, SyncVersion (Ok local) gaps cd ∈ ev :: events /\
       (cd = true \/ waitKnownMissingChanges gaps = GapsStopped))) \/
    (s' = with_min_version ∅ s /\ save s' w = (w', Ok tt) /\ exists local gaps,
       SyncVersion (Ok local) gaps false ∈ ev :: events /\ laggingActors local target = ∅ /\ waitKnownMissingChanges gaps = GapsDone)).
  { intros Hrun. destruct (IH Hrun) as [(-> & -> & [Hc|(l & g & cd & Hin & H)])|(-> & Hs & l & g & Hin & H)].
    - left. split_and!; [done..|]. left. by right.
    - left. split_and!; [done..|]. right. exists l, g, cd. split; [by right|done].
    - right. split_and!; [done..|]. exists l, g. split; [by right|done]. }
  destruct ev as [| |[local|e] gaps cd]; [|exact Hlift| |exact Hlift].
  - intros [= <- <-]. left. split_and!; [done..|]. left. by left.
  - destruct (decide _) as [Hlag|_]; [|exact Hlift].
    destruct (waitKnownMissingChanges gaps) eqn:Hgaps; [| |done..].
    + destruct cd.
      * intros [= <- <-]. left. split_and!; [done..|]. right. exists local, gaps, true. split; [by left|by left].
      * destruct (save (with_min_version ∅ s) w) as [w1 [[]|]] eqn:Hsave; [|done]. intros [= <- <-]. right.
        split_and!; [done..|]. exists local, gaps. split; [by left|done].
    + intros [= <- <-]. left. split_and!; [done..|]. right. exists local, gaps, cd. split; [by left|by right].
Qed.

(** A machine takes part in its cluster only with a synchronised store.
    [waitStoreSync] finishes, without an error and with the context still open, only after
    it has seen a local version that reaches the required one for every actor and then no
    gaps; the requirement is cleared, and saved, only then, so that a restart before that
    waits again. *)
Lemma waitStoreSync_reaches_target {W E : Type} (save : State -> W -> W * result E unit) (events : list sync_event)
  (s s' : State) (w w' : W) (Hmin : st_MinStoreVersion s <> ∅)
  (Hwait : waitStoreSync save events s w = Some (s', w', Ok tt)) :
  (s' = s /\ w' = w /\ (SyncCtx ∈ events \/ exists local gaps cd, SyncVersion (Ok local) gaps cd ∈ events /\
     (cd = true \/ waitKnownMissingChanges gaps = GapsStopped))) \/
  (st_MinStoreVersion s' = ∅ /\ save s' w = (w', Ok tt) /\ exists local gaps,
     SyncVersion (Ok local) gaps false ∈ events /\ waitKnownMissingChanges gaps = GapsDone /\
     forall actor need, st_MinStoreVersion s !! actor = Some need -> need <= default 0 (local !! actor)).
Proof.
  unfold waitStoreSync in Hwait. destruct (decide _) as [|_]; [done|].
  apply wait_loop_reaches_target in Hwait as [|(-> & Hsave & local & gaps & Hin & Hlag & Hgaps)]; [by left|right].
  split_and!; [done..|]. exists local, gaps. split_and!; [done..|]. by apply laggingActors_empty.
Qed.

(** ** Concrete runs *)
#[local] Existing Instance Memory.bits_json.
#[local] Existing Instance Memory.bits_json_spec.
#[local] Existing Instance Memory.memory_tables.
#[local] Instance structural_equal : ProtoEqual := {| proto_Equal a b := bool_decide (a = b) |}.
#[local] Instance structural_equal_spec : ProtoEqualSpec.
Proof. split. intros a b _ H. by apply bool_decide_eq_true in H. Qed.

Definition no_save {E} (s : State) (w : Memory.World) : Memory.World * result E unit := (w, Ok tt).
Definition keep_network {E} (c : Config) (w : Memory.World) : Memory.World * result E unit := (w, Ok tt).

(** A machine that has only its key, as before it joins, and the record of a member. *)
Definition fresh_state (key : string) : State :=
  mkState "" "" (mkConfig NoPrefix NoAddr 0 0 (Some key) (Some key) []) [] NoAddr ∅.
Definition member (id name key : string) (third : Z) : MachineInfo :=
  mkMachineInfo id name (Some (mkNetworkConfig (Some (NewIPPrefix (subnet_210 third)))
    (NewIP <$> ManagementIP key) [Some (NewIPPort (Addr4 167772161) 51820)] (Some key))) None "" "" "" "" "" "".

Definition one : MachineInfo := member "id-1" "one" Memory.key_a 0.
Definition two : MachineInfo := member "id-2" "two" Memory.key_b 1.

Lemma member_ready third id name key : String.length key = KeyLen -> 0 <= third < 256 -> peer_ready (member id name key third).
Proof.
  intros Hlen Ht. eexists. split; [reflexivity|]. split_and!; [|done|].
  - apply NetworkConfig_Validate_Ok. cbn -[ToPrefix ToAddr ManagementIP NewIPPrefix]. split_and!.
    + right. exists (subnet_210 third). apply NewIPPrefix_ToPrefix. unfold subnet_210. repeat split; cbn; lia.
    + right. unfold ManagementIP. rewrite Hlen. cbn [KeyLen Nat.ltb Nat.leb fmap option_fmap option_map].
      eexists. apply NewIP_ToAddr; [|done]. unfold addr_wf. cbn [addr_val BitLen].
      pose proof (be_val_range (String.append (be_bytes 2 64972) (fst (split_at 14 key)))) as Hr.
      rewrite string_app_length, be_bytes_length, split_at_length in Hr by (rewrite Hlen; unfold KeyLen; lia). exact Hr.
    + repeat constructor. eexists _, _. by split.
    + by exists key.
  - cbn. unfold ManagementIP. by rewrite Hlen.
Qed.

Definition join_request : JoinClusterRequest := mkJoinClusterRequest (Some two) [one] {["actor" := 7]} 0 0.

Lemma JoinCluster_roundtrip_witness :
  match JoinCluster (E := unit) no_save false 1420 0 join_request (fresh_state Memory.key_b) Memory.empty_store with
  | Some (s', _, r) => mi_Network (Info (mkRuntime "v" "" "host" "amd64" "" "") s') = mi_Network two
  | None => False
  end.
Proof.
  pose proof (JoinCluster_roundtrip (E := unit) no_save 1420 0 join_request (mkRuntime "v" "" "host" "amd64" "" "")
    (fresh_state Memory.key_b) Memory.empty_store two (config_of two) eq_refl ltac:(discriminate) ltac:(discriminate) eq_refl
    (member_ready 1 "id-2" "two" Memory.key_b eq_refl ltac:(lia))) as H.
  destruct (JoinCluster _ _ _ _ _ _ _) as [[[s' w'] r]|].
  - apply H.
    + exists (NewIPPrefix (subnet_210 1)), (Addr4 (181534720 + 256)). split_and!; reflexivity.
    + constructor; [|constructor]. intros ep [= <-]. cbn. lia.
    + left. reflexivity.
    + reflexivity.
    + repeat constructor. apply (member_ready 0 "id-1" "one"); [reflexivity|lia].
  - apply H.
    + exists (NewIPPrefix (subnet_210 1)), (Addr4 (181534720 + 256)). split_and!; reflexivity.
    + constructor; [|constructor]. intros ep [= <-]. cbn. lia.
    + left. reflexivity.
    + reflexivity.
    + repeat constructor. apply (member_ready 0 "id-1" "one"); [reflexivity|lia].
Defined.

Definition joined_state : State :=
  match JoinCluster (E := unit) no_save false 1420 0 join_request (fresh_state Memory.key_b) Memory.empty_store with
  | Some (s', _, _) => s'
  | None => fresh_state ""
  end.


Definition runtime : Runtime := mkRuntime "0.21" "" "host" "amd64" "" "".
Definition synced_store : Memory.World :=
  match syncMachineInfo (E := unit) Memory.memory runtime joined_state Memory.empty_store with
  | Some (w', _) => w'
  | None => Memory.empty_store
  end.

(** An update that is refused for its public IP has already changed the name in memory,
    which the next synchronisation publishes although the request failed. *)
Example refused_update_is_published :
  match applyMachineUpdate (E := unit) Memory.memory no_save
          (mkUpdateMachineRequest (Some "renamed") (Some (mkIP "xyz")) []) joined_state Memory.empty_store with
  | Some (s', w', Err (PublicIPBad _)) => w' = Memory.empty_store /\ mi_Name (Info runtime s') = "renamed"
  | _ => False
  end.
Proof. vm_compute. split; reflexivity. Qed.

(** A request to join whose machine has no subnet passes the validation and dereferences
    nil. *)
Example join_without_subnet_panics :
  JoinCluster (E := unit) no_save false 1420 0
    (mkJoinClusterRequest (Some (mkMachineInfo "id" "name" (Some (Memory.config_with Memory.key_a)) None "" "" "" "" "" "")) [] ∅ 0 0)
    (fresh_state Memory.key_a) Memory.empty_store = None.
Proof. reflexivity. Qed.

(** The endpoint that a peer was reached at is given up when it is not advertised: the
    comment of [configurePeers] promises to preserve the current endpoint. *)
Definition roamed : AddrPort := mkAddrPort (Addr4 16909060) 40000.
Example roaming_endpoint_is_dropped :
  let s := fst (endpoint_changed (E := unit) no_save 0 (Network.mkEvent Memory.key_a roamed) joined_state Memory.empty_store) in
  map (fun p => deref <$> pc_Endpoint p) (cf_Peers (st_Network s)) = [Some roamed] /\
  match configurePeers (E := unit) no_save keep_network 5 [one; two] s Memory.empty_store with
  | Some (s', _, Ok _) => map (fun p => deref <$> pc_Endpoint p) (cf_Peers (st_Network s')) = [Some (mkAddrPort (Addr4 167772161) 51820)]
  | _ => False
  end.
Proof. vm_compute. split; reflexivity. Qed.
