(* ===== verification/Bootstrap.v ===== *)
(** * Bootstrap: the first machine of a cluster, tokens and domains

    The handlers of [internal/machine/machine.go] around those of Controller.v: [InitCluster]
    makes a machine the first member of a new cluster, [Token] is what another machine is
    added with ([internal/machine/token.go]), [UpdateMachine] and [Reset]; and the reserved
    domain of a cluster, [internal/machine/cluster/dns.go].  What a machine finds out about
    its host (routable IPs, public IP, MTU, host name) is given.  JSON encodings are the
    classes [TokenJSON] and [DomainJSON]; the DNS service is the answers it gives. *)

From S2P Require Import Prelude GoStrings NetAddr NetText Proto Corrosion Store Ipam Resolver Cluster Network Controller.
#[local] Open Scope string_scope.
#[local] Open Scope list_scope.
#[local] Open Scope Z_scope.

(** ** Tokens *)
Record Token := mkToken { tk_PublicKey : string; tk_PublicIP : addr; tk_Endpoints : list AddrPort }.

(** *** [base64.StdEncoding] *)
Definition alphabet : string := "ABCDEFGHIJKLMNOPQRSTUVWXYZabcdefghijklmnopqrstuvwxyz0123456789+/".
Definition digit64 (v : Z) : ascii := default "A"%char (String.get (Z.to_nat v) alphabet).
Definition value64 (c : ascii) : option Z :=
  let b := byte_val c in
  if (65 <=? b) && (b <=? 90) then Some (b - 65)
  else if (97 <=? b) && (b <=? 122) then Some (b - 71)
  else if (48 <=? b) && (b <=? 57) then Some (b + 4)
  else if b =? 43 then Some 62
  else if b =? 47 then Some 63
  else None.
Definition byte_of (v : Z) : ascii := Ascii.ascii_of_N (Z.to_N v).

Fixpoint EncodeToString (s : string) : string :=
  match s with
  | "" => ""
  | String a "" =>
      let v := byte_val a in
      String (digit64 (v / 4)) (String (digit64 (v mod 4 * 16)) "==")
  | String a (String b "") =>
      let v := byte_val a * 256 + byte_val b in
      String (digit64 (v / 1024)) (String (digit64 (v / 16 mod 64)) (String (digit64 (v mod 16 * 4)) "="))
  | String a (String b (String c s')) =>
      let v := byte_val a * 65536 + byte_val b * 256 + byte_val c in
      String (digit64 (v / 262144)) (String (digit64 (v / 4096 mod 64))
        (String (digit64 (v / 64 mod 64)) (String (digit64 (v mod 64)) (EncodeToString s'))))
  end.

(** New lines are skipped anywhere. *)
Fixpoint skip_newlines (s : string) : string :=
  match s with
  | "" => ""
  | String c s' => if (byte_val c =? 10) || (byte_val c =? 13) then skip_newlines s' else String c (skip_newlines s')
  end.

Definition pad64 : ascii := "="%char.

(** Groups of four digits; padding only at the end.  Bits left over are not looked at. *)
Fixpoint decode_groups (s : string) : option string :=
  match s with
  | "" => Some ""
  | String a (String b (String c (String d s'))) =>
      x ← value64 a; y ← value64 b;
      if Ascii.eqb c pad64 then
        if Ascii.eqb d pad64 && String.eqb s' "" then Some (String (byte_of (x * 4 + y / 16)) "") else None
      else
        z ← value64 c;
        if Ascii.eqb d pad64 then
          if String.eqb s' "" then
            Some (String (byte_of (x * 4 + y / 16)) (String (byte_of (y mod 16 * 16 + z / 4)) ""))
          else None
        else
          t ← value64 d; rest ← decode_groups s';
          Some (String (byte_of (x * 4 + y / 16)) (String (byte_of (y mod 16 * 16 + z / 4))
            (String (byte_of (z mod 4 * 64 + t)) rest)))
  | _ => None
  end.

Definition DecodeString (s : string) : option string := decode_groups (skip_newlines s).

(** *** [Token.String] and [ParseToken] *)
Definition TokenPrefix : string := "mtkn:".

Class TokenJSON := { marshal_token : Token -> option string; unmarshal_token : string -> option Token }.
Class TokenJSONSpec `{TokenJSON} : Prop := {
  token_json : forall t js, marshal_token t = Some js -> unmarshal_token js = Some t
}.

Inductive token_error := InvalidTokenPrefix (s : string) | DecodeToken | UnmarshalToken.

Definition Token_String `{TokenJSON} (t : Token) : option string :=
  (fun js => TokenPrefix +:+ EncodeToString js) <$> marshal_token t.

Definition ParseToken `{TokenJSON} (s : string) : result token_error Token :=
  match cut_prefix TokenPrefix s with
  | None => Err (InvalidTokenPrefix s)
  | Some encoded =>
      match DecodeString encoded with
      | None => Err DecodeToken
      | Some decoded => match unmarshal_token decoded with
                        | None => Err UnmarshalToken
                        | Some t => Ok t
                        end
      end
  end.

(** ** What a machine finds out about its host *)
Record Host (E : Type) := mkHost {
  h_Hostname : string; h_RoutableIPs : result E (list addr); h_PublicIP : option addr; h_MTU : Z; h_Now : string }.
Arguments mkHost {E}. Arguments h_Hostname {E}. Arguments h_RoutableIPs {E}. Arguments h_PublicIP {E}.
Arguments h_MTU {E}. Arguments h_Now {E}.

(** The routable addresses, and the public one if it is known and not among them. *)
Definition host_ips (ips : list addr) (public : option addr) : list addr :=
  match public with
  | Some p => if decide (p ∈ ips) then ips else ips ++ [p]
  | None => ips
  end.

Section Token.
Context {TJ : TokenJSON} {E : Type}.

Inductive token_request_error := NoPublicKey | TokenIPsFailed (e : E) | TokenStringFailed.

Definition MachineToken (h : Host E) (s : State) : result token_request_error string :=
  let key := default "" (cf_PublicKey (st_Network s)) in
  if String.eqb key "" then Err NoPublicKey
  else match h_RoutableIPs h with
  | Err e => Err (TokenIPsFailed e)
  | Ok ips =>
      let endpoints := map (fun ip => mkAddrPort ip (EffectiveWireGuardPort (st_Network s) mod 2 ^ 16)) (host_ips ips (h_PublicIP h)) in
      match Token_String (mkToken key (default NoAddr (h_PublicIP h)) endpoints) with
      | None => Err TokenStringFailed
      | Some t => Ok t
      end
  end.
End Token.

(** ** [InitCluster] *)
Record InitClusterRequest := mkInitClusterRequest {
  ic_MachineName : string; ic_Network : option IPPrefix; ic_WireguardPort : Z; ic_WireguardMtu : Z;
  ic_WireguardEndpoints : list (option IPPort); ic_PublicIp : option IP; ic_PublicIpAuto : bool }.

Section Init.
Context {PJ : ProtoJSON} {NX : Netipx} {W E : Type} (corro : Corro W) (save : State -> W -> W * result E unit).

Inductive init_error :=
| MachineAlreadyMember | InvalidClusterNetwork (e : pb_error) | InitFailed (e : cluster_error) | NameFailed
| RoutableIPsFailed (e : E) | AddFailed (e : cluster_error) | BadAddedMachine (e : pb_error) | StateSaveFailed (e : E).

Definition Initialised (s : State) : bool := negb (String.eqb (st_ID s) "").

Definition IP (s : State) : addr := if Initialised s then MachineIP (cf_Subnet (st_Network s)) else NoAddr.

Definition init_endpoints (h : Host E) (wgPort : Z) (given : list (option IPPort)) : result init_error (list (option IPPort)) :=
  match given with
  | [] => match h_RoutableIPs h with
          | Err e => Err (RoutableIPsFailed e)
          | Ok ips => Ok (map (fun ip => Some (NewIPPort ip wgPort)) (host_ips ips (h_PublicIP h)))
          end
  | _ => Ok given
  end.

(** The state of the first machine, taken from the record the cluster has added. *)
Definition first_state (wgPort wgMTU : Z) (m : MachineInfo) (s : State) : nilable init_error State :=
  match mi_Network m with
  | None => None
  | Some c =>
      match ToPrefix (nc_Subnet c) with
      | None => None
      | Some (Err e) => Some (Err (BadAddedMachine e))
      | Some (Ok subnet) =>
          match ToAddr (nc_ManagementIp c) with
          | None => None
          | Some (Err e) => Some (Err (BadAddedMachine e))
          | Some (Ok manageIP) =>
              match endpointsToAddrPorts (nc_Endpoints c) with
              | None => None
              | Some eps =>
                  Some (Ok (mkState (mi_Id m) (mi_Name m)
                    (mkConfig subnet manageIP wgPort wgMTU (cf_PrivateKey (st_Network s)) (cf_PublicKey (st_Network s)) [])
                    eps
                    (match mi_PublicIp m with
                     | None => st_PublicIP s
                     | Some ip => match ToAddr (Some ip) with Some (Ok a) => a | _ => NoAddr end
                     end)
                    (st_MinStoreVersion s)))
              end
          end
      end
  end.

(** [None] is a panic; [draws] are those of the default name, [rnd] those of the new
    machine. *)
Definition InitCluster (cl : Cluster) (h : Host E) (draws : nat -> draw) (rnd : randomness) (req : InitClusterRequest)
  (s : State) (w : W) : option (State * W * result init_error MachineInfo) :=
  let fail w e := Some (s, w, Err e) in
  if Initialised s then fail w MachineAlreadyMember
  else match ToPrefix (ic_Network req) with
  | None => None
  | Some (Err e) => fail w (InvalidClusterNetwork e)
  | Some (Ok clusterNetwork) =>
  match Init corro cl clusterNetwork (h_Now h) w with
  | (w1, Err e) => fail w1 (InitFailed e)
  | (w1, Ok _) =>
  match (if String.eqb (ic_MachineName req) "" then DefaultMachineName (h_Hostname h) [] draws
         else Some (ic_MachineName req)) with
  | None => fail w1 NameFailed
  | Some machineName =>
  let wgPort := if ic_WireguardPort req mod 2 ^ 16 =? 0 then DefaultWireGuardPort else ic_WireguardPort req mod 2 ^ 16 in
  let wgMTU := if ic_WireguardMtu req =? 0 then h_MTU h else ic_WireguardMtu req in
  match init_endpoints h wgPort (ic_WireguardEndpoints req) with
  | Err e => fail w1 e
  | Ok endpoints =>
  let publicIP := match ic_PublicIp req with
                  | Some ip => Some ip
                  | None => if ic_PublicIpAuto req then NewIP <$> h_PublicIP h else None
                  end in
  let addReq := mkAddMachineRequest machineName
    (Some (mkNetworkConfig None None endpoints (cf_PublicKey (st_Network s)))) publicIP in
  match AddMachineWithoutReadyCheck corro addReq rnd w1 with
  | None => None
  | Some (w2, Err e) => fail w2 (AddFailed e)
  | Some (w2, Ok m) =>
  match first_state wgPort wgMTU m s with
  | None => None
  | Some (Err e) => fail w2 e
  | Some (Ok s1) =>
      match save s1 w2 with
      | (w3, Err e) => Some (s1, w3, Err (StateSaveFailed e))
      | (w3, Ok _) => Some (s1, w3, Ok m)
      end
  end end end end end end.

(** *** [UpdateMachine]: whether a synchronisation is requested of the controller *)
Definition UpdateMachine (rt : Runtime) (controller : bool) (req : UpdateMachineRequest) (s : State) (w : W) :
  option (State * W * result (option (@machine_error E)) (MachineInfo * bool)) :=
  if negb (Initialised s) then Some (s, w, Err None)
  else match applyMachineUpdate corro save req s w with
  | None => None
  | Some (s1, w1, Err e) => Some (s1, w1, Err (Some e))
  | Some (s1, w1, Ok _) => Some (s1, w1, Ok (Info rt s1, controller))
  end.

(** *** [Reset]: the answer, whether the machine is being reset, and whether it is stopped *)
Inductive reset_answer := NotMember | AlreadyResetting | Resetting.
Definition Reset (s : State) (resetting : bool) : reset_answer * bool * bool :=
  if negb (Initialised s) then (NotMember, resetting, false)
  else if resetting then (AlreadyResetting, true, false)
  else (Resetting, true, true).

(** *** [IsNetworkReady] and [WaitForNetworkReady]: what the wait sees first *)
Definition IsNetworkReady (s : State) (network_ready : bool) : bool := Initialised s && network_ready.
Inductive network_wait := NetworkReady | WaitCtxDone.
Definition WaitForNetworkReady (s : State) (first : network_wait) : bool :=
  negb (Initialised s) || match first with NetworkReady => true | WaitCtxDone => false end.
End Init.

(** ** The reserved domain, [internal/machine/cluster/dns.go] *)
Record uncloudDNSDomain := mkDomain { dom_Endpoint : string; dom_Name : string; dom_Token : string }.

Class DomainJSON := { marshal_domain : uncloudDNSDomain -> option string; unmarshal_domain : string -> option uncloudDNSDomain }.
Class DomainJSONSpec `{DomainJSON} : Prop := {
  domain_json : forall d js, marshal_domain d = Some js -> unmarshal_domain js = Some d
}.

Definition uncloudDNSKey : string := "uncloud_dns".

Inductive record_type := RecordUnspecified | RecordA | RecordAAAA.
Record DNSRecordRequest := mkRecordRequest { rr_Name : string; rr_Type : record_type; rr_Values : list string }.
Record DNSRecord := mkDNSRecord { dr_Name : string; dr_Type : record_type; dr_Values : list string }.

(** The answers of the DNS service. *)
Record DNSService (E : Type) := mkDNSService {
  dns_reserve : string -> result E (string * string);                            (* endpoint: name, token *)
  dns_create : string -> string -> string -> DNSRecordRequest -> result E DNSRecord  (* endpoint, domain, token *)
}.
Arguments dns_reserve {E}. Arguments dns_create {E}.

Section Domain.
Context {DJ : DomainJSON} {W E : Type} (corro : Corro W) (dns : DNSService E).

Inductive domain_error :=
| DomainNotReady | EndpointNotSet | DomainNotFound | DomainGetFailed (e : store_error) | DomainUnmarshal
| DomainReserved | ReserveFailed (e : E) | DomainMarshal | DomainStoreFailed (e : store_error)
| DomainDeleteFailed (e : store_error) | CreateRecordsFailed (e : E).

(** Bytes are in the store as a JSON string, in base64. *)
Definition storedDomain (w : W) : result domain_error uncloudDNSDomain :=
  match Get corro uncloudDNSKey w with
  | Err ErrKeyNotFound => Err DomainNotFound
  | Err e => Err (DomainGetFailed e)
  | Ok text =>
      match DecodeString text with
      | None => Err (DomainGetFailed (StoreScan (ScanColumn 0)))
      | Some js => match unmarshal_domain js with Some d => Ok d | None => Err DomainUnmarshal end
      end
  end.

Definition ReserveDomain (cl : Cluster) (endpoint : string) (w : W) : W * result domain_error string :=
  if negb (ready cl) then (w, Err DomainNotReady)
  else if String.eqb endpoint "" then (w, Err EndpointNotSet)
  else match storedDomain w with
  | Ok _ => (w, Err DomainReserved)
  | Err DomainNotFound =>
      match dns_reserve dns endpoint with
      | Err e => (w, Err (ReserveFailed e))
      | Ok (name, token) =>
          match marshal_domain (mkDomain endpoint name token) with
          | None => (w, Err DomainMarshal)
          | Some js =>
              match Put corro uncloudDNSKey (EncodeToString js) w with
              | (w', Err e) => (w', Err (DomainStoreFailed e))
              | (w', Ok _) => (w', Ok name)
              end
          end
      end
  | Err e => (w, Err e)
  end.

Definition GetDomain (cl : Cluster) (w : W) : result domain_error string :=
  if negb (ready cl) then Err DomainNotReady
  else match storedDomain w with Ok d => Ok (dom_Name d) | Err e => Err e end.

Definition ReleaseDomain (cl : Cluster) (w : W) : W * result domain_error string :=
  if negb (ready cl) then (w, Err DomainNotReady)
  else match storedDomain w with
  | Err e => (w, Err e)
  | Ok d =>
      match Delete corro uncloudDNSKey w with
      | (w', Err e) => (w', Err (DomainDeleteFailed e))
      | (w', Ok _) => (w', Ok (dom_Name d))
      end
  end.

(** The requests are made one after the other, up to the first that fails. *)
Fixpoint CreateRecords (d : uncloudDNSDomain) (records : list DNSRecordRequest) : result domain_error (list DNSRecord) :=
  match records with
  | [] => Ok []
  | r :: rest =>
      match dns_create dns (dom_Endpoint d) (dom_Name d) (dom_Token d) r with
      | Err e => Err (CreateRecordsFailed e)
      | Ok x => match CreateRecords d rest with Ok xs => Ok (x :: xs) | Err e => Err e end
      end
  end.

Definition CreateDomainRecords (cl : Cluster) (records : list DNSRecordRequest) (w : W) : result domain_error (list DNSRecord) :=
  if negb (ready cl) then Err DomainNotReady
  else match storedDomain w with
  | Err e => Err e
  | Ok d => CreateRecords d records
  end.
End Domain.

(** ** Properties *)

(** *** Base64 *)
Lemma value64_digit64 v : 0 <= v < 64 -> value64 (digit64 v) = Some v /\ digit64 v <> pad64 /\
  (byte_val (digit64 v) =? 10) || (byte_val (digit64 v) =? 13) = false.
Proof.
  intros Hv. assert (Hall : forallb (fun n => bool_decide (value64 (digit64 (Z.of_nat n)) = Some (Z.of_nat n)) &&
    negb (Ascii.eqb (digit64 (Z.of_nat n)) pad64) &&
    negb ((byte_val (digit64 (Z.of_nat n)) =? 10) || (byte_val (digit64 (Z.of_nat n)) =? 13))) (seq 0 64) = true) by (vm_compute; reflexivity).
  rewrite forallb_forall in Hall. specialize (Hall (Z.to_nat v)). rewrite Z2Nat.id in Hall by lia.
  destruct (andb_prop _ _ (Hall ltac:(apply in_seq; lia))) as [[H1%bool_decide_eq_true H2%negb_true_iff]%andb_prop H3%negb_true_iff].
  split_and!; [done| |done]. intros He. rewrite He in H2. done.
Qed.

Lemma byte_of_byte a v : v = byte_val a -> byte_of v = a.
Proof. intros ->. apply val_of_byte. Qed.

Ltac digits64 :=
  repeat match goal with
  | |- context [value64 (digit64 ?v)] =>
      let H := fresh in assert (H : 0 <= v < 64) by (Z.to_euclidean_division_equations; lia);
      rewrite (proj1 (value64_digit64 v H)); cbn [mbind option_bind]
  | |- context [Ascii.eqb (digit64 ?v) pad64] =>
      let H := fresh in assert (H : 0 <= v < 64) by (Z.to_euclidean_division_equations; lia);
      rewrite (proj2 (Ascii.eqb_neq _ _) (proj1 (proj2 (value64_digit64 v H))))
  end.

Lemma decode_encode : forall n s, (String.length s <= n)%nat -> decode_groups (EncodeToString s) = Some s.
Proof.
  induction n as [|n IH]; intros s Hn; [by destruct s; [|cbn in Hn; lia]|].
  destruct s as [|a [|b [|c s]]]; [done|..]; pose proof (byte_val_range a); try pose proof (byte_val_range b); try pose proof (byte_val_range c);
    cbn [EncodeToString decode_groups]; digits64.
  - cbn. do 2 f_equal. apply byte_of_byte. Z.to_euclidean_division_equations; lia.
  - cbn. f_equal. f_equal; [|f_equal]; apply byte_of_byte; Z.to_euclidean_division_equations; lia.
  - rewrite IH by (cbn in Hn; lia). cbn [mbind option_bind]. f_equal.
    f_equal; [|f_equal; [|f_equal]]; apply byte_of_byte; Z.to_euclidean_division_equations; lia.
Qed.

Lemma skip_newlines_encode : forall n s, (String.length s <= n)%nat -> skip_newlines (EncodeToString s) = EncodeToString s.
Proof.
  induction n as [|n IH]; intros s Hn; [by destruct s; [|cbn in Hn; lia]|].
  destruct s as [|a [|b [|c s]]]; [done|..]; pose proof (byte_val_range a); try pose proof (byte_val_range b); try pose proof (byte_val_range c);
    cbn [EncodeToString skip_newlines];
    repeat match goal with
    | |- context [(byte_val (digit64 ?v) =? 10) || _] =>
        let H := fresh in assert (H : 0 <= v < 64) by (Z.to_euclidean_division_equations; lia);
        rewrite (proj2 (proj2 (value64_digit64 v H)))
    end; [done..|]. rewrite IH; [done|cbn in Hn; lia].
Qed.

Lemma base64_roundtrip s : DecodeString (EncodeToString s) = Some s.
Proof. unfold DecodeString. by rewrite (skip_newlines_encode _ s (le_n _)), (decode_encode _ s (le_n _)). Qed.

(** *** Tokens *)

(** A token is read back as it was written; the token of a machine carries its key, and
    for each of its addresses the endpoint where it listens. *)
Lemma token_roundtrip `{TokenJSONSpec} t text : Token_String t = Some text -> ParseToken text = Ok t.
Proof.
  unfold Token_String, ParseToken. destruct (marshal_token t) as [js|] eqn:Hm; [|done]. intros [= <-].
  change (cut_prefix TokenPrefix _) with (Some (EncodeToString js)). cbv beta iota.
  by rewrite base64_roundtrip, (token_json _ _ Hm).
Qed.

Lemma MachineToken_reads_back `{TokenJSONSpec} {E} (h : Host E) s text : MachineToken h s = Ok text ->
  exists ips, h_RoutableIPs h = Ok ips /\
    ParseToken text = Ok (mkToken (default "" (cf_PublicKey (st_Network s))) (default NoAddr (h_PublicIP h))
      (map (fun ip => mkAddrPort ip (EffectiveWireGuardPort (st_Network s) mod 2 ^ 16)) (host_ips ips (h_PublicIP h)))).
Proof.
  unfold MachineToken. destruct (String.eqb _ ""); [done|]. destruct (h_RoutableIPs h) as [ips|e]; [|done].
  destruct (Token_String _) as [t|] eqn:Ht; [|done]. intros [= <-]. exists ips. split; [done|]. by apply token_roundtrip.
Qed.

(** *** Domains *)
Section DomainSpec.
Context {DJ : DomainJSON} {DJS : DomainJSONSpec} {W E : Type} (corro : Corro W) (dns : DNSService E) {TB : Tables corro}.

(** The domain a store has. *)
Definition domain_of (w : W) : option uncloudDNSDomain :=
  text ← settings w !! uncloudDNSKey; js ← DecodeString text; unmarshal_domain js.

Definition query_failed {A} (r : result (@domain_error E) A) : Prop := exists e, r = Err (DomainGetFailed (StoreQuery e)).

Lemma storedDomain_spec w :
  match settings w !! uncloudDNSKey with
  | None => storedDomain (E := E) corro w = Err DomainNotFound
  | Some _ => match domain_of w with
              | Some d => storedDomain (E := E) corro w = Ok d
              | None => exists e, storedDomain (E := E) corro w = Err e /\ e <> DomainNotFound
              end
  end \/ query_failed (storedDomain (E := E) corro w).
Proof.
  unfold storedDomain, domain_of. destruct (Get_setting corro uncloudDNSKey w) as [Hg|[e ->]]; [|by right; eexists].
  left. destruct (settings w !! uncloudDNSKey) as [text|]; rewrite Hg; [|done]. cbn [mbind option_bind].
  destruct (DecodeString text) as [js|]; cbn [mbind option_bind]; [|by eexists].
  destruct (unmarshal_domain js) as [d|]; [done|by eexists].
Qed.

(** A cluster reserves a domain only while it has none, keeps what the service answered,
    and gives it up only when it is released; nothing but its own setting changes. *)
Lemma ReserveDomain_spec cl endpoint w w' r : ready cl = true -> ReserveDomain corro dns cl endpoint w = (w', r) ->
  machines w' = machines w /\ (forall k, k <> uncloudDNSKey -> settings w' !! k = settings w !! k) /\
  match r with
  | Ok name => exists token, settings w !! uncloudDNSKey = None /\ dns_reserve dns endpoint = Ok (name, token) /\
      domain_of w' = Some (mkDomain endpoint name token) /\ (GetDomain (E := E) corro cl w' = Ok name \/ query_failed (GetDomain (E := E) corro cl w'))
  | Err (DomainStoreFailed _) => True
  | Err _ => w' = w
  end.
Proof.
  intros Hready. unfold ReserveDomain. rewrite Hready. cbn [negb].
  destruct (String.eqb_spec endpoint ""); [by intros [= <- <-]|].
  destruct (storedDomain corro w) as [d|err] eqn:Hst; [by intros [= <- <-]|].
  destruct err; try by intros [= <- <-].
  destruct (dns_reserve dns endpoint) as [[name token]|e]; [|by intros [= <- <-]].
  destruct (marshal_domain _) as [js|] eqn:Hm; [|by intros [= <- <-]].
  destruct (Put corro uncloudDNSKey (EncodeToString js) w) as [w1 [u|e]] eqn:Hput; intros [= <- <-];
    destruct (Put_setting corro _ _ _ _ _ Hput) as [Hmach Hset].
  - destruct Hset as [Hset|[_ Hf]]; [|done]. split; [done|]. split; [intros k Hk; by rewrite Hset, lookup_insert_ne|].
    assert (Hnone : settings w !! uncloudDNSKey = None).
    { destruct (storedDomain_spec w) as [Hs|[e He]]; [|congruence].
      destruct (settings w !! uncloudDNSKey); [|done]. destruct (domain_of w); [congruence|]. destruct Hs as (e & He & Hne). congruence. }
    assert (Hdom : domain_of w1 = Some (mkDomain endpoint name token)).
    { unfold domain_of. rewrite Hset, lookup_insert_eq. cbn [mbind option_bind]. rewrite base64_roundtrip. cbn [mbind option_bind].
      by apply domain_json. }
    exists token. split_and!; [done..|]. unfold GetDomain. rewrite Hready. cbn [negb].
    destruct (storedDomain_spec w1) as [Hs|[e He]].
    + rewrite Hset, lookup_insert_eq, Hdom in Hs. left. by rewrite Hs.
    + right. exists e. by rewrite He.
  - split; [done|]. split; [|done]. intros k Hk. destruct Hset as [->|[-> _]]; [by rewrite lookup_insert_ne|done].
Qed.

Lemma ReleaseDomain_spec cl w w' name : ready cl = true -> ReleaseDomain (E := E) corro cl w = (w', Ok name) ->
  dom_Name <$> domain_of w = Some name /\ settings w' = delete uncloudDNSKey (settings w) /\ machines w' = machines w.
Proof.
  intros Hready. unfold ReleaseDomain. rewrite Hready. cbn [negb].
  destruct (storedDomain corro w) as [d|err] eqn:Hst; [|done].
  destruct (Delete corro uncloudDNSKey w) as [w1 [u|e]] eqn:Hdel; [|done]. intros [= <- <-].
  destruct (Delete_setting corro _ _ _ _ Hdel) as [Hmach [Hset|[_ Hf]]]; [|done]. split_and!; [|done..].
  destruct (storedDomain_spec w) as [Hs|[e He]]; [|congruence].
  destruct (settings w !! uncloudDNSKey); [|congruence].
  destruct (domain_of w) as [d'|]; [cbn; congruence|]. destruct Hs as (e & He & _). congruence.
Qed.
End DomainSpec.

(** *** The first machine *)
Section InitSpec.
Context {PJ : ProtoJSON} {PJS : ProtoJSONSpec} {NX : Netipx} {NXS : NetipxSpec} {W E : Type} (corro : Corro W) {TB : Tables corro}.
Context (save : State -> W -> W * result E unit).

(** A store without machines becomes that of a cluster without machines. *)
Lemma Init_ok cl n now w w1 : prefix_wf n -> prefix_text_ok n = true -> machines w = ∅ ->
  Init corro cl n now w = (w1, Ok tt) -> cluster_ok corro n w1 /\ members corro w1 = [].
Proof.
  intros Hwf Htext Hnone. unfold Init. destruct (initialised cl); [done|].
  destruct (Put corro "network" (prefix_String n) w) as [wa [u|e]] eqn:Ha; [|done].
  destruct (Put corro "created_at" now wa) as [wb [v|e]] eqn:Hb; [|done]. intros [= <-].
  destruct (Put_setting corro _ _ _ _ _ Ha) as [Hma [Hsa|[_ Hf]]]; [|done].
  destruct (Put_setting corro _ _ _ _ _ Hb) as [Hmb [Hsb|[_ Hf]]]; [|done].
  assert (Hempty : listing_order wb = []).
  { pose proof (listing_order_all wb) as Hp. rewrite Hmb, Hma, Hnone, map_to_list_empty in Hp. by apply Permutation_nil. }
  assert (Hmem : members corro wb = []) by (unfold members; by rewrite Hempty).
  split; [|done]. constructor.
  - exists (prefix_String n). rewrite Hsb, lookup_insert_ne, Hsa, lookup_insert_eq by done. split; [done|].
    unfold prefix_String. destruct Hwf as (_ & _ & _ & Hb' & _). unfold prefix_IsValid.
    rewrite (proj2 (Z.leb_le _ _) Hb'). by apply ParsePrefix_text.
  - done.
  - rewrite Hempty. constructor.
  - rewrite Hmem. by repeat constructor.
Qed.

Lemma plain_subnet_New c p : nc_Subnet c = Some (NewIPPrefix p) -> prefix_wf p -> plain_subnet c.
Proof.
  intros Hs (Hwf & Hv & Hz & _). exists (NewIPPrefix p), (prefix_addr p). split_and!; [done| |done].
  unfold NewIPPrefix. cbn [ipx_Ip]. by apply NewIP_ToAddr.
Qed.

(** The state taken from the record of a valid machine is published as that record. *)
Lemma first_state_publishes rt n wgPort wgMTU m s s' : machine_ok n m ->
  nc_Subnet (config_of m) = Some (NewIPPrefix (subnet_of m)) -> Forall port_in_range (nc_Endpoints (config_of m)) ->
  first_state (E := E) wgPort wgMTU m s = Some (Ok s') ->
  mi_Id (Info rt s') = mi_Id m /\ mi_Name (Info rt s') = mi_Name m /\
  (nc_PublicKey (config_of m) = cf_PublicKey (st_Network s) -> mi_Network (Info rt s') = mi_Network m) /\
  (IsValid (st_PublicIP s) = false -> (forall ip, mi_PublicIp m = Some ip -> exists a, ToAddr (Some ip) = Some (Ok a)) ->
     mi_PublicIp (Info rt s') = mi_PublicIp m) /\
  cf_Peers (st_Network s') = [] /\ cf_Subnet (st_Network s') = subnet_of m /\ cf_WireGuardPort (st_Network s') = wgPort /\
  cf_MTU (st_Network s') = wgMTU.
Proof.
  intros Hm Hsub Hports. unfold first_state. rewrite (mo_network _ _ Hm).
  pose proof (NewIPPrefix_ToPrefix _ (mo_wf _ _ Hm)) as Hsn. rewrite <- Hsub in Hsn. rewrite Hsn.
  pose proof (mo_valid _ _ Hm) as (_ & [|[a Ha]] & Heps & k & Hk & _)%NetworkConfig_Validate_Ok; [by destruct (mo_ip _ _ Hm)|].
  rewrite Ha. destruct (endpoints_convert _ Heps) as (l & _ & Hconv). rewrite (endpoints_skip_none _ _ Hconv). intros [= <-].
  unfold Info. cbn [mi_Id mi_Name mi_Network mi_PublicIp st_ID st_Name st_Network st_Endpoints st_PublicIP cf_Subnet
    cf_ManagementIP cf_PublicKey cf_Peers cf_WireGuardPort]. split_and!; try done.
  - intros <-. f_equal. apply published_config; try done. by apply (plain_subnet_New _ (subnet_of m)), (mo_wf _ _ Hm).
  - intros Hnone Hconvp. destruct (mi_PublicIp m) as [ip|] eqn:Hip; [|by rewrite Hnone].
    destruct (Hconvp ip eq_refl) as [b Hb]. pose proof (ToAddr_wf _ _ Hb) as [_ Hv]. pose proof (NewIP_of_ToAddr _ _ Hb) as Hnew.
    unfold ToAddr in Hb. injection Hb as Hb. by rewrite Hb, Hv, Hnew.
Qed.

Lemma check_request_public req c ip : check_request req = Some (Ok c) -> am_PublicIp req = Some ip ->
  exists a, ToAddr (Some ip) = Some (Ok a).
Proof.
  unfold check_request. intros Hreq Hip. revert Hreq. rewrite Hip. destruct (am_Network req) as [c'|]; [|done].
  destruct (Validate c') as [[[]|]|]; [|done..]. destruct (nc_Endpoints c'); [done|].
  destruct (ToAddr (Some ip)) as [[a|]|]; try done. by exists a.
Qed.

(** The endpoints of the first machine: those of the request, or, if it has none, the routable
    addresses of the host and its public one, with the port. *)
Definition endpoints_of (h : Host E) (port : Z) (req : InitClusterRequest) (eps : list (option IPPort)) : Prop :=
  match ic_WireguardEndpoints req with
  | [] => exists ips, h_RoutableIPs h = Ok ips /\ eps = map (fun ip => Some (NewIPPort ip port)) (host_ips ips (h_PublicIP h))
  | given => eps = given
  end.

Lemma init_endpoints_of h port req eps : init_endpoints h port (ic_WireguardEndpoints req) = Ok eps -> endpoints_of h port req eps.
Proof.
  unfold init_endpoints, endpoints_of. destruct (ic_WireguardEndpoints req); [|by intros [= <-]].
  destruct (h_RoutableIPs h) as [ips|]; [|done]. intros [= <-]. by exists ips.
Qed.

Lemma init_endpoints_ports h wgPort given eps : 0 <= wgPort < 2 ^ 16 -> Forall port_in_range given ->
  init_endpoints (E := E) h wgPort given = Ok eps -> Forall port_in_range eps.
Proof.
  intros Hp Hg. unfold init_endpoints. destruct given as [|g given]; [|by intros [= <-]].
  destruct (h_RoutableIPs h); [|done]. intros [= <-]. apply Forall_map, Forall_forall. intros ip _ e [= <-]. cbn. lia.
Qed.
End InitSpec.

(** C32: A machine without a public IP yet that initialises a cluster on an empty store becomes its only member: the
    store then is that of a cluster with the network of the request, in which the machine
    has the first subnet, the name, public IP and endpoints of the request, or by default those found out about the
    host; the state that is saved has its ID and publishes exactly the
    record in the store (ID, name, network and public IP), with the machine's own key, the port and MTU of the request or
    their defaults, and no peers. *)
Theorem InitCluster_founds_cluster `{ProtoJSONSpec} `{NetipxSpec} {W E : Type} (corro : Corro W) `{!Tables corro}
  (save : State -> W -> W * result E unit) cl (h : Host E) draws rnd req rt s w n s' w' m
  (Hn : ToPrefix (ic_Network req) = Some (Ok n)) (Htext : prefix_text_ok n = true)
  (Hempty : machines w = ∅) (Hpublic : IsValid (st_PublicIP s) = false) (Hrnd : random_ok rnd) (Hports : Forall port_in_range (ic_WireguardEndpoints req))
  (Hrun : InitCluster corro save cl h draws rnd req s w = Some (s', w', Ok m)) :
  Initialised s = false /\
  exists w1, save s' w1 = (w', Ok tt) /\ cluster_ok corro n w1 /\ members corro w1 ≡ₚ [m] /\
    (forall q, prefix_wf q -> prefix_bits q = DefaultSubnetBits -> IPAM.inside (prefix_Masked n) q ->
       first_val (subnet_of m) <= first_val q) /\
    mi_Id (Info rt s') = mi_Id m /\ mi_Name (Info rt s') = mi_Name m /\ mi_Network (Info rt s') = mi_Network m /\
    mi_PublicIp (Info rt s') = mi_PublicIp m /\
    mi_PublicIp m = match ic_PublicIp req with
                    | Some ip => Some ip
                    | None => if ic_PublicIpAuto req then NewIP <$> h_PublicIP h else None
                    end /\
    endpoints_of h (cf_WireGuardPort (st_Network s')) req (nc_Endpoints (config_of m)) /\
    cf_WireGuardPort (st_Network s') = (if ic_WireguardPort req mod 2 ^ 16 =? 0 then DefaultWireGuardPort else ic_WireguardPort req mod 2 ^ 16) /\
    cf_MTU (st_Network s') = (if ic_WireguardMtu req =? 0 then h_MTU h else ic_WireguardMtu req) /\
    cf_PublicKey (st_Network s') = cf_PublicKey (st_Network s) /\ cf_Peers (st_Network s') = [] /\
    (ic_MachineName req <> "" -> mi_Name m = ic_MachineName req).
Proof.
  revert Hrun. unfold InitCluster. destruct (Initialised s) eqn:Hinit; [done|]. rewrite Hn.
  destruct (Init corro cl n (h_Now h) w) as [w1 [[]|e]] eqn:Hi; [|done].
  pose proof (ToPrefix_wf _ _ Hn) as Hwf. destruct (Init_ok corro cl n _ w w1 Hwf Htext Hempty Hi) as [Hok Hmem].
  destruct (if String.eqb (ic_MachineName req) "" then _ else _) as [name|] eqn:Hname; [|done].
  set (wgPort := if ic_WireguardPort req mod 2 ^ 16 =? 0 then _ else _).
  assert (Hwg : 0 <= wgPort < 2 ^ 16).
  { subst wgPort. pose proof (Z.mod_pos_bound (ic_WireguardPort req) (2 ^ 16) ltac:(lia)). unfold DefaultWireGuardPort. destruct (_ =? 0); lia. }
  destruct (init_endpoints h wgPort (ic_WireguardEndpoints req)) as [eps|e] eqn:Heps; [|done].
  pose proof (init_endpoints_ports h wgPort _ eps Hwg Hports Heps) as Hep.
  match goal with |- context [AddMachineWithoutReadyCheck corro ?r rnd w1] => set (addReq := r) end.
  pose proof (AddMachine_outcome corro n addReq rnd w1 Hok (no_members_sees corro n w1 Hok Hmem) Hrnd) as Hadd.
  destruct (AddMachineWithoutReadyCheck corro addReq rnd w1) as [[w2 [m'|e]]|] eqn:Hrun; [|done..].
  destruct (check_request addReq) as [[c|e]|] eqn:Hreq; [|by destruct Hadd|done].
  assert (c = mkNetworkConfig None None eps (cf_PublicKey (st_Network s))) as ->.
  { apply check_request_Ok in Hreq as (Hc & _). cbn in Hc. by simplify_eq. }
  destruct Hadd as (w2' & r & [= <- <-] & Hout & Hok2). cbn [add_outcome] in Hout.
  destruct Hout as (Hm & _ & _ & Hnm & Hpub & Hkey & Hsub & Hend & _ & _ & Hfirst). rewrite Hmem in Hm.
  assert (Hmok : machine_ok n m').
  { pose proof (proj1 (co_machines _ _ _ Hok2)) as Hall. rewrite Hm in Hall. by inversion Hall. }
  destruct (first_state _ _ m' s) as [[s1|e]|] eqn:Hst; [|done..].
  destruct (save s1 w2) as [w3 [[]|e]] eqn:Hsave; [|done]. intros [= <- <- <-]. split; [done|].
  cbn [nc_Endpoints] in Hend. rewrite <- Hend in Hep.
  destruct (first_state_publishes rt n _ _ m' s s1 Hmok Hsub Hep Hst) as (Hid & Hnm' & Hnet & Hpip & Hpeers & _ & Hport & Hmtu).
  exists w2. split_and!; try done.
  - intros q Hq1 Hq2 Hq3. apply Hfirst; [done..|]. rewrite Hmem. constructor.
  - by apply Hnet.
  - apply Hpip; [done|]. rewrite Hpub. intros ip Hip. by eapply check_request_public.
  - rewrite Hport, Hend. by apply init_endpoints_of.
  - specialize (Hnet Hkey). rewrite (mo_network _ _ Hmok) in Hnet. apply (f_equal (fmap nc_PublicKey)) in Hnet. cbn in Hnet, Hkey. congruence.
  - intros Hne. cbn [am_Name addReq] in Hnm. rewrite (proj2 (String.eqb_neq _ "") Hne) in Hname. injection Hname as <-.
    by rewrite (proj2 (String.eqb_neq _ "") Hne) in Hnm.
Qed.

(** ** Concrete runs *)
#[local] Existing Instance Memory.bits_json.
#[local] Existing Instance Memory.bits_json_spec.
#[local] Existing Instance netipx_list.
#[local] Existing Instance netipx_list_spec.
#[local] Existing Instance Memory.memory_tables.

Definition empty_world : Memory.World := Memory.mkWorld ∅ ∅.
Definition new_state : State :=
  mkState "" "" (mkConfig NoPrefix NoAddr 0 0 None (Some Memory.key_a) []) [] NoAddr ∅.
Definition a_host : Host unit := mkHost "host" (Ok [Addr4 167772161]) None 1420 "2026-01-01T00:00:00Z".
Definition init_request : InitClusterRequest := mkInitClusterRequest "" (Some (NewIPPrefix DefaultNetwork)) 0 0 [] None true.
Definition failing_save (s : State) (w : Memory.World) : Memory.World * result unit unit := (w, Err tt).
Definition fresh_cluster : Cluster := mkCluster "" false false.
Definition run_init (save : State -> Memory.World -> Memory.World * result unit unit) (s : State) (w : Memory.World) :=
  InitCluster Memory.memory save fresh_cluster a_host (fun _ => None) (Memory.draws_of Memory.id_a) init_request s w.

Lemma InitCluster_founds_cluster_witness :
  exists s' w' m, run_init no_save new_state empty_world = Some (s', w', Ok m) /\
    mi_Name m = "host" /\ mi_Network (Info runtime s') = mi_Network m /\
    mi_PublicIp (Info runtime s') = mi_PublicIp m /\ cf_Peers (st_Network s') = [].
Proof.
  destruct (run_init no_save new_state empty_world) as [[[s' w'] [m|e]]|] eqn:Hrun;
    [|apply (f_equal (fun r => match r with Some (_, Err _) => true | _ => false end)) in Hrun; vm_compute in Hrun; discriminate
     |apply (f_equal (fun r => match r with None => true | _ => false end)) in Hrun; vm_compute in Hrun; discriminate].
  assert (Hnone : machines empty_world = ∅) by reflexivity.
  destruct (InitCluster_founds_cluster Memory.memory no_save fresh_cluster a_host (fun _ => None) (Memory.draws_of Memory.id_a)
    init_request runtime new_state empty_world DefaultNetwork s' w' m eq_refl eq_refl Hnone eq_refl (Memory.draws_ok Memory.id_a eq_refl)
    (Forall_nil_2 _) Hrun) as (_ & w1 & _ & _ & _ & _ & _ & _ & Hnet & Hip & _ & _ & _ & _ & _ & Hpeers & _).
  exists s', w', m. split; [reflexivity|]. split; [|split; [exact Hnet|split; [exact Hip|exact Hpeers]]].
  apply (f_equal (fun r => match r with Some (_, Ok m) => String.eqb (mi_Name m) "host" | _ => false end)) in Hrun.
  vm_compute in Hrun. cbv beta iota in Hrun. symmetry in Hrun. by apply String.eqb_eq.
Defined.

(** When the state cannot be saved the cluster is left half initialised: the machine in
    memory takes itself for a member, and after a restart its own record in the store is
    in the way. *)
Example failed_save_is_not_undone :
  match run_init failing_save new_state empty_world with
  | Some (s1, w1, Err (StateSaveFailed _)) =>
      (exists s2 w2, run_init no_save s1 w1 = Some (s2, w2, Err MachineAlreadyMember)) /\
      (exists s2 w2 n, run_init no_save new_state w1 = Some (s2, w2, Err (AddFailed (NameExists n))))
  | _ => False
  end.
Proof. vm_compute. split; [do 2 eexists|do 3 eexists]; reflexivity. Qed.
