(* ===== verification/Setup.v ===== *)
(** * Setup: the Corrosion service and the start of the daemon

    [internal/machine/corroservice] runs Corrosion in a container of the local Docker engine
    and writes its configuration; [machine.go] gives the daemon its defaults
    ([SetDefaults]), loads or creates the machine state ([NewMachine]), finds the containerd
    socket, listens on the API sockets and removes everything on a reset ([cleanup]); and
    [internal/fs] looks up users.  The engine, the operating system and the TOML encoding
    are records of operations; what the engine documents is the class [EngineSpec]. *)

From S2P Require Import Prelude GoStrings NetAddr NetText Network Cluster Controller.
#[local] Open Scope string_scope.
#[local] Open Scope list_scope.
#[local] Open Scope Z_scope.

(** ** The Corrosion container *)
(** What a container is created from, of its [Config] and [HostConfig]. *)
Record Spec := mkSpec {
  sp_Image : string; sp_Cmd : list string; sp_User : string; sp_Labels : list (string * string);
  sp_NetworkMode : string; sp_RestartPolicy : string; sp_LogType : string; sp_Binds : list (string * string)
}.

Record Engine (S E : Type) := mkEngine {
  en_Inspect : string -> S -> result E (string * bool);      (* the image and whether it runs *)
  en_Create : Spec -> string -> S -> S * option E;
  en_Start : string -> S -> S * option E;
  en_Stop : string -> S -> S * option E;
  en_Restart : string -> S -> S * option E;
  en_Remove : string -> S -> S * option E;
  en_ImagePull : string -> S -> S * option E;
  en_ReadPull : S -> S * option E;                           (* reading the response to its end *)
  en_IsNotFound : E -> bool
}.
Arguments en_Inspect {S E}. Arguments en_Create {S E}. Arguments en_Start {S E}. Arguments en_Stop {S E}.
Arguments en_Restart {S E}. Arguments en_Remove {S E}. Arguments en_ImagePull {S E}. Arguments en_ReadPull {S E}.
Arguments en_IsNotFound {S E}.

Inductive service_error (E : Type) :=
| InspectContainer (e : E) | StopContainer (e : E) | RemoveContainer (e : E) | CreateContainer (e : E)
| PullImage (e : E) | ReadPull (e : E) | StartContainer (e : E) | RestartContainer (e : E)
| ReadConfig (e : E) | DecodeConfig (e : E) | CreateClient (e : E) | NotReady (e : E) | Undecided.
Arguments InspectContainer {E}. Arguments StopContainer {E}. Arguments RemoveContainer {E}. Arguments CreateContainer {E}.
Arguments PullImage {E}. Arguments ReadPull {E}. Arguments StartContainer {E}. Arguments RestartContainer {E}. Arguments ReadConfig {E}. Arguments DecodeConfig {E}.
Arguments CreateClient {E}. Arguments NotReady {E}. Arguments Undecided {E}.

Record DockerService := mkDockerService {
  ds_Image : string; ds_Name : string; ds_DataDir : string; ds_RunDir : string; ds_User : string
}.

(** [containerConfig] and [hostConfig] *)
Definition LabelDaemonManaged : string := "uncloudd.managed".
Definition container_spec (d : DockerService) : Spec :=
  mkSpec (ds_Image d) ["corrosion"; "agent"; "-c"; Join (ds_DataDir d) "config.toml"] (ds_User d) [(LabelDaemonManaged, "")]
    "host" "unless-stopped" "local" [(ds_DataDir d, ds_DataDir d); (ds_RunDir d, ds_RunDir d)].

(** One attempt of [backoff.Retry]: the error of the query, the milliseconds since the
    start, the interval the library chooses, and the error of the context when it ends
    while waiting. *)
Record attempt (E : Type) := mkAttempt { at_error : option E; at_elapsed : Z; at_next : Z; at_cancelled : option E }.
Arguments mkAttempt {E}. Arguments at_error {E}. Arguments at_elapsed {E}. Arguments at_next {E}. Arguments at_cancelled {E}.

Definition max_elapsed : Z := 15000.

(** [None]: not decided by the attempts given. *)
Fixpoint retry {E} (attempts : list (attempt E)) : option (option E) :=
  match attempts with
  | [] => None
  | a :: rest =>
      match at_error a with
      | None => Some None
      | Some e => if max_elapsed <? at_elapsed a + at_next a then Some (Some e)
                  else match at_cancelled a with Some c => Some (Some c) | None => retry rest end
      end
  end.

Section Service.
Context {S E : Type} (en : Engine S E) (d : DockerService).
#[local] Open Scope st_scope.
Notation program A := (stateful S (service_error E) A).

(** Reading and decoding the configuration, the client of the Corrosion API, and what the
    attempts to query the store are answered. *)
Context (ReadFile : string -> S -> result E string) (decode_toml : string -> result E (AddrPort * string))
  (new_client : AddrPort -> string -> option E) (attempts : S -> list (attempt E)).

Definition WaitReady (dataDir : string) : program unit := st_read (fun s =>
  match ReadFile (Join dataDir "config.toml") s with
  | Err e => Err (ReadConfig e)
  | Ok data =>
      match decode_toml data with
      | Err e => Err (DecodeConfig e)
      | Ok (a, token) =>
          match new_client a token with
          | Some e => Err (CreateClient e)
          | None => match retry (attempts s) with
                    | Some None => Ok tt
                    | Some (Some e) => Err (NotReady e)
                    | None => Err Undecided
                    end
          end
      end
  end).

(** An error that says that there is no container is fine. *)
Definition unless_not_found (wrap : E -> service_error E) (op : S -> S * option E) : program unit := fun s =>
  match op s with
  | (s', None) => (s', Ok tt)
  | (s', Some e) => (s', if en_IsNotFound en e then Ok tt else Err (wrap e))
  end.

Definition pull_and_create : program unit :=
  let* _ := st_call PullImage (en_ImagePull en (ds_Image d)) in
  let* _ := st_call ReadPull (en_ReadPull en) in
  st_call CreateContainer (en_Create en (container_spec d) (ds_Name d)).

Definition createAndStart : program unit :=
  let* _ := (fun s => match en_Create en (container_spec d) (ds_Name d) s with
                      | (s', None) => (s', Ok tt)
                      | (s', Some e) => if en_IsNotFound en e then pull_and_create s' else (s', Err (CreateContainer e))
                      end) in
  st_call StartContainer (en_Start en (ds_Name d)).

Definition ensure_running : program unit := fun s =>
  match en_Inspect en (ds_Name d) s with
  | Err e => if en_IsNotFound en e then createAndStart s else (s, Err (InspectContainer e))
  | Ok (image, running) =>
      (if negb (String.eqb image (ds_Image d)) then
         let* _ := unless_not_found StopContainer (en_Stop en (ds_Name d)) in
         let* _ := unless_not_found RemoveContainer (en_Remove en (ds_Name d)) in
         createAndStart
       else if negb running then st_call StartContainer (en_Start en (ds_Name d))
       else st_ret tt) s
  end.

Definition Start : program unit :=
  let* _ := ensure_running in WaitReady (ds_DataDir d).

Definition Stop : program unit := unless_not_found StopContainer (en_Stop en (ds_Name d)).

Definition Restart : program unit := st_call RestartContainer (en_Restart en (ds_Name d)).

Definition Cleanup : program unit := fun s =>
  match en_Stop en (ds_Name d) s with
  | (s', Some e) => (s', if en_IsNotFound en e then Ok tt else Err (StopContainer e))
  | (s', None) => st_call RemoveContainer (en_Remove en (ds_Name d)) s'
  end.

Definition Running (s : S) : bool :=
  match en_Inspect en (ds_Name d) s with Ok (_, running) => running | Err _ => false end.
End Service.

(** What the engine documents: the containers by name, each with its image. *)
Class EngineSpec {S E} (en : Engine S E) := {
  containers : S -> gmap string (string * bool);
  Inspect_spec : forall n s, match en_Inspect en n s with
    | Ok c => containers s !! n = Some c
    | Err e => en_IsNotFound en e = true -> containers s !! n = None
    end;
  Create_spec : forall sp n s, match en_Create en sp n s with
    | (s', None) => containers s !! n = None /\ containers s' = <[n := (sp_Image sp, false)]> (containers s)
    | (s', Some e) => containers s' = containers s
    end;
  Start_spec : forall n s, match en_Start en n s with
    | (s', None) => exists i b, containers s !! n = Some (i, b) /\ containers s' = <[n := (i, true)]> (containers s)
    | (s', Some e) => containers s' = containers s
    end;
  Stop_spec : forall n s, match en_Stop en n s with
    | (s', None) => exists i b, containers s !! n = Some (i, b) /\ containers s' = <[n := (i, false)]> (containers s)
    | (s', Some e) => containers s' = containers s /\ (en_IsNotFound en e = true -> containers s !! n = None)
    end;
  Remove_spec : forall n s, match en_Remove en n s with
    | (s', None) => containers s' = delete n (containers s)
    | (s', Some e) => containers s' = containers s /\ (en_IsNotFound en e = true -> containers s !! n = None)
    end;
  ImagePull_spec : forall i s, containers (fst (en_ImagePull en i s)) = containers s;
  ReadPull_spec : forall s, containers (fst (en_ReadPull en s)) = containers s
}.

(** ** The operating system *)
Record OS (S : Type) := mkOS {
  os_LookupUser : string -> S -> result string (string * string);    (* the IDs of the user and of its group *)
  os_LookupGroup : string -> S -> result (option string) string;      (* [None]: there is no such group *)
  os_MkdirAll : string -> S -> S * option string;
  os_Mkdir : string -> S -> S * option (option string);               (* [None]: it exists *)
  os_Chown : string -> Z -> Z -> S -> S * option string;
  os_WriteFile : string -> string -> S -> S * option string;
  os_Exists : string -> S -> bool;
  os_RemoveAll : string -> S -> S * option string;
  os_NewUnixSocket : string -> Z -> S -> S * option string
}.
Arguments os_LookupUser {S}. Arguments os_LookupGroup {S}. Arguments os_MkdirAll {S}. Arguments os_Mkdir {S}.
Arguments os_Chown {S}. Arguments os_WriteFile {S}. Arguments os_Exists {S}. Arguments os_RemoveAll {S}. Arguments os_NewUnixSocket {S}.

Inductive os_error :=
| LookupUser (name e : string) | ParseUID (uid : string) | ParseGID (gid : string) | LookupGroup (name e : string)
| UnknownGroup (name : string) | MakeDirectory (dir e : string) | ChownFailed (path e : string) | WriteFailed (path e : string)
| Listen (e : string).

(** [filepath.Split]: the directory, with its slash. *)
Definition split_dir (path : string) : string :=
  match last_cut_byte "/" path with Some (dir, _) => dir +:+ "/" | None => "" end.

Section Files.
Context {S : Type} (os : OS S).
#[local] Open Scope st_scope.
Notation program A := (stateful S os_error A).

Definition atoi (e : string -> os_error) (s : string) : result os_error Z :=
  match ParseInt s with Some n => Ok n | None => Err (e s) end.

Definition LookupUIDGID (username : string) : program (Z * Z) := st_read (fun s =>
  match os_LookupUser os username s with
  | Err e => Err (LookupUser username e)
  | Ok (u, g) =>
      match atoi ParseUID u with
      | Err e => Err e
      | Ok uid => match atoi ParseGID g with Err e => Err e | Ok gid => Ok (uid, gid) end
      end
  end).

(** [fs.Chown]: an empty name leaves the owner or the group as it is. *)
Definition lookup_uid (username : string) : program Z := st_read (fun s =>
  if String.eqb username "" then Ok (-1)
  else match os_LookupUser os username s with
       | Err e => Err (LookupUser username e)
       | Ok (u, _) => atoi ParseUID u
       end).

Definition lookup_gid (group : string) : program Z := st_read (fun s =>
  if String.eqb group "" then Ok (-1)
  else match os_LookupGroup os group s with
       | Err None => Err (UnknownGroup group)
       | Err (Some e) => Err (LookupGroup group e)
       | Ok g => atoi ParseGID g
       end).

Definition Chown (path username group : string) : program unit :=
  let* uid := lookup_uid username in
  let* gid := lookup_gid group in
  st_call (ChownFailed path) (os_Chown os path uid gid).

Definition MkDir (dir owner : string) : program unit :=
  let* _ := st_call (MakeDirectory (split_dir dir)) (os_MkdirAll os (split_dir dir)) in
  let* _ := (fun s => match os_Mkdir os dir s with
                      | (s', None) | (s', Some None) => (s', Ok tt)
                      | (s', Some (Some e)) => (s', Err (MakeDirectory dir e))
                      end) in
  if String.eqb owner "" then st_ret tt else Chown dir owner owner.

(** The group of the API sockets; the root group when it does not exist. *)
Definition DefaultSockGroup : string := "uncloud".
Definition socket_group : program Z := st_read (fun s =>
  match os_LookupGroup os DefaultSockGroup s with
  | Err None => Ok 0
  | Err (Some e) => Err (LookupGroup DefaultSockGroup e)
  | Ok g => atoi ParseGID g
  end).

Definition listenUnixSocket (path : string) : program unit :=
  let* gid := socket_group in
  let* _ := st_call (MakeDirectory (split_dir path)) (os_MkdirAll os (split_dir path)) in
  let* _ := st_call (ChownFailed (split_dir path)) (os_Chown os (split_dir path) (-1) gid) in
  st_call Listen (os_NewUnixSocket os path gid).

(** ** The configuration of the daemon *)
Record MachineConfig := mkMachineConfig {
  mc_DataDir : string; mc_MachineSockPath : string; mc_UncloudSockPath : string;
  mc_CorrosionDataDir : string; mc_CorrosionRunDir : string;
  mc_CorrosionAPIListenAddr : AddrPort; mc_CorrosionAPIAddr : AddrPort; mc_CorrosionAdminSockPath : string;
  mc_CorrosionUser : string; mc_ContainerdSockPath : string; mc_CaddyConfigDir : string
}.

Definition or_default (s d : string) : string := if String.eqb s "" then d else s.
Definition DefaultMachineSockPath : string := "/run/uncloud/machine.sock".
Definition DefaultUncloudSockPath : string := "/run/uncloud/uncloud.sock".
Definition DefaultCorrosionRunDir : string := "/run/uncloud/corrosion".
Definition DefaultUser : string := "uncloud".
Definition DefaultGossipPort : Z := 51001.
Definition DefaultAPIPort : Z := 51002.
Definition loopback : addr := Addr4 2130706433.
Definition Image : string := "ghcr.io/unlabs-dev/corrosion:2026.6.15".
Definition ContainerName : string := "uncloud-corrosion".
Definition MinWireGuardMTU : Z := 1280.

(** [AddrPort.IsValid] *)
Definition AddrPort_IsValid (a : AddrPort) : bool := IsValid (ap_Addr a).
Definition addr_or_default (a d : AddrPort) : AddrPort := if AddrPort_IsValid a then a else d.

(** The values of [SetDefaults] that need nothing else. *)
Definition default_paths (c : MachineConfig) : MachineConfig :=
  let data := or_default (mc_DataDir c) "/var/lib/uncloud" in
  let run := or_default (mc_CorrosionRunDir c) DefaultCorrosionRunDir in
  mkMachineConfig data (or_default (mc_MachineSockPath c) DefaultMachineSockPath)
    (or_default (mc_UncloudSockPath c) DefaultUncloudSockPath)
    (or_default (mc_CorrosionDataDir c) (Join data "corrosion")) run
    (addr_or_default (mc_CorrosionAPIListenAddr c) (mkAddrPort loopback DefaultAPIPort))
    (addr_or_default (mc_CorrosionAPIAddr c) (mkAddrPort loopback DefaultAPIPort))
    (or_default (mc_CorrosionAdminSockPath c) (Join run "admin.sock"))
    (or_default (mc_CorrosionUser c) DefaultUser) (mc_ContainerdSockPath c)
    (or_default (mc_CaddyConfigDir c) (Join data "caddy")).

Inductive defaults_error := DockerClientFailed (e : string) | CorrosionUserFailed (e : os_error).

(** [client] is the answer of the Docker library when no client is given. *)
Definition SetDefaults (client : option (result string unit)) (service : option DockerService) (c : MachineConfig) :
  stateful S defaults_error (MachineConfig * DockerService) := fun s =>
  match client with
  | Some (Err e) => (s, Err (DockerClientFailed e))
  | _ =>
      let cfg := default_paths c in
      match service with
      | Some svc => (s, Ok (cfg, svc))
      | None =>
          match LookupUIDGID (mc_CorrosionUser cfg) s with
          | (s, Err e) => (s, Err (CorrosionUserFailed e))
          | (s, Ok (uid, gid)) =>
              (s, Ok (cfg, mkDockerService Image ContainerName (mc_CorrosionDataDir cfg) (mc_CorrosionRunDir cfg)
                           (itoa_int uid +:+ ":" +:+ itoa_int gid)))
          end
      end
  end.

(** [Machine.ContainerdSock]: the configured path, or the first that exists. *)
Definition ContainerdSock (c : MachineConfig) (s : S) : string :=
  if negb (String.eqb (mc_ContainerdSockPath c) "") then mc_ContainerdSockPath c
  else default "" (List.find (fun path => os_Exists os path s)
    ["/run/containerd/containerd.sock"; "/run/docker/containerd/containerd.sock";
     "/var/run/containerd/containerd.sock"; "/var/run/docker/containerd/containerd.sock"]).

(** ** The configuration of Corrosion *)
Definition AddrPort_String (a : AddrPort) : string :=
  match ap_Addr a with
  | NoAddr => "invalid AddrPort"
  | Addr4 v => string4 v +:+ ":" +:+ sprint (ap_Port a)
  | a6 => "[" +:+ addr_String a6 +:+ "]:" +:+ sprint (ap_Port a)
  end.

Record CorroConfig := mkCorroConfig {
  db_Path : string; db_SchemaPaths : list string;
  gossip_Addr : AddrPort; gossip_MaxMTU : Z; gossip_Bootstrap : list string; gossip_Plaintext : bool;
  api_Addr : AddrPort; api_BearerToken : string; admin_Path : string
}.

(** The machine state with the token of the Corrosion API, which is a secret. *)
Record MachineState := mkMachineState { ms_State : State; ms_CorrosionAPIToken : string }.

Definition bootstrap (peers : list PeerConfig) : list string :=
  omap (fun p => match pc_Subnet p with
                 | None => None
                 | Some _ => Some (AddrPort_String (mkAddrPort (pc_ManagementIP p) DefaultGossipPort))
                 end) peers.

Definition corrosion_config (c : MachineConfig) (st : MachineState) : CorroConfig :=
  let n := st_Network (ms_State st) in
  mkCorroConfig (Join (mc_CorrosionDataDir c) "store.db") [Join (mc_CorrosionDataDir c) "schema.sql"]
    (mkAddrPort (if IsValid (cf_ManagementIP n) then cf_ManagementIP n else loopback) DefaultGossipPort)
    (MinWireGuardMTU - 48) (bootstrap (cf_Peers n)) true
    (mc_CorrosionAPIAddr c) (hex_encode (ms_CorrosionAPIToken st)) (mc_CorrosionAdminSockPath c).

Inductive configure_error :=
| TokenNotSet | CreateDataDirectory (e : os_error) | CreateRunDirectory (e : os_error)
| EncodeConfig (e : string) | WriteConfig (e : os_error) | WriteSchema (e : string).

(** The TOML encoding, and the schema of the store. *)
Context (encode_toml : CorroConfig -> result string string) (Schema : string).

Definition wrapped {E F A} (f : E -> F) (p : stateful S E A) : stateful S F A := fun s =>
  match p s with (s', r) => (s', wrap_err f r) end.

(** [Config.Write] *)
Definition write_config (cfg : CorroConfig) (path owner : string) : stateful S configure_error unit := fun s =>
  match encode_toml cfg with
  | Err e => (s, Err (EncodeConfig e))
  | Ok data =>
      (let* _ := wrapped WriteConfig (st_call (WriteFailed path) (os_WriteFile os path data)) in
       wrapped WriteConfig (Chown path owner owner)) s
  end.

Definition configureCorrosion (c : MachineConfig) (st : MachineState) : stateful S configure_error unit :=
  if String.eqb (ms_CorrosionAPIToken st) "" then st_throw TokenNotSet
  else
    let* _ := wrapped CreateDataDirectory (MkDir (mc_CorrosionDataDir c) (mc_CorrosionUser c)) in
    let* _ := wrapped CreateRunDirectory (MkDir (mc_CorrosionRunDir c) (mc_CorrosionUser c)) in
    let* _ := write_config (corrosion_config c st) (Join (mc_CorrosionDataDir c) "config.toml") (mc_CorrosionUser c) in
    st_call WriteSchema (os_WriteFile os (Join (mc_CorrosionDataDir c) "schema.sql") Schema).

(** ** The machine *)
Inductive parse_error := NotExist | ParseFailed (e : string).

Inductive machine_new_error :=
| SetDefaultsFailed (e : defaults_error) | LoadState (e : string) | GenerateKeys (e : string) | SaveState (e : string)
| GenerateToken (e : string) | SaveToken (e : string) | NewAPIClientFailed (e : string) | NewAdminClientFailed (e : string)
| InitDatabase (e : string).

(** Reading and saving the state, and the random sources. *)
Context (ParseState : string -> S -> result parse_error MachineState)
  (Save : string -> MachineState -> S -> S * option string)
  (NewMachineKeys : S -> result string (string * string)) (NewSecret : S -> result string string).

Definition StatePath (dataDir : string) : string := Join dataDir "machine.json".

Definition empty_state (priv pub : string) : MachineState :=
  mkMachineState (mkState "" "" (mkConfig NoPrefix NoAddr 0 0 (Some priv) (Some pub) []) [] NoAddr ∅) "".

(** The state of the machine, or that of a new one. *)
Definition load_state (path : string) : stateful S machine_new_error MachineState := fun s =>
  match ParseState path s with
  | Ok st => (s, Ok st)
  | Err (ParseFailed e) => (s, Err (LoadState e))
  | Err NotExist =>
      match NewMachineKeys s with
      | Err e => (s, Err (GenerateKeys e))
      | Ok (priv, pub) =>
          let st := empty_state priv pub in
          (let* _ := st_call SaveState (Save path st) in st_ret st) s
      end
  end.

Definition ensure_token (path : string) (st : MachineState) : stateful S machine_new_error MachineState := fun s =>
  if negb (String.eqb (ms_CorrosionAPIToken st) "") then (s, Ok st)
  else match NewSecret s with
       | Err e => (s, Err (GenerateToken e))
       | Ok token =>
           let st := mkMachineState (ms_State st) token in
           (let* _ := st_call SaveToken (Save path st) in st_ret st) s
       end.

(** The clients and the database that [NewMachine] opens. *)
Context (NewAPIClient : AddrPort -> string -> S -> S * option string) (NewAdminClient NewDB : string -> S -> S * option string).

(** The machine: its configuration, its state, and whether [initialised] is closed. *)
Definition NewMachine (client : option (result string unit)) (service : option DockerService) (c : MachineConfig) :
  stateful S machine_new_error (MachineConfig * MachineState * bool) :=
  let* cfg := wrapped SetDefaultsFailed (SetDefaults client service c) in
  let path := StatePath (mc_DataDir (fst cfg)) in
  let* st := load_state path in
  let* st := ensure_token path st in
  let* _ := st_call NewAPIClientFailed (NewAPIClient (mc_CorrosionAPIAddr (fst cfg)) (hex_encode (ms_CorrosionAPIToken st))) in
  let* _ := st_call NewAdminClientFailed (NewAdminClient (mc_CorrosionAdminSockPath (fst cfg))) in
  let* _ := st_call InitDatabase (NewDB (Join (mc_DataDir (fst cfg)) "machine.db")) in
  st_ret (fst cfg, st, negb (String.eqb (st_ID (ms_State st)) "")).
End Files.

(** ** Clean-up *)
(** Every call is made, and the errors are joined. *)
Fixpoint join_all {S E} (ops : list (S -> S * option E)) (s : S) : S * list E :=
  match ops with
  | [] => (s, [])
  | op :: rest =>
      let (s, e) := op s in
      let (s, es) := join_all rest s in
      (s, match e with Some e => e :: es | None => es end)
  end.

(** [clusterController.Cleanup], after the controller has stopped. *)
Definition controllerCleanup {S E} (docker wireguard iptables : S -> S * option E) : S -> S * list E :=
  join_all [docker; wireguard; iptables].

(** [Machine.cleanup]; [controller] is [None] when no controller has been created. *)
Definition cleanup {S E} (controller : option (S -> S * option E)) (corrosion removeData : S -> S * option E) : S -> S * list E :=
  join_all (match controller with Some c => [c] | None => [] end ++ [corrosion; removeData]).

(** [CheckPrerequisites]: the answer of [net.ListenUDP] on port 53 of 127.0.0.210. *)
Definition checkDNSPortAvailable (listen : addr -> Z -> option string) : option string := listen (Addr4 2130706642) 53.
Definition CheckPrerequisites (listen : addr -> Z -> option string) : bool * option string :=
  match checkDNSPortAvailable listen with Some e => (false, Some e) | None => (true, None) end.

(** ** The service keeps its promises *)
Section ServiceLemmas.
Context {S E : Type} (en : Engine S E) `{EngineSpec S E en} (d : DockerService).
Implicit Types (s : S).

Lemma createAndStart_Ok s s' u : createAndStart en d s = (s', Ok u) -> containers s' = <[ds_Name d := (ds_Image d, true)]> (containers s).
Proof.
  unfold createAndStart. intros (s1 & u1 & Hc & Hst)%st_bind_Ok. apply st_call_Ok in Hst.
  assert (Hcreated : containers s1 = <[ds_Name d := (ds_Image d, false)]> (containers s)).
  { pose proof (Create_spec (container_spec d) (ds_Name d) s) as Hcr.
    destruct (en_Create en (container_spec d) (ds_Name d) s) as [s2 [e|]]; [|injection Hc as <- _; apply Hcr].
    destruct (en_IsNotFound en e); [|done]. unfold pull_and_create in Hc.
    apply st_bind_Ok in Hc as (s3 & _ & Hp%st_call_Ok & Hc). apply st_bind_Ok in Hc as (s4 & _ & Hrd%st_call_Ok & Hc). apply st_call_Ok in Hc.
    pose proof (ImagePull_spec (ds_Image d) s2) as H3. rewrite Hp in H3. pose proof (ReadPull_spec s3) as H4. rewrite Hrd in H4.
    pose proof (Create_spec (container_spec d) (ds_Name d) s4) as Hcr2. rewrite Hc in Hcr2. destruct Hcr2 as [_ ->]. cbn in H3, H4.
    change (sp_Image (container_spec d)) with (ds_Image d). congruence. }
  pose proof (Start_spec (ds_Name d) s1) as Hs. rewrite Hst in Hs. destruct Hs as (i & b & Hl & ->). rewrite Hcreated in Hl |- *.
  rewrite lookup_insert_eq in Hl. injection Hl as <- _. apply insert_insert_eq.
Qed.

Lemma unless_not_found_stop s s' u : unless_not_found en StopContainer (en_Stop en (ds_Name d)) s = (s', Ok u) ->
  containers s' = alter (fun c => (fst c, false)) (ds_Name d) (containers s).
Proof.
  unfold unless_not_found. pose proof (Stop_spec (ds_Name d) s) as Hs.
  destruct (en_Stop en (ds_Name d) s) as [s1 [e|]].
  - destruct Hs as [Heq Hn]. destruct (en_IsNotFound en e); [|done]. intros [= <- _]. rewrite Heq.
    apply map_eq. intros k. destruct (decide (k = ds_Name d)) as [-> |]; [|by rewrite lookup_alter_ne].
    by rewrite lookup_alter_eq, (Hn eq_refl).
  - destruct Hs as (i & b & Hl & Heq). intros [= <- _]. rewrite Heq.
    apply map_eq. intros k. destruct (decide (k = ds_Name d)) as [-> |]; [|by rewrite lookup_alter_ne, lookup_insert_ne].
    by rewrite lookup_alter_eq, lookup_insert_eq, Hl.
Qed.

Lemma unless_not_found_remove s s' u : unless_not_found en RemoveContainer (en_Remove en (ds_Name d)) s = (s', Ok u) ->
  containers s' = delete (ds_Name d) (containers s).
Proof.
  unfold unless_not_found. pose proof (Remove_spec (ds_Name d) s) as Hs.
  destruct (en_Remove en (ds_Name d) s) as [s1 [e|]]; [|by intros [= <- _]].
  destruct Hs as [Heq Hn]. destruct (en_IsNotFound en e); [|done]. intros [= <- _]. rewrite Heq, delete_id; [done|by apply Hn].
Qed.

(** When [Start] succeeds, Corrosion runs the image this daemon is built for, whatever was
    there before; other containers are not touched. *)
Lemma Start_ensures ReadFile decode_toml new_client attempts s s' u :
  Start en d ReadFile decode_toml new_client attempts s = (s', Ok u) -> containers s' = <[ds_Name d := (ds_Image d, true)]> (containers s).
Proof.
  unfold Start. intros (s1 & u1 & Hr & Hw)%st_bind_Ok. unfold WaitReady, st_read in Hw. injection Hw as <- _.
  unfold ensure_running in Hr. pose proof (Inspect_spec (ds_Name d) s) as Hi.
  destruct (en_Inspect en (ds_Name d) s) as [[image running]|e].
  - destruct (String.eqb_spec image (ds_Image d)) as [-> |Hne]; cbn [negb] in Hr.
    + destruct running; cbn [negb] in Hr.
      * injection Hr as <- _. by rewrite insert_id.
      * apply st_call_Ok in Hr. pose proof (Start_spec (ds_Name d) s) as Hs. rewrite Hr in Hs.
        destruct Hs as (i & b & Hl & ->). rewrite Hi in Hl. by injection Hl as <- _.
    + apply st_bind_Ok in Hr as (s2 & _ & Hstop%unless_not_found_stop & Hr).
      apply st_bind_Ok in Hr as (s3 & _ & Hrm%unless_not_found_remove & Hr). apply createAndStart_Ok in Hr. rewrite Hr, Hrm, Hstop.
      apply map_eq. intros k. destruct (decide (k = ds_Name d)) as [-> |]; [by rewrite !lookup_insert_eq|].
      by rewrite !lookup_insert_ne, lookup_delete_ne, lookup_alter_ne.
  - destruct (en_IsNotFound en e); [|done]. by apply createAndStart_Ok in Hr.
Qed.

(** [Stop] leaves the container, not running. *)
Lemma Stop_ensures s s' u : Stop en d s = (s', Ok u) ->
  containers s' = alter (fun c => (fst c, false)) (ds_Name d) (containers s) /\ Running en d s' = false.
Proof.
  intros Hs%unless_not_found_stop. split; [done|]. unfold Running. pose proof (Inspect_spec (ds_Name d) s') as Hi.
  destruct (en_Inspect en (ds_Name d) s') as [[image running]|]; [|done]. rewrite Hs, lookup_alter_eq in Hi.
  apply fmap_Some in Hi as ([i b] & _ & [= _ ->]). done.
Qed.

(** [Cleanup] removes the container. *)
Lemma Cleanup_ensures s s' u : Cleanup en d s = (s', Ok u) -> containers s' = delete (ds_Name d) (containers s).
Proof.
  unfold Cleanup. pose proof (Stop_spec (ds_Name d) s) as Hs. destruct (en_Stop en (ds_Name d) s) as [s1 [e|]].
  - destruct Hs as [Heq Hn]. destruct (en_IsNotFound en e); [|done]. intros [= <- _]. rewrite Heq, delete_id; [done|by apply Hn].
  - destruct Hs as (i & b & _ & Heq). intros Hr%st_call_Ok. pose proof (Remove_spec (ds_Name d) s1) as Hrm. rewrite Hr in Hrm.
    rewrite Hrm, Heq. apply delete_insert_eq.
Qed.
End ServiceLemmas.

(** The attempts do not go on for ever: with intervals of at least 25 milliseconds there are
    at most 601 of them. *)
Fixpoint spaced {E} (t : Z) (l : list (attempt E)) : Prop :=
  match l with [] => True | a :: rest => t <= at_elapsed a /\ 25 <= at_next a /\ spaced (at_elapsed a + at_next a) rest end.

Lemma retry_decides {E} (l : list (attempt E)) t : spaced t l -> max_elapsed - t < 25 * Z.of_nat (length l) -> 0 <= t -> l <> [] ->
  retry l <> None.
Proof.
  revert t; induction l as [|a rest IH]; intros t Hs Hlen Ht Hne; [done|]. cbn [retry]. destruct Hs as (H1 & H2 & H3).
  destruct (at_error a) as [e|]; [|done]. destruct (Z.ltb_spec max_elapsed (at_elapsed a + at_next a)) as [|Hle]; [done|].
  destruct (at_cancelled a); [done|]. cbn [length] in Hlen. apply (IH _ H3); [lia..|]. intros ->. cbn in Hlen. lia.
Qed.

(** ** Defaults and state *)
Lemma or_default_idem s d : d <> "" -> or_default (or_default s d) d = or_default s d.
Proof. unfold or_default. intros Hd. destruct (String.eqb s "") eqn:Hs; [by destruct (String.eqb d "")|by rewrite Hs]. Qed.

Lemma or_default_nonempty s d : d <> "" -> or_default s d <> "".
Proof. unfold or_default. intros Hd. by destruct (String.eqb_spec s ""). Qed.

Lemma Clean_nonempty p : Clean p <> "".
Proof. unfold Clean. destruct (IsAbs p); [done|]. by destruct (String.eqb_spec (join "/" (clean_elements false [] (split_byte "/" p))) ""). Qed.

Lemma Join_nonempty a b : b <> "" -> Join a b <> "".
Proof.
  unfold Join. intros Hb. destruct (String.eqb_spec a "") as [|Ha]; destruct (String.eqb_spec b "") as [|_]; try done; apply Clean_nonempty.
Qed.

(** The defaults are complete: setting them again changes nothing. *)
Lemma default_paths_idem c : default_paths (default_paths c) = default_paths c.
Proof.
  unfold default_paths. cbn. repeat (rewrite or_default_idem; [|first [done|by apply Join_nonempty]]).
  f_equal; unfold addr_or_default, AddrPort_IsValid.
  - by destruct (IsValid (ap_Addr (mc_CorrosionAPIListenAddr c))) eqn:Ha; [rewrite Ha|].
  - by destruct (IsValid (ap_Addr (mc_CorrosionAPIAddr c))) eqn:Ha; [rewrite Ha|].
Qed.

Section StateLemmas.
Context {S : Type} (ParseState : string -> S -> result parse_error MachineState)
  (Save : string -> MachineState -> S -> S * option string)
  (NewMachineKeys : S -> result string (string * string)) (NewSecret : S -> result string string).

(** A machine that starts has a token, and its state is what its file has: the file was
    read as it is, or the state was saved last. *)
Lemma started_state_is_saved path s s1 st1 s2 st2 : (forall s t, NewSecret s = Ok t -> t <> "") ->
  load_state ParseState Save NewMachineKeys path s = (s1, Ok st1) -> ensure_token Save NewSecret path st1 s1 = (s2, Ok st2) ->
  ms_CorrosionAPIToken st2 <> "" /\
  (s2 = s /\ ParseState path s = Ok st2 \/ exists s0, Save path st2 s0 = (s2, None)) /\
  (forall st, ParseState path s = Ok st -> ms_State st2 = ms_State st).
Proof.
  intros Hsecret. unfold load_state, ensure_token. intros Hload Htoken.
  assert (H1 : (s1 = s /\ ParseState path s = Ok st1 \/ ms_CorrosionAPIToken st1 = "") /\ (forall st, ParseState path s = Ok st -> st1 = st)).
  { destruct (ParseState path s) as [st|[|e]]; [| |done].
    - injection Hload as -> ->. split; [by left|by intros ? [= ->]].
    - destruct (NewMachineKeys s) as [[priv pub]|]; [|done]. apply st_bind_Ok in Hload as (s3 & _ & _ & Hr). injection Hr as _ <-.
      split; [by right|done]. }
  destruct H1 as [Hor Hsame]. destruct (String.eqb_spec (ms_CorrosionAPIToken st1) "") as [He|Hne]; cbn [negb] in Htoken.
  - destruct (NewSecret s1) as [token|] eqn:Hsec; [|done]. apply st_bind_Ok in Htoken as (s3 & _ & Hsave%st_call_Ok & Hr).
    injection Hr as <- <-. split_and!; [by apply (Hsecret s1)|right; by eexists|]. intros st Hst. by rewrite (Hsame st Hst).
  - injection Htoken as <- <-. split_and!; [done| |intros st Hst; by rewrite (Hsame st Hst)]. destruct Hor as [[-> Hp]|]; [|done]. by left.
Qed.
End StateLemmas.

(** The other machines that Corrosion gossips with are the peers with a subnet. *)
Lemma bootstrap_spec peers a : a ∈ bootstrap peers <->
  exists p, p ∈ peers /\ pc_Subnet p <> None /\ a = AddrPort_String (mkAddrPort (pc_ManagementIP p) DefaultGossipPort).
Proof.
  unfold bootstrap. rewrite list_elem_of_omap. split.
  - intros (p & Hp & Ha). exists p. destruct (pc_Subnet p); [|done]. by injection Ha as <-.
  - intros (p & Hp & Hs & ->). exists p. split; [done|]. by destruct (pc_Subnet p).
Qed.

(** Every call of a clean-up is made, one after the other, and no error is lost. *)
Lemma join_all_spec {S E} (ops : list (S -> S * option E)) s :
  fst (join_all ops s) = fold_left (fun s op => fst (op s)) ops s /\
  (snd (join_all ops s) = [] <-> forall k op s1, ops !! k = Some op ->
     s1 = fold_left (fun s op => fst (op s)) (take k ops) s -> snd (op s1) = None).
Proof.
  revert s; induction ops as [|op ops IH]; intros s; cbn [join_all fold_left]; [by split|].
  destruct (op s) as [s1 e] eqn:Hop. specialize (IH s1). destruct (join_all ops s1) as [s2 es]. cbn [fst snd] in *. destruct IH as [-> IH].
  split; [done|]. split.
  - intros Hnil [|k] op' s' Hk ->; cbn in Hk.
    + injection Hk as <-. cbn. rewrite Hop. by destruct e.
    + cbn. rewrite Hop. cbn. destruct e; [done|]. by apply (proj1 IH Hnil k).
  - intros Hall. assert (He : e = None) by (pose proof (Hall 0%nat op s eq_refl eq_refl) as H0; by rewrite Hop in H0).
    rewrite He. apply IH. intros k op' s' Hk ->. apply (Hall (Datatypes.S k) op' _ Hk). cbn. by rewrite Hop.
Qed.

(** ** Concrete runs *)
(** An engine that does what it is asked; images are there. *)
Definition engine : Engine (gmap string (string * bool)) bool := {|
  en_Inspect n s := match s !! n with Some c => Ok c | None => Err true end;
  en_Create sp n s := match s !! n with Some _ => (s, Some false) | None => (<[n := (sp_Image sp, false)]> s, None) end;
  en_Start n s := match s !! n with Some (i, _) => (<[n := (i, true)]> s, None) | None => (s, Some true) end;
  en_Stop n s := match s !! n with Some (i, _) => (<[n := (i, false)]> s, None) | None => (s, Some true) end;
  en_Restart n s := match s !! n with Some (i, _) => (<[n := (i, true)]> s, None) | None => (s, Some true) end;
  en_Remove n s := match s !! n with Some _ => (delete n s, None) | None => (s, Some true) end;
  en_ImagePull _ s := (s, None);
  en_ReadPull s := (s, None);
  en_IsNotFound e := e
|}.

#[refine] Instance engine_spec : EngineSpec engine := {| containers := fun s => s |}.
Proof.
  - intros n s. cbn. by destruct (s !! n) eqn:Hn.
  - intros sp n s. cbn. by destruct (s !! n) eqn:Hn.
  - intros n s. cbn. destruct (s !! n) as [[i b]|] eqn:Hn; [by exists i, b|done].
  - intros n s. cbn. destruct (s !! n) as [[i b]|] eqn:Hn; [by exists i, b|done].
  - intros n s. cbn. by destruct (s !! n) eqn:Hn.
  - done.
  - done.
Defined.

Definition corrosion : DockerService := mkDockerService Image ContainerName "/var/lib/uncloud/corrosion" "/run/uncloud/corrosion" "999:999".
Definition old_corrosion (running : bool) : gmap string (string * bool) := {[ContainerName := ("ghcr.io/unlabs-dev/corrosion:2026.1.1", running)]}.

(** A container of an older version is recreated by [Start] and kept by [Restart], which is
    what the controller calls when Corrosion is running, after a crash of the daemon say. *)
Example restart_keeps_the_old_image :
  (fst <$> fst (Start engine corrosion (fun _ _ => Ok "config") (fun _ => Ok (mkAddrPort loopback DefaultAPIPort, "token"))
     (fun _ _ => None) (fun _ => [mkAttempt None 1 50 None]) (old_corrosion true)) !! ContainerName) = Some Image /\
  (fst <$> fst (Restart engine corrosion (old_corrosion true)) !! ContainerName) = Some "ghcr.io/unlabs-dev/corrosion:2026.1.1".
Proof. by split; vm_compute. Qed.

Definition no_config : MachineConfig := mkMachineConfig "" "" "" "" "" (mkAddrPort NoAddr 0) (mkAddrPort NoAddr 0) "" "" "" "".

Example defaults :
  let c := default_paths no_config in
  (mc_CorrosionDataDir c, mc_CorrosionAdminSockPath c, mc_CaddyConfigDir c, AddrPort_String (mc_CorrosionAPIAddr c)) =
  ("/var/lib/uncloud/corrosion", "/run/uncloud/corrosion/admin.sock", "/var/lib/uncloud/caddy", "127.0.0.1:51002").
Proof. vm_compute. reflexivity. Qed.

(** Setting the listen address of the Corrosion API has no effect on its configuration. *)
Example listen_address_is_ignored :
  let c := mkMachineConfig "" "" "" "" "" (mkAddrPort (Addr4 1) 9) (mkAddrPort NoAddr 0) "" "" "" "" in
  AddrPort_String (api_Addr (corrosion_config (default_paths c) (empty_state "private" "public"))) = "127.0.0.1:51002".
Proof. vm_compute. reflexivity. Qed.
