(* ===== verification/Enrol.v ===== *)
(** * Enrol: creating, growing and shrinking a cluster from the command line

    [InitCluster] and [AddMachine] of [internal/cli/cli.go] with the installation of a machine
    over SSH ([internal/cli/machine.go]), and [uc machine rm] ([cmd/uc/machine/rm.go]).  The
    calls to machines, the terminal and the file system are an interface with a state of its
    own ([Api]); what is modelled is the order of the calls, their arguments, what is saved,
    and which clients are closed.  The log has the calls that change something, with whether
    they succeeded.  Waiting with a backoff and the printed text are left out; the installed
    script is a parameter. *)

From S2P Require Import Prelude GoStrings NetAddr NetText Proto Store Resolver Cluster Network Controller Bootstrap ClientConfig Shell.
#[local] Open Scope string_scope.
#[local] Open Scope list_scope.

(** ** Calls and errors *)
Record RemoteMachine := mkRemote { rem_User : string; rem_Host : string; rem_Port : Z; rem_KeyPath : string; rem_UseSSHGo : bool }.

(** An error of a call; [Unimplemented]: its status code is. *)
Record rpc_error := mkRpc { rpc_msg : string; Unimplemented : bool; IsNotFound : bool }.
#[global] Instance rpc_error_eq_dec : EqDecision rpc_error.
Proof. solve_decision. Defined.

(** A container of a service, by their IDs. *)
Record container_id := mkCtr { ctr_service : string; ctr_id : string }.

Inductive event :=
| EvSSHConnect (ok : bool) | EvRun (cmd : string) | EvInstall (cmd : string) (ok : bool) | EvCloseControlMaster
| EvClusterOpened (ok : bool) | EvMachineOpened (ok : bool) | EvClusterClosed | EvMachineClosed
| EvReset (ok : bool) | EvInit (req : InitClusterRequest) (ok : bool) | EvRegister (req : AddMachineRequest) (ok : bool)
| EvJoin (req : JoinClusterRequest) (ok : bool) | EvSave (cfg : Config) (ok : bool)
| EvStop (c : container_id) | EvRemoveContainer (c : container_id) | EvResetMember (id : string) | EvUnregister (id : string) (ok : bool).

Record Api (W : Type) := mkApi {
  (* SSH and the clients *)
  api_SSHConnect : RemoteMachine -> W -> W * result rpc_error unit;
  api_Run : string -> W -> W * (string * option string);
  api_Install : string -> W -> W * result rpc_error unit;
  api_OpenMachine : W -> W * result rpc_error unit;
  api_OpenCluster : CLI -> W -> W * result rpc_error unit;
  (* the new machine *)
  api_Inspect : W -> W * result rpc_error MachineInfo;
  api_Reset : W -> W * result rpc_error unit;
  api_WaitReady : W -> W * result rpc_error unit;
  api_CheckPrerequisites : W -> W * result rpc_error (bool * string);
  api_InitCluster : InitClusterRequest -> W -> W * result rpc_error MachineInfo;
  api_Token : W -> W * result rpc_error string;
  api_Join : JoinClusterRequest -> W -> W * result rpc_error unit;
  (* the cluster *)
  api_ListMachines : W -> W * result rpc_error (list MachineInfo);
  api_AddMachine : AddMachineRequest -> W -> W * result rpc_error MachineInfo;
  api_StoreVersions : W -> W * result rpc_error (list (gmap string Z));
  api_InspectMember : string -> W -> W * result rpc_error MachineInfo;
  api_Connected : W -> W * result rpc_error string;
  api_ListContainers : string -> W -> W * result rpc_error (list container_id);
  api_StopContainer : container_id -> W -> W * result rpc_error unit;
  api_RemoveContainer : container_id -> W -> W * result rpc_error unit;
  api_ResetMember : string -> W -> W * result rpc_error unit;
  api_RemoveMachine : string -> W -> W * result rpc_error unit;
  (* the terminal and the configuration file *)
  api_Confirm : W -> W * result rpc_error bool;
  api_Save : Config -> W -> W * result rpc_error unit
}.
Arguments api_SSHConnect {W}. Arguments api_Run {W}. Arguments api_Install {W}. Arguments api_OpenMachine {W}.
Arguments api_OpenCluster {W}. Arguments api_Inspect {W}. Arguments api_Reset {W}. Arguments api_WaitReady {W}.
Arguments api_CheckPrerequisites {W}. Arguments api_InitCluster {W}. Arguments api_Token {W}. Arguments api_Join {W}.
Arguments api_ListMachines {W}. Arguments api_AddMachine {W}. Arguments api_StoreVersions {W}. Arguments api_InspectMember {W}.
Arguments api_Connected {W}. Arguments api_ListContainers {W}. Arguments api_StopContainer {W}. Arguments api_RemoveContainer {W}.
Arguments api_ResetMember {W}. Arguments api_RemoveMachine {W}. Arguments api_Confirm {W}. Arguments api_Save {W}.

Inductive enrol_error :=
| NoRemoteMachine | ContextName (e : name_error) | SSHLogin (e : rpc_error) | RunWhoami (e : string)
| SudoPassword (user : string) | NotSudoer (user : string) | SudoFailed (user e : string) | InstallFailed (e : rpc_error)
| ConnectMachine (e : rpc_error) | ConnectClusterFailed (contextName : string) (e : rpc_error)
| InspectFailed (e : rpc_error) | PromptFailed (e : rpc_error) | NotConfirmed | ResetFailed (e : rpc_error) | NotReadyAfterReset (e : rpc_error)
| PrerequisitesFailed (e : rpc_error) | NotSatisfied (e : string)
| InitFailed (e : rpc_error) | SaveContext (e : rpc_error) | ContextFailed (e : context_error)
| AlreadyMember (name : string) | ListFailed (e : rpc_error) | TokenFailed (e : rpc_error) | BadToken (e : token_error)
| NameNotGenerated | AddFailed (e : rpc_error) | InspectClusterFailed (e : rpc_error) | JoinFailed (e : rpc_error) | SaveConfig (e : rpc_error)
| InspectMemberFailed (e : rpc_error) | ConnectedMachine (path : string) | RemoveContainers (es : list rpc_error) | RemoveFailed (e : rpc_error)
| NilConfigPanic | NoMachinesPanic.

(** The values that stand for a panic: a nil configuration is dereferenced, or an answer
    lists no machine. *)
Definition panicked (e : enrol_error) : bool :=
  match e with NilConfigPanic | NoMachinesPanic => true | _ => false end.

(** An error that is returned, and whether the variable [err] the deferred functions look
    at is set at that point. *)
Record exit := mkExit { err_set : bool; exit_error : enrol_error }.

Record state (W : Type) := mkState { st_cli : CLI; st_log : list event; st_world : W }.
Arguments mkState {W}. Arguments st_cli {W}. Arguments st_log {W}. Arguments st_world {W}.

(** The conversion to [int32]. *)
Definition int32 (n : Z) : Z := ((n + 2 ^ 31) mod 2 ^ 32 - 2 ^ 31)%Z.

Section Enrol.
Context {TJ : TokenJSON} {W : Type} (api : Api W).
(** The install script, in base64, and the draws of a random machine name. *)
Context (scriptBase64 : string) (draws : nat -> draw).
Notation prog A := (stateful (state W) exit A).

(** A call, its entries in the log, and its error in context. *)
Definition call {A} (log : bool -> list event) (wrap : rpc_error -> enrol_error) (op : W -> W * result rpc_error A) : prog A := fun s =>
  match op (st_world s) with
  | (w, Ok a) => (mkState (st_cli s) (st_log s ++ log true) w, Ok a)
  | (w, Err e) => (mkState (st_cli s) (st_log s ++ log false) w, Err (mkExit true (wrap e)))
  end.
Definition ask {A} (wrap : rpc_error -> enrol_error) (op : W -> W * result rpc_error A) : prog A := call (fun _ => []) wrap op.
(** [return nil, fmt.Errorf(...)] where [err] is nil: a named result is set all the same. *)
Definition fail {A} (set : bool) (e : enrol_error) : prog A := st_throw (mkExit set e).
Definition note (ev : event) : prog unit := fun s => (mkState (st_cli s) (st_log s ++ [ev]) (st_world s), Ok tt).
Definition get_cli : prog CLI := fun s => (s, Ok (st_cli s)).
Definition put_cli (cli : CLI) : prog unit := fun s => (mkState cli (st_log s) (st_world s), Ok tt).

(** [defer func() { if err != nil { client.Close() } }()] *)
Definition closing {A} (ev : event) (p : prog A) : prog A := fun s =>
  match p s with
  | (s', Err e) => (if err_set e then mkState (st_cli s') (st_log s' ++ [ev]) (st_world s') else s', Err e)
  | r => r
  end.

#[local] Open Scope st_scope.

(** The configuration: a nil pointer, of it or of a context, panics. *)
Definition config : prog Config :=
  let* cli := get_cli in
  match cli_Config cli with Some cfg => st_ret cfg | None => fail false NilConfigPanic end.

Definition set_config (cfg : Config) : prog unit :=
  let* cli := get_cli in put_cli (mkCLI (Some cfg) (cli_conn cli) (contextOverride cli)).

Definition Save (wrap : rpc_error -> enrol_error) (cfg : Config) : prog unit :=
  call (fun ok => [EvSave cfg ok]) wrap (api_Save api cfg).

(** ** Installing a machine *)
Definition run (cmd : string) : prog (string * option string) := fun s =>
  let '(w, r) := api_Run api cmd (st_world s) in (mkState (st_cli s) (st_log s ++ [EvRun cmd]) w, Ok r).

(** [strings.Contains] *)
Fixpoint contains (sub s : string) : bool :=
  has_prefix sub s || match s with "" => false | String _ s' => contains sub s' end.

Definition provisionMachine (version : string) : prog unit :=
  let* who := run "whoami" in
  match who with
  | (_, Some e) => fail true (RunWhoami e)
  | (user, None) =>
      let* _ :=
        (if negb (String.eqb user rootUser) then
           let* sudo := run "sudo true" in
           match sudo with
           | (out, Some e) =>
               if contains "password is required" out then fail true (SudoPassword user)
               else if contains "not in the sudoers file" e then fail true (NotSudoer user)
               else fail true (SudoFailed user e)
           | _ => st_ret tt
           end
         else st_ret tt) in
      let cmd := install_command scriptBase64 user version in
      call (fun ok => [EvInstall cmd ok]) InstallFailed (api_Install api cmd)
  end.

Definition DefaultSSHKeyPath : string := "~/.ssh/id_ed25519".
Definition with_key (m : RemoteMachine) (key : string) : RemoteMachine :=
  mkRemote (rem_User m) (rem_Host m) (rem_Port m) key (rem_UseSSHGo m).

Definition ssh_login (m : RemoteMachine) : prog unit :=
  call (fun ok => [EvSSHConnect ok]) SSHLogin (api_SSHConnect api m).

(** The SSH connection of the Go library: the default key is tried when there is none. *)
Definition ssh_connect (m : RemoteMachine) : prog RemoteMachine := fun s =>
  match ssh_login m s with
  | (s1, Ok _) => (s1, Ok m)
  | (s1, Err e) =>
      if String.eqb (rem_KeyPath m) "" then (let* _ := ssh_login (with_key m DefaultSSHKeyPath) in st_ret (with_key m DefaultSSHKeyPath)) s1
      else (s1, Err e)
  end.

Definition open_machine : prog unit := call (fun ok => [EvMachineOpened ok]) ConnectMachine (api_OpenMachine api).

(** The machine as it is afterwards: its key may have been set. *)
Definition provisionOrConnectRemoteMachine (m : RemoteMachine) (skipInstall : bool) (version : string) : prog RemoteMachine :=
  if rem_UseSSHGo m then
    let* m := ssh_connect m in
    let* _ := (if skipInstall then st_ret tt else provisionMachine version) in
    let* _ := open_machine in
    st_ret m
  else
    let* _ := (if skipInstall then st_ret tt
               else let* _ := provisionMachine version in
                    if negb (String.eqb (rem_User m) rootUser) then note EvCloseControlMaster else st_ret tt) in
    let* _ := open_machine in
    st_ret m.

Definition promptResetMachine : prog unit :=
  let* confirm := ask PromptFailed (api_Confirm api) in
  if confirm : bool then st_ret tt else fail true NotConfirmed.

Definition resetAndWaitMachine : prog unit :=
  let* _ := call (fun ok => [EvReset ok]) ResetFailed (api_Reset api) in
  ask NotReadyAfterReset (api_WaitReady api).

(** [set]: whether a returned error sets the [err] of the deferred function. *)
Definition check_prerequisites (set : bool) : prog unit := fun s =>
  match api_CheckPrerequisites api (st_world s) with
  | (w, r) =>
      let s' := mkState (st_cli s) (st_log s) w in
      match r with
      | Err e => if Unimplemented e then (s', Ok tt) else (s', Err (mkExit true (PrerequisitesFailed e)))
      | Ok (true, _) => (s', Ok tt)
      | Ok (false, e) => (s', Err (mkExit set (NotSatisfied e)))
      end
  end.

(** The connection of a machine that is saved. *)
Definition saved_connection (m : RemoteMachine) (id : string) : MachineConnection :=
  let dst := NewSSHDestination (rem_User m) (rem_Host m) (rem_Port m) in
  if rem_UseSSHGo m then mkConnection "" "" dst (rem_KeyPath m) None "" "" "" id
  else mkConnection dst "" "" (rem_KeyPath m) None "" "" "" id.

Definition add_connection (contextName : string) (c : MachineConnection) (cfg : Config) : Config :=
  mkConfig (CurrentContext cfg) (alter (with_connections (fun l => l ++ [c])) contextName (Contexts cfg)) (cfg_path cfg).

(** ** Creating a cluster *)
Record InitOptions := mkInitOptions {
  io_Context : string; io_MachineName : string; io_Network : prefix; io_PublicIP : option addr;
  io_RemoteMachine : option RemoteMachine; io_SkipInstall : bool; io_Version : string; io_AutoConfirm : bool;
  io_Endpoints : list (option IPPort); io_MTU : Z; io_Port : Z }.

(** The zero address asks for detection. *)
Definition init_request_of (o : InitOptions) : InitClusterRequest :=
  mkInitClusterRequest (io_MachineName o) (Some (NewIPPrefix (io_Network o))) (int32 (io_Port o)) (int32 (io_MTU o)) (io_Endpoints o)
    (match io_PublicIP o with Some a => if IsValid a then Some (NewIP a) else None | None => None end)
    (match io_PublicIP o with Some a => negb (IsValid a) | None => false end).

(** A machine that is a member is reset first. *)
Definition reset_member (autoConfirm : bool) : prog unit :=
  let* _ := (if autoConfirm then st_ret tt else promptResetMachine) in
  resetAndWaitMachine.

(** [cli.CreateContext] and [cli.SetCurrentContext]. *)
Definition change_context (change : Config -> result context_error Config) : prog unit :=
  let* cfg := config in
  match change cfg with
  | Err e => fail true (ContextFailed e)
  | Ok cfg =>
      let* _ := set_config cfg in
      Save SaveContext cfg
  end.

(** [cli.Config.Contexts[name].Connections = append(...)] and [cli.Config.Save()] *)
Definition save_connection (contextName : string) (c : MachineConnection) : prog unit :=
  let* cfg := config in
  match Contexts cfg !! contextName with
  | None => fail false NilConfigPanic
  | Some _ =>
      let cfg := add_connection contextName c cfg in
      let* _ := set_config cfg in
      Save SaveConfig cfg
  end.

Definition init_on_machine (o : InitOptions) (m : RemoteMachine) (contextName : string) : prog MachineInfo :=
  let* minfo := ask InspectFailed (api_Inspect api) in
  let* _ := (if negb (String.eqb (mi_Id minfo) "") then reset_member (io_AutoConfirm o) else st_ret tt) in
  let* _ := check_prerequisites false in
  let req := init_request_of o in
  let* machine := call (fun ok => [EvInit req ok]) InitFailed (api_InitCluster api req) in
  let* _ := change_context (CreateContext contextName) in
  let* _ := change_context (SetCurrentContext contextName) in
  let* _ := save_connection contextName (saved_connection m (mi_Id machine)) in
  st_ret machine.

Definition initRemoteMachine (o : InitOptions) (m : RemoteMachine) : prog MachineInfo :=
  let* cfg := config in
  match newContextName cfg (io_Context o) with
  | Err e => fail true (ContextName e)
  | Ok contextName =>
      let* m := provisionOrConnectRemoteMachine m (io_SkipInstall o) (io_Version o) in
      closing EvMachineClosed (init_on_machine o m contextName)
  end.

Definition cli_InitCluster (o : InitOptions) : prog MachineInfo :=
  match io_RemoteMachine o with
  | Some m => initRemoteMachine o m
  | None => fail true NoRemoteMachine
  end.

(** ** Adding a machine *)
Record AddOptions := mkAddOptions {
  ao_MachineName : string; ao_PublicIP : option addr; ao_RemoteMachine : RemoteMachine; ao_SkipInstall : bool;
  ao_Version : string; ao_AutoConfirm : bool; ao_Endpoints : list (option IPPort); ao_MTU : Z; ao_Port : Z }.

(** The endpoints given, or those of the token, on the port the machine will use. *)
Definition machine_endpoints (o : AddOptions) (t : Token) : list (option IPPort) :=
  match ao_Endpoints o with
  | [] => map (fun ep => let port := if negb (ao_Port o =? 0)%Z && negb (ao_Port o =? DefaultWireGuardPort)%Z
                                     then (ao_Port o mod 2 ^ 16)%Z else ap_Port ep in
                         Some (NewIPPort (ap_Addr ep) port)) (tk_Endpoints t)
  | given => given
  end.

Definition public_ip (o : AddOptions) (t : Token) : option Proto.IP :=
  match ao_PublicIP o with
  | None => None
  | Some a => if IsValid a then Some (NewIP a) else if IsValid (tk_PublicIP t) then Some (NewIP (tk_PublicIP t)) else None
  end.

Definition add_request (o : AddOptions) (t : Token) (name : string) : AddMachineRequest :=
  mkAddMachineRequest name (Some (mkNetworkConfig None None (machine_endpoints o t) (Some (tk_PublicKey t)))) (public_ip o t).

Definition join_request_of (o : AddOptions) (added : MachineInfo) (version : gmap string Z) (machines : list MachineInfo) : JoinClusterRequest :=
  mkJoinClusterRequest (Some added) (filter (fun m => mi_Id m <> mi_Id added) machines) version (int32 (ao_Port o)) (int32 (ao_MTU o)).

(** [make([]*pb.MachineInfo, 0, len(machines)-1)] *)
Definition make_others (machines : list MachineInfo) : prog unit :=
  match machines with [] => fail false NoMachinesPanic | _ :: _ => st_ret tt end.

(** The name given, or one made of the host name. *)
Definition machine_name (o : AddOptions) (minfo : MachineInfo) : prog string :=
  if String.eqb (ao_MachineName o) "" then
    let* machines := ask ListFailed (api_ListMachines api) in
    match DefaultMachineName (mi_Hostname minfo) (map mi_Name machines) draws with
    | Some name => st_ret name
    | None => fail true NameNotGenerated
    end
  else st_ret (ao_MachineName o).

(** A machine of another cluster is reset; one of this cluster is refused. *)
Definition leave_cluster (o : AddOptions) (minfo : MachineInfo) : prog unit :=
  if String.eqb (mi_Id minfo) "" then st_ret tt
  else
    let* machines := ask ListFailed (api_ListMachines api) in
    if existsb (fun m => String.eqb (mi_Id m) (mi_Id minfo)) machines then fail true (AlreadyMember (mi_Name minfo))
    else reset_member (ao_AutoConfirm o).

(** The version of the store, that of the first machine of the answer; an old machine does
    not have it. *)
Definition store_version : prog (gmap string Z) := fun s =>
  match api_StoreVersions api (st_world s) with
  | (w, r) =>
      let s' := mkState (st_cli s) (st_log s) w in
      match r with
      | Ok (v :: _) => (s', Ok v)
      | Ok [] => (s', Err (mkExit false NoMachinesPanic))
      | Err e => if Unimplemented e then (s', Ok ∅) else (s', Err (mkExit true (InspectClusterFailed e)))
      end
  end.

Definition add_on_machine (o : AddOptions) (m : RemoteMachine) (contextName : string) : prog MachineInfo :=
  let* minfo := ask InspectFailed (api_Inspect api) in
  let* _ := leave_cluster o minfo in
  let* _ := check_prerequisites true in
  let* text := ask TokenFailed (api_Token api) in
  match ParseToken text with
  | Err e => fail true (BadToken e)
  | Ok token =>
      let* name := machine_name o minfo in
      let req := add_request o token name in
      let* added := call (fun ok => [EvRegister req ok]) AddFailed (api_AddMachine api req) in
      let* version := store_version in
      let* machines := ask ListFailed (api_ListMachines api) in
      let* _ := make_others machines in
      let join := join_request_of o added version machines in
      let* _ := call (fun ok => [EvJoin join ok]) JoinFailed (api_Join api join) in
      let* _ := save_connection contextName (saved_connection m (mi_Id added)) in
      st_ret added
  end.

Definition cli_AddMachine (o : AddOptions) : prog MachineInfo :=
  let* cli := get_cli in
  let contextName := ContextOverrideOrCurrent cli in
  let* _ := call (fun ok => [EvClusterOpened ok]) (ConnectClusterFailed contextName) (api_OpenCluster api cli) in
  closing EvClusterClosed
    (let* m := provisionOrConnectRemoteMachine (ao_RemoteMachine o) (ao_SkipInstall o) (ao_Version o) in
     closing EvMachineClosed (add_on_machine o m contextName)).

(** ** Removing a machine *)
Record removeOptions := mkRemoveOptions { noReset : bool; ro_yes : bool }.

(** [defer client.Close()] *)
Definition deferring {A} (ev : event) (p : prog A) : prog A := fun s =>
  let '(s', r) := p s in (mkState (st_cli s') (st_log s' ++ [ev]) (st_world s'), r).

(** A call whose error is only collected. *)
Definition attempt (log : list event) (op : W -> W * result rpc_error unit) : prog (option rpc_error) := fun s =>
  let '(w, r) := op (st_world s) in
  (mkState (st_cli s) (st_log s ++ log) w, Ok (match r with Ok _ => None | Err e => if IsNotFound e then None else Some e end)).

(** The containers are stopped and removed concurrently; here one after the other. *)
Fixpoint removeContainers (l : list container_id) : prog (list rpc_error) :=
  match l with
  | [] => st_ret []
  | c :: rest =>
      let* stopped := attempt [EvStop c] (api_StopContainer api c) in
      let* removed := attempt [EvRemoveContainer c] (api_RemoveContainer api c) in
      let* errs := removeContainers rest in
      st_ret (option_list stopped ++ option_list removed ++ errs)
  end.

(** The machine that is connected to is only removed when it is the last one. *)
Definition check_connected (id : string) : prog unit :=
  let* connected := ask InspectFailed (api_Connected api) in
  if String.eqb connected id then
    let* machines := ask ListFailed (api_ListMachines api) in
    if Nat.ltb 1 (length machines) then
      let* cfg := config in fail true (ConnectedMachine (cfg_path cfg))
    else st_ret tt
  else st_ret tt.

(** The containers of the machine, [None] when it is not reachable or will not be reset. *)
Definition reachable_containers (o : removeOptions) (id : string) : prog (option (list container_id)) := fun s =>
  if noReset o then (s, Ok None)
  else match api_ListContainers api id (st_world s) with
       | (w, r) => (mkState (st_cli s) (st_log s) w, Ok (match r with Ok l => Some l | Err _ => None end))
       end.

Definition remove_connection (id : string) (l : list MachineConnection) : list MachineConnection :=
  match list_find (fun c => conn_MachineID c = id) l with
  | Some (i, _) => delete i l
  | None => l
  end.

(** Without a configuration there is nothing to forget. *)
Definition forget_connection (id : string) : prog unit :=
  let* cli := get_cli in
  match cli_Config cli with
  | None => st_ret tt
  | Some cfg =>
      match Contexts cfg !! ContextOverrideOrCurrent cli with
      | None => st_ret tt
      | Some _ =>
          let cfg := mkConfig (CurrentContext cfg)
            (alter (with_connections (remove_connection id)) (ContextOverrideOrCurrent cli) (Contexts cfg)) (cfg_path cfg) in
          let* _ := set_config cfg in
          Save SaveConfig cfg
      end
  end.

(** The containers are removed and the reset is asked for; a failed reset is only printed. *)
Definition evacuate (id : string) (containers : option (list container_id)) : prog unit :=
  let* errs := removeContainers (default [] containers) in
  let* _ := (if decide (errs = []) then st_ret tt else fail true (RemoveContainers errs)) in
  match containers with
  | Some _ => let* _ := attempt [EvResetMember id] (api_ResetMember api id) in st_ret tt
  | None => st_ret tt
  end.

Definition remove_member (o : removeOptions) (m : MachineInfo) : prog unit :=
  let* _ := check_connected (mi_Id m) in
  let* containers := reachable_containers o (mi_Id m) in
  let* _ := (if ro_yes o then st_ret tt else promptResetMachine) in
  let* _ := evacuate (mi_Id m) containers in
  let* _ := call (fun ok => [EvUnregister (mi_Id m) ok]) RemoveFailed (api_RemoveMachine api (mi_Id m)) in
  forget_connection (mi_Id m).

Definition remove (nameOrID : string) (o : removeOptions) : prog unit :=
  let* cli := get_cli in
  let* _ := call (fun ok => [EvClusterOpened ok]) (ConnectClusterFailed (ContextOverrideOrCurrent cli)) (api_OpenCluster api cli) in
  deferring EvClusterClosed
    (let* m := ask InspectMemberFailed (api_InspectMember api nameOrID) in
     remove_member o m).
End Enrol.

(** ** What a program adds to the log *)
Section Logs.
Context {W : Type}.
Notation prog A := (stateful (state W) exit A).

(** What is added to the log and the result are related by [Q]. *)
Definition logs {A} (p : prog A) (Q : list event -> result exit A -> Prop) : Prop :=
  forall s s' r, p s = (s', r) -> exists l, st_log s' = st_log s ++ l /\ Q l r.

Lemma logs_weaken {A} (p : prog A) (Q Q' : list event -> result exit A -> Prop) : logs p Q -> (forall l r, Q l r -> Q' l r) -> logs p Q'.
Proof. intros H HQ s s' r Hrun. destruct (H s s' r Hrun) as (l & Hl & Hq). exists l. auto. Qed.

Lemma logs_bind {A B} (p : prog A) (k : A -> prog B) (P : list event -> result exit A -> Prop) (Q : list event -> result exit B -> Prop) :
  logs p P -> (forall l1 e, P l1 (Err e) -> Q l1 (Err e)) ->
  (forall l1 a, P l1 (Ok a) -> logs (k a) (fun l2 r => Q (l1 ++ l2) r)) -> logs (st_bind p k) Q.
Proof.
  intros Hp He Hk s s' r. unfold st_bind. destruct (p s) as [s1 [a|e]] eqn:Hrun; destruct (Hp _ _ _ Hrun) as (l1 & Hl1 & HP).
  - intros Hrun2. destruct (Hk l1 a HP _ _ _ Hrun2) as (l2 & Hl2 & HQ). exists (l1 ++ l2). by rewrite Hl2, Hl1, app_assoc.
  - intros [= <- <-]. exists l1. auto.
Qed.

Lemma logs_ret {A} (a : A) : logs (st_ret a) (fun l r => l = [] /\ r = Ok a).
Proof. intros s s' r [= <- <-]. exists []. by rewrite app_nil_r. Qed.
Lemma logs_fail {A} set e : logs (fail (A := A) set e) (fun l r => l = [] /\ r = Err (mkExit set e)).
Proof. intros s s' r [= <- <-]. exists []. by rewrite app_nil_r. Qed.
Lemma logs_call {A} log wrap op : logs (call (A := A) log wrap op) (fun l r => l = log (is_ok r) /\ forall e, r = Err e -> err_set e = true).
Proof.
  intros s s' r. unfold call. destruct (op (st_world s)) as [w [a|e]]; intros [= <- <-].
  - exists (log true). by split_and!.
  - exists (log false). split_and!; [done|done|]. by intros ? [= <-].
Qed.

(** Only events of a kind, and only errors of a kind. *)
Definition only {A} (P : event -> Prop) (E : exit -> Prop) (p : prog A) : Prop :=
  logs p (fun l r => Forall P l /\ forall e, r = Err e -> E e).

Lemma only_bind {A B} P E (p : prog A) (k : A -> prog B) : only P E p -> (forall a, only P E (k a)) -> only P E (st_bind p k).
Proof.
  intros Hp Hk. eapply logs_bind; [exact Hp| |].
  - intros l1 e [Hl HE]. split; [done|]. intros e' [= <-]. by apply HE.
  - intros l1 a [Hl _]. eapply logs_weaken; [apply Hk|]. intros l r [Hl2 HE]. split; [by apply Forall_app|done].
Qed.
Lemma only_ret {A} P E (a : A) : only P E (st_ret a).
Proof. eapply logs_weaken; [apply logs_ret|]. intros l r [-> ->]. by split. Qed.
Lemma only_fail {A} (P : event -> Prop) (E : exit -> Prop) set e : E (mkExit set e) -> only P E (fail (A := A) set e).
Proof. intros HE. eapply logs_weaken; [apply logs_fail|]. intros l r [-> ->]. split; [done|]. by intros ? [= <-]. Qed.
Lemma only_call {A} (P : event -> Prop) (E : exit -> Prop) log wrap op :
  (forall ok, Forall P (log ok)) -> (forall e, E (mkExit true (wrap e))) -> only P E (call (A := A) log wrap op).
Proof.
  intros Hlog HE s s' r. unfold call. destruct (op (st_world s)) as [w [a|e]]; intros [= <- <-].
  - exists (log true). by split_and!.
  - exists (log false). split_and!; [done|done|]. intros ? [= <-]. apply HE.
Qed.
Lemma only_cli {A} P E (k : CLI -> prog A) : (forall cli, only P E (k cli)) -> only P E (st_bind get_cli k).
Proof. intros Hk. apply only_bind; [|done]. intros s s' r [= <- <-]. exists []. rewrite app_nil_r. by split_and!. Qed.
Lemma only_put P E cli : only P E (put_cli cli).
Proof. intros s s' r [= <- <-]. exists []. cbn. rewrite app_nil_r. by split_and!. Qed.
Lemma only_note (P : event -> Prop) E ev : P ev -> only P E (note ev).
Proof. intros HP s s' r [= <- <-]. exists [ev]. split_and!; [done|by constructor|done]. Qed.
End Logs.

Create HintDb enrol discriminated.
#[export] Hint Resolve only_bind only_ret only_fail only_call only_cli only_put only_note : enrol.

Section EnrolSpec.
Context {TJ : TokenJSON} {W : Type} (api : Api W) (scriptBase64 : string) (draws : nat -> draw).
Notation prog A := (stateful (state W) exit A).

(** The calls that open and close the clients. *)
Definition client_event (ev : event) : bool :=
  match ev with EvClusterOpened _ | EvMachineOpened _ | EvClusterClosed | EvMachineClosed => true | _ => false end.
Definition other (ev : event) : Prop := client_event ev = false.

(** The calls that change the membership of the cluster and the configuration. *)
Definition enrolling (ev : event) : bool :=
  match ev with EvRegister _ _ | EvJoin _ _ | EvSave _ _ | EvUnregister _ _ => true | _ => false end.
Definition before_enrolling (ev : event) : Prop := enrolling ev = false.

Definition quiet (ev : event) : Prop := other ev /\ before_enrolling ev.

(** A returned error that the deferred functions see, or the panic. *)
Definition seen (e : exit) : Prop := err_set e = true \/ panicked (exit_error e) = true.

(** Steps of a program, one after the other. *)
Ltac steps := repeat first
  [ apply only_cli | apply only_bind | apply only_ret | apply only_put
  | apply only_fail; (by left) || (by right)
  | apply only_note; by split_and?
  | apply only_call; [by intros []; repeat constructor|by left]
  | match goal with |- forall _, _ => intros ? end | case_match ].

Lemma only_config P : only (W := W) P seen config.
Proof. unfold config. steps. Qed.
Lemma only_run cmd : only quiet seen (run api cmd).
Proof. intros s s' r. unfold run. destruct (api_Run api cmd (st_world s)) as [w x]. intros [= <- <-]. exists [EvRun cmd]. split_and!; [done|by repeat constructor|done]. Qed.

Lemma only_other {A} E (p : prog A) : only quiet E p -> only other E p.
Proof. intros Hp. eapply logs_weaken; [exact Hp|]. intros l r [Hl Hr]. split; [|done]. eapply Forall_impl; [exact Hl|by intros ? []]. Qed.
Lemma logs_quiet {A} E (p : prog A) : only quiet E p -> logs p (fun l _ => Forall before_enrolling l).
Proof. intros Hp. eapply logs_weaken; [exact Hp|]. intros l r [Hl _]. eapply Forall_impl; [exact Hl|by intros ? []]. Qed.

Lemma only_provisionMachine version : only quiet seen (provisionMachine api scriptBase64 version).
Proof.
  unfold provisionMachine. apply only_bind; [apply only_run|]. intros [user [e|]]; [steps|].
  apply only_bind; [|steps]. destruct (negb _); [|steps]. apply only_bind; [apply only_run|]. intros [out [e|]]; steps.
Qed.

Lemma only_ssh_connect m : only quiet seen (ssh_connect api m).
Proof.
  unfold ssh_connect, ssh_login. intros s s' r.
  destruct (call _ _ _ s) as [s1 [a|e]] eqn:H1; destruct (logs_call _ _ _ _ _ _ H1) as (l1 & Hl1 & -> & HE).
  - intros [= <- <-]. eexists. split_and!; [exact Hl1|by repeat constructor|done].
  - destruct (String.eqb _ _).
    + unfold st_bind. destruct (call _ _ _ s1) as [s2 [a|e']] eqn:H2; destruct (logs_call _ _ _ _ _ _ H2) as (l2 & Hl2 & -> & HE2);
        intros [= <- <-]; eexists; rewrite Hl2, Hl1, <- app_assoc; split_and!; try reflexivity; try (by repeat constructor).
      intros ? [= <-]. left. by apply HE2.
    + intros [= <- <-]. eexists. split_and!; [exact Hl1|by repeat constructor|]. intros ? [= <-]. left. by apply HE.
Qed.

Lemma only_check_prerequisites : only quiet seen (check_prerequisites api true).
Proof.
  intros s s' r. unfold check_prerequisites. destruct (api_CheckPrerequisites api (st_world s)) as [w [[[] e]|e]]; [| |destruct (Unimplemented e)];
    intros [= <- <-]; exists []; rewrite app_nil_r; split_and!; try done; intros ? [= <-]; by left.
Qed.

Lemma only_store_version : only quiet seen (store_version api).
Proof.
  intros s s' r. unfold store_version. destruct (api_StoreVersions api (st_world s)) as [w [[|v vs]|e]]; [| |destruct (Unimplemented e)];
    intros [= <- <-]; exists []; rewrite app_nil_r; split_and!; try done; intros ? [= <-]; (by left) || (by right).
Qed.

Lemma only_reset_member yes : only quiet seen (reset_member api yes).
Proof. unfold reset_member, promptResetMachine, resetAndWaitMachine, ask. steps. Qed.

Lemma only_save_connection name c : only other seen (save_connection api name c).
Proof. unfold save_connection, set_config, Save. apply only_bind; [apply only_config|]. steps. Qed.

Lemma only_make_others P machines : only P seen (make_others (W := W) machines).
Proof. unfold make_others. destruct machines; steps. Qed.

Lemma only_add_on_machine o m name : only other seen (add_on_machine api draws o m name).
Proof.
  unfold add_on_machine, leave_cluster, machine_name, ask.
  repeat first [apply only_other, only_reset_member | apply only_other, only_check_prerequisites | apply only_other, only_store_version | apply only_save_connection | apply only_make_others | progress steps].
Qed.

(** *** Clients that are opened and closed *)
Lemma logs_closing {A} ev (p : prog A) Q : logs p Q ->
  logs (closing ev p) (fun l r => exists l0, Q l0 r /\ l = l0 ++ match r with Err e => if err_set e then [ev] else [] | Ok _ => [] end).
Proof.
  intros Hp s s' r. unfold closing. destruct (p s) as [s1 [a|e]] eqn:Hrun; destruct (Hp _ _ _ Hrun) as (l & Hl & HQ); intros [= <- <-].
  - exists l. split; [done|]. exists l. by rewrite app_nil_r.
  - destruct (err_set e) eqn:He; cbn.
    + exists (l ++ [ev]). rewrite Hl, app_assoc. split; [done|]. by exists l.
    + exists l. split; [done|]. exists l. by rewrite app_nil_r.
Qed.

(** Events of the installation: the machine is opened last, if at all. *)
Definition installing (ev : event) : Prop := other ev \/ exists ok, ev = EvMachineOpened ok.

Definition install_log (l : list event) (r : result exit RemoteMachine) : Prop :=
  Forall installing l /\ match r with Ok _ => True | Err e => seen e /\ EvMachineOpened true ∉ l end.

Lemma provision_logs m skip version : logs (provisionOrConnectRemoteMachine api scriptBase64 m skip version)
  install_log.
Proof.
  assert (Hopen : forall m', logs (st_bind (open_machine api) (fun _ => st_ret m'))
    install_log).
  { intros m' s s' r. unfold open_machine, st_bind, call. destruct (api_OpenMachine api (st_world s)) as [w [a|e]]; intros [= <- <-]; eexists.
    - split; [reflexivity|]. split; [|done]. constructor; [right; by exists true|done].
    - split; [reflexivity|]. split; [constructor; [right; by exists false|done]|]. split; [by left|].
      intros [Heq|Hin]%elem_of_cons; [done|by apply not_elem_of_nil in Hin]. }
  assert (Hno : forall l, Forall other l -> EvMachineOpened true ∉ l).
  { intros l Hl Hin. rewrite Forall_forall in Hl. by specialize (Hl _ Hin). }
  assert (Hbind : forall {A} (p : prog A) (k : A -> prog RemoteMachine), only other seen p ->
    (forall a, logs (k a) install_log) ->
    logs (st_bind p k) install_log).
  { intros A p k Hp Hk. eapply logs_bind; [exact Hp| |].
    - intros l e [Hl HE]. split; [eapply Forall_impl; [exact Hl|by left]|]. split; [by apply HE|by apply Hno].
    - intros l a [Hl _]. eapply logs_weaken; [apply Hk|]. intros l2 r [Hl2 Hr]. split.
      + apply Forall_app. split; [eapply Forall_impl; [exact Hl|by left]|done].
      + destruct r as [|e]; [done|]. destruct Hr as [? Hnot]. split; [done|]. rewrite elem_of_app. intros [Hin|Hin]; [by apply (Hno l)|done]. }
  unfold provisionOrConnectRemoteMachine. destruct (rem_UseSSHGo m).
  - apply Hbind; [apply only_other, only_ssh_connect|]. intros m'. apply Hbind; [|intros _; apply Hopen].
    destruct skip; [steps|apply only_other, only_provisionMachine].
  - apply Hbind; [|intros _; apply Hopen]. destruct skip; [steps|].
    apply only_bind; [apply only_other, only_provisionMachine|]. intros _. steps.
Qed.

Lemma installing_other l ev : Forall installing l -> ev ∈ l -> client_event ev = true -> exists ok, ev = EvMachineOpened ok.
Proof. intros Hl Hin Hev. rewrite Forall_forall in Hl. destruct (Hl _ Hin) as [Ho|?]; [|done]. unfold other in Ho. congruence. Qed.

(** The body between opening the machine and the end. *)
Lemma machine_closing_logs m skip version (body : RemoteMachine -> prog MachineInfo) (E : exit -> Prop) : (forall m', only other E (body m')) ->
  logs (st_bind (provisionOrConnectRemoteMachine api scriptBase64 m skip version) (fun m' => closing EvMachineClosed (body m')))
    (fun l r => (forall ev, ev ∈ l -> client_event ev = true -> (exists ok, ev = EvMachineOpened ok) \/ ev = EvMachineClosed) /\
       match r with
       | Ok _ => EvMachineClosed ∉ l
       | Err e => (seen e /\ EvMachineOpened true ∉ l) \/ E e /\ (err_set e = true -> EvMachineClosed ∈ l)
       end).
Proof.
  intros Hbody. eapply logs_bind; [apply provision_logs| |].
  - intros l e [Hl [Hseen Hno]]. split; [|by left]. intros ev Hin Hev. left. by apply (installing_other l).
  - intros l m' [Hl _]. eapply logs_weaken; [apply logs_closing, Hbody|]. intros l2 r (l0 & [Hl0 HE] & ->). cbn beta.
    assert (Hno0 : forall ev, ev ∈ l0 -> client_event ev = true -> False).
    { intros ev Hin Hev. rewrite Forall_forall in Hl0. specialize (Hl0 _ Hin). unfold other in Hl0. congruence. }
    split.
    + intros ev. rewrite !elem_of_app. intros [Hin|[Hin|Hin]] Hev.
      * left. by apply (installing_other l).
      * by destruct (Hno0 ev).
      * right. destruct r as [a|e]; [by apply not_elem_of_nil in Hin|]. destruct (err_set e); [by apply list_elem_of_singleton in Hin|by apply not_elem_of_nil in Hin].
    + destruct r as [a|e].
      * rewrite app_nil_r, elem_of_app. intros [Hin|Hin]; [|by destruct (Hno0 _ Hin)].
        destruct (installing_other _ _ Hl Hin eq_refl) as [ok ?]. done.
      * right. split; [by apply HE|]. intros He. rewrite He, !elem_of_app. right. right. by apply list_elem_of_singleton.
Qed.

(** [AddMachine] never leaks a client: when it returns an error, the clients it opened
    are closed, and when it succeeds both are returned open.  The exception is the panic of
    a command line that was given a connection and has no configuration. *)
Lemma AddMachine_closes_clients o s s' r : cli_AddMachine api scriptBase64 draws o s = (s', r) ->
  exists l, st_log s' = st_log s ++ l /\
    match r with
    | Ok _ => EvClusterClosed ∉ l /\ EvMachineClosed ∉ l
    | Err e => panicked (exit_error e) = true \/
        ((EvClusterOpened true ∈ l -> EvClusterClosed ∈ l) /\ (EvMachineOpened true ∈ l -> EvMachineClosed ∈ l))
    end.
Proof.
  unfold cli_AddMachine. revert s s' r. eapply (logs_bind get_cli _ (fun l r => l = [] /\ is_ok r = true)).
  { intros s s' r [= <- <-]. exists []. by rewrite app_nil_r. }
  { by intros l e [_ ?]. }
  intros l0 cli [-> _]. eapply logs_weaken; [|intros l r H; exact H]. cbn beta iota.
  eapply (logs_bind _ _ _ (fun l r => match r with
    | Ok _ => EvClusterClosed ∉ l /\ EvMachineClosed ∉ l
    | Err e => panicked (exit_error e) = true \/
        ((EvClusterOpened true ∈ l -> EvClusterClosed ∈ l) /\ (EvMachineOpened true ∈ l -> EvMachineClosed ∈ l)) end)); [apply logs_call| |].
  - intros l e [-> _]. right. split; intros [?|Hin]%elem_of_cons; try done; by apply not_elem_of_nil in Hin.
  - intros l1 a [-> _]. cbn [is_ok]. eapply logs_weaken.
    { apply logs_closing, (machine_closing_logs _ _ _ _ seen). intros m'. apply only_add_on_machine. }
    cbn beta.
    intros l2 r (l & [Hev Hr] & ->). destruct r as [x|e].
    + rewrite app_nil_r. split; rewrite elem_of_app, list_elem_of_singleton; intros [?|Hin]; try done.
      destruct (Hev _ Hin eq_refl) as [[ok ?]|?]; done.
    + destruct Hr as [[Hs Hno]|[Hs Hc]]; destruct Hs as [Hset|Hpanic]; try (by left); right; rewrite Hset.
      * split; [intros _; rewrite !elem_of_app, !list_elem_of_singleton; auto|].
        rewrite !elem_of_app, !list_elem_of_singleton. intros [?|[?|?]]; done.
      * split; [intros _; rewrite !elem_of_app, !list_elem_of_singleton; auto|].
        intros _. rewrite !elem_of_app. right. left. by apply Hc.
Qed.

(** [InitCluster] closes the client of the machine on an error, with two exceptions: the
    panic, and the prerequisites that are not satisfied, where [err] is nil. *)
Lemma only_weaken {A} P (E E' : exit -> Prop) (p : prog A) : only P E p -> (forall e, E e -> E' e) -> only P E' p.
Proof. intros Hp HE. eapply logs_weaken; [exact Hp|]. intros l r [Hl Hr]. split; auto. Qed.

Definition unseen (e : exit) : Prop := seen e \/ exists msg, e = mkExit false (NotSatisfied msg).

Lemma only_change_context change : only other seen (change_context api change).
Proof. unfold change_context, set_config, Save. apply only_bind; [apply only_config|]. steps. Qed.

Lemma only_init_on_machine o m name : only other unseen (init_on_machine api o m name).
Proof.
  unfold init_on_machine. apply only_bind; [apply (only_weaken _ seen); [unfold ask; steps|by left]|]. intros minfo.
  apply only_bind.
  { apply (only_weaken _ seen); [|by left]. destruct (negb _); [apply only_other, only_reset_member|steps]. }
  intros _. apply only_bind.
  { intros s s' r. unfold check_prerequisites. destruct (api_CheckPrerequisites api (st_world s)) as [w [[[] e]|e]]; [| |destruct (Unimplemented e)];
      intros [= <- <-]; exists []; rewrite app_nil_r; split_and!; try done; intros ? [= <-]; [right; by eexists|left; by left]. }
  intros _. apply (only_weaken _ seen); [|by left].
  repeat first [apply only_change_context | apply only_save_connection | apply only_make_others | progress steps].
Qed.

Lemma InitCluster_closes_client o s s' e : cli_InitCluster api scriptBase64 o s = (s', Err e) ->
  exists l, st_log s' = st_log s ++ l /\
    (panicked (exit_error e) = true \/ (exists msg, e = mkExit false (NotSatisfied msg)) \/
     (EvMachineOpened true ∈ l -> EvMachineClosed ∈ l)).
Proof.
  intros Hrun.
  assert (Hlogs : logs (cli_InitCluster api scriptBase64 o) (fun l r => forall e, r = Err e ->
    panicked (exit_error e) = true \/ (exists msg, e = mkExit false (NotSatisfied msg)) \/ (EvMachineOpened true ∈ l -> EvMachineClosed ∈ l))).
  { assert (Hnil : forall {A} (p : prog A), logs p (fun l r => l = []) -> logs p (fun l r => forall e, r = Err e ->
      panicked (exit_error e) = true \/ (exists msg, e = mkExit false (NotSatisfied msg)) \/ (EvMachineOpened true ∈ l -> EvMachineClosed ∈ l))).
    { intros A p Hp. eapply logs_weaken; [exact Hp|]. intros l r -> e' _. right. right. by intros ?%not_elem_of_nil. }
    unfold cli_InitCluster. destruct (io_RemoteMachine o) as [m|]; [|apply Hnil; eapply logs_weaken; [apply logs_fail|by intros ? ? [-> _]]].
    unfold initRemoteMachine. eapply (logs_bind config _ (fun l r => l = [])).
    - unfold config, get_cli. intros s0 s0' r0. unfold st_bind. destruct (cli_Config (st_cli s0)); intros [= <- <-]; exists []; by rewrite app_nil_r.
    - intros l1 e1 -> e2 _. right. right. by intros ?%not_elem_of_nil.
    - intros l1 cfg ->. cbn [app]. destruct (newContextName cfg (io_Context o)) as [name|]; [|apply Hnil; eapply logs_weaken; [apply logs_fail|by intros ? ? [-> _]]].
      eapply logs_weaken.
      { apply (machine_closing_logs _ _ _ _ unseen). intros m'. apply only_init_on_machine. }
      intros l r [_ Hr] e' ->. destruct Hr as [[_ Hno]|[[[Hset|Hp]|[msg He]] Hc]]; [by right; right|right; right; auto|by left|right; left; by exists msg]. }
  destruct (Hlogs _ _ _ Hrun) as (l & Hl & HQ). exists l. split; [done|by apply HQ].
Qed.

(** *** What adding a machine does *)
(** Two specifications of the machine differ in the key alone. *)
Definition same_target (m m' : RemoteMachine) : Prop :=
  rem_Host m = rem_Host m' /\ rem_User m = rem_User m' /\ rem_Port m = rem_Port m' /\ rem_UseSSHGo m = rem_UseSSHGo m'.

(** A program that succeeds without registering anything and keeps the configuration. *)
Definition prepares {A} (p : prog A) (R : A -> Prop) : Prop := forall s s' a, p s = (s', Ok a) ->
  st_cli s' = st_cli s /\ (exists l, st_log s' = st_log s ++ l /\ Forall before_enrolling l) /\ R a.

Lemma prepares_weaken {A} (p : prog A) (R R' : A -> Prop) : prepares p R -> (forall a, R a -> R' a) -> prepares p R'.
Proof. intros Hp HR s s' a Hrun. destruct (Hp _ _ _ Hrun) as (? & ? & ?). auto. Qed.

Lemma prepares_bind {A B} (p : prog A) (k : A -> prog B) (P : A -> Prop) (R : B -> Prop) :
  prepares p P -> (forall a, P a -> prepares (k a) R) -> prepares (st_bind p k) R.
Proof.
  intros Hp Hk s s' b (s1 & a & H1 & H2)%st_bind_Ok. destruct (Hp _ _ _ H1) as (Hc & (l & Hl & Hb) & HP).
  destruct (Hk a HP _ _ _ H2) as (Hc2 & (l2 & Hl2 & Hb2) & HR). split; [congruence|]. split; [|done].
  exists (l ++ l2). rewrite Hl2, Hl, app_assoc. split; [done|]. by apply Forall_app.
Qed.
Lemma prepares_ret {A} (a : A) (R : A -> Prop) : R a -> prepares (st_ret a) R.
Proof. intros HR s s' a' [= <- <-]. split_and!; [done| |done]. exists []. by rewrite app_nil_r. Qed.
Lemma prepares_fail {A} set e (R : A -> Prop) : prepares (fail set e) R.
Proof. by intros s s' a [=]. Qed.
Lemma call_Ok {A} log wrap op (s : state W) s' (a : A) : call log wrap op s = (s', Ok a) ->
  exists w, op (st_world s) = (w, Ok a) /\ s' = mkState (st_cli s) (st_log s ++ log true) w.
Proof. unfold call. destruct (op (st_world s)) as [w [x|e]]; intros [= <- <-]. by exists w. Qed.
Lemma prepares_call {A} log wrap op : Forall before_enrolling (log true) -> prepares (call (A := A) log wrap op) (fun _ => True).
Proof. intros Hlog s s' a (w & _ & ->)%call_Ok. split_and!; [done| |done]. by eexists. Qed.
Lemma prepares_run cmd : prepares (run api cmd) (fun _ => True).
Proof. intros s s' a. unfold run. destruct (api_Run api cmd (st_world s)) as [w x]. intros [= <- <-]. split_and!; [done| |done]. eexists. by split; [|repeat constructor]. Qed.
Lemma prepares_note ev : before_enrolling ev -> prepares (note (W := W) ev) (fun _ => True).
Proof. intros Hev s s' a [= <- <-]. split_and!; [done| |done]. eexists. by split; [|repeat constructor]. Qed.

Lemma closing_Ok {A} ev (p : prog A) s s' a : closing ev p s = (s', Ok a) -> p s = (s', Ok a).
Proof. unfold closing. destruct (p s) as [s1 [x|e]]; [done|]. by destruct (err_set e). Qed.

Ltac prepare := repeat match goal with
  | |- prepares (st_bind _ _) _ => eapply prepares_bind with (P := fun _ => True)
  | |- prepares (st_ret _) _ => by apply prepares_ret
  | |- prepares (fail _ _) _ => apply prepares_fail
  | |- prepares (run _ _) _ => apply prepares_run
  | |- prepares (note _) _ => by apply prepares_note
  | |- prepares (call _ _ _) _ => apply prepares_call; by repeat constructor
  | |- forall _, _ => intros ?
  | |- prepares _ _ => case_match
  end.

Lemma prepares_provisionMachine version : prepares (provisionMachine api scriptBase64 version) (fun _ => True).
Proof. unfold provisionMachine. prepare. Qed.

Lemma prepares_ssh_connect m : prepares (ssh_connect api m) (fun m' => same_target m' m).
Proof.
  intros s s' m'. unfold ssh_connect, ssh_login. destruct (call _ _ _ s) as [s1 [a|e]] eqn:H1.
  - intros [= <- <-]. apply prepares_call in H1 as (? & ? & _); [|by repeat constructor]. by split_and!.
  - destruct (String.eqb _ _); [|done]. destruct (logs_call _ _ _ _ _ _ H1) as (l1 & Hl1 & -> & _).
    assert (Hc : st_cli s1 = st_cli s) by (unfold call in H1; destruct (api_SSHConnect _ _ _) as [? [|]]; by injection H1 as <-).
    intros (s2 & u & H2 & [= <- <-])%st_bind_Ok. apply prepares_call in H2 as (Hc2 & (l2 & Hl2 & Hb) & _); [|by repeat constructor].
    split; [congruence|]. split; [|by split_and!]. eexists. rewrite Hl2, Hl1, <- app_assoc. split; [reflexivity|]. by constructor.
Qed.

Lemma prepares_reset_member yes : prepares (reset_member api yes) (fun _ => True).
Proof. unfold reset_member, promptResetMachine, resetAndWaitMachine, ask. prepare. Qed.

Lemma prepares_check_prerequisites set : prepares (check_prerequisites api set) (fun _ => True).
Proof.
  intros s s' a. unfold check_prerequisites. destruct (api_CheckPrerequisites api (st_world s)) as [w [[[] e]|e]]; [| |destruct (Unimplemented e)];
    intros [= <- <-]; (split_and!; [done| |done]); exists []; by rewrite app_nil_r.
Qed.

Lemma prepares_provision m skip version : prepares (provisionOrConnectRemoteMachine api scriptBase64 m skip version) (fun m' => same_target m' m).
Proof.
  unfold provisionOrConnectRemoteMachine, open_machine. destruct (rem_UseSSHGo m) eqn:Hgo.
  - eapply prepares_bind; [apply prepares_ssh_connect|]. intros m' Hm'. eapply prepares_bind with (P := fun _ => True).
    { destruct skip; [prepare|apply prepares_provisionMachine]. }
    intros _ _. eapply prepares_bind; [apply prepares_call; by repeat constructor|]. intros _ _. by apply prepares_ret.
  - eapply prepares_bind with (P := fun _ => True).
    { destruct skip; [prepare|]. eapply prepares_bind; [apply prepares_provisionMachine|]. prepare. }
    intros _ _. eapply prepares_bind; [apply prepares_call; by repeat constructor|]. intros _ _. by apply prepares_ret.
Qed.

(** The machine is no member: it is in no cluster, or the cluster does not list it. *)
Definition no_member (minfo : MachineInfo) (w : W) : Prop :=
  mi_Id minfo = "" \/ exists w' members, api_ListMachines api w = (w', Ok members) /\ mi_Id minfo ∉ map mi_Id members.

(** Its name is the one given, or one the cluster does not list, made of its host name. *)
Definition named (o : AddOptions) (minfo : MachineInfo) (w w' : W) (name : string) : Prop :=
  if decide (ao_MachineName o = "")
  then exists members, api_ListMachines api w = (w', Ok members) /\ name ∉ map mi_Name members /\
         DefaultMachineName (mi_Hostname minfo) (map mi_Name members) draws = Some name
  else name = ao_MachineName o /\ w' = w.

(** The registration: the key of the token; the endpoints given, or else those of the
    token, on the port given unless it is the default one; the public IP given, or that of
    the token when it is to be detected. *)
Definition registers (o : AddOptions) (t : Token) (req : AddMachineRequest) : Prop :=
  am_PublicIp req = match ao_PublicIP o with
                    | Some a => let a := if IsValid a then a else tk_PublicIP t in if IsValid a then Some (NewIP a) else None
                    | None => None end /\
  exists endpoints, am_Network req = Some (mkNetworkConfig None None endpoints (Some (tk_PublicKey t))) /\
    (ao_Endpoints o <> [] -> endpoints = ao_Endpoints o) /\
    (ao_Endpoints o = [] -> Forall2 (fun e ep => exists port, e = Some (NewIPPort (ap_Addr ep) port) /\
       (ao_Port o = 0%Z \/ ao_Port o = DefaultWireGuardPort -> port = ap_Port ep) /\
       (ao_Port o <> 0%Z -> ao_Port o <> DefaultWireGuardPort -> port = (ao_Port o mod 2 ^ 16)%Z)) endpoints (tk_Endpoints t)).

(** The machine joins as it was added, with the version of the store and with the machines
    of the cluster but itself. *)
Definition joins_with (added : MachineInfo) (version : gmap string Z) (machines : list MachineInfo) (join : JoinClusterRequest) : Prop :=
  jc_Machine join = Some added /\ jc_MinStoreVersion join = version /\
  forall m, m ∈ jc_OtherMachines join <-> m ∈ machines /\ mi_Id m <> mi_Id added.

(** The connection leads to the machine, by the SSH library of Go or by that of the system. *)
Definition connects (m : RemoteMachine) (id : string) (c : MachineConnection) : Prop :=
  let dst := NewSSHDestination (rem_User m) (rem_Host m) (rem_Port m) in
  conn_MachineID c = id /\ if rem_UseSSHGo m then SSHGo c = dst /\ SSH c = "" else SSH c = dst.

(** A context of a configuration with one connection more. *)
Definition connection_added (name : string) (c : MachineConnection) (cfg cfg' : Config) : Prop :=
  CurrentContext cfg' = CurrentContext cfg /\ (forall other, other <> name -> Contexts cfg' !! other = Contexts cfg !! other) /\
  exists ctx ctx', Contexts cfg !! name = Some ctx /\ Contexts cfg' !! name = Some ctx' /\ Connections ctx' = Connections ctx ++ [c].

Lemma add_request_registers o t name : registers o t (add_request o t name).
Proof.
  split.
  { cbn [am_PublicIp add_request]. unfold public_ip. destruct (ao_PublicIP o) as [a|]; [|done]. cbn zeta. destruct (IsValid a) eqn:Ha; by rewrite ?Ha. }
  exists (machine_endpoints o t). split; [done|]. unfold machine_endpoints. split; intros He.
  - by destruct (ao_Endpoints o).
  - rewrite He. apply Forall2_fmap_l, Forall_Forall2_diag, Forall_forall. intros ep _. eexists. split; [reflexivity|].
    destruct (Z.eqb_spec (ao_Port o) 0), (Z.eqb_spec (ao_Port o) DefaultWireGuardPort); cbn; split; tauto || (intros []; contradiction).
Qed.

Lemma join_request_joins o added version machines : joins_with added version machines (join_request_of o added version machines).
Proof. split; [done|]. split; [done|]. intros m. cbn [jc_OtherMachines join_request_of]. rewrite list_elem_of_filter. tauto. Qed.

Lemma saved_connects m m' id : same_target m m' -> connects m' id (saved_connection m id).
Proof.
  intros (Hhost & Huser & Hport & Hgo). unfold connects, saved_connection. rewrite <- Hhost, <- Huser, <- Hport, <- Hgo.
  by destruct (rem_UseSSHGo m).
Qed.

Lemma leave_cluster_no_member o minfo s s' u : leave_cluster api o minfo s = (s', Ok u) -> no_member minfo (st_world s).
Proof.
  unfold leave_cluster, no_member. destruct (String.eqb_spec (mi_Id minfo) "") as [He|Hne]; [by left|]. intros Hrun. right. revert Hrun.
  intros (s1 & members & (w & Hw & ->)%call_Ok & H2)%st_bind_Ok. exists w, members. split; [done|].
  destruct (existsb _ _) eqn:Hex; [done|]. intros (m & Hm & Hin)%list_elem_of_fmap_1.
  assert (existsb (fun m => String.eqb (mi_Id m) (mi_Id minfo)) members = true); [|congruence].
  apply existsb_exists. exists m. split; [by apply list_elem_of_In|]. rewrite Hm. apply String.eqb_refl.
Qed.

Lemma prepares_leave_cluster o minfo : prepares (leave_cluster api o minfo) (fun _ => True).
Proof. unfold leave_cluster, ask. destruct (String.eqb _ _); [prepare|]. prepare. apply prepares_reset_member. Qed.

Lemma machine_name_named o minfo s s' name : machine_name api draws o minfo s = (s', Ok name) ->
  st_cli s' = st_cli s /\ st_log s' = st_log s /\ named o minfo (st_world s) (st_world s') name.
Proof.
  unfold machine_name, named. destruct (String.eqb_spec (ao_MachineName o) "") as [He|Hne].
  - intros (s1 & members & (w & Hw & ->)%call_Ok & H2)%st_bind_Ok. rewrite decide_True by done.
    pose proof (DefaultMachineName_spec (mi_Hostname minfo) (map mi_Name members) draws) as Hspec.
    destruct (DefaultMachineName _ _ _) as [n|] eqn:Hn; [|done]. injection H2 as <- <-. cbn. rewrite app_nil_r.
    split_and!; [done|done|]. exists members. by destruct Hspec.
  - intros [= <- <-]. rewrite decide_False by done. done.
Qed.

(** The version in the answer, or none of a machine that does not know the call. *)
Definition version_answered (w w' : W) (version : gmap string Z) : Prop :=
  match api_StoreVersions api w with
  | (w1, r) => w' = w1 /\ match r with Ok vs => head vs = Some version | Err e => Unimplemented e = true /\ version = ∅ end
  end.

Lemma store_version_answered s s' version : store_version api s = (s', Ok version) ->
  st_cli s' = st_cli s /\ st_log s' = st_log s /\ version_answered (st_world s) (st_world s') version.
Proof.
  unfold store_version, version_answered. destruct (api_StoreVersions api (st_world s)) as [w [[|v vs]|e]]; [done| |destruct (Unimplemented e) eqn:Hu; [|done]];
    by intros [= <- <-].
Qed.

Lemma save_connection_Ok name c s s' u : save_connection api name c s = (s', Ok u) ->
  exists cfg cfg', cli_Config (st_cli s) = Some cfg /\ connection_added name c cfg cfg' /\
    api_Save api cfg' (st_world s) = (st_world s', Ok tt) /\ st_log s' = st_log s ++ [EvSave cfg' true].
Proof.
  unfold save_connection, config, get_cli, set_config, put_cli, Save, call, st_bind.
  destruct (cli_Config (st_cli s)) as [cfg|]; [|done]. cbn. destruct (Contexts cfg !! name) as [ctx|] eqn:Hctx; [|done]. cbn.
  destruct (api_Save api _ _) as [w [[]|e]] eqn:Hsave; intros [= <- <-]. eexists cfg, _. split; [done|]. split; [|by split; [exact Hsave|]].
  split; [done|]. split; [intros other Hne; by apply lookup_alter_ne|]. eexists ctx, _. split; [done|]. cbn [add_connection Contexts].
  by rewrite lookup_alter_eq, Hctx.
Qed.

(** The calls of a machine that is added, each made where the one before it left the world:
    the answers are those that the registration, the joining and the saved connection are
    made of, and nothing else is registered, joined or saved. *)
Definition enrolled (o : AddOptions) (s s' : state W) (added : MachineInfo) : Prop :=
  exists minfo text token req version members join cfg c cfg' pre w0 w1 w2 w3 w4 w5 w6 w7 w8,
    (* a machine that is no member, and its token *)
    api_Inspect api w0 = (w1, Ok minfo) /\ no_member minfo w1 /\
    api_Token api w2 = (w3, Ok text) /\ ParseToken text = Ok token /\
    (* its registration *)
    named o minfo w3 w4 (am_Name req) /\ registers o token req /\ api_AddMachine api req w4 = (w5, Ok added) /\
    (* its joining *)
    version_answered w5 w6 version /\ api_ListMachines api w6 = (w7, Ok members) /\
    joins_with added version members join /\ api_Join api join w7 = (w8, Ok tt) /\
    (* its connection, in the context in use *)
    cli_Config (st_cli s) = Some cfg /\ connects (ao_RemoteMachine o) (mi_Id added) c /\
    connection_added (ContextOverrideOrCurrent (st_cli s)) c cfg cfg' /\ api_Save api cfg' w8 = (st_world s', Ok tt) /\
    (* what was done, in order *)
    st_log s' = st_log s ++ pre ++ [EvRegister req true; EvJoin join true; EvSave cfg' true] /\ Forall before_enrolling pre.

Lemma add_on_machine_enrolled o m s s' added : same_target m (ao_RemoteMachine o) ->
  add_on_machine api draws o m (ContextOverrideOrCurrent (st_cli s)) s = (s', Ok added) -> enrolled o s s' added.
Proof.
  intros Hm. unfold add_on_machine, ask.
  intros (s1 & minfo & (w1 & Hinspect & ->)%call_Ok & Hrun)%st_bind_Ok. apply st_bind_Ok in Hrun as (s2 & [] & Hleave & Hrun).
  pose proof (leave_cluster_no_member _ _ _ _ _ Hleave) as Hno. destruct (prepares_leave_cluster _ _ _ _ _ Hleave) as (Hc2 & (l2 & Hl2 & Hb2) & _).
  apply st_bind_Ok in Hrun as (s3 & [] & (Hc3 & (l3 & Hl3 & Hb3) & _)%prepares_check_prerequisites & Hrun).
  apply st_bind_Ok in Hrun as (s4 & text & (w3 & Htoken & ->)%call_Ok & Hrun). destruct (ParseToken text) as [token|] eqn:Hparse; [|done].
  apply st_bind_Ok in Hrun as (s5 & name & (Hc5 & Hl5 & Hname)%machine_name_named & Hrun). cbn zeta in Hrun.
  apply st_bind_Ok in Hrun as (s6 & added1 & (w5 & Hadd & ->)%call_Ok & Hrun).
  apply st_bind_Ok in Hrun as (s7 & version & (Hc7 & Hl7 & Hversion)%store_version_answered & Hrun).
  apply st_bind_Ok in Hrun as (s8 & members & (w7 & Hlist & ->)%call_Ok & Hrun).
  apply st_bind_Ok in Hrun as (s9 & [] & Hmake & Hrun).
  apply st_bind_Ok in Hrun as (s10 & [] & (w8 & Hjoin & ->)%call_Ok & Hrun).
  apply st_bind_Ok in Hrun as (s11 & [] & (cfg & cfg' & Hcfg & Hadded & Hsave & Hl11)%save_connection_Ok & [= <- <-]).
  destruct members as [|m0 members]; [done|]. injection Hmake as <-. cbn in *.
  exists minfo, text, token, (add_request o token name), version, (m0 :: members), (join_request_of o added1 version (m0 :: members)),
    cfg, (saved_connection m (mi_Id added1)), cfg', (l2 ++ l3), (st_world s), w1, (st_world s3), w3, (st_world s5), w5, (st_world s7), w7, w8.
  split_and!; try done.
  - apply add_request_registers.
  - apply join_request_joins.
  - congruence.
  - by apply saved_connects.
  - rewrite Hl11, Hl7, Hl5, Hl3, Hl2, !app_nil_r. by rewrite <- !app_assoc.
  - by apply Forall_app.
Qed.

(** C35: a machine that [AddMachine] returns is no member, and was registered with the key,
    the endpoints and the public IP that its token and the options give, then told to join
    with the version of the store and exactly the other machines the cluster lists after the
    registration, and then its connection was appended to those of the context in use and
    saved: every answer is that of the call made at that point, and nothing else was
    registered, joined or saved. *)
Theorem AddMachine_joins o s s' added : cli_AddMachine api scriptBase64 draws o s = (s', Ok added) -> enrolled o s s' added.
Proof.
  unfold cli_AddMachine. intros (s1 & cli & [= <- <-] & Hrun)%st_bind_Ok.
  apply st_bind_Ok in Hrun as (s2 & [] & (w & Hopen & ->)%call_Ok & Hrun). apply closing_Ok in Hrun.
  apply st_bind_Ok in Hrun as (s3 & m & (Hc & (l & Hl & Hb) & Hm)%prepares_provision & Hrun%closing_Ok).
  rewrite <- Hc in Hrun at 1. cbn in Hc.
  destruct (add_on_machine_enrolled o m _ _ _ Hm Hrun) as (minfo & text & token & req & version & members & join & cfg & c & cfg' & pre & Hchain).
  exists minfo, text, token, req, version, members, join, cfg, c, cfg', (EvClusterOpened true :: l ++ pre).
  destruct Hchain as (w0 & w1 & w2 & w3 & w4 & w5 & w6 & w7 & w8 & Hchain). exists w0, w1, w2, w3, w4, w5, w6, w7, w8.
  rewrite Hl, Hc in Hchain. cbn in Hchain. destruct Hchain as (?&?&?&?&?&?&?&?&?&?&?&?&?&?&?& Hlog & Hpre). split_and!; try done.
  - rewrite Hlog. cbn. by rewrite <- !app_assoc, <- app_comm_cons.
  - constructor; [done|]. by apply Forall_app.
Qed.

(** *** Removing a machine *)
Definition stop_and_remove (c : container_id) : list event := [EvStop c; EvRemoveContainer c].

Lemma attempt_logs log op : logs (W := W) (attempt log op) (fun l r => l = log /\ exists o, r = Ok o).
Proof. intros s s' r. unfold attempt. destruct (op (st_world s)) as [w x]. intros [= <- <-]. exists log. split; [done|]. split; [done|by eexists]. Qed.

Lemma removeContainers_logs cs : logs (removeContainers api cs) (fun l r => l = concat (map stop_and_remove cs) /\ exists errs, r = Ok errs).
Proof.
  induction cs as [|c cs IH]; cbn [removeContainers map concat].
  - eapply logs_weaken; [apply logs_ret|]. intros l r [-> ->]. split; [done|by eexists].
  - eapply logs_bind; [apply attempt_logs|by intros ? ? [_ [? ?]]|]. intros l1 stopped [-> _].
    eapply logs_bind; [apply attempt_logs|by intros ? ? [_ [? ?]]|]. intros l2 removed [-> _].
    eapply logs_bind; [exact IH|by intros ? ? [_ [? ?]]|]. intros l3 errs [-> _].
    eapply logs_weaken; [apply logs_ret|]. intros l r [-> ->]. rewrite app_nil_r. split; [done|by eexists].
Qed.

(** Programs that log nothing. *)
Definition silent {A} (p : prog A) : Prop := logs p (fun l _ => l = []).

Lemma silent_ask {A} wrap (op : W -> W * result rpc_error A) : silent (ask wrap op).
Proof. eapply logs_weaken; [apply logs_call|by intros l r [-> _]]. Qed.
Lemma silent_ret {A} (a : A) : silent (st_ret a).
Proof. eapply logs_weaken; [apply logs_ret|by intros l r [-> _]]. Qed.
Lemma silent_fail {A} set e : silent (fail (A := A) set e).
Proof. eapply logs_weaken; [apply logs_fail|by intros l r [-> _]]. Qed.
Lemma logs_silent {A B} (p : prog A) (k : A -> prog B) Q : silent p -> (forall e, Q [] (Err e)) -> (forall a, logs (k a) Q) -> logs (st_bind p k) Q.
Proof. intros Hp He Hk. eapply logs_bind; [exact Hp|by intros l e ->|]. intros l a ->. apply Hk. Qed.
Lemma silent_bind {A B} (p : prog A) (k : A -> prog B) : silent p -> (forall a, silent (k a)) -> silent (st_bind p k).
Proof. intros Hp Hk. by apply logs_silent. Qed.
Lemma silent_config : silent config.
Proof. apply silent_bind; [by intros s s' r [= <- <-]; exists []; rewrite app_nil_r|]. intros cli. destruct (cli_Config cli); [apply silent_ret|apply silent_fail]. Qed.

Ltac silence := repeat first [apply silent_config | apply silent_bind | apply silent_ask | apply silent_ret | apply silent_fail
  | match goal with |- forall _, _ => intros ? end | case_match ].

(** What happens before the machine is unregistered, when its containers could be listed or
    not. *)
Definition evacuated (id : string) (containers : option (list container_id)) : list event :=
  concat (map stop_and_remove (default [] containers)) ++ match containers with Some _ => [EvResetMember id] | None => [] end.

Lemma evacuated_registered id id' ok containers : EvUnregister id' ok ∉ evacuated id containers.
Proof.
  unfold evacuated. rewrite elem_of_app. intros [Hin|Hin].
  - induction (default [] containers) as [|c cs IH]; [by apply not_elem_of_nil in Hin|].
    cbn in Hin. by apply elem_of_cons in Hin as [?|[?|Hin]%elem_of_cons].
  - destruct containers; [apply elem_of_cons in Hin as [?|Hin]; [done|]|]; by apply not_elem_of_nil in Hin.
Qed.

Lemma evacuate_logs id containers : logs (evacuate api id containers)
  (fun l r => match r with Ok _ => l = evacuated id containers | Err _ => forall ok, EvUnregister id ok ∉ l end).
Proof.
  eapply logs_bind; [apply removeContainers_logs|by intros ? ? [_ [? ?]]|]. intros l errs [-> _].
  eapply (logs_bind _ _ (fun l _ => l = [])); [destruct (decide (errs = [])); [apply silent_ret|apply silent_fail]| |].
  - intros l e -> ok. rewrite app_nil_r. intros Hin. apply (evacuated_registered id id ok containers), elem_of_app. by left.
  - intros l u ->. cbn [app]. unfold evacuated. destruct containers as [cs|].
    + eapply logs_bind; [apply attempt_logs|by intros ? ? [_ [? ?]]|]. intros l0 x [-> _].
      eapply logs_weaken; [apply logs_ret|]. by intros l r [-> ->].
    + eapply logs_weaken; [apply logs_ret|]. by intros l r [-> ->].
Qed.

(** A machine leaves the cluster only after all its containers were removed without an
    error and its reset was asked for, unless it is unreachable or is not to be reset. *)
Lemma remove_member_order o m : logs (remove_member api o m) (fun l _ => EvUnregister (mi_Id m) true ∈ l ->
  exists containers save, l = evacuated (mi_Id m) containers ++ EvUnregister (mi_Id m) true :: save /\
    (noReset o = true -> containers = None)).
Proof.
  unfold remove_member. apply logs_silent; [unfold check_connected; silence|by intros e Hin%not_elem_of_nil|].
  intros u. eapply (logs_bind _ _ (fun l r => l = [] /\ forall containers, r = Ok containers -> noReset o = true -> containers = None)).
  { intros s s' r. unfold reachable_containers. destruct (noReset o); [intros [= <- <-]; exists []; rewrite app_nil_r; split_and!; [done|done|by intros ? [= <-]]|].
    destruct (api_ListContainers api (mi_Id m) (st_world s)) as [w x]. intros [= <- <-]. exists []. by rewrite app_nil_r. }
  { by intros l e [-> _] Hin%not_elem_of_nil. }
  intros l containers [-> Hreset]. specialize (Hreset _ eq_refl). cbn [app].
  apply logs_silent; [unfold promptResetMachine; silence|by intros e Hin%not_elem_of_nil|]. intros u'.
  eapply logs_bind; [apply evacuate_logs|by intros l e Hno Hin%Hno|]. intros l [] ->.
  eapply logs_bind; [apply logs_call| |].
  - intros l e [-> _] [Hin|[?|Hin]%elem_of_cons]%elem_of_app; [by apply evacuated_registered in Hin|done|by apply not_elem_of_nil in Hin].
  - intros l [] [-> _]. assert (Ho : only (fun _ => True) seen (forget_connection api (mi_Id m))).
    { unfold forget_connection, set_config, Save. steps. }
    eapply logs_weaken; [exact Ho|]. intros save r _ _. by exists containers, save.
Qed.
End EnrolSpec.

(** *** The machine that is connected to *)
(** It is not removed while there are others; without a configuration the message panics. *)
Lemma remove_connected_refused {W} (api : Api W) o m cli log w w1 w2 machines :
  api_Connected api w = (w1, Ok (mi_Id m)) -> api_ListMachines api w1 = (w2, Ok machines) -> (1 < length machines)%nat ->
  remove_member api o m (mkState cli log w) = (mkState cli log w2,
    Err (match cli_Config cli with Some cfg => mkExit true (ConnectedMachine (cfg_path cfg)) | None => mkExit false NilConfigPanic end)).
Proof.
  intros Hc Hl Hlen. unfold remove_member, check_connected, ask, call, st_bind. cbn [st_world]. rewrite Hc. cbn [st_world]. rewrite String.eqb_refl.
  cbn [st_world]. rewrite Hl. destruct (Nat.ltb_spec 1 (length machines)); [|lia]. unfold config, get_cli, st_bind. cbn. rewrite !app_nil_r.
  by destruct (cli_Config cli).
Qed.

(** *** The installed script *)
Lemma digit64_safe v : (0 <= v < 64)%Z -> safe_char (digit64 v) = true.
Proof.
  intros Hv. assert (Hall : forallb (fun k => safe_char (digit64 (Z.of_nat k))) (seq 0 64) = true) by (vm_compute; reflexivity).
  rewrite forallb_forall in Hall. specialize (Hall (Z.to_nat v)). rewrite Z2Nat.id in Hall by lia. apply Hall, in_seq. lia.
Qed.

Lemma EncodeToString_safe : forall n s, (String.length s <= n)%nat -> all_chars safe_char (EncodeToString s) = true.
Proof.
  induction n as [|n IH]; intros s Hn; [by destruct s; [|cbn in Hn; lia]|]. destruct s as [|a [|b [|c s]]]; [done| | |]; cbn [EncodeToString all_chars].
  1-2: pose proof (byte_val_range a); try pose proof (byte_val_range b); rewrite !digit64_safe by (Z.div_mod_to_equations; lia); done.
  pose proof (byte_val_range a). pose proof (byte_val_range b). pose proof (byte_val_range c). cbn [String.length] in Hn.
  rewrite !digit64_safe by (Z.div_mod_to_equations; lia). cbn [andb]. apply IH. lia.
Qed.

(** The daemon is installed by the pipeline that is meant, for every user and version. *)
Lemma install_command_words script user version : script <> "" ->
  sh_tokens (install_command (EncodeToString script) user version) =
    Some [Word "bash"; Word "-c"; Word ("set -o pipefail; " +:+ installCmd (EncodeToString script) user version)] /\
  sh_tokens (installCmd (EncodeToString script) user version) = Some (install_words (EncodeToString script) user version).
Proof.
  intros Hne. assert (Hs : all_chars safe_char (EncodeToString script) = true) by (by eapply EncodeToString_safe).
  assert (He : EncodeToString script <> "") by (destruct script as [|? [|? [|? ?]]]; done).
  destruct (installCmd_words (EncodeToString script) user version Hs He). done.
Qed.

(** ** Examples *)
Section Demo.
#[local] Instance demo_json : TokenJSON :=
  {| marshal_token _ := Some "{}"; unmarshal_token _ := Some (mkToken "key" NoAddr [mkAddrPort (Addr4 167772162) 51820]) |}.

Definition demo_machine (id name : string) : MachineInfo := mkMachineInfo id name None None "" "" "host" "" "" "".

(** Every call succeeds; the prerequisites may not be satisfied, and joining may fail. *)
Definition demo_api (satisfied joins : bool) : Api unit :=
  let ok {A} (a : A) (w : unit) : unit * result rpc_error A := (w, Ok a) in
  mkApi unit (fun _ => ok tt) (fun _ w => (w, ("root", None))) (fun _ => ok tt) (ok tt) (fun _ => ok tt)
    (ok (demo_machine "" "")) (ok tt) (ok tt) (ok (satisfied, "port 53 is in use")) (fun _ => ok (demo_machine "m2" "new")) (ok "mtkn:e30=")
    (fun _ w => (w, if joins then Ok tt else Err (mkRpc "timeout" false false)))
    (ok [demo_machine "m1" "one"; demo_machine "m2" "host"]) (fun _ => ok (demo_machine "m2" "host")) (ok [∅])
    (fun _ => ok (demo_machine "m1" "one")) (ok "m1") (fun _ => ok []) (fun _ => ok tt) (fun _ => ok tt) (fun _ => ok tt) (fun _ => ok tt)
    (ok true) (fun _ => ok tt).

Definition demo_remote : RemoteMachine := mkRemote "root" "10.0.0.2" 0 "" false.
Definition demo_cfg : Config := mkConfig "prod" {["prod" := mkContext "" [ssh_connection "root@10.0.0.1"]]} "config.yaml".
Definition demo_add : AddOptions := mkAddOptions "" None demo_remote true "" false [] 0 51821.
Definition demo_init : InitOptions := mkInitOptions "" "" NoPrefix None (Some demo_remote) true "" false [] 0 51820.
Definition no_draws : nat -> draw := fun _ => None.
Definition demo_run (satisfied joins : bool) (cli : CLI) :=
  cli_AddMachine (demo_api satisfied joins) "c2NyaXB0" no_draws demo_add (mkState cli [] tt).
Definition with_config : CLI := mkCLI (Some demo_cfg) None "".
Definition with_connection : CLI := mkCLI None (Some (ssh_connection "root@10.0.0.1")) "".

(** The prerequisites are not satisfied: the client of the machine stays open. *)
Example unsatisfied_leaks_the_client :
  cli_InitCluster (demo_api false true) "c2NyaXB0" demo_init (mkState with_config [] tt) =
  (mkState with_config [EvMachineOpened true] tt, Err (mkExit false (NotSatisfied "port 53 is in use"))).
Proof. vm_compute. reflexivity. Qed.

(** The machine is added, has joined, and then the command panics: with [--connect] there
    is no configuration to save the connection to. *)
Example direct_connection_panics :
  snd (demo_run true true with_connection) = Err (mkExit false NilConfigPanic) /\
  exists req join, st_log (fst (demo_run true true with_connection)) =
    [EvClusterOpened true; EvMachineOpened true; EvRegister req true; EvJoin join true].
Proof. split; [vm_compute; reflexivity|]. eexists _, _. vm_compute. reflexivity. Qed.

(** A machine that fails to join stays registered in the cluster. *)
Example failed_join_stays_registered :
  exists req join, st_log (fst (demo_run true false with_config)) =
    [EvClusterOpened true; EvMachineOpened true; EvRegister req true; EvJoin join false; EvMachineClosed; EvClusterClosed].
Proof. eexists _, _. vm_compute. reflexivity. Qed.

Lemma demo_joined : exists s', demo_run true true with_config = (s', Ok (demo_machine "m2" "host")).
Proof. eexists. vm_compute. reflexivity. Qed.

Lemma AddMachine_joins_witness :
  exists s' added, demo_run true true with_config = (s', Ok added) /\ enrolled (demo_api true true) no_draws demo_add (mkState with_config [] tt) s' added.
Proof.
  destruct demo_joined as [s' Hs']. exists s', (demo_machine "m2" "host"). split; [exact Hs'|].
  exact (AddMachine_joins _ _ _ _ (mkState with_config [] tt) _ _ Hs').
Defined.

End Demo.
