(* ===== verification/ContainerSync.v ===== *)
(** * ContainerSync: the containers of a machine in the cluster store

    The container records of [internal/machine/store/container.go] and the controller of
    [internal/machine/docker/controller.go], which keeps the records of its machine equal
    to the containers of the local Docker daemon: one synchronisation, and the loop that
    starts one for Docker events, debounced, and at regular intervals.

    The fields of a Docker container the code does not touch are one text; the encoding of
    a container is a parameter, as is [time.Parse]. *)

From S2P Require Import Prelude GoStrings NetAddr Proto Corrosion Store Port Volume ConfigSpec Spec.
#[local] Open Scope Z_scope.

(** ** Records *)
Record MountPoint := mkMountPoint { mp_Destination : string; mp_Source : string; mp_Rest : string }.

Record StoredContainer := mkStored {
  sc_ID : string; sc_Env : slice string; sc_Mounts : list MountPoint; sc_Spec : ServiceSpec; sc_Rest : string }.

Definition SyncStatusSynced : string := "synced".

Record ContainerRecord := mkRecord {
  cr_Container : StoredContainer; cr_MachineID : string; cr_SyncStatus : string; cr_UpdatedAt : Z }.

Record ListOptions := mkListOptions { lo_MachineIDs : list string; lo_ServiceID : string; lo_ServiceName : string }.
Record DeleteOptions := mkDeleteOptions { do_IDs : list string; do_MachineIDs : list string }.

(** ** [normaliseContainerForStore] *)
Definition without_env (s : ServiceSpec) : ServiceSpec :=
  let c := Container_ s in
  mkServiceSpec (Caddy s) (Configs s)
    (mkContainerSpec (CapAdd c) (CapDrop c) (Command c) (Entrypoint c) None (Healthcheck c)
      (Image c) (Init c) (LogDriver_ c) (PidMode c) (Tty c) (OpenStdin c) (Privileged c) (PullPolicy c)
      (Resources c) (StopGracePeriod c) (Sysctls c) (User c) (VolumeMounts c) (ConfigMounts c) (CVolumes c))
    (SMode s) (SName s) (Placement_ s) (Ports s) (PreDeploy s) (Replicas s) (UpdateConfig_ s) (Volumes s).

(** [cmp.Or] of the two comparisons is negative. *)
Definition mount_less (a b : MountPoint) : bool :=
  match String.compare (mp_Destination a) (mp_Destination b) with
  | Lt => true
  | Gt => false
  | Eq => match String.compare (mp_Source a) (mp_Source b) with Lt => true | _ => false end
  end.

Definition normaliseContainerForStore `{GoSort} (c : StoredContainer) : StoredContainer :=
  mkStored (sc_ID c) None (sort_slice mount_less (sc_Mounts c)) (without_env (sc_Spec c)) (sc_Rest c).

Class ContainerJSON := {
  ctr_Marshal : StoredContainer -> option string;
  ctr_Unmarshal : string -> option StoredContainer;
  parse_time : string -> option Z                      (* time.Parse(time.DateTime, s) *)
}.

(** The statements on the [containers] table. *)
Record Containers (W : Type) := mkContainers {
  q_containers : ListOptions -> W -> response;          (* the join with machines *)
  x_upsert_container : string -> string -> string -> string -> W -> W * exec_response;  (* id, container, machine_id, sync_status *)
  x_delete : DeleteOptions -> W -> W * exec_response
}.
Arguments q_containers {W}. Arguments x_upsert_container {W}. Arguments x_delete {W}.

Inductive sync_error {E : Type} :=
| SListQuery (e : query_error) | SScan (e : scan_error) | SUnmarshal | SParseTime
| SDocker (e : E) | SMarshal | SUpsert (id : string) (e : exec_error) | SDelete (e : exec_error) | SMarshalOf (id : string).
Arguments sync_error : clear implicits.

Section Sync.
Context `{GoSort} {CJ : ContainerJSON} {W E : Type} (db : Containers W).
(** The containers of the local daemon: regular ones and hooks. *)
Context (list_docker : W -> result E (list StoredContainer * list StoredContainer)).

Definition CreateOrUpdateContainer (c : StoredContainer) (machineID : string) (w : W) : W * result (sync_error E) unit :=
  let c := normaliseContainerForStore c in
  match ctr_Marshal c with
  | None => (w, Err (SMarshalOf (sc_ID c)))
  | Some cJSON =>
      let (w', r) := x_upsert_container db (sc_ID c) cJSON machineID SyncStatusSynced w in
      (w', match ExecContext r with Err e => Err (SUpsert (sc_ID c) e) | Ok _ => Ok tt end)
  end.

(** A row of [ListContainers]; [None]: skipped.  The variables are shared between the
    rows; the columns are texts, so that each row sets them all. *)
Definition container_row (columns : list string) (row : RowEvent) : result (sync_error E) (option ContainerRecord) :=
  match Scan (mkRows [] None true columns row None false) [""; ""; ""; ""; ""] with
  | Err e => Err (SScan e)
  | Ok vs =>
      let cJSON := nth 1 vs "" in
      if String.eqb cJSON "" || String.eqb cJSON "{}" then Ok None
      else match ctr_Unmarshal cJSON with
      | None => Err SUnmarshal
      | Some c => match parse_time (nth 4 vs "") with
                  | None => Err SParseTime
                  | Some t => Ok (Some (mkRecord c (nth 2 vs "") (nth 3 vs "") t))
                  end
      end
  end.

Fixpoint container_rows (columns : list string) (rows : list RowEvent) : result (sync_error E) (list ContainerRecord) :=
  match rows with
  | [] => Ok []
  | row :: rest =>
      match container_row columns row with
      | Err e => Err e
      | Ok r => match container_rows columns rest with
                | Err e => Err e
                | Ok l => Ok (match r with Some c => c :: l | None => l end)
                end
      end
  end.

Definition ListContainers (opts : ListOptions) (w : W) : result (sync_error E) (list ContainerRecord) :=
  match QueryContext (q_containers db opts w) with
  | Err e => Err (SListQuery e)
  | Ok rows => container_rows (rs_columns rows) (fst (all_rows rows))
  end.

Definition DeleteContainers (opts : DeleteOptions) (w : W) : W * result (sync_error E) unit :=
  let (w', r) := x_delete db opts w in
  (w', match ExecContext r with Err e => Err (SDelete e) | Ok _ => Ok tt end).

(** ** [syncContainersToStore] *)

(** The records whose container the daemon does not have. *)
Definition stale_ids (stored : list ContainerRecord) (containers : list StoredContainer) : list string :=
  map (fun r => sc_ID (cr_Container r))
    (filter (fun r => sc_ID (cr_Container r) ∉ map sc_ID containers) stored).

Fixpoint upsert_all (machineID : string) (containers : list StoredContainer) (w : W) : W * list (sync_error E) :=
  match containers with
  | [] => (w, [])
  | c :: rest =>
      let (w1, r) := CreateOrUpdateContainer c machineID w in
      let (w2, errs) := upsert_all machineID rest w1 in
      (w2, match r with Ok _ => errs | Err e => e :: errs end)
  end.

(** The errors of the writes are joined; an empty list is success. *)
Definition syncContainersToStore (machineID : string) (w : W) : W * list (sync_error E) :=
  match ListContainers (mkListOptions [machineID] "" "") w with
  | Err e => (w, [e])
  | Ok stored =>
      match list_docker w with
      | Err e => (w, [SDocker e])
      | Ok (regular, hooks) =>
          let containers := regular ++ hooks in
          let deleteIDs := stale_ids stored containers in
          let '(w1, errs) := match deleteIDs with
            | [] => (w, [])
            | _ => match DeleteContainers (mkDeleteOptions deleteIDs []) w with
                   | (w1, Ok _) => (w1, [])
                   | (w1, Err e) => (w1, [e])
                   end
            end in
          let (w2, errs') := upsert_all machineID containers w1 in
          (w2, errs ++ errs')
      end
  end.
End Sync.

(** ** The table

    A row: the encoded container, its machine, its status and when it was updated.  The
    upsert writes a row only when its container or machine changes.  Only records of
    machines in the cluster are listed, and a listing may break off. *)
Record row := mkTableRow { r_container : string; r_machine : string; r_status : string; r_updated : string }.

Definition container_columns : list string := ["id"; "container"; "machine_id"; "sync_status"; "updated_at"].
Definition container_values (kr : string * row) : list string :=
  [kr.1; r_container kr.2; r_machine kr.2; r_status kr.2; r_updated kr.2].

Class ContainerTable {W : Type} (db : Containers W) := {
  ctr_rows : W -> gmap string row;
  in_cluster : W -> string -> bool;
  (** The records of a machine, in the order of their listing. *)
  ctr_order : string -> W -> list (string * row);
  ctr_order_all : forall id w k r, (k, r) ∈ ctr_order id w <->
    ctr_rows w !! k = Some r /\ r_machine r = id /\ r_status r = SyncStatusSynced /\ in_cluster w id = true;

  containers_listed : forall id w,
    listed container_columns (map container_values (ctr_order id w)) (q_containers db (mkListOptions [id] "" "") w);
  container_upserted : forall id c m st w w' x, x_upsert_container db id c m st w = (w', x) ->
    (forall k, in_cluster w' k = in_cluster w k) /\
    ((exists now, ctr_rows w' = match ctr_rows w !! id with
      | Some r => if String.eqb (r_container r) c && String.eqb (r_machine r) m then ctr_rows w
                  else <[id := mkTableRow c m st now]> (ctr_rows w)
      | None => <[id := mkTableRow c m st now]> (ctr_rows w) end) \/
     ctr_rows w' = ctr_rows w /\ exec_fails x);
  rows_deleted : forall ids w w' x, ids <> [] -> x_delete db (mkDeleteOptions ids []) w = (w', x) ->
    (forall k, in_cluster w' k = in_cluster w k) /\
    (ctr_rows w' = filter (fun kr => kr.1 ∉ ids) (ctr_rows w) \/ ctr_rows w' = ctr_rows w /\ exec_fails x)
}.

(** The listing of the records of a machine does not break off. *)
Definition whole_list {W} (db : Containers W) `{!ContainerTable db} (machineID : string) (w : W) : Prop :=
  whole container_columns (map container_values (ctr_order machineID w)) (q_containers db (mkListOptions [machineID] "" "") w).

Class ContainerJSONSpec `{ContainerJSON} : Prop := {
  (** Containers come back from the store, with their IDs, and are not empty objects. *)
  ctr_roundtrip : forall c s, ctr_Marshal c = Some s -> ctr_Unmarshal s = Some c /\ s <> "" /\ s <> "{}"
}.

(** The records of a machine are those the controller writes. *)
Definition table_ok `{ContainerJSON} {W} (db : Containers W) `{!ContainerTable db} (machineID : string) (w : W) : Prop :=
  forall k r, ctr_rows w !! k = Some r -> r_machine r = machineID ->
    r_status r = SyncStatusSynced /\ r_container r <> "" /\ r_container r <> "{}" /\
    (exists c, ctr_Unmarshal (r_container r) = Some c /\ sc_ID c = k) /\ exists t, parse_time (r_updated r) = Some t.

(** Times in the table are readable. *)
Definition times_ok `{ContainerJSON} {W} (db : Containers W) `{!ContainerTable db} : Prop :=
  forall id c m st w w' x k r, x_upsert_container db id c m st w = (w', x) ->
    ctr_rows w' !! k = Some r -> ctr_rows w !! k = Some r \/ exists t, parse_time (r_updated r) = Some t.

Section SyncFacts.
Context `{GoSort} {CJ : ContainerJSON} {CJS : ContainerJSONSpec} {W E : Type} (db : Containers W) {TB : ContainerTable db}.
Context (Htimes : times_ok db).

(** The row holds the container for the machine. *)
Definition holds (machineID : string) (c : StoredContainer) (r : row) : Prop :=
  r_machine r = machineID /\ ctr_Marshal (normaliseContainerForStore c) = Some (r_container r).

Lemma CreateOrUpdate_ok c machineID w w' : table_ok db machineID w ->
  CreateOrUpdateContainer (E := E) db c machineID w = (w', Ok tt) ->
  (forall k, in_cluster w' k = in_cluster w k) /\
  (exists r, ctr_rows w' !! sc_ID c = Some r /\ holds machineID c r) /\
  (forall k, k <> sc_ID c -> ctr_rows w' !! k = ctr_rows w !! k) /\ table_ok db machineID w'.
Proof.
  intros Hok. unfold CreateOrUpdateContainer.
  destruct (ctr_Marshal (normaliseContainerForStore c)) as [text|] eqn:Hm; [|done].
  change (sc_ID (normaliseContainerForStore c)) with (sc_ID c).
  destruct (x_upsert_container db (sc_ID c) text machineID SyncStatusSynced w) as [w1 x] eqn:Hx.
  destruct (ExecContext x) as [res|e] eqn:Hexec; [|done]. intros [= <-].
  destruct (container_upserted _ _ _ _ _ _ _ Hx) as [Hin [(now & Hrows)|[_ [e He]]]]; [|congruence].
  destruct (ctr_roundtrip _ _ Hm) as (Hu & Hne1 & Hne2).
  assert (Hcase : (exists r, ctr_rows w !! sc_ID c = Some r /\ r_container r = text /\ r_machine r = machineID /\ ctr_rows w1 = ctr_rows w) \/
    ctr_rows w1 = <[sc_ID c := mkTableRow text machineID SyncStatusSynced now]> (ctr_rows w)).
  { destruct (ctr_rows w !! sc_ID c) as [r|] eqn:Hold; [|by right].
    destruct (String.eqb_spec (r_container r) text); [|by right].
    destruct (String.eqb_spec (r_machine r) machineID); [|by right]. left. by exists r. }
  destruct Hcase as [(r & Hr & Hc & Hmach & Heq)|Heq].
  - split_and!; [done| | |].
    + exists r. rewrite Heq. split; [done|]. split; [done|]. by rewrite Hm, Hc.
    + intros k _. by rewrite Heq.
    + unfold table_ok. by rewrite Heq.
  - split_and!; [done| | |].
    + eexists. rewrite Heq, lookup_insert_eq. split; [done|]. by split.
    + intros k Hk. by rewrite Heq, lookup_insert_ne.
    + intros k r Hr Hmach. destruct (decide (k = sc_ID c)) as [->|Hk].
      * pose proof Hr as Hr'. rewrite Heq, lookup_insert_eq in Hr'. injection Hr' as <-.
        destruct (Htimes _ _ _ _ _ _ _ _ _ Hx Hr) as [Hold|Ht].
        -- destruct (Hok _ _ Hold eq_refl) as (_ & _ & _ & _ & Ht).
           split_and!; try done. by exists (normaliseContainerForStore c).
        -- split_and!; try done. by exists (normaliseContainerForStore c).
      * rewrite Heq, lookup_insert_ne in Hr by done. by apply Hok.
Qed.

Lemma upsert_all_ok machineID cs : NoDup (map sc_ID cs) -> forall w w', table_ok db machineID w ->
  upsert_all (E := E) db machineID cs w = (w', []) ->
  (forall c, c ∈ cs -> exists r, ctr_rows w' !! sc_ID c = Some r /\ holds machineID c r) /\
  (forall k, k ∉ map sc_ID cs -> ctr_rows w' !! k = ctr_rows w !! k) /\ table_ok db machineID w' /\
  (forall k, in_cluster w' k = in_cluster w k).
Proof.
  induction cs as [|c cs IH]; intros Hnd w w' Hok; cbn [upsert_all].
  - intros [= <-]. split_and!; [by intros c ?%elem_of_nil|done..].
  - cbn [map] in Hnd. apply NoDup_cons in Hnd as [Hc Hnd].
    destruct (CreateOrUpdateContainer (E := E) db c machineID w) as [w1 r] eqn:Hone.
    destruct (upsert_all db machineID cs w1) as [w2 errs] eqn:Hrest. destruct r as [[]|]; [|done]. intros [= <- ->].
    destruct (CreateOrUpdate_ok c machineID w w1 Hok Hone) as (Hin1 & (r & Hr & Hh) & Hother & Hok1).
    destruct (IH Hnd w1 w2 Hok1 Hrest) as (Hcs & Hout & Hok2 & Hin2). split_and!; [| |done|].
    + intros c' [->|Hc']%elem_of_cons; [|by apply Hcs]. exists r. split; [|done]. by rewrite Hout.
    + cbn [map]. intros k [Hk1 Hk2]%not_elem_of_cons. by rewrite Hout, Hother.
    + intros k. by rewrite Hin2, Hin1.
Qed.

(** The listing of the records of a machine. *)
Lemma container_rows_ok machineID l : (forall k r, (k, r) ∈ l -> r_machine r = machineID /\
    r_status r = SyncStatusSynced /\ r_container r <> "" /\ r_container r <> "{}" /\
    (exists c, ctr_Unmarshal (r_container r) = Some c /\ sc_ID c = k) /\ exists t, parse_time (r_updated r) = Some t) ->
  exists recs, container_rows (E := E) container_columns (as_rows (map container_values l)) = Ok recs /\
    map (fun r => sc_ID (cr_Container r)) recs = map fst l.
Proof.
  induction l as [|[k r] l IH]; intros Hl; [by exists []|].
  destruct (Hl k r) as (_ & _ & H1 & H2 & (c & Hc & Hid) & t & Ht); [by left|].
  destruct IH as (recs & Hrecs & Hids); [intros k' r' Hin; apply Hl; by right|].
  unfold as_rows, container_columns in *. cbn [map container_rows]. unfold container_row at 1. cbn -[String.eqb].
  apply String.eqb_neq in H1, H2. rewrite H1, H2, Hc, Ht. cbn [orb].
  exists (mkRecord c (r_machine r) (r_status r) t :: recs). cbn in Hrecs |- *. rewrite Hrecs. split; [done|].
  by rewrite Hid, Hids.
Qed.

(** Every record read is one of the machine; and none is missed when the listing does not
    break off. *)
Lemma ListContainers_ok machineID w recs : table_ok db machineID w -> in_cluster w machineID = true ->
  ListContainers (E := E) db (mkListOptions [machineID] "" "") w = Ok recs ->
  (forall k, k ∈ map (fun r => sc_ID (cr_Container r)) recs -> exists r, ctr_rows w !! k = Some r /\ r_machine r = machineID) /\
  (whole_list db machineID w -> forall k r, ctr_rows w !! k = Some r -> r_machine r = machineID ->
     k ∈ map (fun r => sc_ID (cr_Container r)) recs).
Proof.
  intros Hok Hin Hlist. unfold ListContainers in Hlist.
  destruct (listed_rows container_columns (map container_values (ctr_order machineID w)) _
    ltac:(by apply Forall_map, Forall_forall) (containers_listed machineID w)) as [[e He]|(rs & n & Hq & Hc & Hr & Hwhole)];
    [by rewrite He in Hlist|].
  rewrite Hq, Hc, Hr, <- fmap_take in Hlist.
  assert (Hsub : forall k r, (k, r) ∈ take n (ctr_order machineID w) -> ctr_rows w !! k = Some r /\ r_machine r = machineID).
  { intros k r (i & Hi & _)%elem_of_take. apply list_elem_of_lookup_2, ctr_order_all in Hi as (? & ? & _). done. }

  destruct (container_rows_ok machineID (take n (ctr_order machineID w))) as (recs' & Hrecs & Hids).
  { intros k r [Hrow Hm]%Hsub. destruct (Hok k r Hrow Hm) as (? & ? & ? & ? & ?). done. }
  change (container_rows (E := E) container_columns (as_rows (map container_values (take n (ctr_order machineID w)))) = Ok recs) in Hlist.
  rewrite Hrecs in Hlist. injection Hlist as ->. rewrite Hids. split.
  - intros k ([k' r] & -> & Hkr)%list_elem_of_fmap. destruct (Hsub k' r Hkr). by exists r.
  - intros Hw k r Hrow Hm. specialize (Hwhole Hw). rewrite <- fmap_take in Hwhole.
    apply (f_equal length) in Hwhole. rewrite !length_map, length_take in Hwhole. rewrite take_ge by lia.
    apply list_elem_of_fmap. exists (k, r). split; [done|]. apply ctr_order_all.
    split_and!; [done..| |done]. by apply (Hok k r).
Qed.
(** The deletion of the stale records, when it does not fail. *)
Lemma delete_stale ids w w1 :
  match ids with
  | [] => (w, [])
  | _ => match DeleteContainers (E := E) db (mkDeleteOptions ids []) w with
         | (w1, Ok _) => (w1, [])
         | (w1, Err e) => (w1, [e])
         end
  end = (w1, []) ->
  ctr_rows w1 = filter (fun kr => kr.1 ∉ ids) (ctr_rows w).
Proof.
  destruct ids as [|i0 ids0] eqn:Heqids.
  - intros [= <-]. symmetry. apply map_filter_id. intros i x _ Hi. by apply elem_of_nil in Hi.
  - rewrite <- Heqids. unfold DeleteContainers. destruct (x_delete db (mkDeleteOptions ids []) w) as [w3 x] eqn:Hx.
    assert (Hne : ids <> []) by (by rewrite Heqids).
    destruct (rows_deleted ids w w3 x Hne Hx) as [_ [Hrows|[_ [e He]]]].
    + destruct (ExecContext x); [|done]. by intros [= <-].
    + rewrite He. done.
Qed.
End SyncFacts.

(** ** Watching Docker

    The loop of [WatchAndSyncContainers] as a machine: the debouncing timer is not set,
    running, or its function waits to hand the event over. *)
Inductive Action :=
| ActionCreate | ActionStart | ActionStop | ActionPause | ActionUnPause | ActionKill | ActionDie | ActionOOM
| ActionDestroy | ActionHealthStatusRunning | ActionHealthStatusHealthy | ActionHealthStatusUnhealthy
| OtherAction (name : string).

Definition triggers (a : Action) : bool := match a with OtherAction _ => false | _ => true end.

Inductive debouncer := NoTimer | TimerRunning | HandingOver.
#[global] Instance debouncer_eq_dec : EqDecision debouncer.
Proof. solve_decision. Defined.

(** What the loop receives: an event, the handed over event, a tick, or the error that ends
    it; and the timer that expires meanwhile. *)
Inductive watch_input := DockerEvent (a : Action) | TimerExpires | Debounced | Tick.

(** One input: the debouncer after it and whether a synchronisation is run; [None]: the
    input is not possible in this state. *)
Definition watch_step (d : debouncer) (i : watch_input) : option (debouncer * bool) :=
  match i, d with
  | DockerEvent a, NoTimer => Some (if triggers a then TimerRunning else NoTimer, false)
  | DockerEvent a, _ => Some (d, false)
  | TimerExpires, TimerRunning => Some (HandingOver, false)
  | TimerExpires, _ => None
  | Debounced, HandingOver => Some (NoTimer, true)
  | Debounced, _ => None
  | Tick, _ => Some (d, true)
  end.

(** A run: the state after it and, for each input, whether it ran a synchronisation. *)
Fixpoint watch (d : debouncer) (inputs : list watch_input) : option (debouncer * list bool) :=
  match inputs with
  | [] => Some (d, [])
  | i :: rest =>
      match watch_step d i with
      | None => None
      | Some (d', synced) =>
          match watch d' rest with
          | None => None
          | Some (d'', l) => Some (d'', synced :: l)
          end
      end
  end.

Lemma watch_pending inputs : forall d d' l, d <> NoTimer -> watch d inputs = Some (d', l) ->
  d' <> NoTimer \/ true ∈ l.
Proof.
  induction inputs as [|i inputs IH]; intros d d' l Hd; cbn [watch]; [intros [= <- <-]; by left|].
  destruct (watch_step d i) as [[d1 synced]|] eqn:Hstep; [|done].
  destruct (watch d1 inputs) as [[d2 l2]|] eqn:Hrest; [|done]. intros [= <- <-].
  destruct (decide (d1 = NoTimer)) as [->|Hd1].
  - right. assert (synced = true) as ->; [|by left].
    revert Hstep. unfold watch_step. destruct i, d; try done; congruence.
  - destruct (IH d1 d2 l2 Hd1 Hrest) as [|Hin]; [by left|right; by right].
Qed.

(** ** Properties *)


(** No container event is missed: in every run of the loop, once the debouncing timer
    set for an event has been served (it is not set at the end of the run), a
    synchronisation has been started after that event. *)
Lemma events_are_synced (before after : list watch_input) (a : Action) (l : list bool)
  (Ha : triggers a = true) (Hrun : watch NoTimer (before ++ DockerEvent a :: after) = Some (NoTimer, l)) :
  true ∈ drop (S (length before)) l.
Proof.
  enough (Hgen : forall bs d lst, watch d (bs ++ DockerEvent a :: after) = Some (NoTimer, lst) ->
    true ∈ drop (S (length bs)) lst) by (by eapply Hgen).
  clear before l Hrun. induction bs as [|i bs IH]; intros d lst; cbn [app watch length].
  - cbn [watch_step]. assert (Hd : exists d1, watch_step d (DockerEvent a) = Some (d1, false) /\ d1 <> NoTimer).
    { destruct d; cbn; rewrite ?Ha; by eexists. }
    destruct Hd as (d1 & Hstep & Hd1). cbn [watch_step] in Hstep. rewrite Hstep.
    destruct (watch d1 after) as [[d2 l2]|] eqn:Hrest; [|done]. intros [= -> <-]. cbn.
    by destruct (watch_pending after d1 NoTimer l2 Hd1 Hrest).
  - destruct (watch_step d i) as [[d1 synced]|]; [|done].
    destruct (watch d1 (bs ++ DockerEvent a :: after)) as [[d2 l2]|] eqn:Hrest; [|done]. intros [= -> <-].
    cbn [drop]. by apply (IH d1).
Qed.

(** ** Concrete runs

    A table in memory, for containers that are only an ID. *)
#[local] Existing Instance go_insertion_sort.

Definition plain_container_spec (env : gomap string) : ContainerSpec :=
  mkContainerSpec None None None None env None "nginx" None None "" false false false ""
    (mkResources 0 0 0 None None 0 None) None None "" None None None.
Definition plain_spec (env : gomap string) (hook : option PreDeployHook) : ServiceSpec :=
  mkServiceSpec None None (plain_container_spec env) "" "web" (mkPlacement None) None hook 1 (mkUpdateConfig "" None) None.
Definition plain (id : string) : StoredContainer := mkStored id None [] (plain_spec None None) "".

#[local] Instance MountPoint_eq_dec : EqDecision MountPoint.
Proof. solve_decision. Defined.
#[local] Instance StoredContainer_eq_dec : EqDecision StoredContainer.
Proof. solve_decision. Defined.

#[local] Instance id_json : ContainerJSON := {|
  ctr_Marshal c := if decide (c = plain (sc_ID c)) then Some (String "[" (sc_ID c)) else None;
  ctr_Unmarshal s := match s with String _ id => Some (plain id) | EmptyString => None end;
  parse_time s := Some 0
|}.

#[local] Instance id_json_spec : ContainerJSONSpec.
Proof.
  split. intros c s. cbn. destruct (decide (c = plain (sc_ID c))) as [Hc|]; [|done]. intros [= <-].
  split_and!; [by rewrite <- Hc|done..].
Qed.

Definition table : Type := gmap string row.
Definition records_of (id : string) (w : table) : list (string * row) :=
  map_to_list (filter (fun kr => r_machine kr.2 = id /\ r_status kr.2 = SyncStatusSynced) (w : gmap string row)).
Definition in_memory : Containers table := {|
  q_containers opts w := match opts with
    | mkListOptions [id] _ _ =>
        answer container_columns (map container_values (records_of id w))
    | _ => SendFails "not supported"
    end;
  x_upsert_container id c m st w :=
    (match (w : gmap string row) !! id with
     | Some r => if String.eqb (r_container r) c && String.eqb (r_machine r) m then w
                 else <[id := mkTableRow c m st "now"]> (w : gmap string row)
     | None => <[id := mkTableRow c m st "now"]> (w : gmap string row) end, ExecResponds 200 (Some [mkExecResult 1 None]));
  x_delete opts w := (filter (fun kr => kr.1 ∉ do_IDs opts) (w : gmap string row), ExecResponds 200 (Some [mkExecResult 1 None]))
|}.

#[local] Instance in_memory_table : ContainerTable in_memory.
Proof.
  refine {| ctr_rows w := w; in_cluster _ _ := true; ctr_order := records_of |}.
  - intros id w k r. unfold records_of. rewrite elem_of_map_to_list, map_lookup_filter_Some. cbn. tauto.
  - intros id w. left. by right.
  - intros id c m st w w' x [= <- _]. split; [done|]. left. by exists "now".
  - intros ids w w' x _ [= <- _]. split; [done|]. by left.
Defined.

Definition stored_row (id machine : string) : row := mkTableRow (String "[" id) machine SyncStatusSynced "now".
Definition before_sync : table := {["gone" := stored_row "gone" "m1"; "other" := stored_row "other" "m2"; "kept" := stored_row "kept" "m1"]}.
Definition local_docker (w : table) : result unit (list StoredContainer * list StoredContainer) := Ok ([plain "kept"; plain "new"], [plain "hook"]).
Definition after_sync : table := fst (syncContainersToStore in_memory local_docker "m1" before_sync).

Lemma in_memory_times : times_ok in_memory.
Proof. intros id c m st w w' x k r _ _. right. by exists 0. Qed.

Lemma before_sync_ok : table_ok in_memory "m1" before_sync.
Proof.
  assert (Hrow : forall id m, let r := stored_row id m in
    r_status r = SyncStatusSynced /\ r_container r <> "" /\ r_container r <> "{}" /\
    (exists c, ctr_Unmarshal (r_container r) = Some c /\ sc_ID c = id) /\ exists t, parse_time (r_updated r) = Some t).
  { intros id m. split_and!; [done..|by exists (plain id)|by exists 0]. }
  intros k r Hr _. cbn in Hr. unfold before_sync in Hr.
  apply lookup_insert_Some in Hr as [[<- <-]|[_ Hr]]; [apply Hrow|].
  apply lookup_insert_Some in Hr as [[<- <-]|[_ Hr]]; [apply Hrow|].
  apply lookup_singleton_Some in Hr as [<- <-]. apply Hrow.
Qed.


(** A listing that breaks off before its first record: the record of a container that is
    gone stays, although the synchronisation reports no error. *)
Definition broken_list : Containers table := {|
  q_containers _ w := Responds 200 [columns_event container_columns; DecodeFails "unexpected EOF"];
  x_upsert_container := x_upsert_container in_memory; x_delete := x_delete in_memory |}.

Example broken_list_allowed w : listed container_columns (map container_values (records_of "m1" w))
  (q_containers broken_list (mkListOptions ["m1"] "" "") w).
Proof. right. exists 0%nat, [DecodeFails "unexpected EOF"]. split; [done|]. intros r [= <-]. by eexists. Qed.

Example broken_list_keeps_stale :
  match syncContainersToStore broken_list local_docker "m1" before_sync with
  | (w', []) => (w' : gmap string row) !! "gone" = Some (stored_row "gone" "m1")
  | _ => False
  end.
Proof. vm_compute. reflexivity. Qed.

Example after_sync_table :
  map fst (map_to_list after_sync) ≡ₚ ["kept"; "new"; "hook"; "other"].
Proof. apply (bool_decide_unpack _). vm_compute. exact I. Qed.

(** The normalisation removes the environment of the container, not that of the
    pre-deployment hook, which stays in the record. *)
Example hook_env_is_stored :
  let hook := mkHook None (Some {["TOKEN" := "secret"]}) None None "" in
  let c := normaliseContainerForStore (mkStored "id" None [] (plain_spec (Some {["PASSWORD" := "secret"]}) (Some hook)) "") in
  Env (Container_ (sc_Spec c)) = None /\ (hook_Env <$> PreDeploy (sc_Spec c)) = Some (Some {["TOKEN" := "secret"]}).
Proof. split; reflexivity. Qed.
