(* ===== verification/Watch.v ===== *)
(** * Watch: the loops that follow the cluster store

    The subscriptions of the store to its machines and containers
    ([internal/machine/store/store.go], [container.go]) and the loops of the cluster
    controller ([internal/machine/cluster.go]) around the handlers of Controller.v:
    [handleMachineChanges] and [handleEndpointChanges], and [runMachineSync] with the
    requests that wake it.

    A subscription that is opened has all the rows of its query ([SubscribeMachines_complete]),
    unlike the plain listings of Store.v; and no request to synchronise gets lost
    ([no_update_is_lost]). *)

From S2P Require Import Prelude GoStrings NetAddr Proto Corrosion Store Ipam Resolver Cluster Network StateFile Controller ContainerSync.
#[local] Open Scope string_scope.
#[local] Open Scope list_scope.
#[local] Open Scope Z_scope.

(** ** Subscriptions *)
Inductive watch_error {E : Type} :=
| WatchSubscribe (e : sub_error) | WatchScan (e : scan_error) | WatchUnmarshal | WatchRow (e : E) | WatchChanges (e : sub_error).
Arguments watch_error : clear implicits.

(** A row of [SubscribeMachines], which does not validate the machine. *)
Definition subscribed_machine {E} `{ProtoJSON} (columns : list string) (row : RowEvent) : result (watch_error E) (option MachineInfo) :=
  match Scan (mkRows [] None false columns row None false) [""; ""] with
  | Err e => Err (WatchScan e)
  | Ok vs =>
      let mJSON := nth 1 vs "" in
      if String.eqb mJSON "" || String.eqb mJSON "{}" then Ok None
      else match pj_Unmarshal mJSON with
           | None => Err WatchUnmarshal
           | Some m => Ok (Some m)
           end
  end.

Fixpoint keep_rows {E R A} (f : R -> result E (option A)) (rows : list R) : result E (list A) :=
  match rows with
  | [] => Ok []
  | row :: rest =>
      match f row with
      | Err e => Err e
      | Ok r => match keep_rows f rest with
                | Err e => Err e
                | Ok l => Ok (match r with Some a => a :: l | None => l end)
                end
      end
  end.

(** Subscribing: the rows of the query, then the changes.  [None]: the end of the query has
    no change ID, a panic. *)
Definition subscribe {E A} (f : list string -> RowEvent -> result (watch_error E) (option A)) (resp : response) :
  option (result (watch_error E) (list A * Subscription)) :=
  match SubscribeContext resp false with
  | Err e => Some (Err (WatchSubscribe e))
  | Ok sub =>
      let columns := match sub_rows sub with Some rows => rs_columns rows | None => [] end in
      let '(rows, sub1) := after_rows sub in
      match keep_rows (f columns) rows with
      | Err e => Some (Err e)
      | Ok l => match Changes sub1 with
                | None => None
                | Some (Err e) => Some (Err (WatchChanges e))
                | Some (Ok sub2) => Some (Ok (l, sub2))
                end
      end
  end.

Definition SubscribeMachines {E} `{ProtoJSON} : response -> option (result (watch_error E) (list MachineInfo * Subscription)) :=
  subscribe subscribed_machine.

(** Each row sets all the variables, see [container_row]. *)
Definition SubscribeContainers {E} `{ContainerJSON} : response -> option (result (watch_error (sync_error E)) (list ContainerRecord * Subscription)) :=
  subscribe (fun columns row => match container_row columns row with Ok r => Ok r | Err e => Err (WatchRow e) end).

(** ** The loops of the cluster controller *)
Section Loops.
Context {PJ : ProtoJSON} {PE : ProtoEqual} {W E : Type} (corro : Corro W).
Context (save : State -> W -> W * result E unit) (Configure : Config -> W -> W * result E unit).

Inductive machine_changes_end := ChangesStopped | SubscribeFailed (e : watch_error E) | SubscriptionFailed.

(** [signals]: how the world changes until each signal is handled; [ctx_done]: whether the
    context is done when the channel of the signals is closed.  [None] is a panic. *)
Definition handleMachineChanges (resp : response) (slice : nat) (signals : list (W -> W)) (ctx_done : bool) (s : State) (w : W) :
  option (State * W * machine_changes_end) :=
  match SubscribeMachines resp with
  | None => None
  | Some (Err e) => Some (s, w, SubscribeFailed e)
  | Some (Ok (ms, _)) =>
      match (match ms with
             | [] => Some (s, w)
             | _ => (fun r => fst r) <$> configurePeers save Configure slice ms s w
             end) with
      | None => None
      | Some (s1, w1) =>
          match handle_changes corro save Configure (slice + length (cf_Peers (st_Network s1))) signals s1 w1 with
          | None => None
          | Some (s2, w2) => Some (s2, w2, if ctx_done then ChangesStopped else SubscriptionFailed)
          end
      end
  end.

(** What the [select] of [handleEndpointChanges] receives. *)
Inductive endpoint_read := EndpointEvent (e : EndpointChangeEvent) | EndpointsClosed | EndpointsCtx.

Fixpoint handleEndpointChanges (n : nat) (reads : list endpoint_read) (s : State) (w : W) : State * W :=
  match reads with
  | EndpointEvent e :: rest =>
      let (s', w') := endpoint_changed save n e s w in handleEndpointChanges (Datatypes.S n) rest s' w'
  | (EndpointsClosed | EndpointsCtx) :: _ | [] => (s, w)
  end.

(** A round of [runMachineSync]: whatever wakes it, whether the context is done by then,
    and the machine and the world it then sees. *)
Record sync_round := mkRound { rd_ctx_done : bool; rd_runtime : Runtime; rd_state : State; rd_env : W -> W }.

Inductive sync_end := SyncStopped | BackfillFailed (e : @machine_error E) | SyncRunning.

(** Errors are logged. *)
Definition sync_round_once (rt : Runtime) (s : State) (w : W) : option W := fst <$> syncMachineInfo (E := E) corro rt s w.

Fixpoint sync_rounds (rounds : list sync_round) (w : W) : option (W * sync_end) :=
  match rounds with
  | [] => Some (w, SyncRunning)
  | r :: rest =>
      if rd_ctx_done r then Some (rd_env r w, SyncStopped)
      else match sync_round_once (rd_runtime r) (rd_state r) (rd_env r w) with
           | None => None
           | Some w' => sync_rounds rest w'
           end
  end.

Definition runMachineSync (rt : Runtime) (s : State) (rounds : list sync_round) (w : W) : option (State * W * sync_end) :=
  match backfillMachineState corro save s w with
  | None => None
  | Some (s1, w1, Err e) => Some (s1, w1, BackfillFailed e)
  | Some (s1, w1, Ok _) =>
      match sync_round_once rt s1 w1 with
      | None => None
      | Some w2 => (fun r => (s1, fst r, snd r)) <$> sync_rounds rounds w2
      end
  end.

(** The attempts of [syncDockerContainers]; the policy never gives up by itself. *)
Definition syncDockerContainers (ctx_done : bool) (attempts : list (result E unit * policy)) (ctx_err : E) : option (result E unit) :=
  match retry ctx_err (fun _ => false) attempts with
  | None => None
  | Some (Ok _) => Some (Ok tt)
  | Some (Err e) => Some (if ctx_done then Ok tt else Err e)
  end.
End Loops.

(** ** Requests to synchronise

    The steps of the machine and of the loop [runMachineSync]: [UpdateMachine] applies an
    update and then requests a synchronisation; the channel of the requests holds one.  A
    synchronisation reads the state when it begins. *)
Inductive sync_phase := NotStarted | Waiting | Syncing.

Record sync_system := mkSystem {
  sy_state : State; sy_unrequested : nat; sy_pending : bool; sy_phase : sync_phase; sy_seen : option State }.

(** Sending to a channel that is full is skipped. *)
Definition RequestMachineSync (pending : bool) : bool := if pending then pending else true.

Definition begins (t : sync_system) (pending : bool) : sync_system :=
  mkSystem (sy_state t) (sy_unrequested t) pending Syncing (Some (sy_state t)).

Inductive sync_step : sync_system -> sync_system -> Prop :=
| UpdateApplied t s' : sync_step t (mkSystem s' (Datatypes.S (sy_unrequested t)) (sy_pending t) (sy_phase t) (sy_seen t))
| SyncRequested t n : sy_unrequested t = Datatypes.S n ->
    sync_step t (mkSystem (sy_state t) n (RequestMachineSync (sy_pending t)) (sy_phase t) (sy_seen t))
| FirstSync t : sy_phase t = NotStarted -> sync_step t (begins t (sy_pending t))
| RequestTaken t : sy_phase t = Waiting -> sy_pending t = true -> sync_step t (begins t false)
| TickTaken t : sy_phase t = Waiting -> sync_step t (begins t (sy_pending t))
| SyncFinished t : sy_phase t = Syncing ->
    sync_step t (mkSystem (sy_state t) (sy_unrequested t) (sy_pending t) Waiting (sy_seen t)).

Definition started_with (s : State) : sync_system := mkSystem s 0 false NotStarted None.

Definition covered (t : sync_system) : Prop :=
  sy_phase t = NotStarted \/ (0 < sy_unrequested t)%nat \/ sy_pending t = true \/ sy_seen t = Some (sy_state t).

Lemma covered_step t t' : covered t -> sync_step t t' -> covered t'.
Proof.
  unfold covered. intros Hc Hs. destruct Hs as [t s'|t n Hn|t Hp|t Hp Hpend|t Hp|t Hp]; cbn.
  - right; left; lia.
  - right; right; left. by destruct (sy_pending t).
  - by right; right; right.
  - by right; right; right.
  - by right; right; right.
  - rewrite Hp in Hc. destruct Hc as [|]; [done|by right].
Qed.

(** No update is lost: once every update has been requested and no request is waiting, the
    synchronisation that began last has read the current state. *)
Lemma no_update_is_lost s t : rtc sync_step (started_with s) t -> sy_phase t <> NotStarted ->
  sy_unrequested t = 0%nat -> sy_pending t = false -> sy_seen t = Some (sy_state t).
Proof.
  intros Hr. assert (Hc : covered t).
  { remember (started_with s) as t0 eqn:Ht0. assert (Hc0 : covered t0) by (left; by rewrite Ht0).
    clear Ht0. induction Hr as [|t0 t1 t2 Hs _ IH]; [done|]. apply IH. by eapply covered_step. }
  intros Hp Hu Hpend. destruct Hc as [?|[?|[?|?]]]; [done|lia|congruence|done].
Qed.

(** ** A subscription has all the rows *)
Lemma rows_loop_ends fuel : forall rs rows rs' eoq, (length (rs_feed rs) <= fuel)%nat -> rs_eoq rs = None ->
  rows_loop fuel rs = (rows, rs') -> rs_eoq rs' = Some eoq ->
  exists pre r rest, rs_feed rs = pre ++ r :: rest /\ Forall2 (fun r row => row_event (rs_columns rs) r = RowNext row) pre rows /\
    row_event (rs_columns rs) r = RowEOQ eoq /\ rs_feed rs' = rest.
Proof.
  induction fuel as [|fuel IH]; intros rs rows rs' eoq Hlen Hnone Hloop Heoq; cbn [rows_loop] in Hloop; unfold Next in Hloop;
    destruct (rs_feed rs) as [|r rest] eqn:Hf; cbn in Hlen; try lia.
  - cbn in Hloop. injection Hloop as <- <-. cbn in Heoq. congruence.
  - cbn in Hloop. injection Hloop as <- <-. cbn in Heoq. congruence.
  - cbn [tail] in Hloop. destruct (row_event (rs_columns rs) r) as [row|eoq'|err] eqn:Hr.
    + destruct (rows_loop fuel _) as [rows1 last] eqn:Hl. injection Hloop as <- <-.
      pose proof (fun H1 H2 => IH _ _ _ eoq H1 H2 Hl Heoq) as IH'. cbn [rs_eoq rs_feed] in IH'.
      destruct (IH' ltac:(lia) Hnone) as (pre & r' & rest' & Hfeed & Hall & Hr' & Hlast).
      cbn [rs_feed rs_columns] in *. exists (r :: pre), r', rest'. split; [by rewrite Hfeed|]. split; [by constructor|done].
    + injection Hloop as <- <-. cbn in Heoq. injection Heoq as <-. exists [], r, rest. by split; [|split; [constructor|]].
    + injection Hloop as <- <-. cbn in Heoq. congruence.
Qed.

(** What a subscription starts from: every row the server sends up to the end of the query,
    and the changes after it.  A stream that breaks off before is an error. *)
Lemma subscribe_complete {E A} (f : list string -> RowEvent -> result (watch_error E) (option A)) resp l sub :
  subscribe f resp = Some (Ok (l, sub)) ->
  exists columns first pre r rest rows eoq id, resp = Responds 200 (first :: pre ++ r :: rest) /\
    Forall2 (fun r row => row_event columns r = RowNext row) pre rows /\ row_event columns r = RowEOQ eoq /\
    eoq_ChangeID eoq = Some id /\ sub_feed sub = rest /\ sub_lastChangeID sub = id /\ keep_rows (f columns) rows = Ok l.
Proof.
  unfold subscribe, SubscribeContext. destruct resp as [err|status body]; [done|].
  destruct (Z.eqb_spec status 200) as [->|]; [cbn [negb]|done].
  destruct (newRows body false) as [rs|e] eqn:Hn; [|done]. unfold after_rows. cbn [sub_rows sub_lastChangeID].
  destruct (all_rows rs) as [rows rs'] eqn:Ha. destruct (keep_rows (f (rs_columns rs)) rows) as [l'|e] eqn:Hk; [|done].
  unfold Changes. cbn [sub_rows sub_feed]. destruct (rs_eoq rs') as [eoq|] eqn:He; [|done].
  destruct (eoq_ChangeID eoq) as [id|] eqn:Hid; [|done]. intros [= <- <-]. cbn [sub_feed sub_lastChangeID].
  unfold newRows in Hn. destruct body as [|first body]; [done|].
  assert (Hrs : exists columns, rs = mkRows body None false columns (mkRow 0 []) None false).
  { destruct first as [|e|err|e]; try done; (destruct (ev_Columns e) as [columns|]; [|done]); injection Hn as <-; by eexists. }
  destruct Hrs as [columns ->]. unfold all_rows in Ha. cbn [rs_feed] in Ha.
  destruct (rows_loop_ends (length body) (mkRows body None false columns (mkRow 0 []) None false) rows rs' eoq)
    as (pre & r & rest & Hfeed & Hall & Hr & Hlast); [done..|].
  cbn [rs_feed rs_columns] in *. exists columns, first, pre, r, rest, rows, eoq, id. by rewrite Hfeed.
Qed.

(** [handleMachineChanges] follows the machines: a signal whose listing succeeds, with some
    machine, leaves the peers of that listing; whatever happened before does not matter. *)
Lemma last_signal_counts {PJ : ProtoJSON} {W E : Type} (corro : Corro W) save Configure slice signals env (s s1 s' : State) (w w1 w' : W) :
  handle_changes (E := E) corro save Configure slice signals s w = Some (s1, w1) ->
  handle_changes corro save Configure slice (signals ++ [env]) s w = Some (s', w') ->
  exists slice', machines_changed corro save Configure slice' s1 (env w1) = Some (s', w').
Proof.
  revert slice s w. induction signals as [|sg signals IH]; intros slice s w; cbn [app handle_changes].
  - intros [= <- <-] H. exists slice. destruct (machines_changed corro save Configure slice s (env w)) as [[s2 w2]|]; [done|done].
  - destruct (machines_changed corro save Configure slice s (sg w)) as [[s2 w2]|]; [|done]. apply IH.
Qed.

(** ** Concrete runs *)
Module Runs.
#[local] Existing Instance Memory.bits_json.
#[local] Existing Instance structural_equal.

Definition backfilled (s : State) (w : Memory.World) : State :=
  match backfillMachineState (E := unit) Memory.memory no_save s w with Some (s', _, _) => s' | None => s end.

(** A public IP that is removed while the store cannot be reached, and the daemon restarts
    before the removal is published: at the next start the backfill takes the address back
    from the record and saves it, although the update was acknowledged. *)
Definition public_ip : addr := Addr4 16909060.
Definition with_ip : State := with_public_ip public_ip joined_state.
Definition published_store : Memory.World :=
  match syncMachineInfo (E := unit) Memory.memory runtime with_ip Memory.empty_store with Some (w, _) => w | None => Memory.empty_store end.

Example removed_public_ip_comes_back :
  match applyMachineUpdate (E := unit) Memory.memory no_save (mkUpdateMachineRequest None (Some (mkIP "")) []) with_ip published_store with
  | Some (s, w, Ok _) => st_PublicIP s = NoAddr /\ st_PublicIP (backfilled s w) = public_ip
  | _ => False
  end.
Proof. vm_compute. split; reflexivity. Qed.

(** A change whose listing fails is not looked at again: the peers stay as they are until
    the next change. *)
Definition two_members : Memory.World :=
  fst (CreateMachine Memory.memory two (fst (CreateMachine Memory.memory one Memory.empty_store))).

Definition unreachable_listing : Corro Memory.World := {|
  q_key := q_key Memory.memory; x_put := x_put Memory.memory; x_delete_key := x_delete_key Memory.memory;
  q_machine := q_machine Memory.memory; q_machines := fun _ => SendFails "connection refused";
  x_insert_machine := x_insert_machine Memory.memory; x_update_machine := x_update_machine Memory.memory;
  x_delete_machine := x_delete_machine Memory.memory; x_delete_containers := x_delete_containers Memory.memory |}.

Example failed_listing_is_not_retried :
  handle_changes (E := unit) unreachable_listing no_save keep_network 5 [fun _ => two_members] (with_peers [] joined_state) Memory.empty_store =
    Some (with_peers [] joined_state, two_members) /\
  match handle_changes (E := unit) Memory.memory no_save keep_network 5 [fun _ => two_members] (with_peers [] joined_state) Memory.empty_store with
  | Some (s, _) => length (cf_Peers (st_Network s)) = 1%nat
  | None => False
  end.
Proof. split; vm_compute; reflexivity. Qed.
End Runs.
