(* ===== verification/Firewall.v ===== *)
(** * Firewall: iptables chains and the Docker network of a machine

    [internal/machine/firewall/iptables_linux.go], which keeps the [UNCLOUD-INPUT] chains
    and the jumps to them, and [internal/machine/docker/controller_linux.go], which keeps the
    Docker network of the machine and the rules that let the cluster reach its containers.

    The [iptables] package of Docker is the record [Iptables] of operations, its documented
    behaviour the class [IptablesSpec]: what each operation does to the rules of a chain
    when it succeeds, and nothing when it fails.  The Docker engine is [DockerNetworks] with
    [DockerNetworksSpec]. *)

From S2P Require Import Prelude GoStrings NetAddr NetText Container.
#[local] Open Scope string_scope.
#[local] Open Scope list_scope.
#[local] Open Scope Z_scope.

(** ** iptables *)
Inductive family := IPv4 | IPv6.
Inductive table := Filter | Nat.
Inductive action := Insert | Delete.
Abbreviation rule := (list string).

#[global] Instance family_eq_dec : EqDecision family. Proof. solve_decision. Defined.
#[global] Instance table_eq_dec : EqDecision table. Proof. solve_decision. Defined.
#[global] Instance family_countable : Countable family.
Proof. refine (inj_countable' (fun f => match f with IPv4 => true | IPv6 => false end) (fun b => if b then IPv4 else IPv6) _); by intros []. Defined.
#[global] Instance table_countable : Countable table.
Proof. refine (inj_countable' (fun t => match t with Filter => true | Nat => false end) (fun b => if b then Filter else Nat) _); by intros []. Defined.

(** The operations of an [iptables.IPTable] of a family; an error is its text. *)
Record Iptables (S : Type) := mkIptables {
  ip_NewChain : family -> string -> S -> S * option string;      (* in the filter table *)
  ip_Raw : family -> list string -> S -> result string string;
  ip_RawCombinedOutput : family -> list string -> S -> S * option string;
  ip_Exists : family -> table -> string -> rule -> S -> bool;
  ip_ProgramRule : family -> table -> string -> action -> rule -> S -> S * option string
}.
Arguments ip_NewChain {S}. Arguments ip_Raw {S}. Arguments ip_RawCombinedOutput {S}.
Arguments ip_Exists {S}. Arguments ip_ProgramRule {S}.

Definition table_name (t : table) : string := match t with Filter => "filter" | Nat => "nat" end.

Definition DockerUserChain : string := "DOCKER-USER".
Definition UncloudInputChain : string := "UNCLOUD-INPUT".
Definition WireGuardInterfaceName : string := "uncloud".
Definition MachineAPIPort : Z := 51000.
Definition UnregistryPort : Z := 51500.
Definition DefaultGossipPort : Z := 51001.
Definition DNSPort : Z := 53.

Inductive fw_error :=
| CreateChain (f : family) (e : string) | FlushChain (f : family) (e : string) | ListRules (f : family) (e : string)
| AddRule (f : family) (e : string) | InsertRule (f : family) (e : string) | DeleteJump (f : family) (e : string)
| DeleteChain (f : family) (e : string) | DeleteRule (e : string).

Definition jumpRule : rule := ["-m"; "comment"; "--comment"; "Uncloud-managed"; "-j"; UncloudInputChain].

(** The number in the listing of the first rule that drops or rejects. *)
Definition reject_line (line : string) : option Z :=
  match Fields line with
  | num :: target :: _ =>
      if String.eqb target "DROP" || String.eqb target "REJECT" then ParseInt num else None
  | _ => None
  end.

Fixpoint first_some {A B} (f : A -> option B) (l : list A) : option B :=
  match l with
  | [] => None
  | x :: rest => match f x with Some y => Some y | None => first_some f rest end
  end.

Definition newline : string := String (ascii_of_nat 10) "".
Definition firstRejectRuleNum (out : string) : Z := default 0 (first_some reject_line (split_byte (ascii_of_nat 10) out)).

Section Firewall.
Context {S : Type} (ip : Iptables S).
#[local] Open Scope st_scope.
Notation program A := (stateful S fw_error A).

Definition addJumpRule (num : Z) : rule :=
  if 0 <? num then ["-t"; table_name Filter; "-I"; "INPUT"; itoa_int num] ++ jumpRule
  else ["-t"; table_name Filter; "-A"; "INPUT"] ++ jumpRule.

Definition ensure_jump (f : family) : program unit := fun s =>
  if ip_Exists ip f Filter "INPUT" jumpRule s then (s, Ok tt)
  else (let* out := st_read (fun s => wrap_err (ListRules f) (ip_Raw ip f ["-t"; table_name Filter; "-L"; "INPUT"; "--line-numbers"] s)) in
        st_call (AddRule f) (ip_RawCombinedOutput ip f (addJumpRule (firstRejectRuleNum out)))) s.

Definition create_chain (f : family) : program unit :=
  let* _ := st_call (CreateChain f) (ip_NewChain ip f UncloudInputChain) in
  let* _ := st_call (FlushChain f) (ip_RawCombinedOutput ip f ["-t"; table_name Filter; "-F"; UncloudInputChain]) in
  ensure_jump f.

Definition createIptablesChains : program unit :=
  let* _ := create_chain IPv4 in create_chain IPv6.

Definition acceptWireGuardRule (wgPort : Z) : rule := ["-p"; "udp"; "--dport"; itoa_int wgPort; "-j"; "ACCEPT"].
Definition acceptUnregistryRule (machineIP : addr) : rule :=
  ["-i"; WireGuardInterfaceName; "-d"; addr_String machineIP; "-p"; "tcp"; "--dport"; itoa_int UnregistryPort; "-j"; "ACCEPT"].
Definition acceptMachineAPIRule : rule :=
  ["-i"; WireGuardInterfaceName; "-s"; "fdcc::/16"; "-p"; "tcp"; "--dport"; itoa_int MachineAPIPort; "-j"; "ACCEPT"].
Definition acceptCorrosionGossipRule : rule :=
  ["-i"; WireGuardInterfaceName; "-s"; "fdcc::/16"; "-p"; "udp"; "--dport"; itoa_int DefaultGossipPort; "-j"; "ACCEPT"].

Fixpoint insert_rules (f : family) (rules : list rule) : program unit :=
  match rules with
  | [] => st_ret tt
  | r :: rest =>
      let* _ := st_call (InsertRule f) (ip_ProgramRule ip f Filter UncloudInputChain Insert r) in
      insert_rules f rest
  end.

Definition ConfigureIptablesChains (machineIP : addr) (wgPort : Z) : program unit :=
  let* _ := createIptablesChains in
  let* _ := insert_rules IPv4 [acceptUnregistryRule machineIP; acceptWireGuardRule wgPort] in
  insert_rules IPv6 [acceptMachineAPIRule; acceptCorrosionGossipRule].

(** [strings.Contains] *)
Fixpoint contains (sub s : string) : bool :=
  has_prefix sub s || match s with "" => false | String _ s' => contains sub s' end.

(** An error that says that there is no chain is fine. *)
Definition unless_no_chain (wrap : string -> fw_error) (op : S -> S * option string) : program unit := fun s =>
  match op s with
  | (s', None) => (s', Ok tt)
  | (s', Some e) => (s', if contains "No chain" e then Ok tt else Err (wrap e))
  end.

Definition cleanup_family (f : family) : program unit :=
  let* _ := st_call (DeleteJump f) (ip_ProgramRule ip f Filter "INPUT" Delete jumpRule) in
  let* _ := unless_no_chain (FlushChain f) (ip_RawCombinedOutput ip f ["-t"; table_name Filter; "-F"; UncloudInputChain]) in
  unless_no_chain (DeleteChain f) (ip_RawCombinedOutput ip f ["-t"; table_name Filter; "-X"; UncloudInputChain]).

Definition CleanupIptablesChains : program unit :=
  let* _ := cleanup_family IPv4 in cleanup_family IPv6.

(** *** The rules of the Docker network *)
Definition wgRule (bridgeName : string) : rule :=
  ["--in-interface"; WireGuardInterfaceName; "--out-interface"; bridgeName; "-j"; "ACCEPT"].
Definition dnsRule (bridgeName : string) (dnsServer : addr) (proto : string) : rule :=
  ["--in-interface"; bridgeName; "--dst"; addr_String dnsServer; "--protocol"; proto; "--dport"; itoa_int DNSPort; "-j"; "ACCEPT"].
Definition skipMasqueradeRule (subnet : prefix) : rule :=
  ["--src"; prefix_String subnet; "--out-interface"; WireGuardInterfaceName; "-j"; "RETURN"].

Definition configureIptables (bridgeName : string) (subnet : prefix) (dnsServer : addr) : program unit :=
  let* _ := st_call (InsertRule IPv4) (ip_ProgramRule ip IPv4 Filter DockerUserChain Insert (wgRule bridgeName)) in
  let* _ := insert_rules IPv4 (map (dnsRule bridgeName dnsServer) ["udp"; "tcp"]) in
  let* _ := st_call DeleteRule (ip_ProgramRule ip IPv4 Nat "POSTROUTING" Delete (skipMasqueradeRule subnet)) in
  st_call (InsertRule IPv4) (ip_ProgramRule ip IPv4 Nat "POSTROUTING" Insert (skipMasqueradeRule subnet)).

Definition cleanupIptables (bridgeName : string) (subnet : prefix) : program unit :=
  let* _ := st_call DeleteRule (ip_ProgramRule ip IPv4 Filter DockerUserChain Delete (wgRule bridgeName)) in
  st_call DeleteRule (ip_ProgramRule ip IPv4 Nat "POSTROUTING" Delete (skipMasqueradeRule subnet)).
End Firewall.

(** ** What iptables does *)

(** The target of a rule, as the listing shows it. *)
Fixpoint target_of (r : rule) : option string :=
  match r with
  | [] | [_] => None
  | flag :: (t :: _ as rest) => if String.eqb flag "-j" then Some t else target_of rest
  end.
Definition rejects (r : rule) : bool :=
  match target_of r with Some t => String.eqb t "DROP" || String.eqb t "REJECT" | None => false end.

(** The line of the listing of the [i]-th rule: its number, its target (the protocol of a
    rule without one) and more. *)
Definition shows (i : nat) (r : rule) (line : string) : Prop :=
  exists second more, Fields line = sprint (Z.of_nat i) :: second :: more /\
  (match target_of r with Some t => second = t | None => second <> "DROP" /\ second <> "REJECT" end).

Inductive listed : nat -> list rule -> list string -> Prop :=
| listed_nil i : listed i [] []
| listed_cons i r rules line lines : shows i r line -> listed (S i) rules lines -> listed i (r :: rules) (line :: lines).

Fixpoint remove_rule (r : rule) (rules : list rule) : list rule :=
  match rules with
  | [] => []
  | r' :: rest => if decide (r = r') then rest else r' :: remove_rule r rest
  end.

Definition fails_as_missing (e : string) : Prop := contains "No chain" e = true.

(** All chains with their rules. *)
Abbreviation ruleset := (gmap (family * table * string) (list rule)).

Class IptablesSpec {S : Type} (ip : Iptables S) := {
  chains : S -> ruleset;

  exists_law : forall f t c r s, ip_Exists ip f t c r s = true <-> exists rules, chains s !! (f, t, c) = Some rules /\ r ∈ rules;
  new_chain_law : forall f c s s' e, ip_NewChain ip f c s = (s', e) ->
    chains s' = match e with
                | None => <[(f, Filter, c) := default [] (chains s !! (f, Filter, c))]> (chains s)
                | Some _ => chains s
                end;
  flush_law : forall f c s s' e, ip_RawCombinedOutput ip f ["-t"; "filter"; "-F"; c] s = (s', e) ->
    match e with
    | None => chains s !! (f, Filter, c) <> None /\ chains s' = <[(f, Filter, c) := []]> (chains s)
    | Some e => chains s' = chains s /\ (fails_as_missing e -> chains s !! (f, Filter, c) = None)
    end;
  delete_chain_law : forall f c s s' e, ip_RawCombinedOutput ip f ["-t"; "filter"; "-X"; c] s = (s', e) ->
    match e with
    | None => chains s' = delete (f, Filter, c) (chains s)
    | Some e => chains s' = chains s /\ (fails_as_missing e -> chains s !! (f, Filter, c) = None)
    end;
  insert_at_law : forall f c n r s s' e, 1 <= n -> ip_RawCombinedOutput ip f (["-t"; "filter"; "-I"; c; itoa_int n] ++ r) s = (s', e) ->
    match e with
    | None => exists rules, chains s !! (f, Filter, c) = Some rules /\
        chains s' = <[(f, Filter, c) := take (Z.to_nat n - 1) rules ++ r :: drop (Z.to_nat n - 1) rules]> (chains s)
    | Some _ => chains s' = chains s
    end;
  append_law : forall f c r s s' e, ip_RawCombinedOutput ip f (["-t"; "filter"; "-A"; c] ++ r) s = (s', e) ->
    match e with
    | None => exists rules, chains s !! (f, Filter, c) = Some rules /\ chains s' = <[(f, Filter, c) := rules ++ [r]]> (chains s)
    | Some _ => chains s' = chains s
    end;
  list_law : forall f c s out, ip_Raw ip f ["-t"; "filter"; "-L"; c; "--line-numbers"] s = Ok out ->
    exists header rules lines, chains s !! (f, Filter, c) = Some rules /\ Z.of_nat (length rules) < 2 ^ 32 /\ listed 1 rules lines /\
      split_byte (ascii_of_nat 10) out = header ++ lines ++ [""] /\
      Forall (fun l => forall num t more, Fields l = num :: t :: more -> t <> "DROP" /\ t <> "REJECT") header;
  program_law : forall f t c a r s s' e, ip_ProgramRule ip f t c a r s = (s', e) ->
    match e, a with
    | None, Insert => exists rules, chains s !! (f, t, c) = Some rules /\
        chains s' = if decide (r ∈ rules) then chains s else <[(f, t, c) := r :: rules]> (chains s)
    | None, Delete => chains s' = alter (remove_rule r) (f, t, c) (chains s)
    | Some _, _ => chains s' = chains s
    end
}.

(** ** The chains *)

(** The rules of [INPUT] with the jump, before the first rule that drops or rejects. *)
Fixpoint before_reject (r : rule) (rules : list rule) : list rule :=
  match rules with
  | [] => [r]
  | r' :: rest => if rejects r' then r :: rules else r' :: before_reject r rest
  end.
Definition with_jump (rules : list rule) : list rule :=
  if decide (jumpRule ∈ rules) then rules else before_reject jumpRule rules.

(** [UNCLOUD-INPUT] of a family. *)
Definition input_rules (machineIP : addr) (wgPort : Z) (f : family) : list rule :=
  match f with
  | IPv4 => [acceptWireGuardRule wgPort; acceptUnregistryRule machineIP]
  | IPv6 => [acceptCorrosionGossipRule; acceptMachineAPIRule]
  end.

Lemma reject_line_header header : Forall (fun l => forall num t more, Fields l = num :: t :: more -> t <> "DROP" /\ t <> "REJECT") header ->
  forall l, first_some reject_line (header ++ l) = first_some reject_line l.
Proof.
  induction 1 as [|h header Hh _ IH]; intros l; [done|]. cbn [app first_some]. unfold reject_line at 1.
  destruct (Fields h) as [|num [|t more]] eqn:Hf; [by rewrite IH..|].
  destruct (Hh _ _ _ eq_refl) as [Hd Hr]. by rewrite (proj2 (String.eqb_neq _ _) Hd), (proj2 (String.eqb_neq _ _) Hr), IH.
Qed.

(** The number of the rule the jump is inserted at. *)
Lemma first_reject_listed i rules lines : listed i rules lines -> (1 <= i)%nat -> Z.of_nat (i + length rules) < 2 ^ 63 ->
  match first_some reject_line (lines ++ [""]) with
  | Some n => (i <= Z.to_nat n)%nat /\ 1 <= n /\
      before_reject jumpRule rules = take (Z.to_nat n - i) rules ++ jumpRule :: drop (Z.to_nat n - i) rules
  | None => before_reject jumpRule rules = rules ++ [jumpRule]
  end.
Proof.
  induction 1 as [i|i r rules line lines (second & more & Hf & Ht) Hl IH]; intros Hi Hlen; [done|].
  cbn [app first_some before_reject]. unfold reject_line at 1. rewrite Hf. unfold rejects.
  assert (Hrej : (String.eqb second "DROP" || String.eqb second "REJECT") =
    match target_of r with Some t => String.eqb t "DROP" || String.eqb t "REJECT" | None => false end).
  { destruct (target_of r) as [t|]; [by subst|]. destruct Ht as [Hd Hr].
    by rewrite (proj2 (String.eqb_neq _ _) Hd), (proj2 (String.eqb_neq _ _) Hr). }
  rewrite Hrej. cbn [length] in Hlen. destruct (match target_of r with Some t => _ | None => false end).
  - rewrite ParseInt_sprint by lia. rewrite Nat2Z.id, Nat.sub_diag. split; [lia|]. split; [lia|done].
  - specialize (IH ltac:(lia) ltac:(lia)). destruct (first_some reject_line (lines ++ [""])) as [n|].
    + destruct IH as (Hn & Hn1 & ->). split; [lia|]. split; [done|].
      replace (Z.to_nat n - i)%nat with (Datatypes.S (Z.to_nat n - Datatypes.S i)) by lia. done.
    + by rewrite IH.
Qed.

(** ** What the functions do to the chains *)
Section Chains.
Context {S : Type} {ip : Iptables S} `{!IptablesSpec ip}.
#[local] Open Scope st_scope.

Definition input (f : family) : family * table * string := (f, Filter, "INPUT").
Definition uncloud_input (f : family) : family * table * string := (f, Filter, UncloudInputChain).

Lemma ensure_jump_ok f s s' u : ensure_jump ip f s = (s', Ok u) ->
  exists rules, chains s !! input f = Some rules /\ chains s' = <[input f := with_jump rules]> (chains s).
Proof.
  unfold ensure_jump, with_jump. destruct (ip_Exists ip f Filter "INPUT" jumpRule s) eqn:He.
  - intros [= <- _]. apply exists_law in He as (rules & Hr & Hin). exists rules. split; [done|].
    rewrite decide_True by done. by rewrite insert_id.
  - intros (s1 & out & Hout & Hadd)%st_bind_Ok. unfold st_read in Hout.
    destruct (ip_Raw ip f _ s) as [out'|] eqn:Hraw; [|done]. injection Hout as <- <-.
    apply st_call_Ok in Hadd. apply list_law in Hraw as (header & rules & lines & Hr & Hlen & Hl & Hsplit & Hhead).
    assert (Hnin : jumpRule ∉ rules).
    { intros Hin. assert (ip_Exists ip f Filter "INPUT" jumpRule s = true) by (apply exists_law; eauto). congruence. }
    exists rules. split; [done|]. rewrite decide_False by done.
    revert Hadd. unfold firstRejectRuleNum. rewrite Hsplit, reject_line_header by done.
    pose proof (first_reject_listed 1 rules lines Hl ltac:(lia) ltac:(cbn; lia)) as Hfirst. unfold addJumpRule.
    destruct (first_some reject_line (lines ++ [""])) as [n|]; unfold default, from_option, id; intros Hadd.
    + destruct Hfirst as (_ & Hn & ->). rewrite (proj2 (Z.ltb_lt 0 n)) in Hadd by lia.
      apply (insert_at_law f "INPUT" n jumpRule) in Hadd as (rules' & Hr' & ->); [|done].
      rewrite Hr in Hr'. by injection Hr' as <-.
    + rewrite Hfirst. cbn in Hadd. apply (append_law f "INPUT" jumpRule) in Hadd as (rules' & Hr' & ->).
      rewrite Hr in Hr'. by injection Hr' as <-.
Qed.

Lemma create_chain_ok f s s' u : create_chain ip f s = (s', Ok u) ->
  exists rules, chains s !! input f = Some rules /\
    chains s' = <[input f := with_jump rules]> (<[uncloud_input f := []]> (chains s)).
Proof.
  intros (s1 & u1 & H1%st_call_Ok & (s2 & u2 & H2%st_call_Ok & H3)%st_bind_Ok)%st_bind_Ok.
  apply new_chain_law in H1. apply flush_law in H2 as [_ H2]. apply ensure_jump_ok in H3 as (rules & Hr & H3).
  fold (uncloud_input f) in H1, H2. rewrite H1, insert_insert_eq in H2. rewrite H2 in Hr, H3.
  rewrite lookup_insert_ne in Hr by done. eauto.
Qed.

Lemma insert_rules_ok f rules : forall s s' u l, insert_rules ip f rules s = (s', Ok u) -> chains s !! uncloud_input f = Some l ->
  chains s' = <[uncloud_input f := fold_left (fun l r => if decide (r ∈ l) then l else r :: l) rules l]> (chains s).
Proof.
  induction rules as [|r rules IH]; intros s s' u l; cbn [insert_rules fold_left].
  - intros [= <- _] Hl. by rewrite insert_id.
  - intros (s1 & u1 & H1%st_call_Ok & H2)%st_bind_Ok Hl. apply program_law in H1 as (l' & Hl' & H1).
    fold (uncloud_input f) in Hl', H1. rewrite Hl in Hl'. injection Hl' as <-.
    destruct (decide (r ∈ l)) as [Hin|Hnin].
    + rewrite (IH _ _ _ l H2), H1; congruence.
    + rewrite (IH _ _ _ (r :: l) H2), H1; [by rewrite insert_insert_eq|]. rewrite H1. by rewrite lookup_insert_eq.
Qed.

Lemma itoa_int_nonempty n : itoa_int n <> "".
Proof. unfold itoa_int. destruct (n <? 0); [done|]. apply sprint_nonempty. Qed.

Lemma insert_two (r1 r2 : rule) : r1 <> r2 -> fold_left (fun l r => if decide (r ∈ l) then l else r :: l) [r1; r2] [] = [r2; r1].
Proof.
  intros Hne. cbn [fold_left]. rewrite (decide_False (P := r1 ∈ [])) by apply not_elem_of_nil.
  rewrite decide_False; [done|]. by rewrite list_elem_of_singleton.
Qed.

(** The ruleset after a configuration. *)
Definition configured (machineIP : addr) (wgPort : Z) (f : family) (rules : list rule) (m : ruleset) : ruleset :=
  <[input f := with_jump rules]> (<[uncloud_input f := input_rules machineIP wgPort f]> m).

Lemma ConfigureIptablesChains_ok machineIP wgPort s s' u : ConfigureIptablesChains ip machineIP wgPort s = (s', Ok u) ->
  exists r4 r6, chains s !! input IPv4 = Some r4 /\ chains s !! input IPv6 = Some r6 /\
    chains s' = configured machineIP wgPort IPv6 r6 (configured machineIP wgPort IPv4 r4 (chains s)).
Proof.
  intros (s2 & u2 & (s1 & u1 & H1 & H2)%st_bind_Ok & (s3 & u3 & H3 & H4)%st_bind_Ok)%st_bind_Ok.
  apply create_chain_ok in H1 as (r4 & Hr4 & H1). apply create_chain_ok in H2 as (r6 & Hr6 & H2).
  rewrite H1, !lookup_insert_ne in Hr6 by done. exists r4, r6. split; [done|]. split; [done|].
  apply insert_rules_ok with (l := []) in H3; [|by rewrite H2, H1, lookup_insert_ne, lookup_insert_ne, lookup_insert_ne, lookup_insert_eq].
  apply insert_rules_ok with (l := []) in H4; [|by rewrite H3, lookup_insert_ne, H2, lookup_insert_ne, lookup_insert_eq].
  rewrite H4, H3, H2, H1. unfold configured. clear.
  rewrite (insert_two (acceptUnregistryRule machineIP)), (insert_two acceptMachineAPIRule) by discriminate. apply map_eq. intros k.
  destruct (decide (k = input IPv4)) as [->|]; [by simplify_map_eq|].
  destruct (decide (k = input IPv6)) as [->|]; [by simplify_map_eq|].
  destruct (decide (k = uncloud_input IPv4)) as [->|]; [by simplify_map_eq|].
  destruct (decide (k = uncloud_input IPv6)) as [->|]; [by simplify_map_eq|].
  by rewrite !lookup_insert_ne by done.
Qed.

Lemma unless_no_chain_ok wrap (op : S -> S * option string) s s' u : unless_no_chain wrap op s = (s', Ok u) ->
  exists e, op s = (s', e) /\ match e with None => True | Some e => fails_as_missing e end.
Proof.
  unfold unless_no_chain, fails_as_missing. destruct (op s) as [s1 [e|]].
  - destruct (contains "No chain" e) eqn:Hc; [|done]. intros [= ->]. by exists (Some e).
  - intros [= ->]. by exists None.
Qed.

Lemma cleanup_family_ok f s s' u : cleanup_family ip f s = (s', Ok u) ->
  chains s' = delete (uncloud_input f) (alter (remove_rule jumpRule) (input f) (chains s)).
Proof.
  intros (s1 & u1 & H1%st_call_Ok & (s2 & u2 & H2 & H3)%st_bind_Ok)%st_bind_Ok.
  apply program_law in H1. fold (input f) in H1. apply unless_no_chain_ok in H2 as (e2 & H2 & He2). apply unless_no_chain_ok in H3 as (e3 & H3 & He3).
  apply flush_law in H2. apply delete_chain_law in H3. fold (uncloud_input f) in H2, H3.
  destruct e2 as [e2|]; destruct H2 as [H2 H2'].
  - specialize (H2' He2). destruct e3 as [e3|].
    + destruct H3 as [H3 _]. rewrite H3, H2, H1. rewrite delete_id; [done|]. by rewrite <- H1.
    + by rewrite H3, H2, H1.
  - destruct e3 as [e3|].
    + destruct H3 as [_ H3]. specialize (H3 He3). rewrite H2', lookup_insert_eq in H3. done.
    + by rewrite H3, H2', H1, delete_insert_eq.
Qed.

Lemma CleanupIptablesChains_ok s s' u : CleanupIptablesChains ip s = (s', Ok u) ->
  chains s' = delete (uncloud_input IPv6) (alter (remove_rule jumpRule) (input IPv6)
    (delete (uncloud_input IPv4) (alter (remove_rule jumpRule) (input IPv4) (chains s)))).
Proof.
  intros (s1 & u1 & H1 & H2)%st_bind_Ok. apply cleanup_family_ok in H1. apply cleanup_family_ok in H2. by rewrite H2, H1.
Qed.
End Chains.

(** *** The jump *)
Lemma before_reject_split r rules : exists a b, before_reject r rules = a ++ r :: b /\ rules = a ++ b /\ Forall (fun r' => rejects r' = false) a /\
  match b with [] => True | r' :: _ => rejects r' = true end.
Proof.
  induction rules as [|r' rules IH]; cbn [before_reject]; [by exists [], []|].
  destruct (rejects r') eqn:Hr; [by exists [], (r' :: rules)|].
  destruct IH as (a & b & -> & -> & Ha & Hb). exists (r' :: a), b. split; [done|]. split; [done|]. split; [by constructor|done].
Qed.

Lemma remove_rule_NoDup r rules : NoDup rules -> r ∉ remove_rule r rules.
Proof.
  induction 1 as [|r' rules Hr Hnd IH]; cbn [remove_rule]; [apply not_elem_of_nil|].
  case_decide as Hd; [by subst|]. rewrite not_elem_of_cons. done.
Qed.

Lemma remove_rule_app r a b : r ∉ a -> remove_rule r (a ++ r :: b) = a ++ b.
Proof.
  induction a as [|r' a IH]; cbn [app remove_rule]; [by rewrite decide_True|].
  rewrite not_elem_of_cons. intros [Hne Hnin]. rewrite decide_False by done. by rewrite IH.
Qed.

Lemma remove_jump rules : jumpRule ∉ rules -> remove_rule jumpRule (with_jump rules) = rules.
Proof.
  intros Hnin. unfold with_jump. rewrite decide_False by done.
  destruct (before_reject_split jumpRule rules) as (a & b & -> & Heq & _). rewrite Heq in *.
  apply remove_rule_app. set_solver.
Qed.

Lemma jump_in_with_jump rules : jumpRule ∈ with_jump rules.
Proof.
  unfold with_jump. destruct (decide (jumpRule ∈ rules)); [done|].
  destruct (before_reject_split jumpRule rules) as (a & b & -> & _). set_solver.
Qed.

Lemma with_jump_again rules : with_jump (with_jump rules) = with_jump rules.
Proof. unfold with_jump at 1. by rewrite decide_True by apply jump_in_with_jump. Qed.

(** A rule is before any rule that drops or rejects. *)
Definition ahead (rules : list rule) : Prop :=
  exists a b, rules = a ++ jumpRule :: b /\ Forall (fun r => rejects r = false) a.

(** C28: The firewall of a machine, on which no jump to [UNCLOUD-INPUT] is behind a rule that drops or rejects. When
    [ConfigureIptablesChains] succeeds, both families
    have the jump from [INPUT] to [UNCLOUD-INPUT] before any rule that drops or rejects: where it was, or
    right before the first such rule, with every other rule of [INPUT] as it was;
    [UNCLOUD-INPUT] has exactly the rules for the given address and port, whatever it had
    before; and no other chain changes.  Configuring again changes nothing, and
    [CleanupIptablesChains] takes away what was configured: a host that had no jump and no
    such chain has the rules it had before. (A jump that is there already is left where it is, so
    that one behind such a rule stays there: [jump_behind_drop].) *)
Theorem firewall_configuration {S : Type} {ip : Iptables S} `{!IptablesSpec ip} (machineIP : addr) (wgPort : Z) (s s1 : S)
  (Hahead : forall f rules, chains s !! input f = Some rules -> jumpRule ∈ rules -> ahead rules)
  (Hconf : ConfigureIptablesChains ip machineIP wgPort s = (s1, Ok tt)) :
  (forall f, chains s1 !! uncloud_input f = Some (input_rules machineIP wgPort f) /\
     exists rules rules1, chains s !! input f = Some rules /\ chains s1 !! input f = Some rules1 /\
       ahead rules1 /\ (jumpRule ∈ rules -> rules1 = rules) /\
       (jumpRule ∉ rules -> exists a b, rules1 = a ++ jumpRule :: b /\ rules = a ++ b /\
          Forall (fun r => rejects r = false) a /\ match b with [] => True | r :: _ => rejects r = true end)) /\
  (forall k, (forall f, k <> input f /\ k <> uncloud_input f) -> chains s1 !! k = chains s !! k) /\
  (forall s2, ConfigureIptablesChains ip machineIP wgPort s1 = (s2, Ok tt) -> chains s2 = chains s1) /\
  (forall s2, CleanupIptablesChains ip s1 = (s2, Ok tt) ->
     (forall f, chains s !! uncloud_input f = None /\ forall rules, chains s !! input f = Some rules -> jumpRule ∉ rules) ->
     chains s2 = chains s).
Proof.
  apply ConfigureIptablesChains_ok in Hconf as (r4 & r6 & H4 & H6 & Hs1). unfold configured in Hs1.
  assert (Hin : forall f, exists rules, chains s !! input f = Some rules /\ chains s1 !! input f = Some (with_jump rules)).
  { intros []; [exists r4|exists r6]; (split; [done|]); rewrite Hs1; by simplify_map_eq. }
  assert (Hun : forall f, chains s1 !! uncloud_input f = Some (input_rules machineIP wgPort f)).
  { intros []; rewrite Hs1; by simplify_map_eq. }
  split; [|split; [|split]].
  - intros f. split; [done|]. destruct (Hin f) as (rules & Hr & Hr1). exists rules, (with_jump rules). split; [done|]. split; [done|].
    unfold with_jump. destruct (decide (jumpRule ∈ rules)) as [Hj|Hj]; [by split_and!; [apply (Hahead f)|..]|].
    destruct (before_reject_split jumpRule rules) as (a & b & Ha1 & Ha2 & Ha3 & Ha4). split_and!; [by exists a, b|done|by exists a, b].
  - intros k Hk. destruct (Hk IPv4), (Hk IPv6). rewrite Hs1. by rewrite !lookup_insert_ne by done.
  - intros s2 (q4 & q6 & Hq4 & Hq6 & Hs2)%ConfigureIptablesChains_ok. rewrite Hs2. unfold configured.
    rewrite Hs1 in Hq4, Hq6 |- *. simplify_map_eq. rewrite !with_jump_again. apply map_eq. intros k.
    destruct (decide (k = input IPv4)) as [->|]; [by simplify_map_eq|].
    destruct (decide (k = input IPv6)) as [->|]; [by simplify_map_eq|].
    destruct (decide (k = uncloud_input IPv4)) as [->|]; [by simplify_map_eq|].
    destruct (decide (k = uncloud_input IPv6)) as [->|]; [by simplify_map_eq|].
    by rewrite !lookup_insert_ne by done.
  - intros s2 Hs2%CleanupIptablesChains_ok Hfresh. rewrite Hs2, Hs1.
    destruct (Hfresh IPv4) as [Hu4 Hj4], (Hfresh IPv6) as [Hu6 Hj6]. apply map_eq. intros k.
    destruct (decide (k = uncloud_input IPv6)) as [->|]; [by rewrite lookup_delete_eq|]. rewrite lookup_delete_ne by done.
    destruct (decide (k = input IPv6)) as [->|].
    { rewrite lookup_alter_eq, lookup_delete_ne, lookup_alter_ne, lookup_insert_eq by done. cbn. rewrite remove_jump by eauto. done. }
    rewrite lookup_alter_ne by done.
    destruct (decide (k = uncloud_input IPv4)) as [->|]; [by rewrite lookup_delete_eq|]. rewrite lookup_delete_ne by done.
    destruct (decide (k = input IPv4)) as [->|].
    { rewrite lookup_alter_eq, !lookup_insert_ne, lookup_insert_eq by done. cbn. rewrite remove_jump by eauto. done. }
    rewrite lookup_alter_ne by done. by rewrite !lookup_insert_ne by done.
Qed.

(** ** The Docker network ([controller_linux.go]) *)
Definition NetworkName : string := "uncloud".
Definition driverMTUOption : string := "com.docker.network.driver.mtu".
Definition trustedInterfacesOption : string := "com.docker.network.bridge.trusted_host_interfaces".

Record NetworkResource := mkNetworkResource {
  nr_ID : string; nr_Subnets : list string; nr_Options : gmap string string; nr_Containers : list string }.

Record NetworkCreateOptions := mkNetworkCreateOptions {
  nco_Driver : string; nco_Scope : string; nco_Subnets : list string; nco_Labels : gmap string string;
  nco_Options : gmap string string }.

(** An error of the Docker client, and whether it says that the object is not found. *)
Record docker_err := mkDockerErr { de_NotFound : bool; de_Text : string }.

Record DockerNetworks (S : Type) := mkDockerNetworks {
  dn_NetworkInspect : S -> result docker_err NetworkResource;
  dn_NetworkRemove : S -> S * option docker_err;
  dn_NetworkCreate : NetworkCreateOptions -> S -> S * option docker_err;
  dn_ContainerList : S -> result docker_err (list string);            (* managed containers, stopped ones too *)
  dn_ContainerStop : string -> S -> S * option docker_err;
  dn_ContainerRemove : string -> S -> S * option docker_err           (* with its anonymous volumes *)
}.
Arguments dn_NetworkInspect {S}. Arguments dn_NetworkRemove {S}. Arguments dn_NetworkCreate {S}.
Arguments dn_ContainerList {S}. Arguments dn_ContainerStop {S}. Arguments dn_ContainerRemove {S}.

(** [NetworkPanic]: an index out of range, of a network without IPAM configuration or with a
    short ID. *)
Inductive net_error :=
| InspectNetwork (e : docker_err) | RemoveNetwork (e : docker_err) | CreateNetwork (e : docker_err)
| NetworkIptables (e : fw_error) | NetworkPanic.

Section Network.
Context {S : Type} (ip : Iptables S) (docker : DockerNetworks S).
#[local] Open Scope st_scope.
Notation program A := (stateful S net_error A).

Definition create_options (subnet : prefix) (mtu : Z) : NetworkCreateOptions :=
  mkNetworkCreateOptions "bridge" "local" [prefix_String subnet] {[ LabelManaged := "" ]}
    {[ trustedInterfacesOption := WireGuardInterfaceName; driverMTUOption := itoa_int mtu ]}.

(** Whether the network has to be created, and the one there is. *)
Definition network_check (subnet : prefix) (mtu : Z) : program (bool * option NetworkResource) := fun s =>
  match dn_NetworkInspect docker s with
  | Err e => if de_NotFound e then (s, Ok (true, None)) else (s, Err (InspectNetwork e))
  | Ok nw =>
      let remove := (let* _ := st_call RemoveNetwork (dn_NetworkRemove docker) in st_ret (true, None)) in
      match nr_Subnets nw with
      | [] => (s, Err NetworkPanic)
      | old :: _ =>
          if negb (String.eqb old (prefix_String subnet)) then remove s
          else if negb (String.eqb (default "" (nr_Options nw !! driverMTUOption)) (itoa_int mtu)) then
            match nr_Containers nw with
            | [] => remove s
            | _ => (s, Ok (false, Some nw))
            end
          else (s, Ok (false, Some nw))
      end
  end.

(** ["br-" + nw.ID[:12]] *)
Definition bridge_name (nw : NetworkResource) : option string :=
  if (String.length (nr_ID nw) <? 12)%nat then None else Some ("br-" +:+ String.substring 0 12 (nr_ID nw)).

Definition inspect_network : program NetworkResource := st_read (fun s => wrap_err InspectNetwork (dn_NetworkInspect docker s)).

Definition of_fw {A} (p : stateful S fw_error A) : program A := fun s =>
  match p s with
  | (s', Ok a) => (s', Ok a)
  | (s', Err e) => (s', Err (NetworkIptables e))
  end.

Definition EnsureUncloudNetwork (subnet : prefix) (mtu : Z) (dnsServer : addr) : program unit :=
  let* (needsCreation, found) := network_check subnet mtu in
  let* nw := (match needsCreation, found with
              | false, Some nw => st_ret nw
              | _, _ => let* _ := st_call CreateNetwork (dn_NetworkCreate docker (create_options subnet mtu)) in inspect_network
              end) in
  match bridge_name nw with
  | None => st_throw NetworkPanic
  | Some bridge => of_fw (configureIptables ip bridge subnet dnsServer)
  end.

(** *** [Cleanup]: everything is tried, and the errors are joined *)
Inductive cleanup_error :=
| ListManaged (e : docker_err) | StopContainer (id : string) (e : docker_err) | RemoveContainer (id : string) (e : docker_err)
| CleanupRules (e : fw_error) | CleanupRemoveNetwork (e : docker_err) | CleanupInspectNetwork (e : docker_err) | CleanupPanic.

(** The error unless the object is not found. *)
Definition unless_gone (wrap : docker_err -> cleanup_error) (e : option docker_err) : list cleanup_error :=
  match e with
  | Some e => if de_NotFound e then [] else [wrap e]
  | None => []
  end.

Fixpoint remove_containers (ids : list string) (s : S) : S * list cleanup_error :=
  match ids with
  | [] => (s, [])
  | id :: rest =>
      let (s1, e1) := dn_ContainerStop docker id s in
      let (s2, e2) := dn_ContainerRemove docker id s1 in
      let (s3, errs) := remove_containers rest s2 in
      (s3, unless_gone (StopContainer id) e1 ++ unless_gone (RemoveContainer id) e2 ++ errs)
  end.

(** A subnet that does not parse leaves the rules. *)
Definition cleanup_network (s : S) : S * list cleanup_error :=
  match dn_NetworkInspect docker s with
  | Err e => (s, unless_gone CleanupInspectNetwork (Some e))
  | Ok nw =>
      match bridge_name nw with
      | None => (s, [CleanupPanic])
      | Some bridge =>
          let (s1, errs) := match head (nr_Subnets nw) ≫= ParsePrefix with
                            | Some subnet => match cleanupIptables ip bridge subnet s with
                                             | (s1, Ok _) => (s1, [])
                                             | (s1, Err e) => (s1, [CleanupRules e])
                                             end
                            | None => (s, [])
                            end in
          let (s2, e) := dn_NetworkRemove docker s1 in
          (s2, errs ++ unless_gone CleanupRemoveNetwork e)
      end
  end.

Definition Cleanup (s : S) : S * list cleanup_error :=
  let (s1, errs) := match dn_ContainerList docker s with
                    | Err e => (s, [ListManaged e])
                    | Ok ids => remove_containers ids s
                    end in
  let (s2, errs') := cleanup_network s1 in
  (s2, errs ++ errs').
End Network.

(** What the engine does.  Creating or removing a network may change the chains of the
    engine itself, so nothing is said about them. *)
Class DockerNetworksSpec {S : Type} (ip : Iptables S) (docker : DockerNetworks S) := {
  the_network : S -> option NetworkResource;
  managed : S -> list string;

  inspect_law : forall s, match dn_NetworkInspect docker s with
                          | Ok nw => the_network s = Some nw
                          | Err e => de_NotFound e = true -> the_network s = None
                          end;
  remove_law : forall s s' e, dn_NetworkRemove docker s = (s', e) -> managed s' = managed s /\
    match e with
    | None => the_network s' = None
    | Some e => the_network s' = the_network s /\ (de_NotFound e = true -> the_network s = None)
    end;
  create_law : forall o s s' e, dn_NetworkCreate docker o s = (s', e) ->
    match e with
    | None => exists id, the_network s' = Some (mkNetworkResource id (nco_Subnets o) (nco_Options o) [])
    | Some _ => the_network s' = the_network s
    end;
  list_containers_law : forall s ids, dn_ContainerList docker s = Ok ids -> managed s = ids;
  stop_law : forall id s s' e, dn_ContainerStop docker id s = (s', e) -> managed s' = managed s;
  remove_container_law : forall id s s' e, dn_ContainerRemove docker id s = (s', e) ->
    match e with
    | None => managed s' = filter (fun i => i <> id) (managed s)
    | Some e => managed s' = managed s /\ (de_NotFound e = true -> id ∉ managed s)
    end;
  (** The rules of iptables are not the network. *)
  program_frame : forall f t c a r s s' e, ip_ProgramRule ip f t c a r s = (s', e) ->
    the_network s' = the_network s /\ managed s' = managed s
}.

Section EnsureNetwork.
Context {S : Type} {ip : Iptables S} {docker : DockerNetworks S} `{!IptablesSpec ip} `{!DockerNetworksSpec ip docker}.
#[local] Open Scope st_scope.

Definition docker_user : family * table * string := (IPv4, Filter, DockerUserChain).
Definition postrouting : family * table * string := (IPv4, Nat, "POSTROUTING").

(** A network that can be kept: it has the subnet, and the MTU unless containers use it. *)
Definition serves (subnet : prefix) (mtu : Z) (nw : NetworkResource) : Prop :=
  head (nr_Subnets nw) = Some (prefix_String subnet) /\
  (nr_Options nw !! driverMTUOption = Some (itoa_int mtu) \/ nr_Containers nw <> []).

Lemma insert_rules_frame f rules : forall s s' u, insert_rules ip f rules s = (s', Ok u) ->
  the_network (docker := docker) s' = the_network s.
Proof.
  induction rules as [|r rules IH]; intros s s' u; cbn [insert_rules]; [by intros [= <- _]|].
  intros (s1 & u1 & H1%st_call_Ok & H2)%st_bind_Ok. apply program_frame in H1 as [H1 _]. by rewrite (IH _ _ _ H2).
Qed.

Lemma insert_rules_chains f rules : forall s s' u, insert_rules ip f rules s = (s', Ok u) -> rules <> [] ->
  (exists l, chains s' !! uncloud_input f = Some l /\ Forall (fun r => r ∈ l) rules) /\
  (forall k, k <> uncloud_input f -> chains s' !! k = chains s !! k).
Proof.
  intros s s' u Hi Hne. assert (Hl : exists l, chains s !! uncloud_input f = Some l).
  { destruct rules as [|r rules]; [done|]. cbn [insert_rules] in Hi. apply st_bind_Ok in Hi as (s1 & u1 & H1%st_call_Ok & _).
    apply program_law in H1 as (l & Hl & _). eauto. }
  destruct Hl as [l Hl]. rewrite (insert_rules_ok _ _ _ _ _ _ Hi Hl). split.
  - eexists. split; [by rewrite lookup_insert_eq|]. clear.
    assert (Hgen : forall l, (forall r, r ∈ l -> r ∈ fold_left (fun l r => if decide (r ∈ l) then l else r :: l) rules l) /\
      Forall (fun r => r ∈ fold_left (fun l r => if decide (r ∈ l) then l else r :: l) rules l) rules).
    { induction rules as [|r rules IH]; intros l'; cbn [fold_left]; [split; [done|constructor]|].
      destruct (IH (if decide (r ∈ l') then l' else r :: l')) as [Hk Hf]. split.
      - intros r' Hr'. apply Hk. case_decide; [done|]. by right.
      - constructor; [|done]. apply Hk. case_decide; [done|]. by left. }
    apply Hgen.
  - intros k Hk. by rewrite lookup_insert_ne.
Qed.

(** The rules of the network. *)
Definition network_rules (bridge : string) (subnet : prefix) (dnsServer : addr) (m : ruleset) : Prop :=
  (exists l, m !! docker_user = Some l /\ wgRule bridge ∈ l) /\
  (exists l, m !! uncloud_input IPv4 = Some l /\ dnsRule bridge dnsServer "udp" ∈ l /\ dnsRule bridge dnsServer "tcp" ∈ l) /\
  (exists l, m !! postrouting = Some l /\ skipMasqueradeRule subnet ∈ l).

(** The rule that skips masquerading is moved to the top of [POSTROUTING], before that of
    Docker, unless it was there twice. *)
Lemma configureIptables_ok bridge subnet dnsServer s s' u : configureIptables ip bridge subnet dnsServer s = (s', Ok u) ->
  network_rules bridge subnet dnsServer (chains s') /\ the_network (docker := docker) s' = the_network s /\
  (forall l, chains s !! postrouting = Some l -> NoDup l -> exists l', chains s' !! postrouting = Some (skipMasqueradeRule subnet :: l')).
Proof.
  intros (s1 & u1 & H1%st_call_Ok & (s2 & u2 & H2 & (s3 & u3 & H3%st_call_Ok & H4%st_call_Ok)%st_bind_Ok)%st_bind_Ok)%st_bind_Ok.
  pose proof (program_frame _ _ _ _ _ _ _ _ H1) as [F1 _]. pose proof (insert_rules_frame _ _ _ _ _ H2) as F2.
  pose proof (program_frame _ _ _ _ _ _ _ _ H3) as [F3 _]. pose proof (program_frame _ _ _ _ _ _ _ _ H4) as [F4 _].
  apply program_law in H1 as (lu & Hlu & H1). fold docker_user in Hlu, H1.
  apply insert_rules_chains in H2 as [(li & Hli & Hdns) H2]; [|done].
  apply program_law in H3. fold postrouting in H3. apply program_law in H4 as (lp & Hlp & H4). fold postrouting in Hlp, H4.
  assert (Hu : exists l, chains s1 !! docker_user = Some l /\ wgRule bridge ∈ l).
  { rewrite H1. destruct (decide (wgRule bridge ∈ lu)); [exists lu; by split|]. exists (wgRule bridge :: lu). split; [by rewrite lookup_insert_eq|]. apply list_elem_of_here. }
  destruct Hu as (l & Hl & Hin).
  assert (Hs4 : forall k, k <> postrouting -> chains s' !! k = chains s2 !! k).
  { intros k Hk. rewrite H4. assert (chains s3 !! k = chains s2 !! k) as Hs3 by (rewrite H3; by apply lookup_alter_ne).
    destruct (decide (skipMasqueradeRule subnet ∈ lp)); [done|]. by rewrite lookup_insert_ne. }
  split; [split; [|split]|split; [congruence|]].
  - exists l. rewrite Hs4, H2 by done. done.
  - exists li. rewrite Hs4 by done. inversion Hdns as [|? ? Hd1 Hd2]. inversion Hd2. done.
  - rewrite H4. destruct (decide (skipMasqueradeRule subnet ∈ lp)); [exists lp; by split|]. exists (skipMasqueradeRule subnet :: lp). split; [by rewrite lookup_insert_eq|]. apply list_elem_of_here.
  - intros l0 Hl0 Hnd. rewrite H4. destruct (decide (skipMasqueradeRule subnet ∈ lp)) as [Hskip|_]; [|eexists; by rewrite lookup_insert_eq].
    exfalso. rewrite H3, lookup_alter_eq, H2 in Hlp by done.
    assert (Hp1 : chains s1 !! postrouting = chains s !! postrouting).
    { rewrite H1. destruct (decide (wgRule bridge ∈ lu)); [done|]. by rewrite lookup_insert_ne. }
    rewrite Hp1, Hl0 in Hlp. injection Hlp as <-.
    revert Hskip. by apply remove_rule_NoDup.
Qed.

(** The Docker network of a machine.  When [EnsureUncloudNetwork] succeeds, there is a
    network with the subnet of the machine, and with its MTU unless containers hold on to
    the old one; one that could be kept is the one that was there before.  The rules for
    its bridge are there, which let the cluster in and the DNS queries of its containers
    out, and skip masquerading. *)
Lemma EnsureUncloudNetwork_ok subnet mtu dnsServer s s' :
  EnsureUncloudNetwork ip docker subnet mtu dnsServer s = (s', Ok tt) ->
  exists nw bridge, the_network (docker := docker) s' = Some nw /\ serves subnet mtu nw /\
    (forall old, the_network (docker := docker) s = Some old -> serves subnet mtu old -> nw = old) /\
    bridge_name nw = Some bridge /\ network_rules bridge subnet dnsServer (chains s') /\
    exists s2, configureIptables ip bridge subnet dnsServer s2 = (s', Ok tt).
Proof.
  intros (s1 & [needs found] & Hcheck & (s2 & nw & Hcreate & Hrules)%st_bind_Ok)%st_bind_Ok.
  assert (Hnw : the_network (docker := docker) s2 = Some nw /\ serves subnet mtu nw /\
    forall old, the_network (docker := docker) s = Some old -> serves subnet mtu old -> nw = old).
  { assert (Hmade : forall s1, (let* _ := st_call CreateNetwork (dn_NetworkCreate docker (create_options subnet mtu)) in inspect_network docker) s1 = (s2, Ok nw) ->
      the_network (docker := docker) s2 = Some nw /\ serves subnet mtu nw).
    { clear. intros s1 (s3 & u & H1%st_call_Ok & H2)%st_bind_Ok. apply create_law in H1 as [id Hid].
      unfold inspect_network, st_read in H2. pose proof (inspect_law s3) as Hi.
      destruct (dn_NetworkInspect docker s3) as [nw'|]; [|done]. injection H2 as <- <-.
      rewrite Hid in Hi. injection Hi as <-. split; [done|]. split; [done|]. left.
      cbn [nr_Options nco_Options create_options]. apply lookup_insert_Some. right. split; [done|]. apply lookup_insert_eq. }
    unfold network_check in Hcheck. pose proof (inspect_law s) as Hi.
    assert (Hgone : forall s1, (let* _ := st_call RemoveNetwork (dn_NetworkRemove docker) in st_ret (true, None)) s = (s1, Ok (needs, found)) ->
      needs = true /\ found = @None NetworkResource) by (clear; by intros s1 (s3 & u & _ & [= _ <- <-])%st_bind_Ok).
    destruct (dn_NetworkInspect docker s) as [nw0|e].
    - destruct (nr_Subnets nw0) as [|old rest] eqn:Hsub; [done|].
      destruct (String.eqb_spec old (prefix_String subnet)) as [->|Hne]; cbn [negb] in Hcheck.
      + destruct (String.eqb_spec (default "" (nr_Options nw0 !! driverMTUOption)) (itoa_int mtu)) as [Hmtu|Hmtu]; cbn [negb] in Hcheck.
        * injection Hcheck as <- <- <-. injection Hcreate as <- <-. rewrite Hi. split; [done|]. split; [|by intros old [= <-]].
          split; [by rewrite Hsub|]. left. destruct (nr_Options nw0 !! driverMTUOption) as [m|]; cbn in Hmtu; [by rewrite Hmtu|].
          exfalso. by apply (itoa_int_nonempty mtu).
        * destruct (nr_Containers nw0) as [|c cs] eqn:Hcs.
          -- apply Hgone in Hcheck as [-> ->]. destruct (Hmade _ Hcreate) as [Hn Hs]. split; [done|]. split; [done|].
             intros old Hold [_ [Hm|Hc]]; rewrite Hi in Hold; injection Hold as <-; [by rewrite Hm in Hmtu|done].
          -- injection Hcheck as <- <- <-. injection Hcreate as <- <-. rewrite Hi. split; [done|]. split; [|by intros old [= <-]].
             split; [by rewrite Hsub|]. right. by rewrite Hcs.
      + apply Hgone in Hcheck as [-> ->]. destruct (Hmade _ Hcreate) as [Hn Hs]. split; [done|]. split; [done|].
        intros old' Hold [Hhead _]. rewrite Hi in Hold. injection Hold as <-. rewrite Hsub in Hhead. by injection Hhead.
    - destruct (de_NotFound e); [|done]. injection Hcheck as <- <- <-. destruct (Hmade _ Hcreate) as [Hn Hs].
      split; [done|]. split; [done|]. intros old Hold. by rewrite Hi in Hold. }
  destruct (bridge_name nw) as [bridge|] eqn:Hb; [|done]. unfold of_fw in Hrules.
  destruct (configureIptables ip bridge subnet dnsServer s2) as [s3 [u|]] eqn:Hc; [|done]. injection Hrules as <- _.
  destruct u. pose proof (configureIptables_ok _ _ _ _ _ _ Hc) as (Hr & Hf & _). destruct Hnw as (Hn & Hs & Hkeep).
  exists nw, bridge. split; [by rewrite Hf|]. split; [done|]. split; [done|]. split; [done|]. split; [done|by exists s2].
Qed.

Lemma cleanupIptables_frame bridge subnet s s' r : cleanupIptables ip bridge subnet s = (s', r) ->
  the_network (docker := docker) s' = the_network s /\ managed (docker := docker) s' = managed s.
Proof.
  unfold cleanupIptables, st_bind, st_call.
  destruct (ip_ProgramRule ip IPv4 Filter DockerUserChain Delete (wgRule bridge) s) as [s1 e1] eqn:H1.
  pose proof (program_frame _ _ _ _ _ _ _ _ H1) as [F1 M1]. destruct e1 as [e1|]; [by intros [= <- _]|].
  destruct (ip_ProgramRule ip IPv4 Nat "POSTROUTING" Delete (skipMasqueradeRule subnet) s1) as [s2 e2] eqn:H2.
  pose proof (program_frame _ _ _ _ _ _ _ _ H2) as [F2 M2]. destruct e2 as [e2|]; intros [= <- _]; split; congruence.
Qed.

Lemma filter_all {A} (P : A -> Prop) `{forall x, Decision (P x)} l : Forall P l -> filter P l = l.
Proof. induction 1 as [|x l Hx _ IH]; [done|]. by rewrite filter_cons_True, IH. Qed.

Lemma filter_none {A} (P : A -> Prop) `{forall x, Decision (P x)} l : Forall (fun x => ~ P x) l -> filter P l = [].
Proof. induction 1 as [|x l Hx _ IH]; [done|]. by rewrite filter_cons_False. Qed.

Lemma unless_gone_nil wrap e : unless_gone wrap e = [] -> match e with None => True | Some e => de_NotFound e = true end.
Proof. destruct e as [e|]; [|done]. cbn. by destruct (de_NotFound e). Qed.

Lemma remove_containers_ok ids : forall s s', remove_containers docker ids s = (s', []) ->
  managed (docker := docker) s' = filter (fun i => i ∉ ids) (managed (docker := docker) s).
Proof.
  induction ids as [|id ids IH]; intros s s'; cbn [remove_containers].
  - intros [= <-]. by rewrite filter_all by (apply Forall_forall; intros i _; apply not_elem_of_nil).
  - destruct (dn_ContainerStop docker id s) as [s1 e1] eqn:H1. destruct (dn_ContainerRemove docker id s1) as [s2 e2] eqn:H2.
    destruct (remove_containers docker ids s2) as [s3 errs] eqn:H3. intros [= -> He].
    apply app_eq_nil in He as [_ He]. apply app_eq_nil in He as [He2 ->]. apply unless_gone_nil in He2.
    rewrite (IH _ _ H3). apply stop_law in H1. apply remove_container_law in H2.
    assert (Hm : managed (docker := docker) s2 = filter (fun i => i <> id) (managed (docker := docker) s)).
    { destruct e2 as [e2|]; [|by rewrite H2, H1]. destruct H2 as [-> Hnin]. rewrite H1 in *.
      rewrite filter_all; [done|]. apply Forall_forall. intros i Hi ->. by apply (Hnin He2). }
    rewrite Hm, list_filter_filter. apply list_filter_iff. intros i. rewrite not_elem_of_cons. tauto.
Qed.

(** A cleanup without errors leaves no managed container and no network. *)
Lemma Cleanup_ok s s' : Cleanup ip docker s = (s', []) ->
  managed (docker := docker) s' = [] /\ the_network (docker := docker) s' = None.
Proof.
  unfold Cleanup. destruct (dn_ContainerList docker s) as [ids|e] eqn:Hl.
  2: { destruct (cleanup_network ip docker s). done. }
  destruct (remove_containers docker ids s) as [s1 errs] eqn:Hr. destruct (cleanup_network ip docker s1) as [s2 errs'] eqn:Hn.
  intros [= -> He]. apply app_eq_nil in He as [-> ->]. apply remove_containers_ok in Hr. apply list_containers_law in Hl.
  assert (Hm : managed (docker := docker) s1 = []).
  { rewrite Hr, Hl. apply filter_none, Forall_forall. intros i Hi Hnin. by apply Hnin. }
  unfold cleanup_network in Hn. pose proof (inspect_law s1) as Hi. destruct (dn_NetworkInspect docker s1) as [nw|e].
  - destruct (bridge_name nw) as [bridge|]; [|done].
    assert (Hframe : forall s2 errs, match head (nr_Subnets nw) ≫= ParsePrefix with
        | Some subnet => match cleanupIptables ip bridge subnet s1 with (s1, Ok _) => (s1, []) | (s1, Err e) => (s1, [CleanupRules e]) end
        | None => (s1, []) end = (s2, errs) -> the_network (docker := docker) s2 = the_network s1 /\ managed (docker := docker) s2 = managed s1).
    { intros s2 errs. destruct (head (nr_Subnets nw) ≫= ParsePrefix) as [subnet|]; [|by intros [= <- _]].
      destruct (cleanupIptables ip bridge subnet s1) as [s3 r] eqn:Hc. apply cleanupIptables_frame in Hc.
      by destruct r; intros [= <- _]. }
    destruct (match head (nr_Subnets nw) ≫= ParsePrefix with Some _ => _ | None => _ end) as [s2 errs].
    destruct (Hframe _ _ eq_refl) as [Hf1 Hf2].
    destruct (dn_NetworkRemove docker s2) as [s3 e] eqn:Hrm. injection Hn as -> He. apply app_eq_nil in He as [_ He].
    apply unless_gone_nil in He. apply remove_law in Hrm as [Hrm1 Hrm2]. split; [congruence|].
    destruct e as [e|]; [|done]. destruct Hrm2 as [Hsame Hnone]. rewrite Hsame. by apply Hnone.
  - injection Hn as -> He. split; [done|]. apply Hi. by destruct (de_NotFound e).
Qed.
End EnsureNetwork.

(** ** A concrete iptables *)
Module Tables.

Fixpoint listedb (i : nat) (rules : list rule) (lines : list string) : bool :=
  match rules, lines with
  | [], [] => true
  | r :: rules, line :: lines =>
      match Fields line with
      | num :: second :: _ =>
          String.eqb num (sprint (Z.of_nat i)) &&
          match target_of r with
          | Some t => String.eqb second t
          | None => negb (String.eqb second "DROP" || String.eqb second "REJECT")
          end && listedb (Datatypes.S i) rules lines
      | _ => false
      end
  | _, _ => false
  end.

Definition header_ok (l : string) : bool :=
  match Fields l with
  | _ :: t :: _ => negb (String.eqb t "DROP" || String.eqb t "REJECT")
  | _ => true
  end.

Fixpoint rule_lines (i : nat) (rules : list rule) : list string :=
  match rules with
  | [] => []
  | r :: rest => (sprint (Z.of_nat i) +:+ "    " +:+ default "all" (target_of r) +:+ "  --  anywhere") :: rule_lines (Datatypes.S i) rest
  end.

(** Listings of rules that do not print well are errors. *)
Definition listing (c : string) (rules : list rule) : result string string :=
  let header := ["Chain " +:+ c +:+ " (policy ACCEPT)"; "num  target     prot opt source"] in
  let lines := rule_lines 1 rules in
  let out := join newline (header ++ lines ++ [""]) in
  if bool_decide (split_byte (ascii_of_nat 10) out = header ++ lines ++ [""]) && listedb 1 rules lines && forallb header_ok header &&
     (Z.of_nat (length rules) <? 2 ^ 32)
  then Ok out else Err "cannot list".

Definition raw (f : family) (args : list string) (s : ruleset) : ruleset * option string :=
  match args with
  | _ :: t :: cmd :: c :: rest =>
      let k := (f, Filter, c) in
      if negb (String.eqb t "filter") then (s, Some "unknown table")
      else match s !! k with
      | None => (s, Some "iptables: No chain/target/match by that name.")
      | Some rules =>
          if String.eqb cmd "-F" then (<[k := []]> s, None)
          else if String.eqb cmd "-X" then (match rules with [] => (delete k s, None) | _ => (s, Some "Directory not empty") end)
          else if String.eqb cmd "-A" then (<[k := rules ++ [rest]]> s, None)
          else if String.eqb cmd "-I" then
            match rest with
            | num :: r =>
                match ParseInt num with
                | Some n => if (1 <=? n) && String.eqb num (itoa_int n)
                            then (<[k := take (Z.to_nat n - 1) rules ++ r :: drop (Z.to_nat n - 1) rules]> s, None)
                            else (s, Some "bad number")
                | None => (s, Some "bad number")
                end
            | [] => (s, Some "bad argument")
            end
          else (s, Some "unknown option")
      end
  | _ => (s, Some "bad argument")
  end.

Definition program_rule (f : family) (t : table) (c : string) (a : action) (r : rule) (s : ruleset) : ruleset * option string :=
  let k := (f, t, c) in
  match s !! k, a with
  | Some rules, Insert => (if decide (r ∈ rules) then s else <[k := r :: rules]> s, None)
  | None, Insert => (s, Some "iptables: No chain/target/match by that name.")
  | _, Delete => (alter (remove_rule r) k s, None)
  end.

Definition tables : Iptables ruleset := {|
  ip_NewChain f c s := (<[(f, Filter, c) := default [] (s !! (f, Filter, c))]> s, None);
  ip_Raw f args s := match args with
                     | [_; _; _; c; _] => match s !! (f, Filter, c) with Some rules => listing c rules | None => Err "No chain" end
                     | _ => Err "bad argument"
                     end;
  ip_RawCombinedOutput := raw;
  ip_Exists f t c r s := match s !! (f, t, c) with Some rules => bool_decide (r ∈ rules) | None => false end;
  ip_ProgramRule := program_rule |}.

Lemma listedb_listed rules : forall i lines, listedb i rules lines = true -> listed i rules lines.
Proof.
  induction rules as [|r rules IH]; intros i [|line lines]; cbn [listedb]; try done; [constructor|].
  destruct (Fields line) as [|num [|second more]] eqn:Hf; try done.
  intros [[Hn Ht]%andb_prop Hl]%andb_prop. apply String.eqb_eq in Hn as ->. constructor; [|by apply IH].
  exists second, more. split; [done|]. destruct (target_of r); [by apply String.eqb_eq in Ht|].
  apply negb_true_iff, orb_false_iff in Ht as [Hd Hr]. split; by apply String.eqb_neq.
Qed.

Lemma header_ok_spec h : header_ok h = true -> forall num t more, Fields h = num :: t :: more -> t <> "DROP" /\ t <> "REJECT".
Proof.
  unfold header_ok. intros Hh num t more Hf. rewrite Hf in Hh.
  apply negb_true_iff, orb_false_iff in Hh as [Hd Hr]. split; by apply String.eqb_neq.
Qed.

Lemma itoa_int_inj n m : 1 <= n -> 1 <= m -> itoa_int n = itoa_int m -> n = m.
Proof.
  intros Hn Hm. unfold itoa_int. destruct (Z.ltb_spec n 0), (Z.ltb_spec m 0); try lia. unfold sprint.
  intros Heq%itoa_inj. lia.
Qed.

#[export] Instance tables_spec : IptablesSpec tables.
Proof.
  unshelve refine {| chains := fun s => s |}.
  - intros f t c r s. cbn. destruct (s !! (f, t, c)) as [rules|].
    + rewrite bool_decide_eq_true. split; [eauto|]. by intros (? & [= ->] & ?).
    + split; [done|]. by intros (? & ? & ?).
  - intros f c s s' e. cbn. by intros [= <- <-].
  - intros f c s s' e. cbn. destruct (s !! (f, Filter, c)); intros [= <- <-]; done.
  - intros f c s s' e. cbn. destruct (s !! (f, Filter, c)) as [[|]|] eqn:Hs; intros [= <- <-]; try done.
  - intros f c n r s s' e Hn. cbn. destruct (s !! (f, Filter, c)) as [rules|] eqn:Hs; [|by intros [= <- <-]].
    destruct (ParseInt (itoa_int n)) as [m|]; [|by intros [= <- <-]].
    destruct (Z.leb_spec 1 m); cbn [andb]; [|by intros [= <- <-]].
    destruct (String.eqb_spec (itoa_int n) (itoa_int m)) as [Heq|]; [|by intros [= <- <-]].
    apply itoa_int_inj in Heq as <-; [|done..]. intros [= <- <-]. eauto.
  - intros f c r s s' e. cbn. destruct (s !! (f, Filter, c)) as [rules|] eqn:Hs; intros [= <- <-]; [eauto|done].
  - intros f c s out. cbn. destruct (s !! (f, Filter, c)) as [rules|] eqn:Hs; [|done]. unfold listing.
    match goal with |- context [if ?b then _ else _] => destruct b eqn:Hb; [|done] end. intros [= <-].
    apply andb_prop in Hb as [[[Hsplit%bool_decide_eq_true Hl]%andb_prop Hh]%andb_prop Hlen].
    do 3 eexists. split; [done|]. split; [by apply Z.ltb_lt|]. split; [by apply listedb_listed|]. split; [exact Hsplit|].
    apply Forall_forall. intros h Hin. apply header_ok_spec. rewrite forallb_forall in Hh. by apply Hh, list_elem_of_In.
  - intros f t c a r s s' e. cbn. unfold program_rule. destruct (s !! (f, t, c)) as [rules|] eqn:Hs; destruct a; intros [= <- <-]; eauto.
Defined.

(** A host with a firewall of its own. *)
Definition established : rule := ["-m"; "conntrack"; "--ctstate"; "ESTABLISHED"; "-j"; "ACCEPT"].
Definition drop_all : rule := ["-j"; "DROP"].
Definition host_rules : ruleset := {[ input IPv4 := [established; drop_all]; input IPv6 := [established];
  (IPv4, Filter, "FORWARD") := [drop_all] ]}.
Definition machine_ip : addr := Addr4 (10 * 2 ^ 24 + 210 * 2 ^ 16 + 1).
Definition after : ruleset := fst (ConfigureIptablesChains tables machine_ip 51820 host_rules).

Lemma after_configured : ConfigureIptablesChains tables machine_ip 51820 host_rules = (after, Ok tt).
Proof.
  assert (H : snd (ConfigureIptablesChains tables machine_ip 51820 host_rules) = Ok tt) by (vm_compute; reflexivity).
  unfold after. rewrite <- H. apply surjective_pairing.
Qed.

Example after_rules : after !! input IPv4 = Some [established; jumpRule; drop_all] /\ after !! input IPv6 = Some [established; jumpRule] /\
  after !! uncloud_input IPv4 = Some [acceptWireGuardRule 51820; acceptUnregistryRule machine_ip].
Proof. split; [|split]; vm_compute; reflexivity. Qed.

(** A jump that is there already stays where it is, also behind a rule that drops
    everything: the comment says that it is before any such rule. *)
Example jump_behind_drop :
  let s := {[ input IPv4 := [drop_all; jumpRule]; input IPv6 := [] ]} : ruleset in
  fst (ConfigureIptablesChains tables machine_ip 51820 s) !! input IPv4 = Some [drop_all; jumpRule].
Proof. vm_compute. reflexivity. Qed.

Definition cleaned : ruleset := fst (CleanupIptablesChains tables after).

Lemma host_fresh f : host_rules !! uncloud_input f = None /\ forall rules, host_rules !! input f = Some rules -> jumpRule ∉ rules.
Proof.
  split; [destruct f; vm_compute; reflexivity|].
  assert (Hr : host_rules !! input f = Some match f with IPv4 => [established; drop_all] | IPv6 => [established] end)
    by (destruct f; vm_compute; reflexivity).
  rewrite Hr. intros rules [= <-]. rewrite list_elem_of_In. destruct f; cbn [In]; intros Hin; repeat destruct Hin as [Hin|Hin]; done.
Qed.

Lemma firewall_configuration_witness : CleanupIptablesChains tables after = (cleaned, Ok tt) /\ cleaned = host_rules.
Proof.
  assert (Hc : CleanupIptablesChains tables after = (cleaned, Ok tt)).
  { assert (H : snd (CleanupIptablesChains tables after) = Ok tt) by (vm_compute; reflexivity).
    unfold cleaned. rewrite <- H. apply surjective_pairing. }
  assert (Ha : forall f rules, chains (ip := tables) host_rules !! input f = Some rules -> jumpRule ∈ rules -> ahead rules).
  { intros f rules Hr Hj. exact (False_ind _ (proj2 (host_fresh f) rules Hr Hj)). }
  split; [exact Hc|]. change (chains (ip := tables) cleaned = chains (ip := tables) host_rules).
  apply (proj2 (proj2 (proj2 (firewall_configuration machine_ip 51820 host_rules after Ha after_configured))) cleaned Hc).
  exact host_fresh.
Defined.
End Tables.
