(* ===== verification/Daemon.v ===== *)
(** * Daemon: the life of the daemon, [internal/machine/machine.go] and [cluster.go]

    [Machine.Run] starts the local API servers, waits for the machine to become a member of
    a cluster and runs the cluster controller, whose own [Run] configures the network,
    starts the servers and control loops of a member and stops them.  Both are transition
    systems: an event is the return of a call, the end of a goroutine, a step of a
    goroutine of the daemon, or something from outside, and [apply] is what it does.  What
    the goroutines do is in the files of their components; here they start, are told to
    stop, and end, with or without an error.

    An [errgroup] keeps the first error in time and cancels its context with it. *)

From S2P Require Import Prelude.

(** The first error of the goroutines of a group, in the order they ended. *)
Fixpoint first_error {T E} (ended : list (T * option E)) : option (T * E) :=
  match ended with
  | [] => None
  | (t, Some e) :: _ => Some (t, e)
  | _ :: rest => first_error rest
  end.

Definition remove_one {T} `{EqDecision T} (x : T) (l : list T) : list T :=
  match list_find (x =.) l with Some (i, _) => take i l ++ drop (S i) l | None => l end.

Section Groups.
Context {T E : Type} `{EqDecision T}.
Implicit Types (l : list T) (ended : list (T * option E)).

Lemma first_error_app ended ended' :
  first_error (ended ++ ended') = match first_error ended with Some e => Some e | None => first_error ended' end.
Proof. induction ended as [|[t [e|]] ended IH]; cbn; done. Qed.

Lemma first_error_elem ended t e : first_error ended = Some (t, e) -> (t, Some e) ∈ ended.
Proof.
  induction ended as [|[t' [e'|]] ended IH]; cbn; [done| |].
  - intros [= -> ->]. left.
  - intros Hf. right. by apply IH.
Qed.

Lemma remove_one_cases x l : x ∈ l -> exists l1 l2, l = l1 ++ x :: l2 /\ remove_one x l = l1 ++ l2.
Proof.
  intros Hx. unfold remove_one. destruct (list_find (x =.) l) as [[i y]|] eqn:Hf.
  - apply list_find_Some in Hf as (Hi & <- & _). exists (take i l), (drop (S i) l). split; [|done].
    by rewrite (take_drop_middle l i x Hi).
  - apply list_find_None in Hf. by destruct (proj1 (Forall_forall _ _) Hf x Hx).
Qed.

Lemma elem_of_remove_one x y l : x ∈ l -> (y ∈ l <-> y = x \/ y ∈ remove_one x l).
Proof. intros (l1 & l2 & -> & ->)%remove_one_cases. rewrite !elem_of_app, elem_of_cons. tauto. Qed.

Lemma length_remove_one x l : x ∈ l -> length l = S (length (remove_one x l)).
Proof. intros (l1 & l2 & -> & ->)%remove_one_cases. rewrite !length_app. cbn. lia. Qed.
End Groups.

(** ** The cluster controller *)
Module Ctl.
Inductive task :=
| WireGuardLoop | EndpointChanges | APIServer | MetricsServer | DNSResolver | DNSServer
| MachineSync | DockerSync | MachineChanges | CaddyController | Unregistry.
#[global] Instance task_eq_dec : EqDecision task.
Proof. solve_decision. Defined.

Inductive call :=
| ConfigureIptablesChains | WaitDaemonReady | EnsureUncloudNetwork | ConfigureWireGuard
| StartCorrosion               (* or a restart, when it is running already *)
| ApplySeedIfPresent | ListenAPI | WaitStoreSync | ShutdownUnregistry.

#[global] Instance call_eq_dec : EqDecision call.
Proof. solve_decision. Defined.

Inductive failure := CallFailed (c : call) (e : string) | TaskFailed (t : task) (e : string).

(** Where [Run] is. *)
Inductive phase :=
| Setup (c : call) (todo : list call)
| Listening | Syncing | Starting (todo : list task) | Serving
| StoppingAPI (full : bool)    (* whether all components have been started *)
| ShuttingDown | Waiting | Returned (r : option failure).

(** [parent_done]: the context of [Run] is cancelled; [network_ready], [cluster_ready]:
    the channels are closed. *)
Record state := mkState {
  at_phase : phase; running : list task; ended : list (task * option string);
  parent_done : bool; has_unregistry : bool; api_stopped : bool; unregistry_stopped : bool;
  synced : bool; network_ready : bool; cluster_ready : bool
}.

Definition setup_calls : list call := [WaitDaemonReady; EnsureUncloudNetwork; ConfigureWireGuard; StartCorrosion; ApplySeedIfPresent].

Definition initial (unregistry : bool) : state :=
  mkState (Setup ConfigureIptablesChains setup_calls) [] [] false unregistry false false false false false.

(** The components that are started once the store is synchronised. *)
Definition components (unregistry : bool) : list task :=
  [MetricsServer; DNSResolver; DNSServer; MachineSync; DockerSync; MachineChanges; CaddyController] ++
  if unregistry then [Unregistry] else [].

Definition cancelled (s : state) : bool :=
  parent_done s || match first_error (ended s) with Some _ => true | None => false end.

Definition go (p : phase) (started : list task) (s : state) : state :=
  mkState p (running s ++ started) (ended s) (parent_done s) (has_unregistry s) (api_stopped s) (unregistry_stopped s)
    (synced s) (network_ready s) (cluster_ready s).

(** The store is synchronised; channels are closed; servers are stopped; the context ends. *)
Definition set_synced (s : state) : state :=
  mkState (at_phase s) (running s) (ended s) (parent_done s) (has_unregistry s) (api_stopped s) (unregistry_stopped s)
    true (network_ready s) (cluster_ready s).
Definition close_network_ready (s : state) : state :=
  mkState (at_phase s) (running s) (ended s) (parent_done s) (has_unregistry s) (api_stopped s) (unregistry_stopped s)
    (synced s) true (cluster_ready s).
Definition close_cluster_ready (s : state) : state :=
  mkState (at_phase s) (running s) (ended s) (parent_done s) (has_unregistry s) (api_stopped s) (unregistry_stopped s)
    (synced s) (network_ready s) true.
Definition stop_api (s : state) : state :=
  mkState (at_phase s) (running s) (ended s) (parent_done s) (has_unregistry s) true (unregistry_stopped s)
    (synced s) (network_ready s) (cluster_ready s).
Definition stop_unregistry (s : state) : state :=
  mkState (at_phase s) (running s) (ended s) (parent_done s) (has_unregistry s) (api_stopped s) true
    (synced s) (network_ready s) (cluster_ready s).
Definition end_parent (s : state) : state :=
  mkState (at_phase s) (running s) (ended s) true (has_unregistry s) (api_stopped s) (unregistry_stopped s)
    (synced s) (network_ready s) (cluster_ready s).
Definition end_task (t : task) (r : option string) (s : state) : state :=
  mkState (at_phase s) (remove_one t (running s)) (ended s ++ [(t, r)]) (parent_done s) (has_unregistry s) (api_stopped s)
    (unregistry_stopped s) (synced s) (network_ready s) (cluster_ready s).

(** The call [Run] is in returns. *)
Definition call_returns (r : option string) (s : state) : option state :=
  match at_phase s with
  | Setup c todo =>
      match r with
      | Some e => Some (go (Returned (Some (CallFailed c e))) [] s)
      | None =>
          let s := match c with EnsureUncloudNetwork => close_network_ready s | _ => s end in
          match todo with
          | c :: todo => Some (go (Setup c todo) [] s)
          | [] => Some (go Listening [WireGuardLoop; EndpointChanges] s)
          end
      end
  | Listening =>
      match r with
      | Some e => Some (go (Returned (Some (CallFailed ListenAPI e))) [] s)
      | None => Some (go Syncing [APIServer] s)
      end
  | Syncing =>
      match r with
      | Some e => Some (go (Returned (Some (CallFailed WaitStoreSync e))) [] s)
      | None =>
          (* It returns nil when the store is synchronised or the context is cancelled. *)
          if cancelled s then Some (go (StoppingAPI false) [] s)
          else Some (go (Starting (components (has_unregistry s))) [] (set_synced s))
      end
  | ShuttingDown =>
      match r with
      | Some e => Some (go (Returned (Some (CallFailed ShutdownUnregistry e))) [] s)
      | None => Some (go Waiting [] (stop_unregistry s))
      end
  | _ => None
  end.

(** A step of [Run] itself: the start of a component, the end of the wait for the context,
    [stopAPIServer], the end of the wait for the goroutines. *)
Definition main_step (s : state) : option state :=
  match at_phase s with
  | Starting (t :: todo) => Some (go (Starting todo) [t] s)
  | Starting [] =>
      Some (go Serving [] (close_cluster_ready s))
  | Serving => if cancelled s then Some (go (StoppingAPI true) [] s) else None
  | StoppingAPI full =>
      Some (go (if full && has_unregistry s then ShuttingDown else Waiting) [] (stop_api s))
  | Waiting =>
      match running s with
      | [] => Some (go (Returned ((fun te => TaskFailed te.1 te.2) <$> first_error (ended s))) [] s)
      | _ => None
      end
  | _ => None
  end.

Inductive event := CallReturns (r : option string) | MainStep | Ends (t : task) (r : option string) | Cancel.

Definition apply (e : event) (s : state) : option state :=
  match e with
  | CallReturns r => call_returns r s
  | MainStep => main_step s
  | Ends t r => if decide (t ∈ running s) then Some (end_task t r s) else None
  | Cancel => if parent_done s then None else Some (end_parent s)
  end.

(** What makes a goroutine end: its server is stopped, or its context is cancelled. *)
Definition told (s : state) (t : task) : bool :=
  match t with APIServer => api_stopped s | Unregistry => unregistry_stopped s | _ => cancelled s end.

Inductive reachable (unregistry : bool) : state -> Prop :=
| reachable_initial : reachable unregistry (initial unregistry)
| reachable_apply e s s' : reachable unregistry s -> apply e s = Some s' -> reachable unregistry s'.

(** *** The invariant *)
Definition launched (s : state) (t : task) : Prop := t ∈ running s \/ t ∈ map fst (ended s).

Definition base : list task := [WireGuardLoop; EndpointChanges; APIServer].

(** The errors with which [Run] does not wait for its goroutines. *)
Definition early (r : option failure) : bool := match r with Some (CallFailed _ _) => true | _ => false end.

Definition phase_ok (s : state) : Prop :=
  match at_phase s with
  | Setup c todo => running s = [] /\ ended s = [] /\ synced s = false /\
                    (c :: todo) `suffix_of` (ConfigureIptablesChains :: setup_calls) /\
                    (EnsureUncloudNetwork ∈ c :: todo \/ network_ready s = true)
  | Listening => network_ready s = true /\ synced s = false /\ launched s WireGuardLoop /\ launched s EndpointChanges
  | Syncing => network_ready s = true /\ synced s = false /\ Forall (launched s) base
  | Starting todo => network_ready s = true /\ synced s = true /\ todo ⊆ components (has_unregistry s) /\
                     Forall (fun t => launched s t \/ t ∈ todo) (base ++ components (has_unregistry s))
  | Serving => True
  | StoppingAPI full => cancelled s = true /\ (full = false -> synced s = false)
  | ShuttingDown => cancelled s = true /\ api_stopped s = true
  | Waiting => cancelled s = true /\ api_stopped s = true /\ (launched s Unregistry -> unregistry_stopped s = true)
  | Returned r => early r = true \/
      running s = [] /\ api_stopped s = true /\ r = (fun te => TaskFailed te.1 te.2) <$> first_error (ended s)
  end.

Record inv (s : state) : Prop := {
  inv_synced : forall t, launched s t -> t ∈ base \/ synced s = true;
  inv_unregistry : launched s Unregistry -> has_unregistry s = true;
  inv_ready : cluster_ready s = true ->
    synced s = true /\ network_ready s = true /\ Forall (launched s) (base ++ components (has_unregistry s))
}.

Lemma controller_inv_initial u : inv (initial u) /\ phase_ok (initial u).
Proof.
  split; [constructor; cbn; try done|].
  - intros t [H|H]; by apply not_elem_of_nil in H.
  - intros [H|H]; by apply not_elem_of_nil in H.
  - cbn. split_and!; [done..| |]; [by exists []|left; right; right; left].
Qed.

(** A goroutine that ended has been launched. *)
Lemma launched_ends s t r x : t ∈ running s -> launched (end_task t r s) x <-> launched s x.
Proof.
  intros Ht. unfold launched. cbn. rewrite map_app, elem_of_app. cbn.
  rewrite list_elem_of_singleton, (elem_of_remove_one t x _ Ht). tauto.
Qed.

Lemma Forall_launched_ends s t r l : t ∈ running s -> Forall (launched s) l -> Forall (launched (end_task t r s)) l.
Proof. intros Ht Hf. apply (Forall_impl _ _ _ Hf). intros x Hx. by apply launched_ends. Qed.

Lemma controller_inv_ends s t r : inv s -> t ∈ running s -> inv (end_task t r s).
Proof.
  intros [Hs Hu Hr] Ht. constructor.
  - intros x Hx. apply Hs. by apply launched_ends in Hx.
  - intros Hx. apply Hu. by apply launched_ends in Hx.
  - intros Hc. destruct (Hr Hc) as (H1 & H2 & H3). split_and!; try done. by apply Forall_launched_ends.
Qed.

Lemma phase_ok_ends s t r : phase_ok s -> t ∈ running s -> phase_ok (end_task t r s).
Proof.
  intros Hp Ht. assert (Hc : cancelled s = true -> cancelled (end_task t r s) = true).
  { unfold cancelled. cbn. rewrite first_error_app. by destruct (parent_done s), (first_error (ended s)). }
  unfold phase_ok in *. change (at_phase (end_task t r s)) with (at_phase s).
  destruct (at_phase s) as [c todo| | |todo| |full| | |res].
  - destruct Hp as [Hp _]. rewrite Hp in Ht. by apply not_elem_of_nil in Ht.
  - rewrite !launched_ends by done. exact Hp.
  - split_and!; [apply Hp..|]. apply Forall_launched_ends; [done|apply Hp].
  - destruct Hp as (H1 & H2 & H3 & H4). split_and!; try done. apply (Forall_impl _ _ _ H4).
    intros x [Hx|Hx]; [left; by apply launched_ends|by right].
  - done.
  - split; [apply Hc, Hp|apply Hp].
  - split; [apply Hc, Hp|apply Hp].
  - rewrite launched_ends by done. split; [apply Hc, Hp|apply Hp].
  - destruct Hp as [Hp|[Hp _]]; [by left|]. rewrite Hp in Ht. by apply not_elem_of_nil in Ht.
Qed.

Lemma phase_ok_cancel s : phase_ok s -> phase_ok (end_parent s).
Proof.
  unfold phase_ok. change (at_phase (end_parent s)) with (at_phase s). intros Hp.
  destruct (at_phase s); try exact Hp; (split; [done|apply Hp]).
Qed.

(** [go] changes the phase and launches goroutines. *)
Lemma launched_go p l s t : launched (go p l s) t <-> launched s t \/ t ∈ l.
Proof. unfold launched. cbn. rewrite elem_of_app. tauto. Qed.

Lemma inv_go p l s : inv s -> (forall t, t ∈ l -> t ∈ base \/ synced s = true) -> (Unregistry ∈ l -> has_unregistry s = true) ->
  inv (go p l s).
Proof.
  intros [Hs Hu Hr] Hbase Hunreg. constructor.
  - intros t [Ht|Ht]%launched_go; [by apply Hs|by apply Hbase].
  - intros [Ht|Ht]%launched_go; [by apply Hu|by apply Hunreg].
  - intros Hc. destruct (Hr Hc) as (H1 & H2 & H3). split_and!; try done. apply (Forall_impl _ _ _ H3).
    intros x Hx. apply launched_go. by left.
Qed.

Lemma inv_go_nil p s : inv s -> inv (go p [] s).
Proof. intros Hi. apply inv_go; [done|..]; intros ?%not_elem_of_nil || intros ? ?%not_elem_of_nil; done. Qed.

Lemma inv_set_synced s : inv s -> inv (set_synced s).
Proof. intros [Hs Hu Hr]. constructor; [by right|exact Hu|]. intros Hc. by destruct (Hr Hc) as (_ & H2 & H3). Qed.

Lemma inv_close_network_ready s : inv s -> inv (close_network_ready s).
Proof. intros [Hs Hu Hr]. constructor; [exact Hs|exact Hu|]. intros Hc. by destruct (Hr Hc) as (H1 & _ & H3). Qed.

Lemma inv_flags s : inv s -> inv (stop_api s) /\ inv (stop_unregistry s) /\ inv (end_parent s).
Proof. by intros [Hs Hu Hr]. Qed.

Lemma suffix_tail {A} (x : A) l1 l2 : (x :: l1) `suffix_of` l2 -> l1 `suffix_of` l2.
Proof. intros [k ->]. exists (k ++ [x]). by rewrite <- app_assoc. Qed.

Lemma controller_inv_call_returns r s s' : inv s -> phase_ok s -> call_returns r s = Some s' -> inv s' /\ phase_ok s'.
Proof.
  intros Hi Hp. unfold call_returns, phase_ok in Hp |- *. destruct (inv_flags s Hi) as (_ & Hunreg & _).
  destruct (at_phase s) as [c todo| | |todo| |full| | |res] eqn:Hph; try done; destruct r as [e|].
  - intros [= <-]. split; [by apply inv_go_nil|by left].
  - destruct Hp as (Hrun & Hend & Hsync & Hsuf & Hnet).
    set (s1 := match c with EnsureUncloudNetwork => close_network_ready s | _ => s end).
    assert (H1 : inv s1 /\ running s1 = [] /\ ended s1 = [] /\ synced s1 = false /\ (EnsureUncloudNetwork ∈ todo \/ network_ready s1 = true)).
    { assert (Hmid : EnsureUncloudNetwork = c \/ EnsureUncloudNetwork ∈ todo \/ network_ready s = true)
        by (rewrite elem_of_cons in Hnet; tauto).
      unfold s1. destruct (decide (c = EnsureUncloudNetwork)) as [-> |Hne].
      - split_and!; [by apply inv_close_network_ready|done..|by right].
      - assert (Hs1 : match c with EnsureUncloudNetwork => close_network_ready s | _ => s end = s) by (by destruct c).
        rewrite Hs1. split_and!; try done. naive_solver. }
    destruct H1 as (Hi1 & Hr1 & He1 & Hs1 & Hn1). destruct todo as [|c' todo]; intros [= <-].
    + split.
      * apply inv_go; [done|..]; [|rewrite !elem_of_cons; intros [|[|?%not_elem_of_nil]]; done].
        intros t Ht. left. unfold base. set_solver.
      * split_and!; [by destruct Hn1 as [?%not_elem_of_nil|]|done|apply launched_go; right; left|apply launched_go; right; right; left].
    + split; [by apply inv_go_nil|]. cbn. rewrite Hr1, He1. split_and!; try done. by apply suffix_tail in Hsuf.
  - intros [= <-]. split; [by apply inv_go_nil|by left].
  - destruct Hp as (Hnet & Hsync & H1 & H2). intros [= <-]. split.
    + apply inv_go; [done|..]; [|rewrite !elem_of_cons; intros [|?%not_elem_of_nil]; done].
      intros t Ht. left. unfold base. set_solver.
    + split_and!; [done..|]. apply Forall_forall. intros t Ht. apply launched_go. unfold base in Ht.
      rewrite !elem_of_cons in Ht. destruct Ht as [-> |[-> |[-> |?%not_elem_of_nil]]]; [by left|by left|right; left|done].
  - intros [= <-]. split; [by apply inv_go_nil|by left].
  - destruct Hp as (Hnet & Hsync & Hb). destruct (cancelled s) eqn:Hc; intros [= <-].
    + split; [by apply inv_go_nil|]. by split.
    + split; [apply inv_go_nil; by apply inv_set_synced|]. split_and!; [done..|]. apply Forall_app. split.
      * apply (Forall_impl _ _ _ Hb). intros t Ht. left. apply launched_go. by left.
      * apply Forall_forall. by right.
  - intros [= <-]. split; [by apply inv_go_nil|by left].
  - destruct Hp as (Hc & Ha). intros [= <-]. split; [by apply inv_go_nil|]. by split_and!.
Qed.

Lemma inv_main_step s s' : inv s -> phase_ok s -> main_step s = Some s' -> inv s' /\ phase_ok s'.
Proof.
  intros Hi Hp. unfold main_step, phase_ok in Hp |- *. destruct (inv_flags s Hi) as (Hapi & _ & _).
  destruct (at_phase s) as [c todo| | |todo| |full| | |res] eqn:Hph; try done.
  - destruct Hp as (Hnet & Hsync & Hsub & Hall). destruct todo as [|t todo]; intros [= <-].
    + assert (Hl : Forall (launched s) (base ++ components (has_unregistry s))).
      { apply (Forall_impl _ _ _ Hall). intros x [Hx|Hx%not_elem_of_nil]; done. }
      split; [|done]. apply inv_go_nil. destruct Hi as [Hs Hu Hr]. by constructor.
    + split.
      * apply inv_go; [done|by right|]. rewrite list_elem_of_singleton. intros <-.
        specialize (Hsub Unregistry (list_elem_of_here _ _)). by destruct (has_unregistry s); [|cbn in Hsub; set_solver].
      * split_and!; [done..| |]; [set_solver|]. apply (Forall_impl _ _ _ Hall).
        intros x [Hx|Hx]; [left; apply launched_go; by left|]. apply elem_of_cons in Hx as [-> |Hx]; [|by right].
        left. apply launched_go. right. left.
  - destruct (cancelled s) eqn:Hc; [|done]. intros [= <-]. split; [by apply inv_go_nil|]. by split.
  - destruct Hp as [Hc Hfull]. intros [= <-]. split; [by apply inv_go_nil|].
    destruct (full && has_unregistry s) eqn:Hf; [by split_and!|]. split_and!; [done..|].
    intros Hl. exfalso. assert (Hl' : launched s Unregistry) by (by apply launched_go in Hl as [?|?%not_elem_of_nil]).
    destruct full; cbn in Hf.
    + pose proof (inv_unregistry _ Hi Hl'). congruence.
    + destruct (inv_synced _ Hi _ Hl') as [Hb|Hb]; [set_solver|]. by rewrite Hfull in Hb.
  - destruct (running s) as [|] eqn:Hrun; [|done]. destruct Hp as (Hc & Ha & _). intros [= <-].
    split; [by apply inv_go_nil|]. right. cbn. by rewrite Hrun.
Qed.

(** *** Progress and termination *)
(** The events that do not come from outside: calls return, [Run] goes on, and goroutines
    that have been told to end do. *)
Definition own (s : state) (e : event) : Prop :=
  match e with CallReturns _ | MainStep => True | Ends t _ => told s t = true | Cancel => False end.

Definition returned (s : state) : bool := match at_phase s with Returned _ => true | _ => false end.

Lemma controller_progress s : inv s -> phase_ok s -> parent_done s = true -> returned s = false ->
  exists e s', own s e /\ apply e s = Some s'.
Proof.
  intros Hi Hp Hd Hret. assert (Hc : cancelled s = true) by (unfold cancelled; by rewrite Hd).
  unfold phase_ok, returned in *. destruct (at_phase s) as [c todo| | |todo| |full| | |res] eqn:Hph; try done.
  1-3: exists (CallReturns None); cbn; unfold call_returns; rewrite Hph.
  - destruct todo; by eexists.
  - by eexists.
  - rewrite Hc. by eexists.
  - exists MainStep. cbn. unfold main_step. rewrite Hph. destruct todo; by eexists.
  - exists MainStep. cbn. unfold main_step. rewrite Hph, Hc. by eexists.
  - exists MainStep. cbn. unfold main_step. rewrite Hph. by eexists.
  - exists (CallReturns None). cbn. unfold call_returns. rewrite Hph. by eexists.
  - destruct (running s) as [|t l] eqn:Hrun.
    + exists MainStep. cbn. unfold main_step. rewrite Hph, Hrun. by eexists.
    + assert (Ht : t ∈ running s) by (rewrite Hrun; left). exists (Ends t None). cbn [own apply].
      rewrite decide_True by done. eexists. split; [|done]. destruct Hp as (_ & Ha & Hu).
      destruct t; try exact Hc; [exact Ha|]. apply Hu. by left.
Qed.

Definition rank (p : phase) : nat :=
  match p with
  | Setup _ todo => 60 + length todo | Listening => 50 | Syncing => 45 | Starting todo => 20 + 2 * length todo
  | Serving => 15 | StoppingAPI _ => 10 | ShuttingDown => 8 | Waiting => 5 | Returned _ => 0
  end.

(** Every event makes it smaller: the controller cannot go on for ever. *)
Definition measure (s : state) : nat := rank (at_phase s) + length (running s) + if parent_done s then 0 else 1.

Lemma measure_go p l s : measure (go p l s) = (rank p + length (running s) + length l + if parent_done s then 0 else 1)%nat.
Proof. unfold measure. cbn. rewrite length_app. lia. Qed.

Lemma controller_measure_apply e s s' : apply e s = Some s' -> (measure s' < measure s)%nat.
Proof.
  destruct e as [r| |t r|]; cbn [apply].
  - unfold call_returns. destruct (at_phase s) as [c todo| | |todo| |full| | |res] eqn:Hph; try done; destruct r as [e|].
    2:{ set (s1 := match c with EnsureUncloudNetwork => close_network_ready s | _ => s end).
        assert (Hs1 : running s1 = running s /\ parent_done s1 = parent_done s) by (by destruct c).
        destruct Hs1 as [H1 H2]. destruct todo; intros [= <-]; rewrite measure_go, H1, H2; unfold measure; rewrite Hph; cbn; lia. }
    all: try (intros [= <-]; rewrite measure_go; unfold measure; rewrite Hph; cbn; lia).
    destruct (cancelled s); intros [= <-]; rewrite measure_go; unfold measure; rewrite Hph; cbn; [lia|].
    destruct (has_unregistry s); cbn; lia.
  - unfold main_step. destruct (at_phase s) as [c todo| | |todo| |full| | |res] eqn:Hph; try done.
    + destruct todo; intros [= <-]; rewrite measure_go; unfold measure; rewrite Hph; cbn; lia.
    + destruct (cancelled s); [|done]. intros [= <-]. rewrite measure_go. unfold measure. rewrite Hph. cbn. lia.
    + intros [= <-]. rewrite measure_go. unfold measure. rewrite Hph. destruct (full && has_unregistry s); cbn; lia.
    + destruct (running s) eqn:Hr; [|done]. intros [= <-]. rewrite measure_go. unfold measure. rewrite Hph. cbn. lia.
  - destruct (decide (t ∈ running s)) as [Ht|]; [|done]. intros [= <-]. unfold measure. cbn.
    rewrite (length_remove_one t (running s) Ht). lia.
  - destruct (parent_done s) eqn:Hd; [done|]. intros [= <-]. unfold measure. cbn. rewrite Hd. lia.
Qed.

(** [apply] keeps a return. *)
Lemma returned_apply e s s' r : at_phase s = Returned r -> apply e s = Some s' -> at_phase s' = Returned r.
Proof.
  intros Hph. destruct e as [res| |t res|]; cbn [apply].
  - unfold call_returns. by rewrite Hph.
  - unfold main_step. by rewrite Hph.
  - destruct (decide (t ∈ running s)); [|done]. by intros [= <-].
  - destruct (parent_done s); [done|]. by intros [= <-].
Qed.

Lemma ok_apply e s s' : inv s /\ phase_ok s -> apply e s = Some s' -> inv s' /\ phase_ok s'.
Proof.
  intros [Hi Hp] Ha. destruct e as [r| |t r|]; cbn in Ha.
  - by apply (controller_inv_call_returns r s).
  - by apply (inv_main_step s).
  - destruct (decide (t ∈ running s)); [|done]. injection Ha as <-. split; [by apply controller_inv_ends|by apply phase_ok_ends].
  - destruct (parent_done s); [done|]. injection Ha as <-. split; [by apply (inv_flags s)|by apply phase_ok_cancel].
Qed.

Lemma controller_inv_reachable u s : reachable u s -> inv s /\ phase_ok s.
Proof. induction 1 as [|e s s' _ IH Ha]; [apply controller_inv_initial|by apply (ok_apply e s)]. Qed.
End Ctl.

(** ** The machine *)
Module Machine.
Inductive task := LocalServer | ProxyServer | ClusterGoroutine | Shutdown.
#[global] Instance task_eq_dec : EqDecision task.
Proof. solve_decision. Defined.

Inductive call := WaitDaemonReady | ListenMachine | ListenProxy | ConfigureCorrosion | StartCorrosion | MigrateIfNeeded.

(** The calls of the goroutine of the cluster before the controller runs. *)
Inductive preparation := ConfigureForCluster | NewCaddyController | NewDNSServer | CheckImageStore | NewRegistry | NewController.

Inductive failure :=
| CallFailed (c : call) (e : string) | ServeFailed (e : string) | PreparationFailed (p : preparation) (e : string)
| ControllerFailed (e : Ctl.failure).

(** The goroutine of the cluster; the controller's goroutines may outlive it. *)
Inductive cluster_phase :=
| Awaiting | Preparing (p : preparation) (todo : list preparation) (unregistry : bool)
| Controlling (c : Ctl.state) | Over (c : option Ctl.state).

Inductive phase := Setup (c : call) (todo : list call) | Group | StoppingCorrosion | CleaningUp | Returned (r : option failure).

Record state := mkState {
  at_phase : phase; running : list task; ended : list (task * option failure);
  stopped : bool;              (* the context of Run is cancelled *)
  initialised : bool; started : bool; resetting : bool; containerd_sock : bool;
  cluster : cluster_phase; servers : list task; (* to be stopped by the shutdown goroutine *)
  corrosion_stopped : bool; cleaned_up : bool;
  draining : bool;             (* GracefulStop of the first of them has been called *)
  requests : list task         (* the servers of the requests in flight *)
}.

Definition initial (member containerd : bool) : state :=
  mkState (Setup WaitDaemonReady ([ListenMachine; ListenProxy] ++ if member then [MigrateIfNeeded] else [ConfigureCorrosion; StartCorrosion]))
    [] [] false member false false containerd Awaiting [LocalServer; ProxyServer] false false false [].

Definition cancelled (s : state) : bool :=
  stopped s || match first_error (ended s) with Some _ => true | None => false end.

Definition go (p : phase) (s : state) : state :=
  mkState p (running s) (ended s) (stopped s) (initialised s) (started s) (resetting s) (containerd_sock s) (cluster s)
    (servers s) (corrosion_stopped s) (cleaned_up s) (draining s) (requests s).

Definition with_cluster (c : cluster_phase) (s : state) : state :=
  mkState (at_phase s) (running s) (ended s) (stopped s) (initialised s) (started s) (resetting s) (containerd_sock s) c
    (servers s) (corrosion_stopped s) (cleaned_up s) (draining s) (requests s).

Definition ends (t : task) (r : option failure) (s : state) : state :=
  mkState (at_phase s) (remove_one t (running s)) (ended s ++ [(t, r)]) (stopped s) (initialised s) (started s) (resetting s)
    (containerd_sock s) (cluster s) (servers s) (corrosion_stopped s) (cleaned_up s) (draining s) (requests s).

(** [Run] returns the first error of its goroutines. *)
Definition set_corrosion_stopped (s : state) : state :=
  mkState (if resetting s then CleaningUp else Returned (snd <$> first_error (ended s))) (running s) (ended s)
    (stopped s) (initialised s) (started s) (resetting s) (containerd_sock s) (cluster s) (servers s) true (cleaned_up s)
    (draining s) (requests s).
Definition set_cleaned_up (s : state) : state :=
  mkState (Returned (snd <$> first_error (ended s))) (running s) (ended s)
    (stopped s) (initialised s) (started s) (resetting s) (containerd_sock s) (cluster s) (servers s) (corrosion_stopped s) true
    (draining s) (requests s).

Definition call_returns (r : option string) (s : state) : option state :=
  match at_phase s, r with
  | Setup c _, Some e => Some (go (Returned (Some (CallFailed c e))) s)
  | Setup _ (c :: todo), None => Some (go (Setup c todo) s)
  | Setup _ [], None =>
      Some (mkState Group [LocalServer; ProxyServer; ClusterGoroutine; Shutdown] (ended s) (stopped s) (initialised s) true
              (resetting s) (containerd_sock s) (cluster s) (servers s) (corrosion_stopped s) (cleaned_up s) (draining s) (requests s))
  | StoppingCorrosion, _ => Some (set_corrosion_stopped s)    (* an error is logged *)
  | CleaningUp, _ => Some (set_cleaned_up s)
  | _, _ => None
  end.

(** The end of the wait for the goroutines. *)
Definition group_returns (s : state) : option state :=
  match at_phase s, running s with Group, [] => Some (go StoppingCorrosion s) | _, _ => None end.

(** The select of the cluster goroutine takes any branch that is ready. *)
Definition await (init : bool) (s : state) : option state :=
  match cluster s with
  | Awaiting =>
      if negb (bool_decide (ClusterGoroutine ∈ running s)) then None
      else if init then
        if initialised s
        then Some (with_cluster (Preparing ConfigureForCluster
                     ([NewCaddyController; NewDNSServer] ++ (if containerd_sock s then [CheckImageStore] else []) ++ [NewController]) false) s)
        else None
      else if cancelled s then Some (ends ClusterGoroutine None (with_cluster (Over None) s)) else None
  | _ => None
  end.

(** [r]: whether Docker uses the image store of containerd, for [CheckImageStore]. *)
Definition prepared (r : result string bool) (s : state) : option state :=
  match cluster s with
  | Preparing p todo unregistry =>
      match r with
      | Err e => Some (ends ClusterGoroutine (Some (PreparationFailed p e)) (with_cluster (Over None) s))
      | Ok enabled =>
          let todo := match p with CheckImageStore => if enabled then NewRegistry :: todo else todo | _ => todo end in
          let unregistry := match p with NewRegistry => true | _ => unregistry end in
          match todo with
          | p :: todo => Some (with_cluster (Preparing p todo unregistry) s)
          | [] => Some (with_cluster (Controlling (Ctl.initial unregistry)) s)
          end
      end
  | _ => None
  end.

(** An event of the controller; its context is the group's. *)
Definition control (e : Ctl.event) (s : state) : option state :=
  match e with
  | Ctl.Cancel => if cancelled s then
      match cluster s with
      | Controlling c => (fun c => with_cluster (Controlling c) s) <$> Ctl.apply e c
      | Over (Some c) => (fun c => with_cluster (Over (Some c)) s) <$> Ctl.apply e c
      | _ => None
      end else None
  | _ =>
      match cluster s with
      | Controlling c => (fun c => with_cluster (Controlling c) s) <$> Ctl.apply e c
      | Over (Some c) => (fun c => with_cluster (Over (Some c)) s) <$> Ctl.apply e c
      | _ => None
      end
  end.

(** The controller has returned, and so does the goroutine. *)
Definition controller_returns (s : state) : option state :=
  match cluster s with
  | Controlling c =>
      match Ctl.at_phase c with
      | Ctl.Returned r => Some (ends ClusterGoroutine (ControllerFailed <$> r) (with_cluster (Over (Some c)) s))
      | _ => None
      end
  | _ => None
  end.

Definition with_servers (l : list task) (d : bool) (s : state) : state :=
  mkState (at_phase s) (running s) (ended s) (stopped s) (initialised s) (started s) (resetting s) (containerd_sock s)
    (cluster s) l (corrosion_stopped s) (cleaned_up s) d (requests s).
Definition with_requests (l : list task) (s : state) : state :=
  mkState (at_phase s) (running s) (ended s) (stopped s) (initialised s) (started s) (resetting s) (containerd_sock s)
    (cluster s) (servers s) (corrosion_stopped s) (cleaned_up s) (draining s) l.

(** The shutdown goroutine calls [GracefulStop] of the next server, the call returns once no
    request to the server is in flight, or the goroutine ends. There is no timeout. *)
Definition shutdown_step (s : state) : option state :=
  if cancelled s && bool_decide (Shutdown ∈ running s) then
    match servers s with
    | t :: rest =>
        if negb (draining s) then Some (with_servers (t :: rest) true s)
        else if bool_decide (t ∈ requests s) then None
        else Some (with_servers rest false s)
    | [] => Some (ends Shutdown None s)
    end
  else None.

(** A server takes requests until it is told to stop. *)
Definition accepts (s : state) (t : task) : bool :=
  bool_decide (t ∈ running s) && bool_decide (t ∈ servers s) && negb (draining s && bool_decide (head (servers s) = Some t)).

Definition stop (reset : bool) (s : state) : state :=
  mkState (at_phase s) (running s) (ended s) true (initialised s) (started s) (resetting s || reset)
    (containerd_sock s) (cluster s) (servers s) (corrosion_stopped s) (cleaned_up s) (draining s) (requests s).

Definition is_server (t : task) : bool := match t with LocalServer | ProxyServer => true | _ => false end.

Inductive event :=
| CallReturns (r : option string) | GroupReturns | ServerEnds (t : task) (r : option string)
| Await (init : bool) | Prepared (r : result string bool) | Control (e : Ctl.event) | ControllerReturns | ShutdownStep
| Initialise                   (* InitCluster or JoinCluster *)
| Stop                         (* a signal, or the context of the caller *)
| Reset
| RequestStarts (t : task) | RequestEnds (t : task).   (* of a client *)

Definition apply (e : event) (s : state) : option state :=
  match e with
  | CallReturns r => call_returns r s
  | GroupReturns => group_returns s
  | ServerEnds t r => if is_server t && bool_decide (t ∈ running s) then Some (ends t (ServeFailed <$> r) s) else None
  | Await init => await init s
  | Prepared r => prepared r s
  | Control e => control e s
  | ControllerReturns => controller_returns s
  | ShutdownStep => shutdown_step s
  | Initialise =>
      if started s && negb (initialised s) then
        Some (mkState (at_phase s) (running s) (ended s) (stopped s) true (started s) (resetting s)
                (containerd_sock s) (cluster s) (servers s) (corrosion_stopped s) (cleaned_up s) (draining s) (requests s))
      else None
  | Stop => if stopped s then None else Some (stop false s)
  | Reset =>
      if bool_decide (LocalServer ∈ running s) && initialised s && negb (resetting s) then Some (stop true s) else None
  | RequestStarts t => if accepts s t then Some (with_requests (t :: requests s) s) else None
  | RequestEnds t => if bool_decide (t ∈ requests s) then Some (with_requests (remove_one t (requests s)) s) else None
  end.

Inductive reachable (member containerd : bool) : state -> Prop :=
| reachable_initial : reachable member containerd (initial member containerd)
| reachable_apply e s s' : reachable member containerd s -> apply e s = Some s' -> reachable member containerd s'.

(** *** The invariant *)
Definition servers_all : list task := [LocalServer; ProxyServer].

Definition over (c : cluster_phase) : bool := match c with Over _ => true | _ => false end.

Definition phase_ok (s : state) : Prop :=
  match at_phase s with
  | Setup _ _ => running s = [] /\ started s = false /\ cluster s = Awaiting /\ corrosion_stopped s = false /\ cleaned_up s = false
  | Group => started s = true /\ corrosion_stopped s = false /\ cleaned_up s = false
  | StoppingCorrosion => started s = true /\ running s = [] /\ corrosion_stopped s = false /\ cleaned_up s = false
  | CleaningUp => started s = true /\ running s = [] /\ corrosion_stopped s = true /\ resetting s = true /\ cleaned_up s = false
  | Returned (Some (CallFailed _ _)) =>
      running s = [] /\ started s = false /\ cluster s = Awaiting /\ corrosion_stopped s = false /\ cleaned_up s = false
  | Returned r => started s = true /\ running s = [] /\ corrosion_stopped s = true /\ cleaned_up s = resetting s /\
                  r = snd <$> first_error (ended s)
  end.

Definition controller_ok (c : cluster_phase) : Prop :=
  match c with
  | Controlling c => Ctl.inv c /\ Ctl.phase_ok c
  | Over (Some c) => (Ctl.inv c /\ Ctl.phase_ok c) /\ Ctl.returned c = true
  | _ => True
  end.

Record inv (s : state) : Prop := {
  inv_phase : phase_ok s;
  inv_nodup : NoDup (running s);
  inv_cluster : started s = true -> (ClusterGoroutine ∈ running s <-> over (cluster s) = false);
  inv_shutdown : started s = true -> Shutdown ∈ running s \/ servers s = [];
  inv_controller : controller_ok (cluster s);
  inv_ended : forall t e, (t, e) ∈ ended s -> forall c m, e <> Some (CallFailed c m);
  inv_requests : forall t, t ∈ requests s -> t ∈ servers s
}.

Lemma inv_initial m c : inv (initial m c).
Proof. constructor; try done; [constructor|intros t e ?%not_elem_of_nil; done|by intros t ?%not_elem_of_nil]. Qed.

Lemma NoDup_remove_one (t : task) l : NoDup l -> t ∈ l -> NoDup (remove_one t l) /\ t ∉ remove_one t l.
Proof.
  intros Hnd (l1 & l2 & -> & ->)%remove_one_cases. apply NoDup_app in Hnd as (H1 & H2 & H3). apply NoDup_cons in H3 as [H3 H4].
  split.
  - apply NoDup_app. split_and!; [done| |done]. intros x Hx Hx2. apply (H2 x Hx). by right.
  - rewrite elem_of_app. intros [Ht|Ht]; [|done]. apply (H2 t Ht). left.
Qed.

(** Only the wait for the goroutines is left when one of them ends. *)
Lemma phase_group s t : inv s -> t ∈ running s -> at_phase s = Group.
Proof.
  intros Hi Ht. pose proof (inv_phase _ Hi) as Hp. unfold phase_ok in Hp.
  assert (Hne : running s <> []) by (intros He; rewrite He in Ht; by apply not_elem_of_nil in Ht).
  destruct (at_phase s) as [| | | |[[]|]]; naive_solver.
Qed.

(** The end of a goroutine that is not the cluster's. *)
Lemma inv_ends s t r : inv s -> t ∈ running s -> t <> ClusterGoroutine -> (t = Shutdown -> servers s = []) ->
  (forall c m, r <> Some (CallFailed c m)) -> inv (ends t r s).
Proof.
  intros Hi Ht Hne Hsrv Hr. pose proof (phase_group s t Hi Ht) as Hg. destruct Hi as [Hp Hnd Hcl Hsh Hctl Hend Hreq].
  constructor.
  - unfold phase_ok in *. cbn. by rewrite Hg in Hp |- *.
  - cbn. by apply NoDup_remove_one.
  - intros Hst. cbn. rewrite <- (Hcl Hst), (elem_of_remove_one t ClusterGoroutine _ Ht). naive_solver.
  - intros Hst. cbn. destruct (decide (t = Shutdown)) as [-> |Hs]; [right; by apply Hsrv|].
    destruct (Hsh Hst) as [Hin|]; [left|by right]. apply (elem_of_remove_one t) in Hin; [|done]. naive_solver.
  - exact Hctl.
  - intros t' e. cbn. rewrite elem_of_app, list_elem_of_singleton. intros [He|[= -> ->]]; [by apply (Hend t')|done].
  - exact Hreq.
Qed.

(** The end of the cluster goroutine. *)
Lemma inv_cluster_ends s r c : inv s -> ClusterGoroutine ∈ running s -> controller_ok (Over c) ->
  (forall c m, r <> Some (CallFailed c m)) -> inv (ends ClusterGoroutine r (with_cluster (Over c) s)).
Proof.
  intros Hi Ht Hc Hr. pose proof (phase_group s _ Hi Ht) as Hg. destruct Hi as [Hp Hnd Hcl Hsh Hctl Hend Hreq].
  destruct (NoDup_remove_one _ _ Hnd Ht) as [Hnd' Hout]. constructor.
  - unfold phase_ok in *. cbn. by rewrite Hg in Hp |- *.
  - done.
  - intros _. cbn. by split.
  - intros Hst. cbn. destruct (Hsh Hst) as [Hin|]; [left|by right]. apply (elem_of_remove_one ClusterGoroutine) in Hin; [|done].
    by destruct Hin.
  - exact Hc.
  - intros t' e. cbn. rewrite elem_of_app, list_elem_of_singleton. intros [He|[= -> ->]]; [by apply (Hend t')|done].
  - exact Hreq.
Qed.

(** A step of the cluster goroutine. *)
Lemma inv_with_cluster s c : inv s -> ClusterGoroutine ∈ running s \/ cluster s <> Awaiting -> over c = over (cluster s) -> controller_ok c -> inv (with_cluster c s).
Proof.
  intros Hi Hnot Hov Hc. assert (Hne : started s = true).
  { pose proof (inv_phase _ Hi) as Hp. unfold phase_ok in Hp. destruct Hnot as [Ht|Ht].
    - rewrite (phase_group s _ Hi Ht) in Hp. apply Hp.
    - destruct (at_phase s) as [| | | |[[]|]]; naive_solver. }
  destruct Hi as [Hp Hnd Hcl Hsh Hctl Hend Hreq].
  constructor; try done.
  - unfold phase_ok in *. cbn. destruct (at_phase s) as [| | | |[[]|]]; naive_solver congruence.
  - intros Hst. cbn. by rewrite Hov, (Hcl Hst).
Qed.

Lemma cluster_running s : inv s -> cluster s <> Awaiting -> over (cluster s) = false -> ClusterGoroutine ∈ running s.
Proof.
  intros Hi Hn Ho. pose proof (inv_phase _ Hi) as Hp. unfold phase_ok in Hp.
  assert (started s = true) by (destruct (at_phase s) as [| | | |[[]|]]; naive_solver). by apply (inv_cluster _ Hi).
Qed.

Lemma result_not_call s : inv s -> forall c m, snd <$> first_error (ended s) <> Some (CallFailed c m).
Proof.
  intros Hi c m Hf. apply fmap_Some in Hf as ([t e] & Hf%first_error_elem & He). cbn in He. subst e.
  by apply (inv_ended _ Hi _ _ Hf c m).
Qed.

Lemma inv_call_returns r s s' : inv s -> call_returns r s = Some s' -> inv s'.
Proof.
  intros Hi. pose proof Hi as [Hp Hnd Hcl Hsh Hctl Hend Hreq]. unfold call_returns, phase_ok in *.
  destruct (at_phase s) as [c todo| | | |res] eqn:Hph; try done.
  - destruct Hp as (H1 & H2 & H3 & H4 & H5). destruct todo as [|c' todo], r as [e|]; intros [= <-].
    + by constructor.
    + constructor; try done; cbn.
      * apply (bool_decide_unpack _). by vm_compute.
      * intros _. rewrite H3. split; [done|]. intros _. by apply (bool_decide_unpack _); vm_compute.
      * intros _. left. by apply (bool_decide_unpack _); vm_compute.
    + by constructor.
    + by constructor.
  - destruct Hp as (H1 & H2 & H3 & H4). intros Hs'. assert (Hs : s' = set_corrosion_stopped s) by (by destruct r; injection Hs').
    subst s'. constructor; try done. unfold phase_ok. cbn. destruct (resetting s) eqn:Hr; [by split_and!|].
    pose proof (result_not_call s Hi) as Hres. destruct (snd <$> first_error (ended s)) as [[c m| | |]|] eqn:Hf; try by split_and!.
    by destruct (Hres c m).
  - destruct Hp as (H1 & H2 & H3 & H4 & H5). intros Hs'. assert (Hs : s' = set_cleaned_up s) by (by destruct r; injection Hs').
    subst s'. constructor; try done. unfold phase_ok. cbn.
    pose proof (result_not_call s Hi) as Hres. destruct (snd <$> first_error (ended s)) as [[c m| | |]|] eqn:Hf; try by split_and!.
    by destruct (Hres c m).
Qed.

Lemma inv_await init s s' : inv s -> await init s = Some s' -> inv s'.
Proof.
  intros Hi. unfold await. destruct (cluster s) as [| | |] eqn:Hc; try done.
  destruct (bool_decide (ClusterGoroutine ∈ running s)) eqn:Hin; [|done]. apply bool_decide_eq_true in Hin. cbn [negb].
  destruct init.
  - destruct (initialised s); [|done]. intros [= <-]. apply inv_with_cluster; [done|by left|by rewrite Hc|done].
  - destruct (cancelled s); [|done]. intros [= <-]. by apply inv_cluster_ends.
Qed.

Lemma inv_prepared r s s' : inv s -> prepared r s = Some s' -> inv s'.
Proof.
  intros Hi. unfold prepared. destruct (cluster s) as [|p todo u| |] eqn:Hc; try done. destruct r as [enabled|e].
  - set (todo' := match p with CheckImageStore => _ | _ => _ end). set (u' := match p with NewRegistry => true | _ => u end).
    destruct todo' as [|p' rest]; intros [= <-]; (apply inv_with_cluster; [done|right; congruence|by rewrite Hc|]); [|done].
    apply Ctl.controller_inv_initial.
  - intros [= <-]. apply inv_cluster_ends; try done. apply cluster_running; [done|congruence|by rewrite Hc].
Qed.

(** What [control] does, whatever the event is. *)
Lemma control_Some e s s' : control e s = Some s' -> exists c c', Ctl.apply e c = Some c' /\
  (e = Ctl.Cancel -> cancelled s = true) /\
  (cluster s = Controlling c /\ s' = with_cluster (Controlling c') s \/
   cluster s = Over (Some c) /\ s' = with_cluster (Over (Some c')) s).
Proof.
  unfold control. intros Hs.
  assert (H : (e = Ctl.Cancel -> cancelled s = true) /\
    match cluster s with
    | Controlling c => (fun c => with_cluster (Controlling c) s) <$> Ctl.apply e c
    | Over (Some c) => (fun c => with_cluster (Over (Some c)) s) <$> Ctl.apply e c
    | _ => None
    end = Some s').
  { destruct e; try (by split); by destruct (cancelled s). }
  destruct H as [Hcancel H]. destruct (cluster s) as [| |c|[c|]] eqn:Hc; try done;
    apply fmap_Some in H as (c' & Ha & ->); exists c, c'; naive_solver.
Qed.

Lemma inv_control e s s' : inv s -> control e s = Some s' -> inv s'.
Proof.
  intros Hi (c & c' & Ha & _ & Hcases)%control_Some. pose proof (inv_controller _ Hi) as Hok.
  destruct Hcases as [[Hc ->]|[Hc ->]]; rewrite Hc in Hok; cbn in Hok;
    (apply inv_with_cluster; [done|right; congruence|by rewrite Hc|]).
  - exact (Ctl.ok_apply _ _ _ Hok Ha).
  - destruct Hok as [Hok Hret]. split; [exact (Ctl.ok_apply _ _ _ Hok Ha)|].
    unfold Ctl.returned in *. destruct (Ctl.at_phase c) eqn:Hph; try done. by rewrite (Ctl.returned_apply _ _ _ _ Hph Ha).
Qed.

Lemma inv_controller_returns s s' : inv s -> controller_returns s = Some s' -> inv s'.
Proof.
  intros Hi. unfold controller_returns. destruct (cluster s) as [| |c|] eqn:Hc; try done.
  destruct (Ctl.at_phase c) eqn:Hph; try done. intros [= <-]. pose proof (inv_controller _ Hi) as Hok. rewrite Hc in Hok.
  apply inv_cluster_ends; [done|by apply cluster_running; [done|congruence|rewrite Hc]| |by destruct r].
  split; [exact Hok|]. unfold Ctl.returned. by rewrite Hph.
Qed.

Lemma inv_with_servers s l d :
  inv s -> at_phase s = Group -> Shutdown ∈ running s -> (forall t, t ∈ requests s -> t ∈ l) -> inv (with_servers l d s).
Proof.
  intros [Hp Hnd Hcl Hsh Hctl Hend Hreq] Hg Hin Hl. constructor; try done. by left.
Qed.

Lemma inv_with_requests s l : inv s -> (forall t, t ∈ l -> t ∈ servers s) -> inv (with_requests l s).
Proof. intros [Hp Hnd Hcl Hsh Hctl Hend Hreq] Hl. by constructor. Qed.

Lemma inv_shutdown_step s s' : inv s -> shutdown_step s = Some s' -> inv s'.
Proof.
  intros Hi. unfold shutdown_step. destruct (cancelled s); [|done].
  destruct (bool_decide (Shutdown ∈ running s)) eqn:Hin; [|done]. apply bool_decide_eq_true in Hin. cbn [andb].
  pose proof (phase_group s _ Hi Hin) as Hg. pose proof (inv_requests _ Hi) as Hreq.
  destruct (servers s) as [|t rest] eqn:Hsrv; [intros [= <-]; by apply inv_ends|].
  destruct (draining s); cbn [negb]; [|intros [= <-]; by apply inv_with_servers].
  case_bool_decide as Ht; [done|]. intros [= <-]. apply inv_with_servers; [done..|].
  intros t' Ht'. destruct (proj1 (elem_of_cons _ _ _) (Hreq t' Ht')); [congruence|done].
Qed.

Lemma inv_apply e s s' : inv s -> apply e s = Some s' -> inv s'.
Proof.
  intros Hi. destruct e as [r| |t r|init|r|e| | | | | |t|t]; cbn [apply].
  - by apply inv_call_returns.
  - unfold group_returns. pose proof (inv_phase _ Hi) as Hp. unfold phase_ok in Hp.
    destruct (at_phase s) eqn:Hph; try done. destruct (running s) eqn:Hr; [|done]. intros [= <-].
    destruct Hi as [_ Hnd Hcl Hsh Hctl Hend Hreq]. constructor; try done. unfold phase_ok. cbn. rewrite Hr. naive_solver.
  - destruct (is_server t) eqn:Hs; [|done]. destruct (bool_decide (t ∈ running s)) eqn:Hin; [|done].
    apply bool_decide_eq_true in Hin. intros [= <-]. apply inv_ends; try done; [by destruct t..|by destruct r].
  - by apply inv_await.
  - by apply inv_prepared.
  - by apply inv_control.
  - by apply inv_controller_returns.
  - by apply inv_shutdown_step.
  - destruct (started s && negb (initialised s)); [|done]. intros [= <-]. by destruct Hi.
  - destruct (stopped s); [done|]. intros [= <-]. destruct Hi as [Hp Hnd Hcl Hsh Hctl Hend Hreq]. constructor; try done.
    unfold phase_ok in *. cbn. by rewrite orb_false_r.
  - destruct (bool_decide (LocalServer ∈ running s)) eqn:Hin; [|done]. destruct (initialised s); [|done].
    destruct (resetting s); [done|]. apply bool_decide_eq_true in Hin. cbn. intros [= <-]. pose proof (phase_group s _ Hi Hin) as Hg.
    destruct Hi as [Hp Hnd Hcl Hsh Hctl Hend Hreq]. constructor; try done. unfold phase_ok in *. cbn. by rewrite Hg in Hp |- *.
  - destruct (accepts s t) eqn:Hacc; [|done]. intros [= <-]. apply inv_with_requests; [done|].
    unfold accepts in Hacc. rewrite !andb_true_iff, !bool_decide_eq_true in Hacc.
    intros t' [->|Ht']%elem_of_cons; [apply Hacc|by apply (inv_requests _ Hi)].
  - case_bool_decide as Ht; [|done]. intros [= <-]. apply inv_with_requests; [done|].
    intros t' Ht'. apply (inv_requests _ Hi). apply (elem_of_remove_one t); [done|by right].
Qed.

Lemma inv_reachable m c s : reachable m c s -> inv s.
Proof. induction 1 as [|e s s' _ IH Ha]; [apply inv_initial|by apply (inv_apply e s)]. Qed.

(** *** Progress and termination *)
(** The events that do not come from outside: calls return, the goroutines of the daemon go
    on, and servers that are stopped return. *)
Definition own (s : state) (e : event) : Prop :=
  match e with
  | ServerEnds t _ => t ∉ servers s
  | Control e => exists c, cluster s = Controlling c /\ (Ctl.own c e \/ e = Ctl.Cancel)
  | Initialise | Stop | Reset | RequestStarts _ | RequestEnds _ => False
  | _ => True
  end.

Definition returned (s : state) : bool := match at_phase s with Returned _ => true | _ => false end.

Lemma control_Controlling e s c c' : cluster s = Controlling c -> cancelled s = true -> Ctl.apply e c = Some c' ->
  control e s = Some (with_cluster (Controlling c') s).
Proof. intros Hc Hcan Ha. unfold control. rewrite Hc. destruct e; rewrite ?Hcan, Ha; done. Qed.

Lemma cluster_progress s : inv s -> cancelled s = true -> ClusterGoroutine ∈ running s ->
  exists e s', own s e /\ apply e s = Some s'.
Proof.
  intros Hi Hcan Hin. pose proof (inv_controller _ Hi) as Hok. pose proof (phase_group s _ Hi Hin) as Hg.
  pose proof (inv_phase _ Hi) as Hp. unfold phase_ok in Hp. rewrite Hg in Hp.
  assert (Hov : over (cluster s) = false) by (by apply (inv_cluster _ Hi); [apply Hp|]).
  destruct (cluster s) as [|p todo u|c|] eqn:Hc; [| | |done].
  - exists (Await false). cbn. unfold await. rewrite Hc, bool_decide_eq_true_2 by done. rewrite Hcan. by eexists.
  - exists (Prepared (Ok false)). cbn. unfold prepared. rewrite Hc. destruct p, todo; by eexists.
  - destruct (Ctl.returned c) eqn:Hret.
    { exists ControllerReturns. cbn. unfold controller_returns, Ctl.returned in *. rewrite Hc.
      destruct (Ctl.at_phase c); try done. by eexists. }
    destruct (Ctl.parent_done c) eqn:Hd.
    + destruct (Ctl.controller_progress c (proj1 Hok) (proj2 Hok) Hd Hret) as (e & c' & Ho & Ha).
      exists (Control e). cbn [apply own]. rewrite (control_Controlling e s c c' Hc Hcan Ha). eexists. split; [|done].
      exists c. split; [done|by left].
    + exists (Control Ctl.Cancel). cbn [apply own].
      rewrite (control_Controlling Ctl.Cancel s c (Ctl.end_parent c) Hc Hcan) by (cbn; by rewrite Hd).
      eexists. split; [|done]. exists c. split; [done|by right].
Qed.

(** [GracefulStop] of the server waits for a request in flight. *)
Definition waits_for_clients (s : state) (t : task) : Prop :=
  Shutdown ∈ running s /\ draining s = true /\ head (servers s) = Some t /\ t ∈ requests s.

Lemma machine_progress s : inv s -> cancelled s = true -> returned s = false ->
  (exists e s', own s e /\ apply e s = Some s') \/ exists t, waits_for_clients s t.
Proof.
  intros Hi Hcan Hret. pose proof (inv_phase _ Hi) as Hp. unfold phase_ok, returned in *.
  destruct (at_phase s) as [c todo| | | |r] eqn:Hph; [| | | |done].
  1,3,4: left; exists (CallReturns None); cbn; unfold call_returns; rewrite Hph; try destruct todo; by eexists.
  destruct Hp as (Hst & _ & _).
  destruct (decide (Shutdown ∈ running s)) as [Hs|Hs].
  { destruct (servers s) as [|t rest] eqn:Hsrv.
    { left. exists ShutdownStep. cbn. unfold shutdown_step. rewrite Hcan, bool_decide_eq_true_2, Hsrv by done. by eexists. }
    destruct (draining s) eqn:Hd; [destruct (decide (t ∈ requests s)) as [Ht|Ht]|].
    - right. exists t. unfold waits_for_clients. by rewrite Hsrv.
    - left. exists ShutdownStep. cbn. unfold shutdown_step. rewrite Hcan, bool_decide_eq_true_2, Hsrv, Hd by done. cbn.
      rewrite bool_decide_eq_false_2 by done. by eexists.
    - left. exists ShutdownStep. cbn. unfold shutdown_step. rewrite Hcan, bool_decide_eq_true_2, Hsrv, Hd by done. by eexists. }
  left.
  destruct (inv_shutdown _ Hi Hst) as [|Hsrv]; [done|].
  destruct (decide (ClusterGoroutine ∈ running s)) as [Hc|Hc]; [by apply cluster_progress|].
  destruct (running s) as [|t l] eqn:Hr.
  { exists GroupReturns. cbn. unfold group_returns. rewrite Hph, Hr. by eexists. }
  assert (Ht : is_server t = true) by (destruct t; try done; exfalso; [apply Hc|apply Hs]; left).
  exists (ServerEnds t None). cbn. rewrite Ht, Hr, bool_decide_eq_true_2 by left. cbn. rewrite Hsrv.
  eexists. split; [|done]. by apply not_elem_of_nil.
Qed.

Definition rank (p : phase) : nat :=
  match p with Setup _ todo => 20 + length todo | Group => 10 | StoppingCorrosion => 5 | CleaningUp => 3 | Returned _ => 0 end.

Definition weight (p : preparation) : nat := match p with CheckImageStore => 5 | _ => 2 end.
Definition weights (ps : list preparation) : nat := sum_list_with weight ps.

Definition cluster_rank (c : cluster_phase) : nat :=
  match c with
  | Awaiting => 200
  | Preparing p todo _ => 100 + weight p + weights todo
  | Controlling c => 1 + Ctl.measure c
  | Over (Some c) => Ctl.measure c
  | Over None => 0
  end.

Definition unset (b : bool) : nat := if b then 0 else 1.

(** The requests of clients aside, every event makes it smaller: the daemon cannot go on for ever. *)
Definition measure (s : state) : nat :=
  rank (at_phase s) + length (running s) + cluster_rank (cluster s) + 2 * length (servers s) + unset (draining s) +
  unset (stopped s) + unset (initialised s) + unset (resetting s).

Lemma measure_ends t r s : t ∈ running s -> (measure (ends t r s) < measure s)%nat.
Proof. intros Ht. unfold measure. cbn. rewrite (length_remove_one t _ Ht). lia. Qed.

Lemma measure_with_cluster c s : (cluster_rank c < cluster_rank (cluster s))%nat -> (measure (with_cluster c s) < measure s)%nat.
Proof. unfold measure. cbn. lia. Qed.

Lemma measure_ends_over s r c : ClusterGoroutine ∈ running s -> (cluster_rank (Over c) <= cluster_rank (cluster s))%nat ->
  (measure (ends ClusterGoroutine r (with_cluster (Over c) s)) < measure s)%nat.
Proof. intros Ht. unfold measure. cbn [ends with_cluster at_phase running cluster servers stopped initialised resetting draining]. rewrite (length_remove_one _ _ Ht). lia. Qed.

Lemma measure_prepared r s s' : inv s -> prepared r s = Some s' -> (measure s' < measure s)%nat.
Proof.
  intros Hi. unfold prepared. destruct (cluster s) as [|p todo u| |] eqn:Hc; try done. destruct r as [enabled|e].
  2:{ intros [= <-]. apply measure_ends_over; [by apply cluster_running; [done|congruence|rewrite Hc]|cbn; lia]. }
  set (u' := match p with NewRegistry => true | _ => u end).
  assert (Hw : (weights match p with CheckImageStore => if enabled then NewRegistry :: todo else todo | _ => todo end < weight p + weights todo)%nat).
  { unfold weights. destruct p; cbn; try lia. destruct enabled; cbn; lia. }
  revert Hw. generalize (match p with CheckImageStore => if enabled then NewRegistry :: todo else todo | _ => todo end).
  intros [|p' rest] Hw [= <-]; apply measure_with_cluster; rewrite Hc.
  - cbn. unfold Ctl.measure. cbn. lia.
  - unfold weights in *. cbn in Hw |- *. fold weights in *. unfold weights in *. lia.
Qed.

(** The requests of clients start and end at any time. *)
Definition client_event (e : event) : bool := match e with RequestStarts _ | RequestEnds _ => true | _ => false end.

Lemma measure_apply e s s' : inv s -> apply e s = Some s' ->
  if client_event e then measure s' = measure s else (measure s' < measure s)%nat.
Proof.
  intros Hi. pose proof (inv_phase _ Hi) as Hp. unfold phase_ok in Hp. destruct e as [r| |t r|init|r|e| | | | | |t|t]; cbn [apply client_event].
  - unfold call_returns. destruct (at_phase s) as [c todo| | | |res] eqn:Hph; try done.
    + destruct Hp as (H1 & _). destruct todo as [|c' todo], r as [e|]; intros [= <-]; unfold measure; cbn; rewrite ?H1, Hph; cbn; lia.
    + intros Hs'. assert (s' = set_corrosion_stopped s) as -> by (by destruct r; injection Hs').
      unfold measure. cbn. rewrite Hph. destruct (resetting s); cbn; lia.
    + intros Hs'. assert (s' = set_cleaned_up s) as -> by (by destruct r; injection Hs').
      unfold measure. cbn. rewrite Hph. cbn. lia.
  - unfold group_returns. destruct (at_phase s) eqn:Hph; try done. destruct (running s); [|done]. intros [= <-].
    unfold measure. cbn. rewrite Hph. cbn. lia.
  - destruct (is_server t); [|done]. destruct (bool_decide (t ∈ running s)) eqn:Hin; [|done]. apply bool_decide_eq_true in Hin.
    intros [= <-]. by apply measure_ends.
  - unfold await. destruct (cluster s) eqn:Hc; try done. destruct (bool_decide (ClusterGoroutine ∈ running s)) eqn:Hin; [|done].
    apply bool_decide_eq_true in Hin. cbn [negb]. destruct init.
    + destruct (initialised s); [|done]. intros [= <-]. apply measure_with_cluster. rewrite Hc. destruct (containerd_sock s); cbn; lia.
    + destruct (cancelled s); [|done]. intros [= <-]. apply measure_ends_over; [done|cbn; lia].
  - by apply measure_prepared.
  - intros (c & c' & Ha%Ctl.controller_measure_apply & _ & [[Hc ->]|[Hc ->]])%control_Some; apply measure_with_cluster; rewrite Hc; cbn; lia.
  - unfold controller_returns. destruct (cluster s) as [| |c|] eqn:Hc; try done. destruct (Ctl.at_phase c); try done. intros [= <-].
    apply measure_ends_over; [by apply cluster_running; [done|congruence|rewrite Hc]|rewrite Hc; cbn; lia].
  - unfold shutdown_step. destruct (cancelled s); [|done]. destruct (bool_decide (Shutdown ∈ running s)) eqn:Hin; [|done].
    apply bool_decide_eq_true in Hin. cbn [andb].
    destruct (servers s) eqn:Hsrv; [intros [= <-]; by apply measure_ends|].
    destruct (draining s) eqn:Hd; cbn [negb]; [case_bool_decide; [done|]|]; intros [= <-]; unfold measure; cbn; rewrite ?Hsrv, ?Hd; cbn; lia.
  - destruct (started s); [|done]. destruct (initialised s) eqn:Hini; [done|]. intros [= <-]. unfold measure. cbn. rewrite Hini. cbn. lia.
  - destruct (stopped s) eqn:Hst; [done|]. intros [= <-]. unfold measure. cbn. rewrite Hst, orb_false_r. cbn. lia.
  - destruct (bool_decide _); [|done]. destruct (initialised s); [|done]. destruct (resetting s) eqn:Hr; [done|]. intros [= <-].
    unfold measure. cbn. rewrite Hr. destruct (stopped s); cbn; lia.
  - destruct (accepts s t); [|done]. by intros [= <-].
  - case_bool_decide; [|done]. by intros [= <-].
Qed.

(** *** Runs *)
Fixpoint run (es : list event) (s : state) : option state :=
  match es with [] => Some s | e :: es => s' ← apply e s; run es s' end.

Lemma cancelled_apply e s s' : apply e s = Some s' -> cancelled s = true -> cancelled s' = true.
Proof.
  unfold cancelled. intros Ha Hc.
  assert (Hm : (stopped s = true -> stopped s' = true) /\
               (ended s' = ended s \/ exists x, ended s' = ended s ++ [x])).
  { destruct e as [r| |t r|init|r|e| | | | | |t|t]; cbn [apply] in Ha.
    - unfold call_returns in Ha. destruct (at_phase s) as [c todo| | | |res]; try done.
      + destruct todo, r; injection Ha as <-; split; by try left.
      + destruct r; injection Ha as <-; split; by try left.
      + destruct r; injection Ha as <-; split; by try left.
    - unfold group_returns in Ha. destruct (at_phase s), (running s); try done. injection Ha as <-. split; by try left.
    - destruct (is_server t && _); [|done]. injection Ha as <-. split; [done|right; by eexists].
    - unfold await in Ha. destruct (cluster s); try done. destruct (negb _); [done|]. destruct init.
      + destruct (initialised s); [|done]. injection Ha as <-. split; by try left.
      + destruct (cancelled s); [|done]. injection Ha as <-. split; [done|right; by eexists].
    - unfold prepared in Ha. destruct (cluster s) as [|p todo u| |]; try done. destruct r as [enabled|e].
      + destruct (match p with CheckImageStore => if enabled then NewRegistry :: todo else todo | _ => todo end);
          injection Ha as <-; split; by try left.
      + injection Ha as <-. split; [done|right; by eexists].
    - apply control_Some in Ha as (c & c' & _ & _ & [[_ ->]|[_ ->]]); split; by try left.
    - unfold controller_returns in Ha. destruct (cluster s); try done. destruct (Ctl.at_phase c); try done.
      injection Ha as <-. split; [done|right; by eexists].
    - unfold shutdown_step in Ha. destruct (_ && _); [|done].
      destruct (servers s); [injection Ha as <-; split; [done|right; by eexists]|].
      destruct (draining s); cbn [negb] in Ha; [destruct (bool_decide _); [done|]|]; injection Ha as <-; split; by try left.
    - destruct (_ && _); [|done]. injection Ha as <-. split; by try left.
    - destruct (stopped s) eqn:Hs; [done|]. injection Ha as <-. split; by try left.
    - destruct (_ && _); [|done]. injection Ha as <-. split; by try left.
    - destruct (accepts s t); [|done]. injection Ha as <-. split; by try left.
    - destruct (bool_decide _); [|done]. injection Ha as <-. split; by try left. }
  destruct Hm as [Hst Hend]. destruct (stopped s) eqn:Hs; [by rewrite Hst|]. cbn in Hc.
  destruct Hend as [->|[x ->]]; [by rewrite Hc, orb_true_r|]. rewrite first_error_app.
  by destruct (first_error (ended s)); [rewrite orb_true_r|].
Qed.

Definition daemon_steps (es : list event) : nat := length (List.filter (fun e => negb (client_event e)) es).

Lemma run_spec es : forall s s', inv s -> cancelled s = true -> run es s = Some s' ->
  inv s' /\ cancelled s' = true /\ (daemon_steps es + measure s' <= measure s)%nat.
Proof.
  induction es as [|e es IH]; intros s s' Hi Hc; cbn [run].
  { intros [= ->]. split_and!; [done..|cbn; lia]. }
  intros (s1 & Ha & Hr)%bind_Some. pose proof (measure_apply e s s1 Hi Ha) as Hlt.
  destruct (IH s1 s' (inv_apply e s s1 Hi Ha) (cancelled_apply e s s1 Ha Hc) Hr) as (H1 & H2 & H3). split_and!; [done..|].
  unfold daemon_steps in *. cbn. destruct (client_event e); cbn; lia.
Qed.

(** The controller, while its goroutine runs and afterwards. *)
Definition controller_of (s : state) : option Ctl.state :=
  match cluster s with Controlling c => Some c | Over c => c | _ => None end.

Lemma controller_inv s c : inv s -> controller_of s = Some c -> Ctl.inv c /\ Ctl.phase_ok c.
Proof.
  intros Hi. pose proof (inv_controller _ Hi) as Hok. unfold controller_of.
  destruct (cluster s) as [| |c'|[c'|]]; try done; intros [= ->]; [done|by destruct Hok].
Qed.

(** Corrosion is stopped after the servers and the cluster goroutine have ended, and after
    the goroutines of the controller unless it returned the error of a call. *)
Lemma corrosion_last s : inv s -> corrosion_stopped s = true ->
  running s = [] /\ servers s = [] /\
  forall c, controller_of s = Some c -> exists r, Ctl.at_phase c = Ctl.Returned r /\
    (Ctl.early r = true \/ Ctl.running c = [] /\ Ctl.api_stopped c = true).
Proof.
  intros Hi Hcor. pose proof (inv_phase _ Hi) as Hp. unfold phase_ok in Hp.
  assert (H : started s = true /\ running s = []) by (destruct (at_phase s) as [| | | |[[]|]]; naive_solver congruence).
  destruct H as [Hst Hrun]. pose proof (inv_cluster _ Hi Hst) as Hcl. rewrite Hrun in Hcl. split_and!; [done| |].
  - destruct (inv_shutdown _ Hi Hst) as [Hsh|]; [|done]. rewrite Hrun in Hsh. by apply not_elem_of_nil in Hsh.
  - intros c Hc. pose proof (inv_controller _ Hi) as Hok. unfold controller_of in Hc.
    destruct (cluster s) as [| |c'|[c'|]]; try done.
    + exfalso. apply (not_elem_of_nil ClusterGoroutine), Hcl. done.
    + injection Hc as ->. destruct Hok as [[Hci Hcp] Hret]. unfold Ctl.returned, Ctl.phase_ok in *.
      destruct (Ctl.at_phase c); try done. exists r. split; [done|]. destruct Hcp as [|(H1 & H2 & _)]; [by left|by right].
Qed.
End Machine.

(** ** The claim *)
Import Machine.

(** C20: once the daemon is told to stop, or one of its goroutines fails, it comes to an end
    unless a client holds it up. Whatever else happens in whatever order, it takes only a
    bounded number of steps, requests of clients aside, and as
    long as [Run] has not returned there is something left for it to do that does not wait
    for anybody else, or the graceful stop of one of its servers, which has no timeout, waits for a request in flight.
    When it has returned, no goroutine of the machine is running, its servers are
    stopped with no request cut off, Corrosion is stopped, and the data are removed exactly
    if the machine was reset; the controller has returned, and its own goroutines have ended too, its API server being stopped,
    unless it gave up with the error of a call, after which they may go on. At any time before, the controller reports readiness only
    when the store is synchronised, the network is configured and every component has been
    launched, and no component that needs the store is launched before. *)
Theorem daemon_lifecycle (member containerd : bool) (s : state) : reachable member containerd s ->
  (forall c, controller_of s = Some c ->
     (Ctl.cluster_ready c = true -> Ctl.synced c = true /\ Ctl.network_ready c = true /\
        Forall (Ctl.launched c) (Ctl.base ++ Ctl.components (Ctl.has_unregistry c))) /\
     (forall t, Ctl.launched c t -> t ∈ Ctl.base \/ Ctl.synced c = true)) /\
  (cancelled s = true -> forall es s', run es s = Some s' ->
     (daemon_steps es <= measure s)%nat /\
     ((forall e, own s' e -> apply e s' = None) -> returned s' = true \/ exists t, waits_for_clients s' t)) /\
  (corrosion_stopped s = true -> running s = [] /\ servers s = [] /\ requests s = [] /\
     forall c, controller_of s = Some c -> exists r, Ctl.at_phase c = Ctl.Returned r /\
       (Ctl.early r = true \/ Ctl.running c = [] /\ Ctl.api_stopped c = true)) /\
  (returned s = true -> started s = true ->
     corrosion_stopped s = true /\ cleaned_up s = resetting s /\
     at_phase s = Returned (snd <$> first_error (ended s))).
Proof.
  intros Hi%inv_reachable. split_and!.
  - intros c Hc. destruct (controller_inv _ _ Hi Hc) as [Hci _]. split; [apply (Ctl.inv_ready _ Hci)|apply (Ctl.inv_synced _ Hci)].
  - intros Hcan es s' Hr. destruct (run_spec es s s' Hi Hcan Hr) as (Hi' & Hcan' & Hlen). split; [lia|].
    intros Hstuck. destruct (returned s') eqn:Hret; [by left|]. right.
    destruct (machine_progress s' Hi' Hcan' Hret) as [(e & s2 & Ho & Ha)|Hw]; [|done]. by rewrite (Hstuck e Ho) in Ha.
  - intros Hcor. destruct (corrosion_last s Hi Hcor) as (H1 & H2 & H3). split_and!; [done..| |done].
    pose proof (inv_requests _ Hi) as Hreq. rewrite H2 in Hreq. destruct (requests s) as [|t l]; [done|].
    by destruct (not_elem_of_nil t (Hreq t (list_elem_of_here _ _))).
  - intros Hret Hst. pose proof (inv_phase _ Hi) as Hp. unfold phase_ok, returned in *.
    destruct (at_phase s) as [| | | |[[]|]]; naive_solver congruence.
Qed.

(** *** Concrete runs *)
(** The calls of the machine, of the cluster goroutine and of the controller that succeed. *)
Definition calls (n : nat) : list event := repeat (CallReturns None) n.
Definition controller_calls (n : nat) : list event := repeat (Control (Ctl.CallReturns None)) n.

(** A member starts its controller, which starts its components. *)
Definition start_member : list event :=
  calls 4 ++ [Await true] ++ repeat (Prepared (Ok false)) 4 ++ controller_calls 8 ++ repeat (Control Ctl.MainStep) 8.

(** Everything is stopped after a signal. *)
Definition stop_member (s : event) : list event :=
  [s; Control Ctl.Cancel; ShutdownStep; ShutdownStep; ServerEnds LocalServer None; ShutdownStep; ShutdownStep; ServerEnds ProxyServer None; ShutdownStep;
   Control Ctl.MainStep; Control Ctl.MainStep] ++
  map (fun t => Control (Ctl.Ends t None)) (Ctl.base ++ Ctl.components false) ++
  [Control Ctl.MainStep; ControllerReturns; GroupReturns].

Definition after (es : list event) : option state := run es (initial true false).

Lemma daemon_run_reachable es : forall s s' m c, reachable m c s -> run es s = Some s' -> reachable m c s'.
Proof.
  induction es as [|e es IH]; intros s s' m c Hr; cbn [run]; [by intros [= ->]|].
  intros (s1 & Ha & Hrun)%bind_Some. apply (IH s1); [by apply (reachable_apply m c e s)|done].
Qed.

(** A member that is reset, at the end. *)
Definition reset_member : state := default (initial true false) (after (start_member ++ stop_member Reset ++ calls 2)).

Lemma default_run_reachable es m c : reachable m c (default (initial m c) (run es (initial m c))).
Proof.
  destruct (run es (initial m c)) as [s|] eqn:Hrun; cbn [default]; [|constructor].
  exact (daemon_run_reachable _ _ _ _ _ (reachable_initial m c) Hrun).
Qed.

Lemma reset_member_reachable : reachable true false reset_member.
Proof. apply default_run_reachable. Qed.

(** Its controller has been ready, and has stopped without an error. *)
Definition ready_without_error (c : Ctl.state) : bool :=
  Ctl.cluster_ready c && match Ctl.at_phase c with Ctl.Returned None => true | _ => false end.

Lemma reset_member_returned : returned reset_member && started reset_member && resetting reset_member = true.
Proof. vm_compute. reflexivity. Qed.

Lemma reset_member_controller : (ready_without_error <$> controller_of reset_member) = Some true.
Proof. vm_compute. reflexivity. Qed.

Lemma daemon_lifecycle_witness :
  exists c, cleaned_up reset_member = true /\ corrosion_stopped reset_member = true /\
    controller_of reset_member = Some c /\ Ctl.running c = [] /\ Ctl.synced c = true.
Proof.
  generalize (daemon_lifecycle true false reset_member reset_member_reachable) reset_member_returned reset_member_controller.
  generalize reset_member. intros s (Hready & _ & Hend) Hreturned Hcontroller.
  destruct (proj1 (andb_true_iff _ _) Hreturned) as [[Hret Hst]%andb_true_iff Hreset].
  destruct (proj1 (fmap_Some _ _ _) Hcontroller) as (c & Hc & Hready_c).
  symmetry in Hready_c. apply andb_true_iff in Hready_c as [Hcr Hcp].
  destruct Hend as [Hstopped Hend]. destruct (Hend Hret Hst) as (Hcor & Hclean & _).
  destruct (Hstopped Hcor) as (_ & _ & _ & Hctl). destruct (Hctl c Hc) as (r & Hr & Hor).
  rewrite Hr in Hcp. exists c. destruct Hor as [Hearly|[Hrun _]]; [by destruct r|].
  destruct (Hready c Hc) as [Hall _]. destruct (Hall Hcr) as (Hsync & _ & _).
  rewrite Hclean. exact (conj Hreset (conj Hcor (conj Hc (conj Hrun Hsync)))).
Defined.

(** When the address of the API server cannot be listened on, or the wait for the store
    fails, the controller returns without waiting for the goroutines it has launched: they
    outlive it, and the API server is never stopped. *)
Example goroutines_outlive_the_controller :
  (s ← after (calls 4 ++ [Await true] ++ repeat (Prepared (Ok false)) 4 ++ controller_calls 7 ++
         [Control (Ctl.CallReturns (Some "context deadline exceeded")); ControllerReturns; ShutdownStep; ShutdownStep;
          ServerEnds LocalServer None; ShutdownStep; ShutdownStep; ServerEnds ProxyServer None; ShutdownStep; GroupReturns] ++ calls 1);
   c ← controller_of s; Some (at_phase s, corrosion_stopped s, Ctl.running c, Ctl.api_stopped c)) =
  Some (Returned (Some (ControllerFailed (Ctl.CallFailed Ctl.WaitStoreSync "context deadline exceeded"))), true, Ctl.base, false).
Proof. vm_compute. reflexivity. Qed.

(** A machine that is not a member stops without a controller. *)
Example stops_without_a_cluster :
  returned <$> run (calls 5 ++ [Stop; Await false; ShutdownStep; ShutdownStep; ServerEnds LocalServer None; ShutdownStep; ShutdownStep; ServerEnds ProxyServer None;
                     ShutdownStep; GroupReturns] ++ calls 1) (initial false false) = Some true.
Proof. vm_compute. reflexivity. Qed.

(** A client that follows a log holds up the end of the daemon for as long as it likes: nothing
    the daemon does by itself is left, and the request ends only when the client ends it. *)
Example client_holds_up_the_stop :
  (s ← run (calls 5 ++ [RequestStarts LocalServer; Stop; Await false; ShutdownStep]) (initial false false);
   Some (at_phase s, running s, requests s, apply ShutdownStep s)) =
  Some (Group, [LocalServer; ProxyServer; Shutdown], [LocalServer], None).
Proof. vm_compute. reflexivity. Qed.
