(* ===== verification/Proxy.v ===== *)
(** * Proxy: requests to other machines, [internal/machine/api/proxy]

    [mapper.go] (names to machines), [director.go] (where a request goes), [remote.go] and
    [local.go] (the metadata sent on), and [backend.go] (how the replies of several machines
    become one response).  Messages are byte strings; [protowire] and [proto.Marshal] are
    third-party code, the classes [ProtoWire] and [ProtoMarshal].  Connections are the
    target they lead to. *)

From S2P Require Import Prelude GoStrings NetAddr NetText Proto Corrosion Store.
#[local] Open Scope string_scope.
#[local] Open Scope list_scope.
#[local] Open Scope Z_scope.

(** ** [mapper.go] *)
Record MachineTarget := mkTarget { mt_ID : string; mt_Name : string; mt_Addr : string }.

#[global] Instance MachineTarget_eq_dec : EqDecision MachineTarget.
Proof. solve_decision. Defined.

Inductive map_error {E : Type} :=
| NoMachinesSpecified | MapListFailed (e : E) | InvalidManagementIPOf (name : string) (e : pb_error)
| NoMachinesInCluster | MachinesNotFound (names : list string).
Arguments map_error : clear implicits.

(** The targets of the machines; [None] is a panic. *)
Fixpoint all_targets {E} (ms : list MachineInfo) : nilable (map_error E) (list MachineTarget) :=
  match ms with
  | [] => Some (Ok [])
  | m :: rest =>
      match mi_Network m with
      | None => None
      | Some c =>
          match ToAddr (nc_ManagementIp c) with
          | None => None
          | Some (Err e) => Some (Err (InvalidManagementIPOf (mi_Name m) e))
          | Some (Ok a) =>
              match all_targets rest with
              | Some (Ok ts) => Some (Ok (mkTarget (mi_Id m) (mi_Name m) (addr_String a) :: ts))
              | r => r
              end
          end
      end
  end.

Definition add_target (table : gmap string MachineTarget) (t : MachineTarget) : gmap string MachineTarget :=
  <[mt_Name t := t]> (<[mt_ID t := t]> table).
Definition lookup_table (ts : list MachineTarget) : gmap string MachineTarget := fold_left add_target ts ∅.

(** The loop over the requested names: targets, IDs seen, and names not found. *)
Fixpoint resolve_names (table : gmap string MachineTarget) (names : list string) (seen : gset string) :
  list MachineTarget * list string :=
  match names with
  | [] => ([], [])
  | n :: rest =>
      match table !! n with
      | None => let (ts, missing) := resolve_names table rest seen in (ts, n :: missing)
      | Some t =>
          if decide (mt_ID t ∈ seen) then resolve_names table rest seen
          else let (ts, missing) := resolve_names table rest ({[mt_ID t]} ∪ seen) in (t :: ts, missing)
      end
  end.

Definition MapMachines {E} (listing : nilable E (list MachineInfo)) (names : list string) :
  nilable (map_error E) (list MachineTarget) :=
  match names with
  | [] => Some (Err NoMachinesSpecified)
  | _ =>
      match listing with
      | None => None
      | Some (Err e) => Some (Err (MapListFailed e))
      | Some (Ok ms) =>
          match all_targets ms with
          | None => None
          | Some (Err e) => Some (Err e)
          | Some (Ok all) =>
              if existsb (String.eqb "*") names then
                match all with [] => Some (Err NoMachinesInCluster) | _ => Some (Ok all) end
              else
                let (ts, missing) := resolve_names (lookup_table all) names ∅ in
                match missing with
                | [] => Some (Ok ts)
                | _ => Some (Err (MachinesNotFound missing))
                end
          end
      end
  end.

(** ** [director.go] *)

(** The metadata of a request; its keys are in lower case. *)
Abbreviation MD := (gmap string (list string)).

Inductive Backend :=
| LocalBackend
| RemoteBackend (target : addr * Z)
| MetadataBackend (b : Backend) (t : MachineTarget).

Inductive Mode := One2One | One2Many.

Inductive direct_error {E : Type} :=
| MachineNotOne | BothMachineKeys | MachinesEmpty | MapFailed (e : map_error E) | BadAddress (addr : string).
Arguments direct_error : clear implicits.

Definition NewRemoteBackend {E} (a : string) (port : Z) : result (direct_error E) Backend :=
  match ParseAddr a with
  | Some ip => if Is6 ip then Ok (RemoteBackend (ip, port)) else Err (BadAddress a)
  | None => Err (BadAddress a)
  end.

(** [getBackend]; the cache of remote backends holds one for each address, so it is left
    out. *)
Definition getBackend {E} (local : string) (port : Z) (a : string) : result (direct_error E) Backend :=
  if negb (String.eqb local "") && String.eqb a local then Ok LocalBackend else NewRemoteBackend a port.

Fixpoint target_backends {E} (local : string) (port : Z) (ts : list MachineTarget) : result (direct_error E) (list Backend) :=
  match ts with
  | [] => Ok []
  | t :: rest =>
      match getBackend local port (mt_Addr t) with
      | Err e => Err e
      | Ok b => match target_backends local port rest with
                | Ok bs => Ok (MetadataBackend b t :: bs)
                | Err e => Err e
                end
      end
  end.

(** [Director]: [None] metadata is a context without any; the result [None] is a panic. *)
Definition Direct {E} (local : string) (port : Z) (listing : nilable E (list MachineInfo)) (md : option MD) :
  nilable (direct_error E) (Mode * list Backend) :=
  match md with
  | None => Some (Ok (One2One, [LocalBackend]))
  | Some md =>
      match md !! "proxy-authority" with
      | Some _ => Some (Ok (One2One, [LocalBackend]))
      | None =>
          let machines := md !! "machines" in
          match md !! "machine", machines with
          | None, None => Some (Ok (One2One, [LocalBackend]))
          | Some machine, _ =>
              if negb (length machine =? 1)%nat then Some (Err MachineNotOne)
              else if is_set machines then Some (Err BothMachineKeys)
              else match MapMachines listing machine with
                   | None => None
                   | Some (Err e) => Some (Err (MapFailed e))
                   | Some (Ok []) => None
                   | Some (Ok (t :: _)) =>
                       match getBackend local port (mt_Addr t) with
                       | Err e => Some (Err e)
                       | Ok b => Some (Ok (One2One, [b]))
                       end
                   end
          | None, Some machines =>
              match machines with
              | [] => Some (Err MachinesEmpty)
              | _ =>
                  match MapMachines listing machines with
                  | None => None
                  | Some (Err e) => Some (Err (MapFailed e))
                  | Some (Ok ts) =>
                      match target_backends local port ts with
                      | Err e => Some (Err e)
                      | Ok bs => Some (Ok (One2Many, bs))
                      end
                  end
              end
          end
      end
  end.

(** The metadata that [GetConnection] of a remote backend sends on; that of the local one
    sends on what it got.  [None] is a panic: [Set] on metadata that is nil. *)
Definition remote_metadata (md : MD) : MD :=
  let authority := default [] (md !! ":authority") in
  let md := <["proxy-authority" := match authority with [] => ["unknown"] | _ => authority end]> md in
  delete "machine" (delete "machines" (delete ":authority" md)).

Fixpoint sent_metadata (b : Backend) (md : option MD) : option MD :=
  match b with
  | LocalBackend => Some (default ∅ md)
  | RemoteBackend _ => remote_metadata <$> md
  | MetadataBackend b _ => sent_metadata b md
  end.

(** ** [backend.go] *)

(** [protowire.AppendVarint] and [ConsumeVarint], which returns the value and the number
    of bytes read, negative for an error. *)
Class ProtoWire := {
  AppendVarint : string -> Z -> string;
  ConsumeVarint : string -> Z * Z
}.

Class ProtoWireSpec `{ProtoWire} : Prop := {
  (** A value is appended. *)
  AppendVarint_app : forall b v, AppendVarint b v = b +:+ AppendVarint "" v;
  (** A value takes at least a byte. *)
  AppendVarint_some : forall v, AppendVarint "" v <> "";
  (** Reading an appended value gives it back, with its size. *)
  ConsumeVarint_append : forall v rest, 0 <= v < 2 ^ 64 ->
    ConsumeVarint (AppendVarint "" v +:+ rest) = (v, Z.of_nat (String.length (AppendVarint "" v)))
}.

Record Metadata := mkMetadata {
  md_MachineAddr : string; md_MachineId : string; md_MachineName : string; md_Error : string; md_Status : option string }.

(** [proto.Marshal] of [Empty{Metadata: m}]; [None] is an error. *)
Class ProtoMarshal := { marshal_Empty : Metadata -> option string }.

Inductive append_error := MarshalFailed | BadVarint (code : Z) | UnexpectedFormat (typ : Z) | UnexpectedSize (n : nat).

Section Messages.
Context {PW : ProtoWire} {PM : ProtoMarshal}.

Definition target_metadata (t : MachineTarget) : Metadata := mkMetadata (mt_Addr t) (mt_ID t) (mt_Name t) "" None.

(** The header of an embedded message in field 1. *)
Definition message_field : Z := 10.
Definition header (n : Z) : string := AppendVarint (AppendVarint "" message_field) n.

(** [resp[n:]]. *)
Definition skip_bytes (n : Z) (s : string) : string := snd (split_at (Z.to_nat n) s).

(** An error of [proto.Marshal] is returned along with the bytes. *)
Definition AppendInfo (t : MachineTarget) (streaming : bool) (resp : string) : result append_error string :=
  let marshalled := marshal_Empty (target_metadata t) in
  let payload := default "" marshalled in
  let finish r := match marshalled with Some _ => Ok r | None => Err MarshalFailed end in
  if streaming then finish (resp +:+ payload)
  else
    let (typ, n1) := ConsumeVarint resp in
    if n1 <? 0 then Err (BadVarint n1)
    else
      let (_, n2) := ConsumeVarint (skip_bytes n1 resp) in
      if n2 <? 0 then Err (BadVarint n2)
      else if negb (typ =? message_field) then Err (UnexpectedFormat typ)
      else if Z.of_nat (String.length resp) <? n1 + n2 then Err (UnexpectedSize (String.length resp))
      else
        let body := skip_bytes (n1 + n2) resp in
        finish ((header (Z.of_nat (String.length body + String.length payload)) +:+ body) +:+ payload).

(** The encoding of a response that wraps replies: field 1, repeated. *)
Definition wrap_reply (r : string) : string := header (Z.of_nat (String.length r)) +:+ r.
Definition wrap_replies (rs : list string) : string := fold_right (fun r acc => wrap_reply r +:+ acc) "" rs.

(** [BuildError]: the reply that stands for an error of a machine. *)
Definition BuildError (t : MachineTarget) (streaming : bool) (error : string) (status : string) : result append_error string :=
  match marshal_Empty (mkMetadata (mt_Addr t) (mt_ID t) (mt_Name t) error (Some status)) with
  | None => Err MarshalFailed
  | Some e => Ok (if streaming then e else wrap_reply e)
  end.

(** Decoding a response: the embedded messages of field 1, in order. *)
Fixpoint parse_replies (fuel : nat) (s : string) : option (list string) :=
  if String.eqb s "" then Some []
  else match fuel with
  | O => None
  | S f =>
      let (typ, n1) := ConsumeVarint s in
      if (n1 <? 0) || negb (typ =? message_field) then None
      else
        let (len, n2) := ConsumeVarint (skip_bytes n1 s) in
        if n2 <? 0 then None
        else
          let rest := skip_bytes (n1 + n2) s in
          if Z.of_nat (String.length rest) <? len then None
          else let (r, rest') := split_at (Z.to_nat len) rest in cons r <$> parse_replies f rest'
  end.
End Messages.

(** ** Many machines, one response *)

(** What a machine answered: the encoding of its reply, or an error. *)
Inductive outcome := Replied (r : string) | Failed (error status : string).

(** What the backend of the target contributes to the response ... *)
Definition machine_part `{ProtoWire, ProtoMarshal} (t : MachineTarget) (o : outcome) : result append_error string :=
  match o with
  | Replied r => AppendInfo t false (wrap_replies [r])
  | Failed e s => BuildError t false e s
  end.

(** ... and the reply that the client should see: it names the machine. *)
Definition machine_reply `{ProtoMarshal} (t : MachineTarget) (o : outcome) : option string :=
  match o with
  | Replied r => (fun p => r +:+ p) <$> marshal_Empty (target_metadata t)
  | Failed e s => marshal_Empty (mkMetadata (mt_Addr t) (mt_ID t) (mt_Name t) e (Some s))
  end.

Definition sizes_ok (rs : list string) : Prop := Forall (fun r => Z.of_nat (String.length r) < 2 ^ 64) rs.

(** The backends of a request to many machines, with what each machine answered; the proxy
    joins the parts.  [None] is a backend that does not add metadata. *)
Fixpoint one2many_parts `{ProtoWire, ProtoMarshal} (bs : list Backend) (os : list outcome) :
  option (list (result append_error string)) :=
  match bs, os with
  | MetadataBackend _ t :: bs, o :: os => cons (machine_part t o) <$> one2many_parts bs os
  | [], [] => Some []
  | _, _ => None
  end.

Definition target_of (b : Backend) : option MachineTarget :=
  match b with MetadataBackend _ t => Some t | _ => None end.

(** The other machine that a backend leads to. *)
Fixpoint leads_to (b : Backend) : option (addr * Z) :=
  match b with
  | LocalBackend => None
  | RemoteBackend target => Some target
  | MetadataBackend b _ => leads_to b
  end.

(** ** Properties of the proxy *)

Lemma skip_bytes_app s t : skip_bytes (Z.of_nat (String.length s)) (s +:+ t) = t.
Proof. unfold skip_bytes. by rewrite Nat2Z.id, split_at_app. Qed.

Section Responses.
Context `{PW : ProtoWireSpec} {PM : ProtoMarshal}.
Notation len s := (Z.of_nat (String.length s)).
Notation varint v := (AppendVarint "" v).

(** Reading the header of an embedded message. *)
Lemma header_app n t : header n +:+ t = varint message_field +:+ (varint n +:+ t).
Proof. unfold header. by rewrite AppendVarint_app, string_app_assoc. Qed.

Lemma read_type n t : ConsumeVarint (header n +:+ t) = (message_field, len (varint message_field)).
Proof. rewrite header_app. by apply ConsumeVarint_append. Qed.

Lemma read_length n t : 0 <= n < 2 ^ 64 ->
  ConsumeVarint (skip_bytes (len (varint message_field)) (header n +:+ t)) = (n, len (varint n)).
Proof. intros Hn. rewrite header_app, skip_bytes_app. by apply ConsumeVarint_append. Qed.

Lemma skip_header n t :
  skip_bytes (len (varint message_field) + len (varint n)) (header n +:+ t) = t.
Proof.
  rewrite header_app, <- string_app_assoc, <- Nat2Z.inj_add, <- string_app_length. apply skip_bytes_app.
Qed.

Lemma header_some n t : header n +:+ t <> "".
Proof.
  rewrite header_app. pose proof (AppendVarint_some message_field).
  by destruct (AppendVarint "" message_field).
Qed.

(** A response with one reply gets the metadata at the end of the reply. *)
Lemma AppendInfo_wrapped t r p : len r < 2 ^ 64 -> marshal_Empty (target_metadata t) = Some p ->
  AppendInfo t false (wrap_replies [r]) = Ok (wrap_reply (r +:+ p)).
Proof.
  intros Hr Hp. unfold AppendInfo, wrap_replies. cbn [fold_right]. rewrite string_app_nil_r, Hp. unfold wrap_reply.
  rewrite read_type. destruct (Z.ltb_spec (len (varint message_field)) 0); [lia|].
  rewrite read_length by lia. destruct (Z.ltb_spec (len (varint (len r))) 0); [lia|]. cbn [negb Z.eqb].
  rewrite Z.eqb_refl. cbn [negb]. rewrite skip_header.
  destruct (Z.ltb_spec (len (header (len r) +:+ r)) (len (varint message_field) + len (varint (len r)))) as [Hl|_].
  - rewrite header_app, !string_app_length in Hl. lia.
  - cbn [default]. unfold id. by rewrite <- string_app_length, string_app_assoc.
Qed.

Lemma machine_part_wraps t o m : machine_reply t o = Some m -> len m < 2 ^ 64 ->
  machine_part t o = Ok (wrap_reply m).
Proof.
  destruct o as [r|e s]; cbn [machine_reply machine_part]; intros Hm Hl.
  - destruct (marshal_Empty (target_metadata t)) as [p|] eqn:Hp; [|done]. cbn in Hm. simplify_eq.
    apply AppendInfo_wrapped; [|done]. rewrite string_app_length in Hl. lia.
  - unfold BuildError. by rewrite Hm.
Qed.

Lemma parse_replies_wrapped rs : sizes_ok rs -> parse_replies (length rs) (wrap_replies rs) = Some rs.
Proof.
  induction 1 as [|r rs Hr _ IH]; [done|]. cbn [length wrap_replies fold_right parse_replies].
  fold (wrap_replies rs). unfold wrap_reply. rewrite string_app_assoc.
  destruct (String.eqb_spec (header (len r) +:+ (r +:+ wrap_replies rs)) "") as [E|_]; [by apply header_some in E|].
  rewrite read_type. destruct (Z.ltb_spec (len (varint message_field)) 0); [lia|].
  rewrite Z.eqb_refl. cbn [negb orb]. rewrite read_length by lia.
  destruct (Z.ltb_spec (len (varint (len r))) 0); [lia|]. rewrite skip_header.
  destruct (Z.ltb_spec (len (r +:+ wrap_replies rs)) (len r)) as [Hl|_]; [rewrite string_app_length in Hl; lia|].
  by rewrite Nat2Z.id, split_at_app, IH.
Qed.

End Responses.

Lemma concat_wrapped `{ProtoWire} rs : String.concat "" (map wrap_reply rs) = wrap_replies rs.
Proof.
  induction rs as [|r [|r' rs] IH]; [done| |].
  - cbn. by rewrite string_app_nil_r.
  - cbn [map String.concat] in *. rewrite IH. done.
Qed.

(** *** Names to machines *)

Definition answers_to (n : string) (t : MachineTarget) : Prop := mt_ID t = n \/ mt_Name t = n.

Lemma lookup_table_sound ts : forall table n t,
  fold_left add_target ts table !! n = Some t ->
  (t ∈ ts /\ answers_to n t) \/ table !! n = Some t.
Proof.
  induction ts as [|m ts IH]; intros table n t; cbn [fold_left]; [by right|]. intros [[Hin Ha]|H]%IH.
  - left. split; [by right|done].
  - unfold answers_to, add_target in *. destruct (decide (mt_Name m = n)) as [<-|Hn].
    + rewrite lookup_insert_eq in H. simplify_eq. left. split; [by left|by right].
    + rewrite lookup_insert_ne in H by done. destruct (decide (mt_ID m = n)) as [<-|Hi].
      * rewrite lookup_insert_eq in H. simplify_eq. left. split; [by left|by left].
      * rewrite lookup_insert_ne in H by done. by right.
Qed.

Lemma lookup_table_complete ts : forall table n,
  (exists t, t ∈ ts /\ answers_to n t) \/ is_Some (table !! n) ->
  is_Some (fold_left add_target ts table !! n).
Proof.
  induction ts as [|m ts IH]; intros table n; cbn [fold_left].
  { intros [(t & Ht & _)|H]; [by apply not_elem_of_nil in Ht|done]. }
  intros H. apply IH. unfold add_target. rewrite !lookup_insert_is_Some'. unfold answers_to in *.
  destruct H as [(t & Hin & Ha)|H]; [|tauto]. apply elem_of_cons in Hin as [->|Hin]; [tauto|].
  left. by exists t.
Qed.

(** Each name that is not missing has a target with the ID of its machine; the targets
    have distinct IDs. *)
Lemma resolve_names_spec table : forall names seen ts missing, resolve_names table names seen = (ts, missing) ->
  NoDup (map mt_ID ts) /\
  (forall t, t ∈ ts -> mt_ID t ∉ seen /\ exists n, n ∈ names /\ table !! n = Some t) /\
  (forall n, n ∈ names -> match table !! n with
                          | Some t => mt_ID t ∈ seen \/ mt_ID t ∈ map mt_ID ts
                          | None => n ∈ missing
                          end) /\
  (forall n, n ∈ missing -> n ∈ names /\ table !! n = None).
Proof.
  induction names as [|n names IH]; intros seen ts missing; cbn [resolve_names].
  { intros [= <- <-]. split_and!; [constructor|set_solver..]. }
  destruct (table !! n) as [t|] eqn:Ht.
  - case_decide as Hseen.
    + intros (Hd & Hts & Hall & Hm)%IH. split_and!; [done|set_solver| |set_solver].
      intros n' [->|Hn']%elem_of_cons; [rewrite Ht; by left|by apply Hall].
    + destruct (resolve_names table names ({[mt_ID t]} ∪ seen)) as [ts' m'] eqn:E.
      apply IH in E as (Hd & Hts & Hall & Hm). intros [= <- <-]. cbn [map]. split_and!.
      * constructor; [|done]. intros (t' & Heq & Hin)%list_elem_of_fmap. apply Hts in Hin as [Hin _].
        rewrite <- Heq in Hin. set_solver.
      * intros t' [->|Hin]%elem_of_cons; [set_solver|]. apply Hts in Hin as [? (n' & ? & ?)]. set_solver.
      * intros n' [->|Hn']%elem_of_cons; [rewrite Ht; set_solver|]. specialize (Hall n' Hn').
        destruct (table !! n'); set_solver.
      * set_solver.
  - destruct (resolve_names table names seen) as [ts' m'] eqn:E.
    apply IH in E as (Hd & Hts & Hall & Hm). intros [= <- <-]. split_and!; [done|set_solver| |set_solver].
    intros n' [->|Hn']%elem_of_cons; [rewrite Ht; by left|]. specialize (Hall n' Hn').
    destruct (table !! n'); set_solver.
Qed.

(** The targets that the names stand for. *)
Definition named (all : list MachineTarget) (names : list string) (ts : list MachineTarget) : Prop :=
  if existsb (String.eqb "*") names then ts = all
  else NoDup (map mt_ID ts) /\
       (forall t, t ∈ ts -> t ∈ all /\ exists n, n ∈ names /\ answers_to n t) /\
       (forall n, n ∈ names -> exists t, t ∈ all /\ answers_to n t /\ mt_ID t ∈ map mt_ID ts).

Lemma MapMachines_spec {E} ms names ts : @MapMachines E (Some (Ok ms)) names = Some (Ok ts) ->
  exists all, @all_targets E ms = Some (Ok all) /\ named all names ts.
Proof.
  unfold MapMachines, named. destruct names as [|n0 names0]; [done|]. set (names := n0 :: names0).
  destruct (all_targets ms) as [[all|e]|]; [|done..]. intros H. exists all. split; [done|].
  destruct (existsb _ names); [by destruct all; simplify_eq|].
  destruct (resolve_names (lookup_table all) names ∅) as [ts' missing] eqn:Hr.
  destruct missing; simplify_eq. apply resolve_names_spec in Hr as (Hd & Hts & Hall & _).
  assert (Hin : forall n t, lookup_table all !! n = Some t -> t ∈ all /\ answers_to n t).
  { intros n t [?|H]%lookup_table_sound; [done|]. by rewrite lookup_empty in H. }
  split_and!; [done|..].
  - intros t (_ & n & Hn & Ht)%Hts. apply Hin in Ht as [? ?]. eauto.
  - intros n Hn. specialize (Hall n Hn). destruct (lookup_table all !! n) as [t|] eqn:Ht; [|set_solver].
    apply Hin in Ht as [? ?]. exists t. set_solver.
Qed.

Lemma target_backends_targets {E} local port : forall ts bs,
  @target_backends E local port ts = Ok bs ->
  Forall2 (fun b t => exists b', b = MetadataBackend b' t /\ @getBackend E local port (mt_Addr t) = Ok b') bs ts.
Proof.
  induction ts as [|t ts IH]; intros bs; cbn [target_backends].
  { intros [= <-]. constructor. }
  destruct (getBackend local port (mt_Addr t)) as [b|e] eqn:Hb; [|done].
  destruct (target_backends local port ts) as [bs'|e]; [|done]. intros [= <-].
  constructor; [by exists b|by apply IH].
Qed.

Lemma parts_parse `{ProtoWireSpec, ProtoMarshal} bs ts (P : Backend -> MachineTarget -> Prop) :
  Forall2 (fun b t => exists b', b = MetadataBackend b' t /\ P b' t) bs ts ->
  forall os replies, Forall3 (fun t o m => machine_reply t o = Some m) ts os replies -> sizes_ok replies ->
  one2many_parts bs os = Some (map (fun m => Ok (wrap_reply m)) replies).
Proof.
  induction 1 as [|b t bs ts (b' & -> & _) _ IH]; intros os replies H3 Hs; inversion H3; subst; [done|].
  inversion Hs; subst. cbn [one2many_parts map]. erewrite IH, machine_part_wraps by done. done.
Qed.

(** Where the request for a machine goes: to the machine's own server if its address is the
    local one, otherwise to the proxy port of its IPv6 address. *)
Definition reaches (local : string) (port : Z) (b : Backend) (t : MachineTarget) : Prop :=
  if decide (local <> "" /\ mt_Addr t = local) then leads_to b = None
  else exists a, ParseAddr (mt_Addr t) = Some a /\ Is6 a = true /\ leads_to b = Some (a, port).

Lemma getBackend_reaches {E} local port t b b' : @getBackend E local port (mt_Addr t) = Ok b ->
  reaches local port (MetadataBackend b b') t.
Proof.
  unfold getBackend, reaches, NewRemoteBackend. cbn [leads_to].
  destruct (String.eqb_spec local "") as [->|Hl]; cbn [negb andb].
  - rewrite decide_False by (by intros [? _]). destruct (ParseAddr (mt_Addr t)) as [a|]; [|done].
    destruct (Is6 a) eqn:H6; [|done]. intros [= <-]. by exists a.
  - destruct (String.eqb_spec (mt_Addr t) local) as [Ha|Ha].
    + intros [= <-]. by rewrite decide_True by done.
    + rewrite decide_False by (by intros [_ ?]). destruct (ParseAddr (mt_Addr t)) as [a|]; [|done].
      destruct (Is6 a) eqn:H6; [|done]. intros [= <-]. by exists a.
Qed.


Lemma remote_metadata_marked md : exists v, remote_metadata md !! "proxy-authority" = Some v.
Proof.
  eexists. unfold remote_metadata. rewrite !lookup_delete_ne by done. apply lookup_insert_eq.
Qed.

(** No request is proxied twice. A backend that the director chooses leads to the machine's own server or to the
    proxy of another machine; to that proxy it sends metadata with which its director, whatever its address and its
    view of the cluster, gives the request to its own server. *)
Lemma proxied_requests_are_served {E} local port listing md mode bs b :
  @Direct E local port listing md = Some (Ok (mode, bs)) -> b ∈ bs ->
  exists sent, sent_metadata b md = Some sent /\
    (leads_to b = None \/
     forall local' listing', @Direct E local' port listing' (Some sent) = Some (Ok (One2One, [LocalBackend]))).
Proof.
  intros HD Hin. assert (Hb : leads_to b = None \/ is_Some md).
  { destruct md; [by right; eexists|]. left. cbn in HD. simplify_eq. by apply list_elem_of_singleton in Hin as ->. }
  clear HD Hin. induction b as [|target|b IH t]; cbn [sent_metadata leads_to] in *.
  - eexists. split; [done|by left].
  - destruct Hb as [?|[m ->]]; [done|]. eexists. split; [done|]. right. intros local' listing'.
    unfold Direct. by destruct (remote_metadata_marked m) as [v ->].
  - by apply IH.
Qed.

(** ** The wire format, to run the model *)
Module Wire.

Definition byte (v : Z) : ascii := Ascii.ascii_of_N (Z.to_N v).

(** Base 128, the lowest digits first; a digit with more after it has its top bit set.  The
    fuel is the most bytes that a 64-bit value takes. *)
Fixpoint uvarint (fuel : nat) (v : Z) : string :=
  match fuel with
  | O => ""
  | S f => if v <? 128 then String (byte v) "" else String (byte (v mod 128 + 128)) (uvarint f (v / 128))
  end.

Fixpoint read_uvarint (s : string) : Z * Z :=
  match s with
  | "" => (0, -1)
  | String c s' =>
      let b := byte_val c in
      if b <? 128 then (b, 1)
      else let (v, n) := read_uvarint s' in if n <? 0 then (0, n) else (v * 128 + (b - 128), n + 1)
  end.

#[global] Instance base128 : ProtoWire := {
  AppendVarint := fun b v => b +:+ uvarint 10 v;
  ConsumeVarint := read_uvarint
}.

Lemma read_uvarint_app fuel : forall v rest, 0 <= v < 128 * 128 ^ Z.of_nat fuel ->
  read_uvarint (uvarint (S fuel) v +:+ rest) = (v, Z.of_nat (String.length (uvarint (S fuel) v))).
Proof.
  induction fuel as [|f IH]; intros v rest Hv;
    pose proof (Z.mod_pos_bound v 128 ltac:(lia)); pose proof (Z.div_mod v 128 ltac:(lia));
    cbn [uvarint]; (destruct (Z.ltb_spec v 128);
      [cbn; unfold byte; rewrite byte_of_val by lia; by destruct (Z.ltb_spec v 128); [|lia]|]).
  - change (128 ^ Z.of_nat 0) with 1 in Hv. lia.
  - rewrite Nat2Z.inj_succ, Z.pow_succ_r in Hv by lia. cbn [String.append read_uvarint String.length]. unfold byte.
    rewrite byte_of_val by lia. destruct (Z.ltb_spec (v mod 128 + 128) 128); [lia|]. cbn [uvarint] in IH.
    rewrite IH by (split; [apply Z.div_pos; lia|apply Z.div_lt_upper_bound; [lia|exact (proj2 Hv)]]).
    match goal with |- context [Z.of_nat ?n <? 0] => destruct (Z.ltb_spec (Z.of_nat n) 0); [lia|] end. apply pair_eq. split; [|unfold byte]; lia.
Qed.

#[global] Instance base128_ok : ProtoWireSpec.
Proof.
  split.
  - done.
  - intros v. cbn [AppendVarint base128 uvarint]. by destruct (v <? 128).
  - intros v rest Hv. apply (read_uvarint_app 9). change (128 * 128 ^ Z.of_nat 9) with (2 ^ 70). lia.
Qed.

(** A string field; an empty one is left out. *)
Definition field (n : Z) (s : string) : string :=
  if String.eqb s "" then "" else uvarint 10 (8 * n + 2) +:+ (uvarint 10 (Z.of_nat (String.length s)) +:+ s).

#[global] Instance marshal : ProtoMarshal := {
  marshal_Empty m :=
    Some (field 1 (field 1 (md_MachineAddr m) +:+ (field 2 (md_Error m) +:+ (field 3 (default "" (md_Status m)) +:+
            (field 4 (md_MachineId m) +:+ field 5 (md_MachineName m))))))
}.
End Wire.

(** Two machines: the first replies, the second fails. *)
Definition a_machine (id name : string) (low : Z) : MachineInfo :=
  mkMachineInfo id name (Some (mkNetworkConfig None (Some (mkIP (be_bytes 8 (64972 * 2 ^ 48) +:+ be_bytes 8 low))) [] None)) None "" "" "" "" "" "".
Definition two_machines : list MachineInfo := [a_machine "id1" "m1" 1; a_machine "id2" "m2" 2].
Definition both : MD := {[ "machines" := ["m1"; "id2"; "id1"] ]}.


