(* ===== verification/Migrate.v ===== *)
(** * Migrate: from the old Corrosion store to the new one, [internal/machine/corromigrate]

    At the start of the daemon [MigrateIfNeeded] writes the rows of an old store to a seed
    file and moves the data directory away; [ApplySeedIfPresent] writes the rows of the
    seed to the new store.  Every system call may fail, and the machine may crash before
    it; a crash loses what was not synced, and may undo a rename or removal in a directory
    that was not synced.  The two functions are programs in a monad of state, errors and
    crashes over a script of events, and proved with triples that say what holds wherever
    a program ends.  The SQLite driver is given by its answers, and the JSON encoding of
    the seed by the class [SeedJSON]. *)

From S2P Require Import Prelude GoStrings NetAddr Proto Corrosion Store StateFile Cluster.
#[local] Open Scope string_scope.
#[local] Open Scope list_scope.

(** ** Programs that may fail or be cut off by a crash *)
Inductive fin {E A : Type} := Done (a : A) | Fail (e : E) | Panic | Crash.
Arguments fin : clear implicits.

Definition prog (S E A : Type) : Type := S -> list event -> S * list event * fin E A.

Section Prog.
Context {S E : Type}.

Definition ret {A} (a : A) : prog S E A := fun s sc => (s, sc, Done a).
Definition throw {A} (e : E) : prog S E A := fun s sc => (s, sc, Fail e).
Definition panic {A} : prog S E A := fun s sc => (s, sc, Panic).
Definition get : prog S E S := fun s sc => (s, sc, Done s).

Definition bind {A B} (p : prog S E A) (k : A -> prog S E B) : prog S E B := fun s sc =>
  match p s sc with
  | (s', sc', Done a) => k a s' sc'
  | (s', sc', Fail e) => (s', sc', Fail e)
  | (s', sc', Panic) => (s', sc', Panic)
  | (s', sc', Crash) => (s', sc', Crash)
  end.

(** A system call, and whether it succeeded; calls beyond the script succeed. *)
Definition attempt (eff bad : S -> S) : prog S E bool := fun s sc =>
  match sc with
  | [] => (eff s, [], Done true)
  | Succeeds :: sc => (eff s, sc, Done true)
  | Fails :: sc => (bad s, sc, Done false)
  | Crashes :: sc => (s, sc, Crash)
  end.

(** [{{ P }} p {{ Q | I }}]: from [P], the program ends with its answer in [Q], or it ends
    without one in [I]. *)
Definition triple {A} (P : S -> Prop) (p : prog S E A) (Q : A -> S -> Prop) (I : S -> Prop) : Prop :=
  forall s sc, P s ->
  match p s sc with
  | (s', _, Done a) => Q a s'
  | (s', _, _) => I s'
  end.

Lemma triple_ret {A} (a : A) (P : S -> Prop) (Q : A -> S -> Prop) (I : S -> Prop) :
  (forall s, P s -> Q a s) -> triple P (ret a) Q I.
Proof. intros H s sc Hs. by apply H. Qed.

Lemma triple_throw {A} e (P : S -> Prop) (Q : A -> S -> Prop) (I : S -> Prop) :
  (forall s, P s -> I s) -> triple P (throw e) Q I.
Proof. intros H s sc Hs. by apply H. Qed.

Lemma triple_panic {A} (P : S -> Prop) (Q : A -> S -> Prop) (I : S -> Prop) :
  (forall s, P s -> I s) -> triple P panic Q I.
Proof. intros H s sc Hs. by apply H. Qed.

Lemma triple_bind {A B} P (p : prog S E A) (k : A -> prog S E B) R Q I :
  triple P p R I -> (forall a, triple (R a) (k a) Q I) -> triple P (bind p k) Q I.
Proof.
  intros Hp Hk s sc Hs. specialize (Hp s sc Hs). unfold bind.
  destruct (p s sc) as [[s' sc'] [a|e| |]]; [by apply Hk|done..].
Qed.

Lemma triple_get P (I : S -> Prop) : triple P get (fun a s => P s /\ a = s) I.
Proof. by intros s sc. Qed.

Lemma triple_attempt P eff bad Q (I : S -> Prop) :
  (forall s, P s -> Q true (eff s)) -> (forall s, P s -> Q false (bad s)) -> (forall s, P s -> I s) ->
  triple P (attempt eff bad) Q I.
Proof. intros Ht Hf Hc s [|[] sc] Hs; cbn; auto. Qed.

Lemma triple_pure {A} (R : Prop) P (p : prog S E A) Q I : (R -> triple P p Q I) -> triple (fun s => R /\ P s) p Q I.
Proof. intros H s sc [HR HP]. by apply H. Qed.

Lemma triple_weaken {A} P P' (p : prog S E A) Q I : (forall s, P s -> P' s) -> triple P' p Q I -> triple P p Q I.
Proof. intros HP Hp s sc Hs. apply Hp, HP, Hs. Qed.
End Prog.

Declare Scope prog_scope.
Delimit Scope prog_scope with prog.
Notation "'do!' x ':=' p 'in' k" := (bind p (fun x => k))
  (at level 10, x pattern, p at level 100, k at level 200) : prog_scope.

(** ** The host *)

(** The answers of the driver for a database file: whether there is a
    [__corro_bookkeeping] table, and the rows of the two tables, each scanned or with a
    scan error, with the error that ended them. *)
Inductive row_answer := OneRow | NoRows | RowError (e : string).
Record table_rows := mkTableRows { t_rows : list (option (string * string)); t_err : option string }.
Record database := mkDatabase {
  bookkeeping : row_answer; cluster_rows : result string table_rows; machine_rows : result string table_rows }.

(** A data directory, with its [store.db] if it has one. *)
Record data_dir := mkDataDir { store_db : option database }.

Abbreviation entries_of_disk := (filesystem * gmap string data_dir)%type.

(** [pending]: what the disk has if the last rename or removal is lost in a crash. *)
Record host := mkHost {
  files : filesystem; dirs : gmap string data_dir; pending : option entries_of_disk;
  unit_active : bool; unit_enabled : bool }.

Definition with_files (f : filesystem -> filesystem) (h : host) : host :=
  mkHost (f (files h)) (dirs h) (pending h) (unit_active h) (unit_enabled h).
(** A change of directory entries, not yet synced. *)
Definition with_entries (f : filesystem -> filesystem) (g : gmap string data_dir -> gmap string data_dir) (h : host) : host :=
  mkHost (f (files h)) (g (dirs h)) (Some (default (files h, dirs h) (pending h))) (unit_active h) (unit_enabled h).
Definition sync_entries (h : host) : host := mkHost (files h) (dirs h) None (unit_active h) (unit_enabled h).

(** What the disk may have after a crash. *)
Definition survives (h h' : host) : Prop :=
  exists e : entries_of_disk, (e = (files h, dirs h) \/ pending h = Some e) /\
  (forall p, match fst e !! p with
             | Some f => synced f = true -> files h' !! p = Some f
             | None => files h' !! p = None
             end) /\
  dirs h' = snd e /\ pending h' = None.

(** ** The seed *)
Record Seed := mkSeed { Cluster : list (string * string); Machines : list (string * string) }.

(** [json.MarshalIndent] and [Unmarshal] of a seed; [None] is an error. *)
Class SeedJSON := { encode_seed : Seed -> option string; decode_seed : string -> option Seed }.
Class SeedJSONSpec `{SeedJSON} : Prop := {
  seed_roundtrip : forall s data, encode_seed s = Some data -> decode_seed data = Some s
}.

Inductive migrate_error :=
| StatSeed | StatDB | OpenDB | DetectVersion (e : string) | QueryCluster (e : string) | ScanCluster
| IterateCluster (e : string) | QueryMachines (e : string) | ScanMachine | IterateMachines (e : string)
| MarshalSeed | OpenTmp | WriteSeed | FsyncSeed | CloseSeed | ChownSeed | RenameSeed | OpenParent | FsyncParent
| BackupDir | ReadSeed | ParseSeed | SeedCluster (key : string) (e : store_error) | ParseMachine (id : string)
| CheckMachine (id : string) (e : store_error) | SeedMachine (id : string) (e : store_error) | DeleteSeed.

Definition seedPath (dir : string) : string := dir +:+ ".seed-v1.json".
Definition tmpPath (dir : string) : string := seedPath dir +:+ ".tmp".

(** The rows of a query, up to the first that does not scan. *)
Fixpoint scan_rows (scan_err : migrate_error) (rows : list (option (string * string))) : result migrate_error (list (string * string)) :=
  match rows with
  | [] => Ok []
  | None :: _ => Err scan_err
  | Some r :: rest => match scan_rows scan_err rest with Ok rs => Ok (r :: rs) | Err e => Err e end
  end.

Definition all_rows (scan_err : migrate_error) (iter_err : string -> migrate_error) (t : table_rows) :
  result migrate_error (list (string * string)) :=
  match scan_rows scan_err (t_rows t) with
  | Err e => Err e
  | Ok rs => match t_err t with Some e => Err (iter_err e) | None => Ok rs end
  end.

(** The rows of the old store. *)
Definition dump (db : database) : result migrate_error Seed :=
  match cluster_rows db with
  | Err e => Err (QueryCluster e)
  | Ok c =>
      match all_rows ScanCluster IterateCluster c with
      | Err e => Err e
      | Ok cluster =>
          match machine_rows db with
          | Err e => Err (QueryMachines e)
          | Ok m =>
              match all_rows ScanMachine IterateMachines m with
              | Err e => Err e
              | Ok ms => Ok (mkSeed cluster ms)
              end
          end
      end
  end.

Section Migrate.
Context {SJ : SeedJSON}.
#[local] Open Scope prog_scope.
Notation program A := (prog host migrate_error A).

Definition run_call (eff : host -> host) (e : migrate_error) : program unit :=
  do! ok := attempt eff id in if ok then ret tt else throw e.

Definition of_result {A} (r : result migrate_error A) : program A :=
  match r with Ok a => ret a | Err e => throw e end.

(** Both commands are run, and their errors ignored. *)
Definition stopLegacyUnit : program unit :=
  do! _ := attempt (fun h => mkHost (files h) (dirs h) (pending h) false (unit_enabled h)) id in
  do! _ := attempt (fun h => mkHost (files h) (dirs h) (pending h) (unit_active h) false) id in
  ret tt.

Definition isV0Store (db : database) : program bool :=
  do! _ := run_call id OpenDB in
  match bookkeeping db with
  | NoRows => ret false
  | RowError e => throw (DetectVersion e)
  | OneRow => ret true
  end.

Definition dumpOldStore (db : database) : program Seed :=
  do! _ := run_call id OpenDB in of_result (dump db).

(** Closing and removing the temporary file after a failure; the errors are ignored. *)
Definition discard (tmp : string) (e : migrate_error) : program unit :=
  do! _ := attempt (with_files (delete tmp)) id in throw e.

(** [part]: what a failing [Write] has written. *)
Definition writeSeedAtomic (path : string) (seed : Seed) (owner part : string) : program unit :=
  let tmp := path +:+ ".tmp" in
  match encode_seed seed with
  | None => throw MarshalSeed
  | Some data =>
      do! _ := run_call (with_files (write_file tmp "" false)) OpenTmp in
      do! written := attempt (with_files (write_file tmp data false)) (with_files (write_file tmp part false)) in
      if negb written then discard tmp WriteSeed else
      do! flushed := attempt (with_files (write_file tmp data true)) id in
      if negb flushed then discard tmp FsyncSeed else
      do! closed := attempt id id in
      if negb closed then discard tmp CloseSeed else
      do! owned := (if String.eqb owner "" then ret true else attempt id id) in
      if negb owned then discard tmp ChownSeed else
      do! _ := run_call (with_entries (rename tmp path) id) RenameSeed in
      do! _ := run_call id OpenParent in
      run_call sync_entries FsyncParent
  end.

(** [os.Rename] of a data directory; a directory that is there already is not replaced. *)
Definition move_dir (from to_ : string) (ds : gmap string data_dir) : gmap string data_dir :=
  match ds !! from with
  | Some d => <[to_ := d]> (delete from ds)
  | None => ds
  end.

(** [backup]: the path with the time of the backup. *)
Definition MigrateIfNeeded (dir owner backup part : string) : program unit :=
  do! _ := stopLegacyUnit in
  do! _ := run_call id StatSeed in
  do! h := get in
  match files h !! seedPath dir with
  | Some _ => ret tt
  | None =>
      do! _ := run_call id StatDB in
      match dirs h !! dir ≫= store_db with
      | None => ret tt
      | Some db =>
          do! isV0 := isV0Store db in
          if negb isV0 then ret tt else
          do! seed := dumpOldStore db in
          do! _ := writeSeedAtomic (seedPath dir) seed owner part in
          do! h := get in
          match dirs h !! backup with
          | Some _ => throw BackupDir
          | None => run_call (with_entries id (move_dir dir backup)) BackupDir
          end
      end
  end.
End Migrate.

(** ** Applying the seed *)
Section Apply.
Context {SJ : SeedJSON} {PJ : ProtoJSON} {W : Type} (corro : Corro W).
#[local] Open Scope prog_scope.
Notation program A := (prog (host * W) migrate_error A).

(** A statement of the store, which is durable in itself: a crash comes before it, or before
    the next call. *)
Definition statement {A} (op : W -> W * result store_error A) (wrap : store_error -> migrate_error) : program A :=
  fun s sc =>
    match sc with
    | Crashes :: sc => (s, sc, Crash)
    | _ =>
        let (w', r) := op (snd s) in
        match r with
        | Ok a => ((fst s, w'), tail sc, Done a)
        | Err e => ((fst s, w'), tail sc, Fail (wrap e))
        end
    end.

Fixpoint put_all (kvs : list (string * string)) : program unit :=
  match kvs with
  | [] => ret tt
  | (k, v) :: rest => do! _ := statement (Put corro k v) (SeedCluster k) in put_all rest
  end.

Definition seed_machine (e : string * string) : program unit :=
  match pj_Unmarshal (snd e) with
  | None => throw (ParseMachine (fst e))
  | Some m =>
      do! s := get in
      match GetMachine corro (mi_Id m) (snd s) with
      | None => panic
      | Some (Ok _) => ret tt
      | Some (Err (ErrMachineNotFound _)) => statement (CreateMachine corro m) (SeedMachine (mi_Id m))
      | Some (Err err) => throw (CheckMachine (mi_Id m) err)
      end
  end.

Fixpoint seed_machines (es : list (string * string)) : program unit :=
  match es with
  | [] => ret tt
  | e :: rest => do! _ := seed_machine e in seed_machines rest
  end.

Definition on_host (f : host -> host) (s : host * W) : host * W := (f (fst s), snd s).

Definition ApplySeedIfPresent (dir : string) : program unit :=
  do! s := get in
  match files (fst s) !! seedPath dir with
  | None => ret tt
  | Some f =>
      do! ok := attempt id id in
      if negb ok then throw ReadSeed else
      match decode_seed (contents f) with
      | None => throw ParseSeed
      | Some seed =>
          do! _ := put_all (Cluster seed) in
          do! _ := seed_machines (Machines seed) in
          do! ok := attempt (on_host (with_entries (delete (seedPath dir)) id)) id in
          if ok then ret tt else throw DeleteSeed
      end
  end.
End Apply.

(** ** A start of the daemon *)
Section Start.
Context {SJ : SeedJSON} {PJ : ProtoJSON} {W : Type} (corro : Corro W).
#[local] Open Scope prog_scope.

Definition on_disk {A} (p : prog host migrate_error A) : prog (host * W) migrate_error A := fun s sc =>
  let '(h, sc', r) := p (fst s) sc in ((h, snd s), sc', r).

Definition start (dir owner backup part : string) : prog (host * W) migrate_error unit :=
  do! _ := on_disk (MigrateIfNeeded dir owner backup part) in
  ApplySeedIfPresent corro dir.

(** The states that the daemon can come to: starts that end in any way, and crashes. *)
Inductive reached (dir owner : string) : host * W -> host * W -> Prop :=
| ReachedHere s : reached dir owner s s
| ReachedStart s s1 backup part sc s2 sc' r : reached dir owner s s1 -> backup <> dir ->
    start dir owner backup part s1 sc = (s2, sc', r) -> reached dir owner s s2
| ReachedCrash s s1 h : reached dir owner s s1 -> survives (fst s1) h -> reached dir owner s (h, snd s1).
End Start.

(** ** Properties *)
Section Run.
Context {SJ : SeedJSON} {SJS : SeedJSONSpec} {PJ : ProtoJSON} {W : Type} (corro : Corro W) {TB : Tables corro}.
Context (dir : string) (db : database) (seed : Seed) (data : string) (w0 : W).
Context (Hdump : dump db = Ok seed) (Henc : encode_seed seed = Some data) (Hv0 : bookkeeping db = OneRow)
  (Hkeys : NoDup (map fst (Cluster seed))).

Definition old_dir : data_dir := mkDataDir (Some db).

(** The seed file of a disk. *)
Definition no_seed (e : entries_of_disk) : Prop := fst e !! seedPath dir = None.
Definition full_seed (e : entries_of_disk) : Prop := fst e !! seedPath dir = Some (mkFile data true).
Definition in_place (e : entries_of_disk) : Prop := snd e !! dir = Some old_dir.
Definition moved (e : entries_of_disk) : Prop := snd e !! dir = None /\ exists b, snd e !! b = Some old_dir.

(** Each row in the new store is there since before, or a row of the seed ... *)
Definition only_seed (w : W) : Prop :=
  (forall k, settings w !! k = settings w0 !! k \/ exists v, (k, v) ∈ Cluster seed /\ settings w !! k = Some v) /\
  (forall id, machines w !! id = machines w0 !! id \/
     machines w0 !! id = None /\
     exists e m text, e ∈ Machines seed /\ pj_Unmarshal (snd e) = Some m /\ mi_Id m = id /\
       pj_Marshal m = Some text /\ machines w !! id = Some text).

(** ... and all rows of the seed are in it. *)
Definition has_setting (w : W) (kv : string * string) : Prop := settings w !! fst kv = Some (snd kv).
Definition has_machine (w : W) (e : string * string) : Prop :=
  exists m, pj_Unmarshal (snd e) = Some m /\ is_Some (machines w !! mi_Id m).
Definition has_seed (w : W) : Prop :=
  (forall kv, kv ∈ Cluster seed -> has_setting w kv) /\ (forall e, e ∈ Machines seed -> has_machine w e).

(** The old rows are in the old directory, in the seed or in the new store. *)
Definition disk_ok (w : W) (e : entries_of_disk) : Prop :=
  (no_seed e \/ full_seed e) /\ (in_place e \/ moved e /\ (full_seed e \/ has_seed w)).
Definition state_ok (s : host * W) : Prop :=
  only_seed (snd s) /\ disk_ok (snd s) (files (fst s), dirs (fst s)) /\
  (forall e, pending (fst s) = Some e -> disk_ok (snd s) e).

Lemma tmp_other : tmpPath dir <> seedPath dir.
Proof.
  unfold tmpPath. generalize (seedPath dir) as p. intros p H.
  assert (Hl : String.length (p +:+ ".tmp") = String.length p) by by rewrite H.
  rewrite string_app_length in Hl. cbn in Hl. lia.
Qed.

Lemma survives_ok s h : state_ok s -> survives (fst s) h -> state_ok (h, snd s).
Proof.
  intros (Hw & Hd & Hp) (e & He & Hf & Hdirs & Hpend). split; [done|]. cbn [fst snd].
  assert (Hok : disk_ok (snd s) e) by (destruct He as [->|He]; [done|by apply Hp]).
  split; [|intros e' He'; congruence]. destruct Hok as [Hs Hd']. unfold disk_ok, no_seed, full_seed, in_place, moved in *.
  cbn [fst snd]. specialize (Hf (seedPath dir)). rewrite Hdirs.
  destruct Hs as [Hs|Hs]; rewrite Hs in Hf; [|specialize (Hf eq_refl)]; rewrite ?Hf, ?Hs in *; tauto.
Qed.

(** *** The migration *)
Definition disk (h : host) : entries_of_disk := (files h, dirs h).
Definition host_ok (w : W) (h : host) : Prop := disk_ok w (disk h) /\ (forall e, pending h = Some e -> disk_ok w e).

Section MigrateSteps.
Context (w : W).
#[local] Notation triples P p Q := (triple P p Q (host_ok w)).

(** A call without effect. *)
Lemma run_call_id (P : host -> Prop) e : (forall h, P h -> host_ok w h) ->
  triples P (run_call id e) (fun _ => P).
Proof.
  intros HP. eapply triple_bind with (R := fun _ => P); [by apply triple_attempt|].
  intros []; cbv beta iota; [by apply triple_ret|by apply triple_throw].
Qed.

Lemma run_call_step (P Q : host -> Prop) eff e : (forall h, P h -> host_ok w h) -> (forall h, P h -> Q (eff h)) ->
  triples P (run_call eff e) (fun _ => Q).
Proof.
  intros HP HQ. eapply triple_bind with (R := fun (b : bool) => if b then Q else host_ok w).
  - by apply triple_attempt.
  - intros []; cbv beta iota; [by apply triple_ret|by apply triple_throw].
Qed.

Lemma stop_ok (P : host -> Prop) : (forall h, P h -> host_ok w h) ->
  (forall h a b, P h -> P (mkHost (files h) (dirs h) (pending h) a b)) -> triples P stopLegacyUnit (fun _ => P).
Proof.
  intros HP Hunit. eapply triple_bind with (R := fun _ => P); [by apply triple_attempt; auto|]. intros _.
  eapply triple_bind with (R := fun _ => P); [by apply triple_attempt; auto|]. intros _. cbv beta. by apply triple_ret.
Qed.

(** No seed yet; the temporary file does not matter. *)
Definition unseeded (h : host) : Prop := host_ok w h /\ no_seed (disk h) /\ in_place (disk h).
Definition ready (h : host) : Prop := unseeded h /\ files h !! tmpPath dir = Some (mkFile data true).
Definition seeded (h : host) : Prop := host_ok w h /\ full_seed (disk h) /\ in_place (disk h).

Lemma tmp_file_ok f h : (forall fs : filesystem, f fs !! seedPath dir = fs !! seedPath dir) -> unseeded h -> unseeded (with_files f h).
Proof.
  intros Hf ([Hd Hp] & Hn & Hi). unfold unseeded, host_ok, disk_ok, no_seed, full_seed, in_place, moved in *.
  cbn [disk with_files files dirs pending fst snd] in *. rewrite !Hf. tauto.
Qed.

Lemma write_tmp h d b : unseeded h -> unseeded (with_files (write_file (tmpPath dir) d b) h).
Proof. apply tmp_file_ok. intros fs. unfold write_file. apply lookup_insert_ne, tmp_other. Qed.

Lemma delete_tmp h : unseeded h -> unseeded (with_files (delete (tmpPath dir)) h).
Proof. apply tmp_file_ok. intros fs. apply lookup_delete_ne, tmp_other. Qed.

Lemma unseeded_ok h : unseeded h -> host_ok w h.
Proof. by intros []. Qed.

Lemma ready_ok h : ready h -> host_ok w h.
Proof. by intros [[]]. Qed.

Lemma seeded_ok h : seeded h -> host_ok w h.
Proof. by intros []. Qed.

Lemma discard_ok {Q : unit -> host -> Prop} e : triples unseeded (discard (tmpPath dir) e) Q.
Proof.
  eapply triple_bind with (R := fun _ => unseeded); [apply triple_attempt; auto using delete_tmp, unseeded_ok|].
  intros _. cbv beta. apply triple_throw, unseeded_ok.
Qed.

(** A change of entries keeps what is on the disk until it is synced. *)
Lemma entries_ok h f g : host_ok w h -> disk_ok w (disk (with_entries f g h)) -> host_ok w (with_entries f g h).
Proof.
  intros [Hd Hp] Hn. split; [done|]. intros e [= <-]. destruct (pending h) as [e|]; [by apply Hp|exact Hd].
Qed.

Lemma rename_seed h : ready h -> seeded (with_entries (rename (tmpPath dir) (seedPath dir)) id h).
Proof.
  intros [(Hok & Hn & Hi) Ht].
  assert (Hf : full_seed (disk (with_entries (rename (tmpPath dir) (seedPath dir)) id h))).
  { unfold full_seed. cbn. unfold rename. rewrite Ht. apply lookup_insert_eq. }
  split; [|done]. apply entries_ok; [done|]. split; [by right|by left].
Qed.

Lemma sync_seeded h : seeded h -> seeded (sync_entries h).
Proof. intros ([Hd Hp] & Hf & Hi). split_and!; [|done..]. by split. Qed.

Lemma move_seeded backup h : backup <> dir -> seeded h /\ dirs h !! backup = None ->
  let h' := with_entries id (move_dir dir backup) h in host_ok w h' /\ full_seed (disk h') /\ moved (disk h').
Proof.
  intros Hb ((Hok & Hf & Hi) & Hnone). cbv zeta.
  assert (Hm : moved (disk (with_entries id (move_dir dir backup) h))).
  { unfold in_place in Hi. cbn in Hi. unfold moved. cbn. unfold move_dir. rewrite Hi, lookup_insert_ne by done. rewrite lookup_delete_eq. split; [done|].
    exists backup. apply lookup_insert_eq. }
  split_and!; [|done..]. apply entries_ok; [done|]. split; [by right|]. right. split; [done|by left].
Qed.

(** Writing the seed: as before until the rename, complete from then on. *)
Lemma writeSeed_ok owner part : triples unseeded (writeSeedAtomic (seedPath dir) seed owner part) (fun _ => seeded).
Proof.
  unfold writeSeedAtomic. rewrite Henc. fold (tmpPath dir).
  eapply triple_bind; [apply (run_call_step unseeded unseeded); auto using unseeded_ok, write_tmp|]. intros []; cbv beta.
  eapply triple_bind with (R := fun _ => unseeded); [apply triple_attempt; auto using unseeded_ok, write_tmp|].
  intros []; cbv beta iota; [|apply discard_ok].
  eapply triple_bind with (R := fun (b : bool) => if b then ready else unseeded).
  { apply triple_attempt; auto using unseeded_ok. intros h Hh. split; [by apply write_tmp|]. apply lookup_insert_eq. }
  intros []; cbv beta iota; [|apply discard_ok].
  eapply triple_bind with (R := fun _ => ready); [apply triple_attempt; auto using ready_ok|].
  intros []; cbv beta iota; [|eapply triple_weaken; [|apply discard_ok]; by intros h []].
  eapply triple_bind with (R := fun _ => ready).
  { destruct (String.eqb owner ""); [by apply triple_ret|apply triple_attempt; auto using ready_ok]. }
  intros []; cbv beta iota; [|eapply triple_weaken; [|apply discard_ok]; by intros h []].
  eapply triple_bind; [apply (run_call_step ready seeded); auto using ready_ok, rename_seed|]. intros []; cbv beta.
  eapply triple_bind; [apply run_call_id, seeded_ok|]. intros []; cbv beta.
  apply run_call_step; auto using seeded_ok, sync_seeded.
Qed.

(** The whole migration. [fresh]: there was no seed file when it began. *)
Lemma Migrate_ok (fresh : Prop) owner backup part : backup <> dir ->
  triples (fun h => host_ok w h /\ (fresh -> no_seed (disk h))) (MigrateIfNeeded dir owner backup part)
    (fun _ h => host_ok w h /\ (full_seed (disk h) \/ has_seed w) /\ (fresh -> moved (disk h))).
Proof.
  intros Hb. unfold MigrateIfNeeded. set (P := fun h => host_ok w h /\ (fresh -> no_seed (disk h))).
  assert (HP : forall h, P h -> host_ok w h) by by intros h [].
  eapply triple_bind; [apply (stop_ok P); auto|]. intros []; cbv beta.
  eapply triple_bind; [by apply (run_call_id P)|]. intros []; cbv beta.
  eapply triple_bind; [apply triple_get|]. intros h0.
  destruct (files h0 !! seedPath dir) as [f|] eqn:Hs.
  { apply triple_ret. intros h [[Hok Hfr] <-].
    assert (Hno : ~ no_seed (disk h0)) by (unfold no_seed; cbn; congruence).
    pose proof Hok as [[[Hn|Hf] _] _]; [done|]. split_and!; [done|by left|]. intros Hx. by destruct (Hno (Hfr Hx)). }
  set (P1 := fun h : host => host_ok w h /\ h = h0).
  eapply triple_weaken with (P' := P1); [by intros h [[Hok _] ->]|].
  eapply triple_bind; [apply (run_call_id P1); by intros h []|]. intros []; cbv beta.
  destruct (dirs h0 !! dir ≫= store_db) as [db'|] eqn:Hdb.
  2:{ apply triple_ret. intros h [Hok ->]. pose proof Hok as [[Hseed Hplace] _].
      unfold in_place, full_seed in *. cbn in Hplace, Hdb. destruct Hplace as [Hi|[Hm [Hf|Hw]]].
      - rewrite Hi in Hdb. done.
      - cbn in Hf. congruence.
      - split_and!; [done|by right|done]. }
  intros h sc [Hok ->]. pose proof Hok as [[Hseed Hplace] _].
  assert (Hi : in_place (disk h0)).
  { destruct Hplace as [|[[Hm _] _]]; [done|]. cbn in Hm. by rewrite Hm in Hdb. }
  assert (db' = db) as ->. { unfold in_place in Hi. cbn in Hi. rewrite Hi in Hdb. cbn in Hdb. congruence. }
  assert (Hun : unseeded h0) by done. revert sc Hun. generalize h0 as h. clear h0 Hs Hdb P1 Hok Hseed Hplace Hi. intros h sc Hun.
  revert h sc Hun. change (triples unseeded
    (bind (isV0Store db) (fun isV0 => if negb isV0 then ret tt else
       bind (dumpOldStore db) (fun seed => bind (writeSeedAtomic (seedPath dir) seed owner part) (fun _ =>
         bind get (fun h => match dirs h !! backup with
           | Some _ => throw BackupDir
           | None => run_call (with_entries id (move_dir dir backup)) BackupDir end)))))
    (fun _ h => host_ok w h /\ (full_seed (disk h) \/ has_seed w) /\ (fresh -> moved (disk h)))).
  unfold isV0Store, dumpOldStore. rewrite Hv0, Hdump.
  eapply triple_bind with (R := fun b h => b = true /\ unseeded h).
  { eapply triple_bind; [apply (run_call_id unseeded), unseeded_ok|]. intros []; cbv beta.
    by apply triple_ret. }
  intros b. destruct b; [|by intros h sc [? _]]. cbn [negb]. eapply triple_weaken; [by intros h [_ H]; exact H|].
  eapply triple_bind with (R := fun s h => s = seed /\ unseeded h).
  { eapply triple_bind; [apply (run_call_id unseeded), unseeded_ok|]. intros []; cbv beta.
    by apply triple_ret. }
  intros s. apply triple_pure. intros ->.
  eapply triple_bind; [apply writeSeed_ok|]. intros []; cbv beta.
  eapply triple_bind; [apply triple_get|]. intros h1. destruct (dirs h1 !! backup) eqn:Hbk.
  { apply triple_throw. by intros h [[] _]. }
  eapply triple_weaken with (P' := fun h => seeded h /\ dirs h !! backup = None); [by intros h [? ->]|].
  apply run_call_step; [by intros h [[] _]|]. intros h Hh. destruct (move_seeded backup h Hb Hh) as (? & ? & ?). auto.
Qed.
End MigrateSteps.

(** *** The new store *)
Lemma state_ok_mono h w w' : only_seed w' -> (has_seed w -> has_seed w') -> state_ok (h, w) -> state_ok (h, w').
Proof.
  intros Ho Hs (_ & Hd & Hp). unfold state_ok, disk_ok in *. cbn [fst snd] in *. split_and!; [done|tauto|tauto|].
  intros e He. specialize (Hp e He). tauto.
Qed.

Lemma cluster_unique k v v' : (k, v) ∈ Cluster seed -> (k, v') ∈ Cluster seed -> v = v'.
Proof.
  revert Hkeys. induction (Cluster seed) as [|[k0 v0] l IH]; cbn; [set_solver|].
  intros [Hn Hd]%NoDup_cons H1 H2. rewrite list_elem_of_In in Hn.
  assert (Hno : forall x, (k0, x) ∈ l -> False).
  { intros x Hx. apply Hn. change k0 with (fst (k0, x)). apply in_map. by apply list_elem_of_In. }
  apply elem_of_cons in H1 as [H1|H1]; apply elem_of_cons in H2 as [H2|H2]; simplify_eq; try done.
  - by destruct (Hno v').
  - by destruct (Hno v).
  - by apply IH.
Qed.

Lemma put_step k v w w' r : (k, v) ∈ Cluster seed -> only_seed w -> Put corro k v w = (w', r) ->
  only_seed w' /\ machines w' = machines w /\
  (forall kv, kv ∈ Cluster seed -> has_setting w kv -> has_setting w' kv) /\
  (is_ok r = true -> has_setting w' (k, v)).
Proof.
  intros Hin [Hs Hm] Hput. destruct (Put_setting corro _ _ _ _ _ Hput) as [Hmach [Hset|[Hset Hr]]].
  - unfold only_seed, has_setting. rewrite Hmach, Hset. cbn [fst snd]. split_and!; [| done|done| |by rewrite lookup_insert_eq].
    + intros k'. destruct (decide (k' = k)) as [->|Hk].
      * right. exists v. split; [done|]. apply lookup_insert_eq.
      * rewrite lookup_insert_ne by done. apply Hs.
    + intros [k' v'] Hin'. cbn [fst snd]. destruct (decide (k' = k)) as [->|Hk].
      * intros _. rewrite lookup_insert_eq. f_equal. by apply (cluster_unique k).
      * by rewrite lookup_insert_ne.
  - unfold only_seed, has_setting. rewrite Hmach, Hset. split_and!; try done. by rewrite Hr.
Qed.

Lemma create_step e m w w' r : e ∈ Machines seed -> pj_Unmarshal (snd e) = Some m -> only_seed w ->
  CreateMachine corro m w = (w', r) ->
  only_seed w' /\ settings w' = settings w /\ machines w ⊆ machines w' /\
  (is_ok r = true -> is_Some (machines w' !! mi_Id m)).
Proof.
  intros Hin Hm [Hs Hms] Hc.
  destruct (CreateMachine_record corro _ _ _ _ Hc) as [Hset [(text & Htext & Hnone & Hins)|[Hmach Hr]]].
  - unfold only_seed. rewrite Hset, Hins. split_and!; [done| |done|by apply insert_subseteq|by rewrite lookup_insert_eq].
    intros id. destruct (decide (id = mi_Id m)) as [->|Hid].
    + right. destruct (Hms (mi_Id m)) as [H0|(H0 & _)]; (split; [congruence|]);
        exists e, m, text; by rewrite lookup_insert_eq.
    + rewrite lookup_insert_ne by done. apply Hms.
  - unfold only_seed. rewrite Hset, Hmach. split_and!; try done. by rewrite Hr.
Qed.

Section ApplySteps.
Context (ds : gmap string data_dir).
#[local] Notation triples P p Q := (triple P p Q state_ok).

Definition applying (P : W -> Prop) (s : host * W) : Prop :=
  state_ok s /\ full_seed (disk (fst s)) /\ dirs (fst s) = ds /\ P (snd s).

(** A statement that keeps what the store has of the seed. *)
Lemma statement_ok {A} (op : W -> W * result store_error A) wrap (P Q : W -> Prop) :
  (forall w w' r, only_seed w -> P w -> op w = (w', r) ->
     only_seed w' /\ (has_seed w -> has_seed w') /\ (is_ok r = true -> Q w')) ->
  triples (applying P) (statement op wrap) (fun _ => applying Q).
Proof.
  intros Hop [h w] sc (Hok & Hf & Hd & HP). unfold statement. cbn [fst snd] in *.
  destruct (op w) as [w' r] eqn:Hr. pose proof Hok as [Ho _].
  destruct (Hop w w' r Ho HP Hr) as (Ho' & Hs & HQ).
  pose proof (state_ok_mono h w w' Ho' Hs Hok) as Hok'.
  destruct sc as [|[] sc]; [..|done]; destruct r; try done; (split_and!; [done..|by apply HQ]).
Qed.

Lemma put_all_ok kvs : forall before, before ++ kvs = Cluster seed ->
  triples (applying (fun w => forall kv, kv ∈ before -> has_setting w kv)) (put_all corro kvs)
    (fun _ => applying (fun w => forall kv, kv ∈ Cluster seed -> has_setting w kv)).
Proof.
  induction kvs as [|[k v] kvs IH]; intros before Heq; cbn [put_all].
  { apply triple_ret. rewrite app_nil_r in Heq. by rewrite Heq. }
  assert (Hin : (k, v) ∈ Cluster seed) by (rewrite <- Heq; set_solver).
  eapply triple_bind.
  - apply (statement_ok _ _ _ (fun w => forall kv, kv ∈ before ++ [(k, v)] -> has_setting w kv)).
    intros w w' r Ho HP Hput. destruct (put_step k v w w' r Hin Ho Hput) as (Ho' & Hm & Hkeep & Hnew).
    split_and!; [done| |].
    + intros [Hc Hms]. split; [by auto|]. unfold has_machine. rewrite Hm. exact Hms.
    + intros Hr kv [Hkv|Hkv]%elem_of_app.
      * apply Hkeep; [rewrite <- Heq; set_solver|by apply HP].
      * apply list_elem_of_singleton in Hkv as ->. by apply Hnew.
  - intros []; cbv beta. apply IH. by rewrite <- app_assoc.
Qed.

(** All settings, and the machines so far. *)
Definition seeded_to (before : list (string * string)) (w : W) : Prop :=
  (forall kv, kv ∈ Cluster seed -> has_setting w kv) /\ (forall e, e ∈ before -> has_machine w e).

Lemma has_machine_mono w w' e : machines w ⊆ machines w' -> has_machine w e -> has_machine w' e.
Proof.
  intros Hsub (m & Hm & [t Ht]). exists m. split; [done|]. exists t. by apply (lookup_weaken _ _ _ _ Ht).
Qed.

Lemma seed_machine_ok before e : e ∈ Machines seed ->
  triples (applying (seeded_to before)) (seed_machine corro e) (fun _ => applying (seeded_to (before ++ [e]))).
Proof.
  intros Hin. unfold seed_machine. destruct (pj_Unmarshal (snd e)) as [m|] eqn:Hm; [|by apply triple_throw; intros s []].
  eapply triple_bind; [apply triple_get|]. intros s0; cbv beta.
  assert (Hadd : forall w, is_Some (machines w !! mi_Id m) -> seeded_to before w -> seeded_to (before ++ [e]) w).
  { intros w Hx [Hc Hms]. split; [done|]. intros e' [He|He]%elem_of_app; [by apply Hms|].
    apply list_elem_of_singleton in He as ->. by exists m. }
  destruct (GetMachine corro (mi_Id m) (snd s0)) as [r|] eqn:Hget; [|by apply triple_panic; intros s [[] _]].
  assert (Hid : mi_Id m = "" -> r = Err EmptyMachineID).
  { intros Hid. unfold GetMachine in Hget. rewrite Hid in Hget. cbn in Hget. congruence. }
  destruct r as [m'|err].
  - apply triple_ret. intros s [(Hok & Hf & Hd & HP) ->]. unfold applying. split_and!; try done. apply Hadd; [|done].
    destruct (GetMachine_record corro _ _ _ ltac:(by intros ?%Hid) Hget) as (text & Ht & _). by exists text.
  - destruct err; try (apply triple_throw; by intros s [[] _]).
    eapply triple_weaken with (P' := applying (seeded_to before)); [by intros s []|].
    apply statement_ok. intros w w' r Ho HP Hc.
    destruct (create_step e m w w' r Hin Hm Ho Hc) as (Ho' & Hset & Hsub & Hnew). split_and!; [done| |].
    + intros [Hcl Hms]. split; [unfold has_setting; rewrite Hset; exact Hcl|].
      intros e' He'. by apply (has_machine_mono w), Hms.
    + intros Hr. apply Hadd; [by apply Hnew|]. destruct HP as [Hcl Hms].
      split; [unfold has_setting; rewrite Hset; exact Hcl|]. intros e' He'. by apply (has_machine_mono w), Hms.
Qed.

Lemma seed_machines_ok es : forall before, before ++ es = Machines seed ->
  triples (applying (seeded_to before)) (seed_machines corro es) (fun _ => applying has_seed).
Proof.
  induction es as [|e es IH]; intros before Heq; cbn [seed_machines].
  { apply triple_ret. rewrite app_nil_r in Heq. by rewrite Heq. }
  eapply triple_bind; [apply seed_machine_ok; rewrite <- Heq; set_solver|].
  intros []; cbv beta. apply IH. by rewrite <- app_assoc.
Qed.

(** What holds when the seed has been applied. *)
Definition applied (s : host * W) : Prop :=
  state_ok s /\ no_seed (disk (fst s)) /\ dirs (fst s) = ds /\ has_seed (snd s).

Lemma remove_seed s : applying has_seed s -> applied (on_host (with_entries (delete (seedPath dir)) id) s).
Proof.
  destruct s as [h w]. intros ((Ho & Hd & Hp) & Hf & Hds & Hs). unfold applied, no_seed, on_host. cbn [fst snd disk with_entries files dirs].
  assert (Hdel : delete (seedPath dir) (files h) !! seedPath dir = None) by apply lookup_delete_eq.
  split_and!; [|done..]. unfold state_ok. cbn [fst snd files dirs pending with_entries] in *. split_and!; [done| |].
  - destruct Hd as [_ Hplace]. split; [by left|].
    unfold in_place, moved in *. cbn [snd] in *. destruct Hplace as [|[? _]]; [by left|right; split; [done|by right]].
  - intros e [= <-]. destruct (pending h) as [e|] eqn:He; [by apply Hp|exact Hd].
Qed.

Lemma Apply_ok :
  triples (fun s => state_ok s /\ dirs (fst s) = ds /\ (full_seed (disk (fst s)) \/ has_seed (snd s)))
    (ApplySeedIfPresent corro dir) (fun _ => applied).
Proof.
  unfold ApplySeedIfPresent. eapply triple_bind; [apply triple_get|]. intros s0; cbv beta.
  destruct (files (fst s0) !! seedPath dir) as [f|] eqn:Hseed.
  2:{ apply triple_ret. intros s [(Hok & Hds & Hs) ->]. unfold applied. split_and!; try done.
      unfold full_seed in Hs. cbn in Hs. destruct Hs; [congruence|done]. }
  eapply triple_weaken with (P' := fun s => f = mkFile data true /\ applying (fun _ => True) s).
  { intros s [(Hok & Hds & _) ->]. pose proof Hok as (_ & [[Hn|Hf] _] & _).
    - unfold no_seed in Hn. cbn in Hn. congruence.
    - unfold full_seed in Hf. cbn in Hf. split; [congruence|done]. }
  apply triple_pure. intros ->.
  assert (Hok : forall P s, applying P s -> state_ok s) by by intros P s [].
  eapply triple_bind with (R := fun _ => applying (fun _ => True)); [by apply triple_attempt; eauto|].
  intros []; cbv beta iota; cbn [negb contents]; [|apply triple_throw; eauto].
  rewrite (seed_roundtrip _ _ Henc).
  eapply triple_bind.
  { eapply triple_weaken; [|apply (put_all_ok _ []); done]. intros s (? & ? & ? & _). unfold applying. split_and!; try done.
    intros kv Hkv. by apply elem_of_nil in Hkv. }
  intros []; cbv beta. eapply triple_bind.
  { eapply triple_weaken; [|apply (seed_machines_ok _ []); done]. intros s (? & ? & ? & HP). unfold applying, seeded_to.
    split_and!; try done. intros e He. by apply elem_of_nil in He. }
  intros []; cbv beta.
  eapply triple_bind with (R := fun (b : bool) s => if b then applied s else state_ok s).
  { apply triple_attempt; eauto. apply remove_seed. }
  intros []; cbv beta iota; [by apply triple_ret|by apply triple_throw].
Qed.
End ApplySteps.

(** *** A start *)
Lemma start_ok (fresh : Prop) owner backup part : backup <> dir ->
  triple (fun s => state_ok s /\ (fresh -> no_seed (disk (fst s)))) (start corro dir owner backup part)
    (fun _ s => state_ok s /\ no_seed (disk (fst s)) /\ has_seed (snd s) /\ (fresh -> moved (disk (fst s)))) state_ok.
Proof.
  intros Hb. unfold start.
  eapply triple_bind with (R := fun _ s => state_ok s /\ (full_seed (disk (fst s)) \/ has_seed (snd s)) /\ (fresh -> moved (disk (fst s)))).
  { intros [h w] sc [(Ho & Hd & Hp) Hfr]. unfold on_disk. cbn [fst snd] in *.
    pose proof (Migrate_ok w fresh owner backup part Hb h sc (conj (conj Hd Hp) Hfr)) as Hm.
    destruct (MigrateIfNeeded dir owner backup part h sc) as [[h' sc'] [a|e| |]]; cbn [fst snd] in *;
      [destruct Hm as ([Hd' Hp'] & Hs & Hmv)|destruct Hm as [Hd' Hp']..]; unfold state_ok; split_and!; done. }
  intros []; cbv beta. intros [h w] sc (Hok & Hs & Hmv).
  pose proof (Apply_ok (dirs h) (h, w) sc (conj Hok (conj eq_refl Hs))) as Ha.
  destruct (ApplySeedIfPresent corro dir (h, w) sc) as [[[h' w'] sc'] [a|e| |]]; try done.
  destruct Ha as (Hok' & Hn & Hds & Hseed). split_and!; try done. intros Hf. specialize (Hmv Hf).
  unfold moved in *. cbn [disk fst snd] in *. by rewrite Hds.
Qed.

Lemma reached_ok owner s s' : reached corro dir owner s s' -> state_ok s -> state_ok s'.
Proof.
  induction 1 as [|s s1 backup part sc s2 sc' r _ IH Hb Hstart|s s1 h _ IH Hsv]; intros Hs.
  - done.
  - pose proof (start_ok False owner backup part Hb s1 sc (conj (IH Hs) (False_ind _))) as Ht.
    rewrite Hstart in Ht. destruct r; [by destruct Ht|done..].
  - by apply survives_ok; [apply IH|].
Qed.

Lemma initial_ok h : files h !! seedPath dir = None -> dirs h !! dir = Some old_dir -> pending h = None -> state_ok (h, w0).
Proof.
  intros Hf Hd Hp. unfold state_ok. cbn [fst snd]. split_and!.
  - split; intros; by left.
  - split; by left.
  - intros e He. congruence.
Qed.
End Run.

(** C11: The migration loses nothing, and can be cut off anywhere.  Take a host with an old
    store whose rows can be read.  However often the daemon starts, whichever system calls
    fail, wherever it stops or the machine crashes: the old data directory is still there
    with its rows, in place or as a backup; the new store has no rows but those it had and
    those of the old store; a seed file is never a part of the rows.  And the first start
    that comes to its end leaves all the rows in the new store and no seed; it has moved
    the old directory away unless it found a seed. *)
Theorem migration_loses_nothing `{SeedJSONSpec} `{ProtoJSON} {W : Type} (corro : Corro W) `{!Tables corro}
  dir owner db seed data h0 w0 h w
  (Hdump : dump db = Ok seed) (Henc : encode_seed seed = Some data) (Hv0 : bookkeeping db = OneRow)
  (Hkeys : NoDup (map fst (Cluster seed)))
  (Hseed : files h0 !! seedPath dir = None) (Hdir : dirs h0 !! dir = Some (old_dir db)) (Hpend : pending h0 = None)
  (Hreach : reached corro dir owner (h0, w0) (h, w)) :
  (in_place dir db (disk h) \/ moved dir db (disk h)) /\
  only_seed corro seed w0 w /\
  (no_seed dir (disk h) \/ full_seed dir data (disk h)) /\
  forall backup part sc h' w' sc', backup <> dir ->
    start corro dir owner backup part (h, w) sc = ((h', w'), sc', Done tt) ->
    only_seed corro seed w0 w' /\ has_seed corro seed w' /\ no_seed dir (disk h') /\
    (in_place dir db (disk h') \/ moved dir db (disk h')) /\
    (no_seed dir (disk h) -> moved dir db (disk h')).
Proof.
  pose proof (reached_ok corro dir db seed data w0 Hdump Henc Hv0 Hkeys owner _ _ Hreach
    (initial_ok corro dir db seed data w0 h0 Hseed Hdir Hpend)) as Hok.
  assert (Hplace : forall s, state_ok corro dir db seed data w0 s ->
    in_place dir db (disk (fst s)) \/ moved dir db (disk (fst s))).
  { intros s (_ & [_ [Hi|[Hm _]]] & _); [by left|by right]. }
  pose proof Hok as (Ho & [Hs _] & _). split_and!; [by apply (Hplace (h, w))|done|done|].
  intros backup part sc h' w' sc' Hb Hst.
  pose proof (start_ok corro dir db seed data w0 Hdump Henc Hv0 Hkeys (no_seed dir (disk h)) owner backup part Hb (h, w) sc
    (conj Hok (fun x => x))) as Ht.
  rewrite Hst in Ht. destruct Ht as (Hok' & Hn & Hs' & Hmv). pose proof Hok' as (Ho' & _).
  split_and!; [done|done|done|by apply (Hplace (h', w'))|done].
Qed.

(** ** A run that is cut off *)
Module Runs.
Import Cluster.Memory.
#[local] Existing Instance memory_tables.

Definition a_machine : MachineInfo :=
  mkMachineInfo "id1" "m1" (Some (mkNetworkConfig None None [Some (NewIPPort (Addr4 167772161) 51820)] (Some key_a))) None "" "" "" "" "" "".
#[local] Instance machine_text : ProtoJSON := {|
  pj_Marshal m := if decide (m = a_machine) then Some "{m1}" else None;
  pj_Unmarshal t := if String.eqb t "{m1}" then Some a_machine else None
|}.
Definition rows : Seed := mkSeed [("network", "10.210.0.0/16")] [("id1", "{m1}")].

(** A name for the text of these rows. *)
#[local] Instance rows_text : SeedJSON := {|
  encode_seed s := if decide (Cluster s = Cluster rows /\ Machines s = Machines rows) then Some "rows" else None;
  decode_seed d := if String.eqb d "rows" then Some rows else None
|}.

#[local] Instance rows_text_ok : SeedJSONSpec.
Proof. split. intros [c m] d. cbn -[rows]. case_decide as Hd; [|done]. destruct Hd as [-> ->]. by intros [= <-]. Qed.

Definition old_store : database :=
  mkDatabase OneRow (Ok (mkTableRows (map Some (Cluster rows)) None)) (Ok (mkTableRows (map Some (Machines rows)) None)).

Definition data_path : string := "/var/lib/uncloud/corrosion".
Definition backup_path : string := data_path +:+ ".backup-20260101.000000".
Definition host0 : host := mkHost ∅ {[data_path := old_dir old_store]} None true true.
Definition store0 : World := mkWorld ∅ ∅.

(** The crash comes when the seed is written, before the directory is moved. *)
Definition cut_off : list event := repeat Succeeds 13 ++ [Crashes].
Definition run (s : host * World) (sc : list event) : host * World :=
  fst (fst (start memory data_path "" backup_path "" s sc)).
Definition after_cut : host * World := run (host0, store0) cut_off.
Definition restarted : host * World := run after_cut [].

(** The next start finds the seed and returns at once: the old directory is never moved
    away, and the new Corrosion starts on the old store. *)
Example interrupted_backup_is_not_resumed :
  snd (start memory data_path "" backup_path "" after_cut []) = Done tt /\
  dirs (fst restarted) !! data_path = Some (old_dir old_store) /\ dirs (fst restarted) !! backup_path = None /\
  files (fst restarted) !! seedPath data_path = None.
Proof. split_and!; vm_compute; reflexivity. Qed.

Lemma cut_reached : reached memory data_path "" (host0, store0) after_cut.
Proof.
  assert (H : exists sc r, start memory data_path "" backup_path "" (host0, store0) cut_off = (after_cut, sc, r)).
  { eexists _, _. vm_compute. reflexivity. }
  destruct H as (sc & r & H).
  eapply ReachedStart; [apply ReachedHere| |exact H]. discriminate.
Qed.

Lemma survives_self h : pending h = None -> survives h h.
Proof.
  intros Hp. exists (files h, dirs h). split_and!; [by left| |done..].
  intros p. cbn [fst]. by destruct (files h !! p).
Qed.

Lemma reached_crash s s1 : reached memory data_path "" s s1 -> pending (fst s1) = None -> reached memory data_path "" s s1.
Proof. intros Hr Hp. destruct s1 as [h w]. by apply (ReachedCrash memory data_path "" s (h, w) h), survives_self. Qed.

Lemma cut_crashed : reached memory data_path "" (host0, store0) after_cut.
Proof. apply reached_crash; [apply cut_reached|]. vm_compute. reflexivity. Qed.

Lemma restart_done : exists sc, start memory data_path "" backup_path "" after_cut [] = (restarted, sc, Done tt).
Proof. eexists. vm_compute. reflexivity. Qed.

Lemma cut_crashed_pair : reached memory data_path "" (host0, store0) (fst after_cut, snd after_cut).
Proof. rewrite <- surjective_pairing. apply cut_crashed. Qed.
Lemma restart_pair : exists sc, start memory data_path "" backup_path "" (fst after_cut, snd after_cut) [] =
  ((fst restarted, snd restarted), sc, Done tt).
Proof. rewrite <- !surjective_pairing. apply restart_done. Qed.
End Runs.

#[local] Existing Instance Runs.machine_text.
#[local] Existing Instance Runs.rows_text.
#[local] Existing Instance Runs.rows_text_ok.
#[local] Existing Instance Memory.memory_tables.

Lemma migration_loses_nothing_witness :
  settings (snd Runs.restarted) !! "network" = Some "10.210.0.0/16" /\
  is_Some (machines (snd Runs.restarted) !! "id1") /\ in_place Runs.data_path Runs.old_store (disk (fst Runs.restarted)).
Proof.
  assert (Hdump : dump Runs.old_store = Ok Runs.rows) by (vm_compute; reflexivity).
  assert (Henc : encode_seed Runs.rows = Some "rows") by (vm_compute; reflexivity).
  assert (Hkeys : NoDup (map fst (Cluster Runs.rows))) by (repeat constructor; set_solver).
  assert (Hseed : files Runs.host0 !! seedPath Runs.data_path = None) by (vm_compute; reflexivity).
  assert (Hdir : dirs Runs.host0 !! Runs.data_path = Some (old_dir Runs.old_store)) by (vm_compute; reflexivity).
  destruct Runs.restart_pair as (sc & Hrun).
  destruct (migration_loses_nothing Memory.memory Runs.data_path "" Runs.old_store Runs.rows "rows" Runs.host0 Runs.store0
    (fst Runs.after_cut) (snd Runs.after_cut) Hdump Henc eq_refl Hkeys Hseed Hdir eq_refl Runs.cut_crashed_pair) as (_ & _ & _ & Hstart).
  destruct (Hstart Runs.backup_path "" [] (fst Runs.restarted) (snd Runs.restarted) sc ltac:(discriminate) Hrun)
    as (_ & [Hset Hmach] & _).
  split; [|split].
  - exact (Hset ("network", "10.210.0.0/16") ltac:(left)).
  - destruct (Hmach ("id1", "{m1}") ltac:(left)) as (m & Hm & Hs). vm_compute in Hm. injection Hm as <-. exact Hs.
  - vm_compute. reflexivity.
Defined.
