(* ===== verification/LeaseStore.v ===== *)
(** * LeaseStore: node-local leases, [pkg/distlock/store.go], [memory.go] and [grpc/server.go]

    [Module Abstract] is what a node promises about its leases: a map from resources
    to unexpired leases.  [Class LeaseStore] is the [distlock.Store] interface with the
    promise that every operation acts on the unexpired leases like the abstract one;
    the locker is verified against it.  [Module MemoryStore] is the implementation, a
    Go map whose expired entries are removed lazily, and [memory_LeaseStore] the proof
    that it keeps the promise.  [Module LeaseServer] is the gRPC adapter in front of a
    store.  Instants and durations are integers (nanoseconds); a token is a byte
    string. *)

From S2P Require Import Prelude.
#[local] Open Scope Z_scope.

(** A lease: the owner's token and the instant (of the node's clock) it expires at. *)
Record lease := mkLease { token : string; expiresAt : Z }.

#[global] Instance lease_eq_dec : EqDecision lease.
Proof. solve_decision. Defined.

(** [ctx.Err()] of a context that is done. *)
Inductive ctx_err := Canceled | DeadlineExceeded.

#[global] Instance ctx_err_eq_dec : EqDecision ctx_err.
Proof. solve_decision. Defined.

(** What an operation observes of its context: at validation, before the store is
    locked, and again once it is. *)
Record ctx_obs := mkCtx { at_entry : option ctx_err; under_lock : option ctx_err }.

Definition background : ctx_obs := mkCtx None None.

Inductive store_error := ECtx (e : ctx_err) | EResourceEmpty | ETokenEmpty | ETTLNotPositive.

Module Abstract.
(** The unexpired leases of a node. *)
Abbreviation leases := (gmap string lease).

Definition acquire (m : leases) (r tok : string) (until : Z) : leases * bool :=
  match m !! r with
  | Some _ => (m, false)
  | None => (<[r := mkLease tok until]> m, true)
  end.

Definition renew (m : leases) (r tok : string) (until : Z) : leases * bool :=
  match m !! r with
  | Some l => if decide (token l = tok) then (<[r := mkLease tok until]> m, true)
              else (m, false)
  | None => (m, false)
  end.

Definition release (m : leases) (r tok : string) : leases * bool :=
  match m !! r with
  | Some l => if decide (token l = tok) then (delete r m, true) else (m, false)
  | None => (m, false)
  end.
End Abstract.

(** ** Input validation, [validateStoreInput] and [validateStoreResourceToken] *)
Definition validateStoreResourceToken (ctx : option ctx_err) (resource tok : string) :
  option store_error :=
  match ctx with
  | Some e => Some (ECtx e)
  | None => if String.eqb resource "" then Some EResourceEmpty
            else if String.eqb tok "" then Some ETokenEmpty
            else None
  end.

Definition validateStoreInput (ctx : option ctx_err) (resource tok : string) (ttl : Z) :
  option store_error :=
  match validateStoreResourceToken ctx resource tok with
  | Some e => Some e
  | None => if ttl <=? 0 then Some ETTLNotPositive else None
  end.

(** The precondition of the operations: no error from validation, and the context
    still not done once the lock is held. *)
Definition proceeds (ctx : ctx_obs) (resource tok : string) (ttl : Z) : bool :=
  match validateStoreInput (at_entry ctx) resource tok ttl, under_lock ctx with
  | None, None => true
  | _, _ => false
  end.

(** ** The [distlock.Store] interface *)
Class LeaseStore (S : Type) := {
  store_acquire : S -> ctx_obs -> Z -> string -> string -> Z -> S * result store_error bool;
  store_renew : S -> ctx_obs -> Z -> string -> string -> Z -> S * result store_error bool;
  store_release : S -> ctx_obs -> Z -> string -> string -> S * result store_error bool;
  (** The leases that are unexpired at an instant. *)
  live : Z -> S -> Abstract.leases
}.

Definition live_spec {S} `{LeaseStore S} : Prop :=
  forall now now' s r, now <= now' ->
    live now' s !! r =
    match live now s !! r with
    | Some l => if now' <? expiresAt l then Some l else None
    | None => None
    end.

(** An operation either fails and leaves the leases alone, or returns what the
    abstract operation returns and transforms the unexpired leases as it does. *)
Definition refines {S} `{LeaseStore S} (now : Z) (s : S) (out : S * result store_error bool)
  (abs : Abstract.leases * bool) : Prop :=
  match snd out with
  | Ok b => live now (fst out) = fst abs /\ b = snd abs
  | Err _ => fst out = s
  end.

Class LeaseStoreSpec (S : Type) `{LeaseStore S} : Prop := {
  store_live : live_spec;
  store_acquire_spec : forall s ctx now r tok ttl,
    refines now s (store_acquire s ctx now r tok ttl)
      (Abstract.acquire (live now s) r tok (now + ttl)) /\
    (is_ok (snd (store_acquire s ctx now r tok ttl)) = true -> 0 < ttl);
  store_renew_spec : forall s ctx now r tok ttl,
    refines now s (store_renew s ctx now r tok ttl)
      (Abstract.renew (live now s) r tok (now + ttl)) /\
    (is_ok (snd (store_renew s ctx now r tok ttl)) = true -> 0 < ttl);
  store_release_spec : forall s ctx now r tok,
    refines now s (store_release s ctx now r tok)
      (Abstract.release (live now s) r tok);
  (** A valid request whose context is not done is not refused with an error. *)
  store_accepts : forall s now r tok ttl, r <> "" -> tok <> "" -> 0 < ttl ->
    is_ok (snd (store_acquire s background now r tok ttl)) = true
}.

(** ** The in-memory store *)
Module MemoryStore.
Record t := mk { leases : gmap string lease }.

Definition NewMemoryStore : t := mk ∅.

(** [now.Before(lease.expiresAt)] *)
Definition unexpired (now : Z) (l : lease) : bool := now <? expiresAt l.

Definition Acquire (s : t) (ctx : ctx_obs) (now : Z) (resource tok : string) (ttl : Z) :
  t * result store_error bool :=
  match validateStoreInput (at_entry ctx) resource tok ttl with
  | Some e => (s, Err e)
  | None =>
      match under_lock ctx with
      | Some e => (s, Err (ECtx e))
      | None =>
          match leases s !! resource with
          | Some l =>
              if unexpired now l then (s, Ok false)
              else (mk (<[resource := mkLease tok (now + ttl)]> (leases s)), Ok true)
          | None => (mk (<[resource := mkLease tok (now + ttl)]> (leases s)), Ok true)
          end
      end
  end.

Definition Renew (s : t) (ctx : ctx_obs) (now : Z) (resource tok : string) (ttl : Z) :
  t * result store_error bool :=
  match validateStoreInput (at_entry ctx) resource tok ttl with
  | Some e => (s, Err e)
  | None =>
      match under_lock ctx with
      | Some e => (s, Err (ECtx e))
      | None =>
          match leases s !! resource with
          | None => (s, Ok false)
          | Some l =>
              if negb (unexpired now l) then (mk (delete resource (leases s)), Ok false)
              else if negb (String.eqb (token l) tok) then (s, Ok false)
              else (mk (<[resource := mkLease (token l) (now + ttl)]> (leases s)), Ok true)
          end
      end
  end.

Definition Release (s : t) (ctx : ctx_obs) (now : Z) (resource tok : string) :
  t * result store_error bool :=
  match validateStoreResourceToken (at_entry ctx) resource tok with
  | Some e => (s, Err e)
  | None =>
      match under_lock ctx with
      | Some e => (s, Err (ECtx e))
      | None =>
          match leases s !! resource with
          | None => (s, Ok false)
          | Some l =>
              if negb (unexpired now l) then (mk (delete resource (leases s)), Ok false)
              else if negb (String.eqb (token l) tok) then (s, Ok false)
              else (mk (delete resource (leases s)), Ok true)
          end
      end
  end.

(** The abstraction function. *)
Definition live_at (now : Z) (s : t) : Abstract.leases :=
  filter (fun kv => unexpired now kv.2 = true) (leases s).

Lemma live_at_lookup now s r :
  live_at now s !! r =
  match leases s !! r with
  | Some l => if unexpired now l then Some l else None
  | None => None
  end.
Proof.
  unfold live_at. destruct (leases s !! r) as [l|] eqn:Hl.
  - destruct (unexpired now l) eqn:Hu.
    + by apply map_lookup_filter_Some.
    + apply map_lookup_filter_None. right. intros l' Hl'. simplify_eq/=. by rewrite Hu.
  - apply map_lookup_filter_None. by left.
Qed.

(** An update at [r] of the concrete map is an update at [r] of the live leases. *)
Lemma live_insert now s r l : unexpired now l = true ->
  live_at now (mk (<[r := l]> (leases s))) = <[r := l]> (live_at now s).
Proof.
  intros Hu. apply map_eq. intros r'. rewrite live_at_lookup. simpl.
  destruct (decide (r = r')) as [->|Hne]; simplify_map_eq; [by rewrite Hu|].
  by rewrite live_at_lookup.
Qed.

Lemma live_delete now s r :
  live_at now (mk (delete r (leases s))) = delete r (live_at now s).
Proof.
  apply map_eq. intros r'. rewrite live_at_lookup. simpl.
  destruct (decide (r = r')) as [->|Hne]; simplify_map_eq; [done|].
  by rewrite live_at_lookup.
Qed.

(** Removing an expired entry is invisible. *)
Lemma live_delete_expired now s r l :
  leases s !! r = Some l -> unexpired now l = false ->
  live_at now (mk (delete r (leases s))) = live_at now s.
Proof.
  intros Hl Hu. rewrite live_delete. apply delete_id. by rewrite live_at_lookup, Hl, Hu.
Qed.

Lemma ttl_positive ctx r tok ttl : validateStoreInput ctx r tok ttl = None -> 0 < ttl.
Proof.
  unfold validateStoreInput. destruct (validateStoreResourceToken ctx r tok); [done|].
  destruct (Z.leb_spec ttl 0); [done|lia].
Qed.
End MemoryStore.

#[export] Instance memory_LeaseStore : LeaseStore MemoryStore.t := {|
  store_acquire := MemoryStore.Acquire;
  store_renew := MemoryStore.Renew;
  store_release := MemoryStore.Release;
  live := MemoryStore.live_at
|}.

Section Refinement.
Import MemoryStore.

Lemma memory_live : live_spec (S := MemoryStore.t).
Proof.
  intros now now' s r Hle. simpl. rewrite !live_at_lookup.
  destruct (leases s !! r) as [l|]; [|done]. unfold unexpired.
  destruct (Z.ltb_spec now (expiresAt l)); [done|].
  destruct (Z.ltb_spec now' (expiresAt l)); [lia|done].
Qed.

Lemma memory_acquire s ctx now r tok ttl :
  refines now s (Acquire s ctx now r tok ttl)
    (Abstract.acquire (live_at now s) r tok (now + ttl)).
Proof.
  unfold refines, Acquire, Abstract.acquire. rewrite live_at_lookup.
  destruct (validateStoreInput _ _ _ _) eqn:Hv; [done|]. apply ttl_positive in Hv.
  assert (Hu : unexpired now (mkLease tok (now + ttl)) = true)
    by (unfold unexpired; simpl; apply Z.ltb_lt; lia).
  destruct (under_lock ctx); [done|].
  destruct (leases s !! r) as [l|] eqn:Hl; [destruct (unexpired now l)|]; simpl;
    auto using live_insert.
Qed.

Lemma memory_renew s ctx now r tok ttl :
  refines now s (Renew s ctx now r tok ttl)
    (Abstract.renew (live_at now s) r tok (now + ttl)).
Proof.
  unfold refines, Renew, Abstract.renew. rewrite live_at_lookup.
  destruct (validateStoreInput _ _ _ _) eqn:Hv; [done|]. apply ttl_positive in Hv.
  destruct (under_lock ctx); [done|].
  destruct (leases s !! r) as [l|] eqn:Hl; [|done].
  destruct (unexpired now l) eqn:Hlu; simpl; [|by rewrite (live_delete_expired _ _ _ l)].
  destruct (String.eqb_spec (token l) tok) as [<-|Hne]; simpl.
  - rewrite decide_True by done. split; [|done]. apply live_insert.
    unfold unexpired. simpl. apply Z.ltb_lt. lia.
  - by rewrite decide_False.
Qed.

Lemma memory_release s ctx now r tok :
  refines now s (Release s ctx now r tok) (Abstract.release (live_at now s) r tok).
Proof.
  unfold refines, Release, Abstract.release. rewrite live_at_lookup.
  destruct (validateStoreResourceToken _ _ _); [done|]. destruct (under_lock ctx); [done|].
  destruct (leases s !! r) as [l|] eqn:Hl; [|done].
  destruct (unexpired now l) eqn:Hlu; simpl; [|by rewrite (live_delete_expired _ _ _ l)].
  destruct (String.eqb_spec (token l) tok) as [<-|Hne]; simpl.
  - rewrite decide_True by done. split; [|done]. apply live_delete.
  - by rewrite decide_False.
Qed.

Lemma ok_ttl_acquire s ctx now r tok ttl :
  is_ok (snd (Acquire s ctx now r tok ttl)) = true -> 0 < ttl.
Proof.
  unfold Acquire. destruct (validateStoreInput _ _ _ _) eqn:Hv; [done|]. intros _. by eapply ttl_positive.
Qed.

Lemma ok_ttl_renew s ctx now r tok ttl :
  is_ok (snd (Renew s ctx now r tok ttl)) = true -> 0 < ttl.
Proof.
  unfold Renew. destruct (validateStoreInput _ _ _ _) eqn:Hv; [done|]. intros _. by eapply ttl_positive.
Qed.

Lemma memory_accepts s now r tok ttl : r <> "" -> tok <> "" -> 0 < ttl ->
  is_ok (snd (Acquire s background now r tok ttl)) = true.
Proof.
  intros Hr Ht Hd. unfold Acquire, validateStoreInput, validateStoreResourceToken. simpl.
  rewrite (proj2 (String.eqb_neq r "") Hr), (proj2 (String.eqb_neq tok "") Ht).
  destruct (Z.leb_spec ttl 0); [lia|]. by repeat case_match.
Qed.

#[export] Instance memory_LeaseStoreSpec : LeaseStoreSpec MemoryStore.t.
Proof.
  split; intros.
  - apply memory_live.
  - split; [apply memory_acquire|apply ok_ttl_acquire].
  - split; [apply memory_renew|apply ok_ttl_renew].
  - apply memory_release.
  - by apply memory_accepts.
Qed.
End Refinement.

(** ** The gRPC adapter, [grpc/server.go] *)
Module LeaseServer.
Section LeaseServer.
Context {S : Type} `{LeaseStore S}.

Inductive code := InvalidArgument | Internal | FromContext (e : ctx_err).

(** A [durationpb.Duration] of the request: absent, not representable (what
  [CheckValid] reports) or a duration. *)
Inductive ttl_field := TtlNil | TtlInvalid | Ttl (d : Z).

Definition validateResourceToken (resource tok : string) : bool :=
negb (String.eqb resource "") && negb (String.eqb tok "").

Definition validateLeaseRequest (resource tok : string) (ttl : ttl_field) : option Z :=
if validateResourceToken resource tok then
  match ttl with
  | Ttl d => if d <=? 0 then None else Some d
  | _ => None
  end
else None.

(** [ctx_after] is the context's error when the store has returned. *)
Definition storeStatusError (ctx_after : option ctx_err) : code :=
match ctx_after with Some e => FromContext e | None => Internal end.

Definition respond (ctx_after : option ctx_err) (out : S * result store_error bool) :
S * result code bool :=
match out with
| (s, Ok b) => (s, Ok b)
| (s, Err _) => (s, Err (storeStatusError ctx_after))
end.

Definition Acquire (s : S) (ctx : ctx_obs) (ctx_after : option ctx_err) (now : Z)
(resource tok : string) (ttl : ttl_field) : S * result code bool :=
match validateLeaseRequest resource tok ttl with
| None => (s, Err InvalidArgument)
| Some d => respond ctx_after (store_acquire s ctx now resource tok d)
end.

Definition Renew (s : S) (ctx : ctx_obs) (ctx_after : option ctx_err) (now : Z)
(resource tok : string) (ttl : ttl_field) : S * result code bool :=
match validateLeaseRequest resource tok ttl with
| None => (s, Err InvalidArgument)
| Some d => respond ctx_after (store_renew s ctx now resource tok d)
end.

Definition Release (s : S) (ctx : ctx_obs) (ctx_after : option ctx_err) (now : Z)
(resource tok : string) : S * result code bool :=
if validateResourceToken resource tok
then respond ctx_after (store_release s ctx now resource tok)
else (s, Err InvalidArgument).
End LeaseServer.
End LeaseServer.

(** ** Properties *)

(** C17: the in-memory store implements the abstract lease table: whatever its context,
    [Acquire], [Renew] and [Release] either return an error and change nothing, or return
    the abstract operation's result and change the unexpired leases exactly as it does
    (so a lease whose expiry has been reached counts as absent, only the owner's token
    renews or releases, and other resources are untouched); leases only leave the table by
    expiring as time passes. *)
Theorem memory_store_refines :
  live_spec (S := MemoryStore.t) /\
  forall (s : MemoryStore.t) ctx now r tok ttl,
    refines now s (MemoryStore.Acquire s ctx now r tok ttl)
      (Abstract.acquire (live now s) r tok (now + ttl)) /\
    refines now s (MemoryStore.Renew s ctx now r tok ttl)
      (Abstract.renew (live now s) r tok (now + ttl)) /\
    refines now s (MemoryStore.Release s ctx now r tok)
      (Abstract.release (live now s) r tok).
Proof.
  split; [apply memory_live|]. intros.
  auto using memory_acquire, memory_renew, memory_release.
Qed.

(** The errors of the store are exactly those of its input: with an undisturbed
    context an operation fails if and only if the resource or the token is empty or, for
    [Acquire] and [Renew], the time to live is not positive; a request the gRPC adapter
    accepts never makes the store fail for its arguments. *)
Lemma store_errors_from_input (s : MemoryStore.t) (now : Z) (r tok : string) (ttl : Z) :
  (is_ok (snd (MemoryStore.Acquire s background now r tok ttl)) = true <->
     r <> "" /\ tok <> "" /\ 0 < ttl) /\
  (is_ok (snd (MemoryStore.Renew s background now r tok ttl)) = true <->
     r <> "" /\ tok <> "" /\ 0 < ttl) /\
  (is_ok (snd (MemoryStore.Release s background now r tok)) = true <-> r <> "" /\ tok <> "") /\
  (forall after, LeaseServer.validateLeaseRequest r tok (LeaseServer.Ttl ttl) = Some ttl <->
     is_ok (snd (LeaseServer.Acquire s background after now r tok (LeaseServer.Ttl ttl))) = true).
Proof.
  unfold LeaseServer.Acquire, LeaseServer.validateLeaseRequest, LeaseServer.validateResourceToken,
    MemoryStore.Acquire, MemoryStore.Renew, MemoryStore.Release,
    validateStoreInput, validateStoreResourceToken. simpl.
  destruct (String.eqb_spec r "") as [->|Hr]; simpl; [naive_solver|].
  destruct (String.eqb_spec tok "") as [->|Ht]; simpl; [naive_solver|].
  unfold MemoryStore.Acquire, validateStoreInput, validateStoreResourceToken. simpl.
  destruct (Z.leb_spec ttl 0); simpl;
    [|rewrite ?(proj2 (String.eqb_neq r "") Hr), ?(proj2 (String.eqb_neq tok "") Ht)];
    simpl; repeat case_match; simpl in *; try lia; naive_solver lia.
Qed.
