(* ===== verification/Locker.v ===== *)
(** * Locker: quorum leases over independent nodes, [pkg/distlock/locker.go]

    The first part is the sequential code: the configuration checks of [New], the
    validity window, the quorum and the loops that collect the nodes' answers. The
    second part is the protocol as a step relation: clients that acquire, renew and
    release leases, calls that are executed by the nodes' stores at any later moment or
    lost, replies that arrive late, and clocks that run at different rates. The nodes
    are any [LeaseStore]; the main theorem is mutual exclusion. *)

From S2P Require Import Prelude LeaseStore.
From stdpp Require Import functions.
From Stdlib Require Import QArith Qround Lqa.
#[local] Open Scope Z_scope.

(** ** Configuration *)
Section Config.
(** [backoff.BackOff] policies come from a library and only time the retries. *)
Context {BackOff : Type} (defaultBackOff : BackOff).

Record Config := mkConfig {
  LeaseDuration : Z;
  ClockDriftFactor : Q;
  NodeCallTimeout : Z;
  NewBackOff : option BackOff
}.

Definition second : Z := 1000000000.
Definition DefaultLeaseDuration : Z := 10 * second.
Definition DefaultClockDriftFactor : Q := 1 # 100.
Definition DefaultMaxNodeCallTimeout : Z := 5 * second.

(** [math.Ceil(float64(c.LeaseDuration) * c.ClockDriftFactor)], with an exact factor and an
    exact product: for a duration of seconds the rounding of float64
    can move the result by one nanosecond, and unbounded integers stand for the durations. *)
Definition clockDrift (c : Config) : Z :=
  Qceiling (inject_Z (LeaseDuration c) * ClockDriftFactor c).

Inductive new_error :=
| ClusterNil | LeaseDurationNotPositive | DriftFactorOutOfRange | TimeoutNotPositive.

Definition with_lease_default (c : Config) : Config :=
  if LeaseDuration c =? 0
  then mkConfig DefaultLeaseDuration (ClockDriftFactor c) (NodeCallTimeout c) (NewBackOff c)
  else c.

Definition with_drift_default (c : Config) : Config :=
  if Qeq_bool (ClockDriftFactor c) 0
  then mkConfig (LeaseDuration c) DefaultClockDriftFactor (NodeCallTimeout c) (NewBackOff c)
  else c.

Definition with_timeout_default (c : Config) : Config :=
  if NodeCallTimeout c =? 0
  then mkConfig (LeaseDuration c) (ClockDriftFactor c)
         (Z.min DefaultMaxNodeCallTimeout (Z.quot (LeaseDuration c) 3)) (NewBackOff c)
  else c.

Definition with_backoff_default (c : Config) : Config :=
  match NewBackOff c with
  | None => mkConfig (LeaseDuration c) (ClockDriftFactor c) (NodeCallTimeout c) (Some defaultBackOff)
  | Some _ => c
  end.

Definition New {Cluster} (cluster : option Cluster) (c : Config) : result new_error (Config * Cluster) :=
  match cluster with
  | None => Err ClusterNil
  | Some cl =>
      let c := with_lease_default c in
      if LeaseDuration c <? 0 then Err LeaseDurationNotPositive
      else
        let c := with_drift_default c in
        if Qle_bool (ClockDriftFactor c) 0 || Qle_bool 1 (ClockDriftFactor c)
        then Err DriftFactorOutOfRange
        else
          let c := with_timeout_default c in
          if NodeCallTimeout c <? 0 then Err TimeoutNotPositive
          else Ok (with_backoff_default c, cl)
  end.

(** [startedAt.Add(c.LeaseDuration - c.clockDrift())] *)
Definition validUntil (c : Config) (startedAt : Z) : Z :=
  startedAt + (LeaseDuration c - clockDrift c).

(** A configuration [New] returns. *)
Definition config_ok (c : Config) : Prop :=
  0 < LeaseDuration c /\ (0 < ClockDriftFactor c)%Q /\ (ClockDriftFactor c < 1)%Q.

Lemma drift_ge (c : Config) :
  (inject_Z (LeaseDuration c) * ClockDriftFactor c <= inject_Z (clockDrift c))%Q.
Proof. apply Qle_ceiling. Qed.

Lemma drift_bounds (c : Config) : config_ok c -> 0 < clockDrift c <= LeaseDuration c.
Proof.
  intros (HD & Hf0 & Hf1). assert (HDq : (0 < inject_Z (LeaseDuration c))%Q).
  { change 0%Q with (inject_Z 0). by rewrite <- Zlt_Qlt. }
  split.
  - pose proof (drift_ge c) as Hd.
    assert (Hpos : (0 < inject_Z (clockDrift c))%Q).
    { eapply Qlt_le_trans; [|exact Hd]. by apply Qmult_lt_0_compat. }
    change 0%Q with (inject_Z 0) in Hpos. by rewrite <- Zlt_Qlt in Hpos.
  - unfold clockDrift. rewrite <- (Qceiling_Z (LeaseDuration c)) at 2.
    apply Qceiling_resp_le. rewrite <- (Qmult_1_r (inject_Z (LeaseDuration c))) at 2.
    apply Qmult_le_l; [done|]. by apply Qlt_le_weak.
Qed.

Lemma New_config {Cluster} (cl : option Cluster) c c' k : New cl c = Ok (c', k) ->
  config_ok c' /\ 0 <= NodeCallTimeout c' /\ (NodeCallTimeout c' = 0 -> LeaseDuration c' < 3) /\
  is_Some (NewBackOff c').
Proof.
  unfold New. destruct cl as [cl|]; [|done].
  destruct (LeaseDuration (with_lease_default c) <? 0) eqn:HD; [done|]. apply Z.ltb_ge in HD.
  set (c1 := with_lease_default c) in *.
  assert (HD1 : 0 < LeaseDuration c1).
  { subst c1. unfold with_lease_default in *. destruct (Z.eqb_spec (LeaseDuration c) 0); [done|lia]. }
  assert (Hd2 : LeaseDuration (with_drift_default c1) = LeaseDuration c1)
    by (unfold with_drift_default; by destruct (Qeq_bool _ _)).
  set (c2 := with_drift_default c1) in *.
  destruct (Qle_bool (ClockDriftFactor c2) 0) eqn:H0; [done|].
  destruct (Qle_bool 1 (ClockDriftFactor c2)) eqn:H1; [done|]. cbn [orb].
  assert (Hf : (0 < ClockDriftFactor c2)%Q /\ (ClockDriftFactor c2 < 1)%Q).
  { split; apply Qnot_le_lt; intros Hq; apply Qle_bool_iff in Hq; congruence. }
  destruct (NodeCallTimeout (with_timeout_default c2) <? 0) eqn:HT; [done|]. apply Z.ltb_ge in HT.
  intros [= <- <-]. set (c3 := with_timeout_default c2) in *.
  assert (H3 : LeaseDuration c3 = LeaseDuration c2 /\ ClockDriftFactor c3 = ClockDriftFactor c2 /\
               (NodeCallTimeout c3 = 0 -> LeaseDuration c3 < 3)).
  { subst c3. unfold with_timeout_default. destruct (Z.eqb_spec (NodeCallTimeout c2) 0); [|done].
    cbn [LeaseDuration ClockDriftFactor NodeCallTimeout]. split_and!; [done..|].
    rewrite Hd2, Z.quot_div_nonneg by lia. unfold DefaultMaxNodeCallTimeout, second.
    intros Hz. assert (LeaseDuration c1 / 3 = 0) by lia. apply Z.div_small_iff in H; lia. }
  destruct H3 as (Ha & Hb & Hc).
  unfold with_backoff_default, config_ok.
  destruct (NewBackOff c3) eqn:E; cbn [LeaseDuration ClockDriftFactor NodeCallTimeout NewBackOff];
    rewrite Ha, ?Hb, Hd2 in *; split_and!; try done; try lia; try apply Hf; rewrite ?E; eauto.
Qed.

Lemma New_error {Cluster} (cl : option Cluster) c e : New cl c = Err e ->
  match e with
  | ClusterNil => cl = None
  | LeaseDurationNotPositive => LeaseDuration c < 0
  | DriftFactorOutOfRange => (ClockDriftFactor c < 0)%Q \/ (1 <= ClockDriftFactor c)%Q
  | TimeoutNotPositive => NodeCallTimeout c < 0
  end.
Proof.
  unfold New. destruct cl as [cl|]; [|by intros [= <-]].
  set (c1 := with_lease_default c). set (c2 := with_drift_default c1).
  assert (H1 : ClockDriftFactor c1 = ClockDriftFactor c /\ NodeCallTimeout c1 = NodeCallTimeout c /\
               (LeaseDuration c1 < 0 -> LeaseDuration c < 0)).
  { subst c1. unfold with_lease_default. destruct (Z.eqb_spec (LeaseDuration c) 0); [|done].
    simpl. unfold DefaultLeaseDuration, second. split_and!; [done..|lia]. }
  destruct H1 as (Hf1 & Ht1 & Hl1).
  destruct (Z.ltb_spec (LeaseDuration c1) 0) as [|Hpos]; [intros [= <-]; auto|].
  destruct (_ || _) eqn:Hor.
  - intros [= <-]. rewrite <- Hf1. subst c2. unfold with_drift_default in Hor.
    destruct (Qeq_bool (ClockDriftFactor c1) 0) eqn:Hz; [done|].
    apply orb_true_iff in Hor as [Hq%Qle_bool_iff|Hq%Qle_bool_iff]; [left|by right].
    apply Qle_lteq in Hq as [|Hq]; [done|]. apply Qeq_bool_iff in Hq. congruence.
  - destruct (Z.ltb_spec (NodeCallTimeout (with_timeout_default c2)) 0) as [Ht|]; [|done].
    intros [= <-]. revert Ht. subst c2. unfold with_timeout_default.
    assert (H2 : NodeCallTimeout (with_drift_default c1) = NodeCallTimeout c1 /\
                 LeaseDuration (with_drift_default c1) = LeaseDuration c1)
      by (unfold with_drift_default; by destruct (Qeq_bool _ _)).
    destruct H2 as [Ht2 Hl2]. rewrite Ht2, Ht1.
    destruct (Z.eqb_spec (NodeCallTimeout c) 0); simpl.
    + rewrite Hl2. pose proof (Z.quot_pos (LeaseDuration c1) 3).
      unfold DefaultMaxNodeCallTimeout, second. lia.
    + by rewrite Ht2, Ht1.
Qed.
End Config.

(** ** Collecting the answers of the nodes *)
Section Collect.
Context {E : Type}.

Record nodeResult := mkResult { success : bool; err : option E }.

(** A result counts only when it has no error. *)
Definition counts (r : nodeResult) : bool :=
  match err r with Some _ => false | None => success r end.

Fixpoint collect_loop (results : list nodeResult) (successes : nat) (errs : list E) :
  nat * list E :=
  match results with
  | [] => (successes, errs)
  | r :: rest =>
      match err r with
      | Some e => collect_loop rest successes (errs ++ [e])
      | None => collect_loop rest (if success r then S successes else successes) errs
      end
  end.

Definition collectNodeResults (results : list nodeResult) : nat * list E :=
  collect_loop results 0 [].

(** The reports [Lease.acquire]'s goroutine sends on [resultCh], in order. *)
Fixpoint acquire_loop (quorum : nat) (results : list nodeResult) (successes : nat)
  (errs : list E) (reported : bool) : list (result (nat * list E) unit) :=
  match results with
  | [] => if reported then [] else [Err (successes, errs)]
  | r :: rest =>
      let '(successes', errs') :=
        match err r with
        | Some e => (successes, errs ++ [e])
        | None => ((if success r then S successes else successes), errs)
        end in
      if negb reported && Nat.leb quorum successes'
      then Ok tt :: acquire_loop quorum rest successes' errs' true
      else acquire_loop quorum rest successes' errs' reported
  end.

Definition acquire_reports (quorum : nat) (results : list nodeResult) :=
  acquire_loop quorum results 0 [] false.

Lemma collect_loop_spec results n errs :
  collect_loop results n errs =
  ((n + length (List.filter counts results))%nat, errs ++ omap err results).
Proof.
  revert n errs; induction results as [|r results IH]; intros n errs; simpl.
  - by rewrite Nat.add_0_r, app_nil_r.
  - rewrite (eq_refl : counts r = match err r with Some _ => false | None => success r end).
    destruct (err r) as [e|] eqn:He; rewrite IH; simpl.
    + f_equal. by rewrite <- app_assoc.
    + destruct (success r); simpl; f_equal; lia.
Qed.

Lemma acquire_loop_reported quorum results n errs :
  acquire_loop quorum results n errs true = [].
Proof.
  revert n errs; induction results as [|r results IH]; intros n errs; simpl; [done|].
  destruct (err r); simpl; apply IH.
Qed.

Lemma acquire_loop_spec quorum results n errs :
  (n < quorum)%nat ->
  acquire_loop quorum results n errs false =
  let total := (n + length (List.filter counts results))%nat in
  if Nat.leb quorum total then [Ok tt] else [Err (total, errs ++ omap err results)].
Proof.
  revert n errs; induction results as [|r results IH]; intros n errs Hn; simpl.
  - rewrite Nat.add_0_r, app_nil_r. by destruct (Nat.leb_spec quorum n); [lia|].
  - rewrite !(eq_refl : counts r = match err r with Some _ => false | None => success r end).
    destruct (err r) as [e|] eqn:He; simpl.
    + destruct (Nat.leb_spec quorum n); [lia|]. rewrite IH by done. simpl.
      by rewrite <- app_assoc.
    + destruct (success r); simpl.
      * destruct (Nat.leb_spec quorum (S n)).
        -- rewrite acquire_loop_reported. destruct (Nat.leb_spec quorum (n + S (length (List.filter counts results)))); [done|lia].
        -- rewrite IH by done. simpl. by rewrite <- Nat.add_succ_comm.
      * destruct (Nat.leb_spec quorum n); [lia|]. by rewrite IH.
Qed.
End Collect.
Arguments nodeResult : clear implicits.

(** [len(nodes)/2 + 1] *)
Definition quorum (n : nat) : nat := (n / 2 + 1)%nat.

Lemma quorum_majority n : (n < 2 * quorum n)%nat.
Proof. unfold quorum. pose proof (Nat.div_mod_eq n 2). pose proof (Nat.mod_upper_bound n 2). lia. Qed.

(** Two quorums of the same nodes have a common node. *)
Lemma quorum_intersect (nodes : gset nat) (Q1 Q2 : gset nat) :
  Q1 ⊆ nodes -> Q2 ⊆ nodes ->
  (quorum (size nodes) <= size Q1)%nat -> (quorum (size nodes) <= size Q2)%nat ->
  exists i, i ∈ Q1 /\ i ∈ Q2.
Proof.
  intros H1 H2 Hs1 Hs2. destruct (decide (Q1 ∩ Q2 = ∅)) as [He|Hne].
  - exfalso. assert (size (Q1 ∪ Q2) = size Q1 + size Q2)%nat by (apply size_union; set_solver).
    assert (size (Q1 ∪ Q2) <= size nodes)%nat by (apply subseteq_size; set_solver).
    pose proof (quorum_majority (size nodes)). lia.
  - apply set_choose_L in Hne as [i Hi]. exists i. set_solver.
Qed.

(** ** The protocol

    [now] is real time; node [i]'s clock and the clock of the client of lease [l] show
    [nclock i now] and [cclock l now].  A client reads its clock once per attempt
    ([startedAt]); the state keeps the instant it did so.

    A call to a node is executed by the node's store at some instant after the attempt
    started ([step_node_acquire], [step_node_renew]), possibly after the client gave up
    on it ([step_late_acquire], [step_late_renew]), or never; a reply that the client
    receives ([step_reply_*]) belongs to the attempt it waits for, since every attempt
    has its own result channel.  A lease is cancelled at any moment ([step_cancel]: the
    caller's release, a failed or expired acquisition, a lost lease), and only then are
    [Release] calls sent. *)
Section Protocol.
Context {S : Type} `{LeaseStoreSpec S} {BackOff : Type}.
Variable conf : @Config BackOff.
Variable nodes : gset nat.
Variables nclock cclock : nat -> Z -> Z.

Inductive phase :=
| Acquiring (started : Z) (pending granted received : gset nat)
| Held (started : Z)
| Renewing (held_from started : Z) (pending granted received : gset nat)
| Cancelled.

Record Lease := mkL { resource : string; ltoken : string; lphase : phase }.

Record state := mkState { now : Z; stores : nat -> S; leases : gmap nat Lease }.

Definition set_phase (st : state) (l : nat) (le : Lease) (p : phase) : state :=
  mkState (now st) (stores st) (<[l := mkL (resource le) (ltoken le) p]> (leases st)).

Definition set_store (st : state) (i : nat) (s : S) : state :=
  mkState (now st) (<[i := s]> (stores st)) (leases st).

(** The store operations as node [i] executes them now for lease [le]. *)
Definition call_acquire (st : state) (i : nat) (ctx : ctx_obs) (le : Lease) :=
  store_acquire (stores st i) ctx (nclock i (now st)) (resource le) (ltoken le) (LeaseDuration conf).
Definition call_renew (st : state) (i : nat) (ctx : ctx_obs) (le : Lease) :=
  store_renew (stores st i) ctx (nclock i (now st)) (resource le) (ltoken le) (LeaseDuration conf).
Definition call_release (st : state) (i : nat) (ctx : ctx_obs) (le : Lease) :=
  store_release (stores st i) ctx (nclock i (now st)) (resource le) (ltoken le).

Definition grants (r : result store_error bool) : bool :=
  match r with Ok b => b | Err _ => false end.

(** [time.Now().Before(validUntil)] on the client of lease [l]. *)
Definition before_deadline (st : state) (l : nat) (started : Z) : bool :=
  cclock l (now st) <? validUntil conf (cclock l started).

Inductive step (st : state) : state -> Prop :=
| step_tick t : now st <= t -> step st (mkState t (stores st) (leases st))
| step_start l res tok :
    leases st !! l = None -> res <> "" ->
    (forall l' le', leases st !! l' = Some le' -> ltoken le' <> tok) ->
    step st (mkState (now st) (stores st)
               (<[l := mkL res tok (Acquiring (now st) nodes ∅ ∅)]> (leases st)))
| step_node_acquire l le s p g r i ctx st' out :
    leases st !! l = Some le -> lphase le = Acquiring s p g r -> i ∈ p ->
    call_acquire st i ctx le = (st', out) ->
    step st (set_phase (set_store st i st') l le
               (Acquiring s (p ∖ {[i]}) (if grants out then {[i]} ∪ g else g) r))
| step_late_acquire l le i ctx :
    leases st !! l = Some le ->
    step st (set_store st i (fst (call_acquire st i ctx le)))
| step_reply_acquire l le s p g r i :
    leases st !! l = Some le -> lphase le = Acquiring s p g r -> i ∈ g ->
    step st (set_phase st l le (Acquiring s p g ({[i]} ∪ r)))
| step_acquired l le s p g r :
    leases st !! l = Some le -> lphase le = Acquiring s p g r ->
    (quorum (size nodes) <= size r)%nat -> before_deadline st l s = true ->
    step st (set_phase st l le (Held s))
| step_renew l le s :
    leases st !! l = Some le -> lphase le = Held s ->
    step st (set_phase st l le (Renewing s (now st) nodes ∅ ∅))
| step_renew_retry l le s s' p g r :
    leases st !! l = Some le -> lphase le = Renewing s s' p g r ->
    step st (set_phase st l le (Renewing s (now st) nodes ∅ ∅))
| step_node_renew l le s s' p g r i ctx st' out :
    leases st !! l = Some le -> lphase le = Renewing s s' p g r -> i ∈ p ->
    call_renew st i ctx le = (st', out) ->
    step st (set_phase (set_store st i st') l le
               (Renewing s s' (p ∖ {[i]}) (if grants out then {[i]} ∪ g else g) r))
| step_late_renew l le i ctx :
    leases st !! l = Some le ->
    step st (set_store st i (fst (call_renew st i ctx le)))
| step_reply_renew l le s s' p g r i :
    leases st !! l = Some le -> lphase le = Renewing s s' p g r -> i ∈ g ->
    step st (set_phase st l le (Renewing s s' p g ({[i]} ∪ r)))
| step_renewed l le s s' p g r :
    leases st !! l = Some le -> lphase le = Renewing s s' p g r ->
    (quorum (size nodes) <= size r)%nat -> before_deadline st l s = true ->
    step st (set_phase st l le (Held s'))
| step_cancel l le :
    leases st !! l = Some le -> step st (set_phase st l le Cancelled)
| step_node_release l le i ctx :
    leases st !! l = Some le -> lphase le = Cancelled ->
    step st (set_store st i (fst (call_release st i ctx le))).

(** No lease has been requested yet; the stores may hold anything. *)
Definition initial (st : state) : Prop := leases st = ∅.

Inductive reachable : state -> Prop :=
| reach_init st : initial st -> reachable st
| reach_step st st' : reachable st -> step st st' -> reachable st'.

(** The client of lease [l] holds it: it was acquired, is not cancelled, and its
    validity has not ended on the client's clock. *)
Definition holds (st : state) (l : nat) (le : Lease) : Prop :=
  leases st !! l = Some le /\
  match lphase le with
  | Held s | Renewing s _ _ _ _ => before_deadline st l s = true
  | _ => False
  end.

(** Clocks never run backwards, and while a client's clock advances by [d] a node's
    clock advances by at most [(1 + ClockDriftFactor) * d]. *)
Hypothesis nclock_mono : forall i t t', t <= t' -> nclock i t <= nclock i t'.
Hypothesis clock_rate : forall i l t t', t <= t' ->
  (inject_Z (nclock i t' - nclock i t) <=
   (1 + ClockDriftFactor conf) * inject_Z (cclock l t' - cclock l t))%Q.
Hypothesis conf_ok : config_ok conf.

Abbreviation D := (LeaseDuration conf).

(** As long as node [i]'s clock has not advanced by the lease duration since [s], node
    [i] has a live lease for [le], at least that long. *)
Definition guard (st : state) (le : Lease) (i : nat) (s : Z) : Prop :=
  nclock i (now st) < nclock i s + D ->
  exists e, live (nclock i (now st)) (stores st i) !! resource le = Some (mkLease (ltoken le) e) /\
            nclock i s + D <= e.

Definition backed (st : state) (le : Lease) (s : Z) : Prop :=
  s <= now st /\ exists Q, Q ⊆ nodes /\ (quorum (size nodes) <= size Q)%nat /\
    forall i, i ∈ Q -> guard st le i s.

Definition attempt (st : state) (le : Lease) (s : Z) (p g r : gset nat) : Prop :=
  s <= now st /\ p ⊆ nodes /\ r ⊆ g /\ g ⊆ nodes /\ forall i, i ∈ g -> guard st le i s.

Definition lease_inv (st : state) (le : Lease) : Prop :=
  match lphase le with
  | Acquiring s p g r => attempt st le s p g r
  | Held s => backed st le s
  | Renewing s s' p g r => backed st le s /\ attempt st le s' p g r
  | Cancelled => True
  end.

Definition Inv (st : state) : Prop :=
  (forall l l' le le', leases st !! l = Some le -> leases st !! l' = Some le' ->
     ltoken le = ltoken le' -> l = l') /\
  (forall l le, leases st !! l = Some le -> lease_inv st le).

(** *** What the stores guarantee *)
Lemma acquire_keeps s ctx t r tok ttl r' l :
  live t s !! r' = Some l -> live t (fst (store_acquire s ctx t r tok ttl)) !! r' = Some l.
Proof.
  intros Hl. pose proof (proj1 (store_acquire_spec s ctx t r tok ttl)) as Hs.
  unfold refines, Abstract.acquire in Hs. destruct (snd _); [|by rewrite Hs].
  destruct Hs as [-> _]. destruct (live t s !! r) eqn:Hr; [done|].
  simpl. by rewrite lookup_insert_ne by congruence.
Qed.

Lemma renew_keeps s ctx t r tok ttl r' l :
  live t s !! r' = Some l ->
  live t (fst (store_renew s ctx t r tok ttl)) !! r' = Some l \/
  (tok = token l /\ live t (fst (store_renew s ctx t r tok ttl)) !! r' = Some (mkLease tok (t + ttl))).
Proof.
  intros Hl. pose proof (proj1 (store_renew_spec s ctx t r tok ttl)) as Hs.
  unfold refines, Abstract.renew in Hs. destruct (snd _); [|rewrite Hs; by left].
  destruct Hs as [-> _]. destruct (live t s !! r) as [l0|] eqn:Hr; [|by left].
  destruct (decide (token l0 = tok)) as [<-|]; [|by left]. simpl.
  destruct (decide (r = r')) as [->|]; [right|left].
  - rewrite lookup_insert_eq. simplify_eq. done.
  - by rewrite lookup_insert_ne.
Qed.

Lemma release_keeps s ctx t r tok r' l :
  live t s !! r' = Some l -> tok <> token l ->
  live t (fst (store_release s ctx t r tok)) !! r' = Some l.
Proof.
  intros Hl Hne. pose proof (store_release_spec s ctx t r tok) as Hs.
  unfold refines, Abstract.release in Hs. destruct (snd _); [|by rewrite Hs].
  destruct Hs as [-> _]. destruct (live t s !! r) as [l0|] eqn:Hr; [|done].
  destruct (decide (token l0 = tok)) as [<-|]; [|done]. simpl.
  rewrite lookup_delete_ne; [done|]. congruence.
Qed.

Lemma acquire_grants s ctx t r tok ttl :
  grants (snd (store_acquire s ctx t r tok ttl)) = true ->
  live t (fst (store_acquire s ctx t r tok ttl)) !! r = Some (mkLease tok (t + ttl)).
Proof.
  pose proof (proj1 (store_acquire_spec s ctx t r tok ttl)) as Hs.
  unfold refines, Abstract.acquire, grants in *. destruct (snd _) as [b|]; [|done].
  destruct Hs as [-> ->]. destruct (live t s !! r); [done|]. intros _. simpl. apply lookup_insert_eq.
Qed.

Lemma renew_grants s ctx t r tok ttl :
  grants (snd (store_renew s ctx t r tok ttl)) = true ->
  live t (fst (store_renew s ctx t r tok ttl)) !! r = Some (mkLease tok (t + ttl)).
Proof.
  pose proof (proj1 (store_renew_spec s ctx t r tok ttl)) as Hs.
  unfold refines, Abstract.renew, grants in *. destruct (snd _) as [b|]; [|done].
  destruct Hs as [-> ->]. destruct (live t s !! r) as [l|]; [|done].
  destruct (decide _); [|done]. intros _. simpl. apply lookup_insert_eq.
Qed.

(** *** Guards are stable *)
Lemma fn_insert_eq (f : nat -> S) i s : (<[i := s]> f) i = s.
Proof. apply fn_lookup_insert. Qed.
Lemma fn_insert_ne (f : nat -> S) i j s : i <> j -> (<[i := s]> f) j = f j.
Proof. apply fn_lookup_insert_ne. Qed.

(** A store update that keeps the lease, or renews it for at least [D] from now. *)
Lemma guard_store st le i s j s' :
  s <= now st ->
  (forall l, live (nclock j (now st)) (stores st j) !! resource le = Some l ->
     token l = ltoken le ->
     live (nclock j (now st)) s' !! resource le = Some l \/
     live (nclock j (now st)) s' !! resource le =
       Some (mkLease (ltoken le) (nclock j (now st) + D))) ->
  guard st le i s -> guard (set_store st j s') le i s.
Proof.
  unfold guard. simpl. intros Hs Hkeep Hg Hlt. destruct (Hg Hlt) as (e & He & Hge).
  destruct (decide (j = i)) as [->|Hne].
  - rewrite fn_insert_eq. destruct (Hkeep _ He eq_refl) as [->| ->]; [by exists e|].
    eexists; split; [done|]. pose proof (nclock_mono i _ _ Hs). lia.
  - rewrite fn_insert_ne by done. by exists e.
Qed.

Lemma guard_tick st le i s t : now st <= t ->
  guard st le i s -> guard (mkState t (stores st) (leases st)) le i s.
Proof.
  unfold guard. simpl. intros Ht Hg Hlt. pose proof (nclock_mono i _ _ Ht).
  destruct Hg as (e & He & Hge); [lia|]. exists e. split; [|done].
  rewrite (store_live (nclock i (now st)) (nclock i t)) by done. rewrite He. simpl.
  destruct (Z.ltb_spec (nclock i t) e); [done|lia].
Qed.

(** A new grant at node [i]. *)
Lemma guard_granted st le i s s' : s <= now st ->
  live (nclock i (now st)) s' !! resource le = Some (mkLease (ltoken le) (nclock i (now st) + D)) ->
  guard (set_store st i s') le i s.
Proof.
  unfold guard. simpl. intros Hs Hl _. rewrite fn_insert_eq. eexists; split; [done|].
  pose proof (nclock_mono i _ _ Hs). lia.
Qed.

(** *** The invariant is preserved

    A guard depends on the state only through the time and the stores. *)
Lemma guard_same st st' le i s : now st' = now st -> stores st' = stores st ->
  guard st' le i s <-> guard st le i s.
Proof. unfold guard. by intros -> ->. Qed.

Lemma inv_mono st st' le : (now st <= now st') ->
  (forall i s, s <= now st -> guard st le i s -> guard st' le i s) ->
  lease_inv st le -> lease_inv st' le.
Proof.
  intros Ht Hg. unfold lease_inv, backed, attempt.
  assert (Hb : forall s, (s <= now st /\ exists Q, Q ⊆ nodes /\ (quorum (size nodes) <= size Q)%nat /\
             forall i, i ∈ Q -> guard st le i s) ->
           s <= now st' /\ exists Q, Q ⊆ nodes /\ (quorum (size nodes) <= size Q)%nat /\
             forall i, i ∈ Q -> guard st' le i s).
  { intros s (Hs & Q & H1 & H2 & H3). split; [lia|]. exists Q. auto. }
  destruct (lphase le); [|auto| |done].
  - intros (Hs & ? & ? & ? & Hgr). split_and!; [lia|done..|auto].
  - intros [Hbk (Hs & ? & ? & ? & Hgr)]. split; [auto|]. split_and!; [lia|done..|auto].
Qed.

(** The store update [s'] at node [j] does not take a live lease away from [le]. *)
Definition keeps (st : state) (j : nat) (s' : S) (le : Lease) : Prop :=
  forall l, live (nclock j (now st)) (stores st j) !! resource le = Some l ->
    token l = ltoken le ->
    live (nclock j (now st)) s' !! resource le = Some l \/
    live (nclock j (now st)) s' !! resource le =
      Some (mkLease (ltoken le) (nclock j (now st) + D)).

Lemma keeps_acquire st j ctx le le' : keeps st j (fst (call_acquire st j ctx le')) le.
Proof. intros l Hl _. left. by apply acquire_keeps. Qed.

Lemma keeps_renew st j ctx le le' : keeps st j (fst (call_renew st j ctx le')) le.
Proof.
  intros l Hl Ht. destruct (renew_keeps (stores st j) ctx (nclock j (now st)) (resource le') (ltoken le') D _ _ Hl)
    as [Hk|[Htok Hk]]; [by left|right]. unfold call_renew. rewrite Hk. congruence.
Qed.

Lemma keeps_release st j ctx le le' : ltoken le' <> ltoken le ->
  keeps st j (fst (call_release st j ctx le')) le.
Proof. intros Hne l Hl Ht. left. apply release_keeps; [done|congruence]. Qed.

Lemma lease_inv_store st j s' le : keeps st j s' le ->
  lease_inv st le -> lease_inv (set_store st j s') le.
Proof. intros Hk. apply inv_mono; [done|]. intros i s Hs. by apply guard_store. Qed.

Lemma Inv_set_store st j s' : Inv st ->
  (forall l le, leases st !! l = Some le -> lphase le <> Cancelled -> keeps st j s' le) ->
  Inv (set_store st j s').
Proof.
  intros [Htok Hinv] Hk. split; [done|]. simpl. intros l le Hl. specialize (Hinv l le Hl).
  destruct (lphase le) eqn:Hph;
    (apply lease_inv_store; [apply (Hk l); [done|by rewrite Hph]|done]) || idtac.
  unfold lease_inv. by rewrite Hph.
Qed.

Lemma Inv_set_phase st l le p : Inv st -> leases st !! l = Some le ->
  lease_inv st (mkL (resource le) (ltoken le) p) -> Inv (set_phase st l le p).
Proof.
  intros [Htok Hinv] Hl Hp. split; simpl.
  - intros l1 l2 le1 le2 H1 H2 Heq.
    assert (Hback : forall k lk, <[l := mkL (resource le) (ltoken le) p]> (leases st) !! k = Some lk ->
              exists lk', leases st !! k = Some lk' /\ ltoken lk' = ltoken lk).
    { intros k lk Hk. destruct (decide (l = k)) as [->|]; simplify_map_eq; eauto. }
    destruct (Hback _ _ H1) as (x1 & Hx1 & E1), (Hback _ _ H2) as (x2 & Hx2 & E2).
    apply (Htok l1 l2 x1 x2 Hx1 Hx2). congruence.
  - intros k lk Hk. destruct (decide (l = k)) as [->|]; simplify_map_eq; [done|].
    by apply (Hinv k).
Qed.

Lemma attempt_grant st le s p g r i (b : bool) :
  attempt st le s p g r -> i ∈ p -> (b = true -> guard st le i s) ->
  attempt st le s (p ∖ {[i]}) (if b then {[i]} ∪ g else g) r.
Proof.
  intros (Hs & Hp & Hrg & Hg & Hgr) Hi Hb.
  destruct b; split_and!; try done; set_solver.
Qed.

Lemma attempt_reply st le s p g r i : attempt st le s p g r -> i ∈ g ->
  attempt st le s p g ({[i]} ∪ r).
Proof. intros (Hs & Hp & Hrg & Hg & Hgr) Hi. split_and!; try done. set_solver. Qed.

Lemma attempt_backed st le s p g r : attempt st le s p g r ->
  (quorum (size nodes) <= size r)%nat -> backed st le s.
Proof.
  intros (Hs & Hp & Hrg & Hg & Hgr) Hq. split; [done|]. exists r.
  split_and!; [set_solver|done|]. intros i Hi. apply Hgr. set_solver.
Qed.

Lemma attempt_start st le : attempt st le (now st) nodes ∅ ∅.
Proof. split_and!; try done; set_solver. Qed.

Lemma call_snd {A B} (x : A * B) a b : x = (a, b) -> a = fst x /\ b = snd x.
Proof. by intros ->. Qed.


(** The steps of a client only: the stores do not change. *)
Lemma Inv_client st l le p : Inv st -> leases st !! l = Some le ->
  (lease_inv st le -> lease_inv st (mkL (resource le) (ltoken le) p)) ->
  Inv (set_phase st l le p).
Proof. intros HI Hl Hp. apply Inv_set_phase; [done..|]. apply Hp. by apply (proj2 HI l). Qed.

(** A node executes a call of lease [l], which then moves to phase [p]. *)
Lemma Inv_node st l le j s' p : Inv st -> leases st !! l = Some le ->
  (forall k lk, leases st !! k = Some lk -> keeps st j s' lk) ->
  (lease_inv (set_store st j s') le ->
   lease_inv (set_store st j s') (mkL (resource le) (ltoken le) p)) ->
  Inv (set_phase (set_store st j s') l le p).
Proof.
  intros HI Hl Hk Hp. apply Inv_client; [|done..]. apply Inv_set_store; [done|].
  intros k lk Hlk _. by apply (Hk k).
Qed.

Lemma Inv_start st l res tok : Inv st -> leases st !! l = None ->
  (forall l' le', leases st !! l' = Some le' -> ltoken le' <> tok) ->
  Inv (mkState (now st) (stores st)
         (<[l := mkL res tok (Acquiring (now st) nodes ∅ ∅)]> (leases st))).
Proof.
  intros [Htok Hinv] Hl Hfresh. split; simpl.
  - intros l1 l2 le1 le2 H1 H2 Heq.
    destruct (decide (l = l1)) as [E1|N1], (decide (l = l2)) as [E2|N2].
    + congruence.
    + subst l1. rewrite lookup_insert_eq in H1. rewrite lookup_insert_ne in H2 by done.
      simplify_eq. by destruct (Hfresh _ _ H2).
    + subst l2. rewrite lookup_insert_eq in H2. rewrite lookup_insert_ne in H1 by done.
      simplify_eq. by destruct (Hfresh _ _ H1).
    + rewrite lookup_insert_ne in H1, H2 by done. by eapply Htok.
  - intros k lk Hk. destruct (decide (l = k)) as [->|]; simplify_map_eq.
    + apply (attempt_start (mkState _ _ _)).
    + by apply (Hinv k).
Qed.

Lemma Inv_step st st' : Inv st -> step st st' -> Inv st'.
Proof.
  intros HI Hstep. destruct Hstep as
    [t Ht | l res tok Hl Hr Hfresh | l le s p g r i ctx s' out Hl Hph Hi Hc | l le i ctx Hl
    | l le s p g r i Hl Hph Hi | l le s p g r Hl Hph Hq Hd | l le s Hl Hph
    | l le s s1 p g r Hl Hph | l le s s1 p g r i ctx s' out Hl Hph Hi Hc | l le i ctx Hl
    | l le s s1 p g r i Hl Hph Hi | l le s s1 p g r Hl Hph Hq Hd | l le Hl | l le i ctx Hl Hph].
  - destruct HI as [Htok Hinv]. split; [done|]. intros k lk Hk. simpl in *.
    apply (inv_mono st); [done| |by apply (Hinv k)]. intros. by apply guard_tick.
  - by apply Inv_start.
  - apply call_snd in Hc as [-> ->]. apply Inv_node; [done..| |].
    + intros. apply keeps_acquire.
    + unfold lease_inv. rewrite Hph. simpl. intros Hat. pose proof Hat as (Hs & _).
      apply attempt_grant; [done..|]. intros Hgr. apply guard_granted; [done|].
      by apply acquire_grants.
  - apply Inv_set_store; [done|]. intros. apply keeps_acquire.
  - apply Inv_client; [done..|]. unfold lease_inv. rewrite Hph. simpl. intros. by apply attempt_reply.
  - apply Inv_client; [done..|]. unfold lease_inv. rewrite Hph. simpl. intros. by eapply attempt_backed.
  - apply Inv_client; [done..|]. unfold lease_inv. rewrite Hph. simpl. intros. split; [done|]. apply attempt_start.
  - apply Inv_client; [done..|]. unfold lease_inv. rewrite Hph. simpl. intros [Hb _]. split; [done|]. apply attempt_start.
  - apply call_snd in Hc as [-> ->]. apply Inv_node; [done..| |].
    + intros. apply keeps_renew.
    + unfold lease_inv. rewrite Hph. simpl. intros [Hb Hat]. pose proof Hat as (Hs & _).
      split; [done|]. apply attempt_grant; [done..|]. intros Hgr. apply guard_granted; [done|].
      by apply renew_grants.
  - apply Inv_set_store; [done|]. intros. apply keeps_renew.
  - apply Inv_client; [done..|]. unfold lease_inv. rewrite Hph. simpl. intros [Hb Hat].
    split; [done|]. by apply attempt_reply.
  - apply Inv_client; [done..|]. unfold lease_inv. rewrite Hph. simpl. intros [_ Hat]. by eapply attempt_backed.
  - apply Inv_client; [done..|]. done.
  - apply Inv_set_store; [done|]. intros k lk Hk Hnc. apply keeps_release. intros Heq.
    assert (l = k) as -> by by eapply (proj1 HI). congruence.
Qed.

Lemma reachable_Inv st : reachable st -> Inv st.
Proof.
  induction 1 as [st Hi|st st' _ IH Hs]; [|by eapply Inv_step].
  unfold initial in Hi. split; rewrite Hi; intros *; by rewrite lookup_empty.
Qed.

(** *** The validity window covers the clock drift *)
Lemma window_covers_drift l i s t : s <= t ->
  cclock l t < validUntil conf (cclock l s) -> nclock i t < nclock i s + D.
Proof.
  intros Hst Hlt. unfold validUntil in Hlt. pose proof (clock_rate i l s t Hst) as Hrate.
  pose proof (drift_ge conf) as Hdrift. destruct conf_ok as (HD & Hf0 & Hf1).
  apply Z.nle_gt. intros Hge.
  assert (Hn : (inject_Z D <= inject_Z (nclock i t - nclock i s))%Q) by (rewrite <- Zle_Qle; lia).
  assert (Hc : (inject_Z (cclock l t - cclock l s) < inject_Z D - inject_Z (clockDrift conf))%Q).
  { unfold Qminus. rewrite <- inject_Z_opp, <- inject_Z_plus, <- Zlt_Qlt. lia. }
  assert (HDq : (0 < inject_Z D)%Q) by (change 0%Q with (inject_Z 0); by rewrite <- Zlt_Qlt).
  set (f := ClockDriftFactor conf) in *. set (d := inject_Z D) in *.
  set (c := inject_Z (cclock l t - cclock l s)) in *.
  assert (Hcd : (c < d - d * f)%Q) by lra.
  assert (Hlt' : ((1 + f) * c < (1 + f) * (d - d * f))%Q) by (apply Qmult_lt_l; lra).
  assert (Hsq : (0 <= d * (f * f))%Q).
  { apply Qmult_le_0_compat; [lra|]. apply Qmult_le_0_compat; lra. }
  assert ((1 + f) * (d - d * f) == d - d * (f * f))%Q by ring.
  lra.
Qed.

(** A client that holds a lease has its token live on a quorum of the nodes. *)
Lemma holds_quorum st l le : Inv st -> holds st l le ->
  exists Q, Q ⊆ nodes /\ (quorum (size nodes) <= size Q)%nat /\
    forall i, i ∈ Q -> exists e,
      live (nclock i (now st)) (stores st i) !! resource le = Some (mkLease (ltoken le) e).
Proof.
  intros [_ Hinv] [Hl Hph]. specialize (Hinv l le Hl). unfold lease_inv in Hinv.
  assert (Hb : forall s, backed st le s -> before_deadline st l s = true ->
            exists Q, Q ⊆ nodes /\ (quorum (size nodes) <= size Q)%nat /\
              forall i, i ∈ Q -> exists e,
                live (nclock i (now st)) (stores st i) !! resource le = Some (mkLease (ltoken le) e)).
  { intros s (Hs & Q & HQ & Hq & Hg) Hd. exists Q. split_and!; [done..|]. intros i Hi.
    unfold before_deadline in Hd. apply Z.ltb_lt in Hd.
    destruct (Hg i Hi) as (e & He & _); [by eapply window_covers_drift|]. by exists e. }
  destruct (lphase le); try done; [by eapply Hb|]. destruct Hinv as [Hbk _]. by eapply Hb.
Qed.

Lemma mutual_exclusion_inv st l l' le le' : Inv st -> holds st l le -> holds st l' le' ->
  resource le = resource le' -> l = l'.
Proof.
  intros HI Hh Hh' Hres.
  destruct (holds_quorum st l le HI Hh) as (Q & HQ & Hq & Hlive).
  destruct (holds_quorum st l' le' HI Hh') as (Q' & HQ' & Hq' & Hlive').
  destruct (quorum_intersect nodes Q Q' HQ HQ' Hq Hq') as (i & Hi & Hi').
  destruct (Hlive i Hi) as [e He], (Hlive' i Hi') as [e' He']. rewrite Hres, He' in He.
  apply (proj1 HI l l' le le' (proj1 Hh) (proj1 Hh')). by simplify_eq.
Qed.

(** *** An uncontended acquisition *)
Lemma acquire_free s t r tok : r <> "" -> tok <> "" -> live t s !! r = None ->
  grants (snd (store_acquire s background t r tok D)) = true.
Proof.
  intros Hr Ht Hfree. pose proof (store_accepts s t r tok D Hr Ht (proj1 conf_ok)) as Hok.
  pose proof (proj1 (store_acquire_spec s background t r tok D)) as Hs.
  unfold refines, Abstract.acquire, grants in *. rewrite Hfree in Hs.
  destruct (snd _); [by destruct Hs as [_ ->]|done].
Qed.

(** The attempt of lease [l] after the nodes [done] have granted it and replied. *)
Definition progress (st : state) (l : nat) (res tok : string) (done : gset nat) (st' : state) : Prop :=
  rtc step st st' /\ now st' = now st /\
  leases st' !! l = Some (mkL res tok (Acquiring (now st) (nodes ∖ done) done done)) /\
  forall i, i ∉ done -> stores st' i = stores st i.

Lemma progress_node st l res tok ns st' i : res <> "" -> tok <> "" ->
  progress st l res tok ns st' -> i ∈ nodes -> i ∉ ns ->
  live (nclock i (now st)) (stores st i) !! res = None ->
  exists st'', progress st l res tok ({[i]} ∪ ns) st''.
Proof.
  clear nclock_mono clock_rate. intros Hr Ht (Hrtc & Hnow & Hl & Hst) Hi Hni Hfree.
  set (le := mkL res tok (Acquiring (now st) (nodes ∖ ns) ns ns)) in *.
  set (out := call_acquire st' i background le).
  assert (Hg : grants (snd out) = true).
  { subst out. unfold call_acquire. rewrite Hnow, Hst by done. by apply acquire_free. }
  set (st1 := set_phase (set_store st' i (fst out)) l le
                (Acquiring (now st) ((nodes ∖ ns) ∖ {[i]}) ({[i]} ∪ ns) ns)).
  assert (H1 : step st' st1).
  { pose proof (step_node_acquire st' l le (now st) (nodes ∖ ns) ns ns i background
                  (fst out) (snd out) Hl eq_refl ltac:(set_solver)
                  (surjective_pairing _)) as Hstep.
    by rewrite Hg in Hstep. }
  set (le1 := mkL res tok (Acquiring (now st) ((nodes ∖ ns) ∖ {[i]}) ({[i]} ∪ ns) ns)).
  assert (Hl1 : leases st1 !! l = Some le1) by (simpl; by rewrite lookup_insert_eq).
  pose proof (step_reply_acquire st1 l le1 _ _ _ _ i Hl1 eq_refl ltac:(set_solver)) as H2.
  exists (set_phase st1 l le1 (Acquiring (now st) ((nodes ∖ ns) ∖ {[i]}) ({[i]} ∪ ns) ({[i]} ∪ ns))).
  split_and!; [|done| |].
  - eapply rtc_r; [eapply rtc_r; [exact Hrtc|exact H1]|exact H2].
  - simpl. rewrite lookup_insert_eq.
    by replace ((nodes ∖ ns) ∖ {[i]}) with (nodes ∖ ({[i]} ∪ ns)) by set_solver.
  - simpl. intros j Hj. rewrite fn_insert_ne by set_solver. apply Hst. set_solver.
Qed.

Lemma progress_all st l res tok (Q : gset nat) st0 : res <> "" -> tok <> "" ->
  progress st l res tok ∅ st0 -> Q ⊆ nodes ->
  (forall i, i ∈ Q -> live (nclock i (now st)) (stores st i) !! res = None) ->
  exists st', progress st l res tok Q st'.
Proof.
  clear nclock_mono clock_rate. intros Hr Ht Hstart. induction Q as [|i Q Hni IH] using set_ind_L; [by exists st0|].
  intros HQ Hfree. destruct IH as [st' Hp]; [set_solver..|].
  eapply progress_node; [done|done|exact Hp|set_solver|done|]. apply Hfree. set_solver.
Qed.

Lemma uncontended_steps st l res tok (Q : gset nat) :
  leases st !! l = None -> res <> "" -> tok <> "" ->
  (forall l' le', leases st !! l' = Some le' -> ltoken le' <> tok) ->
  Q ⊆ nodes -> (quorum (size nodes) <= size Q)%nat ->
  (forall i, i ∈ Q -> live (nclock i (now st)) (stores st i) !! res = None) ->
  clockDrift conf < D ->
  exists st', rtc step st st' /\ holds st' l (mkL res tok (Held (now st))).
Proof.
  clear nclock_mono clock_rate. intros Hl Hr Ht Hfresh HQ Hq Hfree Hdrift.
  destruct (progress_all st l res tok Q
    (mkState (now st) (stores st) (<[l := mkL res tok (Acquiring (now st) nodes ∅ ∅)]> (leases st))))
    as (st' & Hrtc & Hnow & Hl' & _); [done|done| |done|done|].
  { split_and!; [by eapply rtc_once, step_start|done| |done]. simpl. rewrite lookup_insert_eq.
    by replace (nodes ∖ ∅) with nodes by set_solver. }
  set (le := mkL res tok (Acquiring (now st) (nodes ∖ Q) Q Q)) in *.
  assert (Hd : before_deadline st' l (now st) = true).
  { unfold before_deadline, validUntil. rewrite Hnow. apply Z.ltb_lt. lia. }
  exists (set_phase st' l le (Held (now st))). split.
  - eapply rtc_r; [done|]. by eapply (step_acquired st' l le).
  - split; [simpl; by rewrite lookup_insert_eq|]. done.
Qed.
End Protocol.

(** ** Properties *)

(** C1: mutual exclusion. In every state the protocol can reach, with any interleaving of
    the clients' attempts, renewals, retries and releases, lost or late calls and replies
    and any passing of time, at most one client holds a lease on a resource: two leases on
    the same resource that were acquired, are not cancelled and have not reached their
    validity deadline on their own client's clock are the same lease.  Assumptions: the
    nodes' stores keep the interface's promise, ownership tokens are unique, all clients
    see the same set of nodes, clocks never run backwards, and while a client's clock
    advances by [d] a node's clock advances by at most [(1 + ClockDriftFactor) * d]. *)
Theorem mutual_exclusion {S} `{LeaseStoreSpec S} {BackOff} (conf : @Config BackOff)
  (nodes : gset nat) (nclock cclock : nat -> Z -> Z) :
  (forall i t t', t <= t' -> nclock i t <= nclock i t') ->
  (forall i l t t', t <= t' ->
     (inject_Z (nclock i t' - nclock i t) <=
      (1 + ClockDriftFactor conf) * inject_Z (cclock l t' - cclock l t))%Q) ->
  config_ok conf ->
  forall (st : state (S := S)) l l' le le',
    reachable conf nodes nclock cclock st ->
    holds conf cclock st l le -> holds conf cclock st l' le' ->
    resource le = resource le' -> l = l'.
Proof.
  intros Hmono Hrate Hok st l l' le le' Hreach.
  eapply mutual_exclusion_inv; eauto. eapply reachable_Inv; eauto.
Qed.

(** An uncontended acquisition can succeed: if a quorum of the nodes has no live lease
    on the resource and the token is fresh, then the attempt's calls, executed on those
    nodes without time passing, lead to a state in which the client holds the lease
    (provided the clock-drift allowance leaves a validity window at all). *)
Lemma uncontended_acquire {S} `{LeaseStoreSpec S} {BackOff} (conf : @Config BackOff)
  (nodes : gset nat) (nclock cclock : nat -> Z -> Z) (st : state (S := S)) l res tok (Q : gset nat) :
  config_ok conf -> clockDrift conf < LeaseDuration conf ->
  leases st !! l = None -> res <> "" -> tok <> "" ->
  (forall l' le', leases st !! l' = Some le' -> ltoken le' <> tok) ->
  Q ⊆ nodes -> (quorum (size nodes) <= size Q)%nat ->
  (forall i, i ∈ Q -> live (nclock i (now st)) (stores st i) !! res = None) ->
  exists st', rtc (step conf nodes nclock cclock) st st' /\
    holds conf cclock st' l (mkL res tok (Held (now st))).
Proof. intros. by apply (uncontended_steps conf nodes nclock cclock) with (Q := Q). Qed.

(** Three in-memory nodes, the default configuration and clocks that agree. *)
Definition example_conf : @Config unit :=
  mkConfig DefaultLeaseDuration DefaultClockDriftFactor (3 * second) None.
Definition example_nodes : gset nat := {[0; 1; 2]}%nat.
Definition example_clock (_ : nat) (t : Z) : Z := t.
Definition example_start : state (S := MemoryStore.t) :=
  mkState 0 (fun _ => MemoryStore.NewMemoryStore) ∅.

Lemma example_rate i l t t' : t <= t' ->
  (inject_Z (example_clock i t' - example_clock i t) <=
   (1 + ClockDriftFactor example_conf) * inject_Z (example_clock l t' - example_clock l t))%Q.
Proof.
  intros Ht. unfold example_clock, example_conf, DefaultClockDriftFactor; simpl.
  assert (0 <= inject_Z (t' - t))%Q by (change 0%Q with (inject_Z 0); rewrite <- Zle_Qle; lia).
  lra.
Qed.

(** Lease 7 is acquired on the nodes 0 and 2. *)
Lemma example_held :
  exists st', rtc (step example_conf example_nodes example_clock example_clock) example_start st' /\
    holds example_conf example_clock st' 7%nat (mkL "cluster" "token" (Held 0)).
Proof.
  apply (uncontended_steps example_conf example_nodes example_clock example_clock ltac:(done)
    example_start 7%nat "cluster" "token" {[0; 2]}%nat); try done; try by vm_compute.
  unfold example_nodes. set_solver.
Qed.

Lemma rtc_reachable {S} `{LeaseStore S} {BackOff} (conf : @Config BackOff) nodes nclock cclock
  (st st' : state (S := S)) :
  reachable conf nodes nclock cclock st -> rtc (step conf nodes nclock cclock) st st' ->
  reachable conf nodes nclock cclock st'.
Proof. intros Hr. induction 1 as [|x y z Hs _ IH]; [done|]. apply IH. by eapply reach_step. Qed.

Lemma mutual_exclusion_witness :
  exists st' : state (S := MemoryStore.t),
    holds example_conf example_clock st' 7%nat (mkL "cluster" "token" (Held 0)) /\
    forall l le, holds example_conf example_clock st' l le -> resource le = "cluster" -> l = 7%nat.
Proof.
  destruct example_held as (st' & Hrtc & Hh). exists st'. split; [done|]. intros l le Hl Hres.
  apply (mutual_exclusion example_conf example_nodes example_clock example_clock
           ltac:(done) example_rate ltac:(done) st' l 7%nat le (mkL "cluster" "token" (Held 0)));
    try done.
  eapply rtc_reachable; [|done]. by apply reach_init.
Defined.

(** [New] either refuses a configuration or returns one on which the guarantee of the
    protocol rests: a positive lease duration, a drift factor strictly between 0 and 1, so
    that the drift allowance is positive and does not exceed the lease duration (the
    validity deadline lies between the start of the attempt and the expiry on the nodes),
    and a backoff policy. Its errors are exactly a missing cluster, a negative lease
    duration, a drift factor outside (0, 1) and a negative call timeout, where zero means
    the default. *)
Lemma New_establishes_config {BackOff Cluster} (defaultBackOff : BackOff)
  (cl : option Cluster) (c : @Config BackOff) :
  match New defaultBackOff cl c with
  | Ok (c', k) =>
      cl = Some k /\ config_ok c' /\ 0 < clockDrift c' <= LeaseDuration c' /\
      is_Some (NewBackOff c') /\
      (forall s, s <= validUntil c' s < s + LeaseDuration c') /\
      (3 <= LeaseDuration c' -> 0 < NodeCallTimeout c')
  | Err ClusterNil => cl = None
  | Err LeaseDurationNotPositive => LeaseDuration c < 0
  | Err DriftFactorOutOfRange => (ClockDriftFactor c < 0)%Q \/ (1 <= ClockDriftFactor c)%Q
  | Err TimeoutNotPositive => NodeCallTimeout c < 0
  end.
Proof.
  destruct (New defaultBackOff cl c) as [[c' k]|e] eqn:HN.
  - pose proof (New_config _ _ _ _ _ HN) as (Hok & HT & HT0 & Hb).
    pose proof (drift_bounds c' Hok) as Hd. split; [|split; [done|split; [done|split; [done|split]]]].
    + unfold New in HN. by destruct cl; [repeat case_match; simplify_eq|].
    + intros s. unfold validUntil. lia.
    + intros. destruct (Z.eq_dec (NodeCallTimeout c') 0); [lia|lia].
  - apply New_error in HN. by destruct e.
Qed.

(** An acquisition attempt reports exactly once whatever the order in which the nodes
    answer: success as soon as a quorum of error-free grants is in, which happens if and
    only if the results contain at least a quorum of them, and otherwise, after the last
    result, a failure that carries the number of grants and every node's error. *)
Lemma acquire_reports_once {E} (quorum : nat) (results : list (nodeResult E)) :
  (0 < quorum)%nat ->
  acquire_reports quorum results =
    (let '(successes, errs) := collectNodeResults results in
     if Nat.leb quorum successes then [Ok tt] else [Err (successes, errs)]) /\
  (forall results', results ≡ₚ results' ->
     fst (collectNodeResults results') = fst (collectNodeResults results) /\
     snd (collectNodeResults results') ≡ₚ snd (collectNodeResults results)).
Proof.
  intros Hq. unfold acquire_reports, collectNodeResults. rewrite acquire_loop_spec by done.
  rewrite collect_loop_spec. split; [done|]. intros results' Hp. rewrite !collect_loop_spec. simpl.
  split; [|by rewrite Hp]. apply Permutation_length.
  induction Hp; simpl; repeat case_match; eauto using Permutation.
Qed.

