(* ===== verification/LogMerger.v ===== *)
(** * LogMerger: merging log streams

    [pkg/client/logmerger.go]: the entries of several log streams are merged in one stream
    ordered by timestamp, with a low watermark over the streams, a bound on the entries each
    stream has in flight, and the detection of stalled streams. One reader goroutine per
    stream feeds the merging goroutine, which is modelled as a step relation. *)
From S2P Require Import Prelude Heap.
#[local] Open Scope list_scope.
#[local] Open Scope Z_scope.

(** ** Log entries ([pkg/api/logs.go])

    A [time.Time] is the number of nanoseconds since its zero value. *)
Inductive LogStreamType := LogStreamUnknown | LogStreamStdout | LogStreamStderr | LogStreamHeartbeat.

#[global] Instance LogStreamType_eq_dec : EqDecision LogStreamType.
Proof. solve_decision. Defined.

Inductive log_error := ErrLogStreamStalled | StreamError (msg : string).

#[global] Instance log_error_eq_dec : EqDecision log_error.
Proof. solve_decision. Defined.

Record Metadata := mkMeta {
  meta_ServiceID : string; meta_ServiceName : string; meta_ContainerID : string;
  meta_MachineID : string; meta_MachineName : string; meta_Hook : string }.

Record ServiceLogEntry := mkEntry {
  le_Metadata : Metadata;
  le_Stream : LogStreamType;
  le_Timestamp : Z;
  le_Message : string;
  le_Err : option log_error }.

Definition zero_metadata : Metadata := mkMeta "" "" "" "" "" "".
Definition zero_entry : ServiceLogEntry := mkEntry zero_metadata LogStreamUnknown 0 "" None.

(** [Time.Sub] saturates at the bounds of [time.Duration]. *)
Definition time_Sub (t u : Z) : Z := Z.max (- 2 ^ 63) (Z.min (2 ^ 63 - 1) (t - u)).

Definition logMergerMaxInFlightPerStream : nat := 100.
Definition logMergerHeartbeatDebounceInterval : Z := 200 * 10 ^ 6.

(** ** State *)

(** The buffered channel [semaphore] holds as many tokens as slots are taken. *)
Record mergerStream := mkStream {
  semaphore : nat;
  lastSeen : Z;
  lastActivity : Z;
  metadata : option Metadata;
  closed : bool;
  stalled : bool }.

(** The semaphore an entry releases is told by the index of its stream. *)
Record queuedEntry := mkQueued { q_entry : ServiceLogEntry; q_semaphore : nat }.

Record LogMerger := mkMerger {
  streams : list mergerStream;
  queue : list queuedEntry;
  watermark : Z;
  output : list ServiceLogEntry;
  lastEmitted : Z;
  stallTimeout : Z;
  stallCheckInterval : Z }.

Record LogMergerOptions := mkOptions { opt_StallTimeout : Z; opt_StallCheckInterval : Z }.

Definition NewLogMerger (count : nat) (now : Z) (opts : LogMergerOptions) : LogMerger :=
  mkMerger (replicate count (mkStream 0 0 now None false false)) [] 0 [] 0
    (opt_StallTimeout opts) (opt_StallCheckInterval opts).

Definition with_streams (m : LogMerger) ss : LogMerger :=
  mkMerger ss (queue m) (watermark m) (output m) (lastEmitted m) (stallTimeout m) (stallCheckInterval m).
Definition with_queue (m : LogMerger) q : LogMerger :=
  mkMerger (streams m) q (watermark m) (output m) (lastEmitted m) (stallTimeout m) (stallCheckInterval m).
Definition with_watermark (m : LogMerger) w : LogMerger :=
  mkMerger (streams m) (queue m) w (output m) (lastEmitted m) (stallTimeout m) (stallCheckInterval m).
Definition with_lastEmitted (m : LogMerger) t : LogMerger :=
  mkMerger (streams m) (queue m) (watermark m) (output m) t (stallTimeout m) (stallCheckInterval m).
Definition update (i : nat) (f : mergerStream -> mergerStream) (m : LogMerger) : LogMerger :=
  with_streams m (alter f i (streams m)).

(** [m.output <- e] *)
Definition emit (e : ServiceLogEntry) (m : LogMerger) : LogMerger :=
  mkMerger (streams m) (queue m) (watermark m) (output m ++ [e]) (lastEmitted m)
    (stallTimeout m) (stallCheckInterval m).

Definition with_semaphore (s : mergerStream) (n : nat) : mergerStream :=
  mkStream n (lastSeen s) (lastActivity s) (metadata s) (closed s) (stalled s).

(** [<-semaphore]: blocks forever ([None]) when no slot is taken. *)
Definition release (i : nat) (m : LogMerger) : option LogMerger :=
  match streams m !! i with
  | Some s => match semaphore s with
              | O => None
              | S n => Some (update i (fun s => with_semaphore s n) m)
              end
  | None => None
  end.

(** ** The heap of queued entries *)
Definition Less (x y : queuedEntry) : bool := le_Timestamp (q_entry x) <? le_Timestamp (q_entry y).

(** ** Watermark *)
Fixpoint low_watermark (first : bool) (w : Z) (ss : list mergerStream) : Z :=
  match ss with
  | [] => w
  | s :: ss' =>
      if closed s || stalled s then low_watermark first w ss'
      else if first || (lastSeen s <? w) then low_watermark false (lastSeen s) ss'
      else low_watermark first w ss'
  end.

Definition updateWatermark (m : LogMerger) : LogMerger :=
  with_watermark m (low_watermark true (watermark m) (streams m)).

(** [heap.Pop], the send and the release, as the two emitting loops do them. *)
Definition pop_entry (m : LogMerger) : option (queuedEntry * LogMerger) :=
  match heap_pop Less (queue m) with
  | Some (qe, q) => Some (qe, emit (q_entry qe) (with_queue m q))
  | None => None
  end.

Fixpoint ready_loop (fuel : nat) (m : LogMerger) : option LogMerger :=
  match fuel, queue m with
  | S f, qe0 :: _ =>
      if le_Timestamp (q_entry qe0) <=? watermark m then
        match pop_entry m with
        | Some (qe, m) =>
            match release (q_semaphore qe) (with_lastEmitted m (le_Timestamp (q_entry qe))) with
            | Some m => ready_loop f m
            | None => None
            end
        | None => None
        end
      else Some m
  | _, _ => Some m
  end.

Definition emitReadyEntries (m : LogMerger) : option LogMerger :=
  if watermark m =? 0 then Some m else ready_loop (length (queue m)) m.

(** All streams closed: flush the remaining entries in order. *)
Fixpoint flush (fuel : nat) (m : LogMerger) : option LogMerger :=
  match fuel, queue m with
  | S f, _ :: _ =>
      match pop_entry m with
      | Some (qe, m) => match release (q_semaphore qe) m with Some m => flush f m | None => None end
      | None => None
      end
  | _, _ => Some m
  end.

(** ** Events *)
Definition is_log (e : ServiceLogEntry) : bool :=
  match le_Stream e with LogStreamStdout | LogStreamStderr => true | _ => false end.

Definition touch (now : Z) (e : ServiceLogEntry) (s : mergerStream) : mergerStream :=
  mkStream (semaphore s) (lastSeen s) now
    (match metadata s with None => Some (le_Metadata e) | m => m end) (closed s) false.
Definition close_stream (s : mergerStream) : mergerStream :=
  mkStream (semaphore s) (lastSeen s) (lastActivity s) (metadata s) true (stalled s).
Definition see (t : Z) (s : mergerStream) : mergerStream :=
  mkStream (semaphore s) (if lastSeen s <? t then t else lastSeen s) (lastActivity s) (metadata s)
    (closed s) (stalled s).

Definition heartbeat (e : ServiceLogEntry) (m : LogMerger) : LogMerger :=
  if logMergerHeartbeatDebounceInterval <=? time_Sub (watermark m) (lastEmitted m) then
    with_lastEmitted (emit (mkEntry (le_Metadata e) (le_Stream e) (watermark m) (le_Message e) (le_Err e)) m)
      (watermark m)
  else m.

(** [e, ok := <-events] of the main loop: [None] is the event of a closed stream. *)
Definition handle_event (now : Z) (i : nat) (ev : option ServiceLogEntry) (m : LogMerger) :
  option LogMerger :=
  let m := update i (touch now (default zero_entry ev)) m in
  match ev with
  | None => emitReadyEntries (updateWatermark (update i close_stream m))
  | Some e =>
      match le_Err e with
      | Some _ => release i (emit e m)
      | None =>
          let m := update i (see (le_Timestamp e)) m in
          if is_log e && (le_Timestamp e =? 0) then release i (emit e m)
          else
            let m := if is_log e then with_queue m (heap_push Less (mkQueued e i) (queue m)) else m in
            match emitReadyEntries (updateWatermark m) with
            | Some m =>
                if bool_decide (le_Stream e = LogStreamHeartbeat) then release i (heartbeat e m)
                else Some m
            | None => None
            end
      end
  end.

(** ** Stalled streams *)
Definition stalls (now timeout : Z) (s : mergerStream) : bool :=
  negb (closed s || stalled s) && (timeout <? time_Sub now (lastActivity s)).

Definition mark_stalled (now timeout : Z) (s : mergerStream) : mergerStream :=
  if stalls now timeout s then
    mkStream (semaphore s) (lastSeen s) (lastActivity s) (metadata s) (closed s) true
  else s.

Definition checkStalledStreams (now : Z) (m : LogMerger) : list mergerStream * LogMerger :=
  (List.filter (stalls now (stallTimeout m)) (streams m),
   with_streams m (map (mark_stalled now (stallTimeout m)) (streams m))).

Definition stalled_entry (s : mergerStream) : ServiceLogEntry :=
  mkEntry (default zero_metadata (metadata s)) LogStreamUnknown 0 "" (Some ErrLogStreamStalled).

Definition stall_tick (now : Z) (m : LogMerger) : option LogMerger :=
  match checkStalledStreams now m with
  | ([], m) => Some m
  | (ss, m) => emitReadyEntries (updateWatermark (fold_left (fun m s => emit (stalled_entry s) m) ss m))
  end.

(** ** The goroutines

    A reader receives from its stream, takes a slot, sends the event. [delivered] records
    the entries the merging goroutine has received from it. *)
Inductive reader := Receiving | Holding (e : ServiceLogEntry) | Sending (e : ServiceLogEntry) | Closing | Done.

Record stream_reader := mkReader { delivered : list ServiceLogEntry; at_ : reader }.

Record system := mkSystem { merger : LogMerger; readers : list stream_reader; finished : bool }.

Definition start (count : nat) (now : Z) (opts : LogMergerOptions) : system :=
  mkSystem (NewLogMerger count now opts) (replicate count (mkReader [] Receiving)) false.

Definition moved (i : nat) (r : reader) (rs : list stream_reader) : list stream_reader :=
  alter (fun x => mkReader (delivered x) r) i rs.
Definition delivering (i : nat) (e : ServiceLogEntry) (rs : list stream_reader) : list stream_reader :=
  alter (fun x => mkReader (delivered x ++ [e]) Receiving) i rs.

Definition all_done (rs : list stream_reader) : Prop := Forall (fun r => at_ r = Done) rs.

(** [LReceive] and [LEof] are the moves of the input streams, [LTick] the one of the clock. *)
Inductive label := LReceive | LEof | LAcquire | LDeliver | LClose | LTick | LFinish.

Inductive step : label -> system -> system -> Prop :=
| step_receive m rs f i d e :
    rs !! i = Some (mkReader d Receiving) ->
    step LReceive (mkSystem m rs f) (mkSystem m (moved i (Holding e) rs) f)
| step_eof m rs f i d :
    rs !! i = Some (mkReader d Receiving) ->
    step LEof (mkSystem m rs f) (mkSystem m (moved i Closing rs) f)
| step_acquire m rs f i d e s :
    rs !! i = Some (mkReader d (Holding e)) ->
    streams m !! i = Some s -> (semaphore s < logMergerMaxInFlightPerStream)%nat ->
    step LAcquire (mkSystem m rs f)
      (mkSystem (update i (fun s => with_semaphore s (S (semaphore s))) m) (moved i (Sending e) rs) f)
| step_deliver m rs i d e now m' :
    rs !! i = Some (mkReader d (Sending e)) ->
    handle_event now i (Some e) m = Some m' ->
    step LDeliver (mkSystem m rs false) (mkSystem m' (delivering i e rs) false)
| step_close m rs i d now m' :
    rs !! i = Some (mkReader d Closing) ->
    handle_event now i None m = Some m' ->
    step LClose (mkSystem m rs false) (mkSystem m' (moved i Done rs) false)
| step_tick m rs now m' :
    0 < stallTimeout m -> 0 < stallCheckInterval m ->
    stall_tick now m = Some m' ->
    step LTick (mkSystem m rs false) (mkSystem m' rs false)
| step_finish m rs m' :
    all_done rs -> flush (length (queue m)) m = Some m' ->
    step LFinish (mkSystem m rs false) (mkSystem m' rs true).

(** The moves the program makes by itself. *)
Definition internal (l : label) : bool :=
  match l with LReceive | LEof | LTick => false | _ => true end.

Inductive reachable (count : nat) (opts : LogMergerOptions) : system -> Prop :=
| reach_start now : reachable count opts (start count now opts)
| reach_step l s s' : reachable count opts s -> step l s s' -> reachable count opts s'.

(** * Draining the queue *)
Notation ts qe := (le_Timestamp (q_entry qe)).

Lemma Less_weak : strict_weak Less.
Proof. unfold Less. split_and!; intros; rewrite ?Z.ltb_lt, ?Z.ltb_ge in *; lia. Qed.

Lemma Less_ge x y : Less x y = false <-> ts y <= ts x.
Proof. unfold Less. apply Z.ltb_ge. Qed.

(** The number of slots of stream [i] taken by a list of queued entries. *)
Definition held_by (i : nat) (q : list queuedEntry) : nat :=
  length (List.filter (fun qe => Nat.eqb (q_semaphore qe) i) q).

Lemma held_by_cons i qe q :
  held_by i (qe :: q) = ((if Nat.eqb (q_semaphore qe) i then 1 else 0) + held_by i q)%nat.
Proof. unfold held_by. simpl. by destruct (Nat.eqb _ _). Qed.
Lemma held_by_app i q q' : held_by i (q ++ q') = (held_by i q + held_by i q')%nat.
Proof. unfold held_by. by rewrite List.filter_app, length_app. Qed.

#[global] Instance held_by_proper i : Proper ((≡ₚ) ==> eq) (held_by i).
Proof.
  induction 1; [done|rewrite !held_by_cons; lia|rewrite !held_by_cons; lia|congruence].
Qed.

(** Every queued entry has its slot. *)
Definition covered (ss : list mergerStream) (q : list queuedEntry) : Prop :=
  (forall qe, qe ∈ q -> (q_semaphore qe < length ss)%nat) /\
  forall i s, ss !! i = Some s -> (held_by i q <= semaphore s)%nat.

Definition freed (n : nat) (s : mergerStream) : mergerStream := with_semaphore s (semaphore s - n).
Definition released (out : list queuedEntry) (ss : list mergerStream) : list mergerStream :=
  imap (fun i s => freed (held_by i out) s) ss.

(** [m'] is [m] after the entries [out] have been popped, sent and released. *)
Record drained (out : list queuedEntry) (m m' : LogMerger) : Prop := {
  dr_queue : queue m ≡ₚ out ++ queue m';
  dr_heap : heap Less (queue m');
  dr_output : output m' = output m ++ map q_entry out;
  dr_sorted : StronglySorted (fun x y => ts x <= ts y) out;
  dr_below : forall x y, x ∈ out -> y ∈ queue m' -> ts x <= ts y;
  dr_watermark : watermark m' = watermark m;
  dr_streams : streams m' = released out (streams m);
  dr_timeout : stallTimeout m' = stallTimeout m;
  dr_interval : stallCheckInterval m' = stallCheckInterval m }.

Lemma with_semaphore_same s n : n = semaphore s -> with_semaphore s n = s.
Proof. intros ->. by destruct s. Qed.

Lemma released_nil ss : released [] ss = ss.
Proof.
  apply list_eq. intros i. unfold released. rewrite list_lookup_imap.
  destruct (ss !! i); simpl; [|done]. f_equal. apply with_semaphore_same. unfold held_by. simpl. lia.
Qed.

Lemma released_app o1 o2 ss : released o2 (released o1 ss) = released (o1 ++ o2) ss.
Proof.
  apply list_eq. intros i. unfold released. rewrite !list_lookup_imap.
  destruct (ss !! i); simpl; [|done]. f_equal. unfold freed, with_semaphore. simpl.
  f_equal. rewrite held_by_app. lia.
Qed.

Lemma released_length out ss : length (released out ss) = length ss.
Proof. apply length_imap. Qed.

Lemma drained_refl m : heap Less (queue m) -> drained [] m m.
Proof.
  intros Hh. constructor; simpl; rewrite ?app_nil_r, ?released_nil; try done.
  - constructor.
  - by intros x y ?%not_elem_of_nil.
Qed.

Lemma drained_trans o1 o2 m1 m2 m3 :
  drained o1 m1 m2 -> drained o2 m2 m3 -> drained (o1 ++ o2) m1 m3.
Proof.
  intros [Q1 H1 O1 S1 B1 W1 R1 T1 I1] [Q2 H2 O2 S2 B2 W2 R2 T2 I2].
  constructor; try congruence; try done.
  - by rewrite Q1, Q2, <- app_assoc.
  - by rewrite O2, O1, map_app, app_assoc.
  - apply StronglySorted_app. split_and!; [|done|done].
    intros x y Hx Hy. apply B1; [done|]. rewrite Q2. set_solver.
  - intros x y [Hx|Hx]%elem_of_app Hy; [|by apply B2]. apply B1; [done|]. rewrite Q2. set_solver.
  - by rewrite R2, R1, released_app.
Qed.

Lemma drained_covered out m m' :
  drained out m m' -> covered (streams m) (queue m) -> covered (streams m') (queue m').
Proof.
  intros [Q _ _ _ _ _ R _ _] [Hown Hsem]. unfold covered. rewrite R, released_length. split.
  - intros qe Hqe. apply Hown. rewrite Q. set_solver.
  - intros i s. unfold released. rewrite list_lookup_imap. destruct (streams m !! i) as [s0|] eqn:Hs; [|done].
    simpl. intros [= <-]. specialize (Hsem i s0 Hs). rewrite Q, held_by_app in Hsem. simpl. lia.
Qed.

(** One round of the emitting loops never blocks, and takes the earliest entry. *)
Lemma pop_release qe0 q0 m t :
  queue m = qe0 :: q0 -> heap Less (queue m) -> covered (streams m) (queue m) ->
  exists m1, pop_entry m = Some (qe0, m1) /\
    exists m2, release (q_semaphore qe0) (with_lastEmitted m1 t) = Some m2 /\ drained [qe0] m m2.
Proof.
  intros Hq Hh [Hown Hsem]. rewrite Hq in Hh, Hown, Hsem.
  destruct (heap_pop_spec Less Less_weak qe0 q0 Hh) as (q' & Hpop & Hh' & Hperm).
  unfold pop_entry. rewrite Hq, Hpop. eexists; split; [done|].
  unfold release. simpl.
  destruct (lookup_lt_is_Some_2 (streams m) (q_semaphore qe0)) as [s Hs]; [apply Hown; set_solver|].
  rewrite Hs. specialize (Hsem _ _ Hs) as Hle. rewrite held_by_cons, Nat.eqb_refl in Hle.
  destruct (semaphore s) as [|n] eqn:Hn; [lia|]. eexists; split; [done|].
  constructor; simpl; try done.
  - by rewrite Hq.
  - repeat constructor.
  - intros x y ->%list_elem_of_singleton Hy. apply Less_ge.
    apply (heap_min Less Less_weak (qe0 :: q0)); [done|done|]. rewrite Hperm. set_solver.
  - apply list_eq. intros i. unfold released. rewrite list_lookup_imap.
    destruct (decide (i = q_semaphore qe0)) as [->|Hne].
    + rewrite list_lookup_alter_eq, Hs. simpl. unfold freed. f_equal. f_equal.
      rewrite held_by_cons, Nat.eqb_refl. unfold held_by. simpl. lia.
    + rewrite list_lookup_alter_ne by done. destruct (streams m !! i) as [s'|]; simpl; [|done].
      f_equal. symmetry. apply with_semaphore_same.
      rewrite held_by_cons. destruct (Nat.eqb_spec (q_semaphore qe0) i); [done|]. unfold held_by. simpl. lia.
Qed.

Lemma ready_loop_spec fuel m :
  heap Less (queue m) -> covered (streams m) (queue m) -> (length (queue m) <= fuel)%nat ->
  exists out m', ready_loop fuel m = Some m' /\ drained out m m' /\
    (forall x, x ∈ out -> ts x <= watermark m) /\ (forall y, y ∈ queue m' -> watermark m < ts y).
Proof.
  revert m. induction fuel as [|fuel IH]; intros m Hh Hc Hf; simpl.
  - exists [], m. split_and!; [done|by apply drained_refl| |]; intros x Hx.
    + by apply not_elem_of_nil in Hx.
    + destruct (queue m); [by apply not_elem_of_nil in Hx|simpl in Hf; lia].
  - destruct (queue m) as [|qe0 q0] eqn:Hq.
    { exists [], m. split_and!; [done|apply drained_refl; by rewrite Hq| |]; intros x Hx;
        [|rewrite Hq in Hx]; by apply not_elem_of_nil in Hx. }
    destruct (Z.leb_spec (ts qe0) (watermark m)) as [Hle|Hgt].
    + destruct (pop_release qe0 q0 m (ts qe0) Hq) as (m1 & -> & m2 & -> & Hd); [by rewrite Hq..|].
      destruct (IH m2) as (out & m' & Hl & Hd' & Hout & Hrest).
      * apply Hd.
      * apply (drained_covered _ _ _ Hd). by rewrite Hq.
      * pose proof (dr_queue _ _ _ Hd) as Hp%Permutation_length. rewrite Hq, length_app in Hp. simpl in *. lia.
      * exists (qe0 :: out), m'. rewrite (dr_watermark _ _ _ Hd) in *. split_and!; [done| | |done].
        -- by apply (drained_trans [qe0] out m m2 m').
        -- intros x [->|Hx]%elem_of_cons; [done|by apply Hout].
    + exists [], m. split_and!; [done|apply drained_refl; by rewrite Hq| |].
      * by intros x ?%not_elem_of_nil.
      * intros y Hy. rewrite Hq in Hy. apply Z.lt_le_trans with (ts qe0); [done|].
        by apply Less_ge, (heap_min Less Less_weak (qe0 :: q0)).
Qed.

Lemma emitReadyEntries_spec m :
  heap Less (queue m) -> covered (streams m) (queue m) ->
  exists out m', emitReadyEntries m = Some m' /\ drained out m m' /\
    (forall x, x ∈ out -> ts x <= watermark m) /\
    (watermark m <> 0 -> forall y, y ∈ queue m' -> watermark m < ts y).
Proof.
  intros Hh Hc. unfold emitReadyEntries. destruct (Z.eqb_spec (watermark m) 0) as [H0|H0].
  - exists [], m. split_and!; [done|by apply drained_refl| |done]. by intros x ?%not_elem_of_nil.
  - destruct (ready_loop_spec (length (queue m)) m Hh Hc ltac:(lia)) as (out & m' & ? & ? & ? & ?).
    exists out, m'. split_and!; auto.
Qed.

Lemma flush_spec fuel m :
  heap Less (queue m) -> covered (streams m) (queue m) -> (length (queue m) <= fuel)%nat ->
  exists out m', flush fuel m = Some m' /\ drained out m m' /\ queue m' = [].
Proof.
  revert m. induction fuel as [|fuel IH]; intros m Hh Hc Hf; simpl.
  - exists [], m. split_and!; [done|by apply drained_refl|]. destruct (queue m); [done|simpl in Hf; lia].
  - destruct (queue m) as [|qe0 q0] eqn:Hq.
    { exists [], m. split_and!; [done|apply drained_refl; by rewrite Hq|done]. }
    destruct (pop_release qe0 q0 m (lastEmitted m) Hq) as (m1 & Hm1 & m2 & Hr & Hd); [by rewrite Hq..|].
    assert (with_lastEmitted m1 (lastEmitted m) = m1) as Hsame.
    { unfold pop_entry in Hm1. destruct (heap_pop Less (queue m)) as [[]|]; [|done].
      injection Hm1 as <- <-. done. }
    rewrite Hm1, <- Hsame, Hr. destruct (IH m2) as (out & m' & Hl & Hd' & Hrest).
    + apply Hd.
    + apply (drained_covered _ _ _ Hd). by rewrite Hq.
    + pose proof (dr_queue _ _ _ Hd) as Hp%Permutation_length. rewrite Hq, length_app in Hp. simpl in *. lia.
    + exists (qe0 :: out), m'. split_and!; [done| |done]. by apply (drained_trans [qe0] out m m2 m').
Qed.

(** * Slots

    [x i] is the number of slots of stream [i] that no queued entry holds. *)
Definition slots (m : LogMerger) (x : nat -> nat) : Prop :=
  (forall qe, qe ∈ queue m -> (q_semaphore qe < length (streams m))%nat) /\
  forall i s, streams m !! i = Some s -> semaphore s = (held_by i (queue m) + x i)%nat.

Definition give_back (s : mergerStream) : mergerStream := with_semaphore s (semaphore s - 1).

Definition less_one (i : nat) (x : nat -> nat) : nat -> nat :=
  fun j => if Nat.eqb i j then (x j - 1)%nat else x j.

Lemma slots_covered m x : slots m x -> covered (streams m) (queue m).
Proof. intros [Ho Hs]. split; [done|]. intros i s Hi. rewrite (Hs i s Hi). lia. Qed.

Lemma slots_ext m x y : (forall i, (i < length (streams m))%nat -> x i = y i) -> slots m x -> slots m y.
Proof.
  intros He [Ho Hs]. split; [done|]. intros i s Hi. rewrite <- He; [by apply Hs|].
  by apply lookup_lt_Some in Hi.
Qed.

Lemma slots_drained out m m' x : drained out m m' -> slots m x -> slots m' x.
Proof.
  intros [Q _ _ _ _ _ R _ _] [Ho Hs]. unfold slots. rewrite R, released_length. split.
  - intros qe Hqe. apply Ho. rewrite Q. set_solver.
  - intros i s. unfold released. rewrite list_lookup_imap. destruct (streams m !! i) as [s0|] eqn:Hi; [|done].
    simpl. intros [= <-]. simpl. rewrite (Hs i s0 Hi), Q, held_by_app. lia.
Qed.

Lemma slots_update i f m x : (forall s, semaphore (f s) = semaphore s) -> slots m x -> slots (update i f m) x.
Proof.
  intros Hf [Ho Hs]. split; simpl; [by rewrite length_alter|]. intros j s Hj.
  destruct (decide (i = j)) as [->|Hne].
  - rewrite list_lookup_alter_eq in Hj. destruct (streams m !! j) as [s0|] eqn:Hi; [|done].
    injection Hj as <-. rewrite Hf. by apply Hs.
  - rewrite list_lookup_alter_ne in Hj by done. by apply Hs.
Qed.

Lemma slots_release i m x :
  slots m x -> (i < length (streams m))%nat -> (0 < x i)%nat ->
  release i m = Some (update i give_back m) /\ slots (update i give_back m) (less_one i x).
Proof.
  intros [Ho Hs] Hi Hx. unfold release. destruct (lookup_lt_is_Some_2 _ _ Hi) as [s Hsi]. rewrite Hsi.
  pose proof (Hs i s Hsi) as Hsem. destruct (semaphore s) as [|n] eqn:Hn; [lia|]. split.
  { unfold update. do 2 f_equal. apply list_alter_ext; [|done]. rewrite Hsi. intros ? [= <-].
    unfold give_back. f_equal. lia. }
  split; simpl; [by rewrite length_alter|].
  intros j s'. unfold less_one. destruct (Nat.eqb_spec i j) as [->|Hne].
  - rewrite list_lookup_alter_eq, Hsi. intros [= <-]. simpl. lia.
  - rewrite list_lookup_alter_ne by done. apply Hs.
Qed.

Lemma slots_push i e m x :
  slots m x -> (i < length (streams m))%nat -> (0 < x i)%nat ->
  slots (with_queue m (heap_push Less (mkQueued e i) (queue m))) (less_one i x).
Proof.
  intros [Ho Hs] Hi Hx. split; simpl.
  - intros qe. rewrite (heap_push_perm Less). intros [->|Hqe]%elem_of_cons; [done|by apply Ho].
  - intros j s Hj. rewrite (heap_push_perm Less), held_by_cons, (Hs j s Hj). unfold less_one. simpl.
    destruct (Nat.eqb_spec i j) as [->|]; lia.
Qed.

(** * What the main loop does with an entry *)
Definition arrive (now : Z) (i : nat) (e : ServiceLogEntry) (m : LogMerger) : LogMerger :=
  let m := update i (touch now e) m in
  match le_Err e with Some _ => m | None => update i (see (le_Timestamp e)) m end.

Definition enqueue (i : nat) (e : ServiceLogEntry) (m : LogMerger) : LogMerger :=
  if is_log e then with_queue m (heap_push Less (mkQueued e i) (queue m)) else m.

(** Errors and logs without a timestamp go out at once. *)
Definition immediate (e : ServiceLogEntry) : bool :=
  match le_Err e with Some _ => true | None => is_log e && (le_Timestamp e =? 0) end.

Definition is_heartbeat (e : ServiceLogEntry) : bool := bool_decide (le_Stream e = LogStreamHeartbeat).

Inductive handled (now : Z) (i : nat) (e : ServiceLogEntry) (m : LogMerger) : LogMerger -> Prop :=
| forwarded :
    immediate e = true ->
    handled now i e m (update i give_back (emit e (arrive now i e m)))
| merged out m1 :
    immediate e = false -> is_heartbeat e = false ->
    drained out (updateWatermark (enqueue i e (arrive now i e m))) m1 ->
    (forall x, x ∈ out -> ts x <= watermark m1) ->
    (watermark m1 <> 0 -> forall y, y ∈ queue m1 -> watermark m1 < ts y) ->
    handled now i e m m1
| beat out m1 :
    immediate e = false -> is_heartbeat e = true ->
    drained out (updateWatermark (arrive now i e m)) m1 ->
    (forall x, x ∈ out -> ts x <= watermark m1) ->
    (watermark m1 <> 0 -> forall y, y ∈ queue m1 -> watermark m1 < ts y) ->
    handled now i e m (update i give_back (heartbeat e m1)).

(** The slot an entry of an unknown stream type has taken is never released. *)
Definition leaks (e : ServiceLogEntry) : bool :=
  match le_Err e with Some _ => false | None => bool_decide (le_Stream e = LogStreamUnknown) end.

Lemma slots_arrive now i e m x : slots m x -> slots (arrive now i e m) x.
Proof.
  intros Hs. unfold arrive. destruct (le_Err e); repeat apply slots_update; done.
Qed.

Lemma arrive_streams now i e m : length (streams (arrive now i e m)) = length (streams m).
Proof. unfold arrive. destruct (le_Err e); simpl; by rewrite !length_alter. Qed.
Lemma arrive_queue now i e m : queue (arrive now i e m) = queue m.
Proof. unfold arrive. by destruct (le_Err e). Qed.
Lemma arrive_output now i e m : output (arrive now i e m) = output m.
Proof. unfold arrive. by destruct (le_Err e). Qed.
Lemma arrive_watermark now i e m : watermark (arrive now i e m) = watermark m.
Proof. unfold arrive. by destruct (le_Err e). Qed.

Lemma heartbeat_streams e m : streams (heartbeat e m) = streams m.
Proof. unfold heartbeat. by case_match. Qed.
Lemma heartbeat_queue e m : queue (heartbeat e m) = queue m.
Proof. unfold heartbeat. by case_match. Qed.
Lemma heartbeat_watermark e m : watermark (heartbeat e m) = watermark m.
Proof. unfold heartbeat. by case_match. Qed.

(** The main loop never blocks on a release: the entry it handles holds a slot. *)
Lemma handle_entry now i e m x :
  heap Less (queue m) -> slots m x -> (i < length (streams m))%nat -> (0 < x i)%nat ->
  exists m', handle_event now i (Some e) m = Some m' /\ handled now i e m m' /\
    slots m' (if leaks e then x else less_one i x) /\ heap Less (queue m').
Proof.
  intros Hh Hs Hi Hx.
  assert (Hsa : slots (arrive now i e m) x) by by apply slots_arrive.
  assert (Hla : (i < length (streams (arrive now i e m)))%nat) by by rewrite arrive_streams.
  assert (Hfwd : immediate e = true -> exists m', release i (emit e (arrive now i e m)) = Some m' /\
     handled now i e m m' /\ slots m' (less_one i x) /\ heap Less (queue m')).
  { intros Him. destruct (slots_release i (emit e (arrive now i e m)) x Hsa Hla Hx) as (Hr & Hsl).
    eexists. split_and!; [done|by apply forwarded|done|]. simpl. by rewrite arrive_queue. }
  unfold handle_event. simpl default. cbv zeta. unfold immediate, leaks in *.
  assert (Hns : forall err, le_Err e = Some err -> update i (touch now e) m = arrive now i e m)
    by (intros err E; unfold arrive; by rewrite E).
  assert (Hnn : le_Err e = None -> update i (see (le_Timestamp e)) (update i (touch now e) m) = arrive now i e m)
    by (intros E; unfold arrive; by rewrite E).
  destruct (le_Err e) as [err|] eqn:He; [rewrite (Hns err); auto|].
  rewrite Hnn by done. destruct (is_log e && (le_Timestamp e =? 0)) eqn:Hz.
  { destruct Hfwd as (m' & -> & ?); [done|]. exists m'. split; [done|].
    apply andb_true_iff in Hz as [Hl _]. unfold is_log in Hl.
    rewrite bool_decide_false; [done|]. intros E. by rewrite E in Hl. }
  fold (enqueue i e (arrive now i e m)).
  assert (Hens : slots (enqueue i e (arrive now i e m)) (if is_log e then less_one i x else x)).
  { unfold enqueue. destruct (is_log e); [by apply slots_push|done]. }
  assert (Hen : heap Less (queue (enqueue i e (arrive now i e m)))).
  { unfold enqueue. destruct (is_log e); simpl; rewrite arrive_queue; [|done].
    by apply heap_push_heap; [apply Less_weak|]. }
  destruct (emitReadyEntries_spec (updateWatermark (enqueue i e (arrive now i e m)))) as (out & m1 & -> & Hd & Ho & Hr);
    [done|by apply (slots_covered _ _ Hens)|].
  pose proof (slots_drained out _ _ _ Hd Hens) as Hs1.
  rewrite <- (dr_watermark _ _ _ Hd) in Ho, Hr. pose proof (dr_heap _ _ _ Hd) as Hh1.
  assert (Him : immediate e = false) by (unfold immediate; by rewrite He).
  destruct (is_heartbeat e) eqn:Hb.
  - unfold is_heartbeat in Hb. rewrite Hb. apply bool_decide_eq_true in Hb as Hb'.
    assert (Hnl : is_log e = false) by (unfold is_log; by rewrite Hb').
    rewrite Hnl in Hs1. unfold enqueue in Hd. rewrite Hnl in Hd.
    assert (Hsb : slots (heartbeat e m1) x).
    { unfold slots. rewrite heartbeat_streams, heartbeat_queue. done. }
    destruct (slots_release i (heartbeat e m1) x Hsb) as (-> & Hsl); [|done|].
    { rewrite heartbeat_streams, (dr_streams _ _ _ Hd), released_length. done. }
    eexists. split_and!; [done|by apply (beat _ _ _ _ out)| |simpl; by rewrite heartbeat_queue].
    by rewrite bool_decide_false by (rewrite Hb'; done).
  - exists m1. unfold is_heartbeat in Hb. rewrite Hb.
    split_and!; [done|by apply (merged _ _ _ _ out)| |done].
    unfold is_log in *. apply bool_decide_eq_false in Hb.
    by destruct (le_Stream e).
Qed.

Lemma handle_close now i m x :
  heap Less (queue m) -> slots m x ->
  exists out m', handle_event now i None m = Some m' /\
    drained out (updateWatermark (update i close_stream (update i (touch now zero_entry) m))) m' /\
    (forall y, y ∈ out -> ts y <= watermark m') /\
    (watermark m' <> 0 -> forall y, y ∈ queue m' -> watermark m' < ts y).
Proof.
  intros Hh Hs. unfold handle_event. cbn [default].
  simpl default. cbv zeta.
  destruct (emitReadyEntries_spec (updateWatermark (update i close_stream (update i (touch now zero_entry) m))))
    as (out & m' & Hm & Hd & Ho & Hr); [done| |].
  { apply (slots_covered (update i close_stream (update i (touch now zero_entry) m)) x).
    by repeat apply slots_update. }
  rewrite <- (dr_watermark _ _ _ Hd) in Ho, Hr. by exists out, m'.
Qed.

(** The errors that report the stalled streams. *)
Definition report (ss : list mergerStream) (m : LogMerger) : LogMerger :=
  fold_left (fun m s => emit (stalled_entry s) m) ss m.

Lemma report_spec ss m :
  report ss m = mkMerger (streams m) (queue m) (watermark m) (output m ++ map stalled_entry ss)
    (lastEmitted m) (stallTimeout m) (stallCheckInterval m).
Proof.
  revert m. induction ss as [|s ss IH]; intros m; simpl; [by rewrite app_nil_r; destruct m|].
  unfold report in IH. rewrite IH. simpl. by rewrite <- app_assoc.
Qed.

Lemma mark_none now t ss : List.filter (stalls now t) ss = [] -> map (mark_stalled now t) ss = ss.
Proof.
  induction ss as [|s ss IH]; simpl; [done|]. unfold mark_stalled at 1. destruct (stalls now t s); [done|].
  intros H. by rewrite IH.
Qed.

Lemma handle_tick now m x :
  heap Less (queue m) -> slots m x ->
  stall_tick now m = Some m \/
  exists ss out m', ss <> [] /\ stall_tick now m = Some m' /\
    drained out (updateWatermark (report ss (with_streams m (map (mark_stalled now (stallTimeout m)) (streams m))))) m' /\
    (watermark m' <> 0 -> forall y, y ∈ queue m' -> watermark m' < ts y).
Proof.
  intros Hh [Ho Hs]. unfold stall_tick, checkStalledStreams.
  destruct (List.filter (stalls now (stallTimeout m)) (streams m)) as [|s ss] eqn:Hf.
  - left. rewrite mark_none by done. by destruct m.
  - right. fold (report (s :: ss) (with_streams m (map (mark_stalled now (stallTimeout m)) (streams m)))).
    set (mr := updateWatermark (report (s :: ss) _)).
    assert (Hst : streams mr = map (mark_stalled now (stallTimeout m)) (streams m)) by (unfold mr; by rewrite report_spec).
    assert (Hq : queue mr = queue m) by (unfold mr; by rewrite report_spec).
    destruct (emitReadyEntries_spec mr) as (out & m' & Hm & Hd & _ & Hr); [by rewrite Hq| |].
    { apply (slots_covered _ x). split; rewrite Hq, Hst; [rewrite length_map; done|].
      intros i st Hi. apply list_lookup_fmap_Some in Hi as (st0 & -> & Hi).
      rewrite <- (Hs i st0 Hi). unfold mark_stalled. by case_match. }
    rewrite <- (dr_watermark _ _ _ Hd) in Hr. exists (s :: ss), out, m'. done.
Qed.

(** * The well-formed states of the program *)
Definition counted (e : ServiceLogEntry) : bool :=
  match le_Err e with
  | Some ErrLogStreamStalled => false
  | Some _ => true
  | None => is_log e
  end.
Definition logs_of (l : list ServiceLogEntry) : list ServiceLogEntry := List.filter counted l.

(** The latest timestamp seen in a list of entries. *)
Definition latest (d : list ServiceLogEntry) : Z :=
  fold_left (fun t e => match le_Err e with Some _ => t | None => Z.max t (le_Timestamp e) end) d 0.

Lemma latest_app d e :
  latest (d ++ [e]) = match le_Err e with Some _ => latest d | None => Z.max (latest d) (le_Timestamp e) end.
Proof. unfold latest. by rewrite fold_left_app. Qed.

Definition is_sending (r : reader) : bool := match r with Sending _ => true | _ => false end.
Definition leaked (d : list ServiceLogEntry) : nat := length (List.filter leaks d).
Definition extra_of (r : stream_reader) : nat := (leaked (delivered r) + if is_sending (at_ r) then 1 else 0)%nat.
Definition extra (rs : list stream_reader) (i : nat) : nat := match rs !! i with Some r => extra_of r | None => O end.

(** A stream of the merger and its reader. *)
Definition agree (s : mergerStream) (r : stream_reader) : Prop :=
  lastSeen s = latest (delivered r) /\ (closed s = true <-> at_ r = Done) /\
  (semaphore s <= logMergerMaxInFlightPerStream)%nat.

Definition queued_ok (rs : list stream_reader) (qe : queuedEntry) : Prop :=
  is_log (q_entry qe) = true /\ le_Err (q_entry qe) = None /\ ts qe <> 0 /\
  exists r, rs !! q_semaphore qe = Some r /\ q_entry qe ∈ delivered r.

Definition received (rs : list stream_reader) : list ServiceLogEntry := concat (map delivered rs).

Record wf (m : LogMerger) (rs : list stream_reader) : Prop := {
  wf_heap : heap Less (queue m);
  wf_slots : slots m (extra rs);
  wf_agree : Forall2 agree (streams m) rs;
  wf_queued : forall qe, qe ∈ queue m -> queued_ok rs qe;
  wf_kept : logs_of (output m) ++ map q_entry (queue m) ≡ₚ logs_of (received rs);
  wf_above : watermark m <> 0 -> forall qe, qe ∈ queue m -> watermark m < ts qe }.

Lemma agree_released out ss rs : Forall2 agree ss rs -> Forall2 agree (released out ss) rs.
Proof.
  intros H. apply Forall2_lookup. intros i. unfold released. rewrite list_lookup_imap.
  pose proof (proj1 (Forall2_lookup _ _ _) H i) as Hi. inversion Hi as [s r (H1 & H2 & H3)|]; simpl; constructor.
  split_and!; simpl; [done|done|lia].
Qed.

Lemma logs_of_app l1 l2 : logs_of (l1 ++ l2) = logs_of l1 ++ logs_of l2.
Proof. apply List.filter_app. Qed.

#[global] Instance logs_of_proper : Proper ((≡ₚ) ==> (≡ₚ)) logs_of.
Proof.
  intros l1 l2 H. unfold logs_of. induction H as [| | |]; simpl; repeat case_match; try done.
  - by f_equiv.
  - by apply Permutation_swap.
  - by etrans.
Qed.

Lemma logs_of_queued rs q : (forall qe, qe ∈ q -> queued_ok rs qe) -> logs_of (map q_entry q) = map q_entry q.
Proof.
  induction q as [|qe q IH]; intros H; simpl; [done|].
  destruct (H qe ltac:(set_solver)) as (Hl & He & _). unfold counted at 1. rewrite He, Hl.
  f_equal. apply IH. set_solver.
Qed.

(** Draining changes neither the bookkeeping nor what has been kept. *)
Lemma kept_drained rs out m m' l :
  drained out m m' -> (forall qe, qe ∈ queue m -> queued_ok rs qe) ->
  logs_of (output m) ++ map q_entry (queue m) ≡ₚ l ->
  logs_of (output m') ++ map q_entry (queue m') ≡ₚ l.
Proof.
  intros [Q _ O _ _ _ _ _ _] Hq <-. rewrite O, logs_of_app, Q, map_app, <- app_assoc.
  rewrite (logs_of_queued rs out); [done|]. intros qe Hqe. apply Hq. rewrite Q. set_solver.
Qed.

(** ** Moves of a reader *)
Lemma moved_lookup i r rs d r0 j :
  rs !! i = Some (mkReader d r0) ->
  moved i r rs !! j = if decide (i = j) then Some (mkReader d r) else rs !! j.
Proof.
  intros Hi. unfold moved. destruct (decide (i = j)) as [<-|Hne].
  - by rewrite list_lookup_alter_eq, Hi.
  - by rewrite list_lookup_alter_ne.
Qed.

Lemma delivering_lookup i e rs d r0 j :
  rs !! i = Some (mkReader d r0) ->
  delivering i e rs !! j = if decide (i = j) then Some (mkReader (d ++ [e]) Receiving) else rs !! j.
Proof.
  intros Hi. unfold delivering. destruct (decide (i = j)) as [<-|Hne].
  - by rewrite list_lookup_alter_eq, Hi.
  - by rewrite list_lookup_alter_ne.
Qed.

Lemma map_alter_same {A B} (g : A -> B) f (l : list A) i :
  (forall x, g (f x) = g x) -> map g (alter f i l) = map g l.
Proof.
  intros Hg. apply list_eq. intros j. rewrite !list_lookup_fmap.
  destruct (decide (i = j)) as [->|Hne].
  - rewrite list_lookup_alter_eq. destruct (l !! j); simpl; by rewrite ?Hg.
  - by rewrite list_lookup_alter_ne.
Qed.

Lemma received_moved i r rs : received (moved i r rs) = received rs.
Proof. unfold received, moved. by rewrite map_alter_same. Qed.

Lemma received_delivering i e rs r :
  rs !! i = Some r -> received (delivering i e rs) ≡ₚ received rs ++ [e].
Proof.
  unfold received, delivering. revert i. induction rs as [|r0 rs IH]; intros [|i] H; simpl in *; [done|done| |].
  - injection H as ->. rewrite <- !app_assoc. f_equiv. apply Permutation_app_comm.
  - rewrite (IH i H). by rewrite app_assoc.
Qed.

Lemma queued_ok_moved i r rs qe : queued_ok rs qe -> queued_ok (moved i r rs) qe.
Proof.
  intros (Hl & He & Ht & [d r0] & Hr & Hin). split_and!; [done..|]. simpl in Hin.
  destruct (decide (i = q_semaphore qe)) as [->|Hne].
  - exists (mkReader d r). by rewrite (moved_lookup _ _ _ d r0), decide_True.
  - exists (mkReader d r0). unfold moved. by rewrite list_lookup_alter_ne.
Qed.

Lemma queued_ok_delivering i e rs d r0 qe :
  rs !! i = Some (mkReader d r0) ->
  queued_ok rs qe \/ qe = mkQueued e i /\ is_log e = true /\ immediate e = false ->
  queued_ok (delivering i e rs) qe.
Proof.
  intros Hi [(Hl & He & Ht & r & Hr & Hin)|(-> & Hl & Him)].
  - split_and!; [done..|]. rewrite (delivering_lookup _ _ _ d r0) by done.
    destruct (decide (i = q_semaphore qe)) as [E|Hne]; [|by exists r].
    rewrite <- E, Hi in Hr. injection Hr as <-. eexists; split; [done|]. simpl in *. set_solver.
  - unfold immediate in Him. destruct (le_Err e) eqn:He; [done|]. rewrite Hl in Him. simpl in Him.
    split_and!; [done|done|by apply Z.eqb_neq|]. rewrite (delivering_lookup _ _ _ d r0) by done. simpl.
    rewrite decide_True by done. eexists; split; [done|]. simpl. set_solver.
Qed.

Lemma wf_moved m rs i d r0 r :
  wf m rs -> rs !! i = Some (mkReader d r0) ->
  is_sending r0 = is_sending r -> (r0 = Done <-> r = Done) -> wf m (moved i r rs).
Proof.
  intros [Hh Hs Ha Hq Hk Hw] Hi Hr Hd. constructor; [done| | | | |done].
  - eapply slots_ext; [|done]. intros j _. unfold extra. rewrite (moved_lookup _ _ _ d r0) by done.
    destruct (decide (i = j)) as [<-|]; [|done]. rewrite Hi. unfold extra_of. simpl. by rewrite Hr.
  - unfold moved. apply Forall2_alter_r; [done|]. intros s r' _ Hr' (H1 & H2 & H3).
    rewrite Hi in Hr'. injection Hr' as <-. simpl in *. split_and!; [done| |done]. simpl. by rewrite H2.
  - intros qe Hqe. by apply queued_ok_moved, Hq.
  - by rewrite received_moved.
Qed.

Lemma agree_arrive now i e m rs d :
  Forall2 agree (streams m) rs -> rs !! i = Some (mkReader d (Sending e)) ->
  Forall2 agree (streams (arrive now i e m)) (delivering i e rs).
Proof.
  intros Ha Hi.
  assert (Hsame : forall f,
    (forall s, agree s (mkReader d (Sending e)) -> agree (f s) (mkReader (d ++ [e]) Receiving)) ->
    Forall2 agree (alter f i (streams m)) (delivering i e rs)).
  { intros f Hf. apply Forall2_alter; [done|]. intros s r _ Hr Hag.
    rewrite Hi in Hr. injection Hr as <-. by apply Hf. }
  unfold arrive. destruct (le_Err e) eqn:He.
  - apply Hsame. intros s (H1 & H2 & H3). unfold agree in *. simpl in *. rewrite latest_app, He.
    split_and!; [done|naive_solver|done].
  - assert (streams (update i (see (le_Timestamp e)) (update i (touch now e) m)) =
      alter (fun s => see (le_Timestamp e) (touch now e s)) i (streams m)) as ->.
    { simpl. apply list_eq. intros j. destruct (decide (i = j)) as [->|].
      - rewrite !list_lookup_alter_eq. by destruct (streams m !! j).
      - by rewrite !list_lookup_alter_ne. }
    apply Hsame. intros s (H1 & H2 & H3). unfold agree in *. simpl in *. rewrite latest_app, He, <- H1.
    split_and!; [|naive_solver|done]. destruct (Z.ltb_spec (lastSeen s) (le_Timestamp e)); lia.
Qed.

Lemma agree_give_back i ss rs : Forall2 agree ss rs -> Forall2 agree (alter give_back i ss) rs.
Proof.
  intros H. apply Forall2_alter_l; [done|]. intros s r _ _ (H1 & H2 & H3). split_and!; [done..|].
  simpl. lia.
Qed.

Lemma logs_of_one e : logs_of [e] = if counted e then [e] else [].
Proof. unfold logs_of. simpl. by destruct (counted e). Qed.

(** ** The steps of the merging goroutine *)
Lemma extra_deliver i e rs d j :
  rs !! i = Some (mkReader d (Sending e)) ->
  (if leaks e then extra rs else less_one i (extra rs)) j = extra (delivering i e rs) j.
Proof.
  intros Hi. unfold extra at 3. rewrite (delivering_lookup _ _ _ d (Sending e)) by done.
  assert (Hcase : (if leaks e then extra rs else less_one i (extra rs)) j =
    if leaks e then extra rs j else less_one i (extra rs) j) by (by destruct (leaks e)).
  rewrite Hcase. unfold less_one. destruct (decide (i = j)) as [<-|Hne].
  - unfold extra. rewrite Hi, Nat.eqb_refl. unfold extra_of, leaked. simpl.
    rewrite List.filter_app, length_app. simpl. destruct (leaks e); simpl; lia.
  - destruct (Nat.eqb_spec i j) as [|_]; [done|]. by destruct (leaks e).
Qed.

Lemma enqueue_queue i e m :
  queue (enqueue i e m) ≡ₚ (if is_log e then [mkQueued e i] else []) ++ queue m.
Proof. unfold enqueue. destruct (is_log e); simpl; [apply heap_push_perm|done]. Qed.
Lemma enqueue_streams i e m : streams (enqueue i e m) = streams m.
Proof. unfold enqueue. by destruct (is_log e). Qed.
Lemma enqueue_output i e m : output (enqueue i e m) = output m.
Proof. unfold enqueue. by destruct (is_log e). Qed.
Lemma enqueue_watermark i e m : watermark (enqueue i e m) = watermark m.
Proof. unfold enqueue. by destruct (is_log e). Qed.

Lemma not_log_beat e : is_heartbeat e = true -> is_log e = false.
Proof. unfold is_heartbeat, is_log. intros H%bool_decide_eq_true. by rewrite H. Qed.

Lemma counted_log e : le_Err e = None -> counted e = is_log e.
Proof. unfold counted. by intros ->. Qed.

Lemma immediate_Err e : immediate e = false -> le_Err e = None.
Proof. unfold immediate. by destruct (le_Err e). Qed.

Lemma heartbeat_logs e m :
  immediate e = false -> is_heartbeat e = true -> logs_of (output (heartbeat e m)) = logs_of (output m).
Proof.
  intros Him Hb. unfold heartbeat. destruct (_ <=? _); [|done]. simpl. rewrite logs_of_app, logs_of_one.
  rewrite counted_log by (simpl; by apply immediate_Err).
  replace (is_log _) with (is_log e) by done. by rewrite not_log_beat, app_nil_r.
Qed.

(** What the entries of a merging step become: queued, sent, or dropped. *)
Lemma kept_merged i e m rs d out m1 :
  wf m rs -> rs !! i = Some (mkReader d (Sending e)) -> immediate e = false ->
  forall now, drained out (updateWatermark (enqueue i e (arrive now i e m))) m1 ->
  (forall qe, qe ∈ queue m1 -> queued_ok (delivering i e rs) qe) /\
  logs_of (output m1) ++ map q_entry (queue m1) ≡ₚ logs_of (received (delivering i e rs)).
Proof.
  intros [Hh Hs Ha Hq Hk Hw] Hi Him now Hd.
  assert (Hok : forall qe, qe ∈ queue (updateWatermark (enqueue i e (arrive now i e m))) ->
    queued_ok (delivering i e rs) qe).
  { intros qe. simpl. rewrite enqueue_queue, arrive_queue. intros Hqe.
    apply (queued_ok_delivering _ _ _ d (Sending e)); [done|].
    apply elem_of_app in Hqe as [Hqe|Hqe]; [|by left; apply Hq]. right.
    destruct (is_log e); [|by apply not_elem_of_nil in Hqe]. by apply list_elem_of_singleton in Hqe as ->. }
  split.
  - intros qe Hqe. apply Hok. rewrite (dr_queue _ _ _ Hd). set_solver.
  - apply (kept_drained (delivering i e rs) out _ m1 _ Hd Hok). simpl.
    rewrite enqueue_output, arrive_output, enqueue_queue, arrive_queue.
    rewrite (received_delivering i e rs _ Hi), logs_of_app, <- Hk, logs_of_one, counted_log by by apply immediate_Err.
    destruct (is_log e); simpl; [|by rewrite app_nil_r]. rewrite <- app_assoc. f_equiv. apply Permutation_cons_append.
Qed.

Lemma wf_deliver now i e m rs d m' :
  wf m rs -> rs !! i = Some (mkReader d (Sending e)) ->
  handle_event now i (Some e) m = Some m' -> handled now i e m m' /\ wf m' (delivering i e rs).
Proof.
  intros Hwf Hi Hev. pose proof Hwf as [Hh Hs Ha Hq Hk Hw].
  assert (Hil : (i < length (streams m))%nat).
  { rewrite (Forall2_length _ _ _ Ha). by apply lookup_lt_Some in Hi. }
  assert (Hx : (0 < extra rs i)%nat) by (unfold extra; rewrite Hi; unfold extra_of; simpl; lia).
  destruct (handle_entry now i e m (extra rs) Hh Hs Hil Hx) as (m'' & Hev' & Hhd & Hs' & Hh').
  rewrite Hev in Hev'. injection Hev' as <-. split; [done|].
  assert (Hs'' : slots m' (extra (delivering i e rs))).
  { eapply slots_ext; [|done]. intros j _. by apply (extra_deliver i e rs d). }
  pose proof (agree_arrive now i e m rs d Ha Hi) as Haa.
  inversion Hhd as [Him|out m1 Him Hb Hd Ho Hr|out m1 Him Hb Hd Ho Hr]; subst; constructor; try done; simpl in *.
  - by apply agree_give_back.
  - rewrite arrive_queue. intros qe Hqe. apply (queued_ok_delivering _ _ _ d (Sending e)); [done|].
    left. by apply Hq.
  - rewrite arrive_queue, arrive_output, (received_delivering i e rs _ Hi), !logs_of_app, <- Hk.
    by rewrite <- !app_assoc, (Permutation_app_comm (logs_of [e])).
  - by rewrite arrive_watermark, arrive_queue.
  - rewrite (dr_streams _ _ _ Hd). apply agree_released. simpl. by rewrite enqueue_streams.
  - by apply (kept_merged i e m rs d out m' Hwf Hi Him now).
  - by apply (kept_merged i e m rs d out m' Hwf Hi Him now).
  - apply agree_give_back. rewrite heartbeat_streams, (dr_streams _ _ _ Hd). by apply agree_released.
  - rewrite heartbeat_queue. apply (kept_merged i e m rs d out m1 Hwf Hi Him now).
    unfold enqueue. by rewrite not_log_beat.
  - rewrite heartbeat_queue. assert (logs_of (output (heartbeat e m1)) = logs_of (output m1)) as ->.
    { by apply heartbeat_logs. }
    apply (kept_merged i e m rs d out m1 Hwf Hi Him now). unfold enqueue. by rewrite not_log_beat.
  - by rewrite heartbeat_watermark, heartbeat_queue.
Qed.

(** Draining keeps a well-formed state well-formed. *)
Lemma wf_drained out m m' rs :
  drained out m m' -> heap Less (queue m) -> slots m (extra rs) -> Forall2 agree (streams m) rs ->
  (forall qe, qe ∈ queue m -> queued_ok rs qe) ->
  logs_of (output m) ++ map q_entry (queue m) ≡ₚ logs_of (received rs) ->
  (watermark m' <> 0 -> forall qe, qe ∈ queue m' -> watermark m' < ts qe) -> wf m' rs.
Proof.
  intros Hd Hh Hs Ha Hq Hk Hw. constructor; [apply Hd| | | | |done].
  - by apply (slots_drained out m).
  - rewrite (dr_streams _ _ _ Hd). by apply agree_released.
  - intros qe Hqe. apply Hq. rewrite (dr_queue _ _ _ Hd). set_solver.
  - by apply (kept_drained rs out m).
Qed.

Lemma wf_close now i m rs d m' :
  wf m rs -> rs !! i = Some (mkReader d Closing) -> handle_event now i None m = Some m' ->
  (exists out, drained out (updateWatermark (update i close_stream (update i (touch now zero_entry) m))) m' /\
     forall y, y ∈ out -> ts y <= watermark m') /\ wf m' (moved i Done rs).
Proof.
  intros [Hh Hs Ha Hq Hk Hw] Hi Hev.
  destruct (handle_close now i m (extra rs) Hh Hs) as (out & m'' & Hev' & Hd & Ho & Hr).
  rewrite Hev in Hev'. injection Hev' as <-. split; [by exists out|].
  apply (wf_drained out _ m' _ Hd); simpl; [done| | | |by rewrite received_moved|done].
  - apply (slots_ext _ (extra rs)).
    + intros j _. unfold extra. rewrite (moved_lookup _ _ _ d Closing) by done.
      destruct (decide (i = j)) as [<-|]; [|done]. by rewrite Hi.
    + by repeat apply slots_update.
  - apply Forall2_alter; [|].
    + by apply Forall2_alter_l; [done|]; intros s r _ _ (H1 & H2 & H3).
    + intros s r _ Hr' (H1 & H2 & H3). rewrite Hi in Hr'. injection Hr' as <-. split_and!; done.
  - intros qe Hqe. by apply queued_ok_moved, Hq.
Qed.

Lemma logs_of_stalled ss : logs_of (map stalled_entry ss) = [].
Proof. induction ss as [|s ss IH]; [done|exact IH]. Qed.

Lemma wf_tick now m rs m' :
  wf m rs -> stall_tick now m = Some m' ->
  (m' = m \/ exists e, e ∈ output m' /\ le_Err e = Some ErrLogStreamStalled) /\ wf m' rs.
Proof.
  intros Hwf Hev. pose proof Hwf as [Hh Hs Ha Hq Hk Hw].
  destruct (handle_tick now m (extra rs) Hh Hs) as [Hev'|(ss & out & m'' & Hne & Hev' & Hd & Hr)];
    rewrite Hev in Hev'; injection Hev' as <-; [by split; [left|]|].
  rewrite report_spec in Hd. split.
  - right. destruct ss as [|s ss]; [done|]. exists (stalled_entry s). split; [|done].
    rewrite (dr_output _ _ _ Hd). simpl. set_solver.
  - apply (wf_drained out _ m' _ Hd); simpl; [done| | |done| |done].
    + destruct Hs as [Ho Hs]. split; simpl; [by rewrite length_map|]. intros i s Hi.
      apply list_lookup_fmap_Some in Hi as (s0 & -> & Hi). rewrite <- (Hs i s0 Hi).
      unfold mark_stalled. by destruct (stalls now (stallTimeout m) s0).
    + apply Forall2_fmap_l. eapply Forall2_impl; [done|]. intros s r (H1 & H2 & H3).
      simpl. unfold mark_stalled. by destruct (stalls now (stallTimeout m) s).
    + rewrite logs_of_app. by rewrite logs_of_stalled, app_nil_r.
Qed.

Lemma wf_acquire i m rs d e s :
  wf m rs -> rs !! i = Some (mkReader d (Holding e)) -> streams m !! i = Some s ->
  (semaphore s < logMergerMaxInFlightPerStream)%nat ->
  wf (update i (fun s => with_semaphore s (S (semaphore s))) m) (moved i (Sending e) rs).
Proof.
  intros [Hh [Ho Hs] Ha Hq Hk Hw] Hi Hsi Hlt. constructor; simpl; [done| | | |by rewrite received_moved|done].
  - split; simpl; [by rewrite length_alter|]. intros j s' Hj. unfold extra.
    rewrite (moved_lookup _ _ _ d (Holding e)) by done. destruct (decide (i = j)) as [<-|Hne].
    + rewrite list_lookup_alter_eq, Hsi in Hj. injection Hj as <-. simpl. rewrite (Hs i s Hsi).
      unfold extra, extra_of. rewrite Hi. simpl. lia.
    + rewrite list_lookup_alter_ne in Hj by done. by apply Hs.
  - apply Forall2_alter; [done|]. intros s' r Hs' Hr (H1 & H2 & H3). rewrite Hi in Hr. injection Hr as <-.
    rewrite Hsi in Hs'. injection Hs' as <-. unfold agree in *. simpl in *. split_and!; [done|naive_solver|lia].
  - intros qe Hqe. by apply queued_ok_moved, Hq.
Qed.

Lemma wf_finish m rs m' :
  wf m rs -> flush (length (queue m)) m = Some m' ->
  (exists out, drained out m m') /\ queue m' = [] /\ wf m' rs.
Proof.
  intros [Hh Hs Ha Hq Hk Hw] Hev.
  destruct (flush_spec (length (queue m)) m Hh (slots_covered _ _ Hs) ltac:(lia)) as (out & m'' & Hev' & Hd & Hr).
  rewrite Hev in Hev'. injection Hev' as <-. split_and!; [by exists out|done|].
  apply (wf_drained out m m' _ Hd); try done. intros _ qe. rewrite Hr. by intros ?%not_elem_of_nil.
Qed.

Lemma wf_step l s s' : step l s s' -> wf (merger s) (readers s) -> wf (merger s') (readers s').
Proof.
  intros Hst Hwf. destruct Hst; simpl in *.
  - by eapply wf_moved.
  - by eapply wf_moved.
  - by eapply wf_acquire.
  - by eapply wf_deliver.
  - by eapply wf_close.
  - by eapply wf_tick.
  - by eapply wf_finish.
Qed.

Lemma wf_start count now opts : wf (merger (start count now opts)) (readers (start count now opts)).
Proof.
  constructor; simpl; try done.
  - split; simpl; [by intros qe ?%not_elem_of_nil|]. intros i s [-> Hi]%lookup_replicate. simpl.
    unfold extra. by rewrite lookup_replicate_2.
  - apply Forall2_replicate. unfold agree. simpl. split_and!; [done..|lia].
  - by intros qe ?%not_elem_of_nil.
  - unfold received. induction count as [|n IH]; [done|exact IH].
Qed.

Lemma wf_reachable count opts s : reachable count opts s -> wf (merger s) (readers s).
Proof. induction 1; [apply wf_start|by eapply wf_step]. Qed.

(** * Order *)
Definition dated (e : ServiceLogEntry) : bool :=
  match le_Err e with Some _ => false | None => negb (le_Timestamp e =? 0) end.
Definition timeline (l : list ServiceLogEntry) : list Z := map le_Timestamp (List.filter dated l).

(** The entries of a stream come in order, after the zero time. *)
Definition chronological (d : list ServiceLogEntry) : Prop :=
  StronglySorted Z.le (timeline d) /\ Forall (fun t => 0 < t) (timeline d).

Definition no_stall (m : LogMerger) : Prop :=
  forall e, e ∈ output m -> le_Err e <> Some ErrLogStreamStalled.

Lemma timeline_app l1 l2 : timeline (l1 ++ l2) = timeline l1 ++ timeline l2.
Proof. unfold timeline. by rewrite List.filter_app, map_app. Qed.

Lemma elem_of_timeline t l : t ∈ timeline l <-> exists e, e ∈ l /\ dated e = true /\ le_Timestamp e = t.
Proof.
  unfold timeline. rewrite list_elem_of_In, in_map_iff. setoid_rewrite List.filter_In.
  setoid_rewrite <- list_elem_of_In. naive_solver.
Qed.

Lemma timeline_queued rs q : (forall qe, qe ∈ q -> queued_ok rs qe) -> timeline (map q_entry q) = map (fun qe => ts qe) q.
Proof.
  induction q as [|qe q IH]; intros H; [done|]. destruct (H qe ltac:(set_solver)) as (_ & He & Ht & _).
  unfold timeline in *. simpl. unfold dated at 1. rewrite He. destruct (Z.eqb_spec (ts qe) 0); [done|]. simpl.
  f_equal. apply IH. set_solver.
Qed.

Lemma chronological_init d e : chronological (d ++ [e]) -> chronological d.
Proof.
  unfold chronological. rewrite timeline_app, Forall_app. intros [Hs [Hf _]].
  by apply StronglySorted_app in Hs as (_ & ? & _).
Qed.

(** The timestamps of a chronological stream never fall behind the latest one. *)
Lemma latest_chronological d e : chronological (d ++ [e]) -> dated e = true -> latest d <= le_Timestamp e.
Proof.
  intros [Hs Hf] He. rewrite timeline_app in Hs, Hf.
  assert (timeline [e] = [le_Timestamp e]) as Ht by (unfold timeline; simpl; by rewrite He).
  rewrite Ht in Hs, Hf. apply StronglySorted_app in Hs as (Hle & _ & _).
  apply Forall_app in Hf as [_ Hpos]. apply Forall_inv in Hpos.
  assert (forall t, t ∈ timeline d -> t <= le_Timestamp e) as Hd by (intros t Ht'; apply Hle; set_solver).
  clear -Hd Hpos. induction d as [|x d IH] using rev_ind; [unfold latest; simpl; lia|].
  rewrite latest_app. assert (latest d <= le_Timestamp e) as Hl.
  { apply IH. intros t Ht. apply Hd. rewrite timeline_app. set_solver. }
  destruct (le_Err x) eqn:Hx; [done|]. apply Z.max_lub; [done|].
  destruct (Z.eqb_spec (le_Timestamp x) 0) as [->|Hne]; [lia|].
  apply Hd, elem_of_timeline. exists x. split; [set_solver|]. unfold dated. rewrite Hx.
  split; [|done]. by destruct (Z.eqb_spec (le_Timestamp x) 0).
Qed.

Lemma latest_nonneg d : 0 <= latest d.
Proof.
  induction d as [|e d IH] using rev_ind; [done|]. rewrite latest_app. destruct (le_Err e); [done|lia].
Qed.

(** ** The watermark is the earliest [lastSeen] of the active streams *)
Definition active (s : mergerStream) : Prop := closed s = false /\ stalled s = false.

Lemma active_test s : closed s || stalled s = false <-> active s.
Proof. unfold active. destruct (closed s), (stalled s); naive_solver. Qed.

Lemma low_watermark_rest w ss :
  let r := low_watermark false w ss in
  r <= w /\ (forall s, s ∈ ss -> active s -> r <= lastSeen s) /\
  (r = w \/ exists s, s ∈ ss /\ active s /\ r = lastSeen s).
Proof.
  revert w. induction ss as [|s ss IH]; intros w; cbn zeta; simpl.
  - split_and!; [lia|by intros s ?%not_elem_of_nil|by left].
  - destruct (closed s || stalled s) eqn:Hs.
    + destruct (IH w) as (H1 & H2 & H3). split_and!; [done| |set_solver].
      intros s' [->|Hs']%elem_of_cons Ha; [|by apply H2]. apply active_test in Ha. congruence.
    + apply active_test in Hs. destruct (Z.ltb_spec (lastSeen s) w).
      * destruct (IH (lastSeen s)) as (H1 & H2 & H3). split_and!; [lia| |].
        -- intros s' [->|Hs']%elem_of_cons Ha; [done|by apply H2].
        -- right. destruct H3 as [H3|(s' & ? & ? & ?)]; [exists s|exists s']; set_solver.
      * destruct (IH w) as (H1 & H2 & H3). split_and!; [done| |set_solver].
        intros s' [->|Hs']%elem_of_cons Ha; [lia|by apply H2].
Qed.

Lemma low_watermark_spec w ss :
  let r := low_watermark true w ss in
  ((forall s, s ∈ ss -> ~ active s) /\ r = w) \/
  (exists s, s ∈ ss /\ active s /\ r = lastSeen s) /\ (forall s, s ∈ ss -> active s -> r <= lastSeen s).
Proof.
  induction ss as [|s ss IH]; cbn zeta; simpl; [left; split; [by intros s ?%not_elem_of_nil|done]|].
  destruct (closed s || stalled s) eqn:Hs; simpl.
  - destruct IH as [[H1 H2]|[(s' & ? & ? & ?) H2]]; [left|right]; split; try done.
    + intros s' [->|Hs']%elem_of_cons Ha; [|by apply (H1 s')]. apply active_test in Ha. congruence.
    + exists s'. set_solver.
    + intros s'' [->|Hs']%elem_of_cons Ha; [|by apply H2]. apply active_test in Ha. congruence.
  - apply active_test in Hs. destruct (low_watermark_rest (lastSeen s) ss) as (H1 & H2 & H3). right. split.
    + destruct H3 as [H3|(s' & ? & ? & ?)]; [exists s|exists s']; set_solver.
    + intros s' [->|Hs']%elem_of_cons Ha; [done|by apply H2].
Qed.

(** ** Without stalls the watermark is exact and never decreases *)
Definition view (s : mergerStream) : Z * bool * bool := (lastSeen s, closed s, stalled s).
Definition views (m : LogMerger) : list (Z * bool * bool) := map view (streams m).

Definition tight (w : Z) (vs : list (Z * bool * bool)) : Prop :=
  (forall t c st, (t, c, st) ∈ vs -> st = false) /\ 0 <= w /\
  (forall t st, (t, false, st) ∈ vs -> w <= t) /\
  ((exists t st, (t, false, st) ∈ vs) -> exists t st, (t, false, st) ∈ vs /\ t <= w).

Lemma elem_of_views m t c st :
  (t, c, st) ∈ views m <-> exists s, s ∈ streams m /\ lastSeen s = t /\ closed s = c /\ stalled s = st.
Proof. unfold views. rewrite list_elem_of_fmap. unfold view. naive_solver. Qed.

Lemma views_released out m m' : streams m' = released out (streams m) -> views m' = views m.
Proof.
  intros H. unfold views. rewrite H. apply list_eq. intros i. unfold released.
  rewrite !list_lookup_fmap, list_lookup_imap. by destruct (streams m !! i).
Qed.

Lemma views_give_back i m : views (update i give_back m) = views m.
Proof. unfold views. simpl. by rewrite map_alter_same. Qed.

(** The streams of [m'] come from those of [m] and have seen no less. *)
Definition grown (m m' : LogMerger) : Prop :=
  forall s', s' ∈ streams m' -> exists s, s ∈ streams m /\
    (closed s' = false -> closed s = false) /\ lastSeen s <= lastSeen s' /\ (stalled s = false -> stalled s' = false).

Lemma elem_of_alter {A} (f : A -> A) (i : nat) (l : list A) x : x ∈ alter f i l -> x ∈ l \/ exists y, y ∈ l /\ x = f y.
Proof.
  intros [j Hj]%list_elem_of_lookup_1. destruct (decide (i = j)) as [->|Hne].
  - rewrite list_lookup_alter_eq in Hj. destruct (l !! j) as [y|] eqn:Hy; [|done]. injection Hj as <-.
    right. exists y. split; [|done]. by eapply list_elem_of_lookup_2.
  - rewrite list_lookup_alter_ne in Hj by done. left. by eapply list_elem_of_lookup_2.
Qed.

Lemma grown_refl m : grown m m.
Proof. intros s Hs. exists s. split_and!; [done|done|lia|done]. Qed.

Lemma grown_update i f m m0 :
  (forall s, (closed (f s) = false -> closed s = false) /\ lastSeen s <= lastSeen (f s) /\
     (stalled s = false -> stalled (f s) = false)) ->
  grown m0 m -> grown m0 (update i f m).
Proof.
  intros Hf Hg s' [Hs'|(s & Hs & ->)]%elem_of_alter; [by apply Hg|].
  destruct (Hg s Hs) as (s0 & Hs0 & H1 & H2 & H3). destruct (Hf s) as (F1 & F2 & F3).
  exists s0. split_and!; [done|auto|lia|auto].
Qed.

Lemma grown_arrive now i e m : grown m (arrive now i e m).
Proof.
  unfold arrive. destruct (le_Err e); repeat apply grown_update; try apply grown_refl; intros s; simpl;
    split_and!; try done; try lia. destruct (Z.ltb_spec (lastSeen s) (le_Timestamp e)); lia.
Qed.

Lemma tight_updated m m1 :
  tight (watermark m) (views m) -> grown m m1 -> watermark m1 = watermark m ->
  tight (watermark (updateWatermark m1)) (views m1) /\ watermark m <= watermark (updateWatermark m1).
Proof.
  intros (T1 & T2 & T3 & T4) Hg Hw. simpl.
  assert (Hns : forall s, s ∈ streams m1 -> stalled s = false).
  { intros s Hs. destruct (Hg s Hs) as (s0 & Hs0 & _ & _ & H). apply H.
    eapply T1, elem_of_views. by exists s0. }
  assert (Hlow : forall s, s ∈ streams m1 -> closed s = false -> watermark m <= lastSeen s).
  { intros s Hs Hc. destruct (Hg s Hs) as (s0 & Hs0 & Hc0 & Hl & _). etrans; [|done].
    eapply T3, elem_of_views. exists s0. split_and!; auto. }
  destruct (low_watermark_spec (watermark m1) (streams m1)) as [[Hno ->]|[(s & Hs & [Hc Hst] & Heq) Hmin]].
  - rewrite Hw. split; [|lia]. split_and!; [|done| |].
    + intros t c st (s & Hs & _ & _ & <-)%elem_of_views. by apply Hns.
    + intros t st (s & Hs & <- & Hc & _)%elem_of_views. by apply Hlow.
    + intros (t & st & (s & Hs & _ & Hc & _)%elem_of_views). destruct (Hno s Hs). split; [done|by apply Hns].
  - rewrite Heq. split; [|by apply Hlow]. split_and!.
    + intros t c st (s' & Hs' & _ & _ & <-)%elem_of_views. by apply Hns.
    + etrans; [apply T2|by apply Hlow].
    + intros t st (s' & Hs' & <- & Hc' & _)%elem_of_views. rewrite <- Heq. apply Hmin; [done|].
      split; [done|by apply Hns].
    + intros _. exists (lastSeen s), false. split; [|lia]. apply elem_of_views. by exists s.
Qed.

Lemma views_immediate now i e m rs :
  immediate e = true -> tight (watermark m) (views m) -> Forall2 agree (streams m) rs ->
  views (arrive now i e m) = views m.
Proof.
  intros Him (T1 & _) Ha.
  assert (Hpos : forall s, s ∈ streams m -> 0 <= lastSeen s /\ stalled s = false).
  { intros s Hs. split; [|eapply T1, elem_of_views; by exists s].
    apply list_elem_of_lookup_1 in Hs as [j Hj].
    destruct (Forall2_lookup_l _ _ _ _ _ Ha Hj) as (r & _ & -> & _). apply latest_nonneg. }
  assert (Htouch : forall s, s ∈ streams m -> view (touch now e s) = view s).
  { intros s Hs. destruct (Hpos s Hs) as [_ Hst]. unfold view. simpl. by rewrite Hst. }
  assert (Hview : forall f, (forall s, s ∈ streams m -> view (f s) = view s) ->
    map view (alter f i (streams m)) = map view (streams m)).
  { intros f Hf. apply list_eq. intros j. rewrite !list_lookup_fmap. destruct (decide (i = j)) as [->|].
    - rewrite list_lookup_alter_eq. destruct (streams m !! j) as [s|] eqn:Hj; [|done]. simpl.
      by rewrite Hf by by eapply list_elem_of_lookup_2.
    - by rewrite list_lookup_alter_ne. }
  unfold views, arrive, immediate in *. destruct (le_Err e); [by apply Hview|].
  apply andb_true_iff in Him as [_ Hz%Z.eqb_eq]. rewrite <- (Hview _ Htouch). simpl.
  apply list_eq. intros j. rewrite !list_lookup_fmap. destruct (decide (i = j)) as [->|];
    [|by rewrite list_lookup_alter_ne]. rewrite !list_lookup_alter_eq.
  destruct (streams m !! j) as [s|] eqn:Hj; [|done]. simpl. f_equal. unfold view, see, touch. simpl.
  rewrite Hz. destruct (Hpos s) as [Hl _]; [by eapply list_elem_of_lookup_2|].
  by destruct (Z.ltb_spec (lastSeen s) 0); [lia|].
Qed.

(** The output only grows. *)
Lemma output_grows l s s' :
  wf (merger s) (readers s) -> step l s s' -> exists more, output (merger s') = output (merger s) ++ more.
Proof.
  intros Hwf Hst. destruct Hst as [| | |m rs i d e now m' Hi Hev|m rs i d now m' Hi Hev|m rs now m' _ _ Hev|m rs m' _ Hev];
    simpl in *; try (exists []; by rewrite app_nil_r).
  - apply (wf_deliver now i e m rs d m' Hwf Hi) in Hev as [Hhd _].
    inversion Hhd as [Him|out m1 Him Hb Hd|out m1 Him Hb Hd]; subst; simpl.
    + rewrite arrive_output. by eexists.
    + rewrite (dr_output _ _ _ Hd). simpl. rewrite enqueue_output, arrive_output. by eexists.
    + unfold heartbeat. destruct (_ <=? _); simpl; rewrite (dr_output _ _ _ Hd); simpl;
        rewrite arrive_output, <- ?app_assoc; by eexists.
  - apply (wf_close now i m rs d m' Hwf Hi) in Hev as [(out & Hd & _) _]. rewrite (dr_output _ _ _ Hd). by eexists.
  - destruct Hwf as [Hh Hs _ _ _ _].
    destruct (handle_tick now m (extra rs) Hh Hs) as [Hev'|(ss & out & m'' & _ & Hev' & Hd & _)];
      rewrite Hev in Hev'; injection Hev' as <-; [exists []; by rewrite app_nil_r|].
    rewrite (dr_output _ _ _ Hd). simpl. rewrite report_spec. simpl. rewrite <- app_assoc. by eexists.
  - destruct (wf_finish m rs m' Hwf Hev) as [[out Hd] _]. rewrite (dr_output _ _ _ Hd). by eexists.
Qed.

Lemma no_stall_before l s s' :
  wf (merger s) (readers s) -> step l s s' -> no_stall (merger s') -> no_stall (merger s).
Proof.
  intros Hwf Hst Hns e He. destruct (output_grows l s s' Hwf Hst) as [more Ho].
  apply Hns. rewrite Ho. set_solver.
Qed.

Lemma tight_drained out m m' : drained out m m' -> tight (watermark m) (views m) -> tight (watermark m') (views m').
Proof. intros Hd. by rewrite (dr_watermark _ _ _ Hd), (views_released out m m') by apply Hd. Qed.

Lemma grown_enqueue i e m0 m : grown m0 m -> grown m0 (enqueue i e m).
Proof. intros Hg s. rewrite enqueue_streams. apply Hg. Qed.

Definition tight_merger (m : LogMerger) : Prop := tight (watermark m) (views m).

(** A delivered entry keeps the watermark exact, and raises it if anything. *)
Lemma tight_handled now i e m rs m' :
  wf m rs -> tight_merger m -> handled now i e m m' -> tight_merger m' /\ watermark m <= watermark m'.
Proof.
  intros Hwf Ht Hh. unfold tight_merger in *.
  assert (Hmerge : forall out m1, drained out (updateWatermark (enqueue i e (arrive now i e m))) m1 ->
    tight (watermark m1) (views m1) /\ watermark m <= watermark m1).
  { intros out m1 Hd. destruct (tight_updated m (enqueue i e (arrive now i e m))) as [Ht' Hw]; [done| | |].
    - apply grown_enqueue, grown_arrive.
    - by rewrite enqueue_watermark, arrive_watermark.
    - split; [by apply (tight_drained out _ m1 Hd)|by rewrite (dr_watermark _ _ _ Hd)]. }
  inversion Hh as [Him|out m1 Him Hb Hd|out m1 Him Hb Hd]; subst.
  - assert (views (emit e (arrive now i e m)) = views m) as Hv
      by (change (views (arrive now i e m) = views m); apply (views_immediate now i e m rs Him Ht), Hwf).
    rewrite views_give_back, Hv. simpl. rewrite arrive_watermark. split; [done|lia].
  - by apply (Hmerge out).
  - rewrite views_give_back. unfold views. rewrite heartbeat_streams. simpl. rewrite heartbeat_watermark.
    apply (Hmerge out). unfold enqueue. by rewrite not_log_beat.
Qed.

Lemma tight_closed now i m out m' :
  tight_merger m ->
  drained out (updateWatermark (update i close_stream (update i (touch now zero_entry) m))) m' ->
  tight_merger m' /\ watermark m <= watermark m'.
Proof.
  intros Ht Hd. unfold tight_merger in *.
  destruct (tight_updated m (update i close_stream (update i (touch now zero_entry) m))) as [Ht' Hw]; [done| |done|].
  - repeat apply grown_update; try apply grown_refl; intros s; simpl; split_and!; try done; try lia.
  - split; [by apply (tight_drained out _ m' Hd)|by rewrite (dr_watermark _ _ _ Hd)].
Qed.

Lemma tight_start count now opts : tight_merger (NewLogMerger count now opts).
Proof.
  unfold tight_merger. simpl. split_and!; [|done| |].
  - by intros t c st (s & [-> _]%elem_of_replicate & _ & _ & <-)%elem_of_views.
  - by intros t st (s & [-> _]%elem_of_replicate & <- & _)%elem_of_views.
  - intros (t & st & (s & Hs & Hl & Hc & Hst)%elem_of_views). exists t, st.
    split; [apply elem_of_views; by exists s|]. simpl in Hs. apply elem_of_replicate in Hs as [-> _]. by rewrite <- Hl.
Qed.

(** Acquiring a slot changes no view. *)
Lemma views_acquire i m : views (update i (fun s => with_semaphore s (S (semaphore s))) m) = views m.
Proof. unfold views. simpl. by rewrite map_alter_same. Qed.

Lemma tight_reachable count opts s : reachable count opts s -> no_stall (merger s) -> tight_merger (merger s).
Proof.
  induction 1 as [now|l s s' Hr IH Hst]; [intros _; apply tight_start|]. intros Hns.
  pose proof (wf_reachable _ _ _ Hr) as Hwf.
  specialize (IH (no_stall_before l s s' Hwf Hst Hns)).
  destruct Hst as [| | |m rs i d e now m' Hi Hev|m rs i d now m' Hi Hev|m rs now m' _ _ Hev|m rs m' _ Hev];
    simpl in *; try done.
  - unfold tight_merger in *. by rewrite views_acquire.
  - apply (wf_deliver now i e m rs d m' Hwf Hi) in Hev as [Hhd _]. by apply (tight_handled now i e m rs m').
  - apply (wf_close now i m rs d m' Hwf Hi) in Hev as [(out & Hd & _) _]. by apply (tight_closed now i m out m').
  - apply (wf_tick now m rs m' Hwf) in Hev as [[->|(e & He & Hst)] _]; [done|by destruct (Hns e He)].
  - destruct (wf_finish m rs m' Hwf Hev) as [[out Hd] _]. by apply (tight_drained out m).
Qed.

(** ** The output is in order *)
Definition all_chronological (rs : list stream_reader) : Prop := forall r, r ∈ rs -> chronological (delivered r).

Definition ordered (m : LogMerger) (fin : bool) : Prop :=
  StronglySorted Z.le (timeline (output m)) /\
  (fin = false -> forall t, t ∈ timeline (output m) -> t <= watermark m).

Lemma queue_not_before m rs :
  wf m rs -> tight_merger m -> all_chronological rs -> forall qe, qe ∈ queue m -> watermark m <= ts qe.
Proof.
  intros Hwf (_ & Hw & _) Hc qe Hqe. destruct (Z.eq_dec (watermark m) 0) as [E|Hne].
  - destruct (wf_queued _ _ Hwf qe Hqe) as (_ & He & Ht & r & Hr & Hin).
    destruct (Hc r) as [_ Hpos]; [by eapply list_elem_of_lookup_2|]. rewrite E. apply Z.lt_le_incl.
    rewrite Forall_forall in Hpos. apply Hpos, elem_of_timeline. exists (q_entry qe). split_and!; [done| |done].
    unfold dated. rewrite He. by destruct (Z.eqb_spec (ts qe) 0).
  - apply Z.lt_le_incl. by apply (wf_above _ _ Hwf).
Qed.

Lemma StronglySorted_map_ts (l : list queuedEntry) :
  StronglySorted (fun x y => ts x <= ts y) l -> StronglySorted Z.le (map (fun qe => ts qe) l).
Proof.
  induction 1 as [|x l Hs IH Hx]; simpl; constructor; [done|]. by apply Forall_fmap.
Qed.

Lemma ordered_drained w out m m1 rs :
  drained out m m1 ->
  (forall qe, qe ∈ queue m -> queued_ok rs qe /\ w <= ts qe) ->
  StronglySorted Z.le (timeline (output m)) -> (forall t, t ∈ timeline (output m) -> t <= w) ->
  StronglySorted Z.le (timeline (output m1)) /\
  forall t, t ∈ timeline (output m1) -> t <= w \/ exists x, x ∈ out /\ t = ts x.
Proof.
  intros Hd Hq Hs Hle.
  assert (Hout : forall qe, qe ∈ out -> queued_ok rs qe /\ w <= ts qe).
  { intros qe Hqe. apply Hq. rewrite (dr_queue _ _ _ Hd). set_solver. }
  rewrite (dr_output _ _ _ Hd), timeline_app, (timeline_queued rs out) by by intros; apply Hout. split.
  - apply StronglySorted_app. split_and!; [|done|apply StronglySorted_map_ts, Hd].
    intros x y Hx (qe & -> & Hqe)%list_elem_of_fmap. etrans; [by apply Hle|by apply Hout].
  - intros t [Ht|(qe & -> & Hqe)%list_elem_of_fmap]%elem_of_app; [left; by apply Hle|right; by exists qe].
Qed.

Lemma ordered_append m l w :
  ordered m false -> w = watermark m -> (forall t, t ∈ timeline l -> t = w) -> (length l <= 1)%nat ->
  StronglySorted Z.le (timeline (output m ++ l)) /\ (forall t, t ∈ timeline (output m ++ l) -> t <= w).
Proof.
  intros [Hs Hle] -> Hl Hlen. rewrite timeline_app. split.
  - apply StronglySorted_app. split_and!; [|done|].
    + intros x y Hx Hy. rewrite (Hl y Hy). by apply Hle.
    + destruct l as [|e [|]]; [constructor| |simpl in Hlen; lia].
      unfold timeline. simpl. destruct (dated e); simpl; repeat constructor.
  - intros t [Ht|Ht]%elem_of_app; [by apply Hle|]. by rewrite (Hl t Ht).
Qed.

Lemma ordered_merged now i e m rs d out m1 :
  wf m rs -> tight_merger m -> all_chronological rs -> ordered m false ->
  rs !! i = Some (mkReader d (Sending e)) -> chronological (d ++ [e]) -> immediate e = false ->
  drained out (updateWatermark (enqueue i e (arrive now i e m))) m1 ->
  (forall x, x ∈ out -> ts x <= watermark m1) -> watermark m <= watermark m1 -> ordered m1 false.
Proof.
  intros Hwf Ht Hc [Hs Hle] Hi Hce Him Hd Ho Hw.
  destruct (ordered_drained (watermark m) out _ m1 (delivering i e rs) Hd) as [Hs1 Hle1].
  - simpl. intros qe. rewrite enqueue_queue, arrive_queue. intros Hqe.
    assert (qe ∈ queue m \/ qe = mkQueued e i /\ is_log e = true) as Hor.
    { apply elem_of_app in Hqe as [Hqe|Hqe]; [right|by left].
      destruct (is_log e); [by apply list_elem_of_singleton in Hqe|by apply not_elem_of_nil in Hqe]. }
    split; [apply (queued_ok_delivering _ _ _ d (Sending e)); [done|]; destruct Hor as [?|[? ?]];
      [by left; apply (wf_queued _ _ Hwf)|by right]|].
    destruct Hor as [?|[-> Hl]]; [by eapply queue_not_before|]. simpl.
    assert (dated e = true) as Hde.
    { unfold immediate, dated in *. destruct (le_Err e); [done|]. rewrite Hl in Him. simpl in Him. by rewrite Him. }
    etrans; [|by apply (latest_chronological d)].
    destruct (Forall2_lookup_r _ _ _ _ _ (wf_agree _ _ Hwf) Hi) as (s & Hsi & Hl1 & Hl2 & _). simpl in *.
    rewrite <- Hl1. destruct Ht as (_ & _ & T3 & _). apply (T3 _ (stalled s)), elem_of_views.
    exists s. split_and!; [by eapply list_elem_of_lookup_2|done| |done]. destruct (closed s); [by destruct Hl2 as [Hl2 _]; specialize (Hl2 eq_refl)|done].
  - simpl. by rewrite enqueue_output, arrive_output.
  - simpl. rewrite enqueue_output, arrive_output. by apply Hle.
  - split; [done|]. intros _ t Ht1. destruct (Hle1 t Ht1) as [?|(x & Hx & ->)]; [lia|by apply Ho].
Qed.

Lemma ordered_handled now i e m rs d m' :
  wf m rs -> tight_merger m -> all_chronological rs -> ordered m false ->
  rs !! i = Some (mkReader d (Sending e)) -> chronological (d ++ [e]) ->
  handled now i e m m' -> ordered m' false.
Proof.
  intros Hwf Ht Hc Hord Hi Hce Hh. pose proof (proj2 (tight_handled _ _ _ _ _ _ Hwf Ht Hh)) as Hw.
  inversion Hh as [Him|out m1 Him Hb Hd Ho|out m1 Him Hb Hd Ho]; subst; simpl in *.
  - assert (timeline [e] = []) as Hnil.
    { unfold timeline, immediate, dated in *. simpl. destruct (le_Err e); [done|].
      by apply andb_true_iff in Him as [_ ->]. }
    unfold ordered. simpl. rewrite arrive_output, arrive_watermark, timeline_app, Hnil, app_nil_r. exact Hord.
  - by eapply ordered_merged.
  - rewrite heartbeat_watermark in Hw. assert (ordered m1 false) as Ho1.
    { eapply (ordered_merged now i e m rs d out m1); eauto. unfold enqueue. by rewrite not_log_beat. }
    unfold ordered. simpl. rewrite heartbeat_watermark. unfold heartbeat.
    destruct (_ <=? _); [|exact Ho1]. simpl.
    destruct (ordered_append m1 [mkEntry (le_Metadata e) (le_Stream e) (watermark m1) (le_Message e) (le_Err e)]
      (watermark m1) Ho1) as [H1 H2]; [done| |simpl; lia|done].
    intros t (x & ->%list_elem_of_singleton & _ & <-)%elem_of_timeline. done.
Qed.

Lemma all_chronological_lookup rs i r : all_chronological rs -> rs !! i = Some r -> chronological (delivered r).
Proof. intros H Hi. apply H. by eapply list_elem_of_lookup_2. Qed.

(** The entries delivered before a step are a prefix of those delivered after it. *)
Lemma chronological_before l s s' :
  step l s s' -> all_chronological (readers s') -> all_chronological (readers s).
Proof.
  assert (Hmv : forall rs i d r0 r, rs !! i = Some (mkReader d r0) ->
    all_chronological (moved i r rs) -> all_chronological rs).
  { intros rs i d r0 r Hi Hc x [j Hj]%list_elem_of_lookup_1. destruct (decide (i = j)) as [<-|Hne].
    - rewrite Hi in Hj. injection Hj as <-. apply (all_chronological_lookup _ i (mkReader d r) Hc).
      by rewrite (moved_lookup _ _ _ d r0), decide_True.
    - apply (all_chronological_lookup _ j x Hc). unfold moved. by rewrite list_lookup_alter_ne. }
  intros Hst Hc. destruct Hst; simpl in *; eauto.
  intros x [j Hj]%list_elem_of_lookup_1. destruct (decide (i = j)) as [<-|Hne].
  - rewrite H in Hj. injection Hj as <-. apply (chronological_init d e).
    apply (all_chronological_lookup _ i (mkReader (d ++ [e]) Receiving) Hc).
    by rewrite (delivering_lookup _ _ _ d (Sending e)), decide_True.
  - apply (all_chronological_lookup _ j x Hc). unfold delivering. by rewrite list_lookup_alter_ne.
Qed.

Lemma ordered_reachable count opts s :
  reachable count opts s -> all_chronological (readers s) -> no_stall (merger s) -> ordered (merger s) (finished s).
Proof.
  induction 1 as [now|l s s' Hr IH Hst]; intros Hc Hns.
  { split; [constructor|]. by intros _ t ?%not_elem_of_nil. }
  pose proof (wf_reachable _ _ _ Hr) as Hwf.
  pose proof (no_stall_before l s s' Hwf Hst Hns) as Hns0.
  pose proof (chronological_before l s s' Hst Hc) as Hc0.
  pose proof (tight_reachable _ _ _ Hr Hns0) as Ht. specialize (IH Hc0 Hns0).
  destruct Hst as [| | |m rs i d e now m' Hi Hev|m rs i d now m' Hi Hev|m rs now m' _ _ Hev|m rs m' Hdone Hev];
    simpl in *; try done.
  - apply (wf_deliver now i e m rs d m' Hwf Hi) in Hev as [Hhd _].
    apply (ordered_handled now i e m rs d m'); try done.
    apply (all_chronological_lookup _ i (mkReader (d ++ [e]) Receiving) Hc).
    by rewrite (delivering_lookup _ _ _ d (Sending e)), decide_True.
  - apply (wf_close now i m rs d m' Hwf Hi) in Hev as [(out & Hd & Ho) _].
    destruct (tight_closed now i m out m' Ht Hd) as [_ Hw]. destruct IH as [Hs Hle].
    destruct (ordered_drained (watermark m) out _ m' rs Hd) as [Hs1 Hle1]; [|done|by apply Hle|].
    { intros qe Hqe. split; [by apply (wf_queued _ _ Hwf)|by apply (queue_not_before m rs)]. }
    split; [done|]. intros _ t Ht1. destruct (Hle1 t Ht1) as [?|(x & Hx & ->)]; [lia|by apply Ho].
  - apply (wf_tick now m rs m' Hwf) in Hev as [[->|(e & He & Hst)] _]; [done|by destruct (Hns e He)].
  - destruct (wf_finish m rs m' Hwf Hev) as [[out Hd] _]. split; [|done]. destruct IH as [Hs Hle].
    apply (ordered_drained (watermark m) out m m' rs Hd); [|done|by apply Hle].
    intros qe Hqe. split; [by apply (wf_queued _ _ Hwf)|by apply (queue_not_before m rs)].
Qed.

Lemma finished_reachable count opts s :
  reachable count opts s -> finished s = true -> all_done (readers s) /\ queue (merger s) = [].
Proof.
  assert (Hnone : forall rs i d r, all_done rs -> rs !! i = Some (mkReader d r) -> r = Done).
  { intros rs i d r Hd Hi. by apply (Forall_lookup_1 _ _ _ _ Hd Hi). }
  induction 1 as [now|l s s' Hr IH Hst]; [done|].
  destruct Hst as [m rs f i d e Hi|m rs f i d Hi|m rs f i d e st Hi| | | |m rs m' Hdone Hev]; simpl in *; try done.
  1-3: intros Hf; destruct (IH Hf) as [Hd Hq]; by specialize (Hnone _ _ _ _ Hd Hi).
  intros _. split; [done|]. by destruct (wf_finish m rs m' (wf_reachable _ _ _ Hr) Hev) as (_ & ? & _).
Qed.

(** * Progress *)
Definition nothing_leaks (rs : list stream_reader) : Prop :=
  forall r e, r ∈ rs -> e ∈ delivered r -> leaks e = false /\ 0 <= le_Timestamp e.

Definition waits_for_input (rs : list stream_reader) : Prop := exists r, r ∈ rs /\ at_ r = Receiving.

(** A reader that can neither take a slot nor be received from is held back by its own full queue. *)
Definition held_back (m : LogMerger) (rs : list stream_reader) (i : nat) : Prop :=
  exists d e s, rs !! i = Some (mkReader d (Holding e)) /\ streams m !! i = Some s /\
    semaphore s = logMergerMaxInFlightPerStream.

Lemma reader_moves m rs i r :
  wf m rs -> rs !! i = Some r ->
  at_ r = Done \/ at_ r = Receiving \/ held_back m rs i \/
  exists l s', internal l = true /\ step l (mkSystem m rs false) s'.
Proof.
  intros Hwf Hi. destruct r as [d [|e|e| |]]; simpl; [by right; left| | | |by left].
  - destruct (Forall2_lookup_r _ _ _ _ _ (wf_agree _ _ Hwf) Hi) as (s & Hs & _ & _ & Hb).
    destruct (decide (semaphore s < logMergerMaxInFlightPerStream)%nat) as [Hlt|Hge].
    + right; right; right. exists LAcquire. eexists. split; [done|]. by eapply step_acquire.
    + right; right; left. exists d, e, s. split_and!; [done|done|lia].
  - right; right; right. destruct (handle_entry 0 i e m (extra rs) (wf_heap _ _ Hwf) (wf_slots _ _ Hwf)) as (m' & Hev & _).
    + rewrite (Forall2_length _ _ _ (wf_agree _ _ Hwf)). by apply lookup_lt_Some in Hi.
    + unfold extra. rewrite Hi. unfold extra_of. simpl. lia.
    + exists LDeliver. eexists. split; [done|]. by eapply step_deliver.
  - right; right; right. destruct (handle_close 0 i m (extra rs) (wf_heap _ _ Hwf) (wf_slots _ _ Hwf)) as (out & m' & Hev & _).
    exists LClose. eexists. split; [done|]. by eapply step_close.
Qed.

Lemma held_by_pos i q : (0 < held_by i q)%nat -> exists qe, qe ∈ q /\ q_semaphore qe = i.
Proof.
  induction q as [|qe q IH]; [unfold held_by; simpl; lia|]. rewrite held_by_cons.
  destruct (Nat.eqb_spec (q_semaphore qe) i) as [E|_]; [exists qe; set_solver|].
  intros (qe' & Hin & E)%IH. exists qe'. set_solver.
Qed.

Lemma latest_ge e d : e ∈ d -> le_Err e = None -> le_Timestamp e <= latest d.
Proof.
  intros Hin He. induction d as [|x d IH] using rev_ind; [by apply not_elem_of_nil in Hin|].
  rewrite latest_app. apply elem_of_app in Hin as [Hin | ->%list_elem_of_singleton]; [|rewrite He; lia].
  specialize (IH Hin). destruct (le_Err x); lia.
Qed.

(** A held back stream has an entry in the queue, later than the watermark. *)
Lemma held_back_behind m rs i s :
  wf m rs -> tight_merger m -> nothing_leaks rs -> held_back m rs i -> streams m !! i = Some s ->
  watermark m < lastSeen s.
Proof.
  intros Hwf Ht Hl (d & e & s' & Hi & Hs & Hsem) Hs'. rewrite Hs in Hs'. injection Hs' as ->.
  destruct (Forall2_lookup_lr _ _ _ _ _ _ (wf_agree _ _ Hwf) Hs Hi) as (Hls & _). simpl in Hls.
  assert (Hlk : leaked d = 0%nat).
  { unfold leaked. assert (forall x, x ∈ d -> leaks x = false) as Hd.
    { intros x Hx. apply (Hl (mkReader d (Holding e)) x); [by eapply list_elem_of_lookup_2|done]. }
    clear -Hd. induction d as [|x d IH]; simpl; [done|]. rewrite Hd by set_solver. apply IH. set_solver. }
  destruct (held_by_pos i (queue m)) as (qe & Hqe & Ho).
  { pose proof (proj2 (wf_slots _ _ Hwf) i s Hs) as Heq. rewrite Hsem in Heq. unfold extra in Heq.
    rewrite Hi in Heq. unfold extra_of in Heq. simpl in Heq. rewrite Hlk in Heq.
    unfold logMergerMaxInFlightPerStream in Heq. lia. }
  destruct (wf_queued _ _ Hwf qe Hqe) as (_ & He & Hnz & r & Hr & Hin). rewrite Ho, Hi in Hr.
  injection Hr as <-. simpl in Hin. rewrite Hls. apply Z.lt_le_trans with (ts qe); [|by apply latest_ge].
  destruct (Z.eq_dec (watermark m) 0) as [E|Hne]; [|by apply (wf_above _ _ Hwf)].
  destruct (Hl (mkReader d (Holding e)) (q_entry qe)) as [_ Hpos]; [by eapply list_elem_of_lookup_2|done|lia].
Qed.

(** The moves left to the program before it needs input. *)
Definition rank (r : stream_reader) : nat :=
  match at_ r with Holding _ => 3 | Sending _ => 2 | Closing => 1 | Receiving | Done => 0 end.
Definition work (s : system) : nat :=
  (sum_list_with rank (readers s) + if finished s then 0 else 1)%nat.

Lemma sum_alter (f : stream_reader -> stream_reader) i rs r :
  rs !! i = Some r -> (rank (f r) < rank r)%nat ->
  (sum_list_with rank (alter f i rs) < sum_list_with rank rs)%nat.
Proof.
  revert i. induction rs as [|x rs IH]; intros [|i] Hi Hlt; simpl in *; [done|done| |].
  - injection Hi as ->. lia.
  - specialize (IH i Hi Hlt). unfold alter in IH. lia.
Qed.

Lemma work_decreases l s s' : internal l = true -> step l s s' -> (work s' < work s)%nat.
Proof.
  intros Hl Hst. destruct Hst as [| |m rs f i d e st Hi|m rs i d e now m' Hi|m rs i d now m' Hi| |];
    try done; unfold work; cbn [readers finished].
  - pose proof (sum_alter (fun x => mkReader (delivered x) (Sending e)) i rs _ Hi). unfold rank, moved in *.
    simpl in *. lia.
  - pose proof (sum_alter (fun x => mkReader (delivered x ++ [e]) Receiving) i rs _ Hi).
    unfold rank, delivering in *. simpl in *. lia.
  - pose proof (sum_alter (fun x => mkReader (delivered x) Done) i rs _ Hi). unfold rank, moved in *.
    simpl in *. lia.
  - lia.
Qed.

(** Some move is possible unless every reader is done or waits for its stream. *)
Lemma progress m rs :
  wf m rs -> tight_merger m -> nothing_leaks rs ->
  waits_for_input rs \/ exists l s', internal l = true /\ step l (mkSystem m rs false) s'.
Proof.
  intros Hwf Ht Hl.
  assert (Hdec : all_done rs \/ exists i r, rs !! i = Some r /\ at_ r <> Done).
  { clear. unfold all_done. induction rs as [|r rs [IH|(i & r' & Hi & Hr)]]; [by left; constructor| |].
    - destruct (at_ r) eqn:Hr; try (right; exists 0%nat, r; rewrite Hr; done). left. by constructor.
    - right. by exists (S i), r'. }
  destruct Hdec as [Hdone|(i & r & Hi & Hnd)].
  { destruct (flush_spec (length (queue m)) m (wf_heap _ _ Hwf) (slots_covered _ _ (wf_slots _ _ Hwf)) ltac:(lia))
      as (out & m' & Hf & _). right. exists LFinish. eexists. split; [done|]. by apply step_finish. }
  destruct (reader_moves m rs i r Hwf Hi) as [?|[Hw|[Hb|?]]]; [done| | |by right].
  { left. exists r. split; [by eapply list_elem_of_lookup_2|done]. }
  destruct Hb as (d & e & s & Hi' & Hs & _). rewrite Hi in Hi'. injection Hi' as ->.
  destruct (Forall2_lookup_lr _ _ _ _ _ _ (wf_agree _ _ Hwf) Hs Hi) as (_ & Hcl & _).
  destruct (proj2 (proj2 (proj2 Ht))) as (t & st & (sj & Hj & Ht' & Hcj & _)%elem_of_views & Hle).
  { exists (lastSeen s), (stalled s). apply elem_of_views. exists s.
    split_and!; [by eapply list_elem_of_lookup_2|done| |done].
    destruct (closed s); [by specialize (proj1 Hcl eq_refl)|done]. }
  apply list_elem_of_lookup_1 in Hj as [j Hj].
  destruct (Forall2_lookup_l _ _ _ _ _ (wf_agree _ _ Hwf) Hj) as (rj & Hrj & _ & Hclj & _).
  destruct (reader_moves m rs j rj Hwf Hrj) as [Hd|[Hw|[Hb|?]]]; [| | |by right].
  - apply Hclj in Hd. congruence.
  - left. exists rj. split; [by eapply list_elem_of_lookup_2|done].
  - pose proof (held_back_behind m rs j sj Hwf Ht Hl Hb Hj). lia.
Qed.

(** * Running the program *)
#[local] Arguments handle_event : simpl never.
#[local] Arguments stall_tick : simpl never.

Inductive action :=
| AReceive (i : nat) (e : ServiceLogEntry)
| AEof (i : nat)
| AAcquire (i : nat)
| ADeliver (now : Z) (i : nat)
| AClose (now : Z) (i : nat)
| ATick (now : Z)
| AFinish.

Definition at_reader (s : system) (i : nat) : option reader := at_ <$> readers s !! i.

Definition run_one (a : action) (s : system) : option system :=
  match a with
  | AReceive i e =>
      match at_reader s i with
      | Some Receiving => Some (mkSystem (merger s) (moved i (Holding e) (readers s)) (finished s))
      | _ => None
      end
  | AEof i =>
      match at_reader s i with
      | Some Receiving => Some (mkSystem (merger s) (moved i Closing (readers s)) (finished s))
      | _ => None
      end
  | AAcquire i =>
      match at_reader s i, streams (merger s) !! i with
      | Some (Holding e), Some st =>
          if Nat.ltb (semaphore st) logMergerMaxInFlightPerStream then
            Some (mkSystem (update i (fun s => with_semaphore s (S (semaphore s))) (merger s))
              (moved i (Sending e) (readers s)) (finished s))
          else None
      | _, _ => None
      end
  | ADeliver now i =>
      match at_reader s i, finished s with
      | Some (Sending e), false =>
          match handle_event now i (Some e) (merger s) with
          | Some m => Some (mkSystem m (delivering i e (readers s)) false)
          | None => None
          end
      | _, _ => None
      end
  | AClose now i =>
      match at_reader s i, finished s with
      | Some Closing, false =>
          match handle_event now i None (merger s) with
          | Some m => Some (mkSystem m (moved i Done (readers s)) false)
          | None => None
          end
      | _, _ => None
      end
  | ATick now =>
      if negb (finished s) && (0 <? stallTimeout (merger s)) && (0 <? stallCheckInterval (merger s)) then
        match stall_tick now (merger s) with
        | Some m => Some (mkSystem m (readers s) false)
        | None => None
        end
      else None
  | AFinish =>
      if negb (finished s) && forallb (fun r => match at_ r with Done => true | _ => false end) (readers s) then
        match flush (length (queue (merger s))) (merger s) with
        | Some m => Some (mkSystem m (readers s) true)
        | None => None
        end
      else None
  end.

Fixpoint run (acts : list action) (s : system) : option system :=
  match acts with
  | [] => Some s
  | a :: acts' => match run_one a s with Some s' => run acts' s' | None => None end
  end.

Lemma at_reader_Some s i r : at_reader s i = Some r -> exists d, readers s !! i = Some (mkReader d r).
Proof. unfold at_reader. destruct (readers s !! i) as [[d r']|]; simpl; [intros [= ->]; by exists d|done]. Qed.

Lemma run_one_step a s s' : run_one a s = Some s' -> exists l, step l s s'.
Proof.
  destruct s as [m rs f]. destruct a as [i e|i|i|now i|now i|now|]; simpl; intros H.
  - destruct (at_reader _ i) as [[| | | |]|] eqn:Ha; try done. injection H as <-.
    apply at_reader_Some in Ha as [d Hd]. eexists. by eapply step_receive.
  - destruct (at_reader _ i) as [[| | | |]|] eqn:Ha; try done. injection H as <-.
    apply at_reader_Some in Ha as [d Hd]. eexists. by eapply step_eof.
  - destruct (at_reader _ i) as [[| | | |]|] eqn:Ha; try done.
    destruct (streams m !! i) as [st|] eqn:Hs; [|done]. destruct (Nat.ltb_spec (semaphore st) logMergerMaxInFlightPerStream); [|done].
    injection H as <-. apply at_reader_Some in Ha as [d Hd]. eexists. by eapply step_acquire.
  - destruct (at_reader _ i) as [[| | | |]|] eqn:Ha; try done. destruct f; [done|].
    destruct (handle_event now i (Some e) m) as [m'|] eqn:Hev; [|done]. injection H as <-.
    apply at_reader_Some in Ha as [d Hd]. eexists. by eapply step_deliver.
  - destruct (at_reader _ i) as [[| | | |]|] eqn:Ha; try done. destruct f; [done|].
    destruct (handle_event now i None m) as [m'|] eqn:Hev; [|done]. injection H as <-.
    apply at_reader_Some in Ha as [d Hd]. eexists. by eapply step_close.
  - destruct f; [done|]. simpl in H. destruct (Z.ltb_spec 0 (stallTimeout m)); [|done].
    destruct (Z.ltb_spec 0 (stallCheckInterval m)); [|done]. simpl in H.
    destruct (stall_tick now m) as [m'|] eqn:Hev; [|done]. injection H as <-. eexists. by eapply step_tick.
  - destruct f; [done|]. simpl in H. destruct (forallb _ rs) eqn:Hall; [|done].
    destruct (flush _ m) as [m'|] eqn:Hev; [|done]. injection H as <-. eexists. eapply step_finish; [|done].
    apply Forall_forall. intros r Hr%list_elem_of_In. apply (proj1 (forallb_forall _ _) Hall) in Hr. by destruct (at_ r).
Qed.

Lemma run_reachable count opts acts s s' :
  reachable count opts s -> run acts s = Some s' -> reachable count opts s'.
Proof.
  revert s. induction acts as [|a acts IH]; intros s Hr; simpl; [by intros [= <-]|].
  destruct (run_one a s) as [s1|] eqn:Ha; [|done]. apply run_one_step in Ha as [l Hl].
  apply IH. by eapply reach_step.
Qed.

Definition DefaultLogMergerOptions : LogMergerOptions := mkOptions (10 * 10 ^ 9) (10 ^ 9).

(** * Properties *)

(** C8 Whatever the interleaving of the readers, the merger neither loses nor repeats a log line
    or an error: what it has sent when its output is closed is, up to order, what it received.
    If each stream delivers its entries in the order of their timestamps and no stream has been
    reported as stalled, every timestamped entry is sent in the order of the timestamps, also
    while the merger is still running; and no stream ever has more than one hundred entries
    waiting in the queue. *)
Theorem merged_logs_complete_and_ordered count opts s :
  reachable count opts s ->
  (finished s = true -> logs_of (output (merger s)) ≡ₚ logs_of (received (readers s))) /\
  (all_chronological (readers s) -> no_stall (merger s) ->
   StronglySorted Z.le (timeline (output (merger s)))) /\
  forall i, (held_by i (queue (merger s)) <= logMergerMaxInFlightPerStream)%nat.
Proof.
  intros Hr. pose proof (wf_reachable _ _ _ Hr) as Hwf. split_and!.
  - intros Hf. destruct (finished_reachable _ _ _ Hr Hf) as [_ Hq]. pose proof (wf_kept _ _ Hwf) as Hk.
    by rewrite Hq, app_nil_r in Hk.
  - intros Hc Hns. by apply (ordered_reachable count opts).
  - intros i. destruct (decide (0 < held_by i (queue (merger s)))%nat) as [Hp|?]; [|lia].
    apply held_by_pos in Hp as (qe & Hqe & <-).
    destruct (lookup_lt_is_Some_2 _ _ (proj1 (wf_slots _ _ Hwf) qe Hqe)) as [st Hst].
    pose proof (proj2 (wf_slots _ _ Hwf) _ _ Hst) as Heq.
    destruct (Forall2_lookup_l _ _ _ _ _ (wf_agree _ _ Hwf) Hst) as (r & _ & _ & _ & Hb). lia.
Qed.

(** C9 The merging never deadlocks while no stream is reported as stalled: unless it has finished
    or some stream has to provide its next entry, the readers and the merging goroutine can
    move by themselves, and they can only do so a bounded number of times in a row. (Entries are
    of a known stream type and their timestamps are not before the zero time.) *)
Theorem merger_progress count opts s :
  reachable count opts s -> no_stall (merger s) -> nothing_leaks (readers s) ->
  (finished s = true \/ waits_for_input (readers s) \/
   exists l s', internal l = true /\ step l s s') /\
  forall l s', internal l = true -> step l s s' -> (work s' < work s)%nat.
Proof.
  intros Hr Hns Hl. split; [|intros l s'; apply work_decreases]. destruct (finished s) eqn:Hf; [by left|right].
  pose proof (progress _ _ (wf_reachable _ _ _ Hr) (tight_reachable _ _ _ Hr Hns) Hl) as Hp.
  destruct s as [m rs f]. simpl in *. by subst f.
Qed.

(** ** Examples *)
Definition log_at (t : Z) : ServiceLogEntry := mkEntry zero_metadata LogStreamStdout t "line" None.
Definition beat_at (t : Z) : ServiceLogEntry := mkEntry zero_metadata LogStreamHeartbeat t "" None.

Definition one_entry (now : Z) (i : nat) (e : ServiceLogEntry) : list action :=
  [AReceive i e; AAcquire i; ADeliver now i].

Definition two_streams : list action :=
  one_entry 1 0 (log_at 10) ++ one_entry 2 0 (log_at 30) ++ one_entry 3 1 (log_at 20) ++
  one_entry 4 1 (beat_at 40) ++ [AEof 0; AClose 5 0] ++ one_entry 6 1 (log_at 50) ++ [AEof 1; AClose 7 1; AFinish].

Definition merged_state (acts : list action) : system :=
  default (start 0 0 DefaultLogMergerOptions) (run acts (start 2 0 DefaultLogMergerOptions)).

Lemma merged_reachable acts :
  run acts (start 2 0 DefaultLogMergerOptions) <> None -> reachable 2 DefaultLogMergerOptions (merged_state acts).
Proof.
  unfold merged_state. destruct (run acts _) as [s|] eqn:Hs; [|done]. intros _.
  apply (run_reachable _ _ acts (start 2 0 DefaultLogMergerOptions)); [constructor|done].
Qed.

Lemma no_stall_forallb m :
  forallb (fun e => negb (bool_decide (le_Err e = Some ErrLogStreamStalled))) (output m) = true -> no_stall m.
Proof.
  intros H e He%list_elem_of_In. apply (proj1 (forallb_forall _ _) H) in He.
  by apply negb_true_iff, bool_decide_eq_false in He.
Qed.

Lemma chronological_check rs :
  bool_decide (Forall (fun r => StronglySorted Z.le (timeline (delivered r)) /\
    Forall (fun t => 0 < t) (timeline (delivered r))) rs) = true -> all_chronological rs.
Proof. intros H%bool_decide_eq_true r Hr. rewrite Forall_forall in H. by apply H. Qed.

Lemma merged_logs_complete_and_ordered_witness :
  let s := merged_state two_streams in
  reachable 2 DefaultLogMergerOptions s /\ timeline (output (merger s)) = [10; 20; 30; 50] /\
  logs_of (output (merger s)) ≡ₚ [log_at 10; log_at 30; log_at 20; log_at 50] /\
  StronglySorted Z.le (timeline (output (merger s))).
Proof.
  cbv zeta. assert (Hr : reachable 2 DefaultLogMergerOptions (merged_state two_streams))
    by by apply merged_reachable; vm_compute.
  destruct (merged_logs_complete_and_ordered _ _ _ Hr) as (H1 & H2 & _).
  split_and!; [exact Hr|reflexivity|apply H1; reflexivity|apply H2].
  - apply chronological_check. reflexivity.
  - apply no_stall_forallb. reflexivity.
Defined.

Lemma merger_progress_witness :
  let s := merged_state (one_entry 1 0 (log_at 10) ++ [AEof 0; AEof 1]) in
  reachable 2 DefaultLogMergerOptions s /\ ~ waits_for_input (readers s) /\
  exists l s', internal l = true /\ step l s s'.
Proof.
  cbv zeta. set (acts := one_entry 1 0 (log_at 10) ++ [AEof 0; AEof 1]).
  assert (Hr : reachable 2 DefaultLogMergerOptions (merged_state acts)) by by apply merged_reachable; vm_compute.
  assert (Hw : ~ waits_for_input (readers (merged_state acts))).
  { intros (r & Hr' & Hat). vm_compute in Hr'. apply elem_of_cons in Hr' as [-> | Hr']; [done|].
    by apply list_elem_of_singleton in Hr' as ->. }
  destruct (merger_progress _ _ _ Hr) as [[Hf|[H|H]] _].
  - apply no_stall_forallb. reflexivity.
  - intros r e Hr' He. vm_compute in Hr'. apply elem_of_cons in Hr' as [-> | Hr'].
    + apply list_elem_of_singleton in He as ->. split; [reflexivity|done].
    + apply list_elem_of_singleton in Hr' as ->. by apply not_elem_of_nil in He.
  - discriminate Hf.
  - by destruct Hw.
  - split_and!; [exact Hr|exact Hw|exact H].
Defined.

(** ** A stream throttled by the merger is taken for a stalled one *)

(** Stream 0 is ahead of stream 1 and fills its hundred slots; stream 1 is slow, and ends. *)
Definition ahead (n : nat) : list action :=
  concat (map (fun k => one_entry 1 0 (log_at (1000 + Z.of_nat k))) (seq 0 n)).
Definition held_up : list action :=
  one_entry 1 1 (log_at 10) ++ ahead 100 ++ [AReceive 0 (log_at 2000)] ++
  one_entry (11 * 10 ^ 9) 1 (log_at 20) ++ [ATick (12 * 10 ^ 9); AEof 1; AClose (13 * 10 ^ 9) 1].

Definition blocked (m : LogMerger) (i : nat) (r : stream_reader) : bool :=
  match at_ r, streams m !! i with
  | Done, _ => true
  | Holding _, Some s => negb (Nat.ltb (semaphore s) logMergerMaxInFlightPerStream)
  | _, _ => false
  end.

Lemma all_done_map rs : all_done rs -> Forall (fun x => x = Done) (map at_ rs).
Proof. induction 1; simpl; constructor; done. Qed.

Lemma imap_forallb {A} (f : nat -> A -> bool) (l : list A) :
  forallb (fun b => b) (imap f l) = true -> forall i x, l !! i = Some x -> f i x = true.
Proof.
  intros H i x Hi. apply (proj1 (forallb_forall _ _) H), list_elem_of_In, list_elem_of_lookup.
  exists i. by rewrite list_lookup_imap, Hi.
Qed.

Lemma blocked_stuck s l s' :
  (forall i r, readers s !! i = Some r -> blocked (merger s) i r = true) -> ~ all_done (readers s) ->
  forallb (fun s => closed s || stalled s) (streams (merger s)) = true -> finished s = false ->
  step l s s' -> s' = s.
Proof.
  destruct s as [m rs f]. simpl. intros Hb Hnd Hall -> Hst.
  inversion Hst as [? ? ? i d e Hi|? ? ? i d Hi|? ? ? i d e s Hi Hs Hlt|? ? i d e now m' Hi|? ? i d now m' Hi
    |? ? now m' _ _ Hev|? ? m' Hd]; subst; try (by specialize (Hb i _ Hi)); [| |done].
  - specialize (Hb i _ Hi). unfold blocked in Hb. simpl in Hb. rewrite Hs in Hb.
    apply Nat.ltb_lt in Hlt. by rewrite Hlt in Hb.
  - f_equal. unfold stall_tick, checkStalledStreams in Hev.
    assert (Hf : List.filter (stalls now (stallTimeout m)) (streams m) = []).
    { clear -Hall. induction (streams m) as [|s ss IH]; simpl in *; [done|]. unfold stalls at 1.
      apply andb_true_iff in Hall as [-> Hall]. by apply IH. }
    rewrite Hf, mark_none in Hev by done. injection Hev as <-. by destruct m.
Qed.

(** With the default options the merger can deadlock: a stream that is ahead of the others is
    held back by the merger's own limit, is then reported as stalled, and when the streams behind
    it end, nothing can move any more, though entries are queued and others have been read. *)
Lemma stall_of_a_throttled_stream_deadlocks :
  exists s, reachable 2 DefaultLogMergerOptions s /\ finished s = false /\
    ~ waits_for_input (readers s) /\ length (queue (merger s)) = 100%nat /\
    forall l s', step l s s' -> s' = s.
Proof.
  exists (merged_state held_up).
  assert (Hr : reachable 2 DefaultLogMergerOptions (merged_state held_up)) by by apply merged_reachable; vm_compute.
  assert (Hat : map at_ (readers (merged_state held_up)) = [Holding (log_at 2000); Done]) by by vm_compute.
  split_and!; [exact Hr|by vm_compute| |by vm_compute|].
  - intros (r & Hr' & Hw). apply (list_elem_of_fmap_2 at_) in Hr'. change (at_ <$> ?l) with (map at_ l) in Hr'.
    rewrite Hat, Hw in Hr'. clear -Hr'.
    apply elem_of_cons in Hr' as [E|E%list_elem_of_singleton]; discriminate E.
  - intros l s' Hst. apply (blocked_stuck _ l); [| | | |exact Hst].
    + apply imap_forallb. by vm_compute.
    + intros Hd%all_done_map. rewrite Hat in Hd. apply Forall_inv in Hd. discriminate Hd.
    + by vm_compute.
    + by vm_compute.
Qed.
