(* ===== verification/LogStream.v ===== *)
(** * LogStream: where the log entries come from

    A log line on its way to the merger of LogMerger.v: the lines of [journalctl]
    ([internal/journal]) and of the Docker engine ([internal/machine/docker/service.go]),
    the server's loop that sends the entries with heartbeats between them
    ([docker/server.go], [ContainerLogs]; [machine.go], [MachineLogs] is the same loop), and
    the client's side ([pkg/client/logs.go]).  Instants are nanoseconds since the zero
    time, as in LogMerger.v.  [stdcopy] of the Docker client is a third-party package: the
    model starts from its writes. *)

From S2P Require Import Prelude GoStrings Proto Container ServiceClient LogMerger.
#[local] Open Scope string_scope.
#[local] Open Scope list_scope.
#[local] Open Scope Z_scope.

(** [api.LogEntry] *)
Record LogEntry := mkLogEntry { l_Stream : LogStreamType; l_Timestamp : Z; l_Message : string; l_Err : option log_error }.

Definition with_metadata (md : LogMerger.Metadata) (e : LogEntry) : ServiceLogEntry :=
  mkEntry md (l_Stream e) (l_Timestamp e) (l_Message e) (l_Err e).

(** ** Time ([time.Unix], [time.Parse]) *)
Definition int64 (z : Z) : Z := (z + 2 ^ 63) mod 2 ^ 64 - 2 ^ 63.
Definition nanos : Z := 10 ^ 9.
(** Seconds from the zero time to 1970. *)
Definition unix_epoch : Z := 62135596800.

(** [time.Unix]: nanoseconds out of range are carried over to the seconds. *)
Definition time_Unix (sec nsec : Z) : Z :=
  int64 (sec + nsec / nanos + unix_epoch) * nanos + nsec mod nanos.

Definition digit (c : ascii) : option Z :=
  let b := Z.of_N (Ascii.N_of_ascii c) - 48 in if (0 <=? b) && (b <=? 9) then Some b else None.

(** [n] digits. *)
Fixpoint digits (n : nat) (acc : Z) (s : string) : option (Z * string) :=
  match n with
  | O => Some (acc, s)
  | S n => match s with
           | "" => None
           | String c s => d ← digit c; digits n (acc * 10 + d) s
           end
  end.

(** As many digits as there are, with their number. *)
Fixpoint digit_run (s : string) : list Z * string :=
  match s with
  | String c s' => match digit c with
                   | Some d => let (ds, rest) := digit_run s' in (d :: ds, rest)
                   | None => ([], s)
                   end
  | "" => ([], s)
  end.

Definition expect (c : ascii) (s : string) : option string :=
  match s with String a s' => if Ascii.eqb a c then Some s' else None | "" => None end.

(** One or two digits. *)
Definition one_or_two (s : string) : option (Z * string) :=
  match digits 2 0 s with Some r => Some r | None => digits 1 0 s end.

(** A fraction of a second: of its digits the first nine count. *)
Definition fraction (s : string) : Z * string :=
  match s with
  | String p s' =>
      if Ascii.eqb p "." || Ascii.eqb p "," then
        match digit_run s' with
        | ([], _) => (0, s)
        | (ds, rest) => (fold_left (fun n d => n * 10 + d) (firstn 9 (ds ++ repeat 0 9)) 0, rest)
        end
      else (0, s)
  | "" => (0, s)
  end.

(** The offset from UTC, in seconds: [Z], or a sign with hours and minutes. *)
Definition zone (s : string) : option (Z * string) :=
  match s with
  | String c s' =>
      if Ascii.eqb c "Z" then Some (0, s')
      else if Ascii.eqb c "+" || Ascii.eqb c "-" then
        h ← digits 2 0 s'; s' ← expect ":" (snd h); m ← digits 2 0 s';
        if (fst h <=? 24) && (fst m <=? 60) then
          Some ((if Ascii.eqb c "-" then - 1 else 1) * (fst h * 3600 + fst m * 60), snd m)
        else None
      else None
  | "" => None
  end.

Definition leap (y : Z) : bool := (y mod 4 =? 0) && (negb (y mod 100 =? 0) || (y mod 400 =? 0)).
Definition month_days (y : Z) : list Z := [31; if leap y then 29 else 28; 31; 30; 31; 30; 31; 31; 30; 31; 30; 31].
Definition day_number (y m d : Z) : Z :=
  365 * (y - 1) + (y - 1) / 4 - (y - 1) / 100 + (y - 1) / 400
  + fold_left Z.add (firstn (Z.to_nat (m - 1)) (month_days y)) 0 + (d - 1).

(** [time.Parse(time.RFC3339Nano, s)] *)
Definition ParseRFC3339Nano (s : string) : option Z :=
  y ← digits 4 0 s; s ← expect "-" (snd y);
  mo ← digits 2 0 s; s ← expect "-" (snd mo);
  d ← digits 2 0 s; s ← expect "T" (snd d);
  h ← one_or_two s; s ← expect ":" (snd h);
  mi ← digits 2 0 s; s ← expect ":" (snd mi);
  se ← digits 2 0 s;
  let (ns, s) := fraction (snd se) in
  z ← zone s;
  if (1 <=? fst mo) && (fst mo <=? 12) && (1 <=? fst d) && (fst d <=? nth (Z.to_nat (fst mo - 1)) (month_days (fst y)) 0)
     && (fst h <=? 23) && (fst mi <=? 59) && (fst se <=? 59) && String.eqb (snd z) "" then
    Some ((day_number (fst y) (fst mo) (fst d) * 86400 + fst h * 3600 + fst mi * 60 + fst se - fst z) * nanos + ns)
  else None.

(** ** [internal/journal] *)
Definition newline : string := String (ascii_of 10) "".

Definition parseUnixTimestamp (b : string) : option Z :=
  match cut_byte "." b with
  | None => None
  | Some (secPart, usecPart) =>
      sec ← ParseInt secPart; usec ← ParseInt usecPart; Some (time_Unix sec (int64 (usec * 1000)))
  end.

(** A line of [journalctl -o short-unix], without its newline. *)
Definition entry (data : string) : LogEntry :=
  let (timestamp, message) :=
    match cut_byte " " data with
    | Some (timestampPart, messagePart) =>
        match parseUnixTimestamp timestampPart with
        | Some t => (t, messagePart)
        | None => (0, data)
        end
    | None => (0, data)
    end in
  mkLogEntry LogStreamStdout timestamp (message +:+ newline) None.

(** ** [internal/machine/docker/service.go] *)
Definition byte_at (i : nat) (s : string) : option ascii := String.get i s.
Definition is_byte (i : nat) (c : ascii) (s : string) : bool :=
  match byte_at i s with Some a => Ascii.eqb a c | None => false end.

(** The entry that [logsChannelWriter.Write] sends for the data. *)
Definition write_entry (isStderr : bool) (data : string) : LogEntry :=
  let (timestamp, message) :=
    if (30 <? String.length data)%nat && is_byte 4 "-" data && is_byte 7 "-" data && is_byte 10 "T" data then
      match cut_byte " " data with
      | Some (timestampPart, messagePart) => (default 0 (ParseRFC3339Nano timestampPart), messagePart)
      | None => (0, data)
      end
    else (0, data) in
  mkLogEntry (if isStderr then LogStreamStderr else LogStreamStdout) timestamp message None.

(** The pieces [ReadBytes('\n')] gives: lines with their newline, and what is left. *)
Fixpoint read_lines (s : string) : list string :=
  match s with
  | "" => []
  | String c s' =>
      if Ascii.eqb c (ascii_of 10) then String c "" :: read_lines s'
      else match read_lines s' with
           | l :: ls => String c l :: ls
           | [] => [String c ""]
           end
  end.

(** [copyRawContainerLogs] of a stream, while the writer takes the entries. *)
Definition raw_entries (src : string) : list LogEntry := map (write_entry false) (read_lines src).

(** ** The server's loop *)
Definition logsHeartbeatInterval : Z := 200 * 10 ^ 6.

(** What the [select] receives, with the answer of [Send] where the event is sent on. *)
Inductive server_event :=
| EntryReady (e : LogEntry) (sent : bool)
| LogsClosed
| HeartbeatTick (now : Z) (sent : bool)
| ContextDone.

Inductive stream_end := StreamOK | LogsFailed (e : log_error) | SendEntryFailed | SendHeartbeatFailed | Canceled.

Definition heartbeat_due (started lastSent now : Z) : bool :=
  negb ((time_Sub now lastSent <? logsHeartbeatInterval) ||
        ((lastSent =? 0) && (time_Sub now started <? logsHeartbeatInterval))).
Definition heartbeat_entry (now : Z) : LogEntry := mkLogEntry LogStreamHeartbeat (now - logsHeartbeatInterval) "" None.

(** The entries sent, [lastSent], and how the loop ended, if it has.  Without [follow] there
    are no ticks. *)
Fixpoint serve (follow : bool) (started lastSent : Z) (evs : list server_event) : list LogEntry * Z * option stream_end :=
  match evs with
  | [] => ([], lastSent, None)
  | EntryReady e sent :: rest =>
      match l_Err e with
      | Some err => ([], lastSent, Some (LogsFailed err))
      | None =>
          if sent then let '(es, last, r) := serve follow started (l_Timestamp e) rest in (e :: es, last, r)
          else ([], lastSent, Some SendEntryFailed)
      end
  | LogsClosed :: _ => ([], lastSent, Some StreamOK)
  | HeartbeatTick now sent :: rest =>
      if negb follow || negb (heartbeat_due started lastSent now) then serve follow started lastSent rest
      else if sent then
        let '(es, last, r) := serve follow started (now - logsHeartbeatInterval) rest in (heartbeat_entry now :: es, last, r)
      else ([], lastSent, Some SendHeartbeatFailed)
  | ContextDone :: _ => ([], lastSent, Some Canceled)
  end.

(** ** The client *)

(** [req.Tail] *)
Definition request_tail (follow : bool) (tail : Z) : Z :=
  if negb follow && (tail =? 0) then -1 else (tail + 2 ^ 31) mod 2 ^ 32 - 2 ^ 31.

(** What a round of the client's loop finds: an entry, which the reader of the channel takes
    ([true]) unless the context is done first; the end of the stream; or an error. *)
Inductive client_event := Received (e : LogEntry) (delivered : bool) | ReceiveEOF | ReceiveFails (err : log_error).

(** The entries of the client's channel, until it is closed. *)
Fixpoint client_entries (evs : list client_event) : list LogEntry :=
  match evs with
  | [] => []
  | Received e delivered :: rest => if delivered then e :: client_entries rest else []
  | ReceiveEOF :: _ => []
  | ReceiveFails err :: _ => [mkLogEntry LogStreamUnknown 0 "" (Some err)]
  end.

Definition logsStreamWithServiceMetadata (md : LogMerger.Metadata) (es : list LogEntry) : list ServiceLogEntry :=
  map (with_metadata md) es.

(** [ServiceLogs]: the streams that are merged.  [open] is the answer of the machine's
    [ContainerLogs]. *)
Inductive logs_error {E : Type} :=
| InspectFailed (e : lookup_error E) | NoServiceContainers | LogContainerNotFound (n : string) (e : find_error)
| LogMachinesFailed | OpenFailed (id : string) (e : E) | NoContainersOnMachines.
Arguments logs_error : clear implicits.

Section ServiceLogs.
Context {HO : GoOrder} {E : Type} (open : string -> string -> result E (list LogEntry)).

Definition container_id (c : MachineServiceContainer) : string := ID (ctr (svc_ctr c)).

Fixpoint select_containers (svc : Service) (names : list string) (selected : gmap string MachineServiceContainer) :
  result (logs_error E) (gmap string MachineServiceContainer) :=
  match names with
  | [] => Ok selected
  | n :: rest =>
      match FindContainer svc n with
      | Err e => Err (LogContainerNotFound n e)
      | Ok c => select_containers svc rest (<[container_id c := c]> selected)
      end
  end.

Definition log_containers (site : nat) (svc : Service) (names : list string) :
  result (logs_error E) (list MachineServiceContainer) :=
  match Containers svc ++ HookContainers svc with
  | [] => Err NoServiceContainers
  | all => match names with
           | [] => Ok all
           | _ => match select_containers svc names ∅ with
                  | Err e => Err e
                  | Ok selected => Ok (map snd (range_map site selected))
                  end
           end
  end.

Definition log_metadata (svc : Service) (machines : list MachineMember) (c : MachineServiceContainer) : LogMerger.Metadata :=
  mkMeta (svc_ID svc) (svc_Name svc) (container_id c) (MachineID c)
    (match FindByNameOrID machines (MachineID c) with Some m => mm_Name m | None => MachineID c end)
    (Container.label (svc_ctr c) LabelHook).

(** Without a filter of machines a container is taken wherever it runs. *)
Definition on_machines (filtered : bool) (machines : list MachineMember) (c : MachineServiceContainer) : bool :=
  negb filtered || match FindByNameOrID machines (MachineID c) with Some _ => true | None => false end.

Fixpoint open_streams (svc : Service) (filtered : bool) (machines : list MachineMember) (cs : list MachineServiceContainer) :
  result (logs_error E) (list (list ServiceLogEntry)) :=
  match cs with
  | [] => Ok []
  | c :: rest =>
      if negb (on_machines filtered machines c) then open_streams svc filtered machines rest
      else match open (MachineID c) (container_id c) with
           | Err e => Err (OpenFailed (container_id c) e)
           | Ok es =>
               match open_streams svc filtered machines rest with
               | Err e => Err e
               | Ok streams => Ok (logsStreamWithServiceMetadata (log_metadata svc machines c) es :: streams)
               end
           end
  end.

(** [inspected]: the service that [InspectService] finds; [listing]: the members of the
    cluster. *)
Definition ServiceLogs (site : nat) (inspected : result (lookup_error E) Service) (listing : result E (list MachineMember))
  (containers machines : list string) : result (logs_error E) (list (list ServiceLogEntry)) :=
  match inspected with
  | Err e => Err (InspectFailed e)
  | Ok svc =>
      match log_containers site svc containers with
      | Err e => Err e
      | Ok cs =>
          match listing with
          | Err _ => Err LogMachinesFailed
          | Ok members =>
              match list_machines members (Some (mkFilter false machines)) with
              | Err _ => Err LogMachinesFailed
              | Ok ms =>
                  match open_streams svc (negb (length machines =? 0)%nat) ms cs with
                  | Err e => Err e
                  | Ok [] => Err NoContainersOnMachines
                  | Ok streams => Ok streams
                  end
              end
          end
      end
  end.
End ServiceLogs.

(** ** Properties *)

Definition is_entry (e : LogEntry) : bool := negb (bool_decide (l_Stream e = LogStreamHeartbeat)).
Definition log_entries (es : list LogEntry) : list LogEntry := List.filter is_entry es.

(** The entries of the logs, up to an error or the end. *)
Fixpoint taken (evs : list server_event) : list LogEntry :=
  match evs with
  | EntryReady e _ :: rest => match l_Err e with None => e :: taken rest | Some _ => [] end
  | HeartbeatTick _ _ :: rest => taken rest
  | _ => []
  end.

Definition send_failed (r : option stream_end) : Prop := r = Some SendEntryFailed \/ r = Some SendHeartbeatFailed.

(** The sources: entries have timestamps, are in order, and are read soon: an entry that
    comes after a tick is not older than the interval before that tick. *)
Fixpoint well_timed (last : Z) (evs : list server_event) : Prop :=
  match evs with
  | EntryReady e _ :: rest => l_Err e = None -> 0 < l_Timestamp e /\ last <= l_Timestamp e /\ well_timed (l_Timestamp e) rest
  | HeartbeatTick now _ :: rest => well_timed (Z.max last (now - logsHeartbeatInterval)) rest
  | _ => True
  end.

(** Entries are log lines, and the clock is past the first interval. *)
Definition from_logs (evs : list server_event) : Prop :=
  forall ev, ev ∈ evs -> match ev with
  | EntryReady e _ => is_entry e = true
  | HeartbeatTick now _ => logsHeartbeatInterval < now
  | _ => True
  end.

Definition shown (md : LogMerger.Metadata) (es : list LogEntry) : list ServiceLogEntry := map (with_metadata md) es.

Lemma timeline_cons md e es : l_Err e = None -> l_Timestamp e <> 0 ->
  timeline (shown md (e :: es)) = l_Timestamp e :: timeline (shown md es).
Proof.
  intros He Ht. unfold timeline, shown. cbn [map List.filter]. unfold dated at 1. cbn [with_metadata le_Err le_Timestamp].
  rewrite He. by destruct (Z.eqb_spec (l_Timestamp e) 0).
Qed.

Lemma heartbeat_not_older started last now : heartbeat_due started last now = true -> last <= now - logsHeartbeatInterval.
Proof.
  unfold heartbeat_due, time_Sub, logsHeartbeatInterval. intros [H _]%negb_true_iff%orb_false_iff. lia.
Qed.

Lemma serve_chronological md follow started : forall evs last es last' r,
  from_logs evs -> well_timed last evs -> serve follow started last evs = (es, last', r) ->
  StronglySorted Z.le (timeline (shown md es)) /\ Forall (fun t => 0 < t /\ last <= t) (timeline (shown md es)).
Proof.
  induction evs as [|ev evs IH]; intros last es last' r Hlogs Hwt; cbn [serve].
  { intros [= <- <- <-]. repeat constructor. }
  assert (Hrest : from_logs evs) by (intros x Hx; apply Hlogs; by right).
  pose proof (Hlogs ev ltac:(left)) as Hev. cbn [well_timed] in Hwt. destruct ev as [e sent| |now sent|].
  - destruct (l_Err e) as [err|] eqn:He; [by intros [= <- <- <-]; repeat constructor|].
    destruct sent; [|by intros [= <- <- <-]; repeat constructor].
    destruct (Hwt eq_refl) as (Hpos & Hle & Hwt').
    destruct (serve follow started (l_Timestamp e) evs) as [[es0 last0] r0] eqn:Hs. intros [= <- <- <-].
    destruct (IH _ _ _ _ Hrest Hwt' Hs) as [Hso Hall]. rewrite timeline_cons by (done || lia).
    split; constructor; try done; eapply Forall_impl; try exact Hall; cbn; lia.
  - intros [= <- <- <-]. repeat constructor.
  - assert (Hweak : forall b, b <= Z.max last (now - logsHeartbeatInterval) -> well_timed b evs).
    { intros b Hb. clear -Hwt Hb. revert Hwt Hb. generalize (Z.max last (now - logsHeartbeatInterval)). intros z. revert b z.
      induction evs as [|[e s| |n s|] evs IH]; intros b z Hwt Hb; cbn in *; try done.
      - intros He. destruct (Hwt He) as (? & ? & ?). split_and!; [done|lia|done].
      - eapply IH; [exact Hwt|lia]. }
    destruct (negb follow || negb (heartbeat_due started last now)) eqn:Hdue.
    { intros Hs. apply (IH last es last' r); [done|apply Hweak; lia|done]. }
    destruct sent; [|by intros [= <- <- <-]; repeat constructor].
    destruct (serve follow started (now - logsHeartbeatInterval) evs) as [[es0 last0] r0] eqn:Hs. intros [= <- <- <-].
    apply orb_false_iff in Hdue as [_ Hdue%negb_false_iff]. apply heartbeat_not_older in Hdue.
    assert (Hwt' : well_timed (now - logsHeartbeatInterval) evs) by (apply Hweak; lia).
    destruct (IH _ _ _ _ Hrest Hwt' Hs) as [Hso Hall].
    cbn in Hev. rewrite timeline_cons by (cbn; done || lia). cbn [heartbeat_entry l_Timestamp].
    split; constructor; try done; [|lia|]; eapply Forall_impl; try exact Hall; cbn; lia.
  - intros [= <- <- <-]. repeat constructor.
Qed.

Lemma serve_taken follow started : forall evs last es last' r,
  from_logs evs -> serve follow started last evs = (es, last', r) ->
  log_entries es `prefix_of` taken evs /\ (~ send_failed r -> log_entries es = taken evs).
Proof.
  unfold send_failed. induction evs as [|ev evs IH]; intros last es last' r Hlogs; cbn [serve taken].
  { by intros [= <- <- <-]. }
  assert (Hrest : from_logs evs) by (intros x Hx; apply Hlogs; by right).
  pose proof (Hlogs ev ltac:(left)) as Hev. destruct ev as [e sent| |now sent|].
  - destruct (l_Err e) as [err|]; [by intros [= <- <- <-]|].
    destruct sent; [|intros [= <- <- <-]; split; [apply prefix_nil|tauto]].
    destruct (serve follow started (l_Timestamp e) evs) as [[es0 last0] r0] eqn:Hs. intros [= <- <- <-].
    destruct (IH _ _ _ _ Hrest Hs) as [Hp Hall]. unfold log_entries in *. cbn [List.filter]. rewrite Hev.
    split; [by apply prefix_cons|]. intros Hr. by rewrite Hall.
  - by intros [= <- <- <-].
  - destruct (negb follow || _); [apply (IH last es last' r); done|].
    destruct sent; [|intros [= <- <- <-]; split; [apply prefix_nil|tauto]].
    destruct (serve follow started (now - logsHeartbeatInterval) evs) as [[es0 last0] r0] eqn:Hs. intros [= <- <- <-].
    apply (IH _ _ _ _ Hrest Hs).
  - by intros [= <- <- <-].
Qed.

(** What is sent after a tick is not far behind the clock. *)
Lemma serve_tick started now evs : logsHeartbeatInterval <= now - started -> forall last es last' r,
  serve true started last (evs ++ [HeartbeatTick now true]) = (es, last', r) -> r = None ->
  now - logsHeartbeatInterval <= last'.
Proof.
  intros Hnow. induction evs as [|ev evs IH]; intros last es last' r; cbn [serve app negb orb].
  - unfold heartbeat_due. rewrite negb_involutive.
    destruct (time_Sub now last <? logsHeartbeatInterval) eqn:Hd; cbn [orb].
    + intros [= <- <- <-] _. revert Hd. unfold time_Sub, logsHeartbeatInterval. lia.
    + assert (Hs : time_Sub now started <? logsHeartbeatInterval = false) by (unfold time_Sub, logsHeartbeatInterval in *; lia).
      rewrite Hs, andb_false_r. intros [= <- <- <-] _. lia.
  - destruct ev as [e sent| |n sent|]; [|by intros [= <- <- <-]| |by intros [= <- <- <-]].
    + destruct (l_Err e); [by intros [= <- <- <-]|]. destruct sent; [|by intros [= <- <- <-]].
      destruct (serve true started (l_Timestamp e) _) as [[es0 last0] r0] eqn:Hs. intros [= <- <- <-]. by apply (IH _ _ _ _ Hs).
    + destruct (negb (heartbeat_due started last n)); [by apply IH|]. destruct sent; [|by intros [= <- <- <-]].
      destruct (serve true started (n - logsHeartbeatInterval) _) as [[es0 last0] r0] eqn:Hs. intros [= <- <- <-].
      by apply (IH _ _ _ _ Hs).
Qed.

(** [lastSent] is the time of the last entry sent. *)
Lemma serve_last follow started : forall evs last es last' r, serve follow started last evs = (es, last', r) ->
  last' = List.last (map l_Timestamp es) last.
Proof.
  assert (Hlast : forall (l : list Z) a b, List.last (a :: l) b = List.last l a).
  { induction l as [|c l IH]; intros a b; [done|]. cbn [List.last] in *. destruct l; [done|]. apply (IH a b). }
  induction evs as [|ev evs IH]; intros last es last' r; cbn [serve]; [by intros [= <- <- <-]|].
  destruct ev as [e sent| |now sent|]; [| by intros [= <- <- <-] | |by intros [= <- <- <-]].
  - destruct (l_Err e); [by intros [= <- <- <-]|]. destruct sent; [|by intros [= <- <- <-]].
    destruct (serve follow started (l_Timestamp e) evs) as [[es0 last0] r0] eqn:Hs. intros [= <- <- <-].
    cbn [map]. rewrite Hlast. by apply (IH _ _ _ _ Hs).
  - destruct (negb follow || _); [apply IH|]. destruct sent; [|by intros [= <- <- <-]].
    destruct (serve follow started (now - logsHeartbeatInterval) evs) as [[es0 last0] r0] eqn:Hs. intros [= <- <- <-].
    cbn [map]. rewrite Hlast. by apply (IH _ _ _ _ Hs).
Qed.

(** *** The client's end of the stream

    What the transport promises: entries come as they were sent, in order; the end of the
    stream comes after all of them, and only if the server ended it without an error; the
    stream may break at any time.  The loop goes no further than an event that ends it. *)
Fixpoint receives (es : list LogEntry) (r : option stream_end) (evs : list client_event) {struct evs} : Prop :=
  match evs with
  | [] => True
  | Received e delivered :: rest =>
      match es with
      | e' :: es' => e = e' /\ if delivered then receives es' r rest else rest = []
      | [] => False
      end
  | ReceiveEOF :: rest => es = [] /\ r = Some StreamOK /\ rest = []
  | ReceiveFails _ :: rest => rest = []
  end.

(** The client has the first of the entries sent, possibly followed by an error; all of
    them, if it came to the end of the stream. *)
Lemma client_entries_sent r evs : forall es, receives es r evs ->
  exists got rest errors, es = got ++ rest /\ client_entries evs = got ++ errors /\
    (errors = [] \/ exists err, errors = [mkLogEntry LogStreamUnknown 0 "" (Some err)]) /\
    (ReceiveEOF ∈ evs -> rest = [] /\ errors = [] /\ r = Some StreamOK).
Proof.
  induction evs as [|ev evs IH]; intros es; cbn [receives client_entries].
  { intros _. exists [], es, []. split_and!; [done..|by left|]. by intros ?%elem_of_nil. }
  destruct ev as [e delivered| |err].
  - destruct es as [|e' es]; [done|]. intros [-> H]. destruct delivered.
    + destruct (IH es H) as (got & rest & errors & -> & -> & Hor & Heof). exists (e' :: got), rest, errors.
      split_and!; [done..|]. by intros [?|?]%elem_of_cons; [|apply Heof].
    + subst. exists [], (e' :: es), []. split_and!; [done..|by left|]. by intros [?|?%elem_of_nil]%elem_of_cons.
  - intros (-> & -> & ->). exists [], [], []. split_and!; [done..|by left|done].
  - intros ->. exists [], es, [mkLogEntry LogStreamUnknown 0 "" (Some err)].
    split_and!; [done..|right; by exists err|]. by intros [?|?%elem_of_nil]%elem_of_cons.
Qed.

Lemma chronological_prefix md got rest errors : chronological (shown md (got ++ rest)) ->
  (errors = [] \/ exists err, errors = [mkLogEntry LogStreamUnknown 0 "" (Some err)]) ->
  chronological (shown md (got ++ errors)).
Proof.
  unfold chronological, shown. rewrite !map_app, !timeline_app. intros [Hs Hall] Herr.
  assert (timeline (map (with_metadata md) errors) = []) as -> by (by destruct Herr as [->|[err ->]]).
  rewrite app_nil_r. apply Forall_app in Hall as [Hall _]. split; [|done]. by apply StronglySorted_app in Hs as (_ & Hs & _).
Qed.

(** C22: The log stream of a container, as a client receives it.  Whatever comes first in the
    server's [select], the log lines are sent each once and in order, all of them unless a
    send fails; once a heartbeat interval has passed, after every tick the last entry sent,
    a line or a heartbeat, is at most one interval behind the clock, also when the container
    logs nothing.  The client's channel has the first of the entries sent, followed at most
    by an error, and all of them if it came to the end of the stream without its context
    being done.  If the engine gives the lines in the order of their timestamps and soon
    after they are written, the stream of the client is chronological, heartbeats included,
    which is what the merger relies on. *)
Theorem container_logs_stream md follow started evs es last r cevs
  (Hlogs : from_logs evs) (Hserve : serve follow started 0 evs = (es, last, r)) (Hreceived : receives es r cevs) :
  (log_entries es `prefix_of` taken evs /\ (~ send_failed r -> log_entries es = taken evs)) /\
  (forall before now, evs = before ++ [HeartbeatTick now true] -> follow = true -> r = None ->
     logsHeartbeatInterval <= now - started ->
     exists e, List.last (map Some es) None = Some e /\ now - logsHeartbeatInterval <= l_Timestamp e) /\
  (exists got rest errors, es = got ++ rest /\ client_entries cevs = got ++ errors /\
     (errors = [] \/ exists err, errors = [mkLogEntry LogStreamUnknown 0 "" (Some err)]) /\
     (ReceiveEOF ∈ cevs -> client_entries cevs = es /\ log_entries es = taken evs)) /\
  (well_timed 0 evs -> chronological (logsStreamWithServiceMetadata md (client_entries cevs))).
Proof.
  destruct (serve_taken _ _ _ _ _ _ _ Hlogs Hserve) as [Hprefix Hall].
  destruct (client_entries_sent r cevs es Hreceived) as (got & rest & errors & Hes & Hgot & Herr & Heof).
  split; [done|split; [|split]].
  - intros before now -> -> -> Hnow. pose proof (serve_tick started now before Hnow 0 es last None Hserve eq_refl) as Hlast.
    pose proof (serve_last true started _ _ _ _ _ Hserve) as Hl. rewrite Hl in Hlast.
    assert (Hpos : 0 < now - logsHeartbeatInterval).
    { specialize (Hlogs (HeartbeatTick now true)). cbn in Hlogs. assert (logsHeartbeatInterval < now) by (apply Hlogs; apply elem_of_app; right; left). lia. }
    clear -Hlast Hpos. destruct es as [|e es] using rev_ind; [cbn in Hlast; lia|].
    rewrite map_app in Hlast |- *. cbn [map] in *. rewrite last_last in *. by exists e.
  - exists got, rest, errors. split_and!; [done..|]. intros (-> & -> & ->)%Heof. rewrite Hgot, Hes, app_nil_r.
    split; [done|]. rewrite app_nil_r in Hes. rewrite <- Hes. apply Hall. by intros [?|?].
  - intros Hwt. destruct (serve_chronological md _ _ _ _ _ _ _ Hlogs Hwt Hserve) as [Hs Hpos].
    unfold logsStreamWithServiceMetadata. fold (shown md (client_entries cevs)). rewrite Hgot.
    apply (chronological_prefix md got rest); [|done]. rewrite <- Hes. split; [done|].
    eapply Forall_impl; [exact Hpos|]. by intros t [].
Qed.

Definition second : Z := 10 ^ 9.
Definition no_metadata : LogMerger.Metadata := mkMeta "" "" "" "" "" "".
Definition line_at (t : Z) (msg : string) : LogEntry := mkLogEntry LogStreamStdout t msg None.

Lemma container_logs_stream_witness :
  let evs := [EntryReady (line_at (1000 * second) "a") true; HeartbeatTick (1000 * second + 300 * 10 ^ 6) true;
              EntryReady (line_at (1000 * second + 400 * 10 ^ 6) "b") true; HeartbeatTick (1001 * second) true] in
  exists es last cevs, serve true (999 * second) 0 evs = (es, last, None) /\
    log_entries es = [line_at (1000 * second) "a"; line_at (1000 * second + 400 * 10 ^ 6) "b"] /\
    (exists e, List.last (map Some es) None = Some e /\ 1001 * second - logsHeartbeatInterval <= l_Timestamp e) /\
    length (client_entries cevs) = 3%nat /\
    chronological (logsStreamWithServiceMetadata no_metadata (client_entries cevs)).
Proof.
  intros evs. set (res := serve true (999 * second) 0 evs).
  assert (Hs : serve true (999 * second) 0 evs = (fst (fst res), snd (fst res), None)) by (vm_compute; reflexivity).
  assert (Hl : from_logs evs).
  { intros ev Hev. unfold evs in Hev. rewrite !elem_of_cons, elem_of_nil in Hev.
    destruct Hev as [->|[->|[->|[->|[]]]]]; vm_compute; reflexivity. }
  assert (Hwt : well_timed 0 evs).
  { repeat (cbn [evs well_timed]; try (intros _; split; [vm_compute; reflexivity|split; [vm_compute; discriminate|]])). exact I. }
  set (cevs := map (fun e => Received e true) (firstn 2 (fst (fst res))) ++ [ReceiveFails (StreamError "reset")]).
  assert (Hr : receives (fst (fst res)) None cevs) by (vm_compute; repeat split).
  destruct (container_logs_stream no_metadata true (999 * second) evs _ _ None cevs Hl Hs Hr) as ((_ & Ht) & Hw & _ & Hc).
  exists (fst (fst res)), (snd (fst res)), cevs. split; [exact Hs|].
  split; [apply Ht; intros [H|H]; discriminate|]. split; [|split; [vm_compute; reflexivity|exact (Hc Hwt)]].
  apply (Hw [EntryReady (line_at (1000 * second) "a") true; HeartbeatTick (1000 * second + 300 * 10 ^ 6) true;
             EntryReady (line_at (1000 * second + 400 * 10 ^ 6) "b") true] (1001 * second) eq_refl eq_refl eq_refl).
  vm_compute. discriminate.
Defined.

(** While an old log is played back, the comparison is with the timestamp of the last entry
    and not with the time it was sent: a heartbeat is sent between the old entries, and
    announces that there are none before it. *)
Example heartbeat_overtakes_backlog :
  let evs := [EntryReady (line_at second "old 1") true; HeartbeatTick (1000 * second) true; EntryReady (line_at (2 * second) "old 2") true] in
  map (fun e => (l_Stream e, l_Timestamp e)) (fst (fst (serve true (999 * second) 0 evs))) =
    [(LogStreamStdout, second); (LogStreamHeartbeat, 1000 * second - logsHeartbeatInterval); (LogStreamStdout, 2 * second)].
Proof. reflexivity. Qed.

Example rfc3339_epoch : ParseRFC3339Nano "1970-01-01T00:00:00.000000000Z" = Some (unix_epoch * nanos).
Proof. reflexivity. Qed.
Example rfc3339_offset : ParseRFC3339Nano "2024-02-29T23:59:59.5+01:00" = Some (time_Unix 1709247599 500000000).
Proof. reflexivity. Qed.
Example rfc3339_no_leap_day : ParseRFC3339Nano "2025-02-29T00:00:00Z" = None.
Proof. reflexivity. Qed.
Example docker_line :
  write_entry true "2025-01-01T00:00:00.000000007Z hello world" =
  mkLogEntry LogStreamStderr (time_Unix 1735689600 7) "hello world" None.
Proof. reflexivity. Qed.
Example docker_text : write_entry false "no timestamp in this line, but it is long enough" =
  mkLogEntry LogStreamStdout 0 "no timestamp in this line, but it is long enough" None.
Proof. reflexivity. Qed.
Example journal_line : entry "1769188773.687500 uncloudd[332455]: INFO" =
  mkLogEntry LogStreamStdout (time_Unix 1769188773 687500000) ("uncloudd[332455]: INFO" +:+ newline) None.
Proof. reflexivity. Qed.

(** *** Lines *)
Definition one_line (l : string) : Prop := exists s, (l = s +:+ newline \/ l = s /\ s <> "") /\ contains_byte (ascii_of 10) s = false.

(** The lines put together are the stream; each is one line. *)
Lemma read_lines_concat s : String.concat "" (read_lines s) = s.
Proof.
  induction s as [|c s IH]; [done|]. cbn [read_lines]. destruct (Ascii.eqb c (ascii_of 10)).
  - destruct (read_lines s) as [|l ls] eqn:E; [by rewrite <- IH|]. cbn. rewrite <- IH. by destruct ls.
  - destruct (read_lines s) as [|l ls] eqn:E; [by rewrite <- IH|]. rewrite <- IH. by destruct ls.
Qed.

Lemma read_lines_one s : Forall one_line (read_lines s).
Proof.
  induction s as [|c s IH]; [constructor|]. cbn [read_lines]. destruct (Ascii.eqb_spec c (ascii_of 10)) as [->|Hc].
  - constructor; [|done]. exists "". split; [by left|done].
  - destruct (read_lines s) as [|l ls].
    + constructor; [|constructor]. exists (String c ""). split; [by right|]. cbn. by destruct (Ascii.eqb_spec c (ascii_of 10)).
    + inversion IH as [|? ? (l0 & Hl & Hn) Hls]; subst. constructor; [|done]. exists (String c l0). split.
      * destruct Hl as [->|[-> _]]; [by left|by right].
      * cbn. by destruct (Ascii.eqb_spec c (ascii_of 10)).
Qed.

(** *** The streams of a service *)
Section ServiceLogsSpec.
Context {HO : GoOrder} {E : Type} (open : string -> string -> result E (list LogEntry)).

Lemma select_containers_spec svc : forall names acc m, @select_containers E svc names acc = Ok m ->
  (forall n, n ∈ names -> exists c, FindContainer svc n = Ok c /\ is_Some (m !! container_id c)) /\
  (forall id c, m !! id = Some c -> acc !! id = Some c \/ (container_id c = id /\ exists n, n ∈ names /\ FindContainer svc n = Ok c)) /\
  (forall id, is_Some (acc !! id) -> is_Some (m !! id)).
Proof.
  induction names as [|n names IH]; intros acc m; cbn [select_containers].
  { intros [= <-]. split_and!; [set_solver| |done]. by left. }
  destruct (FindContainer svc n) as [c|e] eqn:Hc; [|done]. intros (Hn & Hm & Ha)%IH. split_and!.
  - intros n' [->|Hin]%elem_of_cons; [|by apply Hn]. exists c. split; [done|]. apply Ha. by rewrite lookup_insert_eq.
  - intros id c' Hc'. destruct (Hm id c' Hc') as [Hi|(Hid & n' & Hin & Hf)].
    + destruct (decide (container_id c = id)) as [<-|Hne].
      * rewrite lookup_insert_eq in Hi. simplify_eq. right. split; [done|]. exists n. split; [left|done].
      * rewrite lookup_insert_ne in Hi by done. by left.
    + right. split; [done|]. exists n'. split; [by right|done].
  - intros id Hid. apply Ha. rewrite lookup_insert_is_Some'. by right.
Qed.

(** The containers whose logs are shown: all of the service, or those the names stand for,
    each once. *)
Lemma log_containers_spec site svc names cs : @log_containers HO E site svc names = Ok cs ->
  Containers svc ++ HookContainers svc <> [] /\
  (names = [] -> cs = Containers svc ++ HookContainers svc) /\
  (names <> [] -> NoDup (map container_id cs) /\
     (forall c, c ∈ cs -> exists n, n ∈ names /\ FindContainer svc n = Ok c) /\
     (forall n, n ∈ names -> exists c c', FindContainer svc n = Ok c /\ c' ∈ cs /\ container_id c' = container_id c)).
Proof.
  unfold log_containers. destruct (Containers svc ++ HookContainers svc) as [|c0 all] eqn:Hall; [done|].
  destruct names as [|n0 names0]; [by intros [= <-]|]. set (names := n0 :: names0).
  destruct (select_containers svc names ∅) as [m|e] eqn:Hsel; [|done]. intros [= <-].
  destruct (select_containers_spec svc names ∅ m Hsel) as (Hn & Hm & _). split_and!; [done..|]. intros _.
  assert (Hkey : forall id c, m !! id = Some c -> container_id c = id /\ exists n, n ∈ names /\ FindContainer svc n = Ok c).
  { intros id c Hc. destruct (Hm id c Hc) as [Hi|?]; [by rewrite lookup_empty in Hi|done]. }
  assert (Hin : forall c, c ∈ map snd (range_map site m) <-> exists id, m !! id = Some c).
  { intros c. rewrite list_elem_of_fmap. split.
    - intros ([id c'] & -> & H%elem_of_range_map). by exists id.
    - intros [id H%(elem_of_range_map site)]. by exists (id, c). }
  split_and!.
  - assert (Hfst : map container_id (map snd (range_map site m)) = map fst (range_map site m)).
    { rewrite map_map. apply map_ext_in. intros [id c] H%list_elem_of_In%elem_of_range_map. by apply Hkey. }
    rewrite Hfst. unfold range_map. rewrite any_order_perm. apply NoDup_fst_map_to_list.
  - intros c [id Hc]%Hin. by apply (Hkey id).
  - intros n Hnn. destruct (Hn n Hnn) as (c & Hc & [c' Hc']). exists c, c'. split_and!; [done|apply Hin; by eexists|].
    by apply Hkey in Hc' as [? _].
Qed.

(** One stream for each container on the machines, each entry with its metadata. *)
Lemma open_streams_spec svc filtered ms : forall cs streams, open_streams open svc filtered ms cs = Ok streams ->
  Forall2 (fun c stream => exists es, open (MachineID c) (container_id c) = Ok es /\
             stream = logsStreamWithServiceMetadata (log_metadata svc ms c) es)
    (List.filter (on_machines filtered ms) cs) streams.
Proof.
  induction cs as [|c cs IH]; intros streams; cbn [open_streams List.filter]; [intros [= <-]; constructor|].
  destruct (on_machines filtered ms c); cbn [negb]; [|apply IH].
  destruct (open (MachineID c) (container_id c)) as [es|e] eqn:Ho; [|done].
  destruct (open_streams open svc filtered ms cs) as [ss|e]; [|done]. intros [= <-].
  constructor; [by exists es|by apply IH].
Qed.
End ServiceLogsSpec.
