(* ===== verification/Inspect.v ===== *)
(** * Inspect: what a machine tells about itself and its cluster

    The inspection handlers of [internal/machine/machine.go] ([InspectMachine] with the
    round-trip times of Admin.v, [InspectWireGuardNetwork], [InspectService], the logs of
    the system services), the version queries of [internal/machine/store/store.go] on the
    rows of Corrosion.v, and the client's view of a machine ([pkg/api/machine.go]) and of
    the logs of a system service ([pkg/client/logs.go]), on the streams of LogStream.v. *)

From Stdlib Require Import SpecFloat.
From S2P Require Import Prelude GoStrings NetAddr NetText Proto Ipam Resolver Corrosion Store Container ServiceClient Network Cluster Admin Controller Bootstrap LogMerger LogStream.
#[local] Open Scope string_scope.
#[local] Open Scope list_scope.
#[local] Open Scope Z_scope.

(** ** The version of the store ([store.go]) *)

(** [json.Unmarshal] of a column into a fresh [[]byte] variable. *)
Class BlobJSON := { unmarshal_bytes : RawMessage -> option string }.

(** ... and into a fresh [int64] variable, which null leaves zero. *)
Definition unmarshal_int64 (v : RawMessage) : option Z :=
  match v with
  | JNumber n => if (- 2 ^ 63 <=? n) && (n <? 2 ^ 63) then Some n else None
  | JNull => Some 0
  | _ => None
  end.

(** [uuid.FromBytes] and its [String]. *)
Definition uuid_text (b : string) : option string :=
  if (String.length b =? 16)%nat then
    let (a, r1) := split_at 4 b in let (b2, r2) := split_at 2 r1 in
    let (c, r3) := split_at 2 r2 in let (d, e) := split_at 2 r3 in
    Some (join "-" (map hex_encode [a; b2; c; d; e]))
  else None.

Inductive version_error :=
| VersionQuery (e : query_error) | VersionScan (e : scan_error) | VersionUUID (len : nat)
| GapsQuery (e : query_error) | GapsScan (e : scan_error).

Section Version.
Context {BJ : BlobJSON}.

(** The columns of a row that [rows.Next] has accepted. *)
Definition row_columns (n : nat) (columns : list string) (row : RowEvent) : result scan_error (list RawMessage) :=
  if negb (n =? length columns)%nat then Err (ScanArity (length columns) n) else Ok (row_Values row).

Definition version_row (columns : list string) (row : RowEvent) : result version_error (string * Z) :=
  match row_columns 2 columns row with
  | Err e => Err (VersionScan e)
  | Ok vs =>
      match unmarshal_bytes (nth 0 vs JNull) with
      | None => Err (VersionScan (ScanColumn 0))
      | Some siteID =>
          match unmarshal_int64 (nth 1 vs JNull) with
          | None => Err (VersionScan (ScanColumn 1))
          | Some version =>
              match uuid_text siteID with
              | None => Err (VersionUUID (String.length siteID))
              | Some actor => Ok (actor, version)
              end
          end
      end
  end.

Fixpoint version_rows (columns : list string) (rows : list RowEvent) (versions : gmap string Z) : result version_error (gmap string Z) :=
  match rows with
  | [] => Ok versions
  | row :: rest =>
      match version_row columns row with
      | Err e => Err e
      | Ok (actor, version) => version_rows columns rest (<[actor := version]> versions)
      end
  end.

Definition Version (resp : response) : result version_error (gmap string Z) :=
  match QueryContext resp with
  | Err e => Err (VersionQuery e)
  | Ok rows => version_rows (rs_columns rows) (fst (Corrosion.all_rows rows)) ∅
  end.

Record MissingChange := mkMissingChange { mch_ActorID : string; mch_StartVersion : Z; mch_EndVersion : Z }.

Definition gap_row (columns : list string) (row : RowEvent) : result version_error MissingChange :=
  match row_columns 3 columns row with
  | Err e => Err (GapsScan e)
  | Ok vs =>
      match unmarshal_bytes (nth 0 vs JNull) with
      | None => Err (GapsScan (ScanColumn 0))
      | Some actor =>
          match unmarshal_int64 (nth 1 vs JNull) with
          | None => Err (GapsScan (ScanColumn 1))
          | Some start =>
              match unmarshal_int64 (nth 2 vs JNull) with
              | None => Err (GapsScan (ScanColumn 2))
              | Some end_ => Ok (mkMissingChange (hex_encode actor) start end_)
              end
          end
      end
  end.

Definition KnownMissingChanges (resp : response) : result version_error (list MissingChange) :=
  match QueryContext resp with
  | Err e => Err (GapsQuery e)
  | Ok rows => map_ok (gap_row (rs_columns rows)) (fst (Corrosion.all_rows rows))
  end.
End Version.

(** ** Machines *)
Inductive inspect_error :=
| StoreVersionFailed (e : version_error) | MemberRTTsFailed | RTTMachinesFailed (e : store_error).

(** [ipToMachineID]: a later machine replaces one with the same address. *)
Definition set_machine_ip (ip : addr) (id : string) (m : list (addr * string)) : list (addr * string) := (ip, id) :: m.

Fixpoint machine_at (ip : addr) (m : list (addr * string)) : option string :=
  match m with
  | [] => None
  | (ip', id) :: rest => if decide (ip = ip') then Some id else machine_at ip rest
  end.

(** [None]: a machine without a network or management IP, a panic.  An address that is not
    valid is the zero one. *)
Definition management_addr (m : MachineInfo) : option addr :=
  c ← mi_Network m;
  (fun r => match r with Ok a => a | Err _ => NoAddr end) <$> ToAddr (nc_ManagementIp c).

Fixpoint machine_ips (ms : list MachineInfo) (m : list (addr * string)) : option (list (addr * string)) :=
  match ms with
  | [] => Some m
  | mach :: rest =>
      match management_addr mach with
      | None => None
      | Some ip => machine_ips rest (set_machine_ip ip (mi_Id mach) m)
      end
  end.

(** Of the members with the same machine ID, the last one counts. *)
Definition machine_rtts (ips : list (addr * string)) (rtts : list MemberRTTStats) : gmap string (Z * Z) :=
  fold_left (fun m stats => match machine_at (ap_Addr (rtt_Addr stats)) ips with
                            | Some id => <[id := (rtt_Median stats, rtt_StdDev stats)]> m
                            | None => m
                            end) rtts ∅.

Record MachineDetails := mkMachineDetails {
  det_Machine : MachineInfo; det_StoreVersion : gmap string Z; det_Rtts : option (gmap string (Z * Z)) }.

Section Machine.
Context {PJ : ProtoJSON} {FC : FloatConversion} {AJ : AdminJSON} {BJ : BlobJSON} {GS : GoSort} {W : Type} (corro : Corro W).

(** [MemberRTTs] of the cluster service; the RTTs of what was parsed are not used when
    something was not. *)
Definition getMachineRTTs (sock : Socket) (w : W) : nilable inspect_error (gmap string (Z * Z)) :=
  match ClusterMemberRTTs sock with
  | Ok (Some (rtts, [])) =>
      match Store.ListMachines corro w with
      | None => None
      | Some (Err e) => Some (Err (RTTMachinesFailed e))
      | Some (Ok ms) => (fun ips => Ok (machine_rtts ips rtts)) <$> machine_ips ms []
      end
  | _ => Some (Err MemberRTTsFailed)
  end.

(** [versions]: the answer to the query for the versions. *)
Definition InspectMachine (rt : Runtime) (s : State) (versions : response) (sock : Socket) (w : W) :
  nilable inspect_error MachineDetails :=
  match Version versions with
  | Err e => Some (Err (StoreVersionFailed e))
  | Ok v =>
      if Initialised s then
        match getMachineRTTs sock w with
        | None => None
        | Some (Err e) => Some (Err e)
        | Some (Ok rtts) => Some (Ok (mkMachineDetails (Info rt s) v (Some rtts)))
        end
      else Some (Ok (mkMachineDetails (Info rt s) v None))
  end.

Definition Inspect (rt : Runtime) (s : State) : MachineInfo := Info rt s.
End Machine.

(** ** The client's view of a machine ([pkg/api/machine.go]) *)
Definition ascii_upper (c : ascii) : ascii := let b := byte_val c in if (97 <=? b) && (b <=? 122) then byte_of (b - 32) else c.
Definition ascii_lower (c : ascii) : ascii := let b := byte_val c in if (65 <=? b) && (b <=? 90) then byte_of (b + 32) else c.

Fixpoint lower (s : string) : string := match s with "" => "" | String c s' => String (ascii_lower c) (lower s') end.

(** On the names of the states, which are ASCII. *)
Definition capitalise (s : string) : string :=
  match s with "" => "" | String c s' => String (ascii_upper c) (lower s') end.

Definition state_String (s : MembershipState) : string :=
  match s with UNKNOWN => "UNKNOWN" | UP => "UP" | SUSPECT => "SUSPECT" | DOWN => "DOWN" end.

Record MachineNetwork := mkMachineNetwork {
  mn_Subnet : prefix; mn_ManagementIP : addr; mn_Endpoints : list AddrPort; mn_PublicKey : option string }.

Record NativeMember := mkNativeMember {
  nm_ID : string; nm_Name : string; nm_State : string; nm_Network : MachineNetwork; nm_PublicIP : addr;
  nm_DaemonVersion : string; nm_DockerVersion : string; nm_Hostname : string; nm_Arch : string;
  nm_OSPrettyName : string; nm_KernelVersion : string }.

Definition no_network : MachineNetwork := mkMachineNetwork (NoPrefix) NoAddr [] None.

(** What is not set or not valid keeps its zero value. *)
Definition addr_or_zero (ip : option Proto.IP) : addr :=
  match ToAddr ip with Some (Ok a) => a | _ => NoAddr end.

(** A nil endpoint, or one without an address, is dereferenced. *)
Fixpoint valid_endpoints (eps : list (option IPPort)) : option (list AddrPort) :=
  match eps with
  | [] => Some []
  | None :: _ => None
  | Some ep :: rest =>
      match ToAddrPort ep with
      | None => None
      | Some (Ok (a, p)) => cons (mkAddrPort a p) <$> valid_endpoints rest
      | Some (Err _) => valid_endpoints rest
      end
  end.

Definition native_network (c : NetworkConfig) : option MachineNetwork :=
  match (match nc_Subnet c with None => Some (NoPrefix)
         | Some s => (fun r => match r with Ok p => p | Err _ => NoPrefix end) <$> ToPrefix (Some s) end),
        valid_endpoints (nc_Endpoints c) with
  | Some subnet, Some eps => Some (mkMachineNetwork subnet (addr_or_zero (nc_ManagementIp c)) eps (nc_PublicKey c))
  | _, _ => None
  end.

Definition machineMemberFromProto (pbMember : Cluster.MachineMember) : option NativeMember :=
  let m := mem_Machine pbMember in
  (fun network => mkNativeMember (mi_Id m) (mi_Name m) (capitalise (state_String (mem_State pbMember))) network
     (addr_or_zero (mi_PublicIp m)) (mi_DaemonVersion m) (mi_DockerVersion m) (mi_Hostname m) (mi_Arch m)
     (mi_OsPrettyName m) (mi_KernelVersion m)) <$>
  match mi_Network m with None => Some no_network | Some c => native_network c end.

Definition ToNative (ms : list Cluster.MachineMember) : option (list NativeMember) := mapM machineMemberFromProto ms.

(** ** The WireGuard network *)
Record WgDevice := mkWgDevice { dev_Name : string; dev_PublicKey : string; dev_ListenPort : Z; dev_Peers : list (WgPeer * list string) }.

(** The allowed IPs of a peer are texts already; the time of a handshake is [None] for one
    that did not happen. *)
Record WireGuardPeer := mkWireGuardPeer {
  wp_PublicKey : string; wp_Endpoint : string; wp_LastHandshakeTime : option Z; wp_ReceiveBytes : Z;
  wp_TransmitBytes : Z; wp_AllowedIps : list string }.

Record WireGuardNetworkInfo := mkWireGuardNetworkInfo {
  wi_InterfaceName : string; wi_PublicKey : string; wi_ListenPort : Z; wi_Peers : list WireGuardPeer }.

(** [net.UDPAddr.String]: an IPv6 address is in brackets, and an IPv4-mapped one is printed
    as an IPv4 address. *)
Definition udp_addr_String (ap : AddrPort) : string :=
  match ap_Addr ap with
  | Addr6 v zone =>
      if is4in6 v then with_zone (string4 (v mod 2 ^ 32)) zone +:+ ":" +:+ sprint (ap_Port ap)
      else "[" +:+ addr_String (ap_Addr ap) +:+ "]:" +:+ sprint (ap_Port ap)
  | NoAddr => ":" +:+ sprint (ap_Port ap)
  | a => addr_String a +:+ ":" +:+ sprint (ap_Port ap)
  end.

Definition pb_peer (pa : WgPeer * list string) : WireGuardPeer :=
  let (p, allowed) := pa in
  mkWireGuardPeer (wg_PublicKey p) (match wg_Endpoint p with Some ep => udp_addr_String ep | None => "" end)
    (if wg_LastHandshakeTime p =? zero_time then None else Some (wg_LastHandshakeTime p))
    (wg_ReceiveBytes p) (wg_TransmitBytes p) allowed.

Inductive wg_inspect_error := WgClientFailed | WgDeviceFailed.

(** [device]: the answers of [wgctrl], a client and then the device. *)
Definition InspectWireGuardNetwork (device : option (option WgDevice)) : result wg_inspect_error WireGuardNetworkInfo :=
  match device with
  | None => Err WgClientFailed
  | Some None => Err WgDeviceFailed
  | Some (Some dev) =>
      Ok (mkWireGuardNetworkInfo (dev_Name dev) (dev_PublicKey dev) ((dev_ListenPort dev + 2 ^ 31) mod 2 ^ 32 - 2 ^ 31)
            (map pb_peer (dev_Peers dev)))
  end.

(** ** The containers of a service *)
Section Service.
Context {CR : Type} (label : CR -> string -> string) (mode machine_id : CR -> string) (marshal : CR -> option string).

Record ServiceInfo := mkServiceInfo {
  si_Id : string; si_Name : string; si_Mode : string; si_Containers : list (string * string) }.   (* machine ID, JSON *)

Inductive service_error {E : Type} := ServiceListFailed (e : E) | ServiceNotFound | MarshalContainerFailed.
Arguments service_error : clear implicits.

Fixpoint pb_containers {E} (records : list CR) : result (service_error E) (list (string * string)) :=
  match records with
  | [] => Ok []
  | r :: rest =>
      match marshal r with
      | None => Err MarshalContainerFailed
      | Some js => match pb_containers rest with Err e => Err e | Ok l => Ok ((machine_id r, js) :: l) end
      end
  end.

(** [records]: the records whose service ID or name is the one asked for.  The service is
    described by the first of them. *)
Definition InspectService {E} (records : string -> result E (list CR)) (id : string) : result (service_error E) ServiceInfo :=
  match records id with
  | Err e => Err (ServiceListFailed e)
  | Ok [] => Err ServiceNotFound
  | Ok (ctr :: _ as rs) =>
      match pb_containers rs with
      | Err e => Err e
      | Ok l => Ok (mkServiceInfo (label ctr LabelServiceID) (label ctr LabelServiceName) (mode ctr) l)
      end
  end.
End Service.

(** ** The logs of a system service *)
Definition SystemServiceCorrosion : string := "corrosion".
Definition SystemServiceDocker : string := "docker".
Definition SystemServiceUncloud : string := "uncloud".
Definition CorrosionContainerName : string := "uncloud-corrosion".

Record LogsRequest := mkLogsRequest { lr_Id : string; lr_Follow : bool; lr_Tail : Z; lr_Since : string; lr_Until : string }.

Inductive log_source := JournalUnit (unit : string) | ServiceContainer (name : string).

Definition log_source_of (id : string) : option log_source :=
  if String.eqb id SystemServiceUncloud || String.eqb id SystemServiceDocker then Some (JournalUnit id)
  else if String.eqb id SystemServiceCorrosion then Some (ServiceContainer CorrosionContainerName)
  else None.

Inductive machine_logs_end {E : Type} :=
| UnsupportedSystemService (id : string) | LogSourceNotFound (e : E) | LogSourceFailed (e : E) | LogsEnd (r : option stream_end).
Arguments machine_logs_end : clear implicits.

(** [open]: the events of the log source, or an error, with whether it says that the
    source is not found.  The loop is that of [ContainerLogs]. *)
Definition MachineLogs {E} (open : log_source -> LogsRequest -> result (bool * E) (list server_event)) (started : Z)
  (req : LogsRequest) : list LogEntry * machine_logs_end E :=
  match log_source_of (lr_Id req) with
  | None => ([], UnsupportedSystemService (lr_Id req))
  | Some src =>
      match open src req with
      | Err (true, e) => ([], LogSourceNotFound e)
      | Err (false, e) => ([], LogSourceFailed e)
      | Ok evs => let '(sent, _, r) := serve (lr_Follow req) started 0 evs in (sent, LogsEnd r)
      end
  end.

Section Client.
Context {E : Type} (call : string -> LogsRequest -> result E (list LogEntry)).

Definition system_logs_request (service : string) (follow : bool) (tail : Z) (since until_ : string) : LogsRequest :=
  mkLogsRequest service follow (request_tail follow tail) since until_.

Definition systemServiceLogs (machineID service : string) (follow : bool) (tail : Z) (since until_ : string) :
  result E (list LogEntry) := call machineID (system_logs_request service follow tail since until_).

Definition system_metadata (service : string) (m : ServiceClient.MachineMember) : LogMerger.Metadata :=
  mkMeta service service "" (mm_Id m) (mm_Name m) "".

Inductive system_logs_error := SystemLogsMachines | NoMachinesFound | SystemLogsOpen (machine : string) (e : E).

Fixpoint system_streams (service : string) (follow : bool) (tail : Z) (since until_ : string) (ms : list ServiceClient.MachineMember) :
  result system_logs_error (list (list ServiceLogEntry)) :=
  match ms with
  | [] => Ok []
  | m :: rest =>
      match systemServiceLogs (mm_Id m) service follow tail since until_ with
      | Err e => Err (SystemLogsOpen (mm_Name m) e)
      | Ok es =>
          match system_streams service follow tail since until_ rest with
          | Err e => Err e
          | Ok ss => Ok (logsStreamWithServiceMetadata (system_metadata service m) es :: ss)
          end
      end
  end.

(** The streams that are merged. *)
Definition ClientMachineLogs (listing : result E (list ServiceClient.MachineMember)) (service : string) (follow : bool) (tail : Z)
  (since until_ : string) (machines : list string) : result system_logs_error (list (list ServiceLogEntry)) :=
  match listing with
  | Err _ => Err SystemLogsMachines
  | Ok members =>
      match list_machines members (Some (mkFilter false machines)) with
      | Err _ => Err SystemLogsMachines
      | Ok [] => Err NoMachinesFound
      | Ok ms => system_streams service follow tail since until_ ms
      end
  end.
End Client.

(** ** Properties *)

(** The time of a machine is the one of the last member that has its address. *)
Lemma machine_rtts_spec ips rtts id : machine_rtts ips rtts !! id =
  (fun s => (rtt_Median s, rtt_StdDev s)) <$>
    last (List.filter (fun s => bool_decide (machine_at (ap_Addr (rtt_Addr s)) ips = Some id)) rtts).
Proof.
  unfold machine_rtts. induction rtts as [|s rtts IH] using rev_ind; [done|].
  rewrite fold_left_app, List.filter_app. cbn [fold_left List.filter].
  destruct (machine_at (ap_Addr (rtt_Addr s)) ips) as [id'|] eqn:Hid.
  - rewrite lookup_insert. case_decide as Hd.
    + subst id'. rewrite bool_decide_true by done. by rewrite last_snoc.
    + rewrite bool_decide_false by congruence. by rewrite app_nil_r.
  - rewrite bool_decide_false by done. by rewrite app_nil_r.
Qed.

(** An address is that of the last machine that has it. *)
Lemma machine_at_ips ms : forall acc ips, machine_ips ms acc = Some ips -> forall ip, machine_at ip ips =
  match last (List.filter (fun m => bool_decide (management_addr m = Some ip)) ms) with
  | Some m => Some (mi_Id m)
  | None => machine_at ip acc
  end.
Proof.
  induction ms as [|m ms IH]; intros acc ips; cbn [machine_ips]; [by intros [= ->] ip|].
  cbn [List.filter]. destruct (management_addr m) as [a|]; [|done].
  intros Hips ip. rewrite (IH _ _ Hips ip). cbn [machine_at set_machine_ip].
  destruct (bool_decide_reflect (Some a = Some ip)) as [[= ->]|Hne].
  - rewrite last_cons. destruct (last _); [done|]. by rewrite decide_True by done.
  - destruct (last _); [done|]. rewrite decide_False by congruence. done.
Qed.

(** A machine tells about itself the addresses it has: the client reads back the subnet,
    the addresses and the endpoints of its state. *)
Lemma native_of_Info rt s m st : m = Info rt s -> prefix_wf (cf_Subnet (st_Network s)) ->
  addr_wf (cf_ManagementIP (st_Network s)) -> IsValid (cf_ManagementIP (st_Network s)) = true ->
  addr_wf (st_PublicIP s) ->
  Forall (fun ep => addr_wf (ap_Addr ep) /\ IsValid (ap_Addr ep) = true /\ 0 <= ap_Port ep < 2 ^ 16) (st_Endpoints s) ->
  machineMemberFromProto (mkMachineMember m st) = Some (mkNativeMember (st_ID s) (st_Name s) (capitalise (state_String st))
    (mkMachineNetwork (cf_Subnet (st_Network s)) (cf_ManagementIP (st_Network s)) (st_Endpoints s) (cf_PublicKey (st_Network s)))
    (if IsValid (st_PublicIP s) then st_PublicIP s else NoAddr)
    (rt_DaemonVersion rt) (rt_DockerVersion rt) (rt_Hostname rt) (rt_Arch rt) (rt_OsPrettyName rt) (rt_KernelVersion rt)).
Proof.
  intros -> Hsub Hman Hval Hpub Heps. unfold machineMemberFromProto, Info. cbn [mem_Machine mem_State mi_Network mi_PublicIp].
  unfold native_network. cbn [nc_Subnet nc_Endpoints nc_ManagementIp nc_PublicKey].
  rewrite NewIPPrefix_ToPrefix by done. cbn [fmap option_fmap option_map].
  assert (Hvalid : valid_endpoints (map (fun ep => Some (pb_port ep)) (st_Endpoints s)) = Some (st_Endpoints s)).
  { induction Heps as [|[a p] eps (Hwf & Hv & Hp) _ IH]; [done|]. cbn [map valid_endpoints ap_Addr ap_Port] in *.
    rewrite IH. unfold pb_port, NewIPPort, ToAddrPort. cbn [ipp_Ip ipp_Port ap_Addr ap_Port]. rewrite NewIP_ToAddr by done. cbn. by rewrite Z.mod_small by lia. }
  rewrite Hvalid. unfold addr_or_zero. rewrite NewIP_ToAddr by done. cbn [fmap option_fmap option_map].
  destruct (IsValid (st_PublicIP s)) eqn:Hip; [|done]. by rewrite NewIP_ToAddr.
Qed.

(** The merged streams of a system service: one for each machine that is asked for, with
    its metadata, of the entries the machine sends for the request. *)
Lemma system_streams_spec {E} (call : string -> LogsRequest -> result E (list LogEntry)) service follow tail since until_ ms : forall ss,
  system_streams call service follow tail since until_ ms = Ok ss ->
  Forall2 (fun m stream => exists es, call (mm_Id m) (system_logs_request service follow tail since until_) = Ok es /\
             stream = logsStreamWithServiceMetadata (system_metadata service m) es) ms ss.
Proof.
  induction ms as [|m ms IH]; intros ss; cbn [system_streams]; [intros [= <-]; constructor|].
  unfold systemServiceLogs. destruct (call (mm_Id m) _) as [es|e] eqn:Hc; [|done].
  destruct (system_streams call service follow tail since until_ ms) as [ss'|e]; [|done]. intros [= <-].
  constructor; [by exists es|by apply IH].
Qed.

(** A machine serves the logs of the three system services only, and those of a service
    whose source opens as [ContainerLogs] serves those of a container. *)
Lemma MachineLogs_spec {E} (open : log_source -> LogsRequest -> result (bool * E) (list server_event)) started req :
  (lr_Id req ∈ [SystemServiceCorrosion; SystemServiceDocker; SystemServiceUncloud] /\ exists src, log_source_of (lr_Id req) = Some src /\
    forall evs, open src req = Ok evs -> exists last r, serve (lr_Follow req) started 0 evs = (fst (MachineLogs open started req), last, r) /\
      snd (MachineLogs open started req) = LogsEnd r) \/
  (lr_Id req ∉ [SystemServiceCorrosion; SystemServiceDocker; SystemServiceUncloud] /\
    MachineLogs open started req = ([], UnsupportedSystemService (lr_Id req))).
Proof.
  unfold MachineLogs, log_source_of.
  destruct (String.eqb_spec (lr_Id req) SystemServiceUncloud) as [He|Hu]; [|destruct (String.eqb_spec (lr_Id req) SystemServiceDocker) as [He|Hd];
    [|destruct (String.eqb_spec (lr_Id req) SystemServiceCorrosion) as [He|Hc]]]; cbn [orb].
  4: { right. split; [|done]. rewrite !not_elem_of_cons. split_and!; try done. apply not_elem_of_nil. }
  all: left; split; [rewrite He; set_solver|]; eexists; (split; [done|]); intros evs Ho; rewrite Ho;
    destruct (serve _ _ _ _) as [[sent last] r]; by exists last, r.
Qed.

(** The loops that read the version and the gaps do not look at the error of the rows: a
    listing that breaks off is taken for a complete one.  For the gaps this ends the wait
    of [waitStoreSync] while changes are still missing. *)
Definition broken_listing_of_gaps : response :=
  Responds 200 [Decoded (Corrosion.mkEvent (Some ["actor_id"; "start"; "end"]) None None None None); DecodeFails "connection reset"].

Example broken_gap_listing `{BlobJSON} (s : State) :
  let gaps := KnownMissingChanges broken_listing_of_gaps in
  let s := with_min_version {["a" := 5]} s in
  gaps = Ok [] /\
  waitStoreSync (W := unit) (E := version_error) (fun _ w => (w, Ok tt))
    [SyncVersion (Ok {["a" := 5]}) [GapMissing (match gaps with Ok l => Ok (length l) | Err e => Err e end)] false] s tt =
  Some (with_min_version ∅ s, tt, Ok tt).
Proof. split; [done|]. vm_compute. reflexivity. Qed.
