(* ===== verification/Dns.v ===== *)
(** * Dns: the internal DNS server and its resolver, [internal/machine/dns]

    [ClusterResolver] keeps the addresses of the healthy service containers of the cluster by
    service name, service ID and machine; [Server] answers the A queries of the [internal.]
    domain from it and forwards every other query. The DNS message functions of
    github.com/miekg/dns are parameters. *)
From S2P Require Import Prelude GoStrings NetAddr NetText Spec Container.
#[local] Open Scope string_scope.
#[local] Open Scope list_scope.
#[local] Infix "+++" := String.append (at level 60, right associativity).

(** ** The resolver ([resolver.go]) *)
Record ContainerRecord := mkRecord { rec_Container : ServiceContainer; rec_MachineID : string }.

Record ClusterResolver := mkResolver { serviceIPs : gmap string (list addr) }.

Definition NewClusterResolver : ClusterResolver := mkResolver ∅.

Definition addr_less (a b : addr) : bool := match addr_Compare a b with Lt => true | _ => false end.

(** The address a record contributes, if it is to be resolved at all. *)
Definition record_ip (r : ContainerRecord) : option addr :=
  let c := rec_Container r in
  if IsHook c then None
  else if negb (Healthy (ctr c)) then None
  else
    let ip := UncloudNetworkIP (ctr c) in
    if negb (IsValid ip) then None
    else if String.eqb (ServiceID c) "" || String.eqb (ServiceName c) "" then None
    else Some ip.

Definition serviceNameWithMachineID (r : ContainerRecord) : string :=
  rec_MachineID r +++ ".m." +++ ServiceName (rec_Container r).

Definition add_record (ips : gmap string (list addr)) (r : ContainerRecord) : gmap string (list addr) :=
  match record_ip r with
  | None => ips
  | Some ip =>
      map_append (serviceNameWithMachineID r) ip
        (map_append (ServiceID (rec_Container r)) ip
          (map_append (ServiceName (rec_Container r)) ip ips))
  end.

Section Resolver.
Context {HS : GoSort}.

Definition sort_ips (l : list addr) : list addr := sort_slice addr_less l.

Definition updateServiceIPs (containers : list ContainerRecord) (r : ClusterResolver) : ClusterResolver :=
  let newServiceIPs := sort_ips <$> fold_left add_record containers ∅ in
  if bool_decide (serviceIPs r = newServiceIPs) then r else mkResolver newServiceIPs.

(** An empty list when the name is unknown. *)
Definition Resolve (r : ClusterResolver) (serviceName : string) : list addr :=
  match serviceIPs r !! serviceName with
  | None | Some [] => []
  | Some ips => map id ips
  end.

(** The loop of [Run]: a change notification comes with the answer of [ListContainers]. *)
Inductive resolver_event :=
| Changed (listed : option (list ContainerRecord))
| ChangesClosed
| ContextDone.

Inductive resolver_error := SubscriptionFailed.

(** [None]: the loop is still waiting for the next event. *)
Fixpoint resolver_loop (events : list resolver_event) (r : ClusterResolver) :
  ClusterResolver * option (result resolver_error unit) :=
  match events with
  | [] => (r, None)
  | Changed None :: events' => resolver_loop events' r
  | Changed (Some containers) :: events' => resolver_loop events' (updateServiceIPs containers r)
  | ChangesClosed :: _ => (r, Some (Err SubscriptionFailed))
  | ContextDone :: _ => (r, Some (Ok tt))
  end.

Definition Run (containers : list ContainerRecord) (events : list resolver_event) (r : ClusterResolver) :=
  resolver_loop events (updateServiceIPs containers r).
End Resolver.

(** ** The server ([server.go]) *)
Definition InternalDomain := "internal.".
Definition DnsPort : N := 53.
Definition maxConcurrentForwards : nat := 1024.

Definition RcodeSuccess : Z := 0.
Definition RcodeFormatError : Z := 1.
Definition RcodeServerFailure : Z := 2.
Definition RcodeNameError : Z := 3.
Definition TypeA : Z := 1.
Definition ClassINET : Z := 1.
Definition MinMsgSize : Z := 512.
Definition MaxMsgSize : Z := 65535.

Inductive server_error := InvalidListenAddress | ResolverMissing.

Section NewServer.
(** [nameservers]: the servers of /etc/resolv.conf, [None] when it cannot be read. *)
Definition parseNameservers (servers : list string) : list addr :=
  omap ParseAddr servers.

Definition resolv_conf_upstreams (listenAddr : addr) (nameservers : option (list string)) : list (addr * N) :=
  match nameservers with
  | None => []
  | Some servers =>
      omap (fun ns => match addr_Compare ns listenAddr with Eq => None | _ => Some (ns, DnsPort) end)
        (parseNameservers servers)
  end.

Definition public_upstreams : list (addr * N) :=
  [(Addr4 (1 * 2 ^ 24 + 1 * 2 ^ 16 + 1 * 2 ^ 8 + 1), DnsPort); (Addr4 (8 * 2 ^ 24 + 8 * 2 ^ 16 + 8 * 2 ^ 8 + 8), DnsPort)].

(** [slices] appended to nil stay nil when nothing is appended. *)
Definition NewServer_upstreams (listenAddr : addr) (upstreams : slice (addr * N))
  (nameservers : option (list string)) : list (addr * N) :=
  match upstreams with
  | Some l => l
  | None => match resolv_conf_upstreams listenAddr nameservers with [] => public_upstreams | l => l end
  end.

Definition NewServer (listenAddr : addr) (has_resolver : bool) (upstreams : slice (addr * N))
  (nameservers : option (list string)) : result server_error (list (addr * N)) :=
  if negb (IsValid listenAddr) then Err InvalidListenAddress
  else if negb has_resolver then Err ResolverMissing
  else Ok (NewServer_upstreams listenAddr upstreams nameservers).
End NewServer.

(** [net.ParseIP]: no zones. *)
Definition ParseIP (s : string) : option addr :=
  match ParseAddr s with
  | Some a => if String.eqb (addr_zone a) "" then Some a else None
  | None => None
  end.

Record A_record := mkA { rr_Name : string; rr_Rrtype : Z; rr_Class : Z; rr_Ttl : Z; rr_A : option addr }.
Record Question := mkQuestion { q_Name : string; q_Qtype : Z }.

Fixpoint cut_mode (modes : list string) (name : string) : string * string :=
  match modes with
  | [] => (name, "")
  | mode :: modes' =>
      match cut_prefix (mode +++ ".") name with
      | Some cut => (cut, mode)
      | None => cut_mode modes' name
      end
  end.

Definition extractModeFromDomain (name : string) : string * string := cut_mode ["nearest"; "rr"] name.

(** What the server uses of the message library. The fields of a message are the ones the
    code reads or sets. *)
Class DnsLibrary := {
  Msg : Type;
  CanonicalName : string -> string;
  IsSubDomain : string -> string -> bool;
  Questions : Msg -> list Question;
  EdnsUDPSize : Msg -> option Z;
  SetRcode : Msg -> Z -> Msg;      (* new(dns.Msg).SetRcode(req, rcode) *)
  SetReply : Msg -> Msg;           (* new(dns.Msg).SetReply(req) *)
  with_flags : Msg -> Msg;         (* resp.Authoritative, resp.RecursionAvailable = true *)
  append_answer : Msg -> list A_record -> Msg;
  set_rcode : Msg -> Msg -> Z -> Msg;   (* resp.SetRcode(req, rcode) *)
  Truncate : Msg -> Z -> Msg;
  Rcode : Msg -> Z;
  Answer : Msg -> list A_record
}.

Section Server.
Context {HS : GoSort} {HO : GoOrder} {HD : DnsLibrary}.
Context {E : Type} (Exchange : string -> Msg -> addr * N -> result E Msg).

Definition trimInternalDomain (name : string) : string :=
  let name := CanonicalName name in
  if negb (IsSubDomain InternalDomain name) then name
  else match cut_suffix ("." +++ InternalDomain) name with Some s => s | None => name end.

Definition local_first (localSubnet : prefix) (a b : addr) : bool :=
  prefix_Contains localSubnet a && negb (prefix_Contains localSubnet b).

(** [handleAQuery]; [resolve] is the server's [Resolver]. *)
Definition order_ips (localSubnet : prefix) (mode : string) (ips : list addr) : list addr :=
  match ips with
  | _ :: _ :: _ =>
      let ips := any_order 0 ips in
      if String.eqb mode "nearest" then sort_slice (local_first localSubnet) ips else ips
  | _ => ips
  end.

Definition handleAQuery (localSubnet : prefix) (resolve : string -> list addr) (name : string) : list A_record :=
  let '(serviceName, mode) := extractModeFromDomain (trimInternalDomain name) in
  match resolve serviceName with
  | [] => []
  | ips => map (fun ip => mkA name TypeA ClassINET 0 (ParseIP (addr_String ip))) (order_ips localSubnet mode ips)
  end.

Inductive forward_error := NoUpstreams | TooManyForwards | UpstreamFailed (e : E).

Fixpoint exchange_loop (proto : string) (req : Msg) (servers : list (addr * N)) (lastErr : option E) :
  result forward_error Msg :=
  match servers with
  | [] => match lastErr with Some e => Err (UpstreamFailed e) | None => Err NoUpstreams end
  | server :: servers' =>
      match Exchange proto req server with
      | Ok resp => Ok resp
      | Err e => exchange_loop proto req servers' (Some e)
      end
  end.

(** [inFlight]: the number of forwarded queries in progress. *)
Definition forwardRequest (upstreams : list (addr * N)) (inFlight : nat) (req : Msg) (proto : string) :
  result forward_error Msg :=
  match upstreams with
  | [] => Err NoUpstreams
  | _ => if Nat.ltb inFlight maxConcurrentForwards then exchange_loop proto req upstreams None
         else Err TooManyForwards
  end.

Definition max_size (req : Msg) (network : string) : Z :=
  if String.eqb network "tcp" then MaxMsgSize
  else match EdnsUDPSize req with
       | Some udpSize => if MinMsgSize <? udpSize then udpSize else MinMsgSize
       | None => MinMsgSize
       end%Z.

Definition internal_response (localSubnet : prefix) (resolve : string -> list addr) (req : Msg) (q : Question)
  (network : string) : Msg :=
  let resp := with_flags (SetReply req) in
  let resp :=
    if (q_Qtype q =? TypeA)%Z then
      match handleAQuery localSubnet resolve (q_Name q) with
      | [] => set_rcode resp req RcodeNameError
      | records => append_answer resp records
      end
    else resp in
  Truncate resp (max_size req network).

Definition handleRequest (localSubnet : prefix) (resolve : string -> list addr) (upstreams : list (addr * N))
  (inFlight : nat) (network : string) (req : Msg) : Msg :=
  match Questions req with
  | [] => SetRcode req RcodeFormatError
  | q :: _ =>
      if negb (IsSubDomain InternalDomain (CanonicalName (q_Name q))) then
        match forwardRequest upstreams inFlight req network with
        | Ok resp => resp
        | Err _ => SetRcode req RcodeServerFailure
        end
      else internal_response localSubnet resolve req q network
  end.

(** [reply]: the messages written, and whether the first one was. *)
Definition reply (WriteMsg : Msg -> bool) (req resp : Msg) : list Msg * bool :=
  if WriteMsg resp then ([resp], true)
  else if (Rcode resp =? RcodeServerFailure)%Z then ([resp], false)
  else ([resp; SetRcode req RcodeServerFailure], false).
End Server.

(** * The order of the addresses *)
Lemma Z_total : total_less Z.ltb.
Proof. split; [split_and!|]; intros; rewrite ?Z.ltb_lt, ?Z.ltb_ge in *; lia. Qed.

Lemma addr_less_lex a b :
  addr_less a b =
  lex_less BitLen Z.ltb (lex_less addr_val Z.ltb (fun a b => String.ltb (addr_zone a) (addr_zone b))) a b.
Proof.
  unfold addr_less, addr_Compare, lex_less, Z.ltb.
  destruct (Z.compare_spec (BitLen a) (BitLen b)) as [E|L|L]; [rewrite decide_True by done|rewrite decide_False by lia; done..].
  destruct (Z.compare_spec (addr_val a) (addr_val b)) as [E'|L|L]; [rewrite decide_True by done|rewrite decide_False by lia; done..].
  done.
Qed.

Lemma addr_weak : strict_weak addr_less.
Proof.
  assert (H : strict_weak (lex_less BitLen Z.ltb (lex_less addr_val Z.ltb (fun a b => String.ltb (addr_zone a) (addr_zone b))))).
  { do 2 (apply lex_less_weak; [apply Z_total|]). destruct string_total as [(H1 & H2 & H3) _]. split_and!; eauto. }
  destruct H as (H1 & H2 & H3). split_and!; intros *; rewrite !addr_less_lex; eauto.
Qed.

Lemma addr_total : total_less addr_less.
Proof.
  split; [apply addr_weak|]. intros a b. rewrite !addr_less_lex. intros H1 H2.
  destruct (lex_less_total _ _ _ _ _ Z_total H1 H2) as (Hb & H3 & H4).
  destruct (lex_less_total _ _ _ _ _ Z_total H3 H4) as (Hv & H5 & H6).
  pose proof (proj2 string_total _ _ H5 H6) as Hz. destruct a, b; simpl in *; congruence.
Qed.

(** * What a name resolves to *)
Definition names_of (r : ContainerRecord) : list string :=
  [ServiceName (rec_Container r); ServiceID (rec_Container r); serviceNameWithMachineID r].

(** A record contributes its address once per name of its that is asked for. *)
Definition contributes (name : string) (r : ContainerRecord) : list addr :=
  match record_ip r with
  | None => []
  | Some ip => map (fun _ => ip) (List.filter (String.eqb name) (names_of r))
  end.
Definition addresses (name : string) (rs : list ContainerRecord) : list addr :=
  concat (map (contributes name) rs).

Lemma map_get_add_record name ips r :
  map_get (add_record ips r) name = map_get ips name ++ contributes name r.
Proof.
  unfold add_record, contributes. destruct (record_ip r) as [ip|]; [|by rewrite app_nil_r].
  rewrite !map_get_append, <- !app_assoc. f_equal. unfold names_of. cbn [List.filter].
  assert (Hd : forall k, (if decide (k = name) then [ip] else []) = if String.eqb name k then [ip] else []).
  { intros k. destruct (String.eqb_spec name k), (decide (k = name)); congruence. }
  rewrite !Hd. by do 3 destruct (String.eqb _ _).
Qed.

Lemma map_get_records name rs ips :
  map_get (fold_left add_record rs ips) name = map_get ips name ++ addresses name rs.
Proof.
  revert ips. induction rs as [|r rs IH]; intros ips; simpl; [by rewrite app_nil_r|].
  by rewrite IH, map_get_add_record, <- app_assoc.
Qed.

#[global] Instance addresses_proper name : Proper ((≡ₚ) ==> (≡ₚ)) (addresses name).
Proof.
  intros l1 l2 H. unfold addresses. induction H; simpl; [done|by f_equiv| |by etrans].
  rewrite !app_assoc. f_equiv. apply Permutation_app_comm.
Qed.

Section ResolverSpec.
Context {HS : GoSort}.

Lemma sort_ips_nil : sort_ips [] = [].
Proof. apply Permutation_nil. symmetry. apply sort_slice_perm. Qed.

Lemma Resolve_get r name : Resolve r name = map_get (serviceIPs r) name.
Proof. unfold Resolve, map_get. destruct (serviceIPs r !! name) as [[|a l]|]; simpl; by rewrite ?map_id. Qed.

Lemma Resolve_update rs r name : Resolve (updateServiceIPs rs r) name = sort_ips (addresses name rs).
Proof.
  assert (Hnew : map_get (sort_ips <$> fold_left add_record rs ∅) name = sort_ips (addresses name rs)).
  { pose proof (map_get_records name rs ∅) as H. unfold map_get in *. rewrite lookup_empty in H. simpl in H.
    rewrite lookup_fmap. destruct (fold_left add_record rs ∅ !! name) as [l|]; simpl in *; rewrite <- H; [done|].
    by rewrite sort_ips_nil. }
  rewrite Resolve_get. unfold updateServiceIPs. destruct (bool_decide_reflect (serviceIPs r = sort_ips <$> fold_left add_record rs ∅)) as [->|_]; done.
Qed.

(** The containers of the last listing that succeeded before the loop ended. *)
Fixpoint latest (containers : list ContainerRecord) (events : list resolver_event) : list ContainerRecord :=
  match events with
  | Changed None :: events' => latest containers events'
  | Changed (Some listed) :: events' => latest listed events'
  | _ => containers
  end.

Lemma resolver_loop_latest rs events r :
  exists r', (resolver_loop events (updateServiceIPs rs r)).1 = updateServiceIPs (latest rs events) r'.
Proof.
  revert rs r. induction events as [|[[rs'|]| |] events IH]; intros rs r; simpl; eauto.
Qed.

Lemma elem_of_addresses ip name rs :
  ip ∈ addresses name rs <-> exists r, r ∈ rs /\ record_ip r = Some ip /\ name ∈ names_of r.
Proof.
  unfold addresses. rewrite list_elem_of_In, in_concat. setoid_rewrite in_map_iff. setoid_rewrite <- list_elem_of_In.
  split.
  - intros (? & (r & <- & Hr) & Hip). exists r. split; [done|]. unfold contributes in Hip.
    destruct (record_ip r) as [ip'|]; [|by apply not_elem_of_nil in Hip].
    rewrite list_elem_of_In, in_map_iff in Hip. destruct Hip as (n & -> & [Hn He%String.eqb_eq]%List.filter_In).
    subst n. split; [done|]. by apply list_elem_of_In.
  - intros (r & Hr & Hip & Hn). exists (contributes name r). split; [by exists r|].
    unfold contributes. rewrite Hip. rewrite list_elem_of_In, in_map_iff. exists name. split; [done|].
    apply List.filter_In. split; [by apply list_elem_of_In|apply String.eqb_refl].
Qed.
End ResolverSpec.

(** * The answers of the server *)
Class DnsLaws `{HD : DnsLibrary} := {
  IsSubDomain_internal name :
    IsSubDomain InternalDomain (CanonicalName name) = true <->
    CanonicalName name = InternalDomain \/ exists p, CanonicalName name = p +++ "." +++ InternalDomain;
  Rcode_SetRcode req rc : Rcode (SetRcode req rc) = rc;
  Rcode_set_rcode m req rc : Rcode (set_rcode m req rc) = rc;
  Answer_set_rcode m req rc : Answer (set_rcode m req rc) = Answer m;
  Rcode_reply req : Rcode (with_flags (SetReply req)) = RcodeSuccess;
  Answer_reply req : Answer (with_flags (SetReply req)) = [];
  Rcode_append m l : Rcode (append_answer m l) = Rcode m;
  Answer_append m l : Answer (append_answer m l) = Answer m ++ l;
  Rcode_Truncate m n : Rcode (Truncate m n) = Rcode m;
  Answer_Truncate m n : Answer (Truncate m n) `prefix_of` Answer m
}.

(** The A record of an address under the name that was asked for. *)
Definition a_record (name : string) (ip : addr) : A_record := mkA name TypeA ClassINET 0 (Some ip).

Definition is_ipv4 (a : addr) : Prop := exists v, a = Addr4 v /\ (0 <= v < 2 ^ 32)%Z.

Lemma ParseIP_text ip : is_ipv4 ip -> ParseIP (addr_String ip) = Some ip.
Proof. intros (v & -> & Hv). unfold ParseIP. by rewrite ParseAddr_String4. Qed.

Lemma record_ip_ipv4 r v : record_ip r = Some (Addr4 v) -> is_ipv4 (Addr4 v).
Proof.
  unfold record_ip. destruct (IsHook _); [done|]. destruct (negb (Healthy _)); [done|].
  destruct (negb (IsValid _)); [done|]. destruct (_ || _); [done|]. intros [= Hip]. exists v. split; [done|].
  unfold UncloudNetworkIP in Hip. destruct (_ !! _) as [text|]; [|done].
  destruct (ParseAddr text) as [a|] eqn:Hp; [|done]. simpl in Hip. subst a. by apply (ParseAddr_range4 text).
Qed.

Section ServerSpec.
Context {HS : GoSort} {HO : GoOrder} {HD : DnsLibrary} {HL : DnsLaws}.
Context {E : Type} (Exchange : string -> Msg -> addr * N -> result E Msg).

Lemma local_first_weak net : strict_weak (local_first net).
Proof. unfold local_first. split_and!; intros *; repeat destruct (prefix_Contains net _); naive_solver. Qed.

(** Remote addresses never precede local ones. *)
Definition nearest_first (net : prefix) (l : list addr) : Prop :=
  Sorted (fun a b => local_first net b a = false) l.

Lemma order_ips_perm net mode ips : order_ips net mode ips ≡ₚ ips.
Proof.
  unfold order_ips. destruct ips as [|a [|b l]]; [done|done|].
  destruct (String.eqb mode "nearest"); [rewrite sort_slice_perm|]; apply any_order_perm.
Qed.

Lemma order_ips_nearest net ips : nearest_first net (order_ips net "nearest" ips).
Proof.
  unfold order_ips. destruct ips as [|a [|b l]]; [constructor|repeat constructor|].
  apply (sort_slice_sorted _ (local_first net)), local_first_weak.
Qed.

Lemma trimInternalDomain_internal name service :
  CanonicalName name = service +++ "." +++ InternalDomain -> trimInternalDomain name = service.
Proof.
  intros Hc. unfold trimInternalDomain. rewrite (proj2 (IsSubDomain_internal name)) by eauto. simpl.
  by rewrite Hc, cut_suffix_app.
Qed.

Lemma handleAQuery_spec net resolve name service :
  CanonicalName name = service +++ "." +++ InternalDomain ->
  let (base, mode) := extractModeFromDomain service in
  Forall is_ipv4 (resolve base) ->
  exists l, l ≡ₚ resolve base /\ (mode = "nearest" -> nearest_first net l) /\
    handleAQuery net resolve name = map (a_record name) l.
Proof.
  intros Hc. destruct (extractModeFromDomain service) as [base mode] eqn:Hm. intros H4.
  exists (order_ips net mode (resolve base)). split_and!; [apply order_ips_perm|intros ->; apply order_ips_nearest|].
  unfold handleAQuery. rewrite (trimInternalDomain_internal name service Hc), Hm.
  assert (Hall : Forall is_ipv4 (order_ips net mode (resolve base))) by by rewrite order_ips_perm.
  assert (Hmap : map (fun ip => mkA name TypeA ClassINET 0 (ParseIP (addr_String ip))) (order_ips net mode (resolve base)) =
    map (a_record name) (order_ips net mode (resolve base))).
  { apply map_ext_in. intros ip Hip%list_elem_of_In. rewrite Forall_forall in Hall. by rewrite ParseIP_text by by apply Hall. }
  destruct (resolve base) as [|a l]; [done|exact Hmap].
Qed.

(** The first upstream server that answers is the one whose answer is used. *)
Lemma exchange_loop_first proto req servers lastErr resp :
  exchange_loop Exchange proto req servers lastErr = Ok resp <->
  exists before server after, servers = before ++ server :: after /\
    Forall (fun s => is_ok (Exchange proto req s) = false) before /\ Exchange proto req server = Ok resp.
Proof.
  revert lastErr. induction servers as [|s servers IH]; intros lastErr; simpl.
  - split; [by destruct lastErr|]. by intros ([] & server & after & ? & _).
  - destruct (Exchange proto req s) as [r|e] eqn:Hs.
    + split; [intros [= <-]; exists [], s, servers; split_and!; [done|constructor|done]|].
      intros ([|b before] & server & after & [= -> ->] & Hb & Hr); [congruence|].
      apply Forall_inv in Hb. by rewrite Hs in Hb.
    + rewrite IH. split.
      * intros (before & server & after & -> & Hb & Hr). exists (s :: before), server, after.
        split_and!; [done|constructor; [by rewrite Hs|done]|done].
      * intros ([|b before] & server & after & [= -> ->] & Hb & Hr); [congruence|].
        exists before, server, after. apply Forall_inv_tail in Hb. done.
Qed.
End ServerSpec.

(** * Properties *)

(** After any sequence of change notifications the resolver answers from the last listing of
    the containers that succeeded: a name resolves to the network addresses of exactly the
    healthy service containers, hooks excluded, that have it as their service name, service ID or
    machine-qualified service name, one per container and name, in the order of the addresses
    whatever the order of the listing. *)
Lemma resolver_follows_containers `{HS : GoSort} containers events name :
  let resolved := Resolve (Run containers events NewClusterResolver).1 name in
  let live := latest containers events in
  resolved ≡ₚ addresses name live /\
  (forall ip, ip ∈ resolved <-> exists r, r ∈ live /\ record_ip r = Some ip /\ name ∈ names_of r) /\
  forall listed, listed ≡ₚ live -> resolved = Resolve (updateServiceIPs listed NewClusterResolver) name.
Proof.
  cbv zeta. destruct (resolver_loop_latest containers events NewClusterResolver) as [r' Hr'].
  unfold Run. rewrite Hr', !Resolve_update. split_and!.
  - apply sort_slice_perm.
  - intros ip. unfold sort_ips. rewrite sort_slice_perm. apply elem_of_addresses.
  - intros listed Hp. rewrite Resolve_update. apply (sort_slice_unique addr_less); [apply addr_weak|apply addr_total|].
    by rewrite Hp.
Qed.

(** The answers of the server. A message without a question is a format error. A query for a
    name outside the internal domain is answered with the answer of the first upstream server
    that gives one, or with a server failure. A query for the addresses of a service is answered
    from the containers of the cluster: its records, up to truncation, are one A record per live
    container under the name that was asked for, with the containers of the local machine first
    in the nearest mode, and the name is reported as unknown exactly when there is none. *)
Lemma handleRequest_spec `{HS : GoSort, HO : GoOrder, HL : DnsLaws} {E : Type}
  (Exchange : string -> Msg -> addr * N -> result E Msg) net containers events upstreams inFlight network req :
  let resp := handleRequest Exchange net (Resolve (Run containers events NewClusterResolver).1)
                upstreams inFlight network req in
  match Questions req with
  | [] => Rcode resp = RcodeFormatError
  | q :: _ =>
      (IsSubDomain InternalDomain (CanonicalName (q_Name q)) = false ->
       (exists before server after, upstreams = before ++ server :: after /\
          Forall (fun s => is_ok (Exchange network req s) = false) before /\ Exchange network req server = Ok resp) \/
       Rcode resp = RcodeServerFailure) /\
      (forall service, CanonicalName (q_Name q) = service +++ "." +++ InternalDomain -> q_Qtype q = TypeA ->
       let (base, mode) := extractModeFromDomain service in
       let live := addresses base (latest containers events) in
       Forall is_ipv4 live ->
       exists l, l ≡ₚ live /\ (mode = "nearest" -> nearest_first net l) /\
         Answer resp `prefix_of` map (a_record (q_Name q)) l /\
         Rcode resp = if decide (live = []) then RcodeNameError else RcodeSuccess)
  end.
Proof.
  cbv zeta. unfold handleRequest. destruct (Questions req) as [|q rest]; [apply Rcode_SetRcode|]. split.
  - intros ->. simpl. destruct (forwardRequest _ _ _ _ _) as [resp|e] eqn:Hf; [left|right; apply Rcode_SetRcode].
    unfold forwardRequest in Hf. destruct upstreams as [|s ss]; [done|]. destruct (Nat.ltb _ _); [|done].
    by apply exchange_loop_first in Hf.
  - intros service Hc Ht. rewrite (proj2 (IsSubDomain_internal (q_Name q))) by eauto. simpl.
    set (resolve := Resolve _). pose proof (handleAQuery_spec net resolve (q_Name q) service Hc) as Hq.
    destruct (extractModeFromDomain service) as [base mode]. intros H4.
    destruct (resolver_loop_latest containers events NewClusterResolver) as [r' Hr'].
    assert (Hres : resolve base ≡ₚ addresses base (latest containers events)).
    { unfold resolve, Run. rewrite Hr', Resolve_update. apply sort_slice_perm. }
    destruct Hq as (l & Hl & Hn & Hrec); [by rewrite Hres|]. rewrite Hres in Hl.
    exists l. split_and!; [done|done|..]; unfold internal_response; rewrite Ht, Hrec; simpl; rewrite ?Rcode_Truncate.
    + etrans; [apply Answer_Truncate|]. destruct l as [|a l]; simpl.
      * by rewrite Answer_set_rcode, Answer_reply.
      * by rewrite Answer_append, Answer_reply.
    + destruct l as [|a l]; simpl.
      * rewrite Rcode_set_rcode, decide_True; [done|]. by apply Permutation_nil.
      * rewrite Rcode_append, Rcode_reply, decide_False; [done|]. intros E0. rewrite E0 in Hl.
        by apply Permutation_nil_r in Hl.
Qed.

(** ** A cluster with a service on two machines *)
Record simple_msg := mkSimple { sm_questions : list Question; sm_rcode : Z; sm_answer : list A_record }.

Definition lower (c : ascii) : ascii :=
  if char_in 65 90 c then ascii_of_nat (nat_of_ascii c + 32) else c.
Definition lower_fqdn (s : string) : string :=
  let s := String.string_of_list_ascii (map lower (String.list_ascii_of_string s)) in
  if has_suffix "." s then s else s +++ ".".

Definition simple_dns : DnsLibrary := {|
  Msg := simple_msg;
  CanonicalName := lower_fqdn;
  IsSubDomain parent child := String.eqb child parent || has_suffix ("." +++ parent) child;
  Questions := sm_questions;
  EdnsUDPSize _ := None;
  SetRcode req rc := mkSimple (sm_questions req) rc [];
  SetReply req := mkSimple (sm_questions req) RcodeSuccess [];
  with_flags m := m;
  append_answer m l := mkSimple (sm_questions m) (sm_rcode m) (sm_answer m ++ l);
  set_rcode m _ rc := mkSimple (sm_questions m) rc (sm_answer m);
  Truncate m n := mkSimple (sm_questions m) (sm_rcode m) (take (Z.to_nat (n / 32)) (sm_answer m));
  Rcode := sm_rcode;
  Answer := sm_answer
|}.

Lemma simple_dns_laws : DnsLaws (HD := simple_dns).
Proof.
  constructor; simpl; try done.
  - intros name. rewrite orb_true_iff, has_suffix_spec. by destruct (String.eqb_spec (lower_fqdn name) InternalDomain); naive_solver.
  - intros m n. exists (drop (Z.to_nat (n / 32)) (sm_answer m)). by rewrite take_drop.
Qed.

Definition web_container (machine ip : string) : ContainerRecord :=
  mkRecord (mkServiceContainer
    (mkContainer machine machine None (mkState true false false false 0 "running" None None None)
       (Some {[LabelServiceID := "0123456789abcdef0123456789abcdef"; LabelServiceName := "web"]})
       "nginx" None (Some {[DockerNetworkName := ip]})) example_service) machine.

Definition web_query : simple_msg := mkSimple [mkQuestion "Nearest.Web.internal" TypeA] RcodeSuccess [].

