(* ===== verification/Caddy.v ===== *)
(** * Caddy: the reverse proxy configuration, [internal/machine/caddyconfig]

    Every machine generates the Caddyfile of its Caddy from the healthy service containers of
    the cluster, adds the user-defined configs that pass the validation, loads the result into
    Caddy and writes it to disk. The validator, the rendering of a user's template and the
    admin API of Caddy are parameters. *)
From S2P Require Import Prelude GoStrings NetAddr NetText Port Spec Container Dns.
#[local] Open Scope string_scope.
#[local] Open Scope list_scope.
#[local] Infix "+++" := String.append (at level 60, right associativity).

Definition CaddyServiceName := "caddy".
Definition VerifyPath := "/.uncloud-verify".

Definition nl : string := String (ascii_of_nat 10) "".
Definition tab : string := String (ascii_of_nat 9) "".
Definition quote : string := String (ascii_of_nat 34) "".

Fixpoint concat_strings (l : list string) : string :=
  match l with [] => "" | s :: l' => s +++ concat_strings l' end.
(** Lines, each ended by a newline. *)
Definition lines (l : list string) : string := concat_strings (map (fun s => s +++ nl) l).

Definition CaddyConfig (s : ServiceSpec) : string :=
  match Caddy s with None => "" | Some c => trim_space (caddy_Config c) end.

(** ** Upstreams *)
Definition upstreams_map := gmap string (list string).

Definition add_port (ip : addr) (maps : upstreams_map * upstreams_map) (port : PortSpec) :
  upstreams_map * upstreams_map :=
  if negb (String.eqb (Mode port) PortModeIngress) then maps
  else
    let upstream := JoinHostPort (addr_String ip) (itoa (ContainerPort port)) in
    if String.eqb (Protocol port) ProtocolHTTP then (map_append (Hostname port) upstream maps.1, maps.2)
    else if String.eqb (Protocol port) ProtocolHTTPS then (maps.1, map_append (Hostname port) upstream maps.2)
    else maps.

Definition add_container (maps : upstreams_map * upstreams_map) (c : ServiceContainer) :
  upstreams_map * upstreams_map :=
  let ip := UncloudNetworkIP (ctr c) in
  if negb (IsValid ip) then maps
  else match ServicePorts c with
       | Err _ => maps
       | Ok ports => fold_left (add_port ip) (els ports) maps
       end.

Definition httpUpstreamsFromPorts (containers : list ServiceContainer) : upstreams_map * upstreams_map :=
  fold_left add_container containers (∅, ∅).

Definition serviceUpstreams (containers : list ServiceContainer) : upstreams_map :=
  fold_left (fun m c =>
    let ip := UncloudNetworkIP (ctr c) in
    if negb (IsValid ip) then m else map_append (ServiceName c) (addr_String ip) m) containers ∅.

Definition sorted_keys {V} (m : gmap string V) : list string := sort_strings (map fst (map_to_list m)).

(** ** The base Caddyfile: the template [caddyfileTemplate] executed *)
Definition base_prologue (machineID : string) : string :=
  lines ["# Health check endpoint to verify Caddy reachability on this machine.";
         "http:// {";
         tab +++ "handle " +++ VerifyPath +++ " {";
         tab +++ tab +++ "respond " +++ quote +++ machineID +++ quote +++ " 200";
         tab +++ "}";
         tab +++ "log";
         "}";
         "";
         "(common_proxy) {";
         tab +++ "# Retry failed requests up to lb_retries times against other available upstreams.";
         tab +++ "lb_retries 3";
         tab +++ "# Upstreams are marked unhealthy for fail_duration after a failed request (passive health checking).";
         tab +++ "fail_duration 30s"] +++ "}".

Definition site (scheme hostname : string) (upstreams : list string) : string :=
  nl +++ nl +++
  lines [scheme +++ "://" +++ hostname +++ " {";
         tab +++ "reverse_proxy " +++ join " " upstreams +++ " {";
         tab +++ tab +++ "import common_proxy";
         tab +++ "}";
         tab +++ "log"] +++ "}".

(** A template ranges over a map in the order of its keys. *)
Definition sites (scheme : string) (m : upstreams_map) : string :=
  concat_strings (map (fun h => site scheme h (map_get m h)) (sorted_keys m)).

Definition generateBaseFromPorts (machineID : string) (containers : list ServiceContainer) : string :=
  let '(http, https) := httpUpstreamsFromPorts containers in
  base_prologue machineID +++
  (if bool_decide (http = ∅) && bool_decide (https = ∅) then ""
   else nl +++ nl +++ "# Sites generated from service ports.") +++
  sites "http" http +++ sites "https" https +++ nl.

(** ** The template function [upstreams] ([template.go]) *)
Inductive template_arg := ArgInt (n : Z) | ArgString (s : string) | ArgOther.
Inductive template_error := InvalidArgumentType | FirstNotString | SecondNotInt | TooManyArguments.

Definition upstreams_target (name : string) (args : list template_arg) : result template_error (string * Z) :=
  match args with
  | [] => Ok (name, 0%Z)
  | [ArgInt port] => Ok (name, port)
  | [ArgString s] => Ok (s, 0%Z)
  | [ArgOther] => Err InvalidArgumentType
  | [ArgString s; ArgInt port] => Ok (s, port)
  | [ArgString _; _] => Err SecondNotInt
  | [_; _] => Err FirstNotString
  | _ => Err TooManyArguments
  end.

(** [strconv.Itoa] of a positive number. *)
Definition upstreamsTemplateFn (name : string) (upstreams : upstreams_map) (args : list template_arg) :
  result template_error string :=
  match upstreams_target name args with
  | Err e => Err e
  | Ok (serviceName, port) =>
      Ok (join " " (map (fun ip => if (0 <? port)%Z then JoinHostPort ip (itoa (Z.to_N port)) else ip)
        (map_get upstreams serviceName)))
  end.

(** ** Generation *)
Record CaddyfileGenerator := mkGenerator { gen_machineID : string; gen_machineName : string }.

(** [text/template]: parse the config and execute it with the function [upstreams] and the
    name and upstreams of the service. *)
Class CaddyEnv := {
  execute_template : (list template_arg -> result template_error string) -> string -> upstreams_map ->
    string -> result string string;
  Validate : string -> result string unit;
  now_text : string
}.

Definition localMachineRank (g : CaddyfileGenerator) (machineID : string) : nat :=
  if String.eqb (gen_machineID g) machineID then 0 else 1.

(** [cmp.Or] of the three comparisons, negative. *)
Definition record_less (g : CaddyfileGenerator) : ContainerRecord -> ContainerRecord -> bool :=
  lex_less (fun r => localMachineRank g (rec_MachineID r)) Nat.ltb
    (lex_less (fun r => ServiceName (rec_Container r)) String.ltb
      (fun a b => (CreatedTime (ctr (rec_Container a)) <? CreatedTime (ctr (rec_Container b)))%Z)).

(** [slices.SortStableFunc] has one possible result, that of any stable sort. *)
Definition sort_records (g : CaddyfileGenerator) (records : list ContainerRecord) : list ContainerRecord :=
  insertion_sort (record_less g) records.

Definition header (g : CaddyfileGenerator) (time : string) : string :=
  lines ["# Caddyfile autogenerated by Uncloud on machine '" +++ gen_machineName g +++ "' (DO NOT EDIT): " +++ time;
         "# Automatically updated on service or health status changes.";
         "# Docs: https://uncloud.run/docs/concepts/ingress/overview"].

Definition unavailable_footer : string :=
  lines ["# NOTE: User-defined configs for services were skipped because Caddy is not running on this machine";
         "#       (not accessible via the shared admin socket /run/uncloud/caddy/admin.sock) or the latest";
         "#       generated config is invalid. Please check the service 'caddy' is running (uc inspect caddy)";
         "#       and its logs for more details (uc logs caddy)."].

Definition newer (a b : ServiceContainer) : bool := (CreatedTime (ctr b) <? CreatedTime (ctr a))%Z.

(** The most recent 'caddy' container of this machine. *)
Definition caddy_container (g : CaddyfileGenerator) (records : list ContainerRecord) : option ServiceContainer :=
  fold_left (fun found r =>
    let c := rec_Container r in
    if String.eqb (rec_MachineID r) (gen_machineID g) && String.eqb (ServiceName c) CaddyServiceName &&
       (match found with None => true | Some best => newer c best end)
    then Some c else found) records None.

Definition add_latest (m : gmap string ServiceContainer) (c : ServiceContainer) : gmap string ServiceContainer :=
  match m !! ServiceName c with
  | Some latest => if newer c latest then <[ServiceName c := c]> m else m
  | None => <[ServiceName c := c]> m
  end.

Definition latestServiceContainers (containers : list ServiceContainer) : gmap string ServiceContainer :=
  fold_left add_latest containers ∅.

(** A Caddyfile under construction, with the errors of the skipped configs. *)
Definition draft : Type := string * list string.

Section Generate.
Context {HE : CaddyEnv}.

Definition renderCaddyfile (name : string) (upstreams : upstreams_map) (config : string) : result string string :=
  execute_template (upstreamsTemplateFn name upstreams) name upstreams config.

(** Render a user-defined config, and keep the candidate it gives if it is valid. *)
Definition try_config (name : string) (upstreams : upstreams_map) (config : string)
  (candidate : string -> string) (d : draft) : draft :=
  match renderCaddyfile name upstreams config with
  | Err e => (d.1, d.2 ++ ["service '" +++ name +++ "': failed to render template: " +++ e])
  | Ok rendered =>
      match Validate (candidate rendered) with
      | Ok _ => (candidate rendered, d.2)
      | Err e => (d.1, d.2 ++ ["service '" +++ name +++ "': validation failed: " +++ e])
      end
  end.

Definition prepend_global (caddyCtr : option ServiceContainer) (upstreams : upstreams_map) (d : draft) : draft :=
  match caddyCtr with
  | None => d
  | Some c =>
      if String.eqb (CaddyConfig (spec c)) "" then d
      else try_config (ServiceName c) upstreams (CaddyConfig (spec c))
             (fun rendered => "# User-defined global config from service '" +++ ServiceName c +++ "'." +++ nl +++
                rendered +++ nl +++ nl +++ d.1) d
  end.

Definition append_service (latest : gmap string ServiceContainer) (upstreams : upstreams_map)
  (d : draft) (serviceName : string) : draft :=
  if String.eqb serviceName CaddyServiceName then d
  else match latest !! serviceName with
       | None => d
       | Some c =>
           if String.eqb (CaddyConfig (spec c)) "" then d
           else try_config serviceName upstreams (CaddyConfig (spec c))
                  (fun rendered => d.1 +++ nl +++ "# User-defined config for service '" +++ serviceName +++ "'." +++ nl +++
                     rendered +++ nl) d
       end.

Definition error_summary (errors : list string) : string :=
  match errors with
  | [] => ""
  | _ => nl +++ lines ("# Skipped invalid user-defined configs:" :: map (fun e => "# - " +++ e) errors)
  end.

(** The configs added to the base, in order. *)
Definition custom_configs (g : CaddyfileGenerator) (records : list ContainerRecord) (base : string) : draft :=
  let containers := map rec_Container records in
  let upstreams := serviceUpstreams containers in
  let latest := latestServiceContainers containers in
  fold_left (append_service latest upstreams) (sorted_keys latest)
    (prepend_global (caddy_container g records) upstreams (base, [])).

Definition Generate (g : CaddyfileGenerator) (records : list ContainerRecord) (includeCustom : bool) : string :=
  let records := sort_records g records in
  let base := generateBaseFromPorts (gen_machineID g) (map rec_Container records) in
  if negb includeCustom then header g now_text +++ nl +++ base +++ nl +++ unavailable_footer
  else
    let d := custom_configs g records base in
    header g now_text +++ nl +++ d.1 +++ error_summary d.2.
End Generate.

(** ** The JSON configuration ([jsonconfig.go]), before it is marshalled *)
Record proxy_route := mkRoute {
  route_host : string; route_upstreams : list string; route_retries : Z; route_fail_duration : Z }.

Definition hostUpstreamsToRoutes (m : upstreams_map) : list proxy_route :=
  map (fun h => mkRoute h (map_get m h) 3 (30 * 10 ^ 9)%Z) (sorted_keys m).

Record json_config := mkJSON {
  http_listen : string; http_routes : list proxy_route; http_verify : string * string;
  https_listen : string; https_routes : list proxy_route }.

Definition GenerateJSONConfig (containers : list ServiceContainer) (verifyResponse : string) : json_config :=
  let '(http, https) := httpUpstreamsFromPorts containers in
  mkJSON ":80" (hostUpstreamsToRoutes http) (VerifyPath, verifyResponse)
    ":443" (hostUpstreamsToRoutes https).

(** ** The controller ([controller.go]) *)
Record containerFingerprint := mkFingerprint {
  fp_ID : string; fp_IP : addr; fp_Ports : slice PortSpec; fp_CaddyConfig : string }.

Definition fingerprint_Equal (f other : containerFingerprint) : bool :=
  String.eqb (fp_ID f) (fp_ID other) && bool_decide (fp_IP f = fp_IP other) &&
  PortsEqual (els (fp_Ports f)) (els (fp_Ports other)) && String.eqb (fp_CaddyConfig f) (fp_CaddyConfig other).

Definition filterHealthyContainers (containers : list ContainerRecord) : list ContainerRecord :=
  List.filter (fun r => negb (IsHook (rec_Container r)) && Healthy (ctr (rec_Container r))) containers.

Definition fingerprint_of (r : ContainerRecord) : containerFingerprint :=
  let c := rec_Container r in
  mkFingerprint (ID (ctr c)) (UncloudNetworkIP (ctr c))
    (match ServicePorts c with Ok ports => ports | Err _ => None end) (CaddyConfig (spec c)).

Definition fingerprintContainers `{GoSort} (containers : list ContainerRecord) : list containerFingerprint :=
  sort_slice (fun a b => String.ltb (fp_ID a) (fp_ID b)) (map fingerprint_of containers).

(** [slices.EqualFunc] *)
Fixpoint equal_func {A} (eq : A -> A -> bool) (l1 l2 : list A) : bool :=
  match l1, l2 with
  | [], [] => true
  | x :: l1', y :: l2' => eq x y && equal_func eq l1' l2'
  | _, _ => false
  end.

(** The text after the first line. *)
Definition caddyfileBody (caddyfile : string) : string :=
  match cut_byte (ascii_of_nat 10) caddyfile with Some (_, after) => after | None => caddyfile end.

(** [disk] is the content of the Caddyfile, [loads] the configs Caddy has loaded, latest first. *)
Record Controller := mkController {
  generator : CaddyfileGenerator;
  lastFingerprint : slice containerFingerprint;
  lastCaddyfile : string;
  disk : option string;
  loads : list string }.

(** [os.WriteFile] truncates the file before it writes: a failure leaves anything behind. *)
Inductive file_write := Written | WriteFailed (left_behind : option string).

(** What one regeneration meets: whether Caddy is available, its validator and the time, which
    configs it loads, and whether the file can be written and its owner changed. *)
Record surroundings := mkSurroundings {
  IsAvailable : bool; env : CaddyEnv; Load : string -> bool; WriteFile : file_write; Chown : bool }.

Definition writeCaddyfileIfChanged (s : surroundings) (caddyfile : string) (c : Controller) : Controller :=
  if String.eqb (caddyfileBody caddyfile) (caddyfileBody (lastCaddyfile c)) then c
  else match WriteFile s with
       | WriteFailed left_behind =>
           mkController (generator c) (lastFingerprint c) (lastCaddyfile c) left_behind (loads c)
       | Written =>
           mkController (generator c) (lastFingerprint c)
             (if Chown s then caddyfile else lastCaddyfile c) (Some caddyfile) (loads c)
       end.

Definition with_fingerprint (c : Controller) (fp : slice containerFingerprint) (ls : list string) : Controller :=
  mkController (generator c) fp (lastCaddyfile c) (disk c) ls.

Definition generateAndLoadCaddyfile `{GoSort} (s : surroundings) (containers : list ContainerRecord) (c : Controller) :
  Controller :=
  let fingerprint := fingerprintContainers containers in
  if IsAvailable s && equal_func fingerprint_Equal fingerprint (els (lastFingerprint c)) then c
  else
    let caddyfile := @Generate (env s) (generator c) containers (IsAvailable s) in
    if negb (IsAvailable s) then writeCaddyfileIfChanged s caddyfile c
    else if Load s caddyfile then
      writeCaddyfileIfChanged s caddyfile (with_fingerprint c (Some fingerprint) (caddyfile :: loads c))
    else with_fingerprint c None (loads c).

(** The loop of [Run]: each change of the containers with the surroundings it is handled in. *)
Definition controller_run `{GoSort} (changes : list (surroundings * list ContainerRecord)) (c : Controller) : Controller :=
  fold_left (fun c ev => generateAndLoadCaddyfile ev.1 (filterHealthyContainers ev.2) c) changes c.

Definition NewController (machineID machineName : string) : Controller :=
  mkController (mkGenerator machineID machineName) None "" None [].

(** * Upstreams *)
Definition upstream_of (ip : addr) (p : PortSpec) : string := JoinHostPort (addr_String ip) (itoa (ContainerPort p)).

Definition serves (protocol hostname : string) (p : PortSpec) : bool :=
  String.eqb (Mode p) PortModeIngress && String.eqb (Protocol p) protocol && String.eqb (Hostname p) hostname.

(** The upstreams a container contributes to the site of a hostname. *)
Definition contributed (protocol hostname : string) (c : ServiceContainer) : list string :=
  let ip := UncloudNetworkIP (ctr c) in
  if negb (IsValid ip) then []
  else match ServicePorts c with
       | Err _ => []
       | Ok ports => map (upstream_of ip) (List.filter (serves protocol hostname) (els ports))
       end.

Lemma filter_cons_app {A} (f : A -> bool) x l :
  List.filter f (x :: l) = (if f x then [x] else []) ++ List.filter f l.
Proof. simpl. by destruct (f x). Qed.

Lemma add_ports_get ip h ports maps :
  map_get (fold_left (add_port ip) ports maps).1 h =
    map_get maps.1 h ++ map (upstream_of ip) (List.filter (serves ProtocolHTTP h) ports) /\
  map_get (fold_left (add_port ip) ports maps).2 h =
    map_get maps.2 h ++ map (upstream_of ip) (List.filter (serves ProtocolHTTPS h) ports).
Proof.
  revert maps. induction ports as [|p ports IH]; intros maps; [by rewrite !app_nil_r|].
  cbn [fold_left]. destruct (IH (add_port ip maps p)) as [-> ->].
  rewrite !filter_cons_app, !map_app, !app_assoc.
  assert (Hone : forall b : bool, map (upstream_of ip) (if b then [p] else []) = if b then [upstream_of ip p] else [])
    by by intros [].
  rewrite !Hone. unfold add_port, serves at 2 5.
  destruct (String.eqb (Mode p) PortModeIngress); cbn [negb andb]; [|by rewrite !app_nil_r].
  assert (Hap : forall m, map_get (map_append (Hostname p) (upstream_of ip p) m) h =
    map_get m h ++ (if String.eqb (Hostname p) h then [upstream_of ip p] else [])).
  { intros m. rewrite map_get_append. by destruct (String.eqb_spec (Hostname p) h), (decide (Hostname p = h)). }
  fold (upstream_of ip p). destruct (String.eqb_spec (Protocol p) ProtocolHTTP) as [Hp|Hp].
  - rewrite Hp. change (String.eqb ProtocolHTTP ProtocolHTTPS) with false. cbn [fst snd andb].
    by rewrite Hap, app_nil_r.
  - destruct (String.eqb (Protocol p) ProtocolHTTPS); cbn [fst snd andb]; by rewrite ?Hap, !app_nil_r.
Qed.

Lemma upstreams_get h cs maps :
  map_get (fold_left add_container cs maps).1 h = map_get maps.1 h ++ concat (map (contributed ProtocolHTTP h) cs) /\
  map_get (fold_left add_container cs maps).2 h = map_get maps.2 h ++ concat (map (contributed ProtocolHTTPS h) cs).
Proof.
  revert maps. induction cs as [|c cs IH]; intros maps; [by rewrite !app_nil_r|].
  cbn [fold_left map concat]. destruct (IH (add_container maps c)) as [-> ->]. unfold add_container, contributed at 2 5.
  destruct (negb (IsValid (UncloudNetworkIP (ctr c)))); [done|].
  destruct (ServicePorts c) as [ports|e]; [|done].
  destruct (add_ports_get (UncloudNetworkIP (ctr c)) h (els ports) maps) as [-> ->]. by rewrite <- !app_assoc.
Qed.

(** * The order of the records *)
Lemma nat_total : total_less Nat.ltb.
Proof. split; [split_and!|]; intros; rewrite ?Nat.ltb_lt, ?Nat.ltb_ge in *; lia. Qed.

Lemma strict_weak_key {A K} (f : A -> K) (less : K -> K -> bool) :
  strict_weak less -> strict_weak (fun a b => less (f a) (f b)).
Proof. intros (H1 & H2 & H3). split_and!; eauto. Qed.

Lemma record_less_weak g : strict_weak (record_less g).
Proof.
  apply lex_less_weak; [apply nat_total|]. apply lex_less_weak; [apply string_total|].
  apply (strict_weak_key (fun r => CreatedTime (ctr (rec_Container r))) Z.ltb), Z_total.
Qed.

Definition is_local (g : CaddyfileGenerator) (r : ContainerRecord) : Prop := rec_MachineID r = gen_machineID g.

Lemma rank_local g m : localMachineRank g m = 0 <-> m = gen_machineID g.
Proof. unfold localMachineRank. destruct (String.eqb_spec (gen_machineID g) m); split; congruence. Qed.

Lemma record_less_rank g a b :
  record_less g b a = false -> is_local g b -> is_local g a.
Proof.
  unfold record_less, lex_less, is_local. intros H Hb. apply rank_local in Hb. apply rank_local.
  destruct (decide _) as [E|Hne]; [congruence|]. apply Nat.ltb_ge in H. lia.
Qed.

Section StrictWeakSort.
Context {A : Type} (less : A -> A -> bool) (Hsw : strict_weak less).
Notation le := (fun x y => less y x = false).

Lemma sorted_strongly l : Sorted le l -> StronglySorted le l.
Proof.
  apply Sorted_StronglySorted. intros x y z Hxy Hyz. destruct (less z x) eqn:E; [|done].
  destruct (proj2 (proj2 Hsw) z y x E); congruence.
Qed.

(** Without ties the sorted order of a list is determined by its elements. *)
Lemma sorted_no_ties l1 l2 :
  (forall x y, x ∈ l1 -> y ∈ l1 -> less x y = false -> less y x = false -> x = y) ->
  StronglySorted le l1 -> StronglySorted le l2 -> l1 ≡ₚ l2 -> l1 = l2.
Proof.
  intros Hties Hs1. revert l2 Hties. induction Hs1 as [|x l1 Hs1 IH Hx]; intros l2 Hties Hs2 Hp.
  - symmetry. by apply Permutation_nil.
  - destruct Hs2 as [|y l2 Hs2 Hy]; [by apply Permutation_nil_r in Hp|].
    rewrite Forall_forall in Hx, Hy.
    assert (x = y) as <-.
    { assert (Hxin : x ∈ y :: l2) by (rewrite <- Hp; set_solver).
      assert (Hyin : y ∈ x :: l1) by (rewrite Hp; set_solver).
      apply elem_of_cons in Hxin as [->|Hxin]; [done|]. apply elem_of_cons in Hyin as [->|Hyin]; [done|].
      apply Hties; [set_solver|set_solver|by apply Hy|by apply Hx]. }
    f_equal. apply IH; [|done|by apply Permutation_cons_inv in Hp].
    intros a b Ha Hb. apply Hties; set_solver.
Qed.
End StrictWeakSort.

Lemma sort_records_sorted g rs : StronglySorted (fun x y => record_less g y x = false) (sort_records g rs).
Proof. apply sorted_strongly; [apply record_less_weak|]. apply insertion_sort_sorted, record_less_weak. Qed.

Lemma sort_records_local_first g rs :
  exists local remote, sort_records g rs = local ++ remote /\
    Forall (is_local g) local /\ Forall (fun r => ~ is_local g r) remote.
Proof.
  pose proof (sort_records_sorted g rs) as Hs. induction Hs as [|x l Hs (lo & re & -> & Hlo & Hre) Hx].
  - exists [], []. split_and!; constructor.
  - destruct (decide (rec_MachineID x = gen_machineID g)) as [Hl|Hr].
    + exists (x :: lo), re. split_and!; [done|by constructor|done].
    + exists [], (x :: lo ++ re). split_and!; [done|constructor|]. constructor; [done|].
      apply Forall_forall. intros y Hy Hyl. rewrite Forall_forall in Hx. apply Hr.
      by apply (record_less_rank g x y); [apply Hx|].
Qed.

Definition no_ties (g : CaddyfileGenerator) (rs : list ContainerRecord) : Prop :=
  forall a b, a ∈ rs -> b ∈ rs -> record_less g a b = false -> record_less g b a = false -> a = b.

Lemma sort_records_stable g rs rs' : no_ties g rs -> rs ≡ₚ rs' -> sort_records g rs = sort_records g rs'.
Proof.
  intros Hn Hp. apply (sorted_no_ties (record_less g)); [apply record_less_weak| | | |].
  - intros a b Ha Hb. unfold sort_records in Ha, Hb. rewrite insertion_sort_perm in Ha, Hb. by apply Hn.
  - apply sort_records_sorted.
  - apply sort_records_sorted.
  - unfold sort_records. by rewrite !insertion_sort_perm.
Qed.

(** * User-defined configs *)
Definition infix_of (p s : string) : Prop := exists a b, s = a +++ p +++ b.

Lemma infix_refl s : infix_of s s.
Proof. exists "", "". simpl. by rewrite string_app_nil_r. Qed.

Lemma infix_trans a b c : infix_of a b -> infix_of b c -> infix_of a c.
Proof.
  intros (x & y & ->) (z & w & ->). exists (z +++ x), (y +++ w).
  by rewrite !string_app_assoc.
Qed.
Lemma infix_app_l a b : infix_of b (a +++ b).
Proof. exists a, "". by rewrite string_app_nil_r. Qed.
Lemma infix_app_r a b : infix_of a (a +++ b).
Proof. by exists "", b. Qed.
Lemma infix_mid a b c : infix_of b c -> infix_of b (a +++ c).
Proof. intros H. apply (infix_trans _ c); [done|apply infix_app_l]. Qed.

Section Configs.
Context {HE : CaddyEnv}.
Implicit Types d : draft.

Definition accepted (d : draft) : Prop := is_ok (Validate d.1) = true.

(** [d'] extends [d]: anything new has been validated, and no error is forgotten. *)
Definition extends (d d' : draft) : Prop :=
  (d'.1 = d.1 \/ accepted d') /\ forall e, e ∈ d.2 -> e ∈ d'.2.

Lemma extends_refl d : extends d d.
Proof. split; [by left|done]. Qed.

Lemma extends_trans d1 d2 d3 : extends d1 d2 -> extends d2 d3 -> extends d1 d3.
Proof.
  intros (H1 & H2) (G1 & G2). split; [|auto].
  destruct G1 as [E|G1]; [|by right]. unfold accepted in *. rewrite E. done.
Qed.

Definition in_error (name : string) (errors : list string) : Prop :=
  exists e, ("service '" +++ name +++ "': " +++ e) ∈ errors.
(** The config is empty, rendered in the part of the Caddyfile, or reported as skipped. *)
Definition handled (name : string) (upstreams : upstreams_map) (c : ServiceContainer) (part : string)
  (errors : list string) : Prop :=
  CaddyConfig (spec c) = "" \/
  (exists rendered, renderCaddyfile name upstreams (CaddyConfig (spec c)) = Ok rendered /\ infix_of rendered part) \/
  in_error name errors.

Lemma handled_mono name upstreams c part part' errors errors' :
  infix_of part part' -> (forall e, e ∈ errors -> e ∈ errors') ->
  handled name upstreams c part errors -> handled name upstreams c part' errors'.
Proof.
  intros Hp He [H|[(r & Hr & Hin)|(e & Hin)]]; [by left|right; left|right; right].
  - exists r. split; [done|by eapply infix_trans].
  - exists e. by apply He.
Qed.

Lemma try_config_cases name upstreams config candidate d :
  let d' := try_config name upstreams config candidate d in
  (exists rendered, renderCaddyfile name upstreams config = Ok rendered /\
     d' = (candidate rendered, d.2) /\ accepted d') \/
  (d'.1 = d.1 /\ in_error name d'.2 /\ forall e, e ∈ d.2 -> e ∈ d'.2).
Proof.
  unfold try_config. cbv zeta.
  assert (Herr : forall msg, let d' := (d.1, d.2 ++ ["service '" +++ name +++ "': " +++ msg]) in
    d'.1 = d.1 /\ in_error name d'.2 /\ forall e, e ∈ d.2 -> e ∈ d'.2).
  { intros msg. split_and!; [done|exists msg; simpl; set_solver|simpl; set_solver]. }
  destruct (renderCaddyfile name upstreams config) as [rendered|e]; [|right; apply (Herr ("failed to render template: " +++ e))].
  destruct (Validate (candidate rendered)) as [u|e] eqn:Hv; [left|right; apply (Herr ("validation failed: " +++ e))].
  exists rendered. split_and!; [done|done|]. unfold accepted. simpl. by rewrite Hv.
Qed.

Lemma append_service_extends latest upstreams d name :
  let d' := append_service latest upstreams d name in
  extends d d' /\ exists after, d'.1 = d.1 +++ after /\
  forall c, name <> CaddyServiceName -> latest !! name = Some c -> handled name upstreams c after d'.2.
Proof.
  unfold append_service. cbv zeta.
  assert (Hsame : extends d d /\ d.1 = d.1 +++ "") by (by rewrite string_app_nil_r; split; [apply extends_refl|]).
  destruct (String.eqb_spec name CaddyServiceName); [by split; [apply Hsame|exists ""; split; [apply Hsame|]]|].
  destruct (latest !! name) as [c|] eqn:Hl; [|by split; [apply Hsame|exists ""; split; [apply Hsame|]]].
  destruct (String.eqb_spec (CaddyConfig (spec c)) "") as [He|He].
  { split; [apply Hsame|]. exists "". split; [apply Hsame|]. intros c' _ [= <-]. by left. }
  destruct (try_config_cases name upstreams (CaddyConfig (spec c)) (fun rendered =>
    d.1 +++ nl +++ "# User-defined config for service '" +++ name +++ "'." +++ nl +++ rendered +++ nl) d)
    as [(r & Hr & E & Ha)|(E & Hin & Hmono)].
  - split; [split; [by right|by rewrite E]|]. rewrite E. eexists. split; [done|].
    intros c' _ [= <-]. right. left. exists r. split; [done|]. do 5 apply infix_mid. apply infix_app_r.
  - split; [by split; [left|]|]. exists "". rewrite E, string_app_nil_r. split; [done|].
    intros c' _ [= <-]. by right; right.
Qed.

Lemma append_services_extends latest upstreams names d :
  let d' := fold_left (append_service latest upstreams) names d in
  extends d d' /\ exists after, d'.1 = d.1 +++ after /\
  forall name c, name ∈ names -> name <> CaddyServiceName -> latest !! name = Some c ->
    handled name upstreams c after d'.2.
Proof.
  revert d. induction names as [|n names IH]; intros d; cbn [fold_left].
  - split; [apply extends_refl|]. exists "". rewrite string_app_nil_r. split; [done|]. by intros name c ?%not_elem_of_nil.
  - destruct (append_service_extends latest upstreams d n) as (H1 & a1 & E1 & G1).
    destruct (IH (append_service latest upstreams d n)) as (H2 & a2 & E2 & G2). split; [by eapply extends_trans|].
    exists (a1 +++ a2). rewrite E2, E1, string_app_assoc. split; [done|].
    intros name c [->|Hin]%elem_of_cons Hn Hl.
    + eapply handled_mono; [| |by apply G1]; [apply infix_app_r|apply H2].
    + eapply handled_mono; [| |by apply G2]; [apply infix_app_l|done].
Qed.

Lemma prepend_global_extends found upstreams d :
  let d' := prepend_global found upstreams d in
  extends d d' /\ exists before, d'.1 = before +++ d.1 /\
  forall c, found = Some c -> handled (ServiceName c) upstreams c before d'.2.
Proof.
  unfold prepend_global. cbv zeta. destruct found as [c|].
  2: { split; [apply extends_refl|]. by exists "". }
  destruct (String.eqb_spec (CaddyConfig (spec c)) "") as [He|He].
  { split; [apply extends_refl|]. exists "". split; [done|]. intros c' [= <-]. by left. }
  destruct (try_config_cases (ServiceName c) upstreams (CaddyConfig (spec c)) (fun rendered =>
    "# User-defined global config from service '" +++ ServiceName c +++ "'." +++ nl +++ rendered +++ nl +++ nl +++ d.1) d)
    as [(r & Hr & E & Ha)|(E & Hin & Hmono)].
  - split; [split; [by right|by rewrite E]|]. rewrite E.
    exists ("# User-defined global config from service '" +++ ServiceName c +++ "'." +++ nl +++ r +++ nl +++ nl).
    split; [by rewrite !string_app_assoc|]. intros c' [= <-]. right. left. exists r. split; [done|].
    do 4 apply infix_mid. apply infix_app_r.
  - split; [by split; [left|]|]. exists "". split; [done|]. intros c' [= <-]. by right; right.
Qed.
End Configs.

Lemma latest_snoc cs c : latestServiceContainers (cs ++ [c]) = add_latest (latestServiceContainers cs) c.
Proof. unfold latestServiceContainers. by rewrite fold_left_app. Qed.

Lemma latest_present cs c : c ∈ cs -> is_Some (latestServiceContainers cs !! ServiceName c).
Proof.
  induction cs as [|x cs IH] using rev_ind; [by intros ?%not_elem_of_nil|]. rewrite latest_snoc. unfold add_latest.
  assert (Hins : forall m : gmap string ServiceContainer, is_Some (m !! ServiceName c) \/ x = c -> is_Some (<[ServiceName x := x]> m !! ServiceName c)).
  { intros m Hm. destruct (decide (ServiceName x = ServiceName c)) as [->|Hne]; [by rewrite lookup_insert_eq|].
    rewrite lookup_insert_ne by done. destruct Hm; congruence. }
  intros [Hc| ->%list_elem_of_singleton]%elem_of_app.
  - destruct (latestServiceContainers cs !! ServiceName x); [destruct (newer x s)|]; auto.
  - destruct (latestServiceContainers cs !! ServiceName x) eqn:E; [destruct (newer x s); [auto|by rewrite E]|auto].
Qed.

(** The latest container of a service is one with no newer one beside it. *)
Definition newest (name : string) (cs : list ServiceContainer) (c : ServiceContainer) : Prop :=
  c ∈ cs /\ ServiceName c = name /\ forall c', c' ∈ cs -> ServiceName c' = name -> newer c' c = false.

Lemma newest_snoc name cs x c :
  newest name cs c -> (ServiceName x = name -> newer x c = false) -> newest name (cs ++ [x]) c.
Proof.
  intros (Hin & Hn & Hm) Hx. split_and!; [set_solver|done|].
  intros c' [Hc'| ->%list_elem_of_singleton]%elem_of_app Hn'; auto.
Qed.

Lemma latest_lookup cs name c : latestServiceContainers cs !! name = Some c -> newest name cs c.
Proof.
  revert name c. induction cs as [|x cs IH] using rev_ind; intros name c; [done|]. rewrite latest_snoc.
  assert (Hother : ServiceName x <> name -> latestServiceContainers cs !! name = Some c -> newest name (cs ++ [x]) c).
  { intros Hne Hl. apply newest_snoc; [by apply IH|done]. }
  assert (Hnew : ServiceName x = name -> (forall c', c' ∈ cs -> ServiceName c' = name -> newer c' x = false) ->
    newest name (cs ++ [x]) x).
  { intros Hn Hm. split_and!; [set_solver|done|]. intros c' [Hc'| ->%list_elem_of_singleton]%elem_of_app Hn'; [auto|unfold newer; lia]. }
  unfold add_latest. destruct (latestServiceContainers cs !! ServiceName x) as [best|] eqn:Hb.
  - destruct (IH _ _ Hb) as (Hin & Hn & Hmax). destruct (newer x best) eqn:Hlt.
    + destruct (decide (ServiceName x = name)) as [<-|Hne]; [|rewrite lookup_insert_ne by done; auto].
      rewrite lookup_insert_eq. intros [= <-]. apply Hnew; [done|]. intros c' Hc' Hn'.
      specialize (Hmax c' Hc' Hn'). unfold newer in *. lia.
    + intros Hl. apply newest_snoc; [by apply IH|]. congruence.
  - destruct (decide (ServiceName x = name)) as [<-|Hne]; [|rewrite lookup_insert_ne by done; auto].
    rewrite lookup_insert_eq. intros [= <-]. apply Hnew; [done|]. intros c' Hc' Hn'.
    destruct (latest_present cs c' Hc') as [b Hl]. congruence.
Qed.

Lemma elem_of_sorted_keys {V} (m : gmap string V) k : k ∈ sorted_keys m <-> is_Some (m !! k).
Proof.
  unfold sorted_keys. rewrite sort_strings_perm, list_elem_of_In, in_map_iff. setoid_rewrite <- list_elem_of_In. split.
  - intros ([k' v] & <- & Hkv%elem_of_map_to_list). simpl. by exists v.
  - intros [v Hv]. exists (k, v). split; [done|]. by apply elem_of_map_to_list.
Qed.

(** The 'caddy' container whose global config is used: the newest of this machine. *)
Definition is_caddy (g : CaddyfileGenerator) (r : ContainerRecord) : Prop :=
  is_local g r /\ ServiceName (rec_Container r) = CaddyServiceName.

Lemma caddy_container_newest g rs :
  match caddy_container g rs with
  | None => forall r, r ∈ rs -> ~ is_caddy g r
  | Some c => (exists r, r ∈ rs /\ is_caddy g r /\ rec_Container r = c) /\
      forall r, r ∈ rs -> is_caddy g r -> newer (rec_Container r) c = false
  end.
Proof.
  induction rs as [|r rs IH] using rev_ind; [by intros r ?%not_elem_of_nil|].
  unfold caddy_container in *. rewrite fold_left_app. cbn [fold_left].
  set (found := fold_left _ rs None) in *.
  assert (Hd : is_caddy g r <->
    String.eqb (rec_MachineID r) (gen_machineID g) && String.eqb (ServiceName (rec_Container r)) CaddyServiceName = true).
  { unfold is_caddy, is_local. by rewrite andb_true_iff, !String.eqb_eq. }
  assert (Hkeep : (is_caddy g r -> exists c, found = Some c /\ newer (rec_Container r) c = false) ->
    match found with None => forall r', r' ∈ rs ++ [r] -> ~ is_caddy g r'
    | Some c => (exists r', r' ∈ rs ++ [r] /\ is_caddy g r' /\ rec_Container r' = c) /\
        forall r', r' ∈ rs ++ [r] -> is_caddy g r' -> newer (rec_Container r') c = false end).
  { destruct found as [c|]; intros Hr.
    - destruct IH as ((r' & H1 & H2 & H3) & Hmax). split; [exists r'; split_and!; [set_solver|done..]|].
      intros r2 [H| ->%list_elem_of_singleton]%elem_of_app Hc; [by apply Hmax|]. by destruct (Hr Hc) as (? & [= <-] & ?).
    - intros r2 [H| ->%list_elem_of_singleton]%elem_of_app Hc; [by apply (IH r2)|]. by destruct (Hr Hc) as (? & ? & ?). }
  destruct (String.eqb _ _ && String.eqb _ _) eqn:E; cbn [andb]; [|apply Hkeep; intros Hc%Hd; congruence].
  destruct found as [best|]; [destruct (newer (rec_Container r) best) eqn:Hn|]; [| |split].
  - destruct IH as (_ & Hmax). split; [exists r; split_and!; [set_solver|by apply Hd|done]|].
    intros r2 [H| ->%list_elem_of_singleton]%elem_of_app Hc; [|unfold newer; lia].
    specialize (Hmax r2 H Hc). unfold newer in *. lia.
  - apply Hkeep. eauto.
  - exists r. split_and!; [set_solver|by apply Hd|done].
  - intros r2 [H| ->%list_elem_of_singleton]%elem_of_app Hc; [by destruct (IH r2)|unfold newer; lia].
Qed.

(** * The sites *)

Lemma fold_left_invariant {A B} (I : A -> Prop) (f : A -> B -> A) l x :
  I x -> (forall y b, I y -> I (f y b)) -> I (fold_left f l x).
Proof. intros Hx Hf. revert x Hx. induction l; simpl; auto. Qed.

(** A hostname is in the map as soon as it has an upstream. *)
Definition proper_keys (m : gmap string (list string)) : Prop := forall h, is_Some (m !! h) <-> map_get m h <> [].

Lemma proper_empty : proper_keys ∅.
Proof. intros h. unfold map_get. rewrite lookup_empty. split; [by intros []|done]. Qed.

Lemma proper_append k v (m : gmap string (list string)) : proper_keys m -> proper_keys (map_append k v m).
Proof.
  intros Hm h. rewrite map_get_append. unfold map_append. destruct (decide (k = h)) as [->|Hne].
  - split; [intros _ H; by apply app_eq_nil in H as [_ H]|intros _; rewrite lookup_insert_eq; by eexists].
  - rewrite lookup_insert_ne, app_nil_r by done. apply Hm.
Qed.

Lemma upstreams_proper cs : proper_keys (httpUpstreamsFromPorts cs).1 /\ proper_keys (httpUpstreamsFromPorts cs).2.
Proof.
  unfold httpUpstreamsFromPorts.
  apply (fold_left_invariant (fun maps => proper_keys maps.1 /\ proper_keys maps.2)).
  - split; exact proper_empty.
  - intros maps c H. unfold add_container. destruct (negb _); [done|]. destruct (ServicePorts c) as [ports|]; [|done].
    apply (fold_left_invariant (fun maps => proper_keys maps.1 /\ proper_keys maps.2)); [done|].
    intros maps' p [H3 H4]. unfold add_port. destruct (negb _); [done|].
    destruct (String.eqb _ _); [split; [by apply proper_append|done]|].
    destruct (String.eqb _ _); [split; [done|by apply proper_append]|done].
Qed.

(** The upstreams of a hostname, and the text of one site for each hostname that has some. *)
Definition upstreams_for (protocol hostname : string) (cs : list ServiceContainer) : list string :=
  concat (map (contributed protocol hostname) cs).

Definition sites_of (scheme protocol : string) (cs : list ServiceContainer) (text : string) : Prop :=
  exists hosts, Sorted String.le hosts /\ NoDup hosts /\
    (forall h, h ∈ hosts <-> upstreams_for protocol h cs <> []) /\
    text = concat_strings (map (fun h => site scheme h (upstreams_for protocol h cs)) hosts).

Lemma sites_sites_of scheme protocol cs m :
  proper_keys m -> (forall h, map_get m h = upstreams_for protocol h cs) -> sites_of scheme protocol cs (sites scheme m).
Proof.
  intros Hp Hm. exists (sorted_keys m). split_and!.
  - apply sort_strings_Sorted.
  - unfold sorted_keys. rewrite sort_strings_perm. apply NoDup_fst_map_to_list.
  - intros h. by rewrite elem_of_sorted_keys, <- Hm.
  - unfold sites. f_equal. apply map_ext. intros h. by rewrite Hm.
Qed.

Lemma base_sites machineID cs :
  exists comment http https,
    generateBaseFromPorts machineID cs = base_prologue machineID +++ comment +++ http +++ https +++ nl /\
    (comment = "" \/ comment = nl +++ nl +++ "# Sites generated from service ports.") /\
    sites_of "http" ProtocolHTTP cs http /\ sites_of "https" ProtocolHTTPS cs https.
Proof.
  unfold generateBaseFromPorts. destruct (upstreams_proper cs) as [P1 P2].
  assert (Hg : forall h, map_get (httpUpstreamsFromPorts cs).1 h = upstreams_for ProtocolHTTP h cs /\
    map_get (httpUpstreamsFromPorts cs).2 h = upstreams_for ProtocolHTTPS h cs).
  { intros h. unfold httpUpstreamsFromPorts. by destruct (upstreams_get h cs (∅, ∅)) as [-> ->]. }
  destruct (httpUpstreamsFromPorts cs) as [http https]. eexists _, (sites "http" http), (sites "https" https).
  split_and!; [done|by destruct (_ && _); [left|right]|..]; (apply sites_sites_of; [done|apply Hg]).
Qed.

(** [c] is the container of this machine's newest 'caddy' record. *)
Definition r_in_force (g : CaddyfileGenerator) (rs : list ContainerRecord) (c : ServiceContainer) : Prop :=
  (exists r, r ∈ rs /\ is_caddy g r /\ rec_Container r = c) /\
  forall r, r ∈ rs -> is_caddy g r -> newer (rec_Container r) c = false.

Lemma custom_spec `{HE : CaddyEnv} g rs base :
  let cs := map rec_Container rs in
  let d := custom_configs g rs base in
  exists before after errors, let body := before +++ base +++ after in
    header g now_text +++ nl +++ d.1 +++ error_summary d.2 = header g now_text +++ nl +++ body +++ error_summary errors /\
    (body = base \/ is_ok (Validate body) = true) /\
    (forall r, r ∈ rs -> is_caddy g r -> exists newest_caddy,
       r_in_force g rs newest_caddy /\ handled CaddyServiceName (serviceUpstreams cs) newest_caddy before errors) /\
    forall c, c ∈ cs -> ServiceName c <> CaddyServiceName ->
      exists latest, newest (ServiceName c) cs latest /\
        handled (ServiceName c) (serviceUpstreams cs) latest after errors.
Proof.
  cbv zeta. unfold custom_configs. set (cs := map rec_Container rs).
  pose proof (caddy_container_newest g rs) as Hcc.
  destruct (prepend_global_extends (caddy_container g rs) (serviceUpstreams cs) (base, [])) as (H1 & before & E1 & G1).
  set (d0 := prepend_global _ _ _) in *.
  destruct (append_services_extends (latestServiceContainers cs) (serviceUpstreams cs)
    (sorted_keys (latestServiceContainers cs)) d0) as (H2 & after & E2 & G2).
  set (d := fold_left _ _ _) in *. exists before, after, d.2.
  assert (Hd : d.1 = before +++ base +++ after) by (rewrite E2, E1; simpl; by rewrite string_app_assoc).
  rewrite <- Hd. split_and!; [done| | |].
  - destruct (extends_trans _ _ _ H1 H2) as [Hv _]. exact Hv.
  - intros r Hr Hc. destruct (caddy_container g rs) as [c|]; [|by destruct (Hcc r)].
    exists c. split; [exact Hcc|]. destruct Hcc as ((r' & _ & (_ & <-) & <-) & _).
    eapply handled_mono; [apply infix_refl|apply H2|]. by apply G1.
  - intros c Hc Hn. destruct (latest_present cs c Hc) as [latest Hl]. exists latest. split; [by apply latest_lookup|].
    apply G2; [|done|done]. apply elem_of_sorted_keys. by exists latest.
Qed.

(** * Properties *)


(** ** The controller *)

(** The containers of a listing that the Caddyfile is generated from. *)
Definition healthy_part (records containers : list ContainerRecord) : Prop :=
  sublist containers records /\
  forall r, r ∈ containers <->
    r ∈ records /\ IsHook (rec_Container r) = false /\ Healthy (ctr (rec_Container r)) = true.

Lemma sublist_filter {A} (f : A -> bool) l : sublist (List.filter f l) l.
Proof. induction l as [|x l IH]; simpl; [done|]. destruct (f x); by constructor. Qed.

Lemma filterHealthy_part records : healthy_part records (filterHealthyContainers records).
Proof.
  unfold filterHealthyContainers. split; [apply sublist_filter|]. intros r.
  by rewrite !list_elem_of_In, filter_In, andb_true_iff, negb_true_iff.
Qed.

Section ControllerHistory.
Context `{HS : GoSort} (g : CaddyfileGenerator).
Notation event := (surroundings * list ContainerRecord)%type.
Implicit Types changes : list event.

(** A config generated in the handling of one of the changes, from its healthy containers: one
    for a Caddy that is not there, or one that it has loaded. *)
Definition generated_offline changes (config : string) : Prop :=
  exists s records containers, (s, records) ∈ changes /\ healthy_part records containers /\
    IsAvailable s = false /\ config = @Generate (env s) g containers false.
Definition loaded_from changes (config : string) (containers : list ContainerRecord) : Prop :=
  exists s records, (s, records) ∈ changes /\ healthy_part records containers /\
    IsAvailable s = true /\ config = @Generate (env s) g containers true /\ Load s config = true.
Definition left_by_failure changes (content : string) : Prop :=
  exists s records, (s, records) ∈ changes /\ WriteFile s = WriteFailed (Some content).
Definition writes_succeed changes : Prop :=
  Forall (fun ev : event => WriteFile ev.1 = Written /\ Chown ev.1 = true) changes.

Definition accounted changes (c : Controller) (content : string) : Prop :=
  content ∈ loads c \/ generated_offline changes content \/ left_by_failure changes content.

Record controller_ok changes (c : Controller) : Prop := {
  ok_generator : generator c = g;
  ok_disk : forall f, disk c = Some f -> accounted changes c f;
  ok_loads : forall config, config ∈ loads c -> exists containers, loaded_from changes config containers;
  ok_fingerprint : forall fp, lastFingerprint c = Some fp -> exists config rest containers,
    loads c = config :: rest /\ loaded_from changes config containers /\ fp = fingerprintContainers containers;
  ok_last : writes_succeed changes ->
    disk c = None /\ lastCaddyfile c = "" \/ disk c = Some (lastCaddyfile c) }.

Lemma body_nonempty a b : b <> "" -> caddyfileBody (a +++ nl +++ b) <> "".
Proof.
  intros Hb. unfold caddyfileBody.
  assert (Hcut : exists pre post, cut_byte (ascii_of_nat 10) (a +++ nl +++ b) = Some (pre, post) /\ post <> "").
  { induction a as [|x a (pre & post & E & Hp)]; [by exists "", b|].
    cbn [String.append cut_byte]. destruct (Ascii.eqb x _); [exists "", (a +++ nl +++ b); split; [done|]|].
    - intros E'. by destruct a.
    - rewrite E. by exists (String x pre), post. }
  destruct Hcut as (pre & post & -> & Hp). exact Hp.
Qed.

Lemma header_body gen time rest : caddyfileBody (header gen time +++ rest) <> "".
Proof.
  unfold header, lines. cbn [map concat_strings]. rewrite (string_app_assoc _ nl).
  rewrite !(string_app_assoc _ _ rest). set (tail := _ +++ rest).
  apply body_nonempty. discriminate.
Qed.

Lemma Generate_body {HE : CaddyEnv} gen records custom : caddyfileBody (Generate gen records custom) <> "".
Proof. unfold Generate. destruct custom; apply header_body. Qed.

(** What a step does to the file, for a config whose text after the first line is not empty. *)
Lemma write_disk changes s f c :
  controller_ok changes c -> writes_succeed changes -> WriteFile s = Written -> Chown s = true ->
  caddyfileBody f <> "" ->
  let c' := writeCaddyfileIfChanged s f c in
  disk c' = Some (match disk c with
                  | Some f' => if String.eqb (caddyfileBody f) (caddyfileBody f') then f' else f
                  | None => f
                  end) /\ disk c' = Some (lastCaddyfile c').
Proof.
  intros Hok Hw H1 H2 Hf. unfold writeCaddyfileIfChanged. rewrite H1, H2. cbv zeta.
  destruct (ok_last _ _ Hok Hw) as [(Hd & Hl)|Hd].
  - rewrite Hl, Hd. change (caddyfileBody "") with "". by rewrite (proj2 (String.eqb_neq _ _) Hf).
  - rewrite Hd. by destruct (String.eqb _ (caddyfileBody (lastCaddyfile c))).
Qed.

Lemma accounted_mono changes changes' c c' f :
  (forall ev, ev ∈ changes -> ev ∈ changes') -> (forall config, config ∈ loads c -> config ∈ loads c') ->
  accounted changes c f -> accounted changes' c' f.
Proof.
  intros Hc Hl [H|[(s & r & cs & H1 & H2)|(s & r & H1 & H2)]]; [left; by apply Hl|right; left|right; right].
  - exists s, r, cs. split; [by apply Hc|done].
  - exists s, r. split; [by apply Hc|done].
Qed.

Lemma loaded_mono changes changes' config containers :
  (forall ev, ev ∈ changes -> ev ∈ changes') -> loaded_from changes config containers -> loaded_from changes' config containers.
Proof. intros Hc (s & r & H1 & H2). exists s, r. split; [by apply Hc|done]. Qed.

Lemma write_ok changes s records f c :
  controller_ok changes c -> (s, records) ∈ changes -> accounted changes c f -> caddyfileBody f <> "" ->
  controller_ok changes (writeCaddyfileIfChanged s f c).
Proof.
  intros Hok Hin Hf Hne. pose proof Hok as [Hg Hd Hl Hfp _].
  assert (Hlast : writes_succeed changes -> disk (writeCaddyfileIfChanged s f c) = Some (lastCaddyfile (writeCaddyfileIfChanged s f c))).
  { intros Hw. pose proof Hw as Hall. unfold writes_succeed in Hall. rewrite Forall_forall in Hall.
    destruct (Hall _ Hin) as [H1 H2]. by apply (write_disk changes s f c). }
  assert (Hkeep : generator (writeCaddyfileIfChanged s f c) = g /\ loads (writeCaddyfileIfChanged s f c) = loads c /\
    lastFingerprint (writeCaddyfileIfChanged s f c) = lastFingerprint c /\
    forall f', disk (writeCaddyfileIfChanged s f c) = Some f' -> accounted changes c f').
  { unfold writeCaddyfileIfChanged. destruct (String.eqb _ _); [by split_and!|].
    destruct (WriteFile s) as [|left] eqn:Hw; split_and!; try done; simpl; intros f' E.
    - by injection E as <-.
    - right. right. exists s, records. by rewrite Hw, E. }
  destruct Hkeep as (K1 & K2 & K3 & K4). split; [done| | | |auto].
  - intros f' Hf'. apply (accounted_mono changes changes c); [done|by rewrite K2|by apply K4].
  - by rewrite K2.
  - rewrite K3. setoid_rewrite K2. exact Hfp.
Qed.

Lemma generate_ok changes s records c :
  controller_ok changes c ->
  controller_ok (changes ++ [(s, records)]) (generateAndLoadCaddyfile s (filterHealthyContainers records) c).
Proof.
  intros [Hg Hd Hl Hf Hlast]. set (changes' := changes ++ [(s, records)]).
  assert (Hsub : forall ev, ev ∈ changes -> ev ∈ changes') by (intros; apply elem_of_app; by left).
  assert (Hin : (s, records) ∈ changes') by (apply elem_of_app; right; set_solver).
  assert (Hokc : forall fp, (fp = lastFingerprint c \/ fp = None) -> controller_ok changes' (with_fingerprint c fp (loads c))).
  { intros fp Hfp. split; simpl; [done| | | |].
    - intros f E. by apply (accounted_mono changes changes' c); [| |apply Hd].
    - intros config Hc. destruct (Hl config Hc) as [cs Hcs]. exists cs. by eapply loaded_mono.
    - intros fp' ->. destruct Hfp as [Hfp|]; [|done]. destruct (Hf fp' (eq_sym Hfp)) as (config & rest & cs & H1 & H2 & H3).
      exists config, rest, cs. split_and!; [done|by eapply loaded_mono|done].
    - intros Hw. apply Hlast. unfold writes_succeed, changes' in *. by apply Forall_app in Hw as [Hw _]. }
  assert (Hsame : c = with_fingerprint c (lastFingerprint c) (loads c)) by by destruct c.
  unfold generateAndLoadCaddyfile. rewrite Hg.
  destruct (IsAvailable s) eqn:Ha; cbn [negb andb].
  2: { apply (write_ok changes' s records); [rewrite Hsame; apply Hokc; by left|done| |apply Generate_body].
       right. left. exists s, records, (filterHealthyContainers records). split_and!; [done|apply filterHealthy_part|done|done]. }
  destruct (equal_func _ _ _); [rewrite Hsame; apply Hokc; by left|].
  destruct (Load s _) eqn:HL; [|apply Hokc; by right].
  assert (Hfrom : loaded_from changes' (@Generate (env s) g (filterHealthyContainers records) true) (filterHealthyContainers records)).
  { exists s, records. split_and!; [done|apply filterHealthy_part|done|done|done]. }
  apply (write_ok changes' s records); [|done|left; simpl; set_solver|apply Generate_body].
  destruct (Hokc _ (or_introl eq_refl)) as [Kg Kd Kl Kf Klast]. simpl in Kd, Kl.
  split; simpl; [done| | | |exact Klast].
  - intros f E. eapply (accounted_mono changes'); [done| |by apply Kd]. simpl. set_solver.
  - intros config [->|Hc]%elem_of_cons; [eauto|by apply Kl].
  - intros fp [= <-]. by eexists _, _, _.
Qed.

Lemma controller_run_ok changes c0 :
  controller_ok [] c0 -> controller_ok changes (controller_run changes c0).
Proof.
  intros H0. unfold controller_run. induction changes as [|[s records] changes IH] using rev_ind; [done|].
  rewrite fold_left_app. by apply generate_ok.
Qed.

Lemma skipped_same changes c containers :
  controller_ok changes c ->
  equal_func fingerprint_Equal (fingerprintContainers containers) (els (lastFingerprint c)) = true ->
  containers = [] \/ exists config rest old, loads c = config :: rest /\ loaded_from changes config old /\
    equal_func fingerprint_Equal (fingerprintContainers containers) (fingerprintContainers old) = true.
Proof.
  intros Hok He. destruct (lastFingerprint c) as [fp|] eqn:Hfp; simpl in He.
  - right. destruct (ok_fingerprint _ _ Hok fp Hfp) as (config & rest & old & H1 & H2 & ->). by exists config, rest, old.
  - left. destruct containers as [|r rs]; [done|]. exfalso. unfold fingerprintContainers in He.
    pose proof (Permutation_length (sort_slice_perm _ (fun a b => String.ltb (fp_ID a) (fp_ID b)) (map fingerprint_of (r :: rs)))) as Hlen.
    by destruct (sort_slice _ _).
Qed.
End ControllerHistory.


(** A failed write is not always made good: what it left stays on disk if the next config is
    the one that was written before it. *)
Lemma failed_write_not_retried s1 s2 f1 f2 left_behind c :
  WriteFile s1 = WriteFailed left_behind ->
  caddyfileBody f1 <> caddyfileBody (lastCaddyfile c) -> caddyfileBody f2 = caddyfileBody (lastCaddyfile c) ->
  disk (writeCaddyfileIfChanged s2 f2 (writeCaddyfileIfChanged s1 f1 c)) = left_behind.
Proof.
  intros Hw H1 H2. unfold writeCaddyfileIfChanged at 2. rewrite (proj2 (String.eqb_neq _ _) H1), Hw.
  unfold writeCaddyfileIfChanged. cbn [lastCaddyfile]. by rewrite H2, String.eqb_refl.
Qed.

(** A config that Caddy loses by a restart is not loaded again: while Caddy is unavailable the
    Caddyfile on disk is replaced by one without user-defined configs, the fingerprint of the
    last load is kept, and once Caddy is back the regeneration from the same containers is
    skipped. *)
Lemma restart_not_reloaded `{GoSort} c containers unavailable back :
  lastFingerprint c = Some (fingerprintContainers containers) ->
  equal_func fingerprint_Equal (fingerprintContainers containers) (fingerprintContainers containers) = true ->
  IsAvailable unavailable = false -> WriteFile unavailable = Written ->
  IsAvailable back = true ->
  let written := @Generate (env unavailable) (generator c) containers false in
  caddyfileBody written <> caddyfileBody (lastCaddyfile c) ->
  let c' := generateAndLoadCaddyfile back containers (generateAndLoadCaddyfile unavailable containers c) in
  disk c' = Some written /\ loads c' = loads c.
Proof.
  cbv zeta. intros Hf Heq Hu Hw Hb Hbody. unfold generateAndLoadCaddyfile at 2 4. rewrite Hu. cbn [negb andb].
  assert (Hst : writeCaddyfileIfChanged unavailable (@Generate (env unavailable) (generator c) containers false) c =
    mkController (generator c) (lastFingerprint c)
      (if Chown unavailable then @Generate (env unavailable) (generator c) containers false else lastCaddyfile c)
      (Some (@Generate (env unavailable) (generator c) containers false)) (loads c)).
  { unfold writeCaddyfileIfChanged. rewrite (proj2 (String.eqb_neq _ _) Hbody), Hw. done. }
  rewrite Hst. unfold generateAndLoadCaddyfile. rewrite Hb. cbn [lastFingerprint]. rewrite Hf. unfold els, default.
  cbn [from_option]. unfold id. by rewrite Heq.
Qed.
